(* ===== verification/_CoqProject ===== *)
-Q . S2P
Prelude.v
Poly1305.v
Chacha.v
Sha256.v
Aead.v
Util.v
Compression.v
Envelope.v
Security.v
FaultInjection.v
Storage.v
FlashLayer.v
FlashMirror.v
WearLevel.v
Transport.v
Spool.v
Boot.v
Provisioning.v
Ota.v
Blackbox.v
Telemetry.v
Anomaly.v
Services.v
Policy.v
Encode.v
Payload.v
EncodeFacts.v
Retained.v
Runtime.v
RuntimeFacts.v
SecureStorage.v
Network.v
CortexM.v
Arch.v
Linux.v
FileBackend.v
ResetReason.v
PortTransports.v
Dump.v
Stream.v
