(* ===== verification/Prelude.v ===== *)
(** * Latch: a verification development

    Latch is a C runtime for embedded devices that captures faults and errors, encodes
    them as envelopes, keeps them in a spool on flash until they are delivered, and keeps
    the device's boot, update and key state. This library models it and proves what makes
    it correct. The sources are under [src/] (C files), [include/laststate/] (headers),
    [arch/], [ports/] and [tools/] of the repository.

    ** Parts and files

    The files are in dependency order; each models one part, or proves facts about parts
    modelled before it. Definitions carry the names of the C functions and types.

    - [Prelude]: result codes, machine integers, byte strings, packed structures, the
      state monad, and the tactics and hints of the development.
    - [Poly1305], [Chacha], [Sha256], [Aead] ([security/poly1305.c], [chacha20.c],
      [sha256.c], [aead.c]): the built-in primitives. The class [Aead] states what the
      envelope encoder and the encrypted storage rely on; the built-in construction is an
      instance.
    - [Util] ([core/util.c]): CRC-32, string hash, the bounded writer.
    - [Compression] ([envelope/compression.c]): varint, run-length and delta codecs.
    - [Envelope] ([envelope/lep.c], decoding): validation and traversal of envelopes, and
      the replay window.
    - [Security] ([security/provider.c] and the rest of [sha256.c]): session key, policy,
      random source, and the gate and dispatch of an external crypto provider.
    - [FaultInjection] ([core/fault_injection.c]): named points at which a test can make
      an operation fail; [platform] threads the table through every storage operation.
    - [Storage] ([storage/memory_storage.c], [storage/storage_sim.c]): the backend record
      [ls_storage_backend_t], programming and erasure checks, plain memory and a simulated
      flash that loses power. The class [StorageOk] states what a backend promises: a
      write stores its bytes or tears, and nothing else changes. The parts above are
      proved against this class; memory, the simulator, the file backend, and the mirror
      over any raw backend are instances of it.
    - [FlashLayer], [FlashMirror] ([storage/flash_mirror.c]) and [WearLevel]
      ([storage/wear_level.c]): redundant images over a raw backend, with a commit marker.
    - [Transport] ([transport/transport.c]): registration, selection, exclusive use,
      retries, fragmentation and reassembly.
    - [Spool] ([spool/spool.c]): the store of undelivered events, over [Storage] and
      [Transport].
    - [Boot] ([core/boot.c], [ls_boot] of [core/runtime.c]): the persistent boot record,
      boot loops, releases and updates.
    - [Provisioning] ([core/provisioning.c], [security/secure_element.c]): the device key's
      life cycle in the boot record.
    - [Ota] ([core/ota.c]): over-the-air updates over the boot record.
    - [Blackbox] ([core/blackbox.c]): the ring of state records that survives a reset.
    - [Telemetry] ([metrics/], [core/health.c], [core/memory.c]) and [Services]
      ([core/mission.c], [time_sync.c], [environment.c], [supervisor.c], [performance.c],
      [trace.c], [fingerprint.c]): the bounded tables and small services an event reports.
      [Anomaly] ([capture/anomaly.c]) leaves breadcrumbs in them.
    - [Policy] ([core/policy.c]): duplicates, rate limits and sampling of events.
    - [Encode] ([envelope/lep.c], encoding and authenticated reading): the sections of an
      event, both protections, decryption. [Payload] lists the sections the encoder has to
      write, [payload_sections], and [EncodeFacts] proves what it does write.
    - [Retained] ([capture/capture.c], [core/powerfail.c]): the snapshots and the
      power-fail seal in memory that survives a reset, as sequences of stores.
    - [Runtime] ([core/runtime.c], [capture/capture.c], [core/log.c], [peripheral.c],
      [assert.c], [selftest.c], [build_id.c]): the runtime as a whole. [ls_capture_event]
      composes [Policy], [Encode] and [Spool]; the recovery functions compose it with
      [Retained]. [RuntimeFacts] proves what becomes of an event.
    - [SecureStorage] ([storage/secure_storage.c]): an encrypted image over a backend.
    - [Network] ([transport/network.c]): HTTP, MQTT and the incident beacon.
    - [CortexM], [Arch], [Linux] ([arch/]): fault handlers and saved registers.
    - [FileBackend] ([ports/embedded-linux/]), [ResetReason] ([ports/common/] and the
      vendors' reset registers), [PortTransports] ([ports/zephyr/], [ports/mbedtls/]).
    - [Dump] ([tools/latch_dump.c]): the host program that prints envelopes.
    - [Stream] ([transport/stream.c]): framing on a byte stream.

    ** How the code is modelled

    A C integer is a [Z] with its wrap-around written out ([u8], [u16], [u32], [u64]);
    [size_t] has 32 bits, as on the targets. A buffer is a list of bytes as [Z]; memory
    layouts are [pack]ed little-endian, as on the targets. A function that changes state
    is a state transformer [st S A := S -> A * S]; an error is a result code or the [Err]
    of [res]. A null pointer is [None] where the code tests for it. Callbacks of the
    integrator (storage, transports, clock, random source, secure element, crypto provider,
    update backend), system calls, drivers, registers and raw memory are arguments, over a
    state of their own; where a theorem needs something of one, a class or a named
    hypothesis says what, and a witness instantiates it. A critical section is one atomic
    step, and one operation reads the clock once. [ls_runtime.storage] is a parameter. The
    sizes are those of the default configuration of [include/laststate/config.h].

    ** Theorems

    Each numbered theorem has a comment with its claim.

    - Checksums and cryptography: C1 (CRC-32 detects every burst up to 32 bits), C2
      (Poly1305), C4 (SHA-256), C5 (the AEAD opens exactly what it seals).
    - Storage: C6 (programming is exact or torn), C9 (a mirrored write is atomic), C10 (and
      recovered after a loss of power), C11 (a file is a storage), C12 (level wear), C22 and
      C28 (encrypted images survive a restart, and are authentic when read).
    - Envelopes: C13 (what is encoded is valid), C14 (validation is exact), C15 (what is
      encoded reads back, with all its sections), C16 (the replay window), C27 (a failed
      encoding leaves nothing).
    - Faults: C3 and C17 (snapshot and power-fail seal are all or nothing), C7 (a Cortex-M
      fault leaves its record), C26 (a processor fault leaves its event or a snapshot), C29
      and C37 (both are given up only for their event).
    - Black box: C8 (reading returns the end of the log, until the sequence wraps).
    - Events: C25 (a capture adds exactly its record, or nothing), C36 (rate limits).
    - Transports: C18 (success only after delivery), C19 (bounded retries), C20
      (reassembly in any order), C38 (whole frames on a stream), C39 (the receiver accepts
      exactly the frames).
    - Spool: C21 (append is atomic), C23 (a flush loses corrupt records only), C24 (and
      drains everything when storage and network work).
    - Boot record: C30 (the anti-rollback floor), C31 (boot loops), C40 (updates over the
      air), C32 (no replayed command), C33 (key life cycle), C34 (decommissioning fails
      closed). C30, C32 and C33 cover restarts after a save that succeeded; a torn save of
      the single record makes the device forget it, [Boot.torn_save_forgets].
    - Tools: C35 (the dump as JSON is one whole document).

    Some computed lemmas show where the code falls short of its intent, and bound the
    theorems above: [wrap_hides_one], [failed_write_returns], [torn_save_forgets],
    [pending_taken_over], [extended_frame_misread], [acquire_not_exclusive],
    [append_unknown_type], [seal_refused_unread], [ti_reset_never_cleared],
    [tls_repeats_bytes], [ble_envelope_refused].

    ** Recursion and fuel

    C loops are structural recursions over the list they run through, or over a number
    that bounds the C loop: the length of the input in [validate_fields], [visit_fields]
    and the codecs (every round consumes a byte; C14 and C15 show that it is enough), the
    length of the region in [is_erased_loop], the retry limit in [retry_loop] (C19), the
    number of slots in [flush_passes], which is the bound of the C code itself (C24), the
    number of wanted records in [copy_loop] (C8), the number of frames or the length of the
    data in [PortTransports]. The loops of [FileBackend] repeat interrupted calls and run
    on fuel; more than the finite number of interruptions and the size of the file is
    enough (C11).

    ** Not modelled

    The ports that only call a vendor's or an operating system's library
    ([ports/esp-idf], [freertos], [zephyr/zephyr_latch.c], [libsodium], [cryptoauthlib]);
    the assembly that saves registers at a trap, other than the order of its calls;
    [capture/dna.c], which no build file lists and which uses floating point; bindings,
    examples and test benches. Preemption inside a function is not modelled, nor is a power
    loss while the black box, which is in RAM, stores a record, nor a restart after a
    save of the boot record that failed. Alternative configurations (other capacities,
    disabled features) are not modelled. *)

From Stdlib Require Import ZArith Lia Bool.
From stdpp Require Export base numbers list option tactics decidable strings.

#[global] Open Scope Z_scope.

(** ** Result codes of the C API ([include/laststate/event.h]) *)

Inductive ls_result_t : Set :=
| LS_OK | LS_EINVAL | LS_ENOSPACE | LS_EIO | LS_ECORRUPT | LS_EAGAIN
| LS_ENOTSUP | LS_EBUSY | LS_EAUTH | LS_EOVERFLOW.

#[export] Instance ls_result_eq_dec : EqDecision ls_result_t.
Proof. solve_decision. Defined.

(** [is_ok r] is the C test [r == LS_OK]. *)
Definition is_ok (r : ls_result_t) : bool :=
  match r with LS_OK => true | _ => false end.

Lemma is_ok_true r : is_ok r = true <-> r = LS_OK.
Proof. by destruct r. Qed.

Lemma is_ok_false r : is_ok r = false <-> r <> LS_OK.
Proof. by destruct r. Qed.

(** A call that yields a value through an out pointer, or fails with a code. *)
Inductive res (A : Type) : Type :=
| Ok (a : A)
| Err (e : ls_result_t).
Arguments Ok {A} a.
Arguments Err {A} e.

(** The C return code of such a call. *)
Definition code {A} (r : res A) : ls_result_t :=
  match r with Ok _ => LS_OK | Err e => e end.

(** ** Nullable pointers

    An out pointer that the code compares with [NULL] is modelled by whether it
    is set; an input buffer that it compares with [NULL] by an [option]. *)
Definition ptr := bool.
Definition NULL : ptr := false.
Definition SET : ptr := true.

(** ** Machine integers *)

Definition u8 (z : Z) : Z := z mod 2 ^ 8.
Definition u16 (z : Z) : Z := z mod 2 ^ 16.
Definition u32 (z : Z) : Z := z mod 2 ^ 32.
Definition u64 (z : Z) : Z := z mod 2 ^ 64.

(** Conversion of an unsigned 32-bit value to [int32_t] (two's complement). *)
Definition s32 (z : Z) : Z :=
  let v := u32 z in if v <? 2 ^ 31 then v else v - 2 ^ 32.

Definition UINT8_MAX : Z := 2 ^ 8 - 1.
Definition UINT16_MAX : Z := 2 ^ 16 - 1.
Definition UINT32_MAX : Z := 2 ^ 32 - 1.
(** [size_t] of the 32-bit targets. *)
Definition SIZE_MAX : Z := 2 ^ 32 - 1.

Definition is_u8 (z : Z) : Prop := 0 <= z < 2 ^ 8.
Definition is_u16 (z : Z) : Prop := 0 <= z < 2 ^ 16.
Definition is_u32 (z : Z) : Prop := 0 <= z < 2 ^ 32.
Definition is_u64 (z : Z) : Prop := 0 <= z < 2 ^ 64.

Lemma u8_range z : is_u8 (u8 z).
Proof. apply Z.mod_pos_bound. lia. Qed.

Lemma u16_range z : is_u16 (u16 z).
Proof. apply Z.mod_pos_bound. lia. Qed.

Lemma u32_range z : is_u32 (u32 z).
Proof. apply Z.mod_pos_bound. lia. Qed.

Lemma u64_range z : is_u64 (u64 z).
Proof. apply Z.mod_pos_bound. lia. Qed.

Lemma u8_id z : is_u8 z -> u8 z = z.
Proof. apply Z.mod_small. Qed.

Lemma u16_id z : is_u16 z -> u16 z = z.
Proof. apply Z.mod_small. Qed.

Lemma u32_id z : is_u32 z -> u32 z = z.
Proof. apply Z.mod_small. Qed.

Lemma u64_id z : is_u64 z -> u64 z = z.
Proof. apply Z.mod_small. Qed.

(** [uint32_t] increments of counters that wrap. *)
Definition inc32 (z : Z) : Z := u32 (z + 1).

(** Bits above the width of a value are clear. *)
Lemma testbit_above w z i : 0 <= w -> 0 <= z < 2 ^ w -> w <= i -> Z.testbit z i = false.
Proof.
  intros Hw Hz Hi. rewrite <- (Z.mod_small z (2 ^ w)) by done.
  apply Z.mod_pow2_bits_high. lia.
Qed.

(** A nonnegative value whose bits above [w] are clear is below [2^w]. *)
Lemma bound_by_bits w z :
  0 <= w -> (forall i, w <= i -> Z.testbit z i = false) -> 0 <= z < 2 ^ w.
Proof.
  intros Hw Hb. assert (z = z mod 2 ^ w) as ->.
  { apply Z.bits_inj'. intros i Hi. destruct (Z.lt_ge_cases i w).
    - by rewrite Z.mod_pow2_bits_low by lia.
    - rewrite Z.mod_pow2_bits_high by lia. apply Hb. lia. }
  apply Z.mod_pos_bound. lia.
Qed.

Lemma lxor_bound w a b : 0 <= w -> 0 <= a < 2 ^ w -> 0 <= b < 2 ^ w -> 0 <= Z.lxor a b < 2 ^ w.
Proof.
  intros Hw Ha Hb. apply bound_by_bits; [done|]. intros i Hi.
  rewrite Z.lxor_spec, !(testbit_above w) by done. done.
Qed.

Lemma lor_bound w a b : 0 <= w -> 0 <= a < 2 ^ w -> 0 <= b < 2 ^ w -> 0 <= Z.lor a b < 2 ^ w.
Proof.
  intros Hw Ha Hb. apply bound_by_bits; [done|]. intros i Hi.
  rewrite Z.lor_spec, !(testbit_above w) by done. done.
Qed.

Lemma land_bound_l w a b : 0 <= w -> 0 <= a < 2 ^ w -> 0 <= Z.land a b < 2 ^ w.
Proof.
  intros Hw Ha. apply bound_by_bits; [done|]. intros i Hi.
  rewrite Z.land_spec, (testbit_above w a) by done. done.
Qed.

(** Disjoint bits: [or] of a low part and a shifted high part is their sum. *)
Lemma lor_shiftl_add w a b : 0 <= w -> 0 <= a < 2 ^ w ->
  Z.lor a (Z.shiftl b w) = a + b * 2 ^ w.
Proof.
  intros Hw Ha. rewrite <- Z.shiftl_mul_pow2 by done.
  assert (Z.land a (Z.shiftl b w) = 0) as Hd.
  { apply Z.bits_inj'. intros i Hi. rewrite Z.land_spec, Z.bits_0.
    destruct (Z.lt_ge_cases i w).
    - rewrite (Z.shiftl_spec_low b w i) by done. apply andb_false_r.
    - by rewrite (testbit_above w a) by done. }
  pose proof (Z.add_lor_land a (Z.shiftl b w)). lia.
Qed.

(** A signed 32-bit value stored in two's complement. *)
Lemma s32_u32 v : - 2 ^ 31 <= v < 2 ^ 31 -> s32 (u32 v) = v.
Proof.
  intros Hv. unfold s32, u32. rewrite Z.mod_mod by lia. destruct (Z.lt_ge_cases v 0).
  - rewrite <- (Z.mod_unique v (2 ^ 32) (-1) (v + 2 ^ 32)) by lia. destruct (Z.ltb_spec (v + 2 ^ 32) (2 ^ 31)); lia.
  - rewrite Z.mod_small by lia. destruct (Z.ltb_spec v (2 ^ 31)); lia.
Qed.

(** ** Byte strings *)

Definition bytes := list Z.
Definition bytes_ok (l : list Z) : Prop := Forall is_u8 l.

(** The bytes of a C string literal, without the terminating zero. *)
Definition str (s : string) : list Z :=
  map (fun c => Z.of_N (Ascii.N_of_ascii c)) (String.list_ascii_of_string s).

(** The format [%u] of [printf]; a 32-bit value has at most ten digits. *)
Fixpoint decimal_digits (fuel : nat) (v : Z) : list Z :=
  match fuel with
  | O => []
  | S fuel => (if v <? 10 then [] else decimal_digits fuel (v / 10)) ++ [48 + v mod 10]
  end.
Definition decimal (v : Z) : list Z := decimal_digits 10 v.

(** The length of a list as a [size_t]. *)
Definition zlen {A} (l : list A) : Z := Z.of_nat (length l).

Lemma zlen_nonneg {A} (l : list A) : 0 <= zlen l.
Proof. unfold zlen. lia. Qed.

Lemma zlen_app {A} (l k : list A) : zlen (l ++ k) = zlen l + zlen k.
Proof. unfold zlen. rewrite length_app. lia. Qed.

Lemma zlen_cons {A} (a : A) (l : list A) : zlen (a :: l) = 1 + zlen l.
Proof. unfold zlen. simpl length. lia. Qed.

Lemma zlen_nil {A} : zlen (@nil A) = 0.
Proof. done. Qed.

(** [slice off len l]: the [len] bytes at [off], what a read returns. *)
Definition slice {A} (off len : Z) (l : list A) : list A :=
  take (Z.to_nat len) (drop (Z.to_nat off) l).

(** [splice off data l]: [l] with [data] stored at [off], what a write leaves. *)
Definition splice {A} (off : Z) (data l : list A) : list A :=
  take (Z.to_nat off) l ++ data ++ drop (Z.to_nat off + length data) l.

(** [len] copies of a byte. *)
Definition fill (len : Z) (b : Z) : list Z := replicate (Z.to_nat len) b.

Section Slices.
Context {A : Type}.
Implicit Types l data : list A.

Lemma length_slice off len l :
  0 <= off -> 0 <= len -> off + len <= zlen l -> length (slice off len l) = Z.to_nat len.
Proof. unfold slice, zlen. intros. rewrite length_take, length_drop. lia. Qed.

Lemma zlen_slice off len l :
  0 <= off -> 0 <= len -> off + len <= zlen l -> zlen (slice off len l) = len.
Proof. intros. unfold zlen. rewrite length_slice by done. lia. Qed.

Lemma length_splice off data l :
  0 <= off -> off + zlen data <= zlen l -> length (splice off data l) = length l.
Proof.
  unfold splice, zlen. intros. rewrite !length_app, length_take, length_drop. lia.
Qed.

Lemma zlen_splice off data l :
  0 <= off -> off + zlen data <= zlen l -> zlen (splice off data l) = zlen l.
Proof. intros. unfold zlen. by rewrite length_splice. Qed.

Lemma lookup_slice off len l i :
  0 <= off -> 0 <= len -> (Z.of_nat i < len) -> slice off len l !! i = l !! (Z.to_nat off + i)%nat.
Proof.
  intros. unfold slice. rewrite lookup_take_lt by lia. by rewrite lookup_drop.
Qed.

Lemma lookup_splice_in off data l i :
  0 <= off -> off + zlen data <= zlen l -> off <= Z.of_nat i < off + zlen data ->
  splice off data l !! i = data !! (i - Z.to_nat off)%nat.
Proof.
  unfold splice, zlen. intros.
  rewrite lookup_app_r by (rewrite length_take; lia).
  rewrite length_take, lookup_app_l by lia. f_equal. lia.
Qed.

Lemma lookup_splice_out off data l i :
  0 <= off -> off + zlen data <= zlen l ->
  Z.of_nat i < off \/ off + zlen data <= Z.of_nat i ->
  splice off data l !! i = l !! i.
Proof.
  unfold splice, zlen. intros ?? [Hi | Hi].
  - rewrite lookup_app_l by (rewrite length_take; lia). by rewrite lookup_take_lt by lia.
  - rewrite lookup_app_r by (rewrite length_take; lia).
    rewrite length_take, lookup_app_r by lia. rewrite lookup_drop. f_equal. lia.
Qed.

(** Reading back what was stored. *)
Lemma slice_splice_same off data l :
  0 <= off -> off + zlen data <= zlen l -> slice off (zlen data) (splice off data l) = data.
Proof.
  unfold slice, splice, zlen. intros.
  rewrite drop_app_ge by (rewrite length_take; lia). rewrite length_take.
  replace (Z.to_nat off - Z.to_nat off `min` length l)%nat with 0%nat by lia.
  rewrite drop_0, Nat2Z.id. by rewrite take_app_length.
Qed.

(** A store elsewhere is not seen. *)
Lemma slice_splice_disjoint off len off' data l :
  0 <= off -> 0 <= len -> 0 <= off' -> off' + zlen data <= zlen l ->
  off + len <= off' \/ off' + zlen data <= off ->
  slice off len (splice off' data l) = slice off len l.
Proof.
  intros Ho Hl Ho' Hb Hd. apply list_eq. intros i.
  destruct (Z.lt_ge_cases (Z.of_nat i) len).
  - rewrite !lookup_slice by done. apply lookup_splice_out; lia.
  - rewrite !lookup_ge_None_2; [done| |]; unfold slice; rewrite length_take; lia.
Qed.

(** A read inside what was stored. *)
Lemma slice_splice_within o n off data l :
  0 <= off -> off <= o -> 0 <= n -> o + n <= off + zlen data -> off + zlen data <= zlen l ->
  slice o n (splice off data l) = slice (o - off) n data.
Proof.
  intros. apply list_eq. intros i. destruct (Z.lt_ge_cases (Z.of_nat i) n).
  - rewrite !lookup_slice by lia. rewrite lookup_splice_in by lia. f_equal. lia.
  - rewrite !lookup_ge_None_2; [done| |]; unfold slice; rewrite length_take; lia.
Qed.

(** A slice of a slice. *)
Lemma slice_slice off len off' len' l :
  0 <= off -> 0 <= len -> 0 <= off' -> off + len <= len' ->
  slice off len (slice off' len' l) = slice (off' + off) len l.
Proof.
  intros. apply list_eq. intros i. destruct (Z.lt_ge_cases (Z.of_nat i) len).
  - rewrite lookup_slice by lia. rewrite !lookup_slice by lia. f_equal. lia.
  - rewrite !lookup_ge_None_2; [done| |]; unfold slice; rewrite length_take; lia.
Qed.

(** A store inside a slice. *)
Lemma slice_splice_inside off len off' data l :
  0 <= off -> off <= off' -> off' + zlen data <= off + len -> off + len <= zlen l ->
  slice off len (splice off' data l) = splice (off' - off) data (slice off len l).
Proof.
  intros Ho Ho' Hd Hb. pose proof (zlen_nonneg data).
  assert (zlen (slice off len l) = len) as Hs by (apply zlen_slice; lia).
  apply list_eq. intros i. destruct (Z.lt_ge_cases (Z.of_nat i) len).
  - rewrite lookup_slice by lia.
    destruct (decide (off' <= Z.of_nat i + off < off' + zlen data)).
    + rewrite lookup_splice_in by lia. rewrite lookup_splice_in by lia. f_equal. lia.
    + rewrite lookup_splice_out by lia. rewrite lookup_splice_out by lia.
      by rewrite lookup_slice by lia.
  - rewrite !lookup_ge_None_2; [done| |].
    + rewrite length_splice by lia. unfold zlen in Hs. lia.
    + rewrite length_slice; [lia..|]. rewrite zlen_splice; lia.
Qed.

(** A slice determined pointwise. *)
Lemma slice_ext off len l k :
  0 <= off -> 0 <= len ->
  (forall i : nat, off <= Z.of_nat i < off + len -> l !! i = k !! i) ->
  slice off len l = slice off len k.
Proof.
  intros Ho Hl H. apply list_eq. intros i. destruct (Z.lt_ge_cases (Z.of_nat i) len).
  - rewrite !lookup_slice by lia. apply H. lia.
  - rewrite !lookup_ge_None_2; [done| |]; unfold slice; rewrite length_take; lia.
Qed.

Lemma slice_app_l off len l k :
  0 <= off -> 0 <= len -> off + len <= zlen l -> slice off len (l ++ k) = slice off len l.
Proof.
  intros. apply slice_ext; [done..|]. intros i Hi. unfold zlen in *. apply lookup_app_l. lia.
Qed.

Lemma slice_app_r off len l k :
  zlen l <= off -> 0 <= len -> slice off len (l ++ k) = slice (off - zlen l) len k.
Proof.
  intros. unfold slice, zlen in *. rewrite drop_app_ge by lia.
  do 2 f_equal. lia.
Qed.

Lemma slice_full l : slice 0 (zlen l) l = l.
Proof. unfold slice, zlen. rewrite Nat2Z.id, drop_0. apply take_ge. lia. Qed.

Lemma splice_full data l : zlen data = zlen l -> splice 0 data l = data.
Proof.
  unfold splice, zlen. intros. rewrite take_0, drop_ge by lia. by rewrite app_nil_r.
Qed.

Lemma splice_nil off l : 0 <= off <= zlen l -> splice off [] l = l.
Proof.
  unfold splice. intros. simpl. rewrite Nat.add_0_r. apply take_drop.
Qed.

(** Adjacent slices. *)
Lemma slice_split off a b l :
  0 <= off -> 0 <= a -> 0 <= b ->
  slice off (a + b) l = slice off a l ++ slice (off + a) b l.
Proof.
  intros. unfold slice.
  replace (Z.to_nat (a + b)) with (Z.to_nat a + Z.to_nat b)%nat by lia.
  replace (Z.to_nat (off + a)) with (Z.to_nat off + Z.to_nat a)%nat by lia.
  rewrite <- drop_drop. by rewrite take_take_drop.
Qed.

(** *** Interrupted writes

    [torn off data l l']: [l'] is [l] after a store of [data] at [off] of which
    any subset of the bytes reached the medium. *)
Definition torn (off : Z) (data l l' : list A) : Prop :=
  length l' = length l /\
  forall i : nat, l' !! i = l !! i \/
    (off <= Z.of_nat i < off + zlen data /\ l' !! i = data !! (i - Z.to_nat off)%nat).

Lemma torn_refl off data l : torn off data l l.
Proof. split; [done|]. by left. Qed.

Lemma torn_splice off data l :
  0 <= off -> off + zlen data <= zlen l -> torn off data l (splice off data l).
Proof.
  intros. split; [by apply length_splice|]. intros i.
  destruct (decide (off <= Z.of_nat i < off + zlen data)).
  - right. split; [done|]. by apply lookup_splice_in.
  - left. apply lookup_splice_out; lia.
Qed.

Lemma torn_trans off data l l' l'' :
  torn off data l l' -> torn off data l' l'' -> torn off data l l''.
Proof.
  intros [H1 H2] [H3 H4]. split; [congruence|]. intros i.
  destruct (H4 i) as [-> | ?]; [apply H2|]. by right.
Qed.

Lemma torn_zlen off data l l' : torn off data l l' -> zlen l' = zlen l.
Proof. intros [H _]. unfold zlen. by rewrite H. Qed.

Lemma torn_slice_disjoint off data l l' o n :
  torn off data l l' -> 0 <= o -> 0 <= n ->
  o + n <= off \/ off + zlen data <= o -> slice o n l' = slice o n l.
Proof.
  intros [_ H] ???. apply slice_ext; [done..|]. intros i Hi.
  destruct (H i) as [?|[? _]]; [done|]. lia.
Qed.

(** *** Stores in pieces *)

Lemma splice_lookup off data l i : 0 <= off -> off + zlen data <= zlen l ->
  splice off data l !! i =
    if decide (off <= Z.of_nat i < off + zlen data) then data !! (i - Z.to_nat off)%nat else l !! i.
Proof.
  intros. case_decide; [by apply lookup_splice_in|]. apply lookup_splice_out; lia.
Qed.

Lemma splice_app off a b l : 0 <= off -> off + zlen a + zlen b <= zlen l ->
  splice (off + zlen a) b (splice off a l) = splice off (a ++ b) l.
Proof.
  intros. pose proof (zlen_nonneg a). pose proof (zlen_nonneg b). apply list_eq. intros i.
  rewrite splice_lookup by (rewrite ?zlen_splice; lia).
  rewrite splice_lookup by lia. rewrite splice_lookup by (rewrite ?zlen_app; lia).
  rewrite zlen_app. unfold zlen in *. repeat case_decide; try lia; try done.
  - rewrite lookup_app_r by lia. f_equal. lia.
  - rewrite lookup_app_l by lia. done.
Qed.

Lemma splice_same off data l : 0 <= off -> off + zlen data <= zlen l ->
  slice off (zlen data) l = data -> splice off data l = l.
Proof.
  intros ?? H. apply list_eq. intros i. rewrite splice_lookup by done. case_decide; [|done].
  rewrite <- H. rewrite lookup_slice by lia. f_equal. lia.
Qed.

(** Rewriting a whole block in which only part changed. *)
Lemma splice_block u size off data l :
  0 <= u -> u <= off -> off + zlen data <= u + size -> u + size <= zlen l ->
  splice u (splice (off - u) data (slice u size l)) l = splice off data l.
Proof.
  intros. pose proof (zlen_nonneg data).
  assert (zlen (slice u size l) = size) as Hs by (apply zlen_slice; lia).
  assert (zlen (splice (off - u) data (slice u size l)) = size) as Hz by (rewrite zlen_splice; lia).
  apply list_eq. intros i. rewrite !splice_lookup by lia. rewrite Hz.
  repeat case_decide; try lia; try done.
  - f_equal. lia.
  - rewrite lookup_slice by lia. f_equal. lia.
Qed.

Lemma torn_block u size off data l l' :
  0 <= u -> u <= off -> off + zlen data <= u + size -> u + size <= zlen l ->
  torn u (splice (off - u) data (slice u size l)) l l' -> torn off data l l'.
Proof.
  intros ???? [Hl H]. pose proof (zlen_nonneg data). split; [done|]. intros i.
  assert (zlen (slice u size l) = size) as Hs by (apply zlen_slice; lia).
  assert (zlen (splice (off - u) data (slice u size l)) = size) as Hz by (rewrite zlen_splice; lia).
  destruct (H i) as [?|[Hi Hd]]; [by left|].
  rewrite Hz in Hi. rewrite splice_lookup in Hd by lia.
  case_decide as E.
  - right. split; [lia|]. rewrite Hd. f_equal. lia.
  - left. rewrite Hd, lookup_slice by lia. f_equal. lia.
Qed.

Lemma torn_app_l off a b l l' : torn off a l l' -> torn off (a ++ b) l l'.
Proof.
  intros [Hl H]. split; [done|]. intros i. destruct (H i) as [?|[Hi Hd]]; [by left|]. right.
  rewrite zlen_app. pose proof (zlen_nonneg b). split; [lia|].
  rewrite lookup_app_l; [done|]. unfold zlen in *. lia.
Qed.

Lemma torn_app_r off a b l l' : 0 <= off -> torn (off + zlen a) b l l' -> torn off (a ++ b) l l'.
Proof.
  intros Ho [Hl H]. split; [done|]. intros i. destruct (H i) as [?|[Hi Hd]]; [by left|]. right.
  rewrite zlen_app. pose proof (zlen_nonneg a). split; [lia|].
  unfold zlen in *. rewrite lookup_app_r by lia. rewrite Hd. f_equal. lia.
Qed.

Lemma torn_prefix off a b l : 0 <= off -> off + zlen a <= zlen l ->
  torn off (a ++ b) l (splice off a l).
Proof. intros. by apply torn_app_l, torn_splice. Qed.

Lemma torn_nil off l l' : torn off [] l l' -> l' = l.
Proof.
  intros [Hl H]. apply list_eq. intros i. destruct (H i) as [?|[Hi _]]; [done|].
  unfold zlen in Hi. simpl in Hi. lia.
Qed.

Lemma drop_slice off n l : 0 <= off -> 0 <= n -> off + n <= zlen l ->
  drop (Z.to_nat off) l = slice off n l ++ drop (Z.to_nat (off + n)) l.
Proof.
  intros. unfold slice. replace (Z.to_nat (off + n)) with (Z.to_nat off + Z.to_nat n)%nat by lia.
  rewrite <- drop_drop. by rewrite take_drop.
Qed.

Lemma zlen_drop (n : Z) l : 0 <= n <= zlen l -> zlen (drop (Z.to_nat n) l) = zlen l - n.
Proof. unfold zlen. intros. rewrite length_drop. lia. Qed.

(** *** Changes confined to a region *)

Definition outside (off len : Z) (l l' : list A) : Prop :=
  zlen l' = zlen l /\
  forall o n, 0 <= o -> 0 <= n -> o + n <= off \/ off + len <= o -> slice o n l' = slice o n l.

Lemma outside_refl off len l : outside off len l l.
Proof. done. Qed.

Lemma outside_trans off len l l' l'' : outside off len l l' -> outside off len l' l'' -> outside off len l l''.
Proof. intros [H1 H2] [H3 H4]. split; [congruence|]. intros. rewrite H4, H2; done. Qed.

Lemma torn_outside off len o data l l' :
  torn o data l l' -> off <= o -> o + zlen data <= off + len -> outside off len l l'.
Proof.
  intros H ??. split; [by eapply torn_zlen|]. intros. eapply torn_slice_disjoint; [done..|lia].
Qed.
End Slices.

Lemma zlen_fill n b : 0 <= n -> zlen (fill n b) = n.
Proof. intros. unfold zlen, fill. rewrite length_replicate. lia. Qed.

Lemma fill_lookup n b i : Z.of_nat i < n -> fill n b !! i = Some b.
Proof. intros. unfold fill. rewrite lookup_replicate. split; [done|lia]. Qed.

Lemma slice_fill o n len b : 0 <= o -> 0 <= n -> o + n <= len -> slice o n (fill len b) = fill n b.
Proof.
  intros. unfold slice, fill. rewrite drop_replicate, take_replicate. f_equal. lia.
Qed.

Lemma bytes_ok_app l k : bytes_ok (l ++ k) <-> bytes_ok l /\ bytes_ok k.
Proof. apply Forall_app. Qed.

Lemma bytes_ok_slice o n l : bytes_ok l -> bytes_ok (slice o n l).
Proof. intros. unfold slice. by apply Forall_take, Forall_drop. Qed.

Lemma bytes_ok_drop n l : bytes_ok l -> bytes_ok (drop n l).
Proof. intros. by apply Forall_drop. Qed.

Lemma bytes_ok_torn off data l l' :
  bytes_ok data -> bytes_ok l -> torn off data l l' -> bytes_ok l'.
Proof.
  intros Hd Hl [_ H]. apply Forall_lookup_2. intros i b Hb.
  destruct (H i) as [E|[_ E]]; rewrite E in Hb.
  - by eapply (Forall_lookup_1 is_u8 l).
  - by eapply (Forall_lookup_1 is_u8 data).
Qed.

Lemma bytes_ok_fill n b : is_u8 b -> bytes_ok (fill n b).
Proof. intros. by apply Forall_replicate. Qed.

Lemma bytes_ok_splice o d l : bytes_ok d -> bytes_ok l -> bytes_ok (splice o d l).
Proof.
  intros. unfold splice. apply bytes_ok_app. split; [by apply Forall_take|].
  apply bytes_ok_app. split; [done|]. by apply Forall_drop.
Qed.

(** ** Little-endian integers in byte strings *)

(** [le n z]: the [n] bytes of [z], least significant first
    ([(uint8_t)value, (uint8_t)(value >> 8), ...]). *)
Fixpoint le (n : nat) (z : Z) : list Z :=
  match n with
  | O => []
  | S n => u8 z :: le n (Z.shiftr z 8)
  end.

(** [le_get l]: the unsigned integer [l[0] | l[1] << 8 | ...]. *)
Fixpoint le_get (l : list Z) : Z :=
  match l with
  | [] => 0
  | b :: l => Z.lor b (Z.shiftl (le_get l) 8)
  end.

Lemma length_le n z : length (le n z) = n.
Proof. revert z. induction n; intros; simpl; auto. Qed.

Lemma zlen_le n z : zlen (le n z) = Z.of_nat n.
Proof. unfold zlen. by rewrite length_le. Qed.

Lemma bytes_ok_le n z : bytes_ok (le n z).
Proof. revert z. induction n; intros; constructor; [apply u8_range | apply IHn]. Qed.

Lemma le_get_cons b l : is_u8 b -> le_get (b :: l) = b + 256 * le_get l.
Proof. intros. simpl. rewrite lor_shiftl_add by (unfold is_u8 in *; lia). lia. Qed.

Lemma le_get_range l : bytes_ok l -> 0 <= le_get l < 2 ^ (8 * zlen l).
Proof.
  induction 1 as [|b l Hb Hl IH]; [done|]. rewrite le_get_cons by done.
  replace (8 * zlen (b :: l)) with (8 + 8 * zlen l) by (unfold zlen; simpl; lia).
  pose proof (zlen_nonneg l). rewrite Z.pow_add_r by lia.
  unfold is_u8 in Hb. change (2 ^ 8) with 256 in *. nia.
Qed.

Lemma le_get_le n z : 0 <= z < 2 ^ (8 * Z.of_nat n) -> le_get (le n z) = z.
Proof.
  revert z. induction n as [|n IH]; intros z Hz; [simpl in *; lia|].
  replace (8 * Z.of_nat (S n)) with (8 + 8 * Z.of_nat n) in Hz by lia.
  rewrite Z.pow_add_r in Hz by lia. change (2 ^ 8) with 256 in Hz.
  simpl le. rewrite le_get_cons by apply u8_range.
  rewrite IH; rewrite Z.shiftr_div_pow2 by lia; change (2 ^ 8) with 256.
  - unfold u8. change (2 ^ 8) with 256. pose proof (Z.div_mod z 256). lia.
  - split; [apply Z.div_pos; lia|]. apply Z.div_lt_upper_bound; lia.
Qed.

Lemma le_le_get l : bytes_ok l -> le (length l) (le_get l) = l.
Proof.
  induction 1 as [|b l Hb Hl IH]; [done|].
  rewrite le_get_cons by done. simpl. unfold is_u8 in Hb. change (2 ^ 8) with 256 in Hb. f_equal.
  - unfold u8. change (2 ^ 8) with 256. rewrite (Z.mul_comm 256).
    rewrite Z_mod_plus_full. apply Z.mod_small. lia.
  - rewrite Z.shiftr_div_pow2 by lia. change (2 ^ 8) with 256.
    rewrite (Z.mul_comm 256), Z.div_add, Z.div_small by lia. by rewrite Z.add_0_l.
Qed.

Lemma le_get_le4 z : is_u32 z -> le_get (le 4 z) = z.
Proof. intros. by apply le_get_le. Qed.

Lemma le_get_le2 z : is_u16 z -> le_get (le 2 z) = z.
Proof. intros. by apply le_get_le. Qed.

Lemma le_get_u32 l : bytes_ok l -> zlen l = 4 -> is_u32 (le_get l).
Proof. intros H Hl. pose proof (le_get_range l H) as Hr. rewrite Hl in Hr. done. Qed.

Lemma le_get_u16 l : bytes_ok l -> zlen l = 2 -> is_u16 (le_get l).
Proof. intros H Hl. pose proof (le_get_range l H) as Hr. rewrite Hl in Hr. done. Qed.

(** *** Packed structures

    A C structure that is stored or transmitted as memory is described by the
    widths of its members; [pack] lays its members out and [unpack] reads them. *)
Fixpoint pack (ws : list nat) (vs : list Z) : list Z :=
  match ws, vs with
  | w :: ws, v :: vs => le w v ++ pack ws vs
  | _, _ => []
  end.

Fixpoint unpack (ws : list nat) (bs : list Z) : list Z :=
  match ws with
  | [] => []
  | w :: ws => le_get (take w bs) :: unpack ws (drop w bs)
  end.

(** The value fits the width. *)
Definition fits (w : nat) (v : Z) : Prop := 0 <= v < 2 ^ (8 * Z.of_nat w).

Lemma unpack_pack ws vs rest : Forall2 fits ws vs -> unpack ws (pack ws vs ++ rest) = vs.
Proof.
  induction 1 as [|w v ws vs Hv H IH]; [done|].
  simpl. rewrite <- app_assoc. rewrite take_app_length', drop_app_length' by (by rewrite length_le).
  rewrite le_get_le by done. by f_equal.
Qed.

Lemma length_pack ws vs : length ws = length vs -> length (pack ws vs) = sum_list ws.
Proof.
  revert vs. induction ws as [|w ws IH]; intros [|v vs] H; try done.
  simpl. rewrite length_app, length_le, IH by (simpl in H; lia). done.
Qed.

Lemma bytes_ok_pack ws vs : bytes_ok (pack ws vs).
Proof.
  revert vs. induction ws as [|w ws IH]; intros [|v vs]; simpl; try constructor.
  apply bytes_ok_app. split; [apply bytes_ok_le | apply IH].
Qed.

Lemma pack_unpack ws bs : bytes_ok bs -> length bs = sum_list ws -> pack ws (unpack ws bs) = bs.
Proof.
  revert bs. induction ws as [|w ws IH]; intros bs Hb Hl.
  - destruct bs; [done|]. simpl in Hl. lia.
  - simpl in Hl. change (pack (w :: ws) (unpack (w :: ws) bs)) with
      (le w (le_get (take w bs)) ++ pack ws (unpack ws (drop w bs))).
    rewrite IH; [|by apply Forall_drop|rewrite length_drop; lia].
    assert (le w (le_get (take w bs)) = take w bs) as ->; [|apply take_drop].
    rewrite <- (le_le_get (take w bs)) at 2 by (by apply Forall_take).
    rewrite length_take. f_equal. lia.
Qed.

Lemma unpack_fits ws bs :
  bytes_ok bs -> (sum_list ws <= length bs)%nat -> Forall2 fits ws (unpack ws bs).
Proof.
  revert bs. induction ws as [|w ws IH]; intros bs Hb Hl; simpl; [constructor|].
  simpl in Hl. constructor.
  - unfold fits. pose proof (le_get_range (take w bs) ltac:(by apply Forall_take)) as H.
    unfold zlen in H. rewrite length_take in H. replace (w `min` length bs)%nat with w in H by lia.
    done.
  - apply IH; [by apply Forall_drop|]. rewrite length_drop. lia.
Qed.

(** ** State-passing computations

    A C function that reads or writes memory, storage or a device is a function
    from the state to its result and the new state. *)
Definition st (S A : Type) : Type := S -> A * S.

#[export] Instance st_ret {S} : MRet (st S) := fun A a s => (a, s).
#[export] Instance st_bind {S} : MBind (st S) :=
  fun A B k m s => let '(a, s') := m s in k a s'.

Definition get {S} : st S S := fun s => (s, s).
Definition put {S} (s : S) : st S unit := fun _ => (tt, s).
Definition modify {S} (f : S -> S) : st S unit := fun s => (tt, f s).
Definition gets {S A} (f : S -> A) : st S A := fun s => (f s, s).

(** The idiom [result = m; if (result == LS_OK) result = k;]. *)
Definition and_then {S} (m k : st S ls_result_t) : st S ls_result_t :=
  fun s => let '(r, s') := m s in if is_ok r then k s' else (r, s').

Declare Scope latch_scope.
Delimit Scope latch_scope with latch.
Notation "m ;;? k" := (and_then m k) (at level 100, k at level 200, right associativity)
  : latch_scope.
#[global] Open Scope latch_scope.

Lemma and_then_inv {S} (m k : st S ls_result_t) s r s' : and_then m k s = (r, s') ->
  (m s = (r, s') /\ r <> LS_OK) \/ (exists s1, m s = (LS_OK, s1) /\ k s1 = (r, s')).
Proof.
  unfold and_then. destruct (m s) as [r1 s1]. destruct (is_ok r1) eqn:E.
  - apply is_ok_true in E. subst. right. eauto.
  - apply is_ok_false in E. intros [= <- <-]. by left.
Qed.

Lemma bind_run {S A B} (m : st S A) (k : A -> st S B) s :
  (m ≫= k) s = let '(a, s') := m s in k a s'.
Proof. done. Qed.

(** ** Tactics *)

(** Case analysis on the innermost conditional of the goal or of a hypothesis. *)
Ltac case_if :=
  match goal with
  | |- context [if ?b then _ else _] =>
      lazymatch b with context [if _ then _ else _] => fail | _ => destruct b eqn:? end
  | H : context [if ?b then _ else _] |- _ =>
      lazymatch b with context [if _ then _ else _] => fail | _ => destruct b eqn:? end
  end.

(** Turn boolean tests of the code into propositions. *)
Ltac bool_prop :=
  repeat match goal with
  | H : (_ && _) = true |- _ => apply andb_true_iff in H as [? ?]
  | H : (_ || _) = false |- _ => apply orb_false_iff in H as [? ?]
  | H : (_ && _) = false |- _ => apply andb_false_iff in H
  | H : (_ || _) = true |- _ => apply orb_true_iff in H
  | H : negb _ = true |- _ => apply negb_true_iff in H
  | H : negb _ = false |- _ => apply negb_false_iff in H
  | H : (_ =? _) = true |- _ => apply Z.eqb_eq in H
  | H : (_ =? _) = false |- _ => apply Z.eqb_neq in H
  | H : (_ <? _) = true |- _ => apply Z.ltb_lt in H
  | H : (_ <? _) = false |- _ => apply Z.ltb_ge in H
  | H : (_ <=? _) = true |- _ => apply Z.leb_le in H
  | H : (_ <=? _) = false |- _ => apply Z.leb_gt in H
  | H : is_ok _ = true |- _ => apply is_ok_true in H
  | H : is_ok _ = false |- _ => apply is_ok_false in H
  end.

(** Arithmetic after clearing the boolean layer. *)
Ltac blia := bool_prop; unfold is_u8, is_u16, is_u32, is_u64 in *; lia.

(** The members of a packed structure fit their widths. *)
Ltac solve_fits :=
  repeat first [apply Forall2_cons_2 | apply Forall2_nil_2];
  try done; unfold fits, is_u8, is_u16, is_u32, is_u64 in *; simpl; lia.

(** ** Hints shared by the components *)
Create HintDb latch.
#[export] Hint Resolve u8_range u16_range u32_range u64_range zlen_nonneg : latch.
#[export] Hint Resolve bytes_ok_le bytes_ok_pack bytes_ok_slice bytes_ok_fill bytes_ok_splice : latch.
#[export] Hint Resolve torn_refl torn_splice : latch.
Create Rewrite HintDb latch_len.
#[export] Hint Rewrite @zlen_app @zlen_cons @zlen_nil @length_le @zlen_le @length_app : latch_len.

(** ** Facts about single bytes, by enumeration *)
Lemma u8_forall (P : Z -> bool) :
  forallb P (map Z.of_nat (List.seq 0 256)) = true -> forall b, is_u8 b -> P b = true.
Proof.
  intros H b Hb. rewrite forallb_forall in H. apply H. apply List.in_map_iff.
  exists (Z.to_nat b). unfold is_u8 in Hb. split; [lia|]. apply List.in_seq. lia.
Qed.

Lemma land_low7 b : Z.land b 0x7f = b mod 128.
Proof. change 0x7f with (Z.ones 7). by rewrite Z.land_ones by lia. Qed.

Lemma land_bit7 b : is_u8 b -> Z.land b 0x80 = if b <? 128 then 0 else 128.
Proof.
  intros Hb. apply Z.eqb_eq.
  by apply (u8_forall (fun b => Z.land b 0x80 =? (if b <? 128 then 0 else 128))).
Qed.

Lemma lor_bit7 b : 0 <= b < 128 -> Z.lor b 0x80 = b + 128.
Proof.
  intros. change 0x80 with (Z.shiftl 1 7). by rewrite lor_shiftl_add by lia.
Qed.

(** Complement within a width. *)
Lemma lxor_ones w a : 0 <= w -> 0 <= a < 2 ^ w -> Z.lxor a (2 ^ w - 1) = 2 ^ w - 1 - a.
Proof.
  intros Hw Ha. set (b := Z.lxor a (2 ^ w - 1)).
  assert (0 <= b < 2 ^ w) as Hb by (apply lxor_bound; lia).
  assert (Z.land a b = 0) as Hd.
  { apply Z.bits_inj'. intros i Hi. unfold b. rewrite Z.land_spec, Z.lxor_spec, Z.bits_0.
    destruct (Z.lt_ge_cases i w).
    - replace (2 ^ w - 1) with (Z.ones w) by (rewrite Z.ones_equiv; lia).
      rewrite Z.ones_spec_low by lia. by destruct (Z.testbit a i).
    - by rewrite (testbit_above w a) by lia. }
  pose proof (Z.add_nocarry_lxor a b Hd) as Hs. unfold b in Hs at 2.
  rewrite <- Z.lxor_assoc, Z.lxor_nilpotent, Z.lxor_0_l in Hs. lia.
Qed.

(** A single bit as a mask. *)
Lemma testbit_pow2_land a d : 0 <= d -> (Z.land a (2 ^ d) =? 0) = negb (Z.testbit a d).
Proof.
  intros Hd. destruct (Z.testbit a d) eqn:E; simpl.
  - apply Z.eqb_neq. intros H. apply (f_equal (fun z => Z.testbit z d)) in H.
    rewrite Z.land_spec, E, Z.pow2_bits_true, Z.bits_0 in H by done. done.
  - apply Z.eqb_eq. apply Z.bits_inj'. intros i Hi. rewrite Z.land_spec, Z.bits_0.
    destruct (decide (i = d)) as [->|]; [by rewrite E|].
    rewrite Z.pow2_bits_false by done. apply andb_false_r.
Qed.

Lemma bool_decide_cons (x y : Z) l : bool_decide (x ∈ y :: l) = (x =? y) || bool_decide (x ∈ l).
Proof.
  apply eq_bool_prop_intro. rewrite orb_True, !bool_decide_spec, elem_of_cons.
  split; intros [?|?]; auto; left; [by apply Is_true_eq_left, Z.eqb_eq|by apply Z.eqb_eq, Is_true_eq_true].
Qed.

(** ** Division of a message into blocks *)

(** [chunks n l]: [l] in pieces of [n] elements, the last one possibly shorter. The
    fuel, the length of [l], is enough for any positive [n]. *)
Fixpoint chunks_fuel {A} (fuel n : nat) (l : list A) : list (list A) :=
  match fuel, l with
  | S fuel, _ :: _ => take n l :: chunks_fuel fuel n (drop n l)
  | _, _ => []
  end.
Definition chunks {A} (n : nat) (l : list A) : list (list A) := chunks_fuel (length l) n l.

Section Chunks.
Context {A : Type} (n : nat) (n_pos : (0 < n)%nat).
Implicit Types l k : list A.

Lemma chunks_fuel_enough f g l : (length l <= f)%nat -> (length l <= g)%nat ->
  chunks_fuel f n l = chunks_fuel g n l.
Proof using n_pos.
  revert g l. induction f as [|f IH]; intros g [|a l] Hf Hg; destruct g; simpl in *; try lia; try done.
  f_equal. apply IH; rewrite length_drop; simpl; lia.
Qed.

Lemma chunks_step l : l <> [] -> chunks n l = take n l :: chunks n (drop n l).
Proof using n_pos.
  destruct l as [|a l]; [done|]. intros _. unfold chunks at 1. cbn [chunks_fuel length]. f_equal.
  apply chunks_fuel_enough; [|done]. rewrite length_drop. simpl. lia.
Qed.

Lemma chunks_nil : chunks n (@nil A) = [].
Proof. done. Qed.

Lemma chunks_short l : l <> [] -> (length l <= n)%nat -> chunks n l = [l].
Proof using n_pos. intros Hl H. rewrite chunks_step by done. by rewrite take_ge, drop_ge by lia. Qed.

Lemma chunks_app q l k : length l = (q * n)%nat -> chunks n (l ++ k) = chunks n l ++ chunks n k.
Proof using n_pos.
  revert l. induction q as [|q IH]; intros l Hl.
  - destruct l; [done|simpl in Hl; lia].
  - assert (l <> []) by (intros ->; simpl in Hl; lia).
    rewrite (chunks_step (l ++ k)) by (destruct l; done). rewrite (chunks_step l) by done.
    rewrite take_app_le, drop_app_le by lia. cbn. f_equal. apply IH. rewrite length_drop. lia.
Qed.
End Chunks.

(** The last, incomplete block of a message. *)
Lemma mul_length_split {A} (n : nat) (l : list A) : (0 < n)%nat ->
  exists q a b, l = a ++ b /\ length a = (q * n)%nat /\ (length b < n)%nat.
Proof.
  intros Hn. exists (length l / n)%nat, (take (length l / n * n) l), (drop (length l / n * n) l).
  pose proof (Nat.div_mod (length l) n ltac:(lia)) as Hd.
  pose proof (Nat.mod_upper_bound (length l) n ltac:(lia)).
  rewrite take_drop, length_take, length_drop. repeat split; nia.
Qed.

(** ** Buffers in parts *)

Lemma splice_replace {A} (p a d r : list A) off : off = zlen p -> zlen a = zlen d ->
  splice off d (p ++ a ++ r) = p ++ d ++ r.
Proof.
  intros -> Hz. unfold splice, zlen in *. rewrite Nat2Z.id, take_app_length.
  rewrite drop_app_ge by lia. rewrite drop_app_ge by lia. do 3 f_equal. rewrite <- (drop_0 r) at 2. f_equal. lia.
Qed.

Lemma slice_middle {A} (p a r : list A) off n : off = zlen p -> n = zlen a -> slice off n (p ++ a ++ r) = a.
Proof.
  intros -> ->. unfold slice, zlen. by rewrite !Nat2Z.id, drop_app_length, take_app_length.
Qed.

Lemma slice_prefix {A} (a r : list A) n : n = zlen a -> slice 0 n (a ++ r) = a.
Proof. intros. by apply (slice_middle [] a r). Qed.

Lemma split_at {A} (n : Z) (l : list A) : 0 <= n <= zlen l -> exists a b, l = a ++ b /\ zlen a = n.
Proof.
  intros H. exists (take (Z.to_nat n) l), (drop (Z.to_nat n) l). split; [by rewrite take_drop|].
  unfold zlen in *. rewrite length_take. lia.
Qed.

(** A buffer in the five parts of an envelope and the rest. *)
Lemma buffer_parts {A} (n1 n2 n3 n4 n5 : Z) (l : list A) :
  0 <= n1 -> 0 <= n2 -> 0 <= n3 -> 0 <= n4 -> 0 <= n5 -> n1 + n2 + n3 + n4 + n5 <= zlen l ->
  exists a b c d e r, l = a ++ b ++ c ++ d ++ e ++ r /\
    zlen a = n1 /\ zlen b = n2 /\ zlen c = n3 /\ zlen d = n4 /\ zlen e = n5.
Proof.
  intros ????? H. destruct (split_at n1 l) as (a & l1 & -> & <-); [lia|]. rewrite zlen_app in H.
  destruct (split_at n2 l1) as (b & l2 & -> & <-); [lia|]. rewrite zlen_app in H.
  destruct (split_at n3 l2) as (c & l3 & -> & <-); [lia|]. rewrite zlen_app in H.
  destruct (split_at n4 l3) as (d & l4 & -> & <-); [lia|]. rewrite zlen_app in H.
  destruct (split_at n5 l4) as (e & r & -> & <-); [lia|]. by exists a, b, c, d, e, r.
Qed.

Lemma drop_splice {A} off (d l : list A) (n : Z) : 0 <= off -> off + zlen d <= n -> off + zlen d <= zlen l ->
  drop (Z.to_nat n) (splice off d l) = drop (Z.to_nat n) l.
Proof.
  intros. unfold splice, zlen in *. rewrite app_assoc, drop_app_ge by (rewrite length_app, length_take; lia).
  rewrite length_app, length_take, drop_drop. f_equal. lia.
Qed.

Lemma bytes_ok_str x : bytes_ok (str x).
Proof.
  unfold str. apply Forall_map, Forall_true. intros c. pose proof (Ascii.N_ascii_bounded c). unfold compose, is_u8. lia.
Qed.
