(* ===== verification/Poly1305.v ===== *)
(** * Poly1305 ([src/security/poly1305.c])

    The one-time authenticator in radix 2^26: the multiplication of the accumulator by
    the clamped key on five limbs with delayed carries, the streaming interface with
    its buffer, and the final reduction. The theorem is that, for every key and every
    division of the message into updates, the tag is the integer the definition of
    Poly1305 gives. *)

From S2P Require Import Prelude.

(** ** The code *)

Definition load32_le (p : list Z) (off : Z) : Z := le_get (slice off 4 p).

(** A [uint32_t[5]]: the limbs [r] of the key and [h] of the accumulator. *)
Record limbs : Type := mk_limbs { l0 : Z; l1 : Z; l2 : Z; l3 : Z; l4 : Z }.

Record ls_poly1305_context_t : Type := mk_poly {
  poly_r : limbs;
  poly_h : limbs;
  poly_pad : list Z;
  poly_buffer : list Z;
  poly_leftover : Z;
  poly_final : bool
}.

Definition MASK26 : Z := 0x3ffffff.

(** The five additions at the head of the loop of [blocks]. *)
Definition add_block (hibit : Z) (h : limbs) (m : list Z) : limbs :=
  mk_limbs
    (u32 (l0 h + Z.land (load32_le m 0) MASK26))
    (u32 (l1 h + Z.land (Z.shiftr (load32_le m 3) 2) MASK26))
    (u32 (l2 h + Z.land (Z.shiftr (load32_le m 6) 4) MASK26))
    (u32 (l3 h + Z.land (Z.shiftr (load32_le m 9) 6) MASK26))
    (u32 (l4 h + Z.lor (Z.shiftr (load32_le m 12) 8) hibit)).

(** The multiplication and the carries of one iteration. *)
Definition multiply (r h : limbs) : limbs :=
  let '(mk_limbs r0 r1 r2 r3 r4) := r in
  let '(mk_limbs h0 h1 h2 h3 h4) := h in
  let s1 := u32 (r1 * 5) in let s2 := u32 (r2 * 5) in
  let s3 := u32 (r3 * 5) in let s4 := u32 (r4 * 5) in
  let d0 := u64 (h0 * r0 + h1 * s4 + h2 * s3 + h3 * s2 + h4 * s1) in
  let d1 := u64 (h0 * r1 + h1 * r0 + h2 * s4 + h3 * s3 + h4 * s2) in
  let d2 := u64 (h0 * r2 + h1 * r1 + h2 * r0 + h3 * s4 + h4 * s3) in
  let d3 := u64 (h0 * r3 + h1 * r2 + h2 * r1 + h3 * r0 + h4 * s4) in
  let d4 := u64 (h0 * r4 + h1 * r3 + h2 * r2 + h3 * r1 + h4 * r0) in
  let carry := u32 (Z.shiftr d0 26) in
  let h0 := Z.land (u32 d0) MASK26 in
  let d1 := u64 (d1 + carry) in
  let carry := u32 (Z.shiftr d1 26) in
  let h1 := Z.land (u32 d1) MASK26 in
  let d2 := u64 (d2 + carry) in
  let carry := u32 (Z.shiftr d2 26) in
  let h2 := Z.land (u32 d2) MASK26 in
  let d3 := u64 (d3 + carry) in
  let carry := u32 (Z.shiftr d3 26) in
  let h3 := Z.land (u32 d3) MASK26 in
  let d4 := u64 (d4 + carry) in
  let carry := u32 (Z.shiftr d4 26) in
  let h4 := Z.land (u32 d4) MASK26 in
  let h0 := u32 (h0 + u32 (carry * 5)) in
  let carry := Z.shiftr h0 26 in
  let h0 := Z.land h0 MASK26 in
  let h1 := u32 (h1 + carry) in
  mk_limbs h0 h1 h2 h3 h4.

(** The loop of [blocks]; [fuel] is the number of whole blocks it can meet. *)
Fixpoint blocks_loop (fuel : nat) (hibit : Z) (r h : limbs) (message : list Z) : limbs :=
  match fuel with
  | O => h
  | S fuel =>
      if 16 <=? zlen message
      then blocks_loop fuel hibit r (multiply r (add_block hibit h message)) (drop 16 message)
      else h
  end.

Definition set_h (h : limbs) (c : ls_poly1305_context_t) : ls_poly1305_context_t :=
  mk_poly (poly_r c) h (poly_pad c) (poly_buffer c) (poly_leftover c) (poly_final c).

Definition set_buffer (buffer : list Z) (leftover : Z) (c : ls_poly1305_context_t) : ls_poly1305_context_t :=
  mk_poly (poly_r c) (poly_h c) (poly_pad c) buffer leftover (poly_final c).

Definition blocks (context : ls_poly1305_context_t) (message : list Z) : ls_poly1305_context_t :=
  let hibit := if poly_final context then 0 else Z.shiftl 1 24 in
  set_h (blocks_loop (length message) hibit (poly_r context) (poly_h context) message) context.

(** [buffer] is not initialised: its contents are an argument. *)
Definition ls_poly1305_init (buffer key : list Z) : ls_poly1305_context_t :=
  mk_poly
    (mk_limbs (Z.land (load32_le key 0) 0x3ffffff)
              (Z.land (Z.shiftr (load32_le key 3) 2) 0x3ffff03)
              (Z.land (Z.shiftr (load32_le key 6) 4) 0x3ffc0ff)
              (Z.land (Z.shiftr (load32_le key 9) 6) 0x3f03fff)
              (Z.land (Z.shiftr (load32_le key 12) 8) 0x00fffff))
    (mk_limbs 0 0 0 0 0)
    [load32_le key 16; load32_le key 20; load32_le key 24; load32_le key 28]
    buffer 0 false.

(** The part of [ls_poly1305_update] after the buffer has been emptied. *)
Definition update_aligned (context : ls_poly1305_context_t) (message : list Z) : ls_poly1305_context_t :=
  let length := zlen message in
  let want := if 16 <=? length then Z.land length (Z.lnot 0xf) else 0 in
  let context := if 16 <=? length then blocks context (slice 0 want message) else context in
  let message := drop (Z.to_nat want) message in
  if negb (zlen message =? 0)
  then set_buffer (splice 0 message (poly_buffer context)) (zlen message) context
  else context.

Definition ls_poly1305_update (context : ls_poly1305_context_t) (message : list Z) : ls_poly1305_context_t :=
  let length := zlen message in
  if length =? 0 then context else
  if negb (poly_leftover context =? 0) then
    let want := 16 - poly_leftover context in
    let want := if want >? length then length else want in
    let buffer := splice (poly_leftover context) (slice 0 want message) (poly_buffer context) in
    let leftover := poly_leftover context + want in
    let context := set_buffer buffer leftover context in
    if leftover <? 16 then context
    else update_aligned (set_buffer buffer 0 (blocks context buffer)) (drop (Z.to_nat want) message)
  else update_aligned context message.

(** The final block of [ls_poly1305_finish]: the bytes left over, a one and zeros. *)
Definition last_block (context : ls_poly1305_context_t) : ls_poly1305_context_t :=
  if negb (poly_leftover context =? 0) then
    let tail := 1 :: fill (16 - (poly_leftover context + 1)) 0 in
    let buffer := splice (poly_leftover context) tail (poly_buffer context) in
    blocks (mk_poly (poly_r context) (poly_h context) (poly_pad context) buffer 16 true) buffer
  else context.

(** The carries of [ls_poly1305_finish]. *)
Definition carry_limbs (h : limbs) : limbs :=
  let '(mk_limbs h0 h1 h2 h3 h4) := h in
  let carry := Z.shiftr h1 26 in
  let h1 := Z.land h1 MASK26 in
  let h2 := u32 (h2 + carry) in
  let carry := Z.shiftr h2 26 in
  let h2 := Z.land h2 MASK26 in
  let h3 := u32 (h3 + carry) in
  let carry := Z.shiftr h3 26 in
  let h3 := Z.land h3 MASK26 in
  let h4 := u32 (h4 + carry) in
  let carry := Z.shiftr h4 26 in
  let h4 := Z.land h4 MASK26 in
  let h0 := u32 (h0 + u32 (carry * 5)) in
  let carry := Z.shiftr h0 26 in
  let h0 := Z.land h0 MASK26 in
  let h1 := u32 (h1 + carry) in
  mk_limbs h0 h1 h2 h3 h4.

(** [h + 5 - 2^130] as [g], its sign as a mask, and the choice between [h] and [g]. *)
Definition select_limbs (h : limbs) : limbs :=
  let '(mk_limbs h0 h1 h2 h3 h4) := h in
  let g0 := u32 (h0 + 5) in
  let carry := Z.shiftr g0 26 in
  let g0 := Z.land g0 MASK26 in
  let g1 := u32 (h1 + carry) in
  let carry := Z.shiftr g1 26 in
  let g1 := Z.land g1 MASK26 in
  let g2 := u32 (h2 + carry) in
  let carry := Z.shiftr g2 26 in
  let g2 := Z.land g2 MASK26 in
  let g3 := u32 (h3 + carry) in
  let carry := Z.shiftr g3 26 in
  let g3 := Z.land g3 MASK26 in
  let g4 := u32 (h4 + carry - Z.shiftl 1 26) in
  let mask := u32 (Z.shiftr g4 31 - 1) in
  let g0 := Z.land g0 mask in
  let g1 := Z.land g1 mask in
  let g2 := Z.land g2 mask in
  let g3 := Z.land g3 mask in
  let g4 := Z.land g4 mask in
  let mask := u32 (Z.lnot mask) in
  mk_limbs (Z.lor (Z.land h0 mask) g0) (Z.lor (Z.land h1 mask) g1) (Z.lor (Z.land h2 mask) g2)
           (Z.lor (Z.land h3 mask) g3) (Z.lor (Z.land h4 mask) g4).

(** The addition of the pad, 32 bits at a time, and the tag. *)
Definition add_pad (pad : list Z) (h : limbs) : list Z :=
  let '(mk_limbs h0 h1 h2 h3 h4) := h in
  let p i := nth i pad 0 in
  let f := u64 (Z.lor h0 (u32 (Z.shiftl h1 26)) + p 0%nat) in
  let t0 := le 4 (u32 f) in
  let f := u64 (Z.lor (Z.shiftr h1 6) (u32 (Z.shiftl h2 20)) + p 1%nat + Z.shiftr f 32) in
  let t1 := le 4 (u32 f) in
  let f := u64 (Z.lor (Z.shiftr h2 12) (u32 (Z.shiftl h3 14)) + p 2%nat + Z.shiftr f 32) in
  let t2 := le 4 (u32 f) in
  let f := u64 (Z.lor (Z.shiftr h3 18) (u32 (Z.shiftl h4 8)) + p 3%nat + Z.shiftr f 32) in
  let t3 := le 4 (u32 f) in
  t0 ++ t1 ++ t2 ++ t3.

Definition ls_poly1305_finish (context : ls_poly1305_context_t) : list Z :=
  let context := last_block context in
  add_pad (poly_pad context) (select_limbs (carry_limbs (poly_h context))).

Definition ls_poly1305_auth (buffer key message : list Z) : list Z :=
  let context := ls_poly1305_init buffer key in
  ls_poly1305_finish
    (if negb (zlen message =? 0) then ls_poly1305_update context message else context).

(** ** The definition of Poly1305 *)

Definition P1305 : Z := 2 ^ 130 - 5.

(** The clamped multiplier and the final addend. *)
Definition poly_mult (key : list Z) : Z :=
  Z.land (le_get (slice 0 16 key)) 0x0ffffffc0ffffffc0ffffffc0fffffff.
Definition poly_addend (key : list Z) : Z := le_get (slice 16 16 key).

(** One block: its bytes and a final one as a little-endian integer. *)
Definition poly_step (r a : Z) (b : list Z) : Z := ((a + le_get (b ++ [1])) * r) mod P1305.

Definition poly1305_spec (key message : list Z) : list Z :=
  let a := foldl (poly_step (poly_mult key)) 0 (chunks 16 message) in
  le 16 ((a + poly_addend key) mod 2 ^ 128).

(** The vector of RFC 8439, section 2.5.2. *)
Example poly1305_rfc8439 :
  let key := [0x85;0xd6;0xbe;0x78;0x57;0x55;0x6d;0x33;0x7f;0x44;0x52;0xfe;0x42;0xd5;0x06;0xa8;
              0x01;0x03;0x80;0x8a;0xfb;0x0d;0xb2;0xfd;0x4a;0xbf;0xf6;0xaf;0x41;0x49;0xf5;0x1b] in
  ls_poly1305_auth (fill 16 0xcc) key (str "Cryptographic Forum Research Group") =
    [0xa8;0x06;0x1d;0xc1;0x30;0x51;0x36;0xc6;0xc2;0x2b;0x8b;0xaf;0x0c;0x01;0x27;0xa9] /\
  poly1305_spec key (str "Cryptographic Forum Research Group") =
    [0xa8;0x06;0x1d;0xc1;0x30;0x51;0x36;0xc6;0xc2;0x2b;0x8b;0xaf;0x0c;0x01;0x27;0xa9].
Proof. vm_compute. done. Qed.

(** ** Limb arithmetic *)

Definition eval (l : limbs) : Z :=
  l0 l + 2 ^ 26 * l1 l + 2 ^ 52 * l2 l + 2 ^ 78 * l3 l + 2 ^ 104 * l4 l.

(** The accumulator between blocks: the carry into the second limb is not propagated. *)
Definition acc_ok (h : limbs) : Prop :=
  0 <= l0 h < 2 ^ 26 /\ 0 <= l1 h < 2 ^ 26 + 64 /\ 0 <= l2 h < 2 ^ 26 /\
  0 <= l3 h < 2 ^ 26 /\ 0 <= l4 h < 2 ^ 26.

(** The clamped key. *)
Definition key_ok (r : limbs) : Prop :=
  0 <= l0 r < 2 ^ 26 /\ 0 <= l1 r < 2 ^ 26 /\ 0 <= l2 r < 2 ^ 26 /\
  0 <= l3 r < 2 ^ 26 /\ 0 <= l4 r < 2 ^ 20.

(** The accumulator with a block added. *)
Definition sum_ok (h : limbs) : Prop :=
  0 <= l0 h < 2 ^ 27 /\ 0 <= l1 h < 2 ^ 27 + 64 /\ 0 <= l2 h < 2 ^ 27 /\
  0 <= l3 h < 2 ^ 27 /\ 0 <= l4 h < 2 ^ 26 + 2 ^ 25.

Lemma land_mask26 z : Z.land z MASK26 = z mod 2 ^ 26.
Proof. change MASK26 with (Z.ones 26). by apply Z.land_ones. Qed.

Lemma mod_mod_pow a m n : 0 <= m <= n -> (a mod 2 ^ n) mod 2 ^ m = a mod 2 ^ m.
Proof.
  intros. apply Z.mod_mod_divide.
  exists (2 ^ (n - m)). rewrite <- Z.pow_add_r by lia. f_equal. lia.
Qed.

Lemma low_limb d : Z.land (u32 d) MASK26 = d mod 2 ^ 26.
Proof. rewrite land_mask26. unfold u32. by rewrite mod_mod_pow by lia. Qed.

Lemma carry_limb d : 0 <= d < 2 ^ 58 -> u32 (Z.shiftr d 26) = d / 2 ^ 26.
Proof.
  intros. rewrite Z.shiftr_div_pow2 by done. apply u32_id. split; [apply Z.div_pos; lia|].
  apply Z.div_lt_upper_bound; lia.
Qed.

Lemma mul_bound a b x y : 0 <= a <= x -> 0 <= b <= y -> 0 <= a * b <= x * y.
Proof. nia. Qed.

(** The five products of [multiply], before the carries. *)
Definition dot (r h : limbs) : limbs :=
  let '(mk_limbs r0 r1 r2 r3 r4) := r in
  let '(mk_limbs h0 h1 h2 h3 h4) := h in
  mk_limbs (h0 * r0 + h1 * (r4 * 5) + h2 * (r3 * 5) + h3 * (r2 * 5) + h4 * (r1 * 5))
           (h0 * r1 + h1 * r0 + h2 * (r4 * 5) + h3 * (r3 * 5) + h4 * (r2 * 5))
           (h0 * r2 + h1 * r1 + h2 * r0 + h3 * (r4 * 5) + h4 * (r3 * 5))
           (h0 * r3 + h1 * r2 + h2 * r1 + h3 * r0 + h4 * (r4 * 5))
           (h0 * r4 + h1 * r3 + h2 * r2 + h3 * r1 + h4 * r0).

Definition dot_ok (d : limbs) : Prop :=
  0 <= l0 d < 3 * 2 ^ 56 /\ 0 <= l1 d < 3 * 2 ^ 56 /\ 0 <= l2 d < 3 * 2 ^ 56 /\ 0 <= l3 d < 3 * 2 ^ 56 /\
  0 <= l4 d < 2 ^ 55.

Lemma dot_bounds r h : key_ok r -> sum_ok h -> dot_ok (dot r h).
Proof.
  destruct r as [r0 r1 r2 r3 r4], h as [h0 h1 h2 h3 h4].
  unfold key_ok, sum_ok, dot_ok, dot. cbn [l0 l1 l2 l3 l4].
  intros (? & ? & ? & ? & ?) (? & ? & ? & ? & ?).
  assert (forall h r, 0 <= h <= 2 ^ 27 + 64 -> 0 <= r <= 2 ^ 26 -> 0 <= h * r <= (2 ^ 27 + 64) * 2 ^ 26) as B
    by (intros; by apply mul_bound).
  assert (forall h r, 0 <= h <= 2 ^ 27 + 64 -> 0 <= r <= 2 ^ 26 -> 0 <= h * (r * 5) <= (2 ^ 27 + 64) * (2 ^ 26 * 5)) as B5
    by (intros; apply mul_bound; lia).
  assert (0 <= h0 * r4 <= (2 ^ 27 + 64) * 2 ^ 20) by (apply mul_bound; lia).
  assert (0 <= h4 * r0 <= (2 ^ 26 + 2 ^ 25) * 2 ^ 26) by (apply mul_bound; lia).
  repeat split.
  all: repeat match goal with
    | |- context [?a * (?b * 5)] => pose proof (B5 a b ltac:(lia) ltac:(lia)); generalize dependent (a * (b * 5)); intros
    | |- context [?a * ?b] => first [is_var a; is_var b]; pose proof (B a b ltac:(lia) ltac:(lia)); generalize dependent (a * b); intros
    end.
  all: lia.
Qed.

(** The products represent the product modulo 2^130 - 5. *)
Lemma dot_eval r h : exists k, eval h * eval r = eval (dot r h) + k * P1305.
Proof.
  destruct r as [r0 r1 r2 r3 r4], h as [h0 h1 h2 h3 h4]. unfold eval, dot, P1305. cbn [l0 l1 l2 l3 l4].
  exists (h1 * r4 + h2 * r3 + h3 * r2 + h4 * r1 + 2 ^ 26 * (h2 * r4 + h3 * r3 + h4 * r2)
          + 2 ^ 52 * (h3 * r4 + h4 * r3) + 2 ^ 78 * (h4 * r4)).
  ring.
Qed.

(** One carry: the low limb stays, the rest moves up. *)
Lemma split_limb d : 0 <= d < 2 ^ 58 ->
  exists q m, u32 (Z.shiftr d 26) = q /\ d mod 2 ^ 26 = m /\ d = 2 ^ 26 * q + m /\
    0 <= m < 2 ^ 26 /\ 0 <= 2 ^ 26 * q <= d.
Proof.
  intros H. exists (d / 2 ^ 26), (d mod 2 ^ 26). rewrite carry_limb by done.
  pose proof (Z.div_mod d (2 ^ 26)). pose proof (Z.mod_pos_bound d (2 ^ 26)). lia.
Qed.

Ltac split_limb_of d :=
  let q := fresh "q" in let m := fresh "m" in let Hq := fresh in let Hm := fresh in
  destruct (split_limb d) as (q & m & Hq & Hm & ? & ? & ?); [lia|]; rewrite ?Hq, ?Hm; clear Hq Hm.

(** The carries of [multiply]. *)
Lemma multiply_carries r h : key_ok r -> sum_ok h ->
  acc_ok (multiply r h) /\ exists k, eval (multiply r h) = eval (dot r h) - k * P1305.
Proof.
  intros Hr Hh. pose proof (dot_bounds r h Hr Hh) as Hd.
  destruct r as [r0 r1 r2 r3 r4], h as [h0 h1 h2 h3 h4].
  destruct Hr as (Hr0 & Hr1 & Hr2 & Hr3 & Hr4). cbn [l0 l1 l2 l3 l4] in *. unfold multiply, dot in *.
  rewrite (u32_id (r1 * 5)), (u32_id (r2 * 5)), (u32_id (r3 * 5)), (u32_id (r4 * 5)) by blia.
  generalize dependent (h0 * r0 + h1 * (r4 * 5) + h2 * (r3 * 5) + h3 * (r2 * 5) + h4 * (r1 * 5)).
  generalize dependent (h0 * r1 + h1 * r0 + h2 * (r4 * 5) + h3 * (r3 * 5) + h4 * (r2 * 5)).
  generalize dependent (h0 * r2 + h1 * r1 + h2 * r0 + h3 * (r4 * 5) + h4 * (r3 * 5)).
  generalize dependent (h0 * r3 + h1 * r2 + h2 * r1 + h3 * r0 + h4 * (r4 * 5)).
  generalize dependent (h0 * r4 + h1 * r3 + h2 * r2 + h3 * r1 + h4 * r0).
  intros d4 d3 d2 d1 d0 (Hd0 & Hd1 & Hd2 & Hd3 & Hd4). cbn [l0 l1 l2 l3 l4] in *.
  clear -Hd0 Hd1 Hd2 Hd3 Hd4.
  rewrite !low_limb, !(u64_id d0), !(u64_id d1), !(u64_id d2), !(u64_id d3), !(u64_id d4) by blia.
  split_limb_of d0. rewrite !(u64_id (d1 + _)) by blia. split_limb_of (d1 + q).
  rewrite !(u64_id (d2 + _)) by blia. split_limb_of (d2 + q0).
  rewrite !(u64_id (d3 + _)) by blia. split_limb_of (d3 + q1).
  rewrite !(u64_id (d4 + _)) by blia. split_limb_of (d4 + q2).
  rewrite !(u32_id (q3 * 5)) by blia. rewrite ?(u32_id (m + _)) by blia.
  split_limb_of (m + q3 * 5). rewrite Z.shiftr_div_pow2 by done.
  assert ((m + q3 * 5) / 2 ^ 26 = q4) as -> by (symmetry; apply (Z.div_unique_pos _ _ q4 m4); lia).
  rewrite u32_id by blia. unfold acc_ok, eval, P1305. cbn [l0 l1 l2 l3 l4].
  split; [lia|]. exists q3. lia.
Qed.

Lemma multiply_ok r h : key_ok r -> sum_ok h ->
  acc_ok (multiply r h) /\ eval (multiply r h) mod P1305 = (eval h * eval r) mod P1305.
Proof.
  intros Hr Hh. destruct (multiply_carries r h Hr Hh) as [Ha [k ->]]. split; [done|].
  destruct (dot_eval r h) as [k' ->]. rewrite Z.mod_add by done.
  replace (eval (dot r h) - k * P1305) with (eval (dot r h) + (- k) * P1305) by ring.
  by rewrite Z.mod_add.
Qed.

(** ** Blocks as integers *)

Lemma le_get_app a b : bytes_ok a -> le_get (a ++ b) = le_get a + 2 ^ (8 * zlen a) * le_get b.
Proof.
  induction 1 as [|x a Hx Ha IH]; cbn [app].
  { rewrite (zlen_nil (A := Z)). change (2 ^ (8 * 0)) with 1. cbn [le_get]. ring. }
  rewrite !le_get_cons, IH by done. rewrite zlen_cons. pose proof (zlen_nonneg a).
  replace (8 * (1 + zlen a)) with (8 + 8 * zlen a) by lia. rewrite Z.pow_add_r by lia.
  change (2 ^ 8) with 256. ring.
Qed.

(** A field of a byte string as a field of its integer. *)
Lemma le_get_slice off len l : bytes_ok l -> 0 <= off -> 0 <= len -> off + len <= zlen l ->
  le_get (slice off len l) = (le_get l / 2 ^ (8 * off)) mod 2 ^ (8 * len).
Proof.
  intros Hl Ho Hn Hb. unfold slice.
  set (a := take (Z.to_nat off) l). set (b := take (Z.to_nat len) (drop (Z.to_nat off) l)).
  set (c := drop (Z.to_nat len) (drop (Z.to_nat off) l)).
  assert (l = a ++ b ++ c) as E by (unfold a, b, c; by rewrite !take_drop).
  assert (zlen a = off) as Ha by (unfold zlen, a in *; rewrite length_take; lia).
  assert (zlen b = len) as Hlb by (unfold zlen, b in *; rewrite length_take, length_drop; lia).
  assert (bytes_ok a) as Hab by (by apply Forall_take).
  assert (bytes_ok b) as Hbb by (by apply Forall_take, Forall_drop).
  rewrite E, !le_get_app, Ha, Hlb by done. pose proof (le_get_range a Hab). pose proof (le_get_range b Hbb).
  rewrite Ha, Hlb in *. assert (0 < 2 ^ (8 * off) /\ 0 < 2 ^ (8 * len)) as [? ?] by lia.
  rewrite (Z.mul_comm (2 ^ (8 * off))), Z.div_add, Z.div_small, Z.add_0_l by lia.
  rewrite (Z.mul_comm (2 ^ (8 * len))), Z.mod_add by lia. symmetry. by apply Z.mod_small.
Qed.

(** Bits [k .. k+25] of a loaded word. *)
Lemma word_limb x k : 0 <= k <= 6 -> Z.land (Z.shiftr (x mod 2 ^ 32) k) MASK26 = (x / 2 ^ k) mod 2 ^ 26.
Proof.
  intros Hk. rewrite land_mask26, <- Z.shiftr_div_pow2 by lia. apply Z.bits_inj'. intros i Hi.
  destruct (Z.lt_ge_cases i 26).
  - rewrite !Z.mod_pow2_bits_low, !Z.shiftr_spec by lia. by rewrite Z.mod_pow2_bits_low by lia.
  - by rewrite !Z.mod_pow2_bits_high by lia.
Qed.

(** The limbs of a 128-bit integer, and of a 16-byte block as [blocks] loads them. *)
Definition limbs_of (n : Z) : limbs :=
  mk_limbs (n mod 2 ^ 26) ((n / 2 ^ 26) mod 2 ^ 26) ((n / 2 ^ 52) mod 2 ^ 26)
           ((n / 2 ^ 78) mod 2 ^ 26) (n / 2 ^ 104).

Lemma eval_limbs_of n : eval (limbs_of n) = n.
Proof.
  unfold eval, limbs_of. cbn [l0 l1 l2 l3 l4].
  change (2 ^ 104) with (2 ^ 26 * 2 ^ 26 * 2 ^ 26 * 2 ^ 26).
  change (2 ^ 78) with (2 ^ 26 * 2 ^ 26 * 2 ^ 26). change (2 ^ 52) with (2 ^ 26 * 2 ^ 26).
  rewrite <- !Z.div_div by done.
  pose proof (Z.div_mod n (2 ^ 26)). pose proof (Z.div_mod (n / 2 ^ 26) (2 ^ 26)).
  pose proof (Z.div_mod (n / 2 ^ 26 / 2 ^ 26) (2 ^ 26)).
  pose proof (Z.div_mod (n / 2 ^ 26 / 2 ^ 26 / 2 ^ 26) (2 ^ 26)). lia.
Qed.

Definition load_limbs (m : list Z) : limbs :=
  mk_limbs (Z.land (load32_le m 0) MASK26) (Z.land (Z.shiftr (load32_le m 3) 2) MASK26)
    (Z.land (Z.shiftr (load32_le m 6) 4) MASK26) (Z.land (Z.shiftr (load32_le m 9) 6) MASK26)
    (Z.shiftr (load32_le m 12) 8).

Lemma load32_field m off : bytes_ok m -> 0 <= off -> off + 4 <= 16 -> 16 <= zlen m ->
  load32_le m off = (le_get (slice 0 16 m) / 2 ^ (8 * off)) mod 2 ^ 32.
Proof.
  intros. unfold load32_le. rewrite <- (Z.add_0_l off) at 1.
  rewrite <- (slice_slice off 4 0 16 m) by lia.
  rewrite le_get_slice; [done|by apply bytes_ok_slice|lia..|rewrite zlen_slice; lia].
Qed.

Lemma load_limbs_ok m : bytes_ok m -> 16 <= zlen m -> load_limbs m = limbs_of (le_get (slice 0 16 m)).
Proof.
  intros Hm Hl. unfold load_limbs, limbs_of. rewrite !load32_field by (done || lia).
  set (n := le_get (slice 0 16 m)).
  assert (0 <= n < 2 ^ 128) as Hn.
  { pose proof (le_get_range (slice 0 16 m) (bytes_ok_slice _ _ _ Hm)) as Hr.
    rewrite zlen_slice in Hr by lia. done. }
  rewrite <- (Z.shiftr_0_r (n / 2 ^ (8 * 0) mod 2 ^ 32)). rewrite !word_limb by lia.
  rewrite !Z.div_div by lia. f_equal.
  - by rewrite Z.div_1_r.
  - rewrite Z.shiftr_div_pow2, Z.mod_small by (try split; try apply Z.div_pos; try apply Z.div_lt_upper_bound; lia).
    by rewrite Z.div_div by lia.
Qed.

Lemma limbs_of_ok n : 0 <= n < 2 ^ 128 ->
  0 <= l0 (limbs_of n) < 2 ^ 26 /\ 0 <= l1 (limbs_of n) < 2 ^ 26 /\ 0 <= l2 (limbs_of n) < 2 ^ 26 /\
  0 <= l3 (limbs_of n) < 2 ^ 26 /\ 0 <= l4 (limbs_of n) < 2 ^ 24.
Proof.
  intros. unfold limbs_of. cbn [l0 l1 l2 l3 l4].
  repeat split; try (apply Z.mod_pos_bound; lia); [apply Z.div_pos; lia | apply Z.div_lt_upper_bound; lia].
Qed.

Lemma block_range m : bytes_ok m -> 16 <= zlen m -> 0 <= le_get (slice 0 16 m) < 2 ^ 128.
Proof.
  intros Hm ?. pose proof (le_get_range (slice 0 16 m) (bytes_ok_slice _ _ _ Hm)) as Hr.
  rewrite zlen_slice in Hr by lia. done.
Qed.

(** The additions at the head of the loop add the block and the bit above it. *)
Lemma add_block_ok (final : bool) h m : acc_ok h -> bytes_ok m -> 16 <= zlen m ->
  let hibit := if final then 0 else Z.shiftl 1 24 in
  sum_ok (add_block hibit h m) /\
  eval (add_block hibit h m) = eval h + le_get (slice 0 16 m) + (if final then 0 else 2 ^ 128).
Proof.
  intros Hh Hm Hl hibit.
  pose proof (load_limbs_ok m Hm Hl) as HL. pose proof (limbs_of_ok _ (block_range m Hm Hl)) as HR.
  pose proof (eval_limbs_of (le_get (slice 0 16 m))) as HE. rewrite <- HL in HR, HE.
  unfold load_limbs in HR, HE. cbn [l0 l1 l2 l3 l4] in HR. destruct HR as (H0 & H1 & H2 & H3 & H4).
  unfold add_block.
  assert (Z.lor (Z.shiftr (load32_le m 12) 8) hibit
          = Z.shiftr (load32_le m 12) 8 + if final then 0 else 2 ^ 24) as ->.
  { unfold hibit. destruct final; [by rewrite Z.lor_0_r, Z.add_0_r|]. by rewrite lor_shiftl_add by lia. }
  destruct Hh as (? & ? & ? & ? & ?).
  rewrite (u32_id (l0 h + _)), (u32_id (l1 h + _)), (u32_id (l2 h + _)), (u32_id (l3 h + _)),
    (u32_id (l4 h + _)) by (destruct final; blia).
  rewrite <- HE. unfold sum_ok, eval. cbn [l0 l1 l2 l3 l4].
  split; [destruct final; lia|]. destruct final; ring.
Qed.

(** One iteration of the loop of [blocks]. *)
Lemma block_step_ok (final : bool) r h m : key_ok r -> acc_ok h -> bytes_ok m -> 16 <= zlen m ->
  let h' := multiply r (add_block (if final then 0 else Z.shiftl 1 24) h m) in
  acc_ok h' /\
  eval h' mod P1305 =
    ((eval h mod P1305 + (le_get (slice 0 16 m) + if final then 0 else 2 ^ 128)) * eval r) mod P1305.
Proof.
  intros Hr Hh Hm Hl; cbn zeta. destruct (add_block_ok final h m Hh Hm Hl) as [Hs He].
  destruct (multiply_ok r _ Hr Hs) as [Ha ->]. split; [done|]. rewrite He, <- Z.add_assoc.
  rewrite (Z.mul_mod (eval h + _)), (Z.mul_mod (eval h mod P1305 + _)) by done.
  by rewrite Z.add_mod_idemp_l by done.
Qed.

(** A whole number of blocks, each closed by its high bit. *)
Lemma blocks_loop_ok r q : key_ok r -> forall fuel h m, acc_ok h -> bytes_ok m ->
  length m = (q * 16)%nat -> (q <= fuel)%nat ->
  let h' := blocks_loop fuel (Z.shiftl 1 24) r h m in
  acc_ok h' /\ eval h' mod P1305 = foldl (poly_step (eval r)) (eval h mod P1305) (chunks 16 m).
Proof.
  intros Hr. induction q as [|q IH]; intros fuel h m Hh Hm Hl Hf; cbn zeta.
  - destruct m; [|done]. by destruct fuel.
  - destruct fuel as [|fuel]; [lia|]. cbn [blocks_loop].
    assert (16 <= zlen m) as Hz by (unfold zlen; lia). rewrite (proj2 (Z.leb_le _ _) Hz).
    destruct (block_step_ok false r h m Hr Hh Hm Hz) as [Ha He].
    destruct (IH fuel _ (drop 16 m) Ha) as [Ha' He'];
      [by apply Forall_drop|rewrite length_drop; lia|lia|].
    split; [done|]. rewrite He', He. rewrite (chunks_step 16 ltac:(lia) m) by (by destruct m).
    cbn [foldl]. f_equal. unfold poly_step. do 3 f_equal.
    change (take 16 m) with (slice 0 16 m). rewrite le_get_app by (by apply bytes_ok_slice).
    rewrite zlen_slice by lia. done.
Qed.

(** ** The final reduction *)

Definition reduced (h : limbs) : Prop :=
  0 <= l0 h < 2 ^ 26 /\ 0 <= l1 h < 2 ^ 26 /\ 0 <= l2 h < 2 ^ 26 /\
  0 <= l3 h < 2 ^ 26 /\ 0 <= l4 h < 2 ^ 26.

Lemma split_word h : is_u32 h ->
  exists q m, Z.shiftr h 26 = q /\ Z.land h MASK26 = m /\ h = 2 ^ 26 * q + m /\ 0 <= m < 2 ^ 26 /\ 0 <= 2 ^ 26 * q <= h.
Proof.
  intros H. exists (h / 2 ^ 26), (h mod 2 ^ 26). rewrite land_mask26, Z.shiftr_div_pow2 by done.
  unfold is_u32 in H. pose proof (Z.div_mod h (2 ^ 26)). pose proof (Z.mod_pos_bound h (2 ^ 26)).
  assert (0 <= h / 2 ^ 26) by (apply Z.div_pos; lia). lia.
Qed.

Ltac split_word_of h :=
  let q := fresh "q" in let m := fresh "m" in let Hq := fresh in let Hm := fresh in
  destruct (split_word h) as (q & m & Hq & Hm & ? & ? & ?); [blia|]; rewrite ?Hq, ?Hm; clear Hq Hm.

(** The carries leave every limb below 2^26: a carry out of the top limb came all the
    way from the second one, which is then nearly empty. *)
Lemma carry_limbs_ok h : acc_ok h ->
  reduced (carry_limbs h) /\ eval (carry_limbs h) mod P1305 = eval h mod P1305.
Proof.
  destruct h as [h0 h1 h2 h3 h4]. intros (? & ? & ? & ? & ?). cbn [l0 l1 l2 l3 l4] in *. unfold carry_limbs.
  split_word_of h1. rewrite !(u32_id (h2 + _)) by blia. split_word_of (h2 + q).
  rewrite !(u32_id (h3 + _)) by blia. split_word_of (h3 + q0).
  rewrite !(u32_id (h4 + _)) by blia. split_word_of (h4 + q1).
  rewrite !(u32_id (q2 * 5)) by blia. rewrite !(u32_id (h0 + _)) by blia. split_word_of (h0 + q2 * 5).
  rewrite u32_id by blia. unfold reduced, eval. cbn [l0 l1 l2 l3 l4]. split; [lia|].
  rewrite <- (Z.mod_add _ q2) by done. f_equal. unfold P1305. lia.
Qed.

Lemma mask_all x : is_u32 x -> Z.land x (2 ^ 32 - 1) = x.
Proof. intros. change (2 ^ 32 - 1) with (Z.ones 32). rewrite Z.land_ones by done. by apply u32_id. Qed.

(** The choice made by the sign of [h + 5 - 2^130]. *)
Lemma select_limbs_ok h : reduced h ->
  reduced (select_limbs h) /\ eval (select_limbs h) = eval h mod P1305.
Proof.
  destruct h as [h0 h1 h2 h3 h4]. intros (? & ? & ? & ? & ?). cbn [l0 l1 l2 l3 l4] in *. unfold select_limbs.
  rewrite !(u32_id (h0 + 5)) by blia. split_word_of (h0 + 5).
  rewrite !(u32_id (h1 + _)) by blia. split_word_of (h1 + q).
  rewrite !(u32_id (h2 + _)) by blia. split_word_of (h2 + q0).
  rewrite !(u32_id (h3 + _)) by blia. split_word_of (h3 + q1).
  change (Z.shiftl 1 26) with (2 ^ 26).
  assert (eval (mk_limbs h0 h1 h2 h3 h4) < 2 * P1305 /\ 0 <= eval (mk_limbs h0 h1 h2 h3 h4)) as [? ?]
    by (unfold eval, P1305; cbn [l0 l1 l2 l3 l4]; lia).
  destruct (Z.lt_ge_cases (h4 + q2) (2 ^ 26)).
  - assert (u32 (h4 + q2 - 2 ^ 26) = h4 + q2 - 2 ^ 26 + 2 ^ 32) as ->
      by (unfold u32; symmetry; apply (Z.mod_unique_pos _ _ (-1)); lia).
    assert (Z.shiftr (h4 + q2 - 2 ^ 26 + 2 ^ 32) 31 = 1) as ->
      by (rewrite Z.shiftr_div_pow2 by done; symmetry; apply (Z.div_unique_pos _ _ _ (h4 + q2 - 2 ^ 26 + 2 ^ 31)); lia).
    change (u32 (1 - 1)) with 0. change (u32 (Z.lnot 0)) with (2 ^ 32 - 1).
    rewrite !mask_all, !Z.land_0_r, !Z.lor_0_r by blia. split; [done|].
    symmetry. apply Z.mod_small. unfold eval, P1305 in *. cbn [l0 l1 l2 l3 l4] in *. lia.
  - rewrite (u32_id (h4 + q2 - 2 ^ 26)) by blia.
    assert (Z.shiftr (h4 + q2 - 2 ^ 26) 31 = 0) as ->
      by (rewrite Z.shiftr_div_pow2 by done; apply Z.div_small; lia).
    change (u32 (0 - 1)) with (2 ^ 32 - 1). change (u32 (Z.lnot (2 ^ 32 - 1))) with 0.
    rewrite !mask_all, !Z.land_0_r, !Z.lor_0_l by blia. split; [unfold reduced; cbn [l0 l1 l2 l3 l4]; lia|].
    apply (Z.mod_unique_pos _ _ 1); unfold eval, P1305 in *; cbn [l0 l1 l2 l3 l4] in *; lia.
Qed.

Lemma u32_shiftl b k : 0 <= k <= 32 -> u32 (Z.shiftl b k) = Z.shiftl (b mod 2 ^ (32 - k)) k.
Proof.
  intros. unfold u32. apply Z.bits_inj'. intros i Hi. rewrite (Z.shiftl_spec _ k i) by lia.
  destruct (Z.lt_ge_cases i 32).
  - rewrite Z.mod_pow2_bits_low, Z.shiftl_spec by lia.
    destruct (Z.lt_ge_cases (i - k) 0); [by rewrite !Z.testbit_neg_r by lia|].
    by rewrite Z.mod_pow2_bits_low by lia.
  - by rewrite !Z.mod_pow2_bits_high by lia.
Qed.

(** Two limbs joined into a word. *)
Lemma join_limbs a b k s : 0 <= s -> 0 <= k <= 32 -> 0 <= a < 2 ^ (s + k) ->
  Z.lor (Z.shiftr a s) (u32 (Z.shiftl b k)) = a / 2 ^ s + 2 ^ k * (b mod 2 ^ (32 - k)).
Proof.
  intros Hs Hk Ha. rewrite u32_shiftl, Z.shiftr_div_pow2, lor_shiftl_add; [lia|lia| |lia..].
  rewrite Z.pow_add_r in Ha by lia. split; [apply Z.div_pos; lia|]. apply Z.div_lt_upper_bound; lia.
Qed.

Lemma le_app n m z : le (n + m) z = le n z ++ le m (z / 2 ^ (8 * Z.of_nat n)).
Proof.
  revert z. induction n as [|n IH]; intros z; [by rewrite Z.div_1_r|].
  cbn [Nat.add le app]. rewrite IH, Z.shiftr_div_pow2, Z.div_div by lia. do 4 f_equal.
  rewrite <- Z.pow_add_r by lia. f_equal. lia.
Qed.

Lemma shiftr_mod z k w : 0 <= k -> 0 <= w -> Z.shiftr (z mod 2 ^ (k + w)) k = Z.shiftr z k mod 2 ^ w.
Proof.
  intros. apply Z.bits_inj'. intros i Hi. rewrite Z.shiftr_spec by lia.
  destruct (Z.lt_ge_cases i w).
  - by rewrite !Z.mod_pow2_bits_low, Z.shiftr_spec by lia.
  - by rewrite !Z.mod_pow2_bits_high by lia.
Qed.

Lemma le_mod n z z' : z mod 2 ^ (8 * Z.of_nat n) = z' mod 2 ^ (8 * Z.of_nat n) -> le n z = le n z'.
Proof.
  revert z z'. induction n as [|n IH]; intros z z' H; [done|]. cbn [le].
  replace (8 * Z.of_nat (S n)) with (8 + 8 * Z.of_nat n) in H by lia. f_equal.
  - unfold u8. apply (f_equal (fun x => x mod 2 ^ 8)) in H. by rewrite !mod_mod_pow in H by lia.
  - apply IH. by rewrite <- !shiftr_mod, H by lia.
Qed.

(** One word of a sum: its low 32 bits, then what is left above. *)
Lemma le_word f x n tail : tail = le n (f / 2 ^ 32 + x) ->
  le 4 (u32 f) ++ tail = le (4 + n) (f + 2 ^ 32 * x).
Proof.
  intros ->. rewrite le_app, (Z.mul_comm (2 ^ 32)). change (8 * Z.of_nat 4) with 32.
  rewrite Z.div_add by done. f_equal. apply le_mod. change (8 * Z.of_nat 4) with 32.
  unfold u32. by rewrite Z.mod_mod, Z.mod_add.
Qed.

(** The tag is the sum with the pad, modulo 2^128. *)
Lemma add_pad_ok p0 p1 p2 p3 h : reduced h -> is_u32 p0 -> is_u32 p1 -> is_u32 p2 -> is_u32 p3 ->
  add_pad [p0; p1; p2; p3] h =
    le 16 ((eval h + (p0 + 2 ^ 32 * p1 + 2 ^ 64 * p2 + 2 ^ 96 * p3)) mod 2 ^ 128).
Proof.
  destruct h as [h0 h1 h2 h3 h4]. intros (H0 & H1 & H2 & H3 & H4) P0 P1 P2 P3.
  cbn [l0 l1 l2 l3 l4] in *. unfold add_pad. cbn [nth].
  rewrite <- (Z.shiftr_0_r h0) at 1 2 3 4. rewrite !join_limbs by lia. rewrite Z.div_1_r.
  change (32 - 26) with 6. change (32 - 20) with 12. change (32 - 14) with 18. change (32 - 8) with 24.
  pose proof (Z.div_mod h1 (2 ^ 6)). pose proof (Z.mod_pos_bound h1 (2 ^ 6)).
  pose proof (Z.div_mod h2 (2 ^ 12)). pose proof (Z.mod_pos_bound h2 (2 ^ 12)).
  pose proof (Z.div_mod h3 (2 ^ 18)). pose proof (Z.mod_pos_bound h3 (2 ^ 18)).
  pose proof (Z.div_mod h4 (2 ^ 24)). pose proof (Z.mod_pos_bound h4 (2 ^ 24)).
  set (w0 := h0 + _) in *. set (w1 := h1 / _ + _) in *. set (w2 := h2 / _ + _) in *. set (w3 := h3 / _ + _) in *.
  set (z := eval _ + _).
  assert (le 16 (z mod 2 ^ 128) = le 16 z) as -> by (apply le_mod; by rewrite Z.mod_mod).
  assert (z = (w0 + p0) + 2 ^ 32 * ((w1 + p1) + 2 ^ 32 * ((w2 + p2) + 2 ^ 32 * ((w3 + p3) + 2 ^ 32 * (h4 / 2 ^ 24))))) as Hz
    by (unfold z, eval, w0, w1, w2, w3; cbn [l0 l1 l2 l3 l4]; lia).
  assert (is_u32 w0 /\ is_u32 w1 /\ is_u32 w2 /\ is_u32 w3) as (W0 & W1 & W2 & W3)
    by (unfold w0, w1, w2, w3; repeat split; lia).
  clearbody z w0 w1 w2 w3. subst z. rewrite !Z.shiftr_div_pow2 by done.
  assert (forall f, 0 <= f < 2 ^ 34 -> 0 <= f / 2 ^ 32 < 4) as Hc
    by (intros; split; [apply Z.div_pos|apply Z.div_lt_upper_bound]; lia).
  rewrite !(u64_id (w0 + p0)) by blia. pose proof (Hc (w0 + p0) ltac:(blia)).
  rewrite !(u64_id (w1 + p1 + _)) by blia. pose proof (Hc (w1 + p1 + (w0 + p0) / 2 ^ 32) ltac:(blia)).
  rewrite !(u64_id (w2 + p2 + _)) by blia.
  pose proof (Hc (w2 + p2 + (w1 + p1 + (w0 + p0) / 2 ^ 32) / 2 ^ 32) ltac:(blia)).
  rewrite !(u64_id (w3 + p3 + _)) by blia.
  apply (le_word _ _ 12). rewrite Z.add_assoc, (Z.add_comm (_ / _)).
  apply (le_word _ _ 8). rewrite Z.add_assoc, (Z.add_comm (_ / _)).
  apply (le_word _ _ 4). rewrite Z.add_assoc, (Z.add_comm (_ / _)), <- (app_nil_r (le 4 (u32 _))).
  by apply (le_word _ _ 0).
Qed.

(** ** The key *)

Lemma land_field n c k w : 0 <= k -> 0 <= w ->
  (Z.land n c / 2 ^ k) mod 2 ^ w = Z.land ((n / 2 ^ k) mod 2 ^ w) ((c / 2 ^ k) mod 2 ^ w).
Proof.
  intros. rewrite <- !Z.shiftr_div_pow2 by done. apply Z.bits_inj'. intros i Hi.
  rewrite Z.land_spec. destruct (Z.lt_ge_cases i w).
  - rewrite !Z.mod_pow2_bits_low, !Z.shiftr_spec by lia. apply Z.land_spec.
  - by rewrite !Z.mod_pow2_bits_high by lia.
Qed.

(** A mask within the low 26 bits. *)
Lemma land_within z m : Z.land MASK26 m = m -> Z.land z m = Z.land (Z.land z MASK26) m.
Proof. intros H. by rewrite <- Z.land_assoc, H. Qed.

Lemma clamp_ok buffer key : bytes_ok key -> zlen key = 32 ->
  poly_r (ls_poly1305_init buffer key) = limbs_of (poly_mult key).
Proof.
  intros Hk Hl. pose proof (load_limbs_ok key Hk ltac:(lia)) as HL. unfold load_limbs, limbs_of in HL.
  pose proof (block_range key Hk ltac:(lia)).
  unfold ls_poly1305_init, poly_mult, limbs_of. cbn [poly_r]. injection HL as H0 H1 H2 H3 H4.
  rewrite (land_within _ 0x3ffff03), (land_within _ 0x3ffc0ff), (land_within _ 0x3f03fff) by done.
  change 0x3ffffff with MASK26. rewrite H0, H1, H2, H3, H4. set (n := le_get (slice 0 16 key)) in *.
  rewrite !land_field by done. f_equal.
  - pose proof (land_field n 0x0ffffffc0ffffffc0ffffffc0fffffff 0 26 ltac:(lia) ltac:(lia)) as E.
    change (2 ^ 0) with 1 in E. rewrite !Z.div_1_r in E. rewrite E.
    change (0x0ffffffc0ffffffc0ffffffc0fffffff mod 2 ^ 26) with MASK26. by rewrite land_mask26, Z.mod_mod.
  - rewrite <- (Z.mod_small (Z.land n _ / 2 ^ 104) (2 ^ 24)).
    + rewrite land_field by done. f_equal. rewrite Z.mod_small; [done|]. split; [apply Z.div_pos; lia|].
      apply Z.div_lt_upper_bound; lia.
    + split; [apply Z.div_pos; [apply Z.land_nonneg; lia|lia]|]. apply Z.div_lt_upper_bound; [lia|].
      apply (land_bound_l 128); lia.
Qed.

Lemma poly_mult_range key : bytes_ok key -> zlen key = 32 -> 0 <= poly_mult key < 2 ^ 124.
Proof.
  intros Hk Hl. unfold poly_mult. rewrite Z.land_comm. by apply (land_bound_l 124).
Qed.

Lemma limbs_of_key n : 0 <= n < 2 ^ 124 -> key_ok (limbs_of n).
Proof.
  intros. destruct (limbs_of_ok n) as (? & ? & ? & ? & ?); [lia|]. repeat split; try lia.
  unfold limbs_of. cbn [l4]. apply Z.div_lt_upper_bound; lia.
Qed.

Lemma pad_ok buffer key : bytes_ok key -> zlen key = 32 -> exists p0 p1 p2 p3,
  poly_pad (ls_poly1305_init buffer key) = [p0; p1; p2; p3] /\
  is_u32 p0 /\ is_u32 p1 /\ is_u32 p2 /\ is_u32 p3 /\
  p0 + 2 ^ 32 * p1 + 2 ^ 64 * p2 + 2 ^ 96 * p3 = poly_addend key.
Proof.
  intros Hk Hl.
  assert (forall off, 0 <= off -> off + 4 <= 32 -> is_u32 (load32_le key off)).
  { intros. unfold load32_le. apply le_get_u32; [by apply bytes_ok_slice|apply zlen_slice; lia]. }
  do 4 eexists. split; [done|]. repeat split; try (apply H; lia). unfold poly_addend, load32_le.
  change (slice 16 16 key) with (slice 16 (4 + (4 + (4 + 4))) key). rewrite !slice_split by lia.
  rewrite !le_get_app by (by apply bytes_ok_slice). rewrite !zlen_slice by lia.
  change (16 + 4 + 4 + 4) with 28. change (16 + 4 + 4) with 24. change (16 + 4) with 20.
  change (8 * 4) with 32. change (2 ^ 64) with (2 ^ 32 * 2 ^ 32). change (2 ^ 96) with (2 ^ 32 * 2 ^ 32 * 2 ^ 32). ring.
Qed.

(** ** Streaming *)

(** The context after [message] has been absorbed: whole blocks are in the
    accumulator, the rest is in the buffer. *)
Record absorbed (key message : list Z) (c : ls_poly1305_context_t) : Prop := {
  ab_r : poly_r c = limbs_of (poly_mult key);
  ab_pad : poly_pad c = poly_pad (ls_poly1305_init [] key);
  ab_final : poly_final c = false;
  ab_acc : acc_ok (poly_h c);
  ab_buffer : zlen (poly_buffer c) = 16 /\ bytes_ok (poly_buffer c);
  ab_split : exists q a b, message = a ++ b /\ length a = (q * 16)%nat /\
    poly_leftover c = zlen b /\ zlen b < 16 /\ bytes_ok b /\ slice 0 (zlen b) (poly_buffer c) = b /\
    eval (poly_h c) mod P1305 = foldl (poly_step (poly_mult key)) 0 (chunks 16 a)
}.

Section Streaming.
Context (key : list Z) (key_bytes : bytes_ok key) (key_size : zlen key = 32).

Lemma key_limbs_ok : key_ok (limbs_of (poly_mult key)).
Proof using key_bytes key_size. by apply limbs_of_key, poly_mult_range. Qed.

Lemma init_absorbed buffer : zlen buffer = 16 -> bytes_ok buffer ->
  absorbed key [] (ls_poly1305_init buffer key).
Proof using key_bytes key_size.
  intros. split; try done; [by apply clamp_ok|].
  exists 0%nat, [], []. repeat split; try done; constructor.
Qed.

(** [blocks] on whole blocks, the buffer being empty. *)
Lemma blocks_absorbed q message m c : absorbed key message c -> poly_leftover c = 0 ->
  bytes_ok m -> length m = (q * 16)%nat -> absorbed key (message ++ m) (blocks c m).
Proof using key_bytes key_size.
  intros [Hr Hp Hf Ha Hb (q0 & a & b & -> & Hq & Hl & Hbl & Hbo & Hbs & He)] H0 Hm Hlen.
  rewrite Hl in H0. assert (b = []) as -> by (destruct b; [done|unfold zlen in *; simpl in *; lia]).
  rewrite app_nil_r in *. pose proof key_limbs_ok as Hk. rewrite <- Hr in Hk.
  destruct (blocks_loop_ok _ q Hk (length m) (poly_h c) m Ha Hm Hlen ltac:(lia)) as [Ha' He'].
  unfold blocks. rewrite Hf. split; try done.
  exists (q0 + q)%nat, (a ++ m), []. rewrite app_nil_r, length_app. repeat split; [lia|done..|].
  cbn [set_h poly_h]. rewrite He', He, Hr, eval_limbs_of, (chunks_app 16 ltac:(lia) q0) by done.
  by rewrite foldl_app.
Qed.

Lemma land_lnot15 n : 0 <= n -> Z.land n (Z.lnot 0xf) = 16 * (n / 16).
Proof.
  intros. change 0xf with (Z.ones 4). rewrite <- Z.ldiff_land, Z.ldiff_ones_r by done.
  rewrite Z.shiftr_div_pow2, Z.shiftl_mul_pow2 by done. change (2 ^ 4) with 16. lia.
Qed.

(** Storing the rest of a message in the empty buffer. *)
Lemma store_absorbed message m c : absorbed key message c -> poly_leftover c = 0 ->
  bytes_ok m -> zlen m < 16 -> absorbed key (message ++ m) (set_buffer (splice 0 m (poly_buffer c)) (zlen m) c).
Proof.
  intros [Hr Hp Hf Ha [Hb Hbb] (q & a & b & -> & Hq & Hl & Hbl & Hbo & Hbs & He)] H0 Hm Hlen.
  rewrite Hl in H0. assert (b = []) as -> by (destruct b; [done|unfold zlen in *; simpl in *; lia]).
  split; try done; cbn [set_buffer poly_buffer].
  - rewrite zlen_splice by lia. split; [done|]. by apply bytes_ok_splice.
  - exists q, a, m. rewrite app_nil_r. repeat split; try done. apply slice_splice_same; lia.
Qed.

Lemma update_aligned_absorbed message m c : absorbed key message c -> poly_leftover c = 0 ->
  bytes_ok m -> absorbed key (message ++ m) (update_aligned c m).
Proof using key_bytes key_size.
  intros Hc H0 Hm. unfold update_aligned. pose proof (zlen_nonneg m).
  pose proof (Z.div_mod (zlen m) 16 ltac:(lia)). pose proof (Z.mod_pos_bound (zlen m) 16 ltac:(lia)).
  destruct (16 <=? zlen m) eqn:E; bool_prop.
  - rewrite land_lnot15 by lia. set (want := 16 * (zlen m / 16)).
    assert (0 <= want <= zlen m) as Hw by (unfold want; lia).
    assert (absorbed key (message ++ slice 0 want m) (blocks c (slice 0 want m))) as Habs.
    { apply (blocks_absorbed (Z.to_nat (zlen m / 16))); [done..|by apply bytes_ok_slice|].
      rewrite length_slice by lia. unfold want. lia. }
    assert (m = slice 0 want m ++ drop (Z.to_nat want) m) as Hs by (unfold slice; by rewrite drop_0, take_drop).
    rewrite Hs at 1. rewrite app_assoc. case_if; bool_prop.
    + apply store_absorbed; [done..|by apply bytes_ok_drop|]. rewrite zlen_drop by lia. unfold want. lia.
    + rewrite zlen_drop in * by lia. rewrite drop_ge, app_nil_r by (unfold zlen in *; lia). done.
  - change (Z.to_nat 0) with 0%nat. rewrite drop_0. case_if; bool_prop; [by apply store_absorbed|].
    assert (m = []) as -> by (destruct m; [done|unfold zlen in *; simpl in *; lia]). by rewrite app_nil_r.
Qed.

(** Adding to a buffer that is not empty. *)
Lemma fill_buffer message m c : absorbed key message c -> bytes_ok m ->
  poly_leftover c + zlen m <= 16 ->
  let buffer := splice (poly_leftover c) m (poly_buffer c) in
  zlen buffer = 16 /\ bytes_ok buffer /\
  slice 0 (poly_leftover c + zlen m) buffer = slice 0 (poly_leftover c) (poly_buffer c) ++ m.
Proof.
  intros [_ _ _ _ [Hb Hbb] (q & a & b & -> & Hq & -> & ? & ? & Hs & _)] Hm Hlen buffer.
  pose proof (zlen_nonneg b). pose proof (zlen_nonneg m). unfold buffer.
  rewrite zlen_splice by lia. split; [done|]. split; [by apply bytes_ok_splice|].
  rewrite slice_split by lia. rewrite slice_splice_disjoint by lia. f_equal.
  by rewrite Z.add_0_l, slice_splice_same by lia.
Qed.

(** The buffer of a context, and the context with the buffer emptied. *)
Lemma absorbed_buffer message c : absorbed key message c ->
  exists a, message = a ++ slice 0 (poly_leftover c) (poly_buffer c) /\ 0 <= poly_leftover c < 16 /\
    forall buffer, zlen buffer = 16 -> bytes_ok buffer -> absorbed key a (set_buffer buffer 0 c).
Proof.
  intros [Hr Hp Hf Ha Hb (q & a & b & -> & Hq & Hl & Hbl & Hbo & Hbs & He)].
  exists a. rewrite Hl, Hbs. pose proof (zlen_nonneg b). split; [done|]. split; [lia|].
  intros buffer ??. split; try done. exists q, a, []. rewrite app_nil_r.
  repeat split; try done. constructor.
Qed.

Lemma update_absorbed message m c : absorbed key message c -> bytes_ok m ->
  absorbed key (message ++ m) (ls_poly1305_update c m).
Proof using key_bytes key_size.
  intros Hc Hm. unfold ls_poly1305_update. pose proof (zlen_nonneg m).
  destruct (zlen m =? 0) eqn:E0; bool_prop.
  { assert (m = []) as -> by (destruct m; [done|unfold zlen in *; simpl in *; lia]). by rewrite app_nil_r. }
  destruct (poly_leftover c =? 0) eqn:E1; cbn [negb]; bool_prop; [by apply update_aligned_absorbed|].
  destruct (absorbed_buffer _ _ Hc) as (a & Ha & Hlo & Hempty).
  set (want := if _ >? _ then _ else _).
  assert (0 <= want <= zlen m /\ want <= 16 - poly_leftover c /\ (want = zlen m \/ want = 16 - poly_leftover c)) as (Hw & Hw' & Hcase).
  { unfold want. rewrite Z.gtb_ltb. case_if; bool_prop; lia. }
  assert (zlen (slice 0 want m) = want) as Hsl by (apply zlen_slice; lia).
  destruct (fill_buffer message (slice 0 want m) c Hc) as (Hbl & Hbb & Hbs);
    [by apply bytes_ok_slice|lia|]. rewrite Hsl in Hbs.
  set (buffer := splice (poly_leftover c) (slice 0 want m) (poly_buffer c)) in *.
  assert (message ++ slice 0 want m = a ++ slice 0 (poly_leftover c + want) buffer) as Hnew
    by (rewrite Hbs, Ha at 1; by rewrite app_assoc).
  assert (m = slice 0 want m ++ drop (Z.to_nat want) m) as Hs by (unfold slice; by rewrite drop_0, take_drop).
  case_if; bool_prop.
  - assert (want = zlen m) as Ew by lia. rewrite Ew, slice_full in Hnew. rewrite Hnew.
    pose proof (store_absorbed a (slice 0 (poly_leftover c + want) buffer) _ (Hempty buffer Hbl Hbb) eq_refl) as Hst.
    rewrite zlen_slice in Hst by lia. rewrite Ew in *.
    rewrite splice_same in Hst; [|lia|cbn [set_buffer poly_buffer]; rewrite zlen_slice by lia; lia
      |cbn [set_buffer poly_buffer]; by rewrite zlen_slice by lia].
    apply Hst; [by apply bytes_ok_slice|lia].
  - rewrite Hs at 1. rewrite app_assoc, Hnew.
    assert (poly_leftover c + want = 16) as -> by lia. rewrite <- Hbl at 1. rewrite slice_full.
    apply update_aligned_absorbed; [|done|by apply bytes_ok_drop].
    change (set_buffer buffer 0 (blocks (set_buffer buffer 16 c) buffer))
      with (blocks (set_buffer buffer 0 c) buffer).
    apply (blocks_absorbed 1); [by apply Hempty|done|done|]. unfold zlen in Hbl. lia.
Qed.

Lemma blocks_loop_one fuel hibit r h m : length m = 16%nat ->
  blocks_loop (S fuel) hibit r h m = multiply r (add_block hibit h m).
Proof.
  intros H. cbn [blocks_loop]. rewrite (proj2 (Z.leb_le 16 (zlen m))) by (unfold zlen; lia).
  rewrite drop_ge by lia. by destruct fuel.
Qed.

Lemma le_get_zeros n : le_get (fill n 0) = 0.
Proof. unfold fill. induction (Z.to_nat n) as [|k IH]; [done|]. cbn [replicate le_get]. by rewrite IH. Qed.

(** The accumulator after the last block. *)
Lemma last_block_ok message c : absorbed key message c ->
  poly_pad (last_block c) = poly_pad c /\ acc_ok (poly_h (last_block c)) /\
  eval (poly_h (last_block c)) mod P1305 = foldl (poly_step (poly_mult key)) 0 (chunks 16 message).
Proof using key_bytes key_size.
  intros Hc. unfold last_block. destruct (poly_leftover c =? 0) eqn:E; cbn [negb]; bool_prop.
  - destruct Hc as [Hr Hp Hf Ha Hb (q & a & b & -> & Hq & Hl & Hbl & Hbo & Hbs & He)].
    rewrite Hl in E. assert (b = []) as -> by (destruct b; [done|unfold zlen in *; simpl in *; lia]).
    by rewrite app_nil_r.
  - set (tail := 1 :: _).
    destruct (absorbed_buffer _ _ Hc) as (_ & _ & Hlo & _).
    assert (zlen tail = 16 - poly_leftover c) as Ht by (unfold tail; rewrite zlen_cons, zlen_fill; lia).
    assert (bytes_ok tail) as Hto by (constructor; [done|by apply bytes_ok_fill]).
    destruct (fill_buffer message tail c Hc Hto ltac:(lia)) as (Hbl & Hbb & Hbs).
    set (buffer := splice _ _ _) in *. rewrite Ht in Hbs.
    replace (poly_leftover c + (16 - poly_leftover c)) with 16 in Hbs by lia.
    destruct Hc as [Hr Hp Hf Ha Hb (q & a & b & -> & Hq & Hl & Hbsz & Hbo & Hbs' & He)].
    rewrite Hl, Hbs' in Hbs. pose proof key_limbs_ok as Hk. rewrite <- Hr in Hk.
    destruct (block_step_ok true (poly_r c) (poly_h c) buffer Hk Ha Hbb ltac:(lia)) as [Ha' He'].
    split; [done|]. unfold blocks. cbn [poly_final poly_r poly_h set_h].
    assert (length buffer = 16%nat) as Hlb by (unfold zlen in Hbl; lia). rewrite Hlb, blocks_loop_one by done.
    split; [done|]. rewrite He', He, (chunks_app 16 ltac:(lia) q) by done.
    assert (b <> []) by (intros ->; apply E; by rewrite Hl).
    rewrite (chunks_short 16 ltac:(lia) b), foldl_app by (done || unfold zlen in Hbsz; lia).
    cbn [foldl]. unfold poly_step at 2. rewrite Hbs, Hr, eval_limbs_of, Z.add_0_r. do 3 f_equal.
    unfold tail. change (1 :: fill ?n 0) with ([1] ++ fill n 0).
    rewrite !le_get_app, le_get_zeros by (done || (repeat constructor; done)). lia.
Qed.

(** [ls_poly1305_finish]. *)
Lemma finish_absorbed message c : absorbed key message c ->
  ls_poly1305_finish c = poly1305_spec key message.
Proof using key_bytes key_size.
  intros Hc. destruct (last_block_ok _ _ Hc) as (Hp & Ha & He). unfold ls_poly1305_finish.
  destruct (carry_limbs_ok _ Ha) as [Hr Hc1]. destruct (select_limbs_ok _ Hr) as [Hr' Hc2].
  destruct (pad_ok [] key key_bytes key_size) as (p0 & p1 & p2 & p3 & Hpad & H0 & H1 & H2 & H3 & Hsum).
  rewrite Hp, (ab_pad _ _ _ Hc), Hpad, add_pad_ok by done. by rewrite Hsum, Hc2, Hc1, He.
Qed.

(** C2: For every key and every way of cutting a message into updates, empty ones
    included, the limb implementation of Poly1305 gives the tag of the definition: the
    blocks evaluated as a polynomial at the clamped key modulo 2^130 - 5, plus the
    second half of the key, modulo 2^128. No carry is lost on the way, and the
    uninitialised buffer does not matter. *)
Theorem poly1305_correct buffer (parts : list (list Z)) : zlen buffer = 16 -> bytes_ok buffer ->
  Forall bytes_ok parts ->
  ls_poly1305_finish (foldl ls_poly1305_update (ls_poly1305_init buffer key) parts) =
    poly1305_spec key (concat parts).
Proof using key_bytes key_size.
  intros Hb Hbo Hparts. apply finish_absorbed.
  change (concat parts) with ([] ++ concat parts).
  pose proof (init_absorbed buffer Hb Hbo) as Hc.
  generalize dependent (ls_poly1305_init buffer key). generalize (@nil Z).
  induction Hparts as [|m parts Hm Hparts IH]; intros message c Hc; cbn [foldl concat].
  - by rewrite app_nil_r.
  - rewrite app_assoc. by apply IH, update_absorbed.
Qed.
End Streaming.

Lemma poly1305_correct_witness :
  let key := fill 32 0xa5 in let parts := [str "Cryptographic"; []; str " Forum Research"; str " Group"] in
  ls_poly1305_finish (foldl ls_poly1305_update (ls_poly1305_init (fill 16 0xcc) key) parts) =
    poly1305_spec key (str "Cryptographic Forum Research Group").
Proof.
  apply (poly1305_correct (fill 32 0xa5)); vm_compute; repeat constructor; discriminate.
Defined.
