(* ===== verification/Chacha.v ===== *)
(** * ChaCha20 ([src/security/chacha20.c])

    The block function, the stream cipher that XORs its output onto a message, and
    HChaCha20. *)

From S2P Require Import Prelude Poly1305.

(** ** The code *)

Definition rotate (value count : Z) : Z :=
  Z.lor (u32 (Z.shiftl value count)) (Z.shiftr value (32 - count)).

(** [x[i]] of the [uint32_t x[16]] working array. *)
Definition at_ (x : list Z) (i : nat) : Z := nth i x 0.

(** [QUARTER(a, b, c, d)], one assignment per line of the macro. *)
Definition quarter (a b c d : nat) (x : list Z) : list Z :=
  let x := <[a := u32 (at_ x a + at_ x b)]> x in
  let x := <[d := Z.lxor (at_ x d) (at_ x a)]> x in
  let x := <[d := rotate (at_ x d) 16]> x in
  let x := <[c := u32 (at_ x c + at_ x d)]> x in
  let x := <[b := Z.lxor (at_ x b) (at_ x c)]> x in
  let x := <[b := rotate (at_ x b) 12]> x in
  let x := <[a := u32 (at_ x a + at_ x b)]> x in
  let x := <[d := Z.lxor (at_ x d) (at_ x a)]> x in
  let x := <[d := rotate (at_ x d) 8]> x in
  let x := <[c := u32 (at_ x c + at_ x d)]> x in
  let x := <[b := Z.lxor (at_ x b) (at_ x c)]> x in
  <[b := rotate (at_ x b) 7]> x.

Definition double_round (x : list Z) : list Z :=
  let x := quarter 0 4 8 12 x in
  let x := quarter 1 5 9 13 x in
  let x := quarter 2 6 10 14 x in
  let x := quarter 3 7 11 15 x in
  let x := quarter 0 5 10 15 x in
  let x := quarter 1 6 11 12 x in
  let x := quarter 2 7 8 13 x in
  quarter 3 4 9 14 x.

Definition rounds (x : list Z) : list Z := Nat.iter 10 double_round x.

Definition chacha_constants : list Z := [0x61707865; 0x3320646e; 0x79622d32; 0x6b206574].

(** [count] words of a byte string. *)
Definition load_words (count : nat) (p : list Z) : list Z :=
  map (fun i => load32_le p (Z.of_nat i * 4)) (List.seq 0 count).

Definition block (key nonce : list Z) (counter : Z) : list Z :=
  let state := chacha_constants ++ load_words 8 key ++ [counter] ++ load_words 3 nonce in
  let x := rounds state in
  concat (zip_with (fun a b => le 4 (u32 (a + b))) x state).

(** The loop of [ls_chacha20_xor]; each pass takes at least one byte, so the length of
    the message is enough fuel. The output may be the input: a byte is written after it
    is read and not read again. *)
Fixpoint xor_loop (block : Z -> list Z) (fuel : nat) (counter : Z) (input : list Z) : list Z :=
  match fuel with
  | O => []
  | S fuel =>
      if negb (zlen input =? 0) then
        let stream := block counter in
        let take_ := if zlen input >? 64 then 64 else zlen input in
        zip_with Z.lxor (slice 0 take_ input) (slice 0 take_ stream) ++
        xor_loop block fuel (inc32 counter) (drop (Z.to_nat take_) input)
      else []
  end.

(** A null [input] stands for zeros. *)
Definition ls_chacha20_xor (key nonce : list Z) (counter : Z) (input : option (list Z)) (length_ : Z) : list Z :=
  let input := match input with Some l => slice 0 length_ l | None => fill length_ 0 end in
  xor_loop (block key nonce) (length input) counter input.

Definition ls_hchacha20 (key nonce : list Z) : list Z :=
  let x := rounds (chacha_constants ++ load_words 8 key ++ load_words 4 nonce) in
  concat (map (fun i => le 4 (at_ x i)) [0; 1; 2; 3; 12; 13; 14; 15]%nat).

(** RFC 8439, section 2.3.2: the block function. *)
Example chacha20_block_rfc8439 :
  block (map Z.of_nat (List.seq 0 32)) [0;0;0;9;0;0;0;0x4a;0;0;0;0] 1 =
  [0x10;0xf1;0xe7;0xe4;0xd1;0x3b;0x59;0x15;0x50;0x0f;0xdd;0x1f;0xa3;0x20;0x71;0xc4;
   0xc7;0xd1;0xf4;0xc7;0x33;0xc0;0x68;0x03;0x04;0x22;0xaa;0x9a;0xc3;0xd4;0x6c;0x4e;
   0xd2;0x82;0x64;0x46;0x07;0x9f;0xaa;0x09;0x14;0xc2;0xd7;0x05;0xd9;0x8b;0x02;0xa2;
   0xb5;0x12;0x9c;0xd1;0xde;0x16;0x4e;0xb9;0xcb;0xd0;0x83;0xe8;0xa2;0x50;0x3c;0x4e].
Proof. vm_compute. done. Qed.

(** draft-irtf-cfrg-xchacha, section 2.2.1: HChaCha20. *)
Example hchacha20_vector :
  ls_hchacha20 (map Z.of_nat (List.seq 0 32)) [0;0;0;9;0;0;0;0x4a;0;0;0;0;0x31;0x41;0x59;0x27] =
  [0x82;0x41;0x3b;0x42;0x27;0xb2;0x7b;0xfe;0xd3;0x0e;0x42;0x50;0x8a;0x87;0x7d;0x73;
   0xa0;0xf9;0xe4;0xd5;0x8a;0x74;0xa8;0x53;0xc1;0x2e;0xc4;0x13;0x26;0xd3;0xec;0xdc].
Proof. vm_compute. done. Qed.

(** ** Shape of the keystream *)

Lemma length_quarter a b c d x : length (quarter a b c d x) = length x.
Proof. unfold quarter. cbn zeta. by rewrite !length_insert. Qed.

Lemma length_double_round x : length (double_round x) = length x.
Proof. unfold double_round. cbn zeta. by rewrite !length_quarter. Qed.

Lemma length_rounds x : length (rounds x) = length x.
Proof.
  unfold rounds. generalize 10%nat as n. induction n as [|n IH]; [done|].
  rewrite Nat.iter_succ. by rewrite length_double_round.
Qed.

Lemma length_load_words n p : length (load_words n p) = n.
Proof. unfold load_words. by rewrite length_map, length_seq. Qed.

Lemma concat_le4 (l : list (list Z)) : Forall (fun w => length w = 4%nat /\ bytes_ok w) l ->
  length (concat l) = (4 * length l)%nat /\ bytes_ok (concat l).
Proof.
  induction 1 as [|w l [Hw Hb] H [IHl IHb]]; [split; [done|constructor]|]. cbn [concat]. rewrite length_app, bytes_ok_app.
  cbn [length]. split; [lia|done].
Qed.

Lemma Forall_zip_with {A B C} (P : C -> Prop) (f : A -> B -> C) l k :
  (forall a b, P (f a b)) -> Forall P (zip_with f l k).
Proof. intros H. revert k. induction l; intros [|b k]; simpl; constructor; auto. Qed.

Lemma block_shape key nonce counter :
  zlen (block key nonce counter) = 64 /\ bytes_ok (block key nonce counter).
Proof.
  unfold block. set (state := chacha_constants ++ _).
  assert (length state = 16%nat) as Hs by (unfold state; by rewrite !length_app, !length_load_words).
  destruct (concat_le4 (zip_with (fun a b => le 4 (u32 (a + b))) (rounds state) state)) as [Hl Hb].
  - apply Forall_zip_with. intros. split; [apply length_le|apply bytes_ok_le].
  - split; [|done]. unfold zlen. rewrite Hl, length_zip_with, length_rounds, Hs. done.
Qed.

Lemma hchacha20_shape key nonce : zlen (ls_hchacha20 key nonce) = 32 /\ bytes_ok (ls_hchacha20 key nonce).
Proof.
  unfold ls_hchacha20. set (x := rounds _).
  destruct (concat_le4 (map (fun i => le 4 (at_ x i)) [0; 1; 2; 3; 12; 13; 14; 15]%nat)) as [Hl Hb].
  - apply Forall_map, Forall_true. intros. split; [apply length_le|apply bytes_ok_le].
  - split; [|done]. unfold zlen. by rewrite Hl.
Qed.

(** ** The stream cipher *)

#[local] Opaque block.

Section Keystream.
Context (stream : Z -> list Z)
        (stream_shape : forall counter, zlen (stream counter) = 64 /\ bytes_ok (stream counter)).

(** Byte [i] of the keystream that starts at block [counter]. *)
Definition keystream (counter : Z) (i : nat) : Z :=
  nth (i mod 64) (stream (u32 (counter + Z.of_nat (i / 64)))) 0.

Lemma keystream_u8 counter i : is_u8 (keystream counter i).
Proof using stream_shape.
  unfold keystream. destruct (stream_shape (u32 (counter + Z.of_nat (i / 64)))) as [Hl Hb].
  pose proof (Nat.mod_upper_bound i 64 ltac:(lia)). unfold zlen in Hl.
  destruct (lookup_lt_is_Some_2 (stream (u32 (counter + Z.of_nat (i / 64)))) (i mod 64)%nat) as [b E]; [lia|].
  rewrite (nth_lookup_Some _ _ _ _ E). by apply (Forall_lookup_1 _ _ _ _ Hb E).
Qed.

Lemma keystream_next counter i : keystream (inc32 counter) i = keystream counter (64 + i).
Proof.
  unfold keystream, inc32, u32.
  replace ((64 + i) mod 64)%nat with (i mod 64)%nat by (rewrite Nat.add_comm; symmetry; apply (Nat.Div0.mod_add i 1 64)).
  replace ((64 + i) / 64)%nat with (1 + i / 64)%nat
    by (rewrite (Nat.add_comm 64), (Nat.add_comm 1); symmetry; apply (Nat.div_add i 1 64); lia).
  rewrite Z.add_mod_idemp_l by done. do 3 f_equal. lia.
Qed.

Lemma xor_loop_lookup fuel counter input i : (length input <= fuel)%nat -> is_u32 counter ->
  xor_loop stream fuel counter input !! i = (fun b => Z.lxor b (keystream counter i)) <$> input !! i.
Proof using stream_shape.
  revert counter input i. induction fuel as [|fuel IH]; intros counter input i Hf Hc; cbn [xor_loop].
  { destruct input; [done|simpl in Hf; lia]. }
  destruct (zlen input =? 0) eqn:E; cbn [negb]; bool_prop.
  { destruct input; [done|unfold zlen in E; simpl in E; lia]. }
  destruct (stream_shape counter) as [Hb _]. pose proof (zlen_nonneg input).
  set (n := if _ >? _ then _ else _).
  assert (1 <= n <= 64 /\ n <= zlen input /\ (n = 64 \/ n = zlen input)) as (Hn & Hn' & Hcase)
    by (unfold n; rewrite Z.gtb_ltb; case_if; bool_prop; lia).
  set (head := zip_with _ _ _).
  assert (length head = Z.to_nat n) as Hh
    by (unfold head; rewrite length_zip_with, !length_slice by lia; lia).
  destruct (Nat.lt_ge_cases i (Z.to_nat n)) as [Hi|Hi].
  - rewrite lookup_app_l by lia. unfold head. rewrite lookup_zip_with.
    rewrite !lookup_slice by lia. change (Z.to_nat 0 + i)%nat with i.
    destruct (input !! i) as [b|] eqn:Eb; [|done]. cbn.
    destruct (lookup_lt_is_Some_2 (stream counter) i) as [s Es]; [unfold zlen in *; lia|].
    rewrite Es. cbn. do 2 f_equal. unfold keystream.
    rewrite Nat.mod_small, Nat.div_small by lia. rewrite Z.add_0_r, u32_id by done.
    symmetry. by apply nth_lookup_Some.
  - rewrite lookup_app_r, Hh by lia. rewrite IH; [|rewrite length_drop; unfold zlen in *; lia|apply u32_range].
    rewrite lookup_drop. replace (Z.to_nat n + (i - Z.to_nat n))%nat with i by lia.
    destruct Hcase as [Hc1|Hc1].
    + rewrite keystream_next. replace (64 + (i - Z.to_nat n))%nat with i by lia. done.
    + rewrite (lookup_ge_None_2 input i); [done|]. unfold zlen in *. lia.
Qed.

(** A message of zeros gives the keystream itself. *)
Lemma xor_loop_zeros fuel counter n : 0 <= n <= 64 -> is_u32 counter -> (Z.to_nat n <= fuel)%nat ->
  xor_loop stream fuel counter (fill n 0) = slice 0 n (stream counter).
Proof using stream_shape.
  intros Hn Hc Hf. destruct (stream_shape counter) as [Hl _]. apply list_eq. intros i.
  assert (length (fill n 0) = Z.to_nat n) as Hfl by (unfold fill; apply length_replicate).
  rewrite (xor_loop_lookup fuel counter (fill n 0) i) by (done || lia).
  destruct (Z.lt_ge_cases (Z.of_nat i) n) as [Hi|Hi].
  - rewrite fill_lookup, lookup_slice by lia. change (Z.to_nat 0 + i)%nat with i.
    destruct (lookup_lt_is_Some_2 (stream counter) i) as [b Eb]; [unfold zlen in Hl; lia|].
    rewrite Eb. cbn. unfold keystream. rewrite Nat.mod_small, Nat.div_small, Z.add_0_r, u32_id by (done || lia).
    by rewrite (nth_lookup_Some _ _ _ _ Eb).
  - rewrite (lookup_ge_None_2 (fill n 0)) by lia. rewrite lookup_ge_None_2; [done|].
    rewrite length_slice; lia.
Qed.
End Keystream.

(** The cipher as a map over the bytes of the message. *)
Lemma chacha20_xor_lookup key nonce counter input i : is_u32 counter ->
  ls_chacha20_xor key nonce counter (Some input) (zlen input) !! i =
    (fun b => Z.lxor b (keystream (block key nonce) counter i)) <$> input !! i.
Proof. intros. unfold ls_chacha20_xor. rewrite slice_full. apply xor_loop_lookup; [apply block_shape|lia|done]. Qed.

Lemma chacha20_xor_zlen key nonce counter input : is_u32 counter ->
  zlen (ls_chacha20_xor key nonce counter (Some input) (zlen input)) = zlen input.
Proof.
  intros. unfold zlen at 1 3. f_equal.
  set (out := ls_chacha20_xor _ _ _ _ _).
  assert (forall i, out !! i = None <-> input !! i = None) as Hi.
  { intros i. unfold out. rewrite chacha20_xor_lookup by done. apply fmap_None. }
  apply Nat.le_antisymm; apply lookup_ge_None; apply Hi; by apply lookup_ge_None.
Qed.

Lemma chacha20_xor_bytes key nonce counter input : is_u32 counter -> bytes_ok input ->
  bytes_ok (ls_chacha20_xor key nonce counter (Some input) (zlen input)).
Proof.
  intros ? Hb. apply Forall_lookup_2. intros i b. rewrite chacha20_xor_lookup by done.
  destruct (input !! i) as [x|] eqn:E; [|done]. intros [= <-].
  apply (lxor_bound 8); [done|by apply (Forall_lookup_1 _ _ _ _ Hb E)|apply keystream_u8, block_shape].
Qed.

(** Decryption is encryption. *)
Lemma chacha20_xor_involutive key nonce counter input : is_u32 counter ->
  let output := ls_chacha20_xor key nonce counter (Some input) (zlen input) in
  ls_chacha20_xor key nonce counter (Some output) (zlen output) = input.
Proof.
  intros Hc output. apply list_eq. intros i. rewrite chacha20_xor_lookup by done.
  unfold output. rewrite chacha20_xor_lookup by done.
  destruct (input !! i) as [b|]; [|done]. cbn. f_equal.
  by rewrite Z.lxor_assoc, Z.lxor_nilpotent, Z.lxor_0_r.
Qed.
