(* ===== verification/Sha256.v ===== *)
(** * SHA-256, HMAC and HKDF ([src/security/sha256.c])

    The hash with its 64-byte buffer, the keyed hash and the key derivation, with the
    constant-time comparison. The theorems relate the streaming code to the padded
    message of FIPS 180-4, and the derivation to RFC 2104 and RFC 5869. *)

From S2P Require Import Prelude Poly1305.

(** ** The code *)

(** Big-endian bytes. *)
Definition be (n : nat) (z : Z) : list Z := rev (le n z).
Definition read_be32 (p : list Z) (off : Z) : Z := le_get (rev (slice off 4 p)).

Definition rotr (value bits : Z) : Z := Z.lor (Z.shiftr value bits) (u32 (Z.shiftl value (32 - bits))).

(** A row of the source's tables, written as one number: its eight 32-bit words. *)
Definition row_words (row : Z) : list Z := map (fun i => u32 (Z.shiftr row (32 * Z.of_nat (7 - i)))) (List.seq 0 8).

Definition sha_constants : list Z := Eval vm_compute in mjoin (map row_words [
  0x428a2f9871374491b5c0fbcfe9b5dba53956c25b59f111f1923f82a4ab1c5ed5;
  0xd807aa9812835b01243185be550c7dc372be5d7480deb1fe9bdc06a7c19bf174;
  0xe49b69c1efbe47860fc19dc6240ca1cc2de92c6f4a7484aa5cb0a9dc76f988da;
  0x983e5152a831c66db00327c8bf597fc7c6e00bf3d5a7914706ca635114292967;
  0x27b70a852e1b21384d2c6dfc53380d13650a7354766a0abb81c2c92e92722c85;
  0xa2bfe8a1a81a664bc24b8b70c76c51a3d192e819d6990624f40e3585106aa070;
  0x19a4c1161e376c082748774c34b0bcb5391c0cb34ed8aa4a5b9cca4f682e6ff3;
  0x748f82ee78a5636f84c878148cc7020890befffaa4506cebbef9a3f7c67178f2]).

Definition sha_initial : list Z :=
  [0x6a09e667; 0xbb67ae85; 0x3c6ef372; 0xa54ff53a; 0x510e527f; 0x9b05688c; 0x1f83d9ab; 0x5be0cd19].

Record sha256_context_t : Type := mk_sha {
  sha_state : list Z;
  sha_bits : Z;
  sha_block : list Z;
  sha_used : Z
}.

Definition word (words : list Z) (i : nat) : Z := nth i words 0.

(** [words[i]] for [i] from 16 to 63. *)
Definition schedule_word (words : list Z) (i : nat) : list Z :=
  let w15 := word words (i - 15) in
  let w2 := word words (i - 2) in
  let s0 := Z.lxor (Z.lxor (rotr w15 7) (rotr w15 18)) (Z.shiftr w15 3) in
  let s1 := Z.lxor (Z.lxor (rotr w2 17) (rotr w2 19)) (Z.shiftr w2 10) in
  words ++ [u32 (word words (i - 16) + s0 + word words (i - 7) + s1)].

Definition schedule (block : list Z) : list Z :=
  foldl schedule_word (map (fun i => read_be32 block (Z.of_nat i * 4)) (List.seq 0 16)) (List.seq 16 48).

(** One round on the variables [a .. h]. *)
Definition sha_round (words : list Z) (v : list Z) (i : nat) : list Z :=
  match v with
  | [a; b; c; d; e; f; g; h] =>
      let s1 := Z.lxor (Z.lxor (rotr e 6) (rotr e 11)) (rotr e 25) in
      let choice := Z.lxor (Z.land e f) (Z.land (u32 (Z.lnot e)) g) in
      let temp1 := u32 (h + s1 + choice + word sha_constants i + word words i) in
      let s0 := Z.lxor (Z.lxor (rotr a 2) (rotr a 13)) (rotr a 22) in
      let majority := Z.lxor (Z.lxor (Z.land a b) (Z.land a c)) (Z.land b c) in
      let temp2 := u32 (s0 + majority) in
      [u32 (temp1 + temp2); a; b; c; u32 (d + temp1); e; f; g]
  | _ => v
  end.

(** The new state of [transform]. *)
Definition compress (state block : list Z) : list Z :=
  let words := schedule block in
  zip_with (fun s v => u32 (s + v)) state (foldl (sha_round words) state (List.seq 0 64)).

Definition transform (context : sha256_context_t) (block : list Z) : sha256_context_t :=
  mk_sha (compress (sha_state context) block) (sha_bits context) (sha_block context) (sha_used context).

(** [block] is not initialised: its contents are an argument. *)
Definition sha_init (block : list Z) : sha256_context_t := mk_sha sha_initial 0 block 0.

(** The loop of [update]; every pass takes a byte, so the length is enough fuel. *)
Fixpoint update_loop (fuel : nat) (context : sha256_context_t) (data : list Z) : sha256_context_t :=
  match fuel with
  | O => context
  | S fuel =>
      if negb (zlen data =? 0) then
        let take_ := 64 - sha_used context in
        let take_ := if take_ >? zlen data then zlen data else take_ in
        let block := splice (sha_used context) (slice 0 take_ data) (sha_block context) in
        let used := sha_used context + take_ in
        let context := mk_sha (sha_state context) (sha_bits context) block used in
        let context :=
          if used =? 64
          then mk_sha (sha_state (transform context block)) (sha_bits context) block 0
          else context in
        update_loop fuel context (drop (Z.to_nat take_) data)
      else context
  end.

Definition sha_update (context : sha256_context_t) (data : list Z) : sha256_context_t :=
  let bits := u64 (sha_bits context + u64 (zlen data * 8)) in
  update_loop (length data) (mk_sha (sha_state context) bits (sha_block context) (sha_used context)) data.

(** The padding of [finish]: 0x80, and a block closed with zeros when the length does
    not fit. *)
Definition pad_first (context : sha256_context_t) : sha256_context_t :=
  let block := splice (sha_used context) [0x80] (sha_block context) in
  let used := sha_used context + 1 in
  let context := mk_sha (sha_state context) (sha_bits context) block used in
  if used >? 56 then
    let block := splice used (fill (64 - used) 0) block in
    mk_sha (sha_state (transform context block)) (sha_bits context) block 0
  else context.

Definition finish (context : sha256_context_t) : list Z :=
  let context := pad_first context in
  let used := sha_used context in
  let block := splice used (fill (56 - used) 0) (sha_block context) in
  let block := splice 56 (be 8 (sha_bits context)) block in
  let context := transform context block in
  concat (map (be 4) (sha_state context)).

(** The stack of the callers, whose contents no result depends on. *)
Definition sha_stack : list Z := fill 64 0.

Definition ls_sha256 (data : list Z) : list Z :=
  let context := sha_init sha_stack in
  finish (if negb (zlen data =? 0) then sha_update context data else context).

(** The key of [ls_hmac_sha256], normalised to 64 bytes. *)
Definition hmac_key (key : list Z) : list Z :=
  let normalized := fill 64 0 in
  if zlen key >? 64
  then splice 0 (finish (sha_update (sha_init sha_stack) key)) normalized
  else splice 0 key normalized.

Definition ls_hmac_sha256 (key data : list Z) : list Z :=
  let normalized := hmac_key key in
  let inner_pad := map (fun b => Z.lxor b 0x36) normalized in
  let outer_pad := map (fun b => Z.lxor b 0x5c) normalized in
  let inner := sha_update (sha_update (sha_init sha_stack) inner_pad) data in
  let inner_hash := finish inner in
  finish (sha_update (sha_update (sha_init sha_stack) outer_pad) inner_hash).

Definition LS_HKDF_MAX_INFO_SIZE : Z := 128.

(** The loop of [ls_hkdf_sha256]: [produced] bytes are out, [previous] is the last
    block. *)
Fixpoint hkdf_loop (fuel : nat) (prk info previous : list Z) (counter : Z) (output : list Z) (output_length : Z) : list Z :=
  match fuel with
  | O => output
  | S fuel =>
      if zlen output <? output_length then
        let message := previous ++ info ++ [counter] in
        let previous := ls_hmac_sha256 prk message in
        let take_ := output_length - zlen output in
        let take_ := if take_ >? 32 then 32 else take_ in
        hkdf_loop fuel prk info previous (u8 (counter + 1)) (output ++ slice 0 take_ previous) output_length
      else output
  end.

(** A pointer and a length: the bytes, or nothing for a null pointer. *)
Definition buffer_of (p : option (list Z)) (length_ : Z) : list Z :=
  match p with Some l => slice 0 length_ l | None => [] end.

(** [(!p && length)]. *)
Definition null_with_length (p : option (list Z)) (length_ : Z) : bool :=
  match p with Some _ => false | None => negb (length_ =? 0) end.

Definition ls_hkdf_sha256 (salt : option (list Z)) (salt_length : Z) (ikm : option (list Z)) (ikm_length : Z)
    (info : option (list Z)) (info_length : Z) (output : ptr) (output_length : Z) : res (list Z) :=
  if null_with_length salt salt_length || null_with_length ikm ikm_length ||
     null_with_length info info_length || (negb output && negb (output_length =? 0)) ||
     (info_length >? LS_HKDF_MAX_INFO_SIZE) || (output_length >? 255 * 32)
  then Err LS_EINVAL
  else
    let salt := if negb (salt_length =? 0) then buffer_of salt salt_length else fill 32 0 in
    let prk := ls_hmac_sha256 salt (buffer_of ikm ikm_length) in
    Ok (hkdf_loop (Z.to_nat output_length) prk (buffer_of info info_length) [] 1 [] output_length).

Lemma hkdf_no_ok salt n1 ikm n2 info n3 output n4 : ls_hkdf_sha256 salt n1 ikm n2 info n3 output n4 <> Err LS_OK.
Proof. unfold ls_hkdf_sha256. by destruct (_ || _). Qed.

(** The loop of [ls_constant_time_equal]. *)
Definition ls_constant_time_equal (left right : list Z) : bool :=
  foldl (fun difference lr => Z.lor difference (u8 (Z.lxor lr.1 lr.2))) 0 (zip left right) =? 0.

(** FIPS 180-4 example "abc", and RFC 4231 test case 2. *)
Example sha256_abc : ls_sha256 (str "abc") =
  [0xba;0x78;0x16;0xbf;0x8f;0x01;0xcf;0xea;0x41;0x41;0x40;0xde;0x5d;0xae;0x22;0x23;
   0xb0;0x03;0x61;0xa3;0x96;0x17;0x7a;0x9c;0xb4;0x10;0xff;0x61;0xf2;0x00;0x15;0xad].
Proof. vm_compute. done. Qed.

Example hmac_rfc4231 : ls_hmac_sha256 (str "Jefe") (str "what do ya want for nothing?") =
  [0x5b;0xdc;0xc1;0x46;0xbf;0x60;0x75;0x4e;0x6a;0x04;0x24;0x26;0x08;0x95;0x75;0xc7;
   0x5a;0x00;0x3f;0x08;0x9d;0x27;0x39;0x83;0x9d;0xec;0x58;0xb9;0x64;0xec;0x38;0x43].
Proof. vm_compute. done. Qed.

(** The derivation of the provider's known-answer test ([provider.c]). *)
Example hkdf_known_answer :
  ls_hkdf_sha256 (Some (map Z.of_nat (List.seq 0 13))) 13 (Some (map Z.of_nat (List.seq 32 32))) 32
    (Some (str "Latch HKDF KAT")) 14 SET 42 =
  Ok [0x3a;0x86;0xcb;0x5c;0x29;0xf9;0x3d;0x75;0xc0;0x47;0x72;0x15;0x44;0x3d;
      0x0f;0x87;0x50;0x4b;0x49;0x3c;0x92;0x6f;0xa3;0x7c;0xb0;0xa3;0x16;0x7c;
      0xee;0xbf;0x28;0xef;0x0a;0xe4;0x39;0x67;0x1b;0xc2;0xe0;0xe2;0x4b;0xa2].
Proof. vm_compute. done. Qed.

(** ** The definition of SHA-256 *)

(** The message padded to a multiple of 64 bytes: a one bit, the least number of zeros,
    the length in bits. *)
Definition padded (message : list Z) : list Z :=
  message ++ [0x80] ++ fill ((55 - zlen message) mod 64) 0 ++ be 8 (u64 (8 * zlen message)).

Definition sha256_spec (message : list Z) : list Z :=
  concat (map (be 4) (foldl compress sha_initial (chunks 64 (padded message)))).

Lemma length_sha_round words v i : length v = 8%nat -> length (sha_round words v i) = 8%nat.
Proof.
  intros H. do 8 (destruct v as [|? v]; [simpl in H; lia|]). by destruct v; [|simpl in H; lia].
Qed.

Lemma length_compress state block : length state = 8%nat -> length (compress state block) = 8%nat.
Proof.
  intros H. unfold compress. rewrite length_zip_with, H. generalize (schedule block) as words. intros words.
  generalize (List.seq 0 64) as l. intros l.
  assert (length (foldl (sha_round words) state l) = 8%nat) as ->; [|done].
  revert state H. induction l as [|i l IH]; intros; [done|]. by apply IH, length_sha_round.
Qed.

#[local] Opaque compress.

Lemma zlen_be n z : zlen (be n z) = Z.of_nat n.
Proof. unfold be, zlen. by rewrite length_rev, length_le. Qed.

Lemma bytes_ok_be n z : bytes_ok (be n z).
Proof. unfold be. apply Forall_rev, bytes_ok_le. Qed.

Lemma sha256_shape message : zlen (sha256_spec message) = 32 /\ bytes_ok (sha256_spec message).
Proof.
  unfold sha256_spec. generalize (chunks 64 (padded message)) as l. intros l.
  assert (length (foldl compress sha_initial l) = 8%nat) as H8.
  { assert (length sha_initial = 8%nat) as H by done. revert H. generalize sha_initial.
    induction l as [|b l IH]; intros; [done|]. by apply IH, length_compress. }
  generalize dependent (foldl compress sha_initial l). intros s H8.
  do 8 (destruct s as [|? s]; [simpl in H8; lia|]). destruct s; [|simpl in H8; lia]. cbn [map concat]. split.
  - by rewrite !zlen_app, !zlen_be.
  - rewrite !bytes_ok_app. repeat split; try apply bytes_ok_be. constructor.
Qed.

(** ** Streaming *)

(** The context after [message]: whole blocks are compressed, the rest is buffered. *)
Record hashed (message : list Z) (c : sha256_context_t) : Prop := {
  hs_size : zlen (sha_block c) = 64;
  hs_split : exists q a b, message = a ++ b /\ length a = (q * 64)%nat /\ sha_used c = zlen b /\
    zlen b < 64 /\ slice 0 (zlen b) (sha_block c) = b /\
    sha_state c = foldl compress sha_initial (chunks 64 a)
}.

Lemma nil_of_zlen {A} (l : list A) : zlen l = 0 -> l = [].
Proof. destruct l; [done|]. unfold zlen. simpl. lia. Qed.

Lemma zlen_pos_nonnil {A} (l : list A) : l <> [] -> 0 < zlen l.
Proof. destruct l; [done|]. unfold zlen. simpl. lia. Qed.

Lemma init_hashed block : zlen block = 64 -> hashed [] (sha_init block).
Proof. intros H. split; [done|]. by exists 0%nat, [], []. Qed.

(** The buffer after more bytes have been copied into it. *)
Lemma buffer_grows (b m block : list Z) : slice 0 (zlen b) block = b -> zlen b + zlen m <= zlen block ->
  slice 0 (zlen (b ++ m)) (splice (zlen b) m block) = b ++ m.
Proof.
  intros Hs Hl. pose proof (zlen_nonneg b). pose proof (zlen_nonneg m).
  rewrite zlen_app, slice_split by lia. rewrite slice_splice_disjoint, Hs by lia. f_equal.
  by rewrite Z.add_0_l, slice_splice_same by lia.
Qed.

(** A block completed in the buffer. *)
Lemma block_done q (a b m : list Z) state block : slice 0 (zlen b) block = b -> zlen block = 64 ->
  zlen b + zlen m = 64 -> length a = (q * 64)%nat -> state = foldl compress sha_initial (chunks 64 a) ->
  let block' := splice (zlen b) m block in
  block' = b ++ m /\
  compress state block' = foldl compress sha_initial (chunks 64 (a ++ b ++ m)) /\
  length (a ++ b ++ m) = (S q * 64)%nat.
Proof.
  intros Hs Hb Hl Ha -> block'. pose proof (buffer_grows b m block Hs ltac:(lia)) as Hg.
  pose proof (zlen_nonneg b).
  assert (block' = b ++ m) as Hbm.
  { rewrite <- Hg. unfold block'. rewrite zlen_app, Hl, <- Hb.
    assert (zlen (splice (zlen b) m block) = zlen block) as <- by (apply zlen_splice; lia).
    symmetry. apply slice_full. }
  split; [done|]. rewrite Hbm, (chunks_app 64 ltac:(lia) q), foldl_app by done.
  assert (length (b ++ m) = 64%nat) as Hlen by (unfold zlen in *; rewrite length_app; lia).
  rewrite (chunks_short 64 ltac:(lia) (b ++ m)) by (lia || by intros E; rewrite E in Hlen).
  split; [done|]. rewrite length_app. lia.
Qed.

Lemma update_loop_hashed fuel message c data : (length data <= fuel)%nat -> hashed message c ->
  hashed (message ++ data) (update_loop fuel c data) /\ sha_bits (update_loop fuel c data) = sha_bits c.
Proof.
  revert message c data. induction fuel as [|fuel IH]; intros message c data Hf Hc; cbn [update_loop].
  { destruct data; [by rewrite app_nil_r|simpl in Hf; lia]. }
  destruct (zlen data =? 0) eqn:E; cbn [negb]; bool_prop.
  { rewrite (nil_of_zlen data E). by rewrite app_nil_r. }
  destruct Hc as [Hs (q & a & b & -> & Hq & Hu & Hb & Hbs & Hst)]. rewrite Hu.
  pose proof (zlen_nonneg b). pose proof (zlen_nonneg data).
  set (n := if _ >? _ then _ else _).
  assert (0 < n <= zlen data /\ n <= 64 - zlen b /\ (n = zlen data \/ n = 64 - zlen b)) as (Hn & Hn' & Hcase)
    by (unfold n; rewrite Z.gtb_ltb; case_if; bool_prop; lia).
  assert (zlen (slice 0 n data) = n) as Hsl by (apply zlen_slice; lia).
  assert (data = slice 0 n data ++ drop (Z.to_nat n) data) as Hd by (unfold slice; by rewrite drop_0, take_drop).
  assert (length (drop (Z.to_nat n) data) <= fuel)%nat as Hf' by (rewrite length_drop; lia).
  cbn zeta. rewrite Hd at 1. rewrite app_assoc. destruct (zlen b + n =? 64) eqn:E64; bool_prop.
  - destruct (block_done q a b (slice 0 n data) (sha_state c) (sha_block c)) as (Hbm & Hcp & Hlen); [done|done|lia|done..|].
    rewrite <- (app_assoc a).
    edestruct IH as [H1 H2]; [exact Hf'| |split; [exact H1|by rewrite H2]].
    split; cbn [sha_block sha_state sha_used transform].
    + rewrite zlen_splice; lia.
    + exists (S q), (a ++ b ++ slice 0 n data), []. by rewrite app_nil_r.
  - rewrite <- (app_assoc a).
    edestruct IH as [H1 H2]; [exact Hf'| |split; [exact H1|by rewrite H2]].
    split; cbn [sha_block sha_state sha_used].
    + rewrite zlen_splice; lia.
    + exists q, a, (b ++ slice 0 n data). rewrite zlen_app, Hsl. repeat split; try done; [lia|].
      rewrite <- Hsl at 1. rewrite <- zlen_app. apply buffer_grows; [done|lia].
Qed.

Lemma sha_update_hashed message c data : hashed message c -> sha_bits c = u64 (8 * zlen message) ->
  hashed (message ++ data) (sha_update c data) /\
  sha_bits (sha_update c data) = u64 (8 * zlen (message ++ data)).
Proof.
  intros [Hs Hx] Hb. unfold sha_update.
  destruct (update_loop_hashed (length data) message
    (mk_sha (sha_state c) (u64 (sha_bits c + u64 (zlen data * 8))) (sha_block c) (sha_used c)) data) as [H1 H2];
    [done|by split|]. split; [done|]. rewrite H2, Hb. cbn [sha_bits]. unfold u64.
  rewrite <- Z.add_mod by done. rewrite zlen_app. f_equal. lia.
Qed.

Lemma finish_hashed message c : hashed message c -> sha_bits c = u64 (8 * zlen message) ->
  finish c = sha256_spec message.
Proof.
  intros [Hs (q & a & b & -> & Hq & Hu & Hb & Hbs & Hst)] Hbits. pose proof (zlen_nonneg b).
  assert ((55 - zlen (a ++ b)) mod 64 = (55 - zlen b) mod 64) as Hk.
  { rewrite zlen_app. unfold zlen at 1. rewrite Hq.
    replace (55 - (Z.of_nat (q * 64) + zlen b)) with (55 - zlen b + - Z.of_nat q * 64) by lia. by apply Z.mod_add. }
  unfold finish, pad_first, sha256_spec, padded. rewrite Hu, Hk, <- Hbits. cbn [sha_used sha_block sha_bits sha_state].
  assert (zlen [0x80] = 1) as H80 by done.
  rewrite Z.gtb_ltb. destruct (56 <? zlen b + 1) eqn:E; bool_prop; cbn [sha_used sha_block sha_bits sha_state transform];
    set (len := be 8 (sha_bits c)); assert (zlen len = 8) as Hlen by (apply zlen_be); clearbody len.
  - set (n := 64 - (zlen b + 1)). assert (zlen (fill n 0) = n) as Hn by (apply zlen_fill; lia).
    change (zlen b + 1) with (zlen b + zlen [0x80]). rewrite (splice_app (zlen b) [0x80]) by lia.
    set (m := [0x80] ++ fill n 0). assert (zlen m = 64 - zlen b) as Hm by (unfold m; rewrite zlen_app; lia).
    destruct (block_done q a b m (sha_state c) (sha_block c)) as (Hbm & Hcp & Hla); [done|done|lia|done..|].
    rewrite Hcp. set (block := splice (zlen b) m (sha_block c)) in *.
    assert (zlen block = 64) as Hbl by (unfold block; rewrite zlen_splice; lia). clearbody block.
    change (56 - 0) with 56. set (z := fill 56 0) in *.
    assert (splice 56 len (splice 0 z block) = splice 0 (z ++ len) block) as ->
      by (rewrite <- (splice_app 0 z len) by (change (zlen z) with 56; lia); done).
    destruct (block_done (S q) (a ++ b ++ m) [] (z ++ len) (foldl compress sha_initial (chunks 64 (a ++ b ++ m))) block) as (_ & Hcp2 & _);
      [done|done|rewrite zlen_app; change (zlen z) with 56; rewrite Hlen; done|done..|].
    cbn [app] in Hcp2. change (zlen []) with 0 in Hcp2. rewrite Hcp2.
    do 4 f_equal. unfold m, z. rewrite <- !app_assoc. do 3 f_equal. rewrite app_assoc. f_equal.
    unfold fill. rewrite <- replicate_add. f_equal.
    rewrite <- (Z.mod_unique_pos (55 - zlen b) 64 (-1) (119 - zlen b)) by lia. lia.
  - set (n := 56 - (zlen b + 1)). assert (zlen (fill n 0) = n) as Hn by (apply zlen_fill; lia).
    replace ((55 - zlen b) mod 64) with n by (unfold n; rewrite Z.mod_small; lia).
    change (zlen b + 1) with (zlen b + zlen [0x80]). rewrite (splice_app (zlen b) [0x80]) by lia.
    replace 56 with (zlen b + zlen ([0x80] ++ fill n 0)) at 1 by (rewrite zlen_app; lia).
    rewrite splice_app by (rewrite ?zlen_app; lia). rewrite <- app_assoc.
    destruct (block_done q a b ([0x80] ++ fill n 0 ++ len) (sha_state c) (sha_block c)) as (_ & -> & _);
      [done|done|rewrite !zlen_app; lia|done..|]. by rewrite app_assoc.
Qed.

(** C4: SHA-256 does not depend on how a message is cut into updates or on the
    uninitialised buffer: it is the compression function folded over the 64-byte blocks
    of the message padded as FIPS 180-4 requires. *)
Theorem sha256_correct block (parts : list (list Z)) : zlen block = 64 ->
  finish (foldl sha_update (sha_init block) parts) = sha256_spec (concat parts).
Proof.
  intros Hb. change (concat parts) with ([] ++ concat parts).
  pose proof (init_hashed block Hb) as Hc. assert (sha_bits (sha_init block) = u64 (8 * zlen (@nil Z))) as Hbits by done.
  generalize dependent (sha_init block). generalize (@nil Z).
  induction parts as [|m parts IH]; intros message c Hc Hbits; cbn [foldl concat].
  - rewrite app_nil_r. by apply finish_hashed.
  - rewrite app_assoc. destruct (sha_update_hashed message c m Hc Hbits). by apply IH.
Qed.

Lemma sha256_correct_witness :
  finish (foldl sha_update (sha_init (fill 64 0xcc)) [str "a"; []; str "bc"]) = ls_sha256 (str "abc").
Proof.
  rewrite (sha256_correct (fill 64 0xcc) [str "a"; []; str "bc"] eq_refl). vm_compute. reflexivity.
Defined.

(** ** The keyed hash and the key derivation *)

Lemma sha_stack_parts parts :
  finish (foldl sha_update (sha_init sha_stack) parts) = sha256_spec (concat parts).
Proof.
  change (concat parts) with ([] ++ concat parts).
  pose proof (init_hashed sha_stack eq_refl) as Hc.
  assert (sha_bits (sha_init sha_stack) = u64 (8 * zlen (@nil Z))) as Hbits by done.
  generalize dependent (sha_init sha_stack). generalize (@nil Z).
  induction parts as [|m parts IH]; intros message c Hc Hbits; cbn [foldl concat].
  - rewrite app_nil_r. by apply finish_hashed.
  - rewrite app_assoc. destruct (sha_update_hashed message c m Hc Hbits). by apply IH.
Qed.

Lemma sha256_one_shot data : ls_sha256 data = sha256_spec data.
Proof.
  unfold ls_sha256. destruct (zlen data =? 0) eqn:E; cbn [negb]; bool_prop.
  - rewrite (nil_of_zlen data E). apply (sha_stack_parts []).
  - rewrite <- (app_nil_r data) at 2. apply (sha_stack_parts [data]).
Qed.

(** RFC 2104: the key, hashed when it is longer than a block, padded with zeros. *)
Definition hmac_spec (key data : list Z) : list Z :=
  let key := if zlen key >? 64 then sha256_spec key else key in
  let key := key ++ fill (64 - zlen key) 0 in
  sha256_spec (map (Z.lxor 0x5c) key ++ sha256_spec (map (Z.lxor 0x36) key ++ data)).

Lemma splice_zeros k : zlen k <= 64 -> splice 0 k (fill 64 0) = k ++ fill (64 - zlen k) 0.
Proof.
  intros. unfold splice, fill, zlen in *. change (Z.to_nat 0) with 0%nat. rewrite take_0, drop_replicate. cbn [app]. f_equal. f_equal. lia.
Qed.

Lemma hmac_key_spec key :
  hmac_key key = let k := if zlen key >? 64 then sha256_spec key else key in k ++ fill (64 - zlen k) 0.
Proof.
  unfold hmac_key. rewrite Z.gtb_ltb. destruct (64 <? zlen key) eqn:E; bool_prop; cbn zeta.
  - pose proof (sha_stack_parts [key]) as H. cbn [foldl concat] in H. rewrite app_nil_r in H. rewrite H.
    apply splice_zeros. by rewrite (proj1 (sha256_shape key)).
  - by apply splice_zeros.
Qed.

Lemma hmac_correct key data : ls_hmac_sha256 key data = hmac_spec key data.
Proof.
  unfold ls_hmac_sha256, hmac_spec. rewrite hmac_key_spec. cbn zeta.
  set (k := (if zlen key >? 64 then _ else _) ++ _).
  pose proof (sha_stack_parts [map (fun b => Z.lxor b 0x36) k; data]) as H1. cbn [foldl concat] in H1. rewrite H1.
  rewrite app_nil_r.
  pose proof (fun d => sha_stack_parts [map (fun b => Z.lxor b 0x5c) k; d]) as H2. cbn [foldl concat] in H2.
  rewrite H2, app_nil_r. do 2 f_equal; [apply map_ext; intros; apply Z.lxor_comm|].
  do 2 f_equal. apply map_ext. intros. apply Z.lxor_comm.
Qed.

(** RFC 5869, section 2.3: [T(1), T(2), ...]. *)
Fixpoint hkdf_blocks (n : nat) (prk info previous : list Z) (i : Z) : list Z :=
  match n with
  | O => []
  | S n => let t := hmac_spec prk (previous ++ info ++ [i]) in t ++ hkdf_blocks n prk info t (i + 1)
  end.

Lemma hmac_shape key data : zlen (hmac_spec key data) = 32 /\ bytes_ok (hmac_spec key data).
Proof. apply sha256_shape. Qed.

Lemma hkdf_loop_spec n prk info : forall fuel previous i output total, zlen output <= total ->
  total - zlen output <= 32 * Z.of_nat n -> 1 <= i -> i + Z.of_nat n <= 256 -> (n <= fuel)%nat ->
  32 * (Z.of_nat n - 1) < total - zlen output \/ n = 0%nat ->
  hkdf_loop fuel prk info previous i output total =
    output ++ slice 0 (total - zlen output) (hkdf_blocks n prk info previous i).
Proof.
  induction n as [|n IH]; intros fuel previous i output total Ho Ht Hi Hin Hf Hmin.
  - assert (total - zlen output = 0) as -> by lia. rewrite app_nil_r.
    destruct fuel; [done|]. cbn [hkdf_loop]. case_if; bool_prop; [lia|done].
  - destruct fuel as [|fuel]; [lia|]. cbn [hkdf_loop hkdf_blocks]. cbn zeta. rewrite hmac_correct.
    set (t := hmac_spec prk _). destruct (hmac_shape prk (previous ++ info ++ [i])) as [Hz _]. fold t in Hz.
    clearbody t. assert ((zlen output <? total) = true) as -> by (apply Z.ltb_lt; lia).
    rewrite Z.gtb_ltb. destruct (32 <? total - zlen output) eqn:E; bool_prop.
    + assert (slice 0 32 t = t) as -> by (rewrite <- Hz; apply slice_full). rewrite u8_id by (unfold is_u8; lia).
      rewrite IH by (rewrite ?zlen_app; lia). rewrite zlen_app, <- app_assoc. f_equal.
      replace (total - zlen output) with (32 + (total - (zlen output + zlen t))) by lia.
      rewrite slice_split by lia. rewrite slice_app_l by lia.
      assert (slice 0 32 t = t) as -> by (rewrite <- Hz; apply slice_full). f_equal.
      rewrite slice_app_r by lia. f_equal; lia.
    + assert (n = 0%nat) as -> by lia. rewrite slice_app_l by lia.
      destruct fuel; [done|]. cbn [hkdf_loop]. rewrite zlen_app, zlen_slice by lia. case_if; bool_prop; [lia|done].
Qed.

(** HKDF of RFC 5869: extract with the salt (zeros when there is none), then the first
    bytes of the expansion; it fails only on the arguments the code rejects. *)
Lemma hkdf_correct salt ikm info n : zlen info <= LS_HKDF_MAX_INFO_SIZE -> 0 <= n <= 255 * 32 ->
  ls_hkdf_sha256 (Some salt) (zlen salt) (Some ikm) (zlen ikm) (Some info) (zlen info) SET n =
    Ok (slice 0 n (hkdf_blocks (Z.to_nat ((n + 31) / 32))
          (hmac_spec (if zlen salt =? 0 then fill 32 0 else salt) ikm) info [] 1)).
Proof.
  intros Hi Hn. unfold ls_hkdf_sha256. cbn [null_with_length orb andb negb SET buffer_of].
  rewrite !Z.gtb_ltb, (proj2 (Z.ltb_ge _ _) Hi), (proj2 (Z.ltb_ge _ _) (proj2 Hn)). cbn [orb].
  rewrite !slice_full, hmac_correct. pose proof (Z.div_mod (n + 31) 32 ltac:(lia)).
  pose proof (Z.mod_pos_bound (n + 31) 32 ltac:(lia)).
  assert (0 <= (n + 31) / 32) by (apply Z.div_pos; lia).
  rewrite (hkdf_loop_spec (Z.to_nat ((n + 31) / 32))) by (change (zlen []) with 0; lia).
  change (zlen []) with 0. rewrite Z.sub_0_r, app_nil_l. by destruct (zlen salt =? 0).
Qed.

(** ** Comparison *)

Lemma lor_u8_zero a b : Z.lor a b = 0 <-> a = 0 /\ b = 0.
Proof. apply Z.lor_eq_0_iff. Qed.

(** [ls_constant_time_equal] looks at every byte and decides equality. *)
Lemma constant_time_equal_exact (l r : list Z) : bytes_ok l -> bytes_ok r -> length l = length r ->
  ls_constant_time_equal l r = bool_decide (l = r).
Proof.
  intros Hl Hr Hlen. unfold ls_constant_time_equal.
  assert (forall d, (foldl (fun d lr => Z.lor d (u8 (Z.lxor lr.1 lr.2))) d (zip l r) = 0) <-> d = 0 /\ l = r) as H.
  { revert r Hr Hlen. induction Hl as [|a l Ha Hl IH]; intros [|b r] Hr Hlen d; try done; cbn [zip_with foldl].
    { by split; [|intros [? _]]. }
    apply Forall_cons in Hr as [Hb Hr]. rewrite IH by (done || simpl in Hlen; lia). cbn [fst snd].
    rewrite Z.lor_eq_0_iff. rewrite u8_id by (by apply (lxor_bound 8)). rewrite Z.lxor_eq_0_iff.
    split; [intros [[-> ->] ->]; done|intros [-> [= -> ->]]; done]. }
  apply eq_bool_prop_intro. rewrite bool_decide_spec. rewrite Is_true_true, Z.eqb_eq, H. tauto.
Qed.
