(* ===== verification/Aead.v ===== *)
(** * Authenticated encryption ([src/security/aead.c])

    ChaCha20-Poly1305 and XChaCha20-Poly1305. The interface [Aead] states what the
    envelope encoder and the secure storage rely on; the built-in construction is an
    instance of it. *)

From S2P Require Import Prelude Poly1305 Chacha Sha256.

(** ** The code *)

Definition poly_pad16 (context : ls_poly1305_context_t) (length_ : Z) : ls_poly1305_context_t :=
  let remainder := Z.land length_ 15 in
  if negb (remainder =? 0) then ls_poly1305_update context (fill (16 - remainder) 0) else context.

(** [#if SIZE_MAX > UINT32_MAX]: the test exists only where [size_t] is wider. *)
Definition chacha20_length_overflows (length_ : Z) : bool :=
  if SIZE_MAX >? UINT32_MAX then length_ >? 0xffffffff * 64 else false.

Definition calculate_tag (key nonce aad ciphertext : list Z) : list Z :=
  let first_block := ls_chacha20_xor key nonce 0 None 64 in
  let poly := ls_poly1305_init (fill 16 0) (slice 0 32 first_block) in
  let poly := if negb (zlen aad =? 0) then ls_poly1305_update poly aad else poly in
  let poly := poly_pad16 poly (zlen aad) in
  let poly := if negb (zlen ciphertext =? 0) then ls_poly1305_update poly ciphertext else poly in
  let poly := poly_pad16 poly (zlen ciphertext) in
  let lengths := le 8 (zlen aad) ++ le 8 (zlen ciphertext) in
  ls_poly1305_finish (ls_poly1305_update poly lengths).

(** The result is the ciphertext and the tag. *)
Definition ls_chacha20_poly1305_encrypt (key nonce : option (list Z)) (aad : option (list Z)) (aad_length : Z)
    (plaintext : option (list Z)) (ciphertext : ptr) (length_ : Z) (tag : ptr) : res (list Z * list Z) :=
  match key, nonce with
  | Some key, Some nonce =>
      if negb tag || null_with_length aad aad_length || null_with_length plaintext length_ ||
         (negb ciphertext && negb (length_ =? 0)) then Err LS_EINVAL
      else if chacha20_length_overflows length_ then Err LS_EOVERFLOW
      else
        let ct := if negb (length_ =? 0) then ls_chacha20_xor key nonce 1 plaintext length_ else [] in
        Ok (ct, calculate_tag key nonce (buffer_of aad aad_length) ct)
  | _, _ => Err LS_EINVAL
  end.

(** The result is what is stored through [plaintext]: nothing when that is null. *)
Definition ls_chacha20_poly1305_decrypt (key nonce : option (list Z)) (aad : option (list Z)) (aad_length : Z)
    (ciphertext : option (list Z)) (plaintext : ptr) (length_ : Z) (tag : option (list Z)) : res (list Z) :=
  match key, nonce, tag with
  | Some key, Some nonce, Some tag =>
      if null_with_length aad aad_length || null_with_length ciphertext length_ then Err LS_EINVAL
      else if chacha20_length_overflows length_ then Err LS_EOVERFLOW
      else
        let expected := calculate_tag key nonce (buffer_of aad aad_length) (buffer_of ciphertext length_) in
        let valid := ls_constant_time_equal expected (slice 0 16 tag) in
        if negb valid then Err LS_EAUTH
        else Ok (if plaintext && negb (length_ =? 0) then ls_chacha20_xor key nonce 1 ciphertext length_ else [])
  | _, _, _ => Err LS_EINVAL
  end.

Definition xchacha_material (key nonce : list Z) : list Z * list Z :=
  (ls_hchacha20 key nonce, fill 4 0 ++ slice 16 8 nonce).

Definition ls_xchacha20_poly1305_encrypt (key nonce : option (list Z)) (aad : option (list Z)) (aad_length : Z)
    (plaintext : option (list Z)) (ciphertext : ptr) (length_ : Z) (tag : ptr) : res (list Z * list Z) :=
  match key, nonce with
  | Some key, Some nonce =>
      let '(subkey, subnonce) := xchacha_material key nonce in
      ls_chacha20_poly1305_encrypt (Some subkey) (Some subnonce) aad aad_length plaintext ciphertext length_ tag
  | _, _ => Err LS_EINVAL
  end.

Definition ls_xchacha20_poly1305_decrypt (key nonce : option (list Z)) (aad : option (list Z)) (aad_length : Z)
    (ciphertext : option (list Z)) (plaintext : ptr) (length_ : Z) (tag : option (list Z)) : res (list Z) :=
  match key, nonce with
  | Some key, Some nonce =>
      let '(subkey, subnonce) := xchacha_material key nonce in
      ls_chacha20_poly1305_decrypt (Some subkey) (Some subnonce) aad aad_length ciphertext plaintext length_ tag
  | _, _ => Err LS_EINVAL
  end.

(** The vectors of the provider's known-answer test ([provider.c]). *)
Example xchacha20_known_answer :
  ls_xchacha20_poly1305_encrypt (Some (map Z.of_nat (List.seq 0 32))) (Some (map Z.of_nat (List.seq 0 24)))
    (Some (str "Latch provider KAT")) 18 (Some (str "commercial-auv")) SET 14 SET =
  Ok ([0xfd;0xad;0x62;0x12;0xf5;0xa0;0xee;0xc7;0x52;0x28;0x0b;0xaf;0xbe;0x24],
      [0x1a;0x9c;0x63;0xdf;0xbc;0xbe;0xea;0x1e;0x45;0x8a;0x47;0x90;0xd7;0xb5;0x9d;0xf1]).
Proof. vm_compute. done. Qed.

(** ** The tag *)

(** RFC 8439, section 2.8: the one-time key and the authenticated data. *)
Definition one_time_key (key nonce : list Z) : list Z := slice 0 32 (block key nonce 0).

Definition pad16 (l : list Z) : list Z := fill ((- zlen l) mod 16) 0.

Definition mac_data (aad ciphertext : list Z) : list Z :=
  aad ++ pad16 aad ++ ciphertext ++ pad16 ciphertext ++ le 8 (zlen aad) ++ le 8 (zlen ciphertext).

Definition aead_tag (key nonce aad ciphertext : list Z) : list Z :=
  poly1305_spec (one_time_key key nonce) (mac_data aad ciphertext).

#[local] Opaque block.

Lemma first_block_stream key nonce : ls_chacha20_xor key nonce 0 None 64 = slice 0 64 (block key nonce 0).
Proof.
  unfold ls_chacha20_xor. apply (xor_loop_zeros (block key nonce) (block_shape key nonce)); [lia|done|].
  unfold fill. by rewrite length_replicate.
Qed.

Lemma one_time_key_shape key nonce : zlen (one_time_key key nonce) = 32 /\ bytes_ok (one_time_key key nonce).
Proof.
  destruct (block_shape key nonce 0) as [Hl Hb]. unfold one_time_key. split; [apply zlen_slice; lia|by apply bytes_ok_slice].
Qed.

Lemma pad16_absorbed key message c l : bytes_ok key -> zlen key = 32 -> absorbed key (message ++ l) c ->
  absorbed key (message ++ l ++ pad16 l) (poly_pad16 c (zlen l)).
Proof.
  intros Hk Hks Hc. unfold poly_pad16, pad16. change 15 with (Z.ones 4). rewrite Z.land_ones by done.
  change (2 ^ 4) with 16. pose proof (Z.mod_pos_bound (zlen l) 16 ltac:(lia)).
  destruct (zlen l mod 16 =? 0) eqn:E; cbn [negb]; bool_prop.
  - rewrite Z.mod_opp_l_z by (done || lia). by rewrite app_nil_r.
  - rewrite Z.mod_opp_l_nz by (done || lia). rewrite app_assoc. apply update_absorbed; [done..|]. by apply bytes_ok_fill.
Qed.

(** Absorbing a part that may be empty. *)
Lemma part_absorbed key message c l : bytes_ok key -> zlen key = 32 -> absorbed key message c -> bytes_ok l ->
  absorbed key (message ++ l) (if negb (zlen l =? 0) then ls_poly1305_update c l else c).
Proof.
  intros. case_if; bool_prop; [by apply update_absorbed|]. rewrite (nil_of_zlen l) by done. by rewrite app_nil_r.
Qed.

Lemma calculate_tag_spec key nonce aad ciphertext : bytes_ok aad -> bytes_ok ciphertext ->
  calculate_tag key nonce aad ciphertext = aead_tag key nonce aad ciphertext.
Proof.
  intros Ha Hc. destruct (one_time_key_shape key nonce) as [Hks Hk]. unfold calculate_tag, aead_tag.
  rewrite first_block_stream, slice_slice by lia. change (slice (0 + 0) 32 (block key nonce 0)) with (one_time_key key nonce). generalize dependent (one_time_key key nonce).
  intros k Hks Hk.
  apply (finish_absorbed k Hk Hks). unfold mac_data.
  rewrite (app_assoc aad), (app_assoc (aad ++ _)), (app_assoc ((aad ++ _) ++ _)).
  apply update_absorbed; [done|done| |apply bytes_ok_app; split; apply bytes_ok_le].
  rewrite <- (app_assoc (aad ++ _)). apply pad16_absorbed; [done..|].
  apply part_absorbed; [done..| |done]. rewrite <- (app_nil_l (aad ++ _)). apply pad16_absorbed; [done..|].
  apply part_absorbed; [done..| |done]. apply init_absorbed; [done..|by apply bytes_ok_fill].
Qed.

Lemma aead_tag_shape key nonce aad ct : zlen (aead_tag key nonce aad ct) = 16 /\ bytes_ok (aead_tag key nonce aad ct).
Proof. unfold aead_tag, poly1305_spec. split; [apply zlen_le|apply bytes_ok_le]. Qed.

#[local] Opaque ls_chacha20_xor.

(** What encryption returns: the ciphertext and the tag of RFC 8439. *)
Lemma encrypt_spec key nonce aad plaintext : bytes_ok aad -> bytes_ok plaintext ->
  ls_chacha20_poly1305_encrypt (Some key) (Some nonce) (Some aad) (zlen aad) (Some plaintext) SET (zlen plaintext) SET =
    let ct := ls_chacha20_xor key nonce 1 (Some plaintext) (zlen plaintext) in
    Ok (ct, aead_tag key nonce aad ct).
Proof.
  intros Ha Hp. unfold ls_chacha20_poly1305_encrypt.
  change (chacha20_length_overflows (zlen plaintext)) with false. cbn [negb orb andb null_with_length SET buffer_of].
  rewrite slice_full.
  assert ((if negb (zlen plaintext =? 0) then ls_chacha20_xor key nonce 1 (Some plaintext) (zlen plaintext) else [])
    = ls_chacha20_xor key nonce 1 (Some plaintext) (zlen plaintext)) as ->.
  { case_if; bool_prop; [done|]. symmetry. apply nil_of_zlen. rewrite chacha20_xor_zlen; done. }
  rewrite calculate_tag_spec; [done..|]. by apply chacha20_xor_bytes.
Qed.

(** Decryption accepts exactly the tag of the definition, and otherwise writes
    nothing. *)
Lemma decrypt_spec key nonce aad ct tag out : bytes_ok aad -> bytes_ok ct -> bytes_ok tag -> zlen tag = 16 ->
  ls_chacha20_poly1305_decrypt (Some key) (Some nonce) (Some aad) (zlen aad) (Some ct) out (zlen ct) (Some tag) =
    if bool_decide (tag = aead_tag key nonce aad ct)
    then Ok (if out then ls_chacha20_xor key nonce 1 (Some ct) (zlen ct) else [])
    else Err LS_EAUTH.
Proof.
  intros Ha Hc Ht Hl. unfold ls_chacha20_poly1305_decrypt.
  change (chacha20_length_overflows (zlen ct)) with false. cbn [negb orb andb null_with_length buffer_of].
  rewrite !slice_full, calculate_tag_spec by done.
  assert (slice 0 16 tag = tag) as -> by (rewrite <- Hl; apply slice_full).
  destruct (aead_tag_shape key nonce aad ct) as [Htl Htb].
  rewrite constant_time_equal_exact; [|done..|unfold zlen in *; lia].
  assert (bool_decide (aead_tag key nonce aad ct = tag) = bool_decide (tag = aead_tag key nonce aad ct)) as ->
    by (by apply bool_decide_ext).
  case_bool_decide; [|done]. cbn [negb]. destruct out; [|done]. cbn [andb]. case_if; bool_prop; [done|].
  do 2 f_equal. symmetry. apply nil_of_zlen. rewrite chacha20_xor_zlen; done.
Qed.

(** ** The interface

    What the users of an AEAD rely on: [seal] and [open] of a key, a nonce, associated
    data and a text. *)
Class Aead (encrypt : list Z -> list Z -> list Z -> list Z -> res (list Z * list Z))
           (decrypt : list Z -> list Z -> list Z -> list Z -> ptr -> list Z -> res (list Z)) : Prop := {
  aead_shape key nonce aad pt ct tag : bytes_ok aad -> bytes_ok pt -> encrypt key nonce aad pt = Ok (ct, tag) ->
    zlen ct = zlen pt /\ bytes_ok ct /\ zlen tag = 16 /\ bytes_ok tag;
  aead_opens key nonce aad pt ct tag : bytes_ok aad -> bytes_ok pt -> encrypt key nonce aad pt = Ok (ct, tag) ->
    decrypt key nonce aad ct SET tag = Ok pt
}.

(** The built-in construction, on the arguments of the callers: nothing is null. *)
Definition seal (key nonce aad plaintext : list Z) : res (list Z * list Z) :=
  ls_xchacha20_poly1305_encrypt (Some key) (Some nonce) (Some aad) (zlen aad) (Some plaintext) SET (zlen plaintext) SET.
Definition open (key nonce aad ct : list Z) (out : ptr) (tag : list Z) : res (list Z) :=
  ls_xchacha20_poly1305_decrypt (Some key) (Some nonce) (Some aad) (zlen aad) (Some ct) out (zlen ct) (Some tag).

(** The tag under the derived key. *)
Definition xchacha_tag (key nonce aad ct : list Z) : list Z :=
  aead_tag (ls_hchacha20 key nonce) (fill 4 0 ++ slice 16 8 nonce) aad ct.
Definition xchacha_stream (key nonce text : list Z) : list Z :=
  ls_chacha20_xor (ls_hchacha20 key nonce) (fill 4 0 ++ slice 16 8 nonce) 1 (Some text) (zlen text).

Lemma seal_spec key nonce aad pt : bytes_ok aad -> bytes_ok pt ->
  seal key nonce aad pt = Ok (xchacha_stream key nonce pt, xchacha_tag key nonce aad (xchacha_stream key nonce pt)).
Proof. intros. unfold seal, ls_xchacha20_poly1305_encrypt, xchacha_material. by apply encrypt_spec. Qed.

Lemma seal_no_ok key nonce aad pt : seal key nonce aad pt <> Err LS_OK.
Proof.
  unfold seal, ls_xchacha20_poly1305_encrypt, ls_chacha20_poly1305_encrypt. cbv zeta. repeat (case_match; try discriminate).
Qed.

Lemma open_spec key nonce aad ct tag out : bytes_ok aad -> bytes_ok ct -> bytes_ok tag -> zlen tag = 16 ->
  open key nonce aad ct out tag =
    if bool_decide (tag = xchacha_tag key nonce aad ct)
    then Ok (if out then xchacha_stream key nonce ct else []) else Err LS_EAUTH.
Proof. intros. unfold open, ls_xchacha20_poly1305_decrypt, xchacha_material. by apply decrypt_spec. Qed.

Lemma stream_zlen key nonce text : zlen (xchacha_stream key nonce text) = zlen text.
Proof. by apply chacha20_xor_zlen. Qed.

Lemma stream_bytes key nonce text : bytes_ok text -> bytes_ok (xchacha_stream key nonce text).
Proof. by apply chacha20_xor_bytes. Qed.

Lemma stream_involutive key nonce text : xchacha_stream key nonce (xchacha_stream key nonce text) = text.
Proof. by apply chacha20_xor_involutive. Qed.

Lemma xchacha_tag_shape key nonce aad ct :
  zlen (xchacha_tag key nonce aad ct) = 16 /\ bytes_ok (xchacha_tag key nonce aad ct).
Proof. apply aead_tag_shape. Qed.

#[export] Instance xchacha_aead : Aead seal open.
Proof.
  split; intros key nonce aad pt ct tag Ha Hp; rewrite seal_spec by done; intros [= <- <-].
  - rewrite stream_zlen. destruct (xchacha_tag_shape key nonce aad (xchacha_stream key nonce pt)).
    repeat split; try done. by apply stream_bytes.
  - destruct (xchacha_tag_shape key nonce aad (xchacha_stream key nonce pt)).
    rewrite open_spec by (done || by apply stream_bytes). rewrite bool_decide_true by done.
    by rewrite stream_involutive.
Qed.

(** C5: XChaCha20-Poly1305 opens what it seals, and opens nothing else: for any text,
    associated data and tag, decryption succeeds exactly when the tag is the Poly1305 of
    the associated data and the text under the one-time key, padded and followed by
    their lengths; a sealed text decrypts to the plaintext, and on any other tag the
    answer is [LS_EAUTH] and no byte of plaintext is released. *)
Theorem aead_exact key nonce aad text tag out :
  bytes_ok aad -> bytes_ok text -> bytes_ok tag -> zlen tag = 16 ->
  (exists ct t, seal key nonce aad text = Ok (ct, t) /\ zlen ct = zlen text /\
     open key nonce aad ct SET t = Ok text) /\
  (code (open key nonce aad text out tag) = LS_OK <-> tag = xchacha_tag key nonce aad text) /\
  (tag <> xchacha_tag key nonce aad text -> open key nonce aad text out tag = Err LS_EAUTH).
Proof.
  intros Ha Ht Hg Hl. split.
  - pose proof (seal_spec key nonce aad text Ha Ht) as Hs. do 2 eexists. split; [exact Hs|].
    split; [apply stream_zlen|]. by eapply aead_opens.
  - rewrite open_spec by done. case_bool_decide as E; split; try done.
Qed.

Lemma aead_exact_witness :
  let key := fill 32 7 in let nonce := fill 24 9 in
  exists ct t, seal key nonce (str "header") (str "attack at dawn") = Ok (ct, t) /\ zlen ct = 14 /\
    open key nonce (str "header") ct SET t = Ok (str "attack at dawn").
Proof.
  destruct (aead_exact (fill 32 7) (fill 24 9) (str "header") (str "attack at dawn") (fill 16 0) SET)
    as ((ct & t & H) & _).
  1-4: vm_compute; repeat constructor; discriminate.
  exists ct, t. exact H.
Defined.
