(* ===== verification/Util.v ===== *)
(** * Portable utilities ([src/core/util.c])

    The CRC-32 that protects every stored or transmitted structure, the FNV-1a
    string hash, bounded string copies, byte comparison and the bounds-checked
    writer through which every envelope byte goes. *)

From S2P Require Import Prelude.

(** ** CRC-32 *)

(** One iteration of the bit loop:
    [crc = (crc >> 1) ^ (0xedb88320u & (uint32_t)(-(int32_t)(crc & 1u)))]. *)
Definition crc_shift (crc : Z) : Z :=
  Z.lxor (Z.shiftr crc 1) (Z.land 0xedb88320 (u32 (- Z.land crc 1))).

(** [crc ^= *p++] followed by the eight iterations of the bit loop. *)
Definition crc_byte (crc b : Z) : Z := Nat.iter 8 crc_shift (Z.lxor crc b).

(** The [while (length--)] loop. *)
Definition crc_update (crc : Z) (data : list Z) : Z := foldl crc_byte crc data.

(** [uint32_t ls_crc32(const void *data, size_t length)]. *)
Definition ls_crc32 (data : list Z) : Z := u32 (Z.lnot (crc_update 0xffffffff data)).
#[global] Arguments ls_crc32 : simpl never.
#[global] Arguments crc_update : simpl never.

(** ** Strings

    A C string is the list of its bytes before the terminating NUL; a [char *]
    that may be [NULL] is an [option]. *)

(** The FNV-1a loop. *)
Definition fnv_byte (hash b : Z) : Z := u32 (Z.lxor hash b * 16777619).

Definition ls_hash_string (text : option (list Z)) : Z :=
  match text with
  | None => 0
  | Some t => foldl fnv_byte 2166136261 t
  end.

Definition ls_string_length (text : option (list Z)) : Z :=
  match text with None => 0 | Some t => zlen t end.

(** The bytes [ls_copy_string(dst, size, src)] stores at [dst]; [None] when it
    returns without storing. *)
Definition ls_copy_string (dst : ptr) (size : Z) (src : option (list Z)) : option (list Z) :=
  if negb dst || (size =? 0) then None
  else match src with
       | None => Some [0]
       | Some t => Some (take (Z.to_nat (size - 1)) t ++ [0])
       end.

(** [ls_memcmp]: the sign of the first difference of two buffers of one length. *)
Fixpoint ls_memcmp (a b : list Z) : Z :=
  match a, b with
  | x :: a, y :: b => if x =? y then ls_memcmp a b else if x <? y then -1 else 1
  | _, _ => 0
  end.

(** ** The bounds-checked writer

    [w_data] holds the bytes written so far: [writer->length] is its length and
    the rest of the buffer is not read. *)
Record ls_writer_t := mk_writer { w_capacity : Z; w_data : list Z }.

Definition w_length (w : ls_writer_t) : Z := zlen (w_data w).

(** [ls_writer_write]; the buffer argument is [None] for a null pointer, whose
    [size] is then given by the caller. *)
Definition ls_writer_write_n (size : Z) (data : option (list Z)) : st ls_writer_t ls_result_t :=
  fun w =>
    if (match data with None => negb (size =? 0) | Some _ => false end)
       || (w_capacity w <? w_length w) || (w_capacity w - w_length w <? size)
    then (LS_ENOSPACE, w)
    else (LS_OK, mk_writer (w_capacity w) (w_data w ++ default [] data)).

Definition ls_writer_write (data : list Z) : st ls_writer_t ls_result_t :=
  ls_writer_write_n (zlen data) (Some data).

Definition ls_writer_u8 (value : Z) : st ls_writer_t ls_result_t := ls_writer_write [u8 value].
Definition ls_writer_u16 (value : Z) : st ls_writer_t ls_result_t := ls_writer_write (le 2 value).
Definition ls_writer_u32 (value : Z) : st ls_writer_t ls_result_t := ls_writer_write (le 4 value).
Definition ls_writer_u64 (value : Z) : st ls_writer_t ls_result_t := ls_writer_write (le 8 value).

(** A TLV: type, length, value; nothing is written unless all of it fits. *)
Definition ls_writer_tlv (type : Z) (value : list Z) (length : Z) : st ls_writer_t ls_result_t :=
  fun w =>
    if (w_capacity w <? w_length w) || (w_capacity w - w_length w <? length + 4)
    then (LS_ENOSPACE, w)
    else (ls_writer_u16 type ;;? ls_writer_u16 length ;;?
          ls_writer_write_n length (Some (take (Z.to_nat length) value))) w.

(** ** The CRC as a linear map *)

(** The bit loop without the arithmetic mask. *)
Lemma crc_shift_alt c :
  crc_shift c = Z.lxor (Z.shiftr c 1) (if Z.odd c then 0xedb88320 else 0).
Proof.
  unfold crc_shift. f_equal. change 1 with (Z.ones 1). rewrite Z.land_ones by lia.
  change (2 ^ 1) with 2. rewrite Zmod_odd. by destruct (Z.odd c).
Qed.

Lemma odd_lxor a b : Z.odd (Z.lxor a b) = xorb (Z.odd a) (Z.odd b).
Proof. rewrite <- !Z.bit0_odd. apply Z.lxor_spec. Qed.

Lemma crc_shift_lxor a b : crc_shift (Z.lxor a b) = Z.lxor (crc_shift a) (crc_shift b).
Proof.
  rewrite !crc_shift_alt, Z.shiftr_lxor, odd_lxor.
  apply Z.bits_inj'. intros i _. rewrite !Z.lxor_spec.
  destruct (Z.odd a), (Z.odd b); simpl xorb; cbv iota; rewrite ?Z.bits_0;
    destruct (Z.testbit (Z.shiftr a 1) i), (Z.testbit (Z.shiftr b 1) i);
    try destruct (Z.testbit 3988292384 i); done.
Qed.

Lemma crc_shift_range c : is_u32 c -> is_u32 (crc_shift c).
Proof.
  intros Hc. rewrite crc_shift_alt. apply lxor_bound; [lia| |by destruct (Z.odd c)].
  rewrite Z.shiftr_div_pow2 by lia. unfold is_u32 in Hc. change (2 ^ 1) with 2.
  pose proof (Z.div_pos c 2). pose proof (Z.div_le_upper_bound c 2 c). lia.
Qed.

(** The bit loop has a trivial kernel: the generator polynomial has bit 31 set. *)
Lemma crc_shift_kernel c : is_u32 c -> crc_shift c = 0 -> c = 0.
Proof.
  intros Hc. rewrite crc_shift_alt, Z.lxor_eq_0_iff. unfold is_u32 in Hc.
  rewrite Z.shiftr_div_pow2 by lia. change (2 ^ 1) with 2.
  pose proof (Z.div_lt_upper_bound c 2 (2 ^ 31) ltac:(lia) ltac:(lia)).
  destruct (Z.odd c) eqn:E; intros H0; [lia|].
  pose proof (Z.div_mod c 2). rewrite Zmod_odd, E in *. lia.
Qed.

Lemma crc_iter_lxor n a b :
  Nat.iter n crc_shift (Z.lxor a b) = Z.lxor (Nat.iter n crc_shift a) (Nat.iter n crc_shift b).
Proof. induction n; simpl; [done|]. by rewrite IHn, crc_shift_lxor. Qed.

Lemma crc_iter_range n c : is_u32 c -> is_u32 (Nat.iter n crc_shift c).
Proof. intros. induction n; simpl; [done|]. by apply crc_shift_range. Qed.

Lemma crc_iter_inj n a b :
  is_u32 a -> is_u32 b -> Nat.iter n crc_shift a = Nat.iter n crc_shift b -> a = b.
Proof.
  intros Ha Hb H. apply Z.lxor_eq_0_iff in H. rewrite <- crc_iter_lxor in H.
  apply Z.lxor_eq_0_iff. induction n as [|n IH]; [done|].
  apply IH, crc_shift_kernel; [|exact H].
  apply crc_iter_range, lxor_bound; [lia|done..].
Qed.

(** Eight iterations move a shifted word down by a byte. *)
Lemma crc_iter8_shiftl x : Nat.iter 8 crc_shift (Z.shiftl x 8) = x.
Proof.
  assert (forall k y, 0 < k -> crc_shift (Z.shiftl y k) = Z.shiftl y (k - 1)) as Hs.
  { intros k y Hk. rewrite crc_shift_alt.
    replace (Z.odd (Z.shiftl y k)) with false.
    - rewrite Z.lxor_0_r, Z.shiftr_shiftl_l by lia. done.
    - rewrite <- Z.bit0_odd, Z.shiftl_spec_low by lia. done. }
  simpl. rewrite !Hs by lia. apply Z.shiftl_0_r.
Qed.

Lemma lxor_u32_u8 c b : is_u32 c -> is_u8 b -> is_u32 (Z.lxor c b).
Proof. intros. apply lxor_bound; unfold is_u32, is_u8 in *; lia. Qed.

Lemma crc_byte_eq c b : crc_byte c b = Nat.iter 8 crc_shift (Z.lxor c b).
Proof. reflexivity. Qed.

Lemma crc_byte_range c b : is_u32 c -> is_u8 b -> is_u32 (crc_byte c b).
Proof. intros. rewrite crc_byte_eq. by apply crc_iter_range, lxor_u32_u8. Qed.

Lemma crc_update_range c l : is_u32 c -> bytes_ok l -> is_u32 (crc_update c l).
Proof.
  intros Hc Hl. revert c Hc. induction Hl as [|b l Hb Hl IH]; intros c Hc; [done|].
  simpl. by apply IH, crc_byte_range.
Qed.

Lemma crc_update_app c l k : crc_update c (l ++ k) = crc_update (crc_update c l) k.
Proof. apply foldl_app. Qed.

(** A word xored into the register after a byte is the shifted word xored before it. *)
Lemma crc_byte_lxor c b x :
  Z.lxor (crc_byte c b) x = Nat.iter 8 crc_shift (Z.lxor (Z.lxor c b) (Z.shiftl x 8)).
Proof. by rewrite crc_iter_lxor, crc_iter8_shiftl, crc_byte_eq. Qed.

Lemma le_get_lxor b l : is_u8 b -> le_get (b :: l) = Z.lxor b (Z.shiftl (le_get l) 8).
Proof.
  intros Hb. simpl. apply Z.bits_inj'. intros i Hi.
  rewrite Z.lxor_spec, Z.lor_spec. destruct (Z.lt_ge_cases i 8).
  - rewrite Z.shiftl_spec_low by done. by destruct (Z.testbit b i).
  - by rewrite (testbit_above 8 b) by (unfold is_u8 in *; lia).
Qed.

(** Up to four bytes enter the register as one word. *)
Lemma crc_update_word c l :
  bytes_ok l -> crc_update c l = Nat.iter (8 * length l) crc_shift (Z.lxor c (le_get l)).
Proof.
  intros Hl. revert c. induction Hl as [|b l Hb Hl IH]; intros c.
  - simpl. by rewrite Z.lxor_0_r.
  - replace (8 * length (b :: l))%nat with (8 * length l + 8)%nat by (simpl; lia).
    rewrite Nat.iter_add, le_get_lxor, <- Z.lxor_assoc, <- crc_byte_lxor by done.
    apply IH.
Qed.

Lemma crc_byte_inj c c' b :
  is_u32 c -> is_u32 c' -> is_u8 b -> crc_byte c b = crc_byte c' b -> c = c'.
Proof.
  intros Hc Hc' Hb H. rewrite !crc_byte_eq in H.
  assert (Z.lxor c b = Z.lxor c' b) as Hx.
  { apply (crc_iter_inj 8); [by apply lxor_u32_u8..|exact H]. }
  apply (f_equal (fun x => Z.lxor x b)) in Hx.
  by rewrite !Z.lxor_assoc, Z.lxor_nilpotent, !Z.lxor_0_r in Hx.
Qed.

Lemma crc_update_inj c c' l :
  is_u32 c -> is_u32 c' -> bytes_ok l -> crc_update c l = crc_update c' l -> c = c'.
Proof.
  intros Hc Hc' Hl. revert c c' Hc Hc'.
  induction Hl as [|b l Hb Hl IH]; intros c c' Hc Hc' H; [done|].
  apply (crc_byte_inj c c' b); [done..|].
  apply IH; [by apply crc_byte_range..|exact H].
Qed.

Lemma ls_crc32_range l : is_u32 (ls_crc32 l).
Proof. apply u32_range. Qed.

Lemma lnot_u32_inj a b : is_u32 a -> is_u32 b -> u32 (Z.lnot a) = u32 (Z.lnot b) -> a = b.
Proof.
  intros Ha Hb. unfold u32, is_u32, Z.lnot in *.
  rewrite <- (Z_mod_plus_full (Z.pred (- a)) 1), <- (Z_mod_plus_full (Z.pred (- b)) 1).
  rewrite !Z.mod_small by lia. lia.
Qed.

(** Two messages of one length differ in their checksums by what the difference of their
    bits, run through the register from zero, leaves. *)
Lemma crc_update_difference c x y : bytes_ok x -> bytes_ok y -> length x = length y ->
  Z.lxor (crc_update c x) (crc_update c y) = Nat.iter (8 * length x) crc_shift (Z.lxor (le_get x) (le_get y)).
Proof.
  intros Hx Hy Hl. rewrite !crc_update_word, <- Hl, <- crc_iter_lxor by done. f_equal.
  rewrite (Z.lxor_comm c), Z.lxor_assoc, <- (Z.lxor_assoc c c), Z.lxor_nilpotent. by rewrite Z.lxor_0_l.
Qed.

(** Zeros at the low end are shifted out. *)
Lemma crc_iter_shiftl k d : Nat.iter k crc_shift (Z.shiftl d (Z.of_nat k)) = d.
Proof.
  revert d. induction k as [|k IH]; intros d; [apply Z.shiftl_0_r|].
  replace (Z.shiftl d (Z.of_nat (S k))) with (Z.shiftl (Z.shiftl d 1) (Z.of_nat k)) by (rewrite Z.shiftl_shiftl by lia; f_equal; lia).
  rewrite Nat.iter_succ, IH, crc_shift_alt. rewrite <- Z.bit0_odd, Z.shiftl_spec_low by lia.
  rewrite Z.lxor_0_r, Z.shiftr_shiftl_l by lia. apply Z.shiftl_0_r.
Qed.

(** C1: the checksum that protects every envelope, spool record, flash header and retained
    snapshot detects every burst of at most 32 bits. A message is the string of its bits,
    [le_get], in the order in which the checksum takes them; two messages that differ
    only within 32 consecutive bits, aligned to bytes or not and wherever they lie, never
    have the same checksum. *)
Theorem crc32_detects_burst (x y : list Z) (start burst : Z) : bytes_ok x -> bytes_ok y -> length x = length y ->
  0 <= start -> 0 < burst < 2 ^ 32 -> Z.lxor (le_get x) (le_get y) = Z.shiftl burst start -> ls_crc32 x <> ls_crc32 y.
Proof.
  intros Hx Hy Hl Hk Hd Hxy Heq. unfold ls_crc32 in Heq. apply lnot_u32_inj in Heq; [|by apply crc_update_range..].
  apply Z.lxor_eq_0_iff in Heq. rewrite crc_update_difference, Hxy in Heq by done.
  assert (start <= Z.of_nat (8 * length x)) as Hn.
  { destruct (Z.le_gt_cases start (Z.of_nat (8 * length x))) as [|Hgt]; [done|exfalso].
    assert (forall l, length l = length x -> bytes_ok l -> 0 <= le_get l < 2 ^ (8 * zlen x)) as Hr
      by (intros l El Hb; pose proof (le_get_range l Hb); unfold zlen in *; by rewrite El in *).
    pose proof (lxor_bound (8 * zlen x) (le_get x) (le_get y) ltac:(unfold zlen; lia) (Hr x eq_refl Hx) (Hr y ltac:(done) Hy)) as Hb.
    rewrite Hxy, Z.shiftl_mul_pow2 in Hb by lia.
    assert (2 ^ (8 * zlen x) <= 2 ^ start) by (apply Z.pow_le_mono_r; unfold zlen; lia). nia. }
  replace (8 * length x)%nat with (8 * length x - Z.to_nat start + Z.to_nat start)%nat in Heq by lia.
  rewrite Nat.iter_add in Heq.
  replace (Z.shiftl burst start) with (Z.shiftl burst (Z.of_nat (Z.to_nat start))) in Heq by (by rewrite Z2Nat.id).
  rewrite crc_iter_shiftl in Heq.
  assert (burst = 0); [|lia]. apply (crc_iter_inj (8 * length x - Z.to_nat start)); [unfold is_u32; lia|done|]. rewrite Heq.
  clear. induction (8 * length x - Z.to_nat start)%nat as [|n IH]; [done|]. rewrite Nat.iter_succ, <- IH. reflexivity.
Qed.

(** A burst of 32 bits over five bytes. *)
Lemma crc32_detects_burst_witness : ls_crc32 [1; 2; 0x10; 0; 0; 0; 0x08; 7] <> ls_crc32 [1; 2; 0; 0; 0; 0; 0; 7].
Proof.
  assert (bytes_ok [1; 2; 0x10; 0; 0; 0; 0x08; 7]) as Hx by (repeat constructor; unfold is_u8; lia).
  assert (bytes_ok [1; 2; 0; 0; 0; 0; 0; 7]) as Hy by (repeat constructor; unfold is_u8; lia).
  assert (0 < 0x80000001 < 2 ^ 32) as Hd by lia. assert (0 <= 20) as Hk by lia.
  exact (crc32_detects_burst _ _ 20 0x80000001 Hx Hy eq_refl Hk Hd ltac:(vm_compute; reflexivity)).
Defined.

(** The catalogue check value of CRC-32/ISO-HDLC, [crc32("123456789")]. *)
Example crc32_check_value : ls_crc32 [49; 50; 51; 52; 53; 54; 55; 56; 57] = 0xcbf43926.
Proof. vm_compute. reflexivity. Qed.

Lemma crc32_range l : is_u32 (ls_crc32 l).
Proof. apply u32_range. Qed.
#[export] Hint Resolve crc32_range : latch.

Lemma ls_crc32_eq l : ls_crc32 l = u32 (Z.lnot (crc_update 0xffffffff l)).
Proof. reflexivity. Qed.

(** Checksums are computed only on demand. *)
#[global] Opaque ls_crc32.
