(* ===== verification/Compression.v ===== *)
(** * Compression codecs ([src/envelope/compression.c])

    Variable-length integers, run-length coding and delta coding of samples,
    each with its decoder.  Encoders take the capacity of the output buffer; a
    successful call yields the bytes written, whose number is [*written]. *)

From S2P Require Import Prelude.

(** ** Variable-length integers *)

(** The [do ... while (value)] loop.  A 32-bit value takes at most five
    iterations, the fuel of [ls_varint_u32_encode]. *)
Fixpoint varint_loop (fuel : nat) (value capacity : Z) (out : list Z) : res (list Z) :=
  match fuel with
  | O => Err LS_EOVERFLOW
  | S fuel =>
      if capacity <=? zlen out then Err LS_ENOSPACE
      else
        let byte := u8 (Z.land value 0x7f) in
        let value := Z.shiftr value 7 in
        let byte := if negb (value =? 0) then Z.lor byte 0x80 else byte in
        let out := out ++ [byte] in
        if negb (value =? 0) then varint_loop fuel value capacity out else Ok out
  end.

Definition ls_varint_u32_encode (value : Z) (output : ptr) (capacity : Z) (written : ptr)
  : res (list Z) :=
  if negb output || negb written then Err LS_EINVAL else varint_loop 5 value capacity [].

(** The loop [for (i = 0; i < length && i < 5; i++)]; yields the value and the
    number of bytes consumed. *)
Fixpoint varint_dec (fuel : nat) (i : Z) (input : list Z) (result : Z) : res (Z * Z) :=
  match fuel, input with
  | S fuel, byte :: input =>
      if (i =? 4) && negb (Z.land byte 0xf0 =? 0) then Err LS_EOVERFLOW
      else
        let result := Z.lor result (u32 (Z.shiftl (Z.land byte 0x7f) (i * 7))) in
        if Z.land byte 0x80 =? 0 then Ok (result, i + 1)
        else varint_dec fuel (i + 1) input result
  | _, _ => Err LS_EAGAIN
  end.

Definition ls_varint_u32_decode (input : option (list Z)) (value consumed : ptr) : res (Z * Z) :=
  match input with
  | None => Err LS_EINVAL
  | Some input =>
      if negb value || negb consumed then Err LS_EINVAL else varint_dec 5 0 input 0
  end.

(** ** Run-length coding *)

(** How many of the next bytes continue a run of [x], at most [max]. *)
Fixpoint run_tail (x : Z) (l : list Z) (max : nat) : nat :=
  match max, l with
  | S max, y :: l => if y =? x then S (run_tail x l max) else O
  | _, _ => O
  end.

(** The length of the run at the head of [x :: l], capped at 128. *)
Definition run_length (x : Z) (l : list Z) : nat := S (run_tail x l 127).

(** The inner [while (in < length)] loop that extends a literal. *)
Fixpoint take_literal (fuel : nat) (lit rest : list Z) : list Z * list Z :=
  match fuel, rest with
  | S fuel, x :: t =>
      let run := run_length x t in
      if ((3 <=? run) || (128 <? length lit + run))%nat then (lit, rest)
      else take_literal fuel (lit ++ take run rest) (drop run rest)
  | _, _ => (lit, rest)
  end.

(** The outer loop; every iteration consumes at least one byte, so the length
    of the input is enough fuel. *)
Fixpoint rle_comp (fuel : nat) (input : list Z) (capacity : Z) (out : list Z) : res (list Z) :=
  match input with
  | [] => Ok out
  | x :: t =>
      match fuel with
      | O => Err LS_EOVERFLOW
      | S fuel =>
          let run := run_length x t in
          if (3 <=? run)%nat then
            if capacity - zlen out <? 2 then Err LS_ENOSPACE
            else rle_comp fuel (drop run input) capacity
                   (out ++ [u8 (Z.lor 0x80 (Z.of_nat run - 1)); x])
          else
            let '(lit, rest) := take_literal fuel (take run input) (drop run input) in
            if capacity - zlen out <? zlen lit + 1 then Err LS_ENOSPACE
            else rle_comp fuel rest capacity (out ++ u8 (zlen lit - 1) :: lit)
      end
  end.

Definition ls_rle_compress (input : option (list Z)) (length : Z) (output : ptr) (capacity : Z)
    (written : ptr) : res (list Z) :=
  if (match input with None => negb (length =? 0) | Some _ => false end)
     || negb output || negb written
  then Err LS_EINVAL
  else let data := default [] input in rle_comp (List.length data) data capacity [].

(** The decoder loop; every iteration consumes the control byte. *)
Fixpoint rle_dec (fuel : nat) (input : list Z) (capacity : Z) (out : list Z) : res (list Z) :=
  match input with
  | [] => Ok out
  | control :: input =>
      match fuel with
      | O => Err LS_EOVERFLOW
      | S fuel =>
          let count := Z.land control 0x7f + 1 in
          if negb (Z.land control 0x80 =? 0) then
            match input with
            | [] => Err LS_ECORRUPT
            | value :: input =>
                if capacity - zlen out <? count then Err LS_ENOSPACE
                else rle_dec fuel input capacity (out ++ fill count value)
            end
          else if zlen input <? count then Err LS_ECORRUPT
          else if capacity - zlen out <? count then Err LS_ENOSPACE
          else rle_dec fuel (drop (Z.to_nat count) input) capacity
                 (out ++ take (Z.to_nat count) input)
      end
  end.

Definition ls_rle_decompress (input : option (list Z)) (length : Z) (output : ptr) (capacity : Z)
    (written : ptr) : res (list Z) :=
  if (match input with None => negb (length =? 0) | Some _ => false end)
     || negb output || negb written
  then Err LS_EINVAL
  else let data := default [] input in rle_dec (List.length data) data capacity [].

(** ** Delta coding of 32-bit samples *)

Definition zigzag_encode (value : Z) : Z :=
  let bits := u32 value in
  Z.lxor (u32 (Z.shiftl bits 1)) (u32 (- (if value <? 0 then 1 else 0))).

Definition zigzag_decode (value : Z) : Z :=
  s32 (Z.lxor (Z.shiftr value 1) (u32 (- Z.land value 1))).

Fixpoint delta_enc (values : list Z) (previous capacity : Z) (out : list Z) : res (list Z) :=
  match values with
  | [] => Ok out
  | v :: values =>
      let delta := s32 (v - previous) in
      match ls_varint_u32_encode (zigzag_encode delta) SET 5 SET with
      | Err e => Err e
      | Ok encoded =>
          if capacity - zlen out <? zlen encoded then Err LS_ENOSPACE
          else delta_enc values v capacity (out ++ encoded)
      end
  end.

Definition ls_delta_u32_encode (values : option (list Z)) (count : Z) (output : ptr) (capacity : Z)
    (written : ptr) : res (list Z) :=
  if (match values with None => negb (count =? 0) | Some _ => false end)
     || negb output || negb written
  then Err LS_EINVAL
  else delta_enc (default [] values) 0 capacity [].

(** The decoder loop: every sample consumes at least one byte. *)
Fixpoint delta_dec (fuel : nat) (input : list Z) (capacity previous : Z) (items : list Z)
  : res (list Z) :=
  match input with
  | [] => Ok items
  | _ :: _ =>
      match fuel with
      | O => Err LS_EOVERFLOW
      | S fuel =>
          if capacity <=? zlen items then Err LS_ENOSPACE
          else
            match ls_varint_u32_decode (Some input) SET SET with
            | Err e => Err e
            | Ok (encoded, consumed) =>
                let previous := u32 (previous + u32 (zigzag_decode encoded)) in
                delta_dec fuel (drop (Z.to_nat consumed) input) capacity previous
                  (items ++ [previous])
            end
      end
  end.

Definition ls_delta_u32_decode (input : option (list Z)) (length : Z) (values : ptr) (capacity : Z)
    (count : ptr) : res (list Z) :=
  if (match input with None => negb (length =? 0) | Some _ => false end)
     || negb values || negb count
  then Err LS_EINVAL
  else let data := default [] input in delta_dec (List.length data) data capacity 0 [].

(** ** Variable-length integers: the round trip *)

(** The bytes of a value, without the capacity checks. *)
Fixpoint varint_bytes (fuel : nat) (value : Z) : list Z :=
  match fuel with
  | O => []
  | S fuel =>
      if Z.shiftr value 7 =? 0 then [value mod 128]
      else (value mod 128 + 128) :: varint_bytes fuel (Z.shiftr value 7)
  end.

(** [k] seven-bit groups are enough for [value]. *)
Definition groups (k : nat) (value : Z) : Prop := 0 <= value < 2 ^ (7 * Z.of_nat k).

Lemma groups_step k v : groups (S k) v -> groups k (Z.shiftr v 7).
Proof.
  unfold groups. rewrite Z.shiftr_div_pow2 by lia. intros [H1 H2].
  replace (7 * Z.of_nat (S k)) with (7 + 7 * Z.of_nat k) in H2 by lia.
  rewrite Z.pow_add_r in H2 by lia.
  split; [apply Z.div_pos; lia|]. apply Z.div_lt_upper_bound; lia.
Qed.

Lemma varint_byte v : 0 <= v -> u8 (Z.land v 0x7f) = v mod 128.
Proof. intros. rewrite land_low7. apply u8_id. unfold is_u8. pose proof (Z.mod_pos_bound v 128). lia. Qed.

Lemma varint_loop_bytes k v capacity out :
  (0 < k)%nat -> groups k v ->
  varint_loop k v capacity out =
    if zlen out + zlen (varint_bytes k v) <=? capacity
    then Ok (out ++ varint_bytes k v) else Err LS_ENOSPACE.
Proof.
  revert v out. induction k as [|k IH]; [lia|]. intros v out _ Hv.
  pose proof (groups_step k v Hv) as Hg. destruct Hv as [Hv _].
  pose proof (Z.mod_pos_bound v 128 ltac:(lia)).
  simpl. rewrite varint_byte by done.
  destruct (Z.shiftr v 7 =? 0) eqn:E; simpl.
  - rewrite zlen_cons, zlen_nil. repeat case_if; done || blia.
  - rewrite lor_bit7 by done.
    assert (k <> 0)%nat. { intros ->. unfold groups in Hg. simpl in Hg. bool_prop. lia. }
    rewrite IH by (done || lia). rewrite zlen_app, !zlen_cons, zlen_nil, <- app_assoc. simpl app.
    pose proof (zlen_nonneg (varint_bytes k (Z.shiftr v 7))).
    repeat case_if; done || blia.
Qed.

Lemma varint_bytes_length k v : (length (varint_bytes k v) <= k)%nat.
Proof. revert v. induction k; intros; simpl; [done|]. case_if; simpl; [lia|]. specialize (IHk (Z.shiftr v 7)). lia. Qed.

Lemma land_high_nibble v : 0 <= v < 16 -> Z.land v 0xf0 = 0.
Proof.
  intros Hv. assert (is_u8 v) as H8 by (unfold is_u8; lia).
  pose proof (u8_forall (fun v => (16 <=? v) || (Z.land v 0xf0 =? 0)) eq_refl v H8) as H.
  cbv beta in H. bool_prop. destruct H; blia.
Qed.

(** A group entering the accumulator. *)
Lemma varint_acc i r c :
  0 <= i -> 0 <= r < 2 ^ (7 * i) -> 0 <= c -> c * 2 ^ (7 * i) < 2 ^ 32 ->
  Z.lor r (u32 (Z.shiftl c (i * 7))) = r + c * 2 ^ (7 * i).
Proof.
  intros Hi Hr Hc Hb. rewrite (Z.mul_comm i 7), u32_id.
  - by rewrite lor_shiftl_add by lia.
  - rewrite Z.shiftl_mul_pow2 by lia. unfold is_u32. nia.
Qed.

Lemma pow_group i : 0 <= i -> 2 ^ (7 * (i + 1)) = 2 ^ (7 * i) * 128.
Proof. intros. replace (7 * (i + 1)) with (7 * i + 7) by lia. by rewrite Z.pow_add_r by lia. Qed.

(** The last byte of a number. *)
Lemma varint_dec_last k i r v rest :
  0 <= i <= 4 -> 0 <= r < 2 ^ (7 * i) -> 0 <= v < 128 -> v * 2 ^ (7 * i) < 2 ^ 32 ->
  varint_dec (S k) i (v :: rest) r = Ok (r + v * 2 ^ (7 * i), i + 1).
Proof.
  intros Hi Hr Hv Hb. simpl. rewrite land_low7, (Z.mod_small v), land_bit7 by (unfold is_u8; lia).
  rewrite varint_acc by lia. destruct (v <? 128) eqn:?; [|blia]. simpl.
  destruct (i =? 4) eqn:E4; [|done]. bool_prop. subst i. change (2 ^ (7 * 4)) with (2 ^ 28) in *.
  by rewrite land_high_nibble by lia.
Qed.

(** A byte that is followed by another. *)
Lemma varint_dec_more k i r c rest :
  0 <= i < 4 -> 0 <= r < 2 ^ (7 * i) -> 0 <= c < 128 ->
  varint_dec (S k) i (c + 128 :: rest) r = varint_dec k (i + 1) rest (r + c * 2 ^ (7 * i)).
Proof.
  intros Hi Hr Hc. simpl.
  rewrite land_low7, land_bit7 by (unfold is_u8; lia).
  replace ((c + 128) mod 128) with c by (apply (Z.mod_unique _ _ 1); lia).
  destruct (i =? 4) eqn:E4; [blia|]. destruct (c + 128 <? 128) eqn:?; [blia|]. simpl.
  assert (2 ^ (7 * i) <= 2 ^ 21) by (apply Z.pow_le_mono_r; lia).
  rewrite varint_acc by nia. done.
Qed.

(** Decoding resumes where encoding stands: [r] holds the groups already read. *)
Lemma varint_dec_bytes k v i r rest :
  (0 < k)%nat -> i = 5 - Z.of_nat k -> 0 <= i -> 0 <= r < 2 ^ (7 * i) -> 0 <= v < 2 ^ (32 - 7 * i) ->
  varint_dec k i (varint_bytes k v ++ rest) r =
    Ok (r + v * 2 ^ (7 * i), i + zlen (varint_bytes k v)).
Proof.
  revert v i r. induction k as [|k IH]; [lia|]. intros v i r _ Hi Hi0 Hr Hv.
  pose proof (Z.mod_pos_bound v 128 ltac:(lia)). pose proof (Z.div_mod v 128 ltac:(lia)).
  assert (2 ^ (32 - 7 * i) * 2 ^ (7 * i) = 2 ^ 32)
    by (rewrite <- Z.pow_add_r by lia; f_equal; lia).
  assert (0 < 2 ^ (7 * i)) by lia.
  simpl varint_bytes. rewrite Z.shiftr_div_pow2 by lia. change (2 ^ 7) with 128.
  destruct (v / 128 =? 0) eqn:E; bool_prop; simpl app.
  - assert (v mod 128 = v) as -> by lia. rewrite varint_dec_last by nia.
    by rewrite zlen_cons.
  - assert (i <> 4) as H4.
    { intros ->. apply E, Z.div_small. change (2 ^ (32 - 7 * 4)) with 16 in Hv. lia. }
    assert (0 <= v / 128) by (apply Z.div_pos; lia).
    assert (2 ^ (32 - 7 * i) = 2 ^ (32 - 7 * (i + 1)) * 128) as Hp.
    { replace (32 - 7 * i) with (32 - 7 * (i + 1) + 7) by lia. by rewrite Z.pow_add_r by lia. }
    rewrite varint_dec_more by lia. rewrite IH by (rewrite ?pow_group; nia).
    rewrite zlen_cons, pow_group by lia. do 2 f_equal; nia.
Qed.

Lemma varint_encode_bytes v capacity :
  is_u32 v -> zlen (varint_bytes 5 v) <= capacity ->
  ls_varint_u32_encode v SET capacity SET = Ok (varint_bytes 5 v).
Proof.
  intros Hv Hc. unfold ls_varint_u32_encode. simpl orb. cbv iota.
  rewrite varint_loop_bytes; [|lia|unfold groups, is_u32 in *; lia].
  rewrite zlen_nil. destruct (_ <=? _) eqn:?; [done|blia].
Qed.

Lemma varint_decode_bytes v rest :
  is_u32 v ->
  ls_varint_u32_decode (Some (varint_bytes 5 v ++ rest)) SET SET = Ok (v, zlen (varint_bytes 5 v)).
Proof.
  intros Hv. unfold ls_varint_u32_decode. simpl orb. cbv iota.
  rewrite varint_dec_bytes by (unfold is_u32 in *; simpl; lia).
  f_equal. f_equal; simpl; lia.
Qed.

Lemma varint_bytes_pos k v : (0 < length (varint_bytes (S k) v))%nat.
Proof. cbn [varint_bytes]. case_if; simpl length; lia. Qed.

Lemma varint_bytes_zlen v : 0 < zlen (varint_bytes 5 v) <= 5.
Proof.
  unfold zlen. pose proof (varint_bytes_length 5 v). pose proof (varint_bytes_pos 4 v). lia.
Qed.

(** Every 32-bit value encodes into at most five bytes, and decoding those
    bytes, whatever follows them in the buffer, returns the value and consumes
    exactly the bytes that were written. *)
Theorem varint_roundtrip v capacity rest :
  is_u32 v -> 5 <= capacity ->
  exists enc, ls_varint_u32_encode v SET capacity SET = Ok enc /\ 0 < zlen enc <= 5 /\
    ls_varint_u32_decode (Some (enc ++ rest)) SET SET = Ok (v, zlen enc).
Proof.
  intros Hv Hc. pose proof (varint_bytes_zlen v). exists (varint_bytes 5 v).
  rewrite varint_encode_bytes, varint_decode_bytes by (done || lia). done.
Qed.

Lemma varint_roundtrip_witness :
  exists enc, ls_varint_u32_encode 300 SET 5 SET = Ok enc /\ 0 < zlen enc <= 5 /\
    ls_varint_u32_decode (Some (enc ++ [7])) SET SET = Ok (300, zlen enc).
Proof. apply (varint_roundtrip 300 5 [7]); [unfold is_u32|]; lia. Defined.

(** ** Run-length coding: the round trip *)

(** The token streams of the format, with the data each stands for. *)
Inductive rle_stream : list Z -> list Z -> Prop :=
| rle_nil : rle_stream [] []
| rle_run n x s d : (1 <= n <= 128)%nat -> rle_stream s d ->
    rle_stream (128 + (Z.of_nat n - 1) :: x :: s) (replicate n x ++ d)
| rle_lit l s d : 1 <= zlen l <= 128 -> rle_stream s d ->
    rle_stream (zlen l - 1 :: l ++ s) (l ++ d).

Lemma run_tail_max x l m : (run_tail x l m <= m)%nat.
Proof. revert l. induction m; intros [|y l]; simpl; try lia. case_if; [|lia]. specialize (IHm l). lia. Qed.

Lemma run_tail_take x l m :
  take (run_tail x l m) l = replicate (run_tail x l m) x.
Proof.
  revert l. induction m; intros [|y l]; simpl; try done. case_if; [|done].
  bool_prop. subst y. simpl. by rewrite IHm.
Qed.

Lemma run_length_take x l : take (run_length x l) (x :: l) = replicate (run_length x l) x.
Proof. unfold run_length. simpl. by rewrite run_tail_take. Qed.

Lemma run_length_max x l : (1 <= run_length x l <= 128)%nat.
Proof. unfold run_length. pose proof (run_tail_max x l 127). lia. Qed.

(** A literal grows by whole runs, up to 128 bytes, and loses nothing. *)
Lemma take_literal_spec fuel lit rest lit' rest' :
  take_literal fuel lit rest = (lit', rest') -> (length lit <= 128)%nat ->
  lit' ++ rest' = lit ++ rest /\ (length lit <= length lit' <= 128)%nat.
Proof.
  revert lit rest. induction fuel as [|fuel IH]; intros lit [|x t] H Hl;
    try (simpl in H; simplify_eq; split; [done|lia]).
  cbn [take_literal] in H. destruct (_ || _) eqn:E; [by simplify_eq|].
  apply orb_false_iff in E as [_ E]. apply Nat.ltb_ge in E.
  pose proof (run_length_max x t).
  assert (length (take (run_length x t) (x :: t)) <= run_length x t)%nat by (rewrite length_take; lia).
  apply IH in H; [|rewrite length_app; lia].
  rewrite <- app_assoc, take_drop, length_app in H. destruct H. split; [done|lia].
Qed.

Lemma rle_control_run n : (1 <= n <= 128)%nat -> u8 (Z.lor 0x80 (Z.of_nat n - 1)) = 128 + (Z.of_nat n - 1).
Proof.
  intros. rewrite Z.lor_comm, lor_bit7 by lia. rewrite u8_id; unfold is_u8; lia.
Qed.

(** What the compressor has to show for the input it consumed. *)
Definition rle_covers (out input out' : list Z) : Prop :=
  exists s, out' = out ++ s /\ rle_stream s input /\ zlen s <= 2 * zlen input.

Lemma rle_comp_stream fuel input capacity out out' :
  rle_comp fuel input capacity out = Ok out' -> rle_covers out input out'.
Proof.
  revert input out. induction fuel as [|fuel IH]; intros [|x t] out H; try done;
    try (simpl in H; simplify_eq; exists []; rewrite app_nil_r; repeat constructor; done).
  cbn [rle_comp] in H. pose proof (run_length_max x t) as Hr.
  pose proof (take_drop (run_length x t) (x :: t)) as Hsplit.
  destruct (3 <=? run_length x t)%nat eqn:E3.
  - destruct (_ <? 2) eqn:?; [done|]. apply IH in H as (s & -> & Hs & Hl).
    rewrite rle_control_run by done. eexists. rewrite <- app_assoc. split; [done|].
    rewrite run_length_take in Hsplit. rewrite <- Hsplit. split; [by constructor|].
    apply Nat.leb_le in E3. set (d := drop _ _) in *. clearbody d.
    rewrite !zlen_app, !zlen_cons, zlen_nil.
    assert (zlen (replicate (run_length x t) x) = Z.of_nat (run_length x t)) as ->
      by (unfold zlen; by rewrite length_replicate). lia.
  - destruct (take_literal _ _ _) as [lit rest] eqn:Et.
    apply take_literal_spec in Et; [|rewrite length_take; lia].
    rewrite Hsplit in Et. destruct Et as [Et Hlit].
    destruct (_ <? _) eqn:?; [done|]. apply IH in H as (s & -> & Hs & Hl).
    assert (1 <= length (take (run_length x t) (x :: t)))%nat by (rewrite length_take; simpl; lia).
    assert (1 <= zlen lit <= 128) by (unfold zlen; lia).
    rewrite u8_id by (unfold is_u8; lia). eexists. rewrite <- app_assoc. split; [done|].
    rewrite <- Et. simpl. split; [by constructor|].
    autorewrite with latch_len in *. lia.
Qed.

Lemma rle_comp_total fuel input capacity out :
  (length input <= fuel)%nat -> zlen out + 2 * zlen input <= capacity ->
  exists out', rle_comp fuel input capacity out = Ok out'.
Proof.
  revert input out. induction fuel as [|fuel IH]; intros [|x t] out Hf Hc;
    try (simpl in Hf; lia); try (eexists; done).
  cbn [rle_comp]. pose proof (run_length_max x t) as Hr.
  pose proof (take_drop (run_length x t) (x :: t)) as Hsplit.
  destruct (3 <=? run_length x t)%nat eqn:E3.
  - pose proof (f_equal length Hsplit) as Hlen. rewrite run_length_take, length_app, length_replicate in Hlen.
    apply Nat.leb_le in E3. set (d := drop _ _) in *. clearbody d. clear Hsplit.
    rewrite zlen_cons in Hc. pose proof (zlen_nonneg t).
    destruct (_ <? 2) eqn:?; [blia|].
    apply IH; [|rewrite zlen_app, !zlen_cons, zlen_nil]; unfold zlen in *; simpl length in *; lia.
  - destruct (take_literal _ _ _) as [lit rest] eqn:Et.
    apply take_literal_spec in Et; [|rewrite length_take; lia].
    rewrite Hsplit in Et. destruct Et as [Et Hlit].
    assert (1 <= length (take (run_length x t) (x :: t)))%nat by (rewrite length_take; simpl; lia).
    pose proof (f_equal length Et) as Hlen. rewrite length_app in Hlen. simpl in Hlen, Hf.
    unfold zlen in *. simpl length in *.
    destruct (_ <? _) eqn:?; [blia|].
    apply IH; [lia|]. rewrite length_app. simpl. lia.
Qed.

Lemma land_low7_bit7 c : 0 <= c < 128 -> Z.land (128 + c) 0x7f = c.
Proof. intros. rewrite land_low7. symmetry. apply (Z.mod_unique _ _ 1); lia. Qed.

Lemma rle_dec_stream s d fuel capacity out :
  rle_stream s d -> (length s <= fuel)%nat -> zlen out + zlen d <= capacity ->
  rle_dec fuel s capacity out = Ok (out ++ d).
Proof.
  intros Hs. revert fuel out.
  induction Hs as [|n x s d Hn Hs IH|l s d Hl Hs IH]; intros fuel out Hf Hc.
  - destruct fuel; simpl; by rewrite app_nil_r.
  - destruct fuel as [|fuel]; [simpl in Hf; lia|]. cbn [rle_dec].
    rewrite land_low7_bit7, land_bit7 by (unfold is_u8; lia).
    destruct (_ <? 128) eqn:?; [blia|]. cbn [negb Z.eqb].
    rewrite zlen_app in Hc. assert (zlen (replicate n x) = Z.of_nat n) as Hz by (unfold zlen; by rewrite length_replicate).
    pose proof (zlen_nonneg d). destruct (capacity - zlen out <? _) eqn:?; [blia|].
    unfold fill. replace (Z.to_nat _) with n by lia.
    rewrite IH; [by rewrite app_assoc|simpl in Hf; lia|rewrite zlen_app; lia].
  - destruct fuel as [|fuel]; [simpl in Hf; lia|]. cbn [rle_dec].
    rewrite land_low7, Z.mod_small, land_bit7 by (unfold is_u8; lia).
    destruct (_ <? 128) eqn:?; [|blia]. cbn [negb Z.eqb]. rewrite zlen_app in *.
    pose proof (zlen_nonneg s). pose proof (zlen_nonneg d).
    replace (zlen l - 1 + 1) with (zlen l) by lia.
    destruct (zlen l + zlen s <? zlen l) eqn:?; [blia|].
    destruct (capacity - zlen out <? zlen l) eqn:?; [blia|].
    replace (Z.to_nat (zlen l)) with (length l) by (unfold zlen; lia).
    rewrite take_app_length, drop_app_length.
    rewrite IH; [by rewrite app_assoc| |rewrite zlen_app; lia].
    simpl in Hf. rewrite length_app in Hf. lia.
Qed.

(** With room for twice the input the compressor succeeds, expands by at
    most that factor, and the decompressor restores the input exactly into any
    buffer large enough to hold it. *)
Theorem rle_roundtrip data length capacity capacity' len' :
  2 * zlen data <= capacity -> zlen data <= capacity' ->
  exists out, ls_rle_compress (Some data) length SET capacity SET = Ok out /\
    zlen out <= 2 * zlen data /\
    ls_rle_decompress (Some out) len' SET capacity' SET = Ok data.
Proof.
  intros Hc Hc'. destruct (rle_comp_total (List.length data) data capacity []) as [out Ho];
    [lia|rewrite zlen_nil; lia|].
  pose proof (rle_comp_stream _ _ _ _ _ Ho) as (s & -> & Hs & Hl).
  exists s. split; [done|]. split; [done|].
  unfold ls_rle_decompress. simpl orb. cbv iota. simpl default.
  rewrite (rle_dec_stream s data); [done..|lia|rewrite zlen_nil; lia].
Qed.

Lemma rle_roundtrip_witness :
  exists out, ls_rle_compress (Some [9; 9; 9; 9; 1; 2]) 6 SET 12 SET = Ok out /\
    zlen out <= 2 * zlen [9; 9; 9; 9; 1; 2] /\
    ls_rle_decompress (Some out) 5 SET 6 SET = Ok [9; 9; 9; 9; 1; 2].
Proof. apply (rle_roundtrip [9; 9; 9; 9; 1; 2] 6 12 6 5); vm_compute; discriminate. Defined.

(** Whenever the compressor succeeds, in a buffer of any size, its output decodes
    to the input. *)
Lemma rle_compress_sound data length capacity out :
  ls_rle_compress (Some data) length SET capacity SET = Ok out ->
  forall len' capacity', zlen data <= capacity' ->
  ls_rle_decompress (Some out) len' SET capacity' SET = Ok data.
Proof.
  intros (s & -> & Hs & _)%rle_comp_stream len' capacity' Hc.
  unfold ls_rle_decompress. cbv beta iota delta [negb orb SET app default].
  rewrite (rle_dec_stream s data); [done..|rewrite zlen_nil; lia].
Qed.

(** ** Delta coding: the round trip *)

Lemma s32_range z : - 2 ^ 31 <= s32 z < 2 ^ 31.
Proof. unfold s32. pose proof (u32_range z). case_if; blia. Qed.

Lemma u32_s32 z : u32 (s32 z) = u32 z.
Proof.
  unfold s32. pose proof (u32_range z). case_if.
  - apply u32_id. blia.
  - symmetry. apply (Z.mod_unique _ _ (-1)); blia.
Qed.

(** Zigzag places the sign in bit 0. *)
Lemma zigzag_encode_eq v : - 2 ^ 31 <= v < 2 ^ 31 ->
  zigzag_encode v = if v <? 0 then - 2 * v - 1 else 2 * v.
Proof.
  intros Hv. unfold zigzag_encode. rewrite Z.shiftl_mul_pow2 by lia. change (2 ^ 1) with 2.
  destruct (v <? 0) eqn:E; bool_prop.
  - assert (u32 v = v + 2 ^ 32) as -> by (symmetry; apply (Z.mod_unique _ _ (-1)); lia).
    assert (u32 ((v + 2 ^ 32) * 2) = 2 * v + 2 ^ 32) as ->
      by (symmetry; apply (Z.mod_unique _ _ 1); lia).
    change (u32 (- (1))) with (2 ^ 32 - 1). rewrite lxor_ones by lia. lia.
  - change (u32 (- 0)) with 0. rewrite Z.lxor_0_r, !u32_id; unfold is_u32; rewrite ?u32_id; unfold is_u32; lia.
Qed.

Lemma land_1 z : Z.land z 1 = z mod 2.
Proof. change 1 with (Z.ones 1) at 1. by rewrite Z.land_ones by lia. Qed.

Lemma zigzag_roundtrip v : - 2 ^ 31 <= v < 2 ^ 31 -> zigzag_decode (zigzag_encode v) = v.
Proof.
  intros Hv. rewrite zigzag_encode_eq by done. unfold zigzag_decode.
  rewrite Z.shiftr_div_pow2 by lia. change (2 ^ 1) with 2. rewrite land_1.
  destruct (v <? 0) eqn:E; bool_prop.
  - assert ((-2 * v - 1) / 2 = - v - 1) as -> by (symmetry; apply (Z.div_unique _ _ _ 1); lia).
    assert ((-2 * v - 1) mod 2 = 1) as -> by (symmetry; apply (Z.mod_unique _ _ (- v - 1)); lia).
    change (u32 (- (1))) with (2 ^ 32 - 1). rewrite lxor_ones by lia.
    transitivity (s32 (u32 v)); [|apply s32_u32; lia].
    f_equal. apply (Z.mod_unique _ _ (-1)); lia.
  - rewrite (Z.mul_comm 2), Z.div_mul, Z.mod_mul by lia. change (u32 (- 0)) with 0.
    rewrite Z.lxor_0_r. rewrite <- (u32_id v) at 1 by (unfold is_u32; lia). apply s32_u32. lia.
Qed.

Lemma zigzag_encode_u32 v : - 2 ^ 31 <= v < 2 ^ 31 -> is_u32 (zigzag_encode v).
Proof. intros. rewrite zigzag_encode_eq by done. case_if; blia. Qed.

(** The stream of a sample sequence that follows [previous]. *)
Fixpoint delta_bytes (previous : Z) (values : list Z) : list Z :=
  match values with
  | [] => []
  | v :: values => varint_bytes 5 (zigzag_encode (s32 (v - previous))) ++ delta_bytes v values
  end.

Lemma delta_bytes_zlen previous values : zlen (delta_bytes previous values) <= 5 * zlen values.
Proof.
  revert previous. induction values as [|v values IH]; intros; [done|].
  cbn [delta_bytes]. rewrite zlen_app, zlen_cons. specialize (IH v).
  pose proof (varint_bytes_zlen (zigzag_encode (s32 (v - previous)))). lia.
Qed.

Lemma delta_enc_bytes values previous capacity out :
  zlen out + 5 * zlen values <= capacity ->
  delta_enc values previous capacity out = Ok (out ++ delta_bytes previous values).
Proof.
  revert previous out. induction values as [|v values IH]; intros previous out Hc.
  - simpl. by rewrite app_nil_r.
  - rewrite zlen_cons in Hc. cbn [delta_enc delta_bytes].
    pose proof (varint_bytes_zlen (zigzag_encode (s32 (v - previous)))). pose proof (zlen_nonneg values).
    rewrite varint_encode_bytes by (apply zigzag_encode_u32, s32_range || lia).
    destruct (capacity - zlen out <? _) eqn:?; [blia|].
    rewrite IH by (rewrite zlen_app; lia). by rewrite app_assoc.
Qed.

Lemma delta_step v previous : is_u32 v ->
  u32 (previous + u32 (zigzag_decode (zigzag_encode (s32 (v - previous))))) = v.
Proof.
  intros Hv. rewrite zigzag_roundtrip by apply s32_range. rewrite u32_s32.
  unfold u32. rewrite Z.add_mod_idemp_r by lia.
  replace (previous + (v - previous)) with v by lia. by apply Z.mod_small.
Qed.

Lemma delta_dec_bytes values fuel previous capacity items :
  Forall is_u32 values -> (length (delta_bytes previous values) <= fuel)%nat ->
  zlen items + zlen values <= capacity ->
  delta_dec fuel (delta_bytes previous values) capacity previous items = Ok (items ++ values).
Proof.
  intros Hv. revert fuel previous items.
  induction Hv as [|v values Hv Hvs IH]; intros fuel previous items Hf Hc.
  - destruct fuel; simpl; by rewrite app_nil_r.
  - cbn [delta_bytes] in *. set (e := zigzag_encode (s32 (v - previous))) in *.
    assert (is_u32 e) as He by (apply zigzag_encode_u32, s32_range).
    pose proof (varint_bytes_zlen e). rewrite zlen_cons in Hc. rewrite length_app in Hf.
    pose proof (zlen_nonneg values).
    destruct (varint_bytes 5 e ++ delta_bytes v values) as [|b l] eqn:Ebl.
    { apply (f_equal length) in Ebl. rewrite length_app in Ebl. change (length []) with 0%nat in Ebl. unfold zlen in *. lia. }
    rewrite <- Ebl. destruct fuel as [|fuel]; [unfold zlen in *; lia|].
    unfold delta_dec; fold delta_dec. rewrite Ebl at 1.
    destruct (capacity <=? zlen items) eqn:?; [blia|].
    rewrite varint_decode_bytes by done. cbv zeta.
    pose proof (delta_step v previous Hv) as Hstep. fold e in Hstep. rewrite Hstep.
    replace (Z.to_nat (zlen (varint_bytes 5 e))) with (length (varint_bytes 5 e)) by (unfold zlen; lia).
    rewrite drop_app_length. rewrite IH; [by rewrite <- app_assoc| |].
    + unfold zlen in *. lia.
    + rewrite zlen_app, zlen_cons, zlen_nil. lia.
Qed.

(** Delta coding is lossless for every sequence of 32-bit samples, differences
    that wrap around 2^32 included, and never needs more than five bytes per
    sample. *)
Theorem delta_roundtrip values count capacity capacity' len' :
  Forall is_u32 values -> 5 * zlen values <= capacity -> zlen values <= capacity' ->
  exists out, ls_delta_u32_encode (Some values) count SET capacity SET = Ok out /\
    zlen out <= 5 * zlen values /\
    ls_delta_u32_decode (Some out) len' SET capacity' SET = Ok values.
Proof.
  intros Hv Hc Hc'. exists (delta_bytes 0 values). split; [|split].
  - by apply (delta_enc_bytes values 0 capacity []).
  - apply delta_bytes_zlen.
  - apply (delta_dec_bytes values _ 0 capacity' []); done.
Qed.

Lemma delta_roundtrip_witness :
  exists out, ls_delta_u32_encode (Some [4294967295; 0; 7]) 3 SET 15 SET = Ok out /\
    zlen out <= 5 * zlen [4294967295; 0; 7] /\
    ls_delta_u32_decode (Some out) 3 SET 3 SET = Ok [4294967295; 0; 7].
Proof.
  apply (delta_roundtrip [4294967295; 0; 7] 3 15 3 3).
  - repeat (apply List.Forall_cons || apply List.Forall_nil); unfold is_u32; lia.
  - vm_compute; discriminate.
  - vm_compute; discriminate.
Defined.
