(* ===== verification/Envelope.v ===== *)
(** * LEP envelopes: validation, traversal, replay window ([src/envelope/lep.c])

    The checks every received or stored envelope goes through, the traversal of
    its TLV fields, and the sliding window that rejects replayed sequence
    numbers. *)

From stdpp Require Import sets.
From S2P Require Import Prelude Util.

Definition LS_MAGIC : Z := 0x5054534c.
Definition LS_LEP_HEADER_SIZE : Z := 24.
Definition LS_LEP_MIN_SUPPORTED_VERSION : Z := 1.
Definition LS_LEP_MAX_SUPPORTED_VERSION : Z := 1.
Definition LS_ENVELOPE_AUTHENTICATED : Z := 1.
Definition LS_ENVELOPE_ENCRYPTED : Z := 2.
Definition LS_ENVELOPE_AEAD : Z := 4.
Definition LS_ENVELOPE_TRUNCATED : Z := 8.
Definition LS_ENVELOPE_KNOWN_FLAGS : Z := 15.
Definition LS_ENVELOPE_SECURITY_METADATA_SIZE : Z := 28.
Definition LS_ENVELOPE_REPLAY_WINDOW_SIZE : Z := 64.
Definition LS_AEAD_TAG_SIZE : Z := 16.
Definition LS_HMAC_SHA256_SIZE : Z := 32.

Record ls_envelope_info_t : Type := {
  version : Z;
  type : Z;
  architecture : Z;
  flags : Z;
  sequence : Z;
  event_id : Z;
  payload_length : Z;
}.

(** ** Validation *)

Definition read_u16 (data : list Z) (at_ : Z) : Z := le_get (slice at_ 2 data).
Definition read_u32 (data : list Z) (at_ : Z) : Z := le_get (slice at_ 4 data).

(** [data[i]]. *)
Definition byte_at (data : list Z) (i : Z) : Z := default 0 (data !! Z.to_nat i).

(** [(flags & bit) != 0]. *)
Definition has_flag (flags bit : Z) : bool := negb (Z.land flags bit =? 0).

Definition flags_valid (flags : Z) : bool :=
  if negb (Z.land flags (Z.lnot LS_ENVELOPE_KNOWN_FLAGS) =? 0) then false
  else
    let authenticated := has_flag flags LS_ENVELOPE_AUTHENTICATED in
    let encrypted := has_flag flags LS_ENVELOPE_ENCRYPTED in
    let aead := has_flag flags LS_ENVELOPE_AEAD in
    if negb (Bool.eqb encrypted aead) then false else negb aead || authenticated.

(** The loop of [validate_payload] on the bytes from [offset] on; every field
    takes at least four bytes, so the length of the payload is enough fuel. *)
Fixpoint validate_fields (fuel : nat) (payload : list Z) : ls_result_t :=
  match payload with
  | [] => LS_OK
  | _ :: _ =>
      match fuel with
      | O => LS_ECORRUPT
      | S fuel =>
          if zlen payload <? 4 then LS_ECORRUPT
          else
            let type := read_u16 payload 0 in
            let field_length := read_u16 payload 2 in
            let rest := drop 4 payload in
            if (type =? 0) || (zlen rest <? field_length) then LS_ECORRUPT
            else validate_fields fuel (drop (Z.to_nat field_length) rest)
      end
  end.

Definition validate_payload (payload : list Z) : ls_result_t :=
  validate_fields (length payload) payload.

Definition metadata_size (flags : Z) : Z :=
  if has_flag flags LS_ENVELOPE_ENCRYPTED then LS_ENVELOPE_SECURITY_METADATA_SIZE else 0.

Definition authentication_size (flags : Z) : Z :=
  if has_flag flags LS_ENVELOPE_ENCRYPTED then LS_AEAD_TAG_SIZE
  else if has_flag flags LS_ENVELOPE_AUTHENTICATED then LS_HMAC_SHA256_SIZE else 0.

(** [ls_envelope_validate]; the value is what a non-null [info] receives. *)
Definition ls_envelope_validate (data : option (list Z)) : res ls_envelope_info_t :=
  match data with
  | None => Err LS_EINVAL
  | Some data =>
      let length := zlen data in
      if (length <? LS_LEP_HEADER_SIZE + 4) || negb (read_u32 data 0 =? LS_MAGIC) then Err LS_ECORRUPT
      else if (byte_at data 4 <? LS_LEP_MIN_SUPPORTED_VERSION) ||
              (LS_LEP_MAX_SUPPORTED_VERSION <? byte_at data 4) then Err LS_ECORRUPT
      else
        let fl := byte_at data 7 in
        if negb (flags_valid fl) then Err LS_ECORRUPT
        else
          let plen := read_u32 data 16 in
          let overhead := LS_LEP_HEADER_SIZE + metadata_size fl + 4 + authentication_size fl in
          if (length <? overhead) || (length - overhead <? plen) || negb (length =? overhead + plen)
          then Err LS_ECORRUPT
          else
            let crc_offset := LS_LEP_HEADER_SIZE + metadata_size fl + plen in
            if negb (read_u32 data 20 =? ls_crc32 (slice 0 20 data)) ||
               negb (read_u32 data crc_offset =?
                       ls_crc32 (slice LS_LEP_HEADER_SIZE (metadata_size fl + plen) data))
            then Err LS_ECORRUPT
            else
              let result :=
                if has_flag fl LS_ENVELOPE_ENCRYPTED then LS_OK
                else validate_payload (slice LS_LEP_HEADER_SIZE plen data) in
              if negb (is_ok result) then Err result
              else
                Ok {| version := byte_at data 4; type := byte_at data 5; architecture := byte_at data 6;
                      flags := fl; sequence := read_u32 data 8; event_id := read_u32 data 12;
                      payload_length := plen |}
  end.

Definition ls_envelope_is_truncated (info : option ls_envelope_info_t) : bool :=
  match info with None => false | Some i => has_flag (flags i) LS_ENVELOPE_TRUNCATED end.

(** ** Traversal

    The visitor is the caller's function over the caller's context [C]. *)
Section Visit.
Context {C : Type} (visitor : Z -> list Z -> st C ls_result_t).

Fixpoint visit_fields (fuel : nat) (payload : list Z) : st C ls_result_t := fun c =>
  match payload with
  | [] => (LS_OK, c)
  | _ :: _ =>
      match fuel with
      | O => (LS_ECORRUPT, c)
      | S fuel =>
          if zlen payload <? 4 then (LS_ECORRUPT, c)
          else
            let type := read_u16 payload 0 in
            let field_length := read_u16 payload 2 in
            let rest := drop 4 payload in
            if (type =? 0) || (zlen rest <? field_length) then (LS_ECORRUPT, c)
            else
              let '(r, c) := visitor type (take (Z.to_nat field_length) rest) c in
              if negb (is_ok r) then (r, c)
              else visit_fields fuel (drop (Z.to_nat field_length) rest) c
      end
  end.

(** [visit_payload] with a non-null visitor. *)
Definition visit_payload (payload : list Z) : st C ls_result_t :=
  visit_fields (length payload) payload.

Definition ls_envelope_visit (data : option (list Z)) : st C ls_result_t := fun c =>
  match ls_envelope_validate data with
  | Err e => (e, c)
  | Ok info =>
      if has_flag (flags info) LS_ENVELOPE_ENCRYPTED then (LS_EAUTH, c)
      else visit_payload (slice LS_LEP_HEADER_SIZE (payload_length info) (default [] data)) c
  end.
End Visit.

(** ** The replay window *)

Record ls_envelope_replay_t : Type := {
  highest_sequence : Z;
  seen_sequences : Z;
  initialized : bool;
}.

Definition ls_envelope_replay_reset : ls_envelope_replay_t :=
  {| highest_sequence := 0; seen_sequences := 0; initialized := false |}.

Definition ls_envelope_replay_accept (seq : Z) : st ls_envelope_replay_t bool := fun r =>
  if negb (initialized r) then
    (true, {| highest_sequence := seq; seen_sequences := 1; initialized := true |})
  else
    let forward := u32 (seq - highest_sequence r) in
    if negb (forward =? 0) && (forward <? 0x80000000) then
      (true,
       {| highest_sequence := seq;
          seen_sequences :=
            if LS_ENVELOPE_REPLAY_WINDOW_SIZE <=? forward then 1
            else Z.lor (u64 (Z.shiftl (seen_sequences r) forward)) 1;
          initialized := initialized r |})
    else
      let distance := u32 (highest_sequence r - seq) in
      if LS_ENVELOPE_REPLAY_WINDOW_SIZE <=? distance then (false, r)
      else
        let bit := u64 (Z.shiftl 1 distance) in
        if negb (Z.land (seen_sequences r) bit =? 0) then (false, r)
        else
          (true, {| highest_sequence := highest_sequence r;
                    seen_sequences := Z.lor (seen_sequences r) bit;
                    initialized := initialized r |}).

(** ** TLV fields *)

(** A field on the wire. *)
Definition encode_tlv (f : Z * list Z) : list Z := le 2 (fst f) ++ le 2 (zlen (snd f)) ++ snd f.
Definition encode_tlvs (fs : list (Z * list Z)) : list Z := mjoin (map encode_tlv fs).

Definition tlv_ok (f : Z * list Z) : Prop :=
  0 < fst f < 2 ^ 16 /\ zlen (snd f) < 2 ^ 16 /\ bytes_ok (snd f).

(** Applying a visitor to fields in order, stopping at the first error. *)
Fixpoint run_visitor {C} (visitor : Z -> list Z -> st C ls_result_t) (fs : list (Z * list Z))
  : st C ls_result_t :=
  match fs with
  | [] => mret LS_OK
  | (t, v) :: fs => visitor t v ;;? run_visitor visitor fs
  end.

Lemma encode_tlv_zlen f : zlen (encode_tlv f) = 4 + zlen (snd f).
Proof. unfold encode_tlv. rewrite !zlen_app, !zlen_le. lia. Qed.

(** Reading the head of an encoded field. *)
Lemma tlv_head t v rest : tlv_ok (t, v) ->
  let payload := encode_tlv (t, v) ++ rest in
  read_u16 payload 0 = t /\ read_u16 payload 2 = zlen v /\ drop 4 payload = v ++ rest.
Proof.
  intros (Ht & Hv & _) payload. subst payload. cbn [fst snd] in *. pose proof (zlen_nonneg v).
  unfold encode_tlv, read_u16. cbn [fst snd]. rewrite <- !app_assoc.
  split_and!; [| |done].
  - change (slice 0 2 (le 2 t ++ le 2 (zlen v) ++ v ++ rest)) with (le 2 t).
    apply le_get_le2. unfold is_u16. lia.
  - change (slice 2 2 (le 2 t ++ le 2 (zlen v) ++ v ++ rest)) with (le 2 (zlen v)).
    apply le_get_le2. unfold is_u16. lia.
Qed.

(** A payload that starts with a field: its bytes are those of the field. *)
Lemma tlv_split payload : bytes_ok payload -> 4 <= zlen payload ->
  let t := read_u16 payload 0 in
  let n := read_u16 payload 2 in
  let rest := drop 4 payload in
  t <> 0 -> n <= zlen rest ->
  let v := take (Z.to_nat n) rest in
  tlv_ok (t, v) /\ payload = encode_tlv (t, v) ++ drop (Z.to_nat n) rest /\ zlen v = n.
Proof.
  intros Hb Hz t n rest Ht Hn v.
  assert (zlen rest = zlen payload - 4) as Hzr by (unfold rest, zlen in *; rewrite length_drop; lia).
  assert (is_u16 t) as Ut by (apply le_get_u16; [by apply bytes_ok_slice|apply zlen_slice; lia]).
  assert (is_u16 n) as Un by (apply le_get_u16; [by apply bytes_ok_slice|apply zlen_slice; lia]).
  unfold is_u16 in *.
  assert (zlen v = n) as Hv by (unfold v, zlen in *; rewrite length_take; lia).
  assert (bytes_ok v) as Bv by (by apply Forall_take, Forall_drop).
  split; [|split; [|done]]. { split; cbn [fst snd]; [lia|]. split; [lia|done]. }
  unfold encode_tlv. cbn [fst snd]. rewrite Hv.
  assert (forall o, 0 <= o -> o + 2 <= zlen payload -> le 2 (read_u16 payload o) = slice o 2 payload) as Hle.
  { intros o Ho Ho2. unfold read_u16. rewrite <- (le_le_get (slice o 2 payload)) at 2 by (by apply bytes_ok_slice).
    f_equal. rewrite length_slice by lia. done. }
  unfold t, n. rewrite !Hle by lia. fold n. rewrite <- !app_assoc. unfold v. rewrite take_drop. unfold rest.
  rewrite app_assoc. change (slice 2 2 payload) with (slice (0 + 2) 2 payload).
  rewrite <- (slice_split 0 2 2 payload) by lia.
  exact (drop_slice 0 4 payload ltac:(lia) ltac:(lia) ltac:(lia)).
Qed.

(** Validation recognises exactly the encodings of field lists. *)
Lemma validate_fields_decode fuel payload : bytes_ok payload -> validate_fields fuel payload = LS_OK ->
  exists fs, Forall tlv_ok fs /\ payload = encode_tlvs fs.
Proof.
  revert payload. induction fuel as [|fuel IH]; intros [|x payload'] Hb H; try done;
    try (exists []; by split).
  set (payload := x :: payload') in *. cbn [validate_fields payload] in H. fold payload in H.
  destruct (zlen payload <? 4) eqn:E4; [done|].
  destruct (_ || _) eqn:E; [done|]. bool_prop.
  destruct (tlv_split payload Hb ltac:(lia) ltac:(done) ltac:(lia)) as (Hok & Heq & _).
  apply IH in H as (fs & Hfs & Hrest); [|by apply Forall_drop, Forall_drop].
  exists ((read_u16 payload 0, take (Z.to_nat (read_u16 payload 2)) (drop 4 payload)) :: fs).
  split; [by constructor|]. rewrite Heq at 1. rewrite Hrest. done.
Qed.

Lemma visit_fields_run {C} (visitor : Z -> list Z -> st C ls_result_t) fs fuel c :
  Forall tlv_ok fs -> (length (encode_tlvs fs) <= fuel)%nat ->
  visit_fields visitor fuel (encode_tlvs fs) c = run_visitor visitor fs c.
Proof.
  intros Hfs. revert fuel c. induction Hfs as [|[t v] fs Hf Hfs IH]; intros fuel c Hl.
  - by destruct fuel.
  - change (encode_tlvs ((t, v) :: fs)) with (encode_tlv (t, v) ++ encode_tlvs fs) in *.
    pose proof (tlv_head t v (encode_tlvs fs) Hf) as (H1 & H2 & H3).
    set (payload := encode_tlv (t, v) ++ encode_tlvs fs) in *. cbv zeta in H1, H2, H3.
    assert (zlen payload = 4 + zlen v + zlen (encode_tlvs fs)) as Hz
      by (unfold payload; rewrite zlen_app, encode_tlv_zlen; done).
    pose proof (zlen_nonneg v). pose proof (zlen_nonneg (encode_tlvs fs)).
    destruct payload as [|x pl] eqn:Ep; [unfold zlen in Hz; simpl in Hz; lia|].
    destruct fuel as [|fuel]; [simpl in Hl; lia|]. cbn [visit_fields run_visitor].
    rewrite H1, H2, H3. destruct (zlen (x :: pl) <? 4) eqn:?; [blia|].
    destruct Hf as ((Ht & _) & _ & _). cbn [fst] in Ht.
    rewrite zlen_app. destruct ((t =? 0) || _) eqn:E; [bool_prop; destruct E; blia|].
    replace (Z.to_nat (zlen v)) with (length v) by (unfold zlen; lia).
    rewrite take_app_length, drop_app_length. unfold and_then.
    destruct (visitor t v c) as [r c']. destruct (is_ok r) eqn:Er; cbn [negb]; [|done].
    apply IH. unfold zlen in Hz. lia.
Qed.

Lemma validate_fields_encode fs fuel : Forall tlv_ok fs -> (length (encode_tlvs fs) <= fuel)%nat ->
  validate_fields fuel (encode_tlvs fs) = LS_OK.
Proof.
  intros Hfs. revert fuel. induction Hfs as [|[t v] fs Hf Hfs IH]; intros fuel Hl.
  - by destruct fuel.
  - change (encode_tlvs ((t, v) :: fs)) with (encode_tlv (t, v) ++ encode_tlvs fs) in *.
    pose proof (tlv_head t v (encode_tlvs fs) Hf) as (H1 & H2 & H3).
    set (payload := encode_tlv (t, v) ++ encode_tlvs fs) in *. cbv zeta in H1, H2, H3.
    assert (zlen payload = 4 + zlen v + zlen (encode_tlvs fs)) as Hz
      by (unfold payload; rewrite zlen_app, encode_tlv_zlen; done).
    pose proof (zlen_nonneg v). pose proof (zlen_nonneg (encode_tlvs fs)).
    destruct payload as [|x pl] eqn:Ep; [unfold zlen in Hz; simpl in Hz; lia|].
    destruct fuel as [|fuel]; [simpl in Hl; lia|]. cbn [validate_fields].
    rewrite H1, H2, H3. destruct (zlen (x :: pl) <? 4) eqn:?; [blia|].
    destruct Hf as ((Ht & _) & _ & _). cbn [fst] in Ht.
    rewrite zlen_app. destruct ((t =? 0) || _) eqn:E; [bool_prop; destruct E; blia|].
    replace (Z.to_nat (zlen v)) with (length v) by (unfold zlen; lia).
    rewrite drop_app_length. apply IH. unfold zlen in Hz. lia.
Qed.

(** ** The envelope format *)

Definition envelope_header (i : ls_envelope_info_t) : list Z :=
  le 4 LS_MAGIC ++ [version i; type i; architecture i; flags i] ++
  le 4 (sequence i) ++ le 4 (event_id i) ++ le 4 (payload_length i).

(** An envelope on the wire: header and its checksum, body (security metadata and
    payload) and its checksum, authentication. *)
Definition envelope_bytes (i : ls_envelope_info_t) (body auth : list Z) : list Z :=
  envelope_header i ++ le 4 (ls_crc32 (envelope_header i)) ++ body ++ le 4 (ls_crc32 body) ++ auth.

Record envelope_ok (i : ls_envelope_info_t) (body auth : list Z) : Prop := {
  eo_version : version i = 1;
  eo_type : is_u8 (type i);
  eo_arch : is_u8 (architecture i);
  eo_flags : is_u8 (flags i) /\ flags_valid (flags i) = true;
  eo_sequence : is_u32 (sequence i);
  eo_event : is_u32 (event_id i);
  eo_payload : is_u32 (payload_length i);
  eo_body : bytes_ok body /\ zlen body = metadata_size (flags i) + payload_length i;
  eo_auth : bytes_ok auth /\ zlen auth = authentication_size (flags i);
  eo_fields : has_flag (flags i) LS_ENVELOPE_ENCRYPTED = false ->
    exists fs, Forall tlv_ok fs /\ body = encode_tlvs fs;
}.

Lemma metadata_size_range fl : 0 <= metadata_size fl /\ 0 <= authentication_size fl.
Proof. unfold metadata_size, authentication_size. repeat case_if; vm_compute; split; discriminate. Qed.

(** The header has twenty bytes, at fixed places. *)
Lemma envelope_header_reads i rest :
  version i = 1 -> is_u32 (sequence i) -> is_u32 (event_id i) -> is_u32 (payload_length i) ->
  let data := envelope_header i ++ rest in
  zlen (envelope_header i) = 20 /\ read_u32 data 0 = LS_MAGIC /\ byte_at data 4 = 1 /\
  byte_at data 5 = type i /\ byte_at data 6 = architecture i /\ byte_at data 7 = flags i /\
  read_u32 data 8 = sequence i /\ read_u32 data 12 = event_id i /\ read_u32 data 16 = payload_length i /\
  slice 0 20 data = envelope_header i.
Proof.
  intros Hv Hs He Hp data.
  split; [done|]. split; [reflexivity|]. split; [exact Hv|]. do 3 (split; [reflexivity|]).
  split; [exact (le_get_le4 _ Hs)|]. split; [exact (le_get_le4 _ He)|]. split; [exact (le_get_le4 _ Hp)|].
  reflexivity.
Qed.

Lemma envelope_accepts i body auth : envelope_ok i body auth ->
  ls_envelope_validate (Some (envelope_bytes i body auth)) = Ok i.
Proof.
  intros [O1 O2 O3 [O4 O4'] O5 O6 O7 [O8 O8'] [O9 O9'] O10].
  destruct (envelope_header_reads i (le 4 (ls_crc32 (envelope_header i)) ++ body ++ le 4 (ls_crc32 body) ++ auth)
    O1 O5 O6 O7) as (Z0 & R0 & B4 & B5 & B6 & B7 & R8 & R12 & R16 & S20).
  fold (envelope_bytes i body auth) in R0, B4, B5, B6, B7, R8, R12, R16, S20.
  set (data := envelope_bytes i body auth) in *. unfold ls_envelope_validate.
  destruct (metadata_size_range (flags i)) as [M1 M2]. unfold is_u32 in O7.
  assert (zlen data = 24 + zlen body + 4 + zlen auth) as Hz.
  { unfold data, envelope_bytes. rewrite !zlen_app, !zlen_le, Z0. lia. }
  assert (read_u32 data 20 = ls_crc32 (envelope_header i)) as R20.
  { unfold read_u32, data, envelope_bytes. rewrite slice_app_r, Z0, slice_app_l by (rewrite ?zlen_le; lia).
    change 4 with (zlen (le 4 (ls_crc32 (envelope_header i)))) at 1. rewrite slice_full.
    apply le_get_le4, crc32_range. }
  assert (slice 24 (zlen body) data = body) as Sb.
  { unfold data, envelope_bytes. rewrite slice_app_r, Z0 by lia. rewrite slice_app_r, zlen_le by (rewrite ?zlen_le; lia).
    rewrite slice_app_l by lia. change (24 - 20 - Z.of_nat 4) with 0. apply slice_full. }
  assert (read_u32 data (24 + zlen body) = ls_crc32 body) as Rc.
  { pose proof (zlen_nonneg body). unfold read_u32, data, envelope_bytes.
    rewrite slice_app_r, Z0 by lia. rewrite slice_app_r, zlen_le by (rewrite ?zlen_le; lia).
    rewrite slice_app_r by lia. rewrite slice_app_l by (rewrite ?zlen_le; lia).
    replace (24 + zlen body - 20 - Z.of_nat 4 - zlen body) with 0 by lia.
    change 4 with (zlen (le 4 (ls_crc32 body))) at 1. rewrite slice_full. apply le_get_le4, crc32_range. }
  cbv zeta. rewrite R0, B4, B7, O4', R16, S20, R20. unfold LS_LEP_HEADER_SIZE.
  replace (24 + metadata_size (flags i) + payload_length i) with (24 + zlen body) by lia.
  rewrite <- O8', Rc, Sb, !Z.eqb_refl.
  destruct ((zlen data <? 24 + 4) || negb true) eqn:E1; [bool_prop; destruct E1; [blia|done]|].
  cbn [orb Z.ltb Z.compare LS_LEP_MIN_SUPPORTED_VERSION LS_LEP_MAX_SUPPORTED_VERSION negb].
  destruct ((zlen data <? _) || _ || _) eqn:E2.
  { bool_prop. destruct E2 as [E2|E2]; bool_prop; [destruct E2; blia|blia]. }
  change (1 <? LS_LEP_MIN_SUPPORTED_VERSION) with false. change (LS_LEP_MAX_SUPPORTED_VERSION <? 1) with false.
  cbn [orb negb].
  assert (is_ok (if has_flag (flags i) LS_ENVELOPE_ENCRYPTED then LS_OK
    else validate_payload (slice 24 (payload_length i) data)) = true) as ->.
  { destruct (has_flag (flags i) LS_ENVELOPE_ENCRYPTED) eqn:Ef; [done|].
    destruct (O10 eq_refl) as (fs & Hfs & Eb). unfold metadata_size in O8'. rewrite Ef in O8'.
    replace (payload_length i) with (zlen body) by lia. rewrite Sb, Eb.
    unfold validate_payload. by rewrite validate_fields_encode. }
  cbn [negb]. rewrite B5, B6, R8, R12. f_equal. rewrite <- O1. by destruct i.
Qed.

Lemma read_u32_at (a : list Z) v r o : o = zlen a -> is_u32 v -> read_u32 (a ++ le 4 v ++ r) o = v.
Proof. intros -> Hv. unfold read_u32. rewrite slice_middle by (rewrite ?zlen_le; done). by apply le_get_le4. Qed.

Lemma read_u16_at (a : list Z) v r o : o = zlen a -> is_u16 v -> read_u16 (a ++ le 2 v ++ r) o = v.
Proof. intros -> Hv. unfold read_u16. rewrite slice_middle by (rewrite ?zlen_le; done). by apply le_get_le2. Qed.

Lemma byte_at_at (a : list Z) v r o : o = zlen a -> byte_at (a ++ v :: r) o = v.
Proof. intros ->. unfold byte_at, zlen. by rewrite Nat2Z.id, list_lookup_middle by done. Qed.

Lemma le4_read data o : bytes_ok data -> 0 <= o -> o + 4 <= zlen data -> le 4 (read_u32 data o) = slice o 4 data.
Proof.
  intros Hb Ho Hz. unfold read_u32.
  rewrite <- (le_le_get (slice o 4 data)) at 2 by (by apply bytes_ok_slice).
  f_equal. by rewrite length_slice by lia.
Qed.

Lemma read_u32_range data o : bytes_ok data -> 0 <= o -> o + 4 <= zlen data -> is_u32 (read_u32 data o).
Proof. intros. apply le_get_u32; [by apply bytes_ok_slice|by apply zlen_slice]. Qed.

Lemma byte_at_slice data o : 0 <= o -> o + 1 <= zlen data -> [byte_at data o] = slice o 1 data.
Proof.
  intros Ho Hz. unfold byte_at, slice, zlen in *.
  destruct (drop (Z.to_nat o) data) as [|x l] eqn:E.
  - apply (f_equal length) in E. rewrite length_drop in E. simpl in E. lia.
  - change (take (Z.to_nat 1) (x :: l)) with [x]. f_equal.
    rewrite <- (Nat.add_0_r (Z.to_nat o)), <- lookup_drop, E. done.
Qed.

Lemma byte_at_range data o : bytes_ok data -> is_u8 (byte_at data o).
Proof.
  intros Hb. unfold byte_at. destruct (data !! Z.to_nat o) as [x|] eqn:E; simpl; [|unfold is_u8; lia].
  by eapply (Forall_lookup_1 is_u8 data).
Qed.

(** The first twenty bytes are the header of what they say. *)
Lemma header_of_bytes data i : bytes_ok data -> 20 <= zlen data -> read_u32 data 0 = LS_MAGIC ->
  i = {| version := byte_at data 4; type := byte_at data 5; architecture := byte_at data 6;
         flags := byte_at data 7; sequence := read_u32 data 8; event_id := read_u32 data 12;
         payload_length := read_u32 data 16 |} ->
  slice 0 20 data = envelope_header i.
Proof.
  intros Hb Hz Hm ->. unfold envelope_header. cbn [version type architecture flags sequence event_id payload_length].
  rewrite <- Hm, !le4_read by (done || lia).
  change [byte_at data 4; byte_at data 5; byte_at data 6; byte_at data 7] with
    ([byte_at data 4] ++ [byte_at data 5] ++ [byte_at data 6] ++ [byte_at data 7]).
  rewrite !byte_at_slice by lia. rewrite <- !app_assoc.
  change 20 with (4 + (1 + (1 + (1 + (1 + (4 + (4 + 4))))))). rewrite !slice_split by lia. done.
Qed.

Lemma slice_tail o n (l : list Z) : 0 <= o -> 0 <= n -> o + n = zlen l -> drop (Z.to_nat o) l = slice o n l.
Proof.
  intros. rewrite (drop_slice o n) by lia. rewrite (drop_ge _ (Z.to_nat (o + n))) by (unfold zlen in *; lia).
  apply app_nil_r.
Qed.

Lemma envelope_decodes data i : bytes_ok data -> ls_envelope_validate (Some data) = Ok i ->
  exists body auth, envelope_ok i body auth /\ data = envelope_bytes i body auth.
Proof.
  intros Hb H. unfold ls_envelope_validate, LS_LEP_HEADER_SIZE in H. cbv zeta in H.
  destruct ((zlen data <? _) || _) eqn:E1; [done|]. destruct ((_ <? LS_LEP_MIN_SUPPORTED_VERSION) || _) eqn:E2; [done|].
  set (fl := byte_at data 7) in *. set (plen := read_u32 data 16) in *.
  destruct (negb (flags_valid fl)) eqn:E3; [done|]. destruct (_ || _ || _) eqn:E4; [done|].
  destruct (negb (read_u32 data 20 =? _) || _) eqn:E5; [done|].
  destruct (negb (is_ok _)) eqn:E6; [done|].
  apply orb_false_iff in E1 as [E1a E1b], E2 as [E2a E2b], E5 as [E5a E5b].
  apply orb_false_iff in E4 as [E4 E4c]. apply orb_false_iff in E4 as [E4a E4b]. bool_prop.
  unfold LS_LEP_MIN_SUPPORTED_VERSION, LS_LEP_MAX_SUPPORTED_VERSION in *.
  injection H as H. symmetry in H. destruct (metadata_size_range fl) as [M1 M2].
  assert (is_u32 plen) as Hpl by (apply read_u32_range; done || lia). unfold is_u32 in Hpl.
  set (ms := metadata_size fl) in *. set (asz := authentication_size fl) in *.
  exists (slice 24 (ms + plen) data), (slice (24 + (ms + plen) + 4) asz data). split.
  - rewrite H. split; cbn [version type architecture flags sequence event_id payload_length].
    + lia.
    + by apply byte_at_range.
    + by apply byte_at_range.
    + split; [by apply byte_at_range|done].
    + apply read_u32_range; done || lia.
    + apply read_u32_range; done || lia.
    + done.
    + split; [by apply bytes_ok_slice|]. rewrite zlen_slice; lia.
    + split; [by apply bytes_ok_slice|]. rewrite zlen_slice; lia.
    + intros Hf. rewrite Hf in E6. assert (ms = 0) as Hms by (unfold ms, metadata_size; by rewrite Hf).
      rewrite Hms. apply (validate_fields_decode _ _ (bytes_ok_slice _ _ _ Hb)) in E6. exact E6.
  - pose proof (header_of_bytes data i Hb ltac:(lia) E1b H) as Hh. unfold envelope_bytes.
    rewrite <- Hh, <- E5a, le4_read by (done || lia).
    replace (24 + ms + plen) with (24 + (ms + plen)) in E5b by lia. rewrite <- E5b, le4_read by (done || lia).
    rewrite <- (slice_full data) at 1.
    replace (zlen data) with (20 + (4 + ((ms + plen) + (4 + asz)))) by lia. rewrite !slice_split by lia.
    do 4 f_equal; f_equal; lia.
Qed.

(** C14: validation is exact.  [ls_envelope_validate] accepts a byte string with
    the reported header fields exactly when it is the wire form of such an
    envelope: supported version, consistent flags, lengths that add up, matching
    checksums over header and body, and, unless it is encrypted, a payload that is
    a sequence of well-formed TLV fields. *)
Theorem envelope_validate_exact data i : bytes_ok data ->
  ls_envelope_validate (Some data) = Ok i <->
  exists body auth, envelope_ok i body auth /\ data = envelope_bytes i body auth.
Proof.
  intros Hb. split; [by apply envelope_decodes|]. intros (body & auth & Ho & ->). by apply envelope_accepts.
Qed.

Definition demo_info : ls_envelope_info_t :=
  {| version := 1; type := 3; architecture := 2; flags := 0; sequence := 9; event_id := 77; payload_length := 6 |}.

Lemma demo_envelope_ok : envelope_ok demo_info (encode_tlvs [(3, [1; 2])]) [].
Proof.
  assert (Forall tlv_ok [(3, [1; 2])]) as Hf.
  { apply Forall_cons. split; [|by apply Forall_nil]. split; cbn [fst snd]; [lia|].
    split; [done|]. repeat (apply List.Forall_cons || apply List.Forall_nil); unfold is_u8; lia. }
  split; try done; try (unfold is_u8, is_u32; simpl; lia).
  - split; [|done]. unfold encode_tlvs. simpl.
    repeat (apply List.Forall_cons || apply List.Forall_nil); by vm_compute.
  - split; [apply List.Forall_nil|done].
  - intros _. by exists [(3, [1; 2])].
Qed.

Lemma bytes_ok_envelope i body auth : envelope_ok i body auth -> bytes_ok (envelope_bytes i body auth).
Proof.
  intros [O1 O2 O3 [O4 _] _ _ _ [O8 _] [O9 _] _]. unfold envelope_bytes, envelope_header.
  repeat (apply bytes_ok_app; split); try done; try apply bytes_ok_le.
  rewrite O1. repeat (apply List.Forall_cons || apply List.Forall_nil); try done; unfold is_u8; lia.
Qed.

Lemma envelope_validate_exact_witness :
  ls_envelope_validate (Some (envelope_bytes demo_info (encode_tlvs [(3, [1; 2])]) [])) = Ok demo_info.
Proof.
  apply envelope_validate_exact.
  - apply bytes_ok_envelope. exact demo_envelope_ok.
  - exists (encode_tlvs [(3, [1; 2])]), []. split; [exact demo_envelope_ok|reflexivity].
Defined.

(** The fields of a valid envelope, which every visitor sees in order. *)
Lemma envelope_fields data i : bytes_ok data -> ls_envelope_validate (Some data) = Ok i ->
  has_flag (flags i) LS_ENVELOPE_ENCRYPTED = false ->
  exists fs, Forall tlv_ok fs /\ slice LS_LEP_HEADER_SIZE (payload_length i) data = encode_tlvs fs /\
    forall C (visitor : Z -> list Z -> st C ls_result_t) c, ls_envelope_visit visitor (Some data) c = run_visitor visitor fs c.
Proof.
  intros Hb Hv Hf. destruct (envelope_decodes data i Hb Hv) as (body & auth & Ho & Hd).
  pose proof Ho as [_ _ _ _ O5 O6 O7 [_ O8] _ O10]. destruct (O10 Hf) as (fs & Hfs & Eb).
  exists fs. unfold metadata_size in O8. rewrite Hf in O8.
  destruct (envelope_header_reads i [] ltac:(by destruct Ho) O5 O6 O7) as (Z0 & _).
  assert (slice LS_LEP_HEADER_SIZE (payload_length i) data = encode_tlvs fs) as Hs.
  { rewrite <- Eb, Hd. unfold envelope_bytes, LS_LEP_HEADER_SIZE, is_u32 in *. rewrite slice_app_r by lia.
    rewrite slice_app_r by (rewrite ?zlen_le; lia). rewrite slice_app_l by (rewrite ?zlen_le; lia).
    rewrite Z0, zlen_le. change (24 - 20 - Z.of_nat 4) with 0.
    replace (payload_length i) with (zlen body) by lia. apply slice_full. }
  split; [done|]. split; [done|].
  intros C visitor c. unfold ls_envelope_visit. rewrite Hv, Hf.
  change (default [] (Some data)) with data. unfold visit_payload. rewrite Hs. by apply visit_fields_run.
Qed.

(** Traversal is faithful.  Visiting a validated plaintext envelope calls the
    visitor on exactly the fields of its payload, in order, with their full
    values, stops at the first error of the visitor and returns it; the walk
    itself never fails. *)
Theorem envelope_visit_exact {C} (visitor : Z -> list Z -> st C ls_result_t) data i c :
  bytes_ok data -> ls_envelope_validate (Some data) = Ok i ->
  has_flag (flags i) LS_ENVELOPE_ENCRYPTED = false ->
  exists fs, Forall tlv_ok fs /\ slice LS_LEP_HEADER_SIZE (payload_length i) data = encode_tlvs fs /\
    ls_envelope_visit visitor (Some data) c = run_visitor visitor fs c.
Proof.
  intros Hb Hv Hf. destruct (envelope_fields data i Hb Hv Hf) as (fs & H1 & H2 & H3). exists fs. split; [done|]. split; [done|]. apply H3.
Qed.

Lemma envelope_visit_exact_witness :
  exists fs, Forall tlv_ok fs /\
    ls_envelope_visit (fun t v (c : list Z) => (LS_OK, t :: c))
      (Some (envelope_bytes demo_info (encode_tlvs [(3, [1; 2])]) [])) [] =
    run_visitor (fun t v (c : list Z) => (LS_OK, t :: c)) fs [].
Proof.
  destruct (envelope_visit_exact (fun t v (c : list Z) => (LS_OK, t :: c))
    (envelope_bytes demo_info (encode_tlvs [(3, [1; 2])]) []) demo_info []) as (fs & H1 & _ & H3).
  - apply bytes_ok_envelope. exact demo_envelope_ok.
  - apply envelope_accepts. exact demo_envelope_ok.
  - reflexivity.
  - exists fs. split; [exact H1|exact H3].
Defined.

(** ** The replay window, specified over unbounded sequence numbers *)

(** [None] before the first envelope; then the highest accepted number and all
    the numbers accepted so far. *)
Definition window : Type := option (Z * list Z).

Definition window_accept (x : Z) : st window bool := fun w =>
  match w with
  | None => (true, Some (x, [x]))
  | Some (m, seen) =>
      if m <? x then (true, Some (x, x :: seen))
      else if LS_ENVELOPE_REPLAY_WINDOW_SIZE <=? m - x then (false, w)
      else if bool_decide (x ∈ seen) then (false, w)
      else (true, Some (m, x :: seen))
  end.

(** The bitmap represents the part of the set within the window. *)
Definition represents (r : ls_envelope_replay_t) (w : window) : Prop :=
  match w with
  | None => initialized r = false
  | Some (m, seen) =>
      initialized r = true /\ highest_sequence r = u32 m /\ 0 <= seen_sequences r < 2 ^ 64 /\
      (forall d, 0 <= d < 64 -> Z.testbit (seen_sequences r) d = bool_decide (m - d ∈ seen)) /\
      (forall x, x ∈ seen -> x <= m)
  end.

Lemma u32_sub a b : u32 (u32 a - u32 b) = u32 (a - b).
Proof. unfold u32. by rewrite Zminus_mod_idemp_l, Zminus_mod_idemp_r. Qed.

Lemma u32_neg v : - 2 ^ 32 <= v < 0 -> u32 v = v + 2 ^ 32.
Proof. intros. symmetry. apply (Z.mod_unique _ _ (-1)); lia. Qed.

Lemma bool_decide_above (x m : Z) (seen : list Z) : (forall y, y ∈ seen -> y <= m) -> m < x -> bool_decide (x ∈ seen) = false.
Proof. intros H Hx. apply bool_decide_eq_false. intros Hin. apply H in Hin. lia. Qed.

(** A new highest number: the window slides. *)
Lemma represents_slide r m seen x f : represents r (Some (m, seen)) -> x = m + f -> 0 < f ->
  represents
    {| highest_sequence := u32 x;
       seen_sequences := if LS_ENVELOPE_REPLAY_WINDOW_SIZE <=? f then 1
                         else Z.lor (u64 (Z.shiftl (seen_sequences r) f)) 1;
       initialized := initialized r |} (Some (x, x :: seen)).
Proof.
  intros (Hi & Hh & Hr & Hb & Hm) Hx Hf. simpl. split; [done|]. split; [done|].
  assert (forall d, 0 <= d < 64 -> bool_decide (x - d ∈ x :: seen) = (d =? 0) || bool_decide (x - d ∈ seen)) as Hd.
  { intros d Hd. rewrite bool_decide_cons. f_equal. apply eq_bool_prop_intro.
    rewrite !Is_true_true, !Z.eqb_eq. lia. }
  split; [|split].
  - case_if; [lia|]. apply (lor_bound 64); [lia|apply u64_range|lia].
  - intros d Hd0. rewrite Hd by done. unfold LS_ENVELOPE_REPLAY_WINDOW_SIZE. destruct (64 <=? f) eqn:E; bool_prop.
    + rewrite (bool_decide_above (x - d) m) by (done || lia). rewrite orb_false_r.
      destruct (decide (d = 0)) as [->|]; [done|]. rewrite (testbit_above 1) by lia.
      symmetry. by apply Z.eqb_neq.
    + rewrite Z.lor_spec. unfold u64. rewrite Z.mod_pow2_bits_low by lia.
      destruct (decide (d = 0)) as [->|]; [by rewrite orb_true_r|].
      rewrite (testbit_above 1 1) by lia. rewrite orb_false_r.
      rewrite (proj2 (Z.eqb_neq d 0)) by done. simpl. destruct (Z.lt_ge_cases d f).
      * rewrite Z.shiftl_spec_low by done. symmetry. apply (bool_decide_above _ m); [done|lia].
      * rewrite Z.shiftl_spec by lia. rewrite Hb by lia. by replace (m - (d - f)) with (x - d) by lia.
  - intros y [->|Hy]%elem_of_cons; [lia|]. specialize (Hm y Hy). lia.
Qed.

(** A number inside the window that was not seen. *)
Lemma represents_mark r m seen d : represents r (Some (m, seen)) -> 0 <= d < 64 ->
  represents {| highest_sequence := highest_sequence r;
                seen_sequences := Z.lor (seen_sequences r) (2 ^ d); initialized := initialized r |}
    (Some (m, (m - d) :: seen)).
Proof.
  intros (Hi & Hh & Hr & Hb & Hm) Hd. simpl. split; [done|]. split; [done|]. split; [|split].
  - apply (lor_bound 64); [lia|done|]. split; [lia|]. apply Z.pow_lt_mono_r; lia.
  - intros e He. rewrite Z.lor_spec, Hb, bool_decide_cons by done. rewrite orb_comm. f_equal.
    destruct (decide (e = d)) as [->|].
    + by rewrite Z.pow2_bits_true, Z.eqb_refl by lia.
    + rewrite Z.pow2_bits_false by done. symmetry. apply Z.eqb_neq. lia.
  - intros y [->|Hy]%elem_of_cons; [lia|]. by apply Hm.
Qed.

(** One step of the code is one step of the specification. *)
Lemma replay_step r w x b r' :
  represents r w -> (forall m seen, w = Some (m, seen) -> Z.abs (x - m) < 2 ^ 31) ->
  ls_envelope_replay_accept (u32 x) r = (b, r') ->
  exists w', window_accept x w = (b, w') /\ represents r' w'.
Proof.
  intros Hrep Hnear H. unfold ls_envelope_replay_accept in H. destruct w as [[m seen]|].
  2:{ simpl in Hrep. rewrite Hrep in H. injection H as <- <-. eexists. split; [done|].
      simpl. split_and!; try done; try lia.
      - intros d Hd. rewrite bool_decide_cons. destruct (decide (d = 0)) as [->|].
        + by rewrite Z.sub_0_r, Z.eqb_refl.
        + rewrite (testbit_above 1) by lia. rewrite (proj2 (Z.eqb_neq (x - d) x)) by lia. done.
      - intros y [->|Hy]%elem_of_cons; [lia|]. by apply elem_of_nil in Hy. }
  specialize (Hnear m seen eq_refl). pose proof Hrep as (Hi & Hh & Hr & Hb & Hm).
  rewrite Hi, Hh, !u32_sub in H. cbn [negb] in H. unfold window_accept.
  destruct (m <? x) eqn:Ex; bool_prop.
  - rewrite (u32_id (x - m)) in H by (unfold is_u32; lia).
    destruct (negb _ && _) eqn:E; [|bool_prop; destruct E; blia].
    injection H as <- <-. eexists. split; [done|]. rewrite <- Hi.
    apply (represents_slide r m seen x (x - m)); [done|lia|lia].
  - destruct (negb (u32 (x - m) =? 0) && _) eqn:E.
    { exfalso. bool_prop. destruct (decide (x = m)) as [->|]; [rewrite Z.sub_diag in *; done|].
      rewrite u32_neg in * by lia. lia. }
    rewrite (u32_id (m - x)) in H by (unfold is_u32; lia).
    destruct (_ <=? m - x) eqn:Ew; bool_prop; [injection H as <- <-; by eexists|].
    unfold LS_ENVELOPE_REPLAY_WINDOW_SIZE in Ew.
    assert (u64 (Z.shiftl 1 (m - x)) = 2 ^ (m - x)) as Hbit.
    { rewrite Z.shiftl_mul_pow2, Z.mul_1_l by lia. apply u64_id. unfold is_u64.
      split; [lia|]. apply Z.pow_lt_mono_r; lia. }
    rewrite Hbit, testbit_pow2_land, Hb, negb_involutive in H by lia.
    replace (m - (m - x)) with x in H by lia.
    destruct (bool_decide (x ∈ seen)); injection H as <- <-; eexists; (split; [done|]); [done|].
    replace x with (m - (m - x)) at 2 by lia. rewrite <- Hi, <- Hh. apply represents_mark; [done|lia].
Qed.

(** Running either side over a list of numbers. *)
Fixpoint run_accept {S} (accept : Z -> st S bool) (xs : list Z) (s : S) : list bool :=
  match xs with
  | [] => []
  | x :: xs => let '(b, s) := accept x s in b :: run_accept accept xs s
  end.

(** The numbers a run accepted. *)
Definition accepted (xs : list Z) (bs : list bool) : list Z :=
  map fst (List.filter snd (zip xs bs)).

Lemma window_accept_max x w b m seen : window_accept x w = (b, Some (m, seen)) ->
  m = x \/ exists s0, w = Some (m, s0).
Proof.
  unfold window_accept. intros H. destruct w as [[m0 s0]|]; [|left; congruence].
  repeat case_if; simplify_eq; eauto.
Qed.

Lemma replay_run xs ys r w :
  represents r w -> (forall m seen, w = Some (m, seen) -> m ∈ ys) ->
  (forall x y, x ∈ xs ++ ys -> y ∈ xs ++ ys -> Z.abs (x - y) < 2 ^ 31) ->
  run_accept (fun x => ls_envelope_replay_accept (u32 x)) xs r = run_accept window_accept xs w.
Proof.
  revert ys r w. induction xs as [|x xs IH]; intros ys r w Hrep Hys Hnear; [done|]. simpl.
  destruct (ls_envelope_replay_accept (u32 x) r) as [b r'] eqn:E.
  apply (replay_step r w) in E as (w' & Hw & Hrep'); [|done|].
  2:{ intros m seen Hm. apply Hnear; apply elem_of_app; [left; by left|right; by eapply Hys]. }
  rewrite Hw. f_equal. apply (IH (x :: ys)); [done| |].
  - intros m seen ->. apply window_accept_max in Hw as [->|[s0 Hs]]; [by left|right; by eapply Hys].
  - intros a c Ha Hc. apply Hnear; rewrite ?elem_of_app, ?elem_of_cons in *; tauto.
Qed.

(** The specification accepts a number at most once. *)
Lemma window_run_nodup xs w seen0 :
  match w with None => seen0 = [] | Some (m, seen) => seen0 = seen /\ forall y, y ∈ seen -> y <= m end ->
  NoDup (accepted xs (run_accept window_accept xs w)) /\
  forall x, x ∈ accepted xs (run_accept window_accept xs w) -> x ∉ seen0.
Proof.
  revert w seen0. induction xs as [|x xs IH]; intros w seen0 Hw; simpl;
    [split; [constructor|intros x Hx; by apply elem_of_nil in Hx]|].
  destruct (window_accept x w) as [b w'] eqn:E. unfold accepted. cbn [zip zip_with List.filter snd].
  assert (((x ∉ seen0) /\ match w' with None => False
    | Some (m, seen) => seen = x :: seen0 /\ (forall y, y ∈ seen -> y <= m) end) \/ (b = false /\ w' = w)) as [[Hx Hw']|[-> ->]].
  { unfold window_accept in E. destruct w as [[m seen]|].
    - destruct Hw as [-> Hm]. destruct (m <? x) eqn:Ex; bool_prop.
      { simplify_eq. left. split; [intros Hin; apply Hm in Hin; lia|]. split; [done|].
        intros y [->|Hy]%elem_of_cons; [lia|]. specialize (Hm y Hy). lia. }
      destruct (_ <=? _) eqn:Ew; [right; by simplify_eq|].
      destruct (bool_decide (x ∈ seen)) eqn:Ed; [right; by simplify_eq|]. simplify_eq. left.
      apply bool_decide_eq_false in Ed. split; [done|]. split; [done|].
      intros y [->|Hy]%elem_of_cons; [lia|by apply Hm].
    - subst. simplify_eq. left. split; [apply not_elem_of_nil|]. split; [done|].
      intros y [->|Hy]%elem_of_cons; [lia|by apply elem_of_nil in Hy]. }
  - destruct w' as [[m seen]|]; [|done]. destruct Hw' as [-> Hm].
    destruct (IH (Some (m, x :: seen0)) (x :: seen0) ltac:(done)) as [I1 I2]. unfold accepted in I1, I2.
    destruct b; cbn [map fst].
    + split; [constructor; [|done]|].
      * intros Hin. apply I2 in Hin. apply Hin. by left.
      * intros y [->|Hy]%elem_of_cons; [done|]. apply I2 in Hy. intros ?. apply Hy. by right.
    + split; [done|]. intros y Hy. apply I2 in Hy. intros ?. apply Hy. by right.
  - apply IH. done.
Qed.

(** C16: the replay window implements its specification.  For sequence numbers
    that stay within half the 32-bit space of each other, wrap-around included,
    the 64-bit bitmap gives the same verdicts as a set of all numbers accepted so
    far: a number above the highest is accepted, one 64 or more behind is
    rejected, one in between is accepted unless it was accepted before; so no
    number is ever accepted twice. *)
Theorem replay_window_refines xs :
  (forall x y, x ∈ xs -> y ∈ xs -> Z.abs (x - y) < 2 ^ 31) ->
  let verdicts := run_accept (fun x => ls_envelope_replay_accept (u32 x)) xs ls_envelope_replay_reset in
  verdicts = run_accept window_accept xs None /\ NoDup (accepted xs verdicts).
Proof.
  intros Hnear verdicts. assert (verdicts = run_accept window_accept xs None) as ->.
  { apply (replay_run xs []); [done|done|]. intros x y. rewrite app_nil_r. apply Hnear. }
  split; [done|]. by apply (window_run_nodup xs None []).
Qed.

Lemma replay_window_refines_witness :
  NoDup (accepted [4294967295; 4294967296; 4294967295; 4294967297]
    (run_accept (fun x => ls_envelope_replay_accept (u32 x))
       [4294967295; 4294967296; 4294967295; 4294967297] ls_envelope_replay_reset)).
Proof.
  refine (proj2 (replay_window_refines [4294967295; 4294967296; 4294967295; 4294967297] _)).
  intros x y Hx Hy.
  repeat (apply elem_of_cons in Hx as [->|Hx]);
    repeat (apply elem_of_cons in Hy as [->|Hy]); try lia;
    try (by apply elem_of_nil in Hx); by apply elem_of_nil in Hy.
Defined.
