(* ===== verification/Security.v ===== *)
(** * Session key, policy and crypto provider ([src/security/provider.c] and the second
    half of [src/security/sha256.c])

    The key and policy the envelopes are protected with, the random source, the
    optional external provider with its known-answer test, and the dispatch between it
    and the built-in primitives. *)

From S2P Require Import Prelude Util Poly1305 Chacha Sha256 Aead Envelope.

Definition LS_SECURITY_KEY_SIZE : Z := 32.
Definition LS_XCHACHA20_NONCE_SIZE : Z := 24.
Definition LS_REQUIRE_EXTERNAL_CRYPTO_PROVIDER : bool := false.
Definition LS_MIN_CRYPTO_ASSURANCE : Z := 3.
Definition LS_CRYPTO_ASSURANCE_TEST_ONLY : Z := 1.
Definition LS_SECURITY_HMAC_SHA256 : Z := 1.
Definition LS_SECURITY_XCHACHA20_POLY1305 : Z := 2.

Record ls_security_policy_t : Type := {
  sp_algorithm : Z;
  sp_key_id : Z;
  sp_reject_plaintext : bool;
  sp_allow_legacy_hmac : bool
}.

(** The integrator's provider, over the state [X] behind its callbacks. The lengths of
    the buffers are those of the lists; [out] tells whether [plaintext] is set. *)
Record ls_crypto_provider_t (X : Type) : Type := {
  cp_name : option (list Z);
  cp_version : option (list Z);
  cp_audit_reference : option (list Z);
  cp_assurance : Z;
  cp_hkdf_sha256 : option (list Z -> list Z -> list Z -> Z -> st X (res (list Z)));
  cp_encrypt : option (list Z -> list Z -> list Z -> list Z -> st X (res (list Z * list Z)));
  cp_decrypt : option (list Z -> list Z -> list Z -> list Z -> ptr -> list Z -> st X (res (list Z)))
}.
Arguments cp_name {X} _.
Arguments cp_version {X} _.
Arguments cp_audit_reference {X} _.
Arguments cp_assurance {X} _.
Arguments cp_hkdf_sha256 {X} _.
Arguments cp_encrypt {X} _.
Arguments cp_decrypt {X} _.

(** The security fields of [ls_runtime]; [world] is the state behind the random source
    and the provider. *)
Record security_runtime (X : Type) : Type := mk_security {
  s_key : list Z;
  s_key_length : Z;
  s_policy : ls_security_policy_t;
  s_random : option (Z -> st X (res (list Z)));
  s_provider : option (ls_crypto_provider_t X);
  s_last_nonce : list Z;
  s_has_last_nonce : bool;
  s_replay_highest : Z;
  s_replay_bitmap : Z;
  s_world : X
}.
Arguments mk_security {X} _ _ _ _ _ _ _ _ _ _.
Arguments s_key {X} _.
Arguments s_key_length {X} _.
Arguments s_policy {X} _.
Arguments s_random {X} _.
Arguments s_provider {X} _.
Arguments s_last_nonce {X} _.
Arguments s_has_last_nonce {X} _.
Arguments s_replay_highest {X} _.
Arguments s_replay_bitmap {X} _.
Arguments s_world {X} _.

Section Security.
Context {X : Type}.
Local Abbreviation rt := (security_runtime X).

(** Field updates. *)
Definition with_key (key : list Z) (length_ : Z) (s : rt) : rt :=
  mk_security key length_ (s_policy s) (s_random s) (s_provider s) (fill 24 0) false
    (s_replay_highest s) (s_replay_bitmap s) (s_world s).
Definition with_policy (p : ls_security_policy_t) (s : rt) : rt :=
  mk_security (s_key s) (s_key_length s) p (s_random s) (s_provider s) (s_last_nonce s) (s_has_last_nonce s)
    (s_replay_highest s) (s_replay_bitmap s) (s_world s).
Definition with_random (r : option (Z -> st X (res (list Z)))) (s : rt) : rt :=
  mk_security (s_key s) (s_key_length s) (s_policy s) r (s_provider s) (s_last_nonce s) (s_has_last_nonce s)
    (s_replay_highest s) (s_replay_bitmap s) (s_world s).
Definition with_provider (p : option (ls_crypto_provider_t X)) (s : rt) : rt :=
  mk_security (s_key s) (s_key_length s) (s_policy s) (s_random s) p (s_last_nonce s) (s_has_last_nonce s)
    (s_replay_highest s) (s_replay_bitmap s) (s_world s).
Definition with_nonce (nonce : list Z) (s : rt) : rt :=
  mk_security (s_key s) (s_key_length s) (s_policy s) (s_random s) (s_provider s) nonce true
    (s_replay_highest s) (s_replay_bitmap s) (s_world s).
Definition with_replay (highest bitmap : Z) (s : rt) : rt :=
  mk_security (s_key s) (s_key_length s) (s_policy s) (s_random s) (s_provider s) (s_last_nonce s)
    (s_has_last_nonce s) highest bitmap (s_world s).

(** A callback. *)
Definition on_world {A} (f : st X A) : st rt A := fun s =>
  let '(a, x) := f (s_world s) in
  (a, mk_security (s_key s) (s_key_length s) (s_policy s) (s_random s) (s_provider s) (s_last_nonce s)
        (s_has_last_nonce s) (s_replay_highest s) (s_replay_bitmap s) x).

(** ** The key and the policy *)

Definition ls_security_set_key (key : option (list Z)) (length_ : Z) : st rt ls_result_t := fun s =>
  match key with
  | None => (LS_EINVAL, s)
  | Some key =>
      if negb (length_ =? LS_SECURITY_KEY_SIZE) then (LS_EINVAL, s)
      else (LS_OK, with_key (slice 0 length_ key) length_ s)
  end.

Definition security_clear_key : st rt unit := fun s => (tt, with_key (fill 32 0) 0 s).

Definition ls_security_enabled (s : rt) : bool := negb (s_key_length s =? 0).

Definition ls_security_set_policy (policy : option ls_security_policy_t) : st rt ls_result_t := fun s =>
  match policy with
  | None => (LS_EINVAL, s)
  | Some p =>
      if LS_REQUIRE_EXTERNAL_CRYPTO_PROVIDER && (sp_algorithm p =? LS_SECURITY_HMAC_SHA256) then (LS_ENOTSUP, s)
      else if (negb (sp_algorithm p =? LS_SECURITY_HMAC_SHA256) &&
               negb (sp_algorithm p =? LS_SECURITY_XCHACHA20_POLY1305)) ||
              (sp_key_id p =? 0) ||
              ((sp_algorithm p =? LS_SECURITY_HMAC_SHA256) && negb (sp_allow_legacy_hmac p))
      then (LS_EINVAL, s)
      else (LS_OK, with_policy p s)
  end.

Definition ls_security_get_policy (s : rt) : ls_security_policy_t := s_policy s.

Definition ls_security_set_random_provider (random : option (Z -> st X (res (list Z)))) : st rt unit :=
  fun s => (tt, with_random random s).

(** [ls_security_random] with a buffer; on an error of the source the buffer is zeroed. *)
Definition ls_security_random (length_ : Z) : st rt (ls_result_t * list Z) := fun s =>
  match s_random s with
  | None => ((LS_ENOTSUP, []), s)
  | Some random =>
      let '(r, s) := on_world (random length_) s in
      match r with
      | Ok bytes => ((LS_OK, bytes), s)
      | Err e => ((e, fill length_ 0), s)
      end
  end.

Definition ls_replay_accept (seq : Z) : st rt bool := fun s =>
  let replay := {| highest_sequence := s_replay_highest s; seen_sequences := s_replay_bitmap s;
                   initialized := negb (s_replay_bitmap s =? 0) |} in
  let '(accepted, replay) := ls_envelope_replay_accept seq replay in
  (accepted, with_replay (highest_sequence replay) (seen_sequences replay) s).

(** ** The provider *)

Definition assurance_meets_policy (assurance : Z) : bool :=
  if LS_REQUIRE_EXTERNAL_CRYPTO_PROVIDER then LS_MIN_CRYPTO_ASSURANCE <=? assurance else true.

Definition bytes_equal (a b : list Z) (n : Z) : bool :=
  foldl (fun diff i => Z.lor diff (u8 (Z.lxor (byte_at a (Z.of_nat i)) (byte_at b (Z.of_nat i))))) 0
    (List.seq 0 (Z.to_nat n)) =? 0.

Definition hkdf_expected : list Z :=
  [0x3a; 0x86; 0xcb; 0x5c; 0x29; 0xf9; 0x3d; 0x75; 0xc0; 0x47; 0x72; 0x15; 0x44; 0x3d;
   0x0f; 0x87; 0x50; 0x4b; 0x49; 0x3c; 0x92; 0x6f; 0xa3; 0x7c; 0xb0; 0xa3; 0x16; 0x7c;
   0xee; 0xbf; 0x28; 0xef; 0x0a; 0xe4; 0x39; 0x67; 0x1b; 0xc2; 0xe0; 0xe2; 0x4b; 0xa2].
Definition ciphertext_expected : list Z :=
  [0xfd; 0xad; 0x62; 0x12; 0xf5; 0xa0; 0xee; 0xc7; 0x52; 0x28; 0x0b; 0xaf; 0xbe; 0x24].
Definition tag_expected : list Z :=
  [0x1a; 0x9c; 0x63; 0xdf; 0xbc; 0xbe; 0xea; 0x1e; 0x45; 0x8a; 0x47; 0x90; 0xd7; 0xb5; 0x9d; 0xf1].

Definition kat_salt : list Z := map Z.of_nat (List.seq 0 13).
Definition kat_ikm : list Z := map (fun i => Z.of_nat i + 32) (List.seq 0 32).
Definition kat_key : list Z := map Z.of_nat (List.seq 0 32).
Definition kat_nonce : list Z := map Z.of_nat (List.seq 0 24).

(** [tag[0] ^= 1u]. *)
Definition flip_first (tag : list Z) : list Z :=
  match tag with [] => [] | t :: tag => Z.lxor t 1 :: tag end.

(** The three callbacks of a complete provider. *)
Definition provider_known_answer_test
    (hkdf : list Z -> list Z -> list Z -> Z -> st X (res (list Z)))
    (encrypt : list Z -> list Z -> list Z -> list Z -> st X (res (list Z * list Z)))
    (decrypt : list Z -> list Z -> list Z -> list Z -> ptr -> list Z -> st X (res (list Z)))
  : st X ls_result_t := fun x =>
  let aad := str "Latch provider KAT" in
  let plaintext := str "commercial-auv" in
  let '(r, x) := hkdf kat_salt kat_ikm (str "Latch HKDF KAT") 42 x in
  match r with
  | Err _ => (LS_EAUTH, x)
  | Ok okm =>
      if negb (bytes_equal okm hkdf_expected 42) then (LS_EAUTH, x)
      else
        let '(r, x) := encrypt kat_key kat_nonce aad plaintext x in
        match r with
        | Err _ => (LS_EAUTH, x)
        | Ok (ciphertext, tag) =>
            if negb (bytes_equal ciphertext ciphertext_expected 14) || negb (bytes_equal tag tag_expected 16)
            then (LS_EAUTH, x)
            else
              let '(r, x) := decrypt kat_key kat_nonce aad ciphertext SET tag x in
              match r with
              | Err _ => (LS_EAUTH, x)
              | Ok recovered =>
                  if negb (bytes_equal recovered plaintext 14) then (LS_EAUTH, x)
                  else
                    let '(r, x) := decrypt kat_key kat_nonce aad ciphertext SET (flip_first tag) x in
                    ((match r with Err LS_EAUTH => LS_OK | _ => LS_EAUTH end), x)
              end
        end
  end.

(** [!p || !p[0]]. *)
Definition blank (p : option (list Z)) : bool :=
  match p with Some (_ :: _) => false | _ => true end.

Definition ls_security_set_crypto_provider (provider : option (ls_crypto_provider_t X)) : st rt ls_result_t :=
  fun s =>
  match provider with
  | None => (LS_EINVAL, s)
  | Some p =>
      if blank (cp_name p) || blank (cp_version p) || blank (cp_audit_reference p) then (LS_EINVAL, s)
      else
        match cp_hkdf_sha256 p, cp_encrypt p, cp_decrypt p with
        | Some hkdf, Some encrypt, Some decrypt =>
            if negb (assurance_meets_policy (cp_assurance p)) then (LS_EAUTH, s)
            else
              let '(kat, s) := on_world (provider_known_answer_test hkdf encrypt decrypt) s in
              if negb (is_ok kat) then (kat, s) else (LS_OK, with_provider (Some p) s)
        | _, _, _ => (LS_EINVAL, s)
        end
  end.

Definition ls_security_clear_crypto_provider : st rt unit := fun s => (tt, with_provider None s).

Definition ls_security_crypto_provider_name (s : rt) : option (list Z) :=
  match s_provider s with Some p => cp_name p | None => Some (str "builtin-unqualified") end.
Definition ls_security_crypto_provider_assurance (s : rt) : Z :=
  match s_provider s with Some p => cp_assurance p | None => LS_CRYPTO_ASSURANCE_TEST_ONLY end.
Definition ls_security_crypto_provider_audit_reference (s : rt) : option (list Z) :=
  match s_provider s with Some p => cp_audit_reference p | None => Some (str "none") end.

Definition ls_security_crypto_provider_ready (s : rt) : bool :=
  if LS_REQUIRE_EXTERNAL_CRYPTO_PROVIDER
  then match s_provider s with Some p => assurance_meets_policy (cp_assurance p) | None => false end
  else true.

Definition require_provider_if_configured (s : rt) : ls_result_t :=
  if ls_security_crypto_provider_ready s then LS_OK else LS_EAUTH.

(** The callbacks of an installed provider are set: [ls_security_set_crypto_provider]
    checked them. *)
Definition ls_crypto_hkdf_sha256 (salt ikm info : list Z) (output_length : Z) : st rt (res (list Z)) := fun s =>
  let gate := require_provider_if_configured s in
  if negb (is_ok gate) then (Err gate, s)
  else match s_provider s with
       | Some p => match cp_hkdf_sha256 p with
                   | Some hkdf => on_world (hkdf salt ikm info output_length) s
                   | None => (Err LS_EINVAL, s)
                   end
       | None => (ls_hkdf_sha256 (Some salt) (zlen salt) (Some ikm) (zlen ikm) (Some info) (zlen info)
                    SET output_length, s)
       end.

Definition ls_crypto_xchacha20_poly1305_encrypt (key nonce aad plaintext : list Z) : st rt (res (list Z * list Z)) :=
  fun s =>
  let gate := require_provider_if_configured s in
  if negb (is_ok gate) then (Err gate, s)
  else match s_provider s with
       | Some p => match cp_encrypt p with
                   | Some encrypt => on_world (encrypt key nonce aad plaintext) s
                   | None => (Err LS_EINVAL, s)
                   end
       | None => (seal key nonce aad plaintext, s)
       end.

Definition ls_crypto_xchacha20_poly1305_decrypt (key nonce aad ciphertext : list Z) (out : ptr) (tag : list Z)
  : st rt (res (list Z)) := fun s =>
  let gate := require_provider_if_configured s in
  if negb (is_ok gate) then (Err gate, s)
  else match s_provider s with
       | Some p => match cp_decrypt p with
                   | Some decrypt => on_world (decrypt key nonce aad ciphertext out tag) s
                   | None => (Err LS_EINVAL, s)
                   end
       | None => (open key nonce aad ciphertext out tag, s)
       end.
End Security.

(** ** The provider gate *)

(** The built-in primitives as a provider: they pass the known-answer test. *)
Definition builtin_hkdf {X} (salt ikm info : list Z) (n : Z) : st X (res (list Z)) := fun x =>
  (ls_hkdf_sha256 (Some salt) (zlen salt) (Some ikm) (zlen ikm) (Some info) (zlen info) SET n, x).
Definition builtin_encrypt {X} (key nonce aad pt : list Z) : st X (res (list Z * list Z)) := fun x =>
  (seal key nonce aad pt, x).
Definition builtin_decrypt {X} (key nonce aad ct : list Z) (out : ptr) (tag : list Z) : st X (res (list Z)) := fun x =>
  (open key nonce aad ct out tag, x).

Example builtin_passes_kat :
  fst (provider_known_answer_test builtin_hkdf builtin_encrypt builtin_decrypt tt) = LS_OK.
Proof. vm_compute. done. Qed.

(** Installed providers are complete. *)
Definition provider_complete {X} (s : security_runtime X) : Prop :=
  match s_provider s with
  | None => True
  | Some p => is_Some (cp_hkdf_sha256 p) /\ is_Some (cp_encrypt p) /\ is_Some (cp_decrypt p)
  end.

(** Installing a crypto provider succeeds only for a complete provider whose known-answer
    test passes on the state the callbacks are in, and then decryption goes to its
    callback; otherwise the provider installed before, or the built-in primitives, stay in
    force. Key and policy are kept either way. *)
Theorem provider_gate {X} (p : option (ls_crypto_provider_t X)) s r s' :
  ls_security_set_crypto_provider p s = (r, s') -> provider_complete s ->
  provider_complete s' /\ s_key s' = s_key s /\ s_policy s' = s_policy s /\
  match r with
  | LS_OK => exists q hkdf encrypt decrypt, p = Some q /\ s_provider s' = Some q /\
      cp_hkdf_sha256 q = Some hkdf /\ cp_encrypt q = Some encrypt /\ cp_decrypt q = Some decrypt /\
      fst (provider_known_answer_test hkdf encrypt decrypt (s_world s)) = LS_OK /\
      (forall key nonce aad ct out tag t,
         s_provider t = Some q ->
         ls_crypto_xchacha20_poly1305_decrypt key nonce aad ct out tag t =
           on_world (decrypt key nonce aad ct out tag) t)
  | _ => s_provider s' = s_provider s
  end.
Proof.
  unfold ls_security_set_crypto_provider, provider_complete. destruct p as [q|]; [|by intros [= <- <-]].
  case_if; [by intros [= <- <-]|].
  destruct (cp_hkdf_sha256 q) as [hkdf|] eqn:Eh, (cp_encrypt q) as [encrypt|] eqn:Ee,
    (cp_decrypt q) as [decrypt|] eqn:Ed; try by intros [= <- <-].
  cbn [negb assurance_meets_policy LS_REQUIRE_EXTERNAL_CRYPTO_PROVIDER].
  unfold on_world at 1. destruct (provider_known_answer_test _ _ _ _) as [kat x] eqn:Ek.
  destruct (is_ok kat) eqn:Eo; cbn [negb]; intros [= <- <-] Hc; cbn [s_provider with_provider s_key s_policy].
  - rewrite Eh, Ee, Ed. split; [by eauto|]. do 2 (split; [done|]). exists q, hkdf, encrypt, decrypt.
    bool_prop. subst kat. repeat split; try done; [by rewrite Ek|].
    intros ?????? t Ht. unfold ls_crypto_xchacha20_poly1305_decrypt. by rewrite Ht, Ed.
  - bool_prop. repeat split; try done. by destruct kat.
Qed.

Definition demo_provider : ls_crypto_provider_t Z := {|
  cp_name := Some (str "psa"); cp_version := Some (str "1"); cp_audit_reference := Some (str "r1"); cp_assurance := 3;
  cp_hkdf_sha256 := Some builtin_hkdf; cp_encrypt := Some builtin_encrypt; cp_decrypt := Some builtin_decrypt |}.

Definition demo_security : security_runtime Z :=
  mk_security (fill 32 0x5a) 32
    {| sp_algorithm := 2; sp_key_id := 9; sp_reject_plaintext := true; sp_allow_legacy_hmac := false |}
    (Some (fun n x => (Ok (map (fun i => u8 (x + Z.of_nat i)) (List.seq 0 (Z.to_nat n))), x + 1)))
    None (fill 24 0) false 0 0 7.

Lemma provider_gate_witness :
  let run := ls_security_set_crypto_provider (Some demo_provider) demo_security in
  fst run = LS_OK /\ s_provider (snd run) = Some demo_provider /\ provider_complete (snd run).
Proof.
  intros run. assert (fst run = LS_OK) as E by (vm_compute; reflexivity).
  destruct (provider_gate (Some demo_provider) demo_security (fst run) (snd run) (surjective_pairing run) I)
    as (H1 & _ & _ & H2).
  rewrite E in H2. destruct H2 as (q & _ & _ & _ & [= <-] & H2 & _).
  split; [exact E|]. split; [exact H2|exact H1].
Defined.
