(* ===== verification/FaultInjection.v ===== *)
(** * Deterministic fault injection ([src/core/fault_injection.c])

    A table of armed injection points, looked up by the hash of their name, and
    the platform state that every storage routine runs on: the table and the
    state of the device below. *)

From S2P Require Import Prelude Util.

Definition LS_FAULT_INJECTION_CAPACITY : nat := 16.

Record ls_fault_injection_state_t : Type := {
  name_hash : Z;
  hits : Z;
  trigger_hit : Z;
  result : ls_result_t;
  armed : bool;
}.

(** [memset(state, 0, sizeof *state)]. *)
Definition fi_zero : ls_fault_injection_state_t :=
  {| name_hash := 0; hits := 0; trigger_hit := 0; result := LS_OK; armed := false |}.

(** [ls_runtime.fault_injections] and [ls_runtime.fault_injection_active]. *)
Record fault_table : Type := {
  fault_injections : list ls_fault_injection_state_t;
  fault_injection_active : bool;
}.

(** The index of the first slot that satisfies a test. *)
Fixpoint first_slot {A} (test : A -> bool) (l : list A) : option nat :=
  match l with
  | [] => None
  | a :: l => if test a then Some O else S <$> first_slot test l
  end.

Definition is_armed_for (hash : Z) (s : ls_fault_injection_state_t) : bool :=
  armed s && (name_hash s =? hash).

(** [find_state]: the slot index of the armed point with that hash. *)
Definition find_state (hash : Z) (t : fault_table) : option nat :=
  first_slot (is_armed_for hash) (fault_injections t).

Definition ls_fault_injection_arm (name : option (list Z)) (trigger : Z) (r : ls_result_t)
  : st fault_table ls_result_t := fun t =>
  match name with
  | None | Some [] => (LS_EINVAL, t)
  | Some _ =>
      if (trigger =? 0) || is_ok r then (LS_EINVAL, t)
      else
        let hash := ls_hash_string name in
        let state :=
          match find_state hash t with
          | Some i => Some i
          | None => first_slot (fun s => negb (armed s)) (fault_injections t)
          end in
        match state with
        | None => (LS_ENOSPACE, t)
        | Some i =>
            (LS_OK,
             {| fault_injections :=
                  <[i := {| name_hash := hash; hits := 0; trigger_hit := trigger;
                            result := r; armed := true |}]> (fault_injections t);
                fault_injection_active := true |})
        end
  end.

Definition ls_fault_injection_disarm (name : option (list Z)) : st fault_table unit := fun t =>
  match name with
  | None => (tt, t)
  | Some _ =>
      let l :=
        match find_state (ls_hash_string name) t with
        | Some i => <[i := fi_zero]> (fault_injections t)
        | None => fault_injections t
        end in
      (tt, {| fault_injections := l; fault_injection_active := existsb armed l |})
  end.

Definition ls_fault_injection_clear : st fault_table unit := fun t =>
  (tt, {| fault_injections := replicate LS_FAULT_INJECTION_CAPACITY fi_zero;
          fault_injection_active := false |}).

Definition count_hit (s : ls_fault_injection_state_t) : ls_fault_injection_state_t :=
  {| name_hash := name_hash s;
     hits := if negb (hits s =? UINT32_MAX) then hits s + 1 else hits s;
     trigger_hit := trigger_hit s; result := result s; armed := armed s |}.

Definition ls_fault_injection_hit (name : option (list Z)) : st fault_table ls_result_t := fun t =>
  match name with
  | None => (LS_EINVAL, t)
  | Some _ =>
      if negb (fault_injection_active t) then (LS_OK, t)
      else
        match find_state (ls_hash_string name) t with
        | None => (LS_OK, t)
        | Some i =>
            match fault_injections t !! i with
            | None => (LS_OK, t)
            | Some s =>
                let s := count_hit s in
                (if hits s =? trigger_hit s then result s else LS_OK,
                 {| fault_injections := <[i := s]> (fault_injections t);
                    fault_injection_active := fault_injection_active t |})
            end
        end
  end.

Definition ls_fault_injection_get (name : option (list Z)) (state : ptr)
  : st fault_table (res ls_fault_injection_state_t) := fun t =>
  match name with
  | None => (Err LS_EINVAL, t)
  | Some _ =>
      if negb state then (Err LS_EINVAL, t)
      else
        match find_state (ls_hash_string name) t with
        | None => (Err LS_EAGAIN, t)
        | Some i =>
            match fault_injections t !! i with
            | None => (Err LS_EAGAIN, t)
            | Some s => (Ok s, t)
            end
        end
  end.

(** ** The platform: fault table and device *)

Record platform (D : Type) : Type := {
  faults : fault_table;
  dev : D;
}.
Arguments faults {D} _.
Arguments dev {D} _.
Arguments Build_platform {D} _ _.

Definition set_dev {D} (d : D) (p : platform D) : platform D :=
  {| faults := faults p; dev := d |}.

(** [ls_fault_injection_hit("...")] as the storage routines call it. *)
Definition hit {D} (name : string) : st (platform D) ls_result_t := fun p =>
  let '(r, t) := ls_fault_injection_hit (Some (str name)) (faults p) in
  (r, {| faults := t; dev := dev p |}).

Definition no_faults : fault_table :=
  {| fault_injections := replicate LS_FAULT_INJECTION_CAPACITY fi_zero;
     fault_injection_active := false |}.

(** ** Lemmas *)

(** An injection point never touches the device. *)
Lemma hit_dev {D} name (p p' : platform D) r : hit name p = (r, p') -> dev p' = dev p.
Proof. unfold hit. destruct (ls_fault_injection_hit _ _). by intros [= <- <-]. Qed.

(** With nothing armed, an injection point is free of effects. *)
Lemma hit_inactive {D} name (p : platform D) :
  fault_injection_active (faults p) = false -> hit name p = (LS_OK, p).
Proof. intros H. unfold hit, ls_fault_injection_hit. rewrite H. by destruct p. Qed.

Section FirstSlot.
Context {A : Type} (test : A -> bool).

Lemma first_slot_Some l i : first_slot test l = Some i ->
  exists a, l !! i = Some a /\ test a = true /\
    (forall j b, (j < i)%nat -> l !! j = Some b -> test b = false).
Proof.
  revert i. induction l as [|a l IH]; intros i H; simpl in H; [done|].
  destruct (test a) eqn:E.
  - simplify_eq. exists a. split; [done|]. split; [done|]. intros; lia.
  - apply fmap_Some in H as (k & Hk & ->). destruct (IH k Hk) as (b & Hb & Ht & Hmin).
    exists b. split; [done|]. split; [done|].
    intros [|j] c Hj Hc; simpl in Hc; [congruence|]. eapply Hmin; [|done]. lia.
Qed.

Lemma first_slot_here l i a :
  l !! i = Some a -> test a = true ->
  (forall j b, (j < i)%nat -> l !! j = Some b -> test b = false) -> first_slot test l = Some i.
Proof.
  revert i. induction l as [|c l IH]; intros i Hi Ha Hmin; [done|]. simpl.
  destruct i as [|i]; simpl in Hi.
  - simplify_eq. by rewrite Ha.
  - rewrite (Hmin O c) by (done || lia). rewrite (IH i); [done..|].
    intros j b Hj Hb. apply (Hmin (S j) b); [lia|done].
Qed.

Lemma first_slot_None l : first_slot test l = None ->
  forall j b, l !! j = Some b -> test b = false.
Proof.
  induction l as [|c l IH]; intros H j b Hj; [done|]. simpl in H.
  destruct (test c) eqn:E; [done|]. apply fmap_None in H.
  destruct j; simpl in Hj; [congruence|]. by eapply IH.
Qed.
End FirstSlot.

(** Arming makes the point the one its name finds. *)
Lemma arm_find name trigger r t t' :
  ls_fault_injection_arm (Some name) trigger r t = (LS_OK, t') ->
  let hash := ls_hash_string (Some name) in
  exists i, find_state hash t' = Some i /\ fault_injection_active t' = true /\
    fault_injections t' !! i =
      Some {| name_hash := hash; hits := 0; trigger_hit := trigger; result := r; armed := true |}.
Proof.
  unfold ls_fault_injection_arm. destruct name as [|c name]; [done|]. cbv zeta.
  set (hash := ls_hash_string _). case_if; [done|].
  set (slot := match find_state hash t with Some i => Some i | None => _ end).
  destruct slot as [i|] eqn:Es; [|done]. intros [= <-]. exists i.
  assert (exists a, fault_injections t !! i = Some a /\
    forall j b, (j < i)%nat -> fault_injections t !! j = Some b -> is_armed_for hash b = false)
    as (a & Ha & Hmin).
  { unfold slot in Es. destruct (find_state hash t) as [k|] eqn:Ef.
    - simplify_eq. apply first_slot_Some in Ef as (a & ? & _ & ?). eauto.
    - apply first_slot_Some in Es as (a & Ha & _). exists a. split; [done|].
      intros j b _ Hb. by eapply first_slot_None. }
  apply lookup_lt_Some in Ha as Hlt.
  simpl. split; [|split; [done|by apply list_lookup_insert_eq]].
  eapply first_slot_here; simpl.
  - by apply list_lookup_insert_eq.
  - unfold is_armed_for. simpl. apply Z.eqb_refl.
  - intros j b Hj Hb. rewrite list_lookup_insert_ne in Hb by lia. by eapply Hmin.
Qed.

(** A hit on an armed point counts it and leaves it in place. *)
Lemma hit_step name t i s :
  fault_injection_active t = true -> find_state (ls_hash_string (Some name)) t = Some i ->
  fault_injections t !! i = Some s ->
  exists t', ls_fault_injection_hit (Some name) t =
      (if hits (count_hit s) =? trigger_hit s then result s else LS_OK, t') /\
    fault_injection_active t' = true /\
    find_state (ls_hash_string (Some name)) t' = Some i /\
    fault_injections t' !! i = Some (count_hit s).
Proof.
  intros Ha Hf Hs. unfold ls_fault_injection_hit. rewrite Ha, Hf, Hs. cbn [negb].
  eexists. split; [done|]. apply lookup_lt_Some in Hs as Hlt. simpl.
  apply first_slot_Some in Hf as (a & Ha' & Htest & Hmin).
  split; [done|]. split; [|by apply list_lookup_insert_eq].
  eapply first_slot_here; simpl.
  - by apply list_lookup_insert_eq.
  - simplify_eq. done.
  - intros j b Hj Hb. rewrite list_lookup_insert_ne in Hb by lia. by eapply Hmin.
Qed.

(** The results of [n] successive hits. *)
Fixpoint hit_results (name : list Z) (n : nat) (t : fault_table) : list ls_result_t :=
  match n with
  | O => []
  | S n => let '(r, t') := ls_fault_injection_hit (Some name) t in r :: hit_results name n t'
  end.

Lemma hit_results_spec name n t i s :
  fault_injection_active t = true -> find_state (ls_hash_string (Some name)) t = Some i ->
  fault_injections t !! i = Some s -> 0 <= hits s -> hits s + Z.of_nat n < UINT32_MAX ->
  forall k, (k < n)%nat ->
  hit_results name n t !! k =
    Some (if hits s + Z.of_nat k + 1 =? trigger_hit s then result s else LS_OK).
Proof.
  revert t s. induction n as [|n IH]; intros t s Ha Hf Hs H0 Hn k Hk; [lia|]. cbn [hit_results].
  destruct (hit_step name t i s Ha Hf Hs) as (t' & -> & Ha' & Hf' & Hs').
  assert (hits (count_hit s) = hits s + 1) as Hh.
  { simpl. destruct (hits s =? UINT32_MAX) eqn:E; [|done]. unfold UINT32_MAX in *. blia. }
  destruct k as [|k]; cbn [lookup list_lookup].
  - rewrite Hh. by replace (hits s + Z.of_nat 0 + 1) with (hits s + 1) by lia.
  - rewrite (IH t' (count_hit s)) by (done || rewrite ?Hh; lia).
    rewrite Hh. by replace (hits s + 1 + Z.of_nat k + 1) with (hits s + Z.of_nat (S k) + 1) by lia.
Qed.

(** An armed injection point fires exactly once: of the hits that follow a
    successful arm, the one numbered [trigger] returns the chosen result and every
    other one passes. *)
Theorem fault_fires_once name trigger r t t' n k :
  ls_fault_injection_arm (Some name) trigger r t = (LS_OK, t') ->
  Z.of_nat n < UINT32_MAX -> (k < n)%nat ->
  hit_results name n t' !! k = Some (if Z.of_nat k + 1 =? trigger then r else LS_OK).
Proof.
  intros (i & Hf & Ha & Hs)%arm_find Hn Hk.
  by rewrite (hit_results_spec name n t' i _ Ha Hf Hs) by (done || simpl; lia).
Qed.

Lemma fault_fires_once_witness :
  hit_results (str "io") 3 (snd (ls_fault_injection_arm (Some (str "io")) 2 LS_EIO no_faults))
    !! 1%nat = Some LS_EIO.
Proof.
  apply (fault_fires_once (str "io") 2 LS_EIO no_faults _ 3 1).
  - reflexivity.
  - reflexivity.
  - lia.
Defined.
