(* ===== verification/Storage.v ===== *)
(** * Storage backends ([src/storage/memory_storage.c], [src/storage/storage_sim.c])

    The record of storage operations that every persistent component runs on,
    the interface it promises ([StorageOk]), the flash-style programming routine
    built on it, and two implementations: plain memory, and the simulator that
    interrupts an operation after a chosen number of bytes. *)

From S2P Require Import Prelude Util FaultInjection.

(** ** The backend record

    [None] in a place where the code takes an [ls_storage_backend_t *] stands for
    a null pointer or a backend without [read] or [write]; [erase] and [sync] may
    be missing in a usable backend. *)
Record ls_storage_backend_t (S : Type) : Type := {
  capacity : Z;
  erase_size : Z;
  write_size : Z;
  read : Z -> Z -> st S (res (list Z));
  write : Z -> list Z -> st S ls_result_t;
  erase : option (Z -> Z -> st S ls_result_t);
  sync : option (st S ls_result_t);
}.
Arguments capacity {S} _.
Arguments erase_size {S} _.
Arguments write_size {S} _.
Arguments read {S} _ _ _ _.
Arguments write {S} _ _ _ _.
Arguments erase {S} _.
Arguments sync {S} _.
Arguments Build_ls_storage_backend_t {S} _ _ _ _ _ _ _.

Definition LS_STORAGE_MAX_WRITE_SIZE : Z := 256.

(** ** Programming *)

Definition storage_bounds {S} (storage : ls_storage_backend_t S) (offset length : Z) : ls_result_t :=
  if (capacity storage <? offset) || (capacity storage - offset <? length)
  then LS_EINVAL else LS_OK.

(** The loop over the positions of one unit that the request covers: the bytes
    after programming and whether any of them changed, or [None] when a bit would
    have to go from 0 to 1. *)
Fixpoint program_bytes (unit input : list Z) : option (list Z * bool) :=
  match unit, input with
  | u :: unit, value :: input =>
      if negb (Z.land (u8 (Z.lnot u)) value =? 0) then None
      else
        let programmed := u8 (Z.land u value) in
        match program_bytes unit input with
        | None => None
        | Some (rest, changed) => Some (programmed :: rest, negb (programmed =? u) || changed)
        end
  | _, _ => Some (unit, false)
  end.

Section Program.
Context {D : Type} (storage : ls_storage_backend_t (platform D)).

(** The loop over the write units from [unit_offset]; [n] units remain. *)
Fixpoint program_units (n : nat) (unit_offset size offset : Z) (input : list Z)
  : st (platform D) ls_result_t := fun p =>
  match n with
  | O => hit "storage.program.after" p
  | S n =>
      let '(r, p) := read storage unit_offset size p in
      match r with
      | Err e => (e, p)
      | Ok unit =>
          let target_end := offset + zlen input in
          let unit_end := unit_offset + size in
          let first := if unit_offset <? offset then offset else unit_offset in
          let last := if target_end <? unit_end then target_end else unit_end in
          match program_bytes (slice (first - unit_offset) (last - first) unit)
                  (slice (first - offset) (last - first) input) with
          | None => (LS_EIO, p)
          | Some (programmed, changed) =>
              if changed then
                let '(r, p) := hit "storage.program.unit" p in
                if negb (is_ok r) then (r, p)
                else
                  let '(r, p) := write storage unit_offset
                                   (splice (first - unit_offset) programmed unit) p in
                  if negb (is_ok r) then (r, p)
                  else program_units n (unit_offset + size) size offset input p
              else program_units n (unit_offset + size) size offset input p
          end
      end
  end.

Definition ls_storage_program (offset : Z) (src : list Z) : st (platform D) ls_result_t := fun p =>
  let length := zlen src in
  if negb (is_ok (storage_bounds storage offset length)) then (LS_EINVAL, p)
  else if length =? 0 then (LS_OK, p)
  else
    let '(injected, p) := hit "storage.program.before" p in
    if negb (is_ok injected) then (injected, p)
    else
      let size := if negb (write_size storage =? 0) then write_size storage else 1 in
      if LS_STORAGE_MAX_WRITE_SIZE <? size then (LS_ENOTSUP, p)
      else if SIZE_MAX - length <? offset then (LS_EOVERFLOW, p)
      else if size =? 1 then
        let '(r, p) := write storage offset src p in
        if negb (is_ok r) then (r, p) else hit "storage.program.after" p
      else
        let first := offset - offset mod size in
        let target_end := offset + length in
        if SIZE_MAX - (size - 1) <? target_end then (LS_EOVERFLOW, p)
        else
          let last := ((target_end + size - 1) / size) * size in
          if capacity storage <? last then (LS_ENOSPACE, p)
          else program_units (Z.to_nat ((last - first) / size)) first size offset src p.

(** The loop of [ls_storage_is_erased], in chunks of the scratch buffer; every
    iteration consumes at least one byte, so [length] is enough fuel. *)
Fixpoint is_erased_loop (fuel : nat) (offset length : Z) : st (platform D) (res bool) := fun p =>
  match fuel with
  | O => (Ok true, p)
  | S fuel =>
      if length =? 0 then (Ok true, p)
      else
        let count := if LS_STORAGE_MAX_WRITE_SIZE <? length then LS_STORAGE_MAX_WRITE_SIZE else length in
        let '(r, p) := read storage offset count p in
        match r with
        | Err e => (Err e, p)
        | Ok bytes =>
            if forallb (Z.eqb 0xff) bytes then is_erased_loop fuel (offset + count) (length - count) p
            else (Ok false, p)
        end
  end.

Definition ls_storage_is_erased (offset length : Z) (erased : ptr) : st (platform D) (res bool) :=
  fun p =>
  if negb erased || negb (is_ok (storage_bounds storage offset length)) then (Err LS_EINVAL, p)
  else is_erased_loop (Z.to_nat length) offset length p.
End Program.

(** ** Plain memory *)

Definition ls_memory_storage_t : Type := list Z.

Definition memory_bounds (memory : ls_memory_storage_t) (offset length : Z) : ls_result_t :=
  if (zlen memory <? offset) || (zlen memory - offset <? length) then LS_EINVAL else LS_OK.

Definition ls_memory_storage_read (offset length : Z) : st (platform ls_memory_storage_t) (res (list Z)) :=
  fun p =>
  let result := memory_bounds (dev p) offset length in
  if is_ok result then (Ok (slice offset length (dev p)), p) else (Err result, p).

Definition ls_memory_storage_write (offset : Z) (src : list Z)
  : st (platform ls_memory_storage_t) ls_result_t := fun p =>
  let result := memory_bounds (dev p) offset (zlen src) in
  if is_ok result && negb (zlen src =? 0)
  then (result, set_dev (splice offset src (dev p)) p) else (result, p).

Definition ls_memory_storage_erase (offset length : Z) : st (platform ls_memory_storage_t) ls_result_t :=
  fun p =>
  let result := memory_bounds (dev p) offset length in
  if is_ok result then (result, set_dev (splice offset (fill length 0xff) (dev p)) p) else (result, p).

(** The backend the examples and tests build over a static array. *)
Definition memory_backend (size erase_size write_size : Z)
  : ls_storage_backend_t (platform ls_memory_storage_t) :=
  Build_ls_storage_backend_t size erase_size write_size ls_memory_storage_read
    ls_memory_storage_write (Some ls_memory_storage_erase) None.

(** ** The simulator *)

Record ls_storage_sim_t : Type := {
  sim_data : list Z;
  enforce_nor : bool;
  operation_count : Z;
  fail_operation : Z;
  partial_bytes : Z;
}.

Definition sim_with_data (data : list Z) (s : ls_storage_sim_t) : ls_storage_sim_t :=
  {| sim_data := data; enforce_nor := enforce_nor s; operation_count := operation_count s;
     fail_operation := fail_operation s; partial_bytes := partial_bytes s |}.

Definition sim_with_faults (count operation bytes : Z) (s : ls_storage_sim_t) : ls_storage_sim_t :=
  {| sim_data := sim_data s; enforce_nor := enforce_nor s; operation_count := count;
     fail_operation := operation; partial_bytes := bytes |}.

(** [fail]: count the operation and tell whether it is the one to interrupt. *)
Definition fail (s : ls_storage_sim_t) : bool * ls_storage_sim_t :=
  let s := sim_with_faults (inc32 (operation_count s)) (fail_operation s) (partial_bytes s) s in
  (negb (fail_operation s =? 0) && (operation_count s =? fail_operation s), s).

Definition bounds (s : ls_storage_sim_t) (offset length : Z) : ls_result_t :=
  if (zlen (sim_data s) <? offset) || (zlen (sim_data s) - offset <? length)
  then LS_EINVAL else LS_OK.

Definition ls_storage_sim_reset_faults : ls_storage_sim_t -> ls_storage_sim_t :=
  sim_with_faults 0 0 0.

Definition ls_storage_sim_fail_at (operation partial : Z) : ls_storage_sim_t -> ls_storage_sim_t :=
  sim_with_faults 0 operation partial.

Definition ls_storage_sim_read (offset length : Z) : st (platform ls_storage_sim_t) (res (list Z)) :=
  fun p =>
  if negb (is_ok (bounds (dev p) offset length)) then (Err LS_EINVAL, p)
  else
    let '(interrupted, s) := fail (dev p) in
    if interrupted then (Err LS_EIO, set_dev s p)
    else (Ok (slice offset length (sim_data s)), set_dev s p).

(** NOR legality of storing [input] over [old]. *)
Fixpoint nor_legal (old input : list Z) : bool :=
  match old, input with
  | o :: old, i :: input => (Z.land (u8 (Z.lnot o)) i =? 0) && nor_legal old input
  | _, _ => true
  end.

Definition ls_storage_sim_write (offset : Z) (src : list Z) : st (platform ls_storage_sim_t) ls_result_t :=
  fun p =>
  if negb (is_ok (bounds (dev p) offset (zlen src))) then (LS_EINVAL, p)
  else
    let '(interrupted, s) := fail (dev p) in
    let written :=
      if interrupted
      then (if partial_bytes s <? zlen src then partial_bytes s else zlen src)
      else zlen src in
    let input := slice 0 written src in
    let old := slice offset written (sim_data s) in
    if enforce_nor s && negb (nor_legal old input) then (LS_EIO, set_dev s p)
    else
      let stored := if enforce_nor s then zip_with (fun o i => u8 (Z.land o i)) old input else input in
      (if interrupted then LS_EIO else LS_OK,
       set_dev (sim_with_data (splice offset stored (sim_data s)) s) p).

Definition ls_storage_sim_erase (offset length : Z) : st (platform ls_storage_sim_t) ls_result_t :=
  fun p =>
  if negb (is_ok (bounds (dev p) offset length)) then (LS_EINVAL, p)
  else
    let '(interrupted, s) := fail (dev p) in
    let erased :=
      if interrupted then (if partial_bytes s <? length then partial_bytes s else length) else length in
    (if interrupted then LS_EIO else LS_OK,
     set_dev (sim_with_data (splice offset (fill erased 0xff) (sim_data s)) s) p).

Definition ls_storage_sim_sync : st (platform ls_storage_sim_t) ls_result_t := fun p =>
  let '(interrupted, s) := fail (dev p) in
  (if interrupted then LS_EIO else LS_OK, set_dev s p).

Definition sim_backend (size erase_size write_size : Z)
  : ls_storage_backend_t (platform ls_storage_sim_t) :=
  Build_ls_storage_backend_t size erase_size write_size ls_storage_sim_read
    ls_storage_sim_write (Some ls_storage_sim_erase) (Some ls_storage_sim_sync).

(** ** What a backend promises

    [contents] is the medium as the backend presents it.  A successful operation
    has exactly its effect; one that fails leaves every byte it did not address
    alone and each byte it did address either old or new.  [live] states, for a
    backend that will not fail, when operations succeed: programming succeeds
    where no bit has to be set. *)
Class StorageOk {D : Type} (b : ls_storage_backend_t (platform D)) : Type := {
  contents : D -> list Z;
  inv : D -> Prop;
  live : platform D -> Prop;
  capacity_range : 0 <= capacity b <= SIZE_MAX;
  write_size_range : 0 <= write_size b;
  contents_zlen d : inv d -> zlen (contents d) = capacity b;
  contents_bytes d : inv d -> bytes_ok (contents d);
  live_quiet p : live p -> fault_injection_active (faults p) = false;
  read_spec off len p r p' :
    inv (dev p) -> 0 <= off -> 0 <= len -> off + len <= capacity b -> read b off len p = (r, p') ->
    inv (dev p') /\ contents (dev p') = contents (dev p) /\
    (forall bs, r = Ok bs -> bs = slice off len (contents (dev p))) /\ r <> Err LS_OK /\
    (live p -> live p' /\ exists bs, r = Ok bs);
  write_spec off data p r p' :
    inv (dev p) -> bytes_ok data -> 0 <= off -> off + zlen data <= capacity b ->
    write b off data p = (r, p') ->
    inv (dev p') /\ torn off data (contents (dev p)) (contents (dev p')) /\
    (r = LS_OK -> contents (dev p') = splice off data (contents (dev p))) /\
    (live p -> live p' /\
      (nor_legal (slice off (zlen data) (contents (dev p))) data = true -> r = LS_OK));
  erase_spec e off len p r p' :
    erase b = Some e -> inv (dev p) -> 0 <= off -> 0 <= len -> off + len <= capacity b ->
    e off len p = (r, p') ->
    inv (dev p') /\ torn off (fill len 0xff) (contents (dev p)) (contents (dev p')) /\
    (r = LS_OK -> contents (dev p') = splice off (fill len 0xff) (contents (dev p))) /\
    (live p -> live p' /\ r = LS_OK);
  sync_spec s p r p' :
    sync b = Some s -> inv (dev p) -> s p = (r, p') ->
    inv (dev p') /\ contents (dev p') = contents (dev p) /\ (live p -> live p' /\ r = LS_OK);
}.

(** ** Bytes that can be programmed *)

Lemma nor_byte o v : is_u8 o -> is_u8 v -> Z.land (u8 (Z.lnot o)) v = 0 -> Z.land o v = v.
Proof.
  intros Ho Hv H. apply Z.bits_inj'. intros i Hi. rewrite Z.land_spec.
  destruct (Z.testbit v i) eqn:E; [|by rewrite andb_false_r]. rewrite andb_true_r.
  destruct (Z.lt_ge_cases i 8) as [Hi8|Hi8]; [|by rewrite (testbit_above 8 v i) in E by (done || lia)].
  apply (f_equal (fun z => Z.testbit z i)) in H. rewrite Z.land_spec, E, Z.bits_0, andb_true_r in H.
  unfold u8 in H. rewrite Z.mod_pow2_bits_low, Z.lnot_spec in H by lia. by apply negb_false_iff in H.
Qed.

Lemma program_bytes_spec unit input :
  bytes_ok unit -> bytes_ok input -> length unit = length input ->
  match program_bytes unit input with
  | None => nor_legal unit input = false
  | Some (programmed, changed) =>
      nor_legal unit input = true /\ programmed = input /\ (changed = false -> unit = input)
  end.
Proof.
  intros Hu. revert input. induction Hu as [|u unit Hu Hus IH]; intros [|v input] Hi Hl; try done.
  apply Forall_cons in Hi as [Hv Hi]. simpl in Hl. specialize (IH input Hi ltac:(lia)). simpl.
  destruct (Z.land (u8 (Z.lnot u)) v =? 0) eqn:E; [|done]. bool_prop. cbn [negb andb].
  apply nor_byte in E; [|done..]. rewrite E. rewrite u8_id by done.
  destruct (program_bytes unit input) as [[programmed changed]|]; [|done].
  destruct IH as (-> & -> & Hc). split; [done|]. split; [done|].
  intros [H1 H2]%orb_false_iff. bool_prop. rewrite Hc by done. by subst.
Qed.

Lemma nor_legal_app o1 o2 i1 i2 : length o1 = length i1 ->
  nor_legal (o1 ++ o2) (i1 ++ i2) = nor_legal o1 i1 && nor_legal o2 i2.
Proof.
  revert i1. induction o1 as [|o o1 IH]; intros [|i i1] H; try done. simpl in *.
  rewrite IH by lia. by rewrite andb_assoc.
Qed.

(** Erased flash accepts anything. *)
Lemma nor_legal_erased n data : nor_legal (fill n 0xff) data = true.
Proof.
  unfold fill. generalize (Z.to_nat n). intros k. revert data.
  induction k as [|k IH]; intros [|d data]; try done. simpl. by rewrite IH.
Qed.

Lemma nor_legal_same l : bytes_ok l -> nor_legal l l = true.
Proof.
  induction 1 as [|b l Hb Hl IH]; [done|]. simpl. rewrite IH, andb_true_r. apply Z.eqb_eq.
  apply Z.bits_inj'. intros i Hi. rewrite Z.land_spec, Z.bits_0. unfold u8.
  destruct (Z.lt_ge_cases i 8).
  - rewrite Z.mod_pow2_bits_low, Z.lnot_spec by lia. by destruct (Z.testbit b i).
  - by rewrite Z.mod_pow2_bits_high by lia.
Qed.

Lemma nor_legal_splice off data l : bytes_ok l -> 0 <= off -> off + zlen data <= zlen l ->
  nor_legal (slice off (zlen data) l) data = true -> nor_legal l (splice off data l) = true.
Proof.
  intros Hl Ho Hb Hn. pose proof (zlen_nonneg data).
  rewrite <- (take_drop (Z.to_nat off) l) at 1. rewrite (drop_slice off (zlen data)) by lia.
  unfold splice. rewrite nor_legal_app by done. rewrite nor_legal_app.
  - rewrite Hn, nor_legal_same by (by apply Forall_take). simpl.
    replace (Z.to_nat (off + zlen data)) with (Z.to_nat off + length data)%nat by (unfold zlen; lia).
    apply nor_legal_same. by apply Forall_drop.
  - rewrite length_slice by lia. unfold zlen. lia.
Qed.

Lemma forallb_erased l : forallb (Z.eqb 0xff) l = true <-> l = fill (zlen l) 0xff.
Proof.
  unfold fill, zlen. rewrite Nat2Z.id. induction l as [|x l IH]; [done|].
  cbn [forallb length replicate]. rewrite andb_true_iff, IH, Z.eqb_eq. split.
  - by intros [<- <-].
  - intros [= -> Hl]. done.
Qed.

(** ** Programming through any backend *)

Section ProgramOk.
Context {D : Type} (b : ls_storage_backend_t (platform D)) `{OK : !StorageOk b}.
Implicit Types p : platform D.

Lemma hit_spec name p r p' : hit name p = (r, p') ->
  dev p' = dev p /\ (live p -> live p' /\ r = LS_OK).
Proof.
  intros H. split; [by eapply hit_dev|]. intros Hl.
  rewrite hit_inactive in H by (by apply live_quiet). by simplify_eq.
Qed.

(** The effect of storing [data] at [off], with the condition [ok] under which a
    live backend completes it. *)
Definition stores (off : Z) (data : list Z) (ok : Prop) (p : platform D) (r : ls_result_t)
    (p' : platform D) : Prop :=
  inv (dev p') /\ torn off data (contents (dev p)) (contents (dev p')) /\
  (r = LS_OK -> contents (dev p') = splice off data (contents (dev p))) /\
  (live p -> live p' /\ (ok -> r = LS_OK)).

Lemma stores_weaken off data (P Q : Prop) p r p' :
  (Q -> P) -> stores off data P p r p' -> stores off data Q p r p'.
Proof. intros HPQ (?&?&?&H). split_and!; try done. intros Hl. destruct (H Hl). auto. Qed.

(** A step that leaves the medium alone. *)
Definition same (p p' : platform D) : Prop :=
  inv (dev p') /\ contents (dev p') = contents (dev p) /\ (live p -> live p').

Lemma same_refl p : inv (dev p) -> same p p.
Proof. done. Qed.

Lemma same_trans p p1 p2 : same p p1 -> same p1 p2 -> same p p2.
Proof. intros (?&E1&?) (?&E2&?). unfold same. rewrite E2, E1. auto. Qed.

Lemma hit_same name p r p' : inv (dev p) -> hit name p = (r, p') ->
  same p p' /\ (live p -> r = LS_OK).
Proof.
  intros Hi [Hd Hl]%hit_spec. unfold same. rewrite Hd.
  split; [split_and!; try done|]; intros H; by destruct (Hl H).
Qed.

Lemma read_same off len p r p' :
  inv (dev p) -> 0 <= off -> 0 <= len -> off + len <= capacity b -> read b off len p = (r, p') ->
  same p p' /\ (forall bs, r = Ok bs -> bs = slice off len (contents (dev p))) /\ r <> Err LS_OK /\
  (live p -> exists bs, r = Ok bs).
Proof.
  intros Hi Ho Hn Hb H. destruct (read_spec off len p r p' Hi Ho Hn Hb H) as (?&?&?&?&Hl).
  split; [split_and!; try done|split_and!; try done]; intros H'; by destruct (Hl H').
Qed.

Lemma write_stores off data p r p' :
  inv (dev p) -> bytes_ok data -> 0 <= off -> off + zlen data <= capacity b ->
  write b off data p = (r, p') ->
  stores off data (nor_legal (slice off (zlen data) (contents (dev p))) data = true) p r p'.
Proof. intros. by apply write_spec. Qed.

Lemma stores_pre off data ok p p1 r p' :
  same p p1 -> stores off data ok p1 r p' -> stores off data ok p r p'.
Proof.
  intros (_ & E & Hl) (?&Ht&Hs&Hl'). unfold stores. rewrite <- E. split_and!; auto.
Qed.

Lemma stores_nothing off ok p r p' :
  same p p' -> 0 <= off <= capacity b -> (live p -> ok -> r = LS_OK) -> stores off [] ok p r p'.
Proof.
  intros (Hi & E & Hl) Ho Hr. unfold stores. rewrite E. split_and!; try done; auto using torn_refl.
  intros _. rewrite splice_nil; [done|]. rewrite <- E. by rewrite contents_zlen.
Qed.

(** A failure before anything was stored. *)
Lemma stores_fail off data (ok : Prop) p r p' :
  same p p' -> r <> LS_OK -> (live p -> ~ ok) -> stores off data ok p r p'.
Proof.
  intros (Hi & E & Hl) Hr Hn. unfold stores. rewrite E. split_and!; try done; auto using torn_refl.
  intros H. split; [auto|]. intros Hok. by destruct (Hn H).
Qed.

(** A store in two steps. *)
Lemma stores_app off a c (P Q : Prop) p r p1 r2 p2 :
  inv (dev p) -> 0 <= off -> off + zlen a + zlen c <= capacity b ->
  stores off a P p LS_OK p1 -> stores (off + zlen a) c Q p1 r2 p2 -> r = r2 ->
  stores off (a ++ c) Q p r p2.
Proof.
  intros Hi Ho Hb (Hi1 & Ht1 & Hs1 & Hl1) (Hi2 & Ht2 & Hs2 & Hl2) ->.
  pose proof (contents_zlen _ Hi) as Hz. pose proof (zlen_nonneg a). pose proof (zlen_nonneg c).
  rewrite Hs1 in Ht2, Hs2 by done. split; [done|]. split; [|split].
  - eapply torn_trans; [apply torn_prefix; lia|]. apply torn_app_r; [lia|]. done.
  - intros Hok. rewrite Hs2 by done. apply splice_app; lia.
  - intros Hl. destruct (Hl1 Hl) as [Hl' _]. auto.
Qed.

(** A store that fails in its first part. *)
Lemma stores_first off a c (P Q : Prop) p r p' :
  r <> LS_OK -> (Q -> P) -> stores off a P p r p' -> stores off (a ++ c) Q p r p'.
Proof.
  intros Hr HQ (?&?&_&Hl). split_and!; try done; [by apply torn_app_l|].
  intros H'. destruct (Hl H'). auto.
Qed.

Lemma nor_legal_split off a c m : 0 <= off -> off + zlen a + zlen c <= zlen m ->
  nor_legal (slice off (zlen (a ++ c)) m) (a ++ c) =
  nor_legal (slice off (zlen a) m) a && nor_legal (slice (off + zlen a) (zlen c) m) c.
Proof.
  intros. pose proof (zlen_nonneg a). pose proof (zlen_nonneg c).
  rewrite zlen_app, slice_split by lia. apply nor_legal_app.
  rewrite length_slice by lia. unfold zlen. lia.
Qed.

(** Storing one piece inside a write unit. *)
Lemma program_unit_step u size off chunk p unit programmed changed :
  inv (dev p) -> bytes_ok chunk -> 0 <= u <= off -> off + zlen chunk <= u + size ->
  u + size <= capacity b -> unit = slice u size (contents (dev p)) ->
  program_bytes (slice (off - u) (zlen chunk) unit) chunk = Some (programmed, changed) ->
  nor_legal (slice off (zlen chunk) (contents (dev p))) chunk = true /\
  (changed = false -> slice off (zlen chunk) (contents (dev p)) = chunk) /\
  (forall r p', write b u (splice (off - u) programmed unit) p = (r, p') ->
     stores off chunk True p r p').
Proof.
  intros Hi Hc Hu Hf Hcap -> Hp. pose proof (contents_zlen _ Hi) as Hz.
  pose proof (contents_bytes _ Hi) as Hbs. pose proof (zlen_nonneg chunk).
  rewrite slice_slice in Hp by lia. replace (u + (off - u)) with off in Hp by lia.
  pose proof (program_bytes_spec (slice off (zlen chunk) (contents (dev p))) chunk
    ltac:(auto with latch) Hc) as Hpb.
  rewrite length_slice in Hpb by lia. rewrite Hp in Hpb. destruct Hpb as (Hn & -> & Hch).
  { unfold zlen. lia. }
  split; [done|]. split; [done|]. intros r p' Hw.
  assert (zlen (slice u size (contents (dev p))) = size) as Hzs by (apply zlen_slice; lia).
  set (c := contents (dev p)) in *.
  assert (zlen (splice (off - u) chunk (slice u size c)) = size) as Hzu by (rewrite zlen_splice; lia).
  apply write_stores in Hw; [|done|auto with latch|lia|lia].
  destruct Hw as (Hi' & Ht & Hs & Hl). fold c in Ht, Hs, Hl. split; [done|]. fold c. split; [|split].
  - eapply (torn_block u size); try done; lia.
  - intros Hr. rewrite Hs by done. apply splice_block; lia.
  - intros Hl'. destruct (Hl Hl') as [? Hok]. split; [done|]. intros _. apply Hok.
    rewrite Hzu. apply nor_legal_splice; [auto with latch|lia|lia|].
    rewrite slice_slice by lia. by replace (u + (off - u)) with off by lia.
Qed.

(** The position the loop has reached, and what is left to store from there. *)
Definition reached (u off : Z) (input : list Z) : Z := Z.min (off + zlen input) (Z.max off u).
Definition left_over (u off : Z) (input : list Z) : list Z :=
  drop (Z.to_nat (reached u off input - off)) input.

Definition programmable (off : Z) (data : list Z) (p : platform D) : Prop :=
  nor_legal (slice off (zlen data) (contents (dev p))) data = true.

Lemma zlen_left_over u off input :
  zlen (left_over u off input) = off + zlen input - reached u off input.
Proof.
  unfold left_over, reached. pose proof (zlen_nonneg input). rewrite zlen_drop; lia.
Qed.

Lemma left_over_step u size off input :
  0 <= size -> off <= u + size -> u <= off + zlen input ->
  let first := if u <? off then off else u in
  let last := if off + zlen input <? u + size then off + zlen input else u + size in
  first = reached u off input /\ reached (u + size) off input = last /\ 0 <= last - first /\
  left_over u off input = slice (first - off) (last - first) input ++ left_over (u + size) off input /\
  zlen (slice (first - off) (last - first) input) = last - first.
Proof.
  intros Hs Hu He first last. pose proof (zlen_nonneg input). unfold reached.
  assert (first = Z.min (off + zlen input) (Z.max off u)) as Ef by (unfold first; case_if; blia).
  assert (last = Z.min (off + zlen input) (Z.max off (u + size))) as El
    by (unfold last; case_if; blia).
  split; [done|]. split; [done|]. split; [lia|].
  unfold left_over, reached. rewrite <- Ef, <- El. split; [|apply zlen_slice; lia].
  rewrite (drop_slice (first - off) (last - first)) by lia. do 3 f_equal. lia.
Qed.

Lemma programmable_split off a c p :
  inv (dev p) -> 0 <= off -> off + zlen a + zlen c <= capacity b ->
  programmable off (a ++ c) p ->
  programmable off a p /\ programmable (off + zlen a) c p.
Proof.
  intros Hi Ho Hb. unfold programmable. pose proof (contents_zlen _ Hi).
  rewrite nor_legal_split by lia. by intros [? ?]%andb_true_iff.
Qed.

Lemma stores_programmable off a c (Q : Prop) p p1 :
  inv (dev p) -> 0 <= off -> off + zlen a + zlen c <= capacity b -> stores off a Q p LS_OK p1 ->
  programmable off (a ++ c) p -> programmable (off + zlen a) c p1.
Proof.
  intros Hi Ho Hb (Hi1 & _ & Hs & _) Hp. pose proof (contents_zlen _ Hi) as Hz.
  pose proof (zlen_nonneg a). pose proof (zlen_nonneg c).
  apply programmable_split in Hp as [_ Hp]; [|done..]. unfold programmable. rewrite Hs by done.
  rewrite slice_splice_disjoint by lia. done.
Qed.

Lemma stores_unchanged off data p :
  inv (dev p) -> 0 <= off -> off + zlen data <= capacity b ->
  slice off (zlen data) (contents (dev p)) = data -> stores off data True p LS_OK p.
Proof.
  intros Hi Ho Hb Hs. pose proof (contents_zlen _ Hi).
  split_and!; try done; [apply torn_refl|]. intros _. rewrite splice_same; [done..|lia|done].
Qed.

(** One unit programmed, then the rest of the request. *)
Lemma stores_unit off a c p p1 r p' (Q : Prop) :
  inv (dev p) -> 0 <= off -> off + zlen a + zlen c <= capacity b -> stores off a Q p LS_OK p1 ->
  stores (off + zlen a) c (programmable (off + zlen a) c p1) p1 r p' ->
  stores off (a ++ c) (programmable off (a ++ c) p) p r p'.
Proof.
  intros Hi Ho Hb H1 H2.
  eapply stores_weaken; [|eapply stores_app; [done|done|done|exact H1|exact H2|done]].
  by eapply stores_programmable.
Qed.

(** The body of the loop for one unit whose bytes were read, with the rest of
    the loop as [k]. *)
Lemma program_unit_spec u size off chunk rest p unit (k : st (platform D) ls_result_t) r p' :
  inv (dev p) -> bytes_ok chunk -> 0 <= u <= off -> off + zlen chunk <= u + size ->
  u + size <= capacity b -> off + zlen chunk + zlen rest <= capacity b ->
  unit = slice u size (contents (dev p)) ->
  (forall p1 r p', inv (dev p1) -> k p1 = (r, p') ->
     stores (off + zlen chunk) rest (programmable (off + zlen chunk) rest p1) p1 r p') ->
  match program_bytes (slice (off - u) (zlen chunk) unit) chunk with
  | None => (LS_EIO, p)
  | Some (programmed, changed) =>
      if changed then
        let '(r, p) := hit "storage.program.unit" p in
        if negb (is_ok r) then (r, p)
        else
          let '(r, p) := write b u (splice (off - u) programmed unit) p in
          if negb (is_ok r) then (r, p) else k p
      else k p
  end = (r, p') ->
  stores off (chunk ++ rest) (programmable off (chunk ++ rest) p) p r p'.
Proof.
  intros Hi Hbc Hu Hf Hc1 Hc2 Hunit Hk H.
  destruct (program_bytes _ chunk) as [[programmed changed]|] eqn:Ep.
  2:{ simplify_eq. apply stores_fail; [by apply same_refl|done|]. intros _ Hp.
      apply programmable_split in Hp as [Hp _]; [|done || lia..]. unfold programmable in Hp.
      pose proof (contents_zlen _ Hi). pose proof (contents_bytes _ Hi). pose proof (zlen_nonneg chunk).
      rewrite slice_slice in Ep by lia. replace (u + (off - u)) with off in Ep by lia.
      pose proof (program_bytes_spec (slice off (zlen chunk) (contents (dev p'))) chunk
        ltac:(auto with latch) Hbc) as Hpb. rewrite Ep, Hp in Hpb.
      rewrite length_slice in Hpb by lia. discriminate Hpb. unfold zlen. lia. }
  destruct (program_unit_step u size off chunk p unit programmed changed) as (Hn & Hch & Hw);
    try done; try lia.
  destruct changed.
  2:{ eapply stores_unit; [done|lia|lia| |by apply Hk]. apply stores_unchanged; auto; lia. }
  destruct (hit "storage.program.unit" p) as [rh p1] eqn:Eh.
  pose proof (hit_spec _ _ _ _ Eh) as [Ed _]. apply hit_same in Eh as [Hs1 Hl1]; [|done].
  destruct (negb (is_ok rh)) eqn:Erh; bool_prop.
  { simplify_eq. apply stores_fail; [done|done|]. intros Hl. by destruct Erh; auto. }
  unfold programmable. rewrite <- Ed. fold (programmable off (chunk ++ rest) p1).
  eapply stores_pre; [exact Hs1|].
  destruct (program_unit_step u size off chunk p1 unit programmed true) as (Hn1 & _ & Hw1);
    try done; rewrite ?Ed; try done; try lia.
  destruct (write b u _ p1) as [rw p2]. specialize (Hw1 _ _ eq_refl).
  destruct (negb (is_ok rw)) eqn:Erw; bool_prop.
  - simplify_eq. by apply (stores_first _ _ _ True).
  - subst rw. eapply stores_unit; try done; rewrite ?Ed; try done; try lia.
    apply Hk; [|done]. by destruct Hw1.
Qed.

Lemma program_units_spec n u size off input p r p' :
  inv (dev p) -> bytes_ok input -> 1 <= size -> 0 <= u -> 0 <= off <= u + size ->
  off + zlen input <= u + Z.of_nat n * size < off + zlen input + size ->
  u + Z.of_nat n * size <= capacity b ->
  program_units b n u size off input p = (r, p') ->
  stores (reached u off input) (left_over u off input)
    (programmable (reached u off input) (left_over u off input) p) p r p'.
Proof.
  revert u p r p'. induction n as [|n IH]; intros u p r p' Hi Hin Hsz Hu Ho He Hcap H; cbn [program_units] in H;
    pose proof (zlen_nonneg input) as Hlen.
  - assert (left_over u off input = []) as ->.
    { apply length_zero_iff_nil. pose proof (zlen_left_over u off input) as Hz.
      unfold reached, zlen in *. lia. }
    apply hit_same in H as [Hs Hl]; [|done].
    apply stores_nothing; [done|unfold reached; lia|auto].
  - destruct (read b u size p) as [rd p1] eqn:Er.
    apply read_same in Er as (Hs1 & Hrd & Hne & Hrl); [|done|lia..].
    destruct rd as [unit|e].
    2:{ simplify_eq. apply stores_fail; [done|congruence|]. intros Hl. by destruct (Hrl Hl). }
    specialize (Hrd unit eq_refl). pose proof Hs1 as (Hi1 & E1 & _). rewrite <- E1 in Hrd.
    apply (stores_pre _ _ _ _ p1); [done|]. unfold programmable. rewrite <- E1.
    destruct (left_over_step u size off input ltac:(lia) ltac:(lia) ltac:(lia))
      as (Ef & El & Hfl & Hlo & Hzc).
    set (first := if u <? off then off else u) in *.
    set (last := if off + zlen input <? u + size then off + zlen input else u + size) in *.
    set (chunk := slice (first - off) (last - first) input) in *.
    pose proof (zlen_left_over (u + size) off input) as Hzl.
    assert (u <= first /\ 0 <= first /\ last <= off + zlen input /\ last <= u + size) as (?&?&?&?)
      by (unfold first, last; repeat case_if; blia).
    rewrite <- Ef, Hlo. rewrite <- Hzc in H at 1.
    eapply (program_unit_spec u size first chunk (left_over (u + size) off input)); try done; try lia.
    + by apply bytes_ok_slice.
    + intros p2 r2 p3 Hi2 Hrun. replace (first + zlen chunk) with (reached (u + size) off input) by lia.
      apply IH; try done; lia.
Qed.
(** The unit arithmetic of [ls_storage_program]. *)
Lemma unit_span off te size : 1 <= size -> 0 <= off <= te ->
  let first := off - off mod size in
  let last := ((te + size - 1) / size) * size in
  0 <= first <= off /\ off < first + size /\ te <= last < te + size /\
  first + Z.of_nat (Z.to_nat ((last - first) / size)) * size = last.
Proof.
  intros Hs Ho first last. subst first last.
  pose proof (Z.mod_pos_bound off size ltac:(lia)) as Hm. pose proof (Z.div_mod off size ltac:(lia)) as Hd.
  pose proof (Z.mod_pos_bound (te + size - 1) size ltac:(lia)) as Hm'.
  pose proof (Z.div_mod (te + size - 1) size ltac:(lia)) as Hd'.
  set (q := off / size) in *. set (q' := (te + size - 1) / size) in *.
  assert (0 <= q) by (apply Z.div_pos; lia).
  assert (q <= q') by (apply Z.div_le_mono; lia).
  replace (q' * size - (off - off mod size)) with ((q' - q) * size) by nia.
  rewrite Z.div_mul by lia. split_and!; nia.
Qed.

(** The request fits the write units of the device. *)
Definition program_fits (off len : Z) : Prop :=
  let size := if negb (write_size b =? 0) then write_size b else 1 in
  size <= LS_STORAGE_MAX_WRITE_SIZE /\
  (size <> 1 -> off + len <= SIZE_MAX - (size - 1) /\ ((off + len + size - 1) / size) * size <= capacity b).

Lemma program_stores off src p r p' :
  inv (dev p) -> bytes_ok src -> 0 <= off -> off + zlen src <= capacity b ->
  ls_storage_program b off src p = (r, p') ->
  stores off src (programmable off src p /\ program_fits off (zlen src)) p r p'.
Proof.
  intros Hi Hsrc Ho Hb H. unfold ls_storage_program, storage_bounds in H.
  pose proof (zlen_nonneg src). pose proof capacity_range. pose proof write_size_range.
  destruct ((_ <? off) || _) eqn:Eb; [bool_prop; destruct Eb; blia|]. cbn [is_ok negb] in H.
  destruct (zlen src =? 0) eqn:E0; bool_prop.
  { assert (src = []) as -> by (apply length_zero_iff_nil; unfold zlen in *; lia). simplify_eq.
    apply stores_nothing; [by apply same_refl|rewrite zlen_nil in *; lia|done]. }
  destruct (hit "storage.program.before" p) as [rh p1] eqn:Eh.
  apply hit_same in Eh as [Hs1 Hl1]; [|done]. destruct (negb (is_ok rh)) eqn:Erh; bool_prop.
  { simplify_eq. apply stores_fail; [done|done|]. intros Hl. by destruct Erh; auto. }
  pose proof Hs1 as (Hi1 & E1 & _).
  eapply stores_pre; [exact Hs1|]. unfold programmable. rewrite <- E1.
  fold (programmable off src p1). unfold program_fits. cbv zeta.
  set (size := if negb (write_size b =? 0) then write_size b else 1) in *.
  assert (1 <= size) as Hsize by (unfold size; case_if; blia).
  destruct (_ <? size) eqn:E256.
  { simplify_eq. apply stores_fail; [by apply same_refl|done|]. intros _ [_ [? _]]. blia. }
  destruct (_ <? off) eqn:Eov; [bool_prop; lia|].
  destruct (size =? 1) eqn:Es1.
  - destruct (write b off src p1) as [rw p2] eqn:Ew.
    apply write_stores in Ew; [|done|done|lia|lia]. destruct (negb (is_ok rw)) eqn:Erw; bool_prop.
    + simplify_eq. eapply stores_weaken; [|done]. by intros [? _].
    + subst rw. rewrite <- (app_nil_r src).
      apply hit_same in H as [Hs2 Hl2]; [|by destruct Ew].
      eapply stores_app; [done|lia| |exact Ew| |done]; [rewrite zlen_nil; lia|].
      apply stores_nothing; [done|lia|auto].
  - destruct (unit_span off (off + zlen src) size Hsize ltac:(lia)) as (Hf & Hf2 & Hlast & Hn).
    destruct (_ <? off + zlen src) eqn:Eo2.
    { simplify_eq. apply stores_fail; [by apply same_refl|done|].
      intros _ [_ [_ Hx]]. destruct Hx; blia. }
    destruct (capacity b <? _) eqn:Ec.
    { simplify_eq. apply stores_fail; [by apply same_refl|done|].
      intros _ [_ [_ Hx]]. destruct Hx; blia. }
    apply program_units_spec in H; try done; try blia.
    assert (reached (off - off mod size) off src = off) as Hr by (unfold reached; lia).
    unfold left_over in H. rewrite Hr, Z.sub_diag in H. change (drop (Z.to_nat 0) src) with src in H.
    eapply stores_weaken; [|done]. by intros [? _].
Qed.

(** A request outside the device changes nothing. *)
Lemma program_bounds_error off src p :
  capacity b < off + zlen src -> ls_storage_program b off src p = (LS_EINVAL, p).
Proof.
  intros H. unfold ls_storage_program, storage_bounds.
  destruct ((_ <? off) || _) eqn:Eb; [done|]. bool_prop. blia.
Qed.

Lemma is_erased_loop_spec fuel off len p r p' :
  inv (dev p) -> 0 <= off -> 0 <= len <= Z.of_nat fuel -> off + len <= capacity b ->
  is_erased_loop b fuel off len p = (r, p') ->
  same p p' /\ r <> Err LS_OK /\ (live p -> exists e, r = Ok e) /\
  (forall e, r = Ok e -> e = true <-> slice off len (contents (dev p)) = fill len 0xff).
Proof.
  revert off len p. induction fuel as [|fuel IH]; intros off len p Hi Ho Hl Hb H; cbn [is_erased_loop] in H.
  - simplify_eq. assert (len = 0) as -> by lia. split_and!; eauto using same_refl.
    by intros e [= <-].
  - destruct (len =? 0) eqn:E0; bool_prop.
    { simplify_eq. split_and!; eauto using same_refl. by intros e [= <-]. }
    set (count := if LS_STORAGE_MAX_WRITE_SIZE <? len then LS_STORAGE_MAX_WRITE_SIZE else len) in *.
    assert (1 <= count <= len) as Hc by (unfold count, LS_STORAGE_MAX_WRITE_SIZE; case_if; blia).
    destruct (read b off count p) as [rd p1] eqn:Er.
    apply read_same in Er as (Hs1 & Hrd & Hne & Hrl); [|done|lia..].
    destruct rd as [bs|e].
    2:{ simplify_eq. split_and!; try done; [congruence|]. intros Hl'. by destruct (Hrl Hl'). }
    specialize (Hrd bs eq_refl). pose proof Hs1 as (Hi1 & E1 & Hl1).
    assert (slice off len (contents (dev p)) = bs ++ slice (off + count) (len - count) (contents (dev p)))
      as Hsp by (rewrite Hrd, <- slice_split by lia; f_equal; lia).
    assert (fill len 0xff = fill count 0xff ++ fill (len - count) 0xff) as Hfl.
    { unfold fill. rewrite <- replicate_add. f_equal. lia. }
    assert (zlen bs = count) as Hzb by (rewrite Hrd; apply zlen_slice; rewrite ?contents_zlen; lia || done).
    pose proof (forallb_erased bs) as Hfb. rewrite Hzb in Hfb.
    assert (length bs = length (fill count 255)) as Hlb.
    { unfold fill. rewrite length_replicate. unfold zlen in Hzb. lia. }
    destruct (forallb (Z.eqb 255) bs) eqn:Ef.
    + apply IH in H as (Hs2 & Hne2 & Hl2 & Hr2); try done; try lia.
      split_and!; [by eapply same_trans|done|auto|].
      intros e He. rewrite (Hr2 e He), E1, Hsp, Hfl.
      destruct Hfb as [Hbs _]. rewrite (Hbs eq_refl).
      split; [by intros ->|]. by intros ?%app_inv_head.
    + simplify_eq. split_and!; try done; [eauto|]. intros e [= <-]. split; [done|].
      rewrite Hsp, Hfl. intros Heq. apply app_inj_1 in Heq as [Heq _]; [|done].
      by apply Hfb in Heq.
Qed.
End ProgramOk.

(** ** Memory implements the interface *)

Definition mem_inv (size : Z) (d : list Z) : Prop := zlen d = size /\ bytes_ok d.
Definition quiet {D} (p : platform D) : Prop := fault_injection_active (faults p) = false.

Lemma memory_bounds_ok d off len : off + len <= zlen d -> 0 <= len -> memory_bounds d off len = LS_OK.
Proof. intros. unfold memory_bounds. destruct (_ || _) eqn:E; [|done]. bool_prop. destruct E; blia. Qed.

#[export] Instance memory_ok (size es ws : Z) (Hs : 0 <= size <= SIZE_MAX) (Hw : 0 <= ws) :
  StorageOk (memory_backend size es ws).
Proof.
  apply (Build_StorageOk _ (memory_backend size es ws) (fun d => d) (mem_inv size) quiet Hs Hw).
  - by intros d [].
  - by intros d [].
  - done.
  - intros off len p r p' [Hz Hb] Ho Hn Hc. simpl in *. unfold ls_memory_storage_read.
    rewrite memory_bounds_ok by lia. intros [= <- <-]. split_and!; try done; [by intros bs [= <-]|eauto].
  - intros off data p r p' [Hz Hb] Hd Ho Hc. simpl in *. unfold ls_memory_storage_write.
    pose proof (zlen_nonneg data).
    rewrite memory_bounds_ok by lia. simpl. destruct (zlen data =? 0) eqn:E; intros [= <- <-]; simpl.
    + assert (data = []) as -> by (apply length_zero_iff_nil; unfold zlen in *; blia).
      split_and!; auto using torn_refl. split; done. intros _. by rewrite splice_nil by blia.
    + unfold mem_inv. rewrite zlen_splice by lia. split_and!; auto with latch. apply torn_splice; lia.
  - intros e off len p r p' [= <-] [Hz Hb] Ho Hn Hc. simpl in *. unfold ls_memory_storage_erase.
    rewrite memory_bounds_ok by lia. simpl. intros [= <- <-]. simpl. unfold mem_inv.
    assert (zlen (fill len 255) = len) by (by apply zlen_fill).
    assert (bytes_ok (fill len 255)) by (by apply bytes_ok_fill).
    rewrite zlen_splice by lia. split_and!; auto with latch. apply torn_splice; lia.
  - done.
Defined.

(** ** The simulator implements the interface *)

Definition sim_inv (size : Z) (s : ls_storage_sim_t) : Prop :=
  zlen (sim_data s) = size /\ bytes_ok (sim_data s) /\ 0 <= partial_bytes s.

Definition sim_live (p : platform ls_storage_sim_t) : Prop :=
  quiet p /\ fail_operation (dev p) = 0.

Lemma fail_eq s b s' : fail s = (b, s') ->
  sim_data s' = sim_data s /\ enforce_nor s' = enforce_nor s /\ partial_bytes s' = partial_bytes s /\
  fail_operation s' = fail_operation s /\ (fail_operation s = 0 -> b = false).
Proof. unfold fail. intros [= <- <-]. simpl. split_and!; try done. by intros ->. Qed.

Lemma bounds_ok s off len : off + len <= zlen (sim_data s) -> 0 <= len -> bounds s off len = LS_OK.
Proof. intros. unfold bounds. destruct (_ || _) eqn:E; [|done]. bool_prop. destruct E; blia. Qed.

(** Storing a prefix tears the store. *)
Lemma torn_take off n (data l : list Z) :
  0 <= off -> 0 <= n <= zlen data -> off + zlen data <= zlen l ->
  torn off data l (splice off (slice 0 n data) l).
Proof.
  intros. rewrite <- (take_drop (Z.to_nat n) data) at 1.
  unfold slice. change (drop (Z.to_nat 0) data) with data. apply torn_prefix; [done|].
  unfold zlen in *. rewrite length_take. lia.
Qed.

(** What the simulator stores is the input wherever storing it is legal. *)
Lemma nor_store old input : bytes_ok old -> bytes_ok input -> length old = length input ->
  nor_legal old input = true -> zip_with (fun o i => u8 (Z.land o i)) old input = input.
Proof.
  intros Ho. revert input. induction Ho as [|o old Ho Hos IH]; intros [|i input] Hi Hl H; try done.
  apply Forall_cons in Hi as [Hi His]. simpl in *. bool_prop. rewrite nor_byte, u8_id by done.
  by rewrite IH by (done || lia).
Qed.

Lemma sim_write_eq s off src p r p' :
  s = dev p -> bytes_ok (sim_data s) -> bytes_ok src -> 0 <= partial_bytes s -> 0 <= off ->
  off + zlen src <= zlen (sim_data s) ->
  ls_storage_sim_write off src p = (r, p') ->
  exists n, 0 <= n <= zlen src /\ faults p' = faults p /\
    sim_data (dev p') = splice off (slice 0 n src) (sim_data s) /\
    partial_bytes (dev p') = partial_bytes s /\ fail_operation (dev p') = fail_operation s /\
    (r = LS_OK -> n = zlen src) /\
    (fail_operation s = 0 -> nor_legal (slice off (zlen src) (sim_data s)) src = true -> r = LS_OK).
Proof.
  intros -> Hb Hsrc Hpb Ho Hc H. unfold ls_storage_sim_write in H. pose proof (zlen_nonneg src).
  rewrite bounds_ok in H by lia. cbn [is_ok negb] in H.
  destruct (fail (dev p)) as [interrupted s] eqn:Ef. apply fail_eq in Ef as (Ed & En & Ep & Eo & Ei).
  set (written := if interrupted then _ else zlen src) in H.
  assert (0 <= written <= zlen src) as Hw by (unfold written; repeat case_if; blia).
  assert (interrupted = false -> written = zlen src) as Hw' by (unfold written; by intros ->).
  clearbody written. rewrite Ed in H.
  assert (zlen (slice off written (sim_data (dev p))) = written) as Hz1 by (apply zlen_slice; lia).
  assert (zlen (slice 0 written src) = written) as Hz2 by (apply zlen_slice; lia).
  destruct (enforce_nor s && negb _) eqn:Enor.
  - simplify_eq. exists 0. bool_prop. split_and!; simpl; try done; try lia.
    + rewrite Ed. change (slice 0 0 src) with (@nil Z). by rewrite splice_nil by lia.
    + intros Hf Hn. rewrite Hw' in * by auto. rewrite slice_full in *. congruence.
  - exists written. simplify_eq. cbn [dev set_dev sim_with_data sim_data partial_bytes fail_operation faults].
    split_and!; try done; try lia.
    + f_equal. destruct (enforce_nor s); [|done]. simpl in Enor. bool_prop. apply nor_store; auto with latch.
      unfold zlen in *. lia.
    + destruct interrupted; [done|]. intros _. by apply Hw'.
    + intros Hf _. by rewrite Ei.
Qed.

#[export] Instance sim_ok (size es ws : Z) (Hs : 0 <= size <= SIZE_MAX) (Hw : 0 <= ws) :
  StorageOk (sim_backend size es ws).
Proof.
  apply (Build_StorageOk _ (sim_backend size es ws) sim_data (sim_inv size) sim_live Hs Hw).
  - by intros d [].
  - by intros d (?&?&?).
  - by intros p [].
  - intros off len p r p' (Hz & Hb & Hp) Ho Hn Hc. simpl in *. unfold ls_storage_sim_read.
    rewrite bounds_ok by lia. cbn [is_ok negb].
    destruct (fail (dev p)) as [interrupted s] eqn:Ef. apply fail_eq in Ef as (Ed & En & Ep & Eo & Ei).
    unfold sim_inv, sim_live. destruct interrupted; intros [= <- <-]; simpl; rewrite ?Ed, ?Ep, ?Eo;
      split_and!; try done; try (by intros bs [= <-]); intros [? Hf]; [by specialize (Ei Hf)|eauto].
  - intros off data p r p' (Hz & Hb & Hp) Hd Ho Hc H. simpl in *. pose proof (zlen_nonneg data).
    apply (sim_write_eq (dev p)) in H as (n & Hn & Efa & Ed & Ep & Eo & Hr & Hl); try done; try lia.
    unfold sim_inv, sim_live, quiet. rewrite Ed, Ep, Eo, Efa. split_and!; try done.
    + rewrite zlen_splice; [done..|]. rewrite zlen_slice; lia.
    + auto with latch.
    + apply torn_take; lia.
    + intros ->. rewrite Hr by done. by rewrite slice_full.
    + intros [? ?]. split; [done|]. auto.
  - intros e off len p r p' [= <-] (Hz & Hb & Hp) Ho Hn Hc. simpl in *. unfold ls_storage_sim_erase.
    rewrite bounds_ok by lia. cbn [is_ok negb].
    destruct (fail (dev p)) as [interrupted s] eqn:Ef. apply fail_eq in Ef as (Ed & En & Ep & Eo & Ei).
    intros [= <- <-]. cbn [dev set_dev sim_with_data sim_data partial_bytes fail_operation faults].
    set (erased := if interrupted then _ else len).
    assert (0 <= erased <= len) as He by (unfold erased; repeat case_if; blia).
    assert (fill erased 255 = slice 0 erased (fill len 255)) as Hfill by (rewrite slice_fill by lia; done).
    assert (zlen (fill len 255) = len) by (by apply zlen_fill).
    assert (bytes_ok (fill erased 255)) by (by apply bytes_ok_fill).
    unfold sim_inv, sim_live, quiet. simpl. rewrite Ed, Ep, Eo. split_and!; try done.
    + rewrite zlen_splice; [done..|]. rewrite zlen_fill; lia.
    + auto with latch.
    + rewrite Hfill. apply torn_take; lia.
    + unfold erased. by destruct interrupted.
    + intros [? Hf]. by rewrite Ei.
  - intros s p r p' [= <-] (Hz & Hb & Hp). unfold ls_storage_sim_sync.
    destruct (fail (dev p)) as [interrupted s'] eqn:Ef. apply fail_eq in Ef as (Ed & En & Ep & Eo & Ei).
    intros [= <- <-]. unfold sim_inv, sim_live. simpl. rewrite Ed, Ep, Eo. split_and!; try done.
    intros [? Hf]. by rewrite Ei.
Defined.

(** ** Properties *)

(** C6: on every backend that keeps the storage contract, programming is exact or
    torn, never wild: success stores exactly the requested bytes, even when the
    device is written in whole units that are read, merged and written back; a
    failure at any point leaves each byte outside the request as it was and each
    byte inside it old or new; and on a live device a request that clears bits
    only and fits the write units succeeds. *)
Theorem program_exact_or_torn {D} (b : ls_storage_backend_t (platform D)) `{!StorageOk b}
    off src p r p' :
  inv (dev p) -> bytes_ok src -> 0 <= off -> off + zlen src <= capacity b ->
  ls_storage_program b off src p = (r, p') ->
  torn off src (contents (dev p)) (contents (dev p')) /\
  (r = LS_OK -> contents (dev p') = splice off src (contents (dev p))) /\
  (live p -> programmable b off src p -> program_fits b off (zlen src) -> r = LS_OK).
Proof.
  intros Hi Hs Ho Hb H. apply (program_stores b) in H as (_ & Ht & Hok & Hl); try done.
  split_and!; try done. intros Hlive Hp Hf. destruct (Hl Hlive). auto.
Qed.

(** A device of two erased four-byte units, and its backend. *)
Definition demo_platform : platform ls_memory_storage_t :=
  {| faults := no_faults; dev := fill 8 0xff |}.
Definition demo_backend := memory_backend 8 4 4.

Lemma demo_inv : mem_inv 8 (fill 8 0xff).
Proof. split; [done|]. apply bytes_ok_fill. unfold is_u8. lia. Qed.

#[export] Instance demo_ok : StorageOk demo_backend.
Proof. apply memory_ok; unfold SIZE_MAX; lia. Defined.

Lemma program_exact_or_torn_witness :
  let run := ls_storage_program demo_backend 2 [1; 2; 3] demo_platform in
  fst run = LS_OK /\ dev (snd run) = splice 2 [1; 2; 3] (fill 8 0xff).
Proof.
  split; [reflexivity|].
  destruct (program_exact_or_torn demo_backend 2 [1; 2; 3] demo_platform LS_OK
    (snd (ls_storage_program demo_backend 2 [1; 2; 3] demo_platform))) as (_ & H & _).
  - exact demo_inv.
  - repeat (apply List.Forall_cons || apply List.Forall_nil); unfold is_u8; lia.
  - lia.
  - vm_compute. discriminate.
  - reflexivity.
  - exact (H eq_refl).
Defined.

(** [ls_storage_is_erased] is exact: it changes nothing, and reports erased
    exactly when every byte of the range is 0xff; on a live device it always
    answers. *)
Theorem is_erased_exact {D} (b : ls_storage_backend_t (platform D)) `{!StorageOk b} off len p r p' :
  inv (dev p) -> 0 <= off -> 0 <= len -> off + len <= capacity b ->
  ls_storage_is_erased b off len SET p = (r, p') ->
  contents (dev p') = contents (dev p) /\
  (forall e, r = Ok e -> e = true <-> slice off len (contents (dev p)) = fill len 0xff) /\
  (live p -> exists e, r = Ok e).
Proof.
  intros Hi Ho Hn Hb H. unfold ls_storage_is_erased, storage_bounds in H.
  destruct ((_ <? off) || _) eqn:Eb; [bool_prop; destruct Eb; blia|]. simpl in H.
  apply (is_erased_loop_spec b) in H as ((_&?&_)&_&?&?); try done; lia.
Qed.

Lemma is_erased_exact_witness :
  fst (ls_storage_is_erased demo_backend 2 5 SET demo_platform) = Ok true /\
  (true = true <-> slice 2 5 (contents (StorageOk:=demo_ok) (dev demo_platform)) = fill 5 0xff).
Proof.
  destruct (is_erased_exact demo_backend 2 5 demo_platform
    (fst (ls_storage_is_erased demo_backend 2 5 SET demo_platform))
    (snd (ls_storage_is_erased demo_backend 2 5 SET demo_platform))) as (_ & H & _).
  - exact demo_inv.
  - lia.
  - lia.
  - vm_compute. discriminate.
  - reflexivity.
  - split; [vm_compute; reflexivity|]. apply H. vm_compute. reflexivity.
Defined.

(** The power-loss simulator tears a write at exactly the armed byte: the
    operation it interrupts stores the first [partial] bytes and reports
    [LS_EIO]; every other write that sets no bit stores all of its bytes,
    whether or not NOR behaviour is enforced. *)
Theorem sim_write_tears (s : ls_storage_sim_t) t off src r p' :
  bytes_ok (sim_data s) -> bytes_ok src -> 0 <= partial_bytes s -> 0 <= off ->
  off + zlen src <= zlen (sim_data s) ->
  nor_legal (slice off (zlen src) (sim_data s)) src = true ->
  ls_storage_sim_write off src {| faults := t; dev := s |} = (r, p') ->
  if negb (fail_operation s =? 0) && (inc32 (operation_count s) =? fail_operation s)
  then r = LS_EIO /\
       sim_data (dev p') = splice off (slice 0 (Z.min (partial_bytes s) (zlen src)) src) (sim_data s)
  else r = LS_OK /\ sim_data (dev p') = splice off src (sim_data s).
Proof.
  intros Hb Hsrc Hp Ho Hc Hn H. unfold ls_storage_sim_write in H. pose proof (zlen_nonneg src).
  cbn [dev] in H. rewrite bounds_ok in H by lia. cbn [is_ok negb fail] in H.
  unfold fail in H. cbn [sim_with_faults operation_count fail_operation sim_data enforce_nor partial_bytes] in H.
  set (interrupted := negb _ && _) in *.
  set (written := if interrupted then _ else zlen src) in H.
  assert (0 <= written <= zlen src) as Hw by (unfold written; repeat case_if; blia).
  assert (nor_legal (slice off written (sim_data s)) (slice 0 written src) = true) as Hn'.
  { rewrite <- (slice_full src) in Hn at 2.
    replace (zlen src) with (written + (zlen src - written)) in Hn by lia.
    rewrite !slice_split in Hn by lia. rewrite nor_legal_app in Hn; [by bool_prop|].
    rewrite !length_slice by lia. done. }
  assert (zip_with (fun o i => u8 (Z.land o i)) (slice off written (sim_data s)) (slice 0 written src)
    = slice 0 written src) as Hz.
  { apply nor_store; auto with latch. rewrite !length_slice by lia. done. }
  rewrite Hn', andb_false_r, Hz in H. simplify_eq. simpl.
  replace (if enforce_nor s then _ else _) with (slice 0 written src) by (by destruct (enforce_nor s)).
  unfold written. destruct interrupted; (split; [done|]).
  - do 2 f_equal. case_if; blia.
  - by rewrite slice_full.
Qed.

Definition demo_sim : ls_storage_sim_t :=
  {| sim_data := fill 8 0xff; enforce_nor := true; operation_count := 0;
     fail_operation := 1; partial_bytes := 2 |}.

Lemma sim_write_tears_witness :
  let run := ls_storage_sim_write 1 [5; 6; 7] {| faults := no_faults; dev := demo_sim |} in
  fst run = LS_EIO /\
  sim_data (dev (snd run)) = splice 1 (slice 0 (Z.min 2 3) [5; 6; 7]) (fill 8 0xff).
Proof.
  split; [reflexivity|].
  refine (proj2 (sim_write_tears demo_sim no_faults 1 [5; 6; 7] LS_EIO
    (snd (ls_storage_sim_write 1 [5; 6; 7] {| faults := no_faults; dev := demo_sim |})) _ _ _ _ _ _ _)).
  - apply bytes_ok_fill. unfold is_u8. lia.
  - repeat (apply List.Forall_cons || apply List.Forall_nil); unfold is_u8; lia.
  - vm_compute. discriminate.
  - lia.
  - vm_compute. discriminate.
  - reflexivity.
  - reflexivity.
Defined.
