(* ===== verification/FlashLayer.v ===== *)
(** * Shared parts of the flash layers

    The mirror ([src/storage/flash_mirror.c]) and the wear-levelling layer
    ([src/storage/wear_level.c]) both keep a structure in RAM beside a raw backend
    and lay headers, a commit marker and an image out on it.  This file holds what
    the two sources have in common: size arithmetic, generation comparison and the
    calls into the raw backend. *)

From S2P Require Import Prelude Util FaultInjection Storage.

(** ** Size arithmetic *)

Definition add_size (left right : Z) : option Z :=
  if SIZE_MAX - right <? left then None else Some (left + right).

Definition align_size (value alignment : Z) : option Z :=
  if alignment =? 0 then None
  else
    let remainder := value mod alignment in
    if remainder =? 0 then Some value else add_size value (alignment - remainder).

(** Serial-number comparison of generations. *)
Definition generation_is_newer (candidate reference : Z) : bool := 0 <? s32 (candidate - reference).

(** ** Calls into the raw backend *)

Section Layer.
Context {M D : Type} (raw : ls_storage_backend_t (platform D)).

(** The structure in RAM, and running a raw operation below it. *)
Definition ram (p : platform (M * D)) : M := fst (dev p).

Definition on_raw {A} (m : st (platform D) A) : st (platform (M * D)) A := fun p =>
  let '(a, q) := m {| faults := faults p; dev := snd (dev p) |} in
  (a, {| faults := faults q; dev := (fst (dev p), dev q) |}).

Definition set_ram (f : M -> M) : st (platform (M * D)) unit := fun p =>
  (tt, set_dev (f (fst (dev p)), snd (dev p)) p).

Definition raw_read (offset length : Z) : st (platform (M * D)) (res (list Z)) := on_raw (read raw offset length).

Definition raw_sync : st (platform (M * D)) ls_result_t :=
  match sync raw with Some s => on_raw s | None => mret LS_OK end.

(** [raw->erase], which initialisation requires to be present. *)
Definition raw_erase (offset length : Z) : st (platform (M * D)) ls_result_t :=
  match erase raw with Some e => on_raw (e offset length) | None => mret LS_ENOTSUP end.

End Layer.

(** ** Lemmas *)

Lemma add_size_Some a b r : add_size a b = Some r -> r = a + b /\ a + b <= SIZE_MAX.
Proof. unfold add_size. case_if; [done|]. intros [= <-]. bool_prop. lia. Qed.

Lemma align_size_Some v a r : 0 <= v -> 0 <= a -> align_size v a = Some r ->
  v <= r < v + a /\ r mod a = 0.
Proof.
  unfold align_size. intros Hv Ha. destruct (a =? 0) eqn:E0; [done|]. bool_prop.
  pose proof (Z.mod_pos_bound v a ltac:(lia)). destruct (v mod a =? 0) eqn:E; bool_prop.
  - intros [= <-]. lia.
  - intros [-> _]%add_size_Some. split; [lia|].
    pose proof (Z.div_mod v a ltac:(lia)).
    replace (v + (a - v mod a)) with ((v / a + 1) * a) by lia. apply Z.mod_mul. lia.
Qed.

Lemma mod_trans a b c : 0 < c -> b mod c = 0 -> 0 < b -> a mod b = 0 -> a mod c = 0.
Proof.
  intros Hc Hb Hb0 Ha. apply Z.mod_divide in Ha; [|lia]. apply Z.mod_divide in Hb; [|lia].
  apply Z.mod_divide; [lia|]. by eapply Z.divide_trans.
Qed.

Lemma newer_antisym a b : is_u32 a -> is_u32 b -> generation_is_newer a b = true ->
  generation_is_newer b a = false.
Proof.
  unfold generation_is_newer, s32, is_u32. intros Ha Hb H. bool_prop.
  assert (forall x, - 2 ^ 32 < x < 2 ^ 32 -> u32 x = if x <? 0 then x + 2 ^ 32 else x) as Hu.
  { intros x Hx. unfold u32. case_if; bool_prop.
    - symmetry. apply (Z.mod_unique _ _ (-1)); lia.
    - apply Z.mod_small. lia. }
  rewrite !Hu in * by lia. apply Z.ltb_ge. repeat case_if; blia.
Qed.

Lemma newer_succ g : is_u32 g -> generation_is_newer (u32 (g + 1)) g = true.
Proof.
  unfold generation_is_newer. intros Hg. replace (s32 _) with 1; [done|].
  unfold s32, u32. rewrite Zminus_mod_idemp_l. by replace (g + 1 - g) with 1 by lia.
Qed.

(** A pipeline step that is known to succeed. *)
Lemma and_then_step {S} (m k : st S ls_result_t) s r s' (P : Prop) :
  and_then m k s = (r, s') ->
  (forall r1 s1, m s = (r1, s1) -> r1 = LS_OK /\ (k s1 = (r, s') -> P)) -> P.
Proof.
  unfold and_then. intros H HP. destruct (m s) as [r1 s1]. destruct (HP r1 s1 eq_refl) as [-> Hk].
  by apply Hk.
Qed.

Section LayerOk.
Context {M D : Type} (raw : ls_storage_backend_t (platform D)) `{OK : !StorageOk raw}.
Implicit Types p : platform (M * D).

(** The raw device inside the layer's state, and the medium. *)
Definition raw_of (p : platform (M * D)) : platform D := {| faults := faults p; dev := snd (dev p) |}.
Definition medium (p : platform (M * D)) : list Z := contents (snd (dev p)).

Lemma on_raw_inv {A} (f : st (platform D) A) p a p' : on_raw f p = (a, p') ->
  f (raw_of p) = (a, raw_of p') /\ ram p' = ram p.
Proof.
  unfold on_raw, raw_of, ram. destruct (f _) as [b q]. intros [= <- <-]. simpl. by destruct q.
Qed.

Lemma raw_sync_same p r p' : inv (snd (dev p)) -> raw_sync raw p = (r, p') ->
  ram p' = ram p /\ inv (snd (dev p')) /\ medium p' = medium p.
Proof.
  intros Hi. unfold raw_sync. destruct (sync raw) as [s|] eqn:Es.
  - intros [H Hm]%on_raw_inv. split; [done|].
    destruct (sync_spec s (raw_of p) r (raw_of p') Es Hi H) as (?&?&_). done.
  - by intros [= <- <-].
Qed.

Lemma program_raw off data p r p' :
  inv (snd (dev p)) -> bytes_ok data -> 0 <= off -> off + zlen data <= capacity raw ->
  on_raw (ls_storage_program raw off data) p = (r, p') ->
  ram p' = ram p /\ inv (snd (dev p')) /\
  torn off data (medium p) (medium p') /\
  (r = LS_OK -> medium p' = splice off data (medium p)).
Proof.
  intros Hi Hd Ho Hb [H Hm]%on_raw_inv. split; [done|].
  apply (program_stores raw) in H as (?&?&?&_); try done.
Qed.

Lemma erase_raw off len p r p' :
  inv (snd (dev p)) -> 0 <= off -> 0 <= len -> off + len <= capacity raw ->
  raw_erase raw off len p = (r, p') ->
  ram p' = ram p /\ inv (snd (dev p')) /\
  torn off (fill len 0xff) (medium p) (medium p') /\
  (r = LS_OK -> medium p' = splice off (fill len 0xff) (medium p)).
Proof.
  intros Hi Ho Hn Hb. unfold raw_erase. destruct (erase raw) as [e|] eqn:Ee.
  - intros [H Hm]%on_raw_inv. split; [done|].
    destruct (erase_spec e off len (raw_of p) r (raw_of p') Ee Hi Ho Hn Hb H) as (?&?&?&_). done.
  - intros [= <- <-]. split_and!; try done. apply torn_refl.
Qed.

Lemma medium_zlen p : inv (snd (dev p)) -> zlen (medium p) = capacity raw.
Proof. apply contents_zlen. Qed.

Lemma raw_read_spec off len p r p' :
  inv (snd (dev p)) -> 0 <= off -> 0 <= len -> off + len <= capacity raw ->
  raw_read raw off len p = (r, p') ->
  ram p' = ram p /\ inv (snd (dev p')) /\ medium p' = medium p /\
  (forall bs, r = Ok bs -> bs = slice off len (medium p)) /\ r <> Err LS_OK /\
  (live (raw_of p) -> live (raw_of p') /\ exists bs, r = Ok bs).
Proof.
  intros Hi Ho Hn Hb [H Hm]%on_raw_inv. split; [done|].
  by apply (read_spec off len (raw_of p) r (raw_of p')).
Qed.

(** A byte stored into an erased cell: nothing, or the byte. *)
Lemma torn_byte off (v : Z) (c c' : list Z) : 0 <= off -> off + 1 <= zlen c ->
  torn off [v] c c' -> c' = c \/ c' = splice off [v] c.
Proof.
  intros Ho Hb [Hl H]. destruct (H (Z.to_nat off)) as [E|[_ E]].
  - left. apply list_eq. intros i. destruct (H i) as [?|[Hi ?]]; [done|].
    unfold zlen in Hi. simpl in Hi. by replace i with (Z.to_nat off) by lia.
  - right. apply list_eq. intros i. rewrite splice_lookup by (unfold zlen in *; simpl; lia).
    unfold zlen. simpl length. case_decide as Hd.
    + replace i with (Z.to_nat off) by lia. done.
    + destruct (H i) as [?|[Hi ?]]; [done|]. unfold zlen in Hi. simpl in Hi. lia.
Qed.

(** *** Progress on a live device *)

Definition unit_size : Z := if negb (write_size raw =? 0) then write_size raw else 1.

Lemma unit_size_pos : 1 <= unit_size.
Proof. unfold unit_size. pose proof write_size_range. case_if; blia. Qed.

Lemma fits_aligned off len E :
  unit_size <= LS_STORAGE_MAX_WRITE_SIZE -> 0 <= off -> 0 <= len -> off + len <= E -> E mod unit_size = 0 ->
  E <= capacity raw -> off + len + LS_STORAGE_MAX_WRITE_SIZE <= SIZE_MAX -> program_fits raw off len.
Proof.
  intros Hu Ho Hl HE Hm Hc Hs. unfold program_fits. fold unit_size. pose proof unit_size_pos as Hp.
  cbv zeta. split; [done|]. intros _. split; [lia|].
  destruct (unit_span off (off + len) unit_size Hp ltac:(lia)) as (_ & _ & Hlast & _).
  apply Z.div_exact in Hm; [|lia]. set (q := (off + len + unit_size - 1) / unit_size) in *.
  set (k := E / unit_size) in *. assert (q <= k) by nia. nia.
Qed.

Lemma program_live off data E p r p' :
  live (raw_of p) -> inv (snd (dev p)) -> bytes_ok data -> 0 <= off -> off + zlen data <= E ->
  E mod unit_size = 0 -> E <= capacity raw -> unit_size <= LS_STORAGE_MAX_WRITE_SIZE ->
  off + zlen data + LS_STORAGE_MAX_WRITE_SIZE <= SIZE_MAX ->
  nor_legal (slice off (zlen data) (medium p)) data = true ->
  on_raw (ls_storage_program raw off data) p = (r, p') ->
  r = LS_OK /\ live (raw_of p') /\ inv (snd (dev p')) /\ medium p' = splice off data (medium p).
Proof.
  intros Hl Hi Hd Ho HE Hm Hc Hu Hs Hn [H _]%on_raw_inv. pose proof (zlen_nonneg data).
  apply (program_stores raw) in H as (Hi' & _ & Hst & Hlv); [|done|done|lia|lia].
  destruct (Hlv Hl) as [Hl' Hr]. assert (r = LS_OK) as ->.
  { apply Hr. split; [done|]. by eapply fits_aligned. }
  split_and!; try done. by apply Hst.
Qed.

Lemma raw_sync_live p r p' : live (raw_of p) -> inv (snd (dev p)) -> raw_sync raw p = (r, p') ->
  r = LS_OK /\ live (raw_of p') /\ inv (snd (dev p')) /\ medium p' = medium p.
Proof.
  intros Hl Hi. unfold raw_sync. destruct (sync raw) as [s|] eqn:Es.
  - intros [H Hm]%on_raw_inv.
    destruct (sync_spec s (raw_of p) r (raw_of p') Es Hi H) as (?&?&Hs). destruct (Hs Hl). done.
  - by intros [= <- <-].
Qed.

Lemma raw_erase_live off len p r p' : is_Some (erase raw) -> live (raw_of p) -> inv (snd (dev p)) ->
  0 <= off -> 0 <= len -> off + len <= capacity raw -> raw_erase raw off len p = (r, p') ->
  r = LS_OK /\ live (raw_of p') /\ inv (snd (dev p')) /\ medium p' = splice off (fill len 0xff) (medium p).
Proof.
  intros [e Ee] Hl Hi Ho Hn Hb. unfold raw_erase. rewrite Ee. intros [H Hm]%on_raw_inv.
  destruct (erase_spec e off len (raw_of p) r (raw_of p') Ee Hi Ho Hn Hb H) as (?&_&Hs&Hlv).
  destruct (Hlv Hl) as [? ->]. split_and!; try done. by apply Hs.
Qed.

End LayerOk.
