(* ===== verification/FlashMirror.v ===== *)
(** * The two-bank flash mirror ([src/storage/flash_mirror.c])

    A byte-addressable store with atomic updates on raw flash: two banks, each
    with a header, a commit marker and a full image.  An update rewrites the
    inactive bank and commits it with a single byte; initialisation picks the
    newest valid bank. *)

From S2P Require Import Prelude Util FaultInjection Storage FlashLayer.

Definition FLASH_MAGIC : Z := 0x464d534c.
Definition FLASH_VERSION : Z := 2.
Definition FLASH_COMMITTED : Z := 0xa5.

Record flash_header_t : Type := {
  magic : Z;
  version : Z;
  generation : Z;
  logical_capacity : Z;
  data_crc : Z;
  hdr_crc : Z;
}.

Definition header_layout : list nat := [4; 4; 4; 4; 4; 4]%nat.
Definition header_size : Z := 24.

(** The bytes of the structure in memory, and back. *)
Definition header_pack (h : flash_header_t) : list Z :=
  pack header_layout
    [magic h; version h; generation h; logical_capacity h; data_crc h; hdr_crc h].

Definition header_unpack (bs : list Z) : flash_header_t :=
  match unpack header_layout bs with
  | [m; v; g; l; d; c] =>
      {| magic := m; version := v; generation := g; logical_capacity := l; data_crc := d; hdr_crc := c |}
  | _ => {| magic := 0; version := 0; generation := 0; logical_capacity := 0; data_crc := 0; hdr_crc := 0 |}
  end.

(** ** Layout *)

(** Payload offset, commit offset and bank size. *)
Definition flash_layout (lcap esize wsize : Z) : option (Z * Z * Z) :=
  if (lcap =? 0) || (esize =? 0) || (wsize =? 0) || (esize <? wsize) ||
     negb (esize mod wsize =? 0) || (LS_STORAGE_MAX_WRITE_SIZE <? wsize)
  then None
  else
    commit ← align_size header_size wsize;
    metadata_end ← add_size commit wsize;
    payload ← align_size metadata_end wsize;
    bank ← add_size payload lcap;
    bank ← align_size bank esize;
    Some (payload, commit, bank).

Definition ls_flash_mirror_physical_size_for_write (lcap esize wsize : Z) : Z :=
  let wsize := if wsize =? 0 then 1 else wsize in
  match flash_layout lcap esize wsize with
  | None => 0
  | Some (_, _, bank) => default 0 (add_size bank bank)
  end.

Definition ls_flash_mirror_physical_size (lcap esize : Z) : Z :=
  ls_flash_mirror_physical_size_for_write lcap esize 1.

(** ** The mirror in RAM *)

Record ls_flash_mirror_t : Type := {
  workspace : list Z;
  m_capacity : Z;
  bank_size : Z;
  payload_offset : Z;
  commit_offset : Z;
  active_bank : Z;
  m_generation : Z;
}.

Definition with_workspace (ws : list Z) (m : ls_flash_mirror_t) : ls_flash_mirror_t :=
  {| workspace := ws; m_capacity := m_capacity m; bank_size := bank_size m;
     payload_offset := payload_offset m; commit_offset := commit_offset m;
     active_bank := active_bank m; m_generation := m_generation m |}.

Definition with_active (bank generation : Z) (m : ls_flash_mirror_t) : ls_flash_mirror_t :=
  {| workspace := workspace m; m_capacity := m_capacity m; bank_size := bank_size m;
     payload_offset := payload_offset m; commit_offset := commit_offset m;
     active_bank := bank; m_generation := generation |}.

Definition bank_offset (m : ls_flash_mirror_t) (bank : Z) : Z := bank * bank_size m.

Definition header_crc (h : flash_header_t) : Z := ls_crc32 (slice 0 20 (header_pack h)).

Definition valid_header (m : ls_flash_mirror_t) (h : flash_header_t) : bool :=
  (magic h =? FLASH_MAGIC) && (version h =? FLASH_VERSION) &&
  (logical_capacity h =? m_capacity m) && (hdr_crc h =? header_crc h).

Section Mirror.
Context {D : Type} (raw : ls_storage_backend_t (platform D)).
Local Abbreviation raw_read := (raw_read raw).
Local Abbreviation raw_sync := (raw_sync raw).
Local Abbreviation raw_erase := (raw_erase raw).

(** The mirror structure lives beside the raw device. *)
Definition mstate : Type := platform (ls_flash_mirror_t * D).

Definition valid_bank (bank : Z) : st mstate (res (flash_header_t * bool)) := fun p =>
  let m := ram p in
  let offset := bank_offset m bank in
  let '(r, p) := raw_read offset header_size p in
  match r with
  | Err e => (Err e, p)
  | Ok bs =>
      let header := header_unpack bs in
      if negb (valid_header m header) then (Ok (header, false), p)
      else
        let '(r, p) := raw_read (offset + commit_offset m) 1 p in
        match r with
        | Err e => (Err e, p)
        | Ok committed =>
            if negb (le_get committed =? FLASH_COMMITTED) then (Ok (header, false), p)
            else
              let '(r, p) := raw_read (offset + payload_offset m) (m_capacity m) p in
              match r with
              | Err e => (Err e, p)
              | Ok image =>
                  let '(_, p) := set_ram (with_workspace image) p in
                  (Ok (header, data_crc header =? ls_crc32 image), p)
              end
        end
  end.

Definition write_commit_marker (offset : Z) : st mstate ls_result_t := fun p =>
  on_raw (ls_storage_program raw (offset + commit_offset (ram p)) [FLASH_COMMITTED]) p.

(** The header [commit_image] writes for an image. *)
Definition image_header (m : ls_flash_mirror_t) (gen : Z) (image : list Z) : flash_header_t :=
  let h := {| magic := FLASH_MAGIC; version := FLASH_VERSION; generation := gen;
              logical_capacity := u32 (m_capacity m); data_crc := ls_crc32 image; hdr_crc := 0 |} in
  {| magic := magic h; version := version h; generation := generation h;
     logical_capacity := logical_capacity h; data_crc := data_crc h; hdr_crc := header_crc h |}.

Definition commit_image (bank gen : Z) : st mstate ls_result_t := fun p =>
  let m := ram p in
  let offset := bank_offset m bank in
  let header := image_header m gen (workspace m) in
  (raw_erase offset (bank_size m) ;;?
   on_raw (ls_storage_program raw offset (header_pack header)) ;;?
   on_raw (ls_storage_program raw (offset + payload_offset m) (workspace m)) ;;?
   raw_sync ;;?
   write_commit_marker offset ;;?
   raw_sync ;;?
   (fun p => let '(_, p) := set_ram (with_active bank gen) p in (LS_OK, p))) p.

Definition mirror_read (offset length : Z) : st mstate (res (list Z)) := fun p =>
  let m := ram p in
  if (m_capacity m <? offset) || (m_capacity m - offset <? length) then (Err LS_EINVAL, p)
  else raw_read (bank_offset m (active_bank m) + payload_offset m + offset) length p.

(** [read_active_image]: the active image into the workspace. *)
Definition read_active_image : st mstate ls_result_t := fun p =>
  let m := ram p in
  let '(r, p) := raw_read (bank_offset m (active_bank m) + payload_offset m) (m_capacity m) p in
  match r with
  | Err e => (e, p)
  | Ok image => let '(_, p) := set_ram (with_workspace image) p in (LS_OK, p)
  end.

(** [update_image] with the bytes to store, or [erase] for 0xff. *)
Definition update_image (offset length : Z) (source : option (list Z)) : st mstate ls_result_t := fun p =>
  let m := ram p in
  if (m_capacity m <? offset) || (m_capacity m - offset <? length) then (LS_EINVAL, p)
  else
    (read_active_image ;;?
     (fun p =>
        let m := ram p in
        let data := match source with Some d => d | None => fill length 0xff end in
        let '(_, p) := set_ram (with_workspace (splice offset data (workspace m))) p in
        commit_image (Z.lxor (active_bank m) 1) (u32 (m_generation m + 1)) p)) p.

Definition mirror_write (offset : Z) (source : list Z) : st mstate ls_result_t :=
  update_image offset (zlen source) (Some source).

Definition mirror_erase (offset length : Z) : st mstate ls_result_t := update_image offset length None.

Definition mirror_sync : st mstate ls_result_t := raw_sync.

(** The backend initialisation publishes. *)
Definition mirror_backend (lcap : Z) : ls_storage_backend_t mstate :=
  Build_ls_storage_backend_t lcap 1 1 mirror_read mirror_write (Some mirror_erase) (Some mirror_sync).

(** [ls_flash_mirror_init] with a non-null mirror and workspace. *)
Definition ls_flash_mirror_init (ws : list Z) (lcap : Z) : st mstate ls_result_t := fun p =>
  match erase raw with
  | None => (LS_EINVAL, p)
  | Some _ =>
      if (lcap =? 0) || (UINT32_MAX <? lcap) then (LS_EINVAL, p)
      else
        let wsize := if negb (write_size raw =? 0) then write_size raw else 1 in
        match flash_layout lcap (erase_size raw) wsize with
        | None => (LS_EINVAL, p)
        | Some (payload, commit, bank) =>
            if (SIZE_MAX / 2 <? bank) || (capacity raw <? bank * 2) then (LS_ENOSPACE, p)
            else
              let '(_, p) := set_ram (fun _ =>
                {| workspace := ws; m_capacity := lcap; bank_size := bank; payload_offset := payload;
                   commit_offset := commit; active_bank := 0; m_generation := 0 |}) p in
              let '(r1, p) := valid_bank 0 p in
              match r1 with
              | Err e => (e, p)
              | Ok (first, first_valid) =>
                  let '(r2, p) := valid_bank 1 p in
                  match r2 with
                  | Err e => (e, p)
                  | Ok (second, second_valid) =>
                      if first_valid || second_valid then
                        if second_valid &&
                           (negb first_valid || generation_is_newer (generation second) (generation first))
                        then let '(_, p) := set_ram (with_active 1 (generation second)) p in (LS_OK, p)
                        else let '(_, p) := set_ram (with_active 0 (generation first)) p in (LS_OK, p)
                      else
                        let '(_, p) := set_ram (with_workspace (fill lcap 0xff)) p in
                        commit_image 0 1 p
                  end
              end
        end
  end.
End Mirror.

(** ** Headers as bytes *)

Definition header_ok (h : flash_header_t) : Prop :=
  is_u32 (magic h) /\ is_u32 (version h) /\ is_u32 (generation h) /\ is_u32 (logical_capacity h) /\
  is_u32 (data_crc h) /\ is_u32 (hdr_crc h).

Lemma header_roundtrip h : header_ok h -> header_unpack (header_pack h) = h.
Proof.
  intros (?&?&?&?&?&?). unfold header_unpack, header_pack.
  rewrite <- (app_nil_r (pack _ _)), unpack_pack by solve_fits.
  by destruct h.
Qed.

Lemma header_pack_zlen h : zlen (header_pack h) = header_size.
Proof. unfold zlen, header_pack. by rewrite length_pack. Qed.

Lemma header_pack_bytes h : bytes_ok (header_pack h).
Proof. apply bytes_ok_pack. Qed.
#[export] Hint Resolve header_pack_bytes : latch.

(** The checksum covers the first twenty bytes, whatever the checksum field holds. *)
Lemma header_crc_covers h h' :
  magic h = magic h' -> version h = version h' -> generation h = generation h' ->
  logical_capacity h = logical_capacity h' -> data_crc h = data_crc h' -> header_crc h = header_crc h'.
Proof.
  intros E1 E2 E3 E4 E5. unfold header_crc, header_pack. rewrite E1, E2, E3, E4, E5. simpl pack.
  do 1 f_equal.
Qed.

Lemma image_header_ok m gen img : is_u32 gen -> header_ok (image_header m gen img).
Proof.
  intros. unfold header_ok, image_header.
  cbn [magic version generation logical_capacity data_crc hdr_crc].
  split; [by vm_compute|]. split; [by vm_compute|]. split; [assumption|].
  split; [apply u32_range|]. split; apply crc32_range.
Qed.

Lemma image_header_valid m gen img : is_u32 (m_capacity m) -> valid_header m (image_header m gen img) = true.
Proof.
  intros H. unfold valid_header, image_header.
  cbn [magic version generation logical_capacity data_crc hdr_crc].
  rewrite u32_id by done. rewrite (Z.eqb_refl FLASH_MAGIC), (Z.eqb_refl FLASH_VERSION), (Z.eqb_refl (m_capacity m)), !andb_true_l.
  apply Z.eqb_eq. by apply header_crc_covers.
Qed.

(** ** Layout *)

Lemma flash_layout_Some lcap es ws payload commit bank :
  0 <= lcap -> 0 <= es -> 0 <= ws -> flash_layout lcap es ws = Some (payload, commit, bank) ->
  0 < lcap /\ 1 <= ws <= LS_STORAGE_MAX_WRITE_SIZE /\ header_size <= commit /\ commit + ws <= payload /\
  payload + lcap <= bank /\ commit mod ws = 0 /\ payload mod ws = 0 /\ bank mod ws = 0.
Proof.
  intros Hl He Hw H. unfold flash_layout in H. case_if; [done|].
  repeat match goal with H : (_ || _) = false |- _ => apply orb_false_iff in H as [? ?] end. bool_prop.
  apply bind_Some in H as (commit' & [Hc1 Hc2]%align_size_Some & H); [|unfold header_size; lia..].
  apply bind_Some in H as (md & [-> Hmd]%add_size_Some & H). unfold header_size in *.
  apply bind_Some in H as (pl & [Hp1 Hp2]%align_size_Some & H); [|lia..].
  apply bind_Some in H as (bk & [-> Hbk]%add_size_Some & H).
  apply bind_Some in H as (bk' & [Hb1 Hb2]%align_size_Some & H); [|lia..].
  simplify_eq. unfold header_size. split_and!; try lia; try done.
  eapply (mod_trans _ es); [lia|done|lia|done].
Qed.

(** ** The medium of the mirror *)

Section MirrorOk.
Context {D : Type} (raw : ls_storage_backend_t (platform D)) `{OK : !StorageOk raw}.
Implicit Types p : @mstate D.
Local Abbreviation medium := (medium raw).
Local Abbreviation unit_size := (unit_size raw).

(** The geometry [ls_flash_mirror_init] establishes. *)
Record layout_ok (m : ls_flash_mirror_t) : Prop := {
  lay_capacity : 0 < m_capacity m <= UINT32_MAX;
  lay_commit : header_size <= commit_offset m;
  lay_payload : commit_offset m + 1 <= payload_offset m;
  lay_bank : payload_offset m + m_capacity m <= bank_size m;
  lay_fits : 2 * bank_size m <= capacity raw;
}.

(** The committed image [img] of generation [gen] fills [bank]. *)
Record bank_holds (m : ls_flash_mirror_t) (c : list Z) (bank gen : Z) (img : list Z) : Prop := {
  bh_header : slice (bank_offset m bank) header_size c = header_pack (image_header m gen img);
  bh_marker : slice (bank_offset m bank + commit_offset m) 1 c = [FLASH_COMMITTED];
  bh_image : slice (bank_offset m bank + payload_offset m) (m_capacity m) c = img;
}.

Definition is_bank (bank : Z) : Prop := bank = 0 \/ bank = 1.

(** What a run of [commit_image] on [bank] can leave behind. *)
Record commit_result (m : ls_flash_mirror_t) (bank gen : Z) (img : list Z) (p : mstate)
    (r : ls_result_t) (p' : mstate) : Prop := {
  cr_inv : inv (snd (dev p'));
  cr_mirror : ram p' = if is_ok r then with_active bank gen m else m;
  cr_outside : outside (bank_offset m bank) (bank_size m) (medium p) (medium p');
  cr_state :
    torn (bank_offset m bank) (fill (bank_size m) 0xff) (medium p) (medium p') \/
    slice (bank_offset m bank + commit_offset m) 1 (medium p') = [0xff] \/
    bank_holds m (medium p') bank gen img;
  cr_ok : r = LS_OK -> bank_holds m (medium p') bank gen img;
}.

Lemma bank_range m bank : layout_ok m -> is_bank bank ->
  0 <= bank_offset m bank /\ bank_offset m bank + bank_size m <= capacity raw.
Proof.
  intros [] Hb. unfold bank_offset, header_size in *. destruct Hb as [-> | ->]; lia.
Qed.

Lemma commit_failed m bank gen img p r p' :
  inv (snd (dev p')) -> ram p' = m -> r <> LS_OK ->
  outside (bank_offset m bank) (bank_size m) (medium p) (medium p') ->
  torn (bank_offset m bank) (fill (bank_size m) 0xff) (medium p) (medium p') \/
  slice (bank_offset m bank + commit_offset m) 1 (medium p') = [0xff] \/
  bank_holds m (medium p') bank gen img ->
  commit_result m bank gen img p r p'.
Proof.
  intros Hi Hm Hr Ho Hs. split; try done.
  by destruct (is_ok r) eqn:E; [apply is_ok_true in E|].
Qed.

(** The three stores of a commit produce a valid bank. *)
Lemma commit_bytes m bank gen c :
  layout_ok m -> is_bank bank -> zlen (workspace m) = m_capacity m -> zlen c = capacity raw ->
  let B := bank_offset m bank in
  bank_holds m
    (splice (B + commit_offset m) [FLASH_COMMITTED]
      (splice (B + payload_offset m) (workspace m)
        (splice B (header_pack (image_header m gen (workspace m))) c))) bank gen (workspace m).
Proof.
  intros Hlay Hb Hws Hc B. destruct (bank_range m bank Hlay Hb) as [HB HB2]. fold B in HB, HB2.
  destruct Hlay as [L1 L2 L3 L4 L5]. unfold header_size in *.
  pose proof (header_pack_zlen (image_header m gen (workspace m))) as Hz. unfold header_size in Hz.
  assert (zlen [FLASH_COMMITTED] = 1) as H1 by done.
  split; fold B; unfold header_size.
  - rewrite !slice_splice_disjoint by (rewrite ?zlen_splice; rewrite ?zlen_splice; lia).
    rewrite <- Hz. apply slice_splice_same; lia.
  - rewrite <- H1. apply slice_splice_same; rewrite ?zlen_splice; rewrite ?zlen_splice; lia.
  - rewrite slice_splice_disjoint by (rewrite ?zlen_splice; rewrite ?zlen_splice; lia).
    rewrite <- Hws. apply slice_splice_same; rewrite ?zlen_splice; lia.
Qed.

(** The last two steps: the marker and the closing sync. *)
Lemma commit_marker m bank gen p p1 r p' c :
  layout_ok m -> is_bank bank -> inv (snd (dev p1)) -> ram p1 = m ->
  zlen (workspace m) = m_capacity m -> zlen c = capacity raw ->
  outside (bank_offset m bank) (bank_size m) (medium p) (medium p1) ->
  slice (bank_offset m bank + commit_offset m) 1 (medium p1) = [0xff] ->
  medium p1 = splice (bank_offset m bank + payload_offset m) (workspace m)
                (splice (bank_offset m bank) (header_pack (image_header m gen (workspace m))) c) ->
  (write_commit_marker raw (bank_offset m bank) ;;?
   raw_sync raw ;;?
   (fun p => let '(_, p) := set_ram (with_active bank gen) p in (LS_OK, p))) p1 = (r, p') ->
  commit_result m bank gen (workspace m) p r p'.
Proof.
  intros Hlay Hb Hi Hm Hws Hc Hout Hmark Hmed H.
  pose proof (commit_bytes m bank gen c Hlay Hb Hws Hc) as Hholds. cbv zeta in Hholds. rewrite <- Hmed in Hholds.
  destruct (bank_range m bank Hlay Hb) as [HB HB2]. pose proof Hlay as [L1 L2 L3 L4 L5].
  unfold header_size in *. set (B := bank_offset m bank) in *.
  pose proof (medium_zlen raw p1 Hi) as Hz.
  assert (forall p2, torn (B + commit_offset m) [FLASH_COMMITTED] (medium p1) (medium p2) ->
    outside B (bank_size m) (medium p) (medium p2)) as Hout2.
  { intros p2 Ht. eapply outside_trans; [exact Hout|]. eapply torn_outside; [exact Ht|lia|].
    change (zlen [FLASH_COMMITTED]) with 1. lia. }
  apply and_then_inv in H as [[H Hr] | (p2 & H1 & H)].
  - unfold write_commit_marker in H. rewrite Hm in H.
    apply (program_raw raw) in H as (Hm2 & Hi2 & Ht & _); [|done|by repeat constructor|lia|by change (zlen [FLASH_COMMITTED]) with 1; lia].
    apply commit_failed; try done; [congruence|by apply Hout2|]. right.
    apply torn_byte in Ht as [-> | ->]; [by left|by right|lia|lia].
  - unfold write_commit_marker in H1. rewrite Hm in H1.
    apply (program_raw raw) in H1 as (Hm2 & Hi2 & Ht & Hs); [|done|by repeat constructor|lia|by change (zlen [FLASH_COMMITTED]) with 1; lia].
    specialize (Hs eq_refl). specialize (Hout2 p2 Ht). rewrite <- Hs in Hholds.
    apply and_then_inv in H as [[H Hr] | (p3 & H3 & H)].
    + apply (raw_sync_same raw) in H as (Hm3 & Hi3 & E3); [|done].
      apply commit_failed; try done; [congruence|by rewrite E3|]. right. right. by rewrite E3.
    + apply (raw_sync_same raw) in H3 as (Hm3 & Hi3 & E3); [|done].
      unfold set_ram in H. simplify_eq. split; simpl; try done.
      * unfold ram in *. simpl. congruence.
      * unfold medium in *. simpl. by rewrite E3.
      * right. right. unfold medium in *. simpl. by rewrite E3.
      * intros _. unfold medium in *. simpl. by rewrite E3.
Qed.

(** The steps of a commit after the erase. *)
Lemma commit_after_erase m bank gen p p1 r p' :
  layout_ok m -> is_bank bank -> inv (snd (dev p1)) -> ram p1 = m ->
  zlen (workspace m) = m_capacity m -> bytes_ok (workspace m) ->
  zlen (medium p) = capacity raw ->
  medium p1 = splice (bank_offset m bank) (fill (bank_size m) 0xff) (medium p) ->
  let offset := bank_offset m bank in
  (on_raw (ls_storage_program raw offset (header_pack (image_header m gen (workspace m)))) ;;?
   on_raw (ls_storage_program raw (offset + payload_offset m) (workspace m)) ;;?
   raw_sync raw ;;?
   write_commit_marker raw offset ;;?
   raw_sync raw ;;?
   (fun p => let '(_, p) := set_ram (with_active bank gen) p in (LS_OK, p))) p1 = (r, p') ->
  commit_result m bank gen (workspace m) p r p'.
Proof.
  intros Hlay Hb Hi Hm Hws Hwb Hz Hmed B H.
  destruct (bank_range m bank Hlay Hb) as [HB HB2]. pose proof Hlay as [L1 L2 L3 L4 L5]. fold B in Hmed, HB, HB2.
  pose proof (medium_zlen raw p1 Hi) as Hz1. pose proof (header_pack_zlen (image_header m gen (workspace m))) as Hzh.
  unfold header_size in *.
  assert (zlen (fill (bank_size m) 255) = bank_size m) as Hzf by (apply zlen_fill; lia).
  assert (outside B (bank_size m) (medium p) (medium p1)) as Ho1.
  { rewrite Hmed. eapply torn_outside; [apply torn_splice; lia|lia|lia]. }
  assert (slice (B + commit_offset m) 1 (medium p1) = [255]) as Hk1.
  { rewrite Hmed, slice_splice_within, slice_fill by lia. done. }
  apply and_then_inv in H as [[H Hr] | (p2 & H2 & H)].
  { apply (program_raw raw) in H as (Hm2 & Hi2 & Ht & _); [|auto with latch..|lia].
    apply commit_failed; try done; [congruence| |].
    - eapply outside_trans; [exact Ho1|]. eapply torn_outside; [exact Ht|lia|lia].
    - right. left. fold B. rewrite (torn_slice_disjoint _ _ _ _ _ _ Ht) by lia. done. }
  apply (program_raw raw) in H2 as (Hm2 & Hi2 & Ht & Hs); [|auto with latch..|lia].
  specialize (Hs eq_refl).
  assert (outside B (bank_size m) (medium p) (medium p2)) as Ho2.
  { eapply outside_trans; [exact Ho1|]. eapply torn_outside; [exact Ht|lia|lia]. }
  assert (slice (B + commit_offset m) 1 (medium p2) = [255]) as Hk2
    by (rewrite (torn_slice_disjoint _ _ _ _ _ _ Ht) by lia; done).
  apply and_then_inv in H as [[H Hr] | (p3 & H3 & H)].
  { apply (program_raw raw) in H as (Hm3 & Hi3 & Ht3 & _); [|done|done|lia|lia].
    apply commit_failed; try done; [congruence| |].
    - eapply outside_trans; [exact Ho2|]. eapply torn_outside; [exact Ht3|lia|lia].
    - right. left. fold B. rewrite (torn_slice_disjoint _ _ _ _ _ _ Ht3) by lia. done. }
  apply (program_raw raw) in H3 as (Hm3 & Hi3 & Ht3 & Hs3); [|done|done|lia|lia].
  specialize (Hs3 eq_refl).
  assert (outside B (bank_size m) (medium p) (medium p3)) as Ho3.
  { eapply outside_trans; [exact Ho2|]. eapply torn_outside; [exact Ht3|lia|lia]. }
  assert (slice (B + commit_offset m) 1 (medium p3) = [255]) as Hk3
    by (rewrite (torn_slice_disjoint _ _ _ _ _ _ Ht3) by lia; done).
  apply and_then_inv in H as [[H Hr] | (p4 & H4 & H)].
  { apply (raw_sync_same raw) in H as (Hm4 & Hi4 & E4); [|done].
    apply commit_failed; try done; [congruence|by rewrite E4|]. right. left. by rewrite E4. }
  apply (raw_sync_same raw) in H4 as (Hm4 & Hi4 & E4); [|done].
  eapply (commit_marker m bank gen p p4 r p' (medium p1)); try done; [congruence|by rewrite E4..|].
  by rewrite E4, Hs3, Hs.
Qed.

Lemma commit_image_result m bank gen p r p' :
  layout_ok m -> is_bank bank -> inv (snd (dev p)) -> ram p = m ->
  zlen (workspace m) = m_capacity m -> bytes_ok (workspace m) ->
  commit_image raw bank gen p = (r, p') ->
  commit_result m bank gen (workspace m) p r p'.
Proof.
  intros Hlay Hb Hi Hm Hws Hwb H. unfold commit_image in H. rewrite Hm in H.
  destruct (bank_range m bank Hlay Hb) as [HB HB2]. pose proof Hlay as [L1 L2 L3 L4 L5].
  unfold header_size in *.
  assert (zlen (fill (bank_size m) 255) = bank_size m) as Hzf by (apply zlen_fill; lia).
  apply and_then_inv in H as [[H Hr] | (p1 & H1 & H)].
  - apply (erase_raw raw) in H as (Hm1 & Hi1 & Ht & _); [|done|lia..].
    apply commit_failed; try done; [congruence| |by left]. eapply torn_outside; [done|lia|lia].
  - apply (erase_raw raw) in H1 as (Hm1 & Hi1 & Ht & Hs); [|done|lia..].
    eapply (commit_after_erase m bank gen p p1); try done; [congruence|by apply (medium_zlen raw)|auto].
Qed.
(** *** Progress on a live device *)

(** The write units divide the layout, with room for the rounding of [ls_storage_program]. *)
Record units_ok (m : ls_flash_mirror_t) : Prop := {
  un_size : unit_size <= LS_STORAGE_MAX_WRITE_SIZE;
  un_commit : commit_offset m mod unit_size = 0;
  un_payload : payload_offset m mod unit_size = 0;
  un_bank : bank_size m mod unit_size = 0;
  un_marker : commit_offset m + unit_size <= payload_offset m;
  un_room : 2 * bank_size m + LS_STORAGE_MAX_WRITE_SIZE <= SIZE_MAX;
  un_erase : is_Some (erase raw);
}.

Lemma commit_live m bank gen p r p' :
  layout_ok m -> units_ok m -> is_bank bank -> inv (snd (dev p)) -> ram p = m ->
  zlen (workspace m) = m_capacity m -> bytes_ok (workspace m) -> live (raw_of p) ->
  commit_image raw bank gen p = (r, p') -> r = LS_OK /\ live (raw_of p').
Proof.
  intros Hlay [U1 U2 U3 U4 U5 U6 U7] Hb Hi Hm Hws Hwb Hl H. unfold commit_image in H. rewrite Hm in H.
  destruct (bank_range m bank Hlay Hb) as [HB HB2]. destruct Hlay as [L1 L2 L3 L4 L5].
  pose proof (medium_zlen raw p Hi) as Hz. pose proof (unit_size_pos raw) as Hup.
  pose proof (header_pack_zlen (image_header m gen (workspace m))) as Hzh. unfold header_size in *.
  set (B := bank_offset m bank) in *. set (hdr := header_pack _) in *.
  assert (B mod unit_size = 0) as HBm.
  { unfold B, bank_offset. rewrite Z.mul_mod, U4, Z.mul_0_r by lia. apply Z.mod_0_l. lia. }
  assert (forall o, o mod unit_size = 0 -> (B + o) mod unit_size = 0) as Hadd.
  { intros o Ho. rewrite Z.add_mod, HBm, Ho by lia. apply Z.mod_0_l. lia. }
  assert (B + bank_size m <= 2 * bank_size m) as HB3
    by (unfold B, bank_offset; destruct Hb as [-> | ->]; lia).
  assert (zlen (fill (bank_size m) 255) = bank_size m) as Hzf by (apply zlen_fill; lia).
  assert (forall o n d, 0 <= o -> 0 <= n -> o + n <= bank_size m ->
    nor_legal (slice (B + o) n (splice B (fill (bank_size m) 255) (medium p))) d = true) as Hn.
  { intros. rewrite slice_splice_within, slice_fill by lia. apply nor_legal_erased. }
  eapply and_then_step; [exact H|]; clear H. intros r1 p1 H1.
  assert (ram p1 = m) as Hm1 by (apply (erase_raw raw) in H1 as (?&_); try done; try lia; congruence).
  apply (raw_erase_live raw) in H1 as (-> & Hl1 & Hi1 & E1); try done; try lia. split; [done|]. intros H.
  eapply and_then_step; [exact H|]; clear H. intros r2 p2 H2.
  assert (ram p2 = m) as Hm2 by (apply on_raw_inv in H2 as [_ ?]; congruence).
  apply (program_live raw _ _ (B + commit_offset m)) in H2 as (-> & Hl2 & Hi2 & E2);
    try done; try lia.
  2:{ apply header_pack_bytes. }
  2:{ by apply Hadd. }
  2:{ rewrite E1. replace B with (B + 0) at 1 by lia. apply Hn; lia. }
  split; [done|]. intros H. eapply and_then_step; [exact H|]; clear H. intros r3 p3 H3.
  assert (ram p3 = m) as Hm3 by (apply on_raw_inv in H3 as [_ ?]; congruence).
  apply (program_live raw _ _ (B + bank_size m)) in H3 as (-> & Hl3 & Hi3 & E3);
    try done; try lia; [|by apply Hadd|].
  2:{ rewrite E2, E1, slice_splice_disjoint by (rewrite ?zlen_splice; lia). apply Hn; lia. }
  split; [done|]. intros H. eapply and_then_step; [exact H|]; clear H. intros r4 p4 H4.
  assert (ram p4 = m) as Hm4 by (apply (raw_sync_same raw) in H4 as (?&_); try done; congruence).
  apply (raw_sync_live raw) in H4 as (-> & Hl4 & Hi4 & E4); try done. split; [done|]. intros H.
  eapply and_then_step; [exact H|]; clear H. intros r5 p5 H5. unfold write_commit_marker in H5.
  rewrite Hm4 in H5. change 1 with (zlen [FLASH_COMMITTED]) in L3.
  apply (program_live raw _ _ (B + commit_offset m + unit_size)) in H5 as (-> & Hl5 & Hi5 & E5);
    try done; try lia.
  2:{ by repeat constructor. }
  2:{ change (zlen [FLASH_COMMITTED]) with 1. lia. }
  2:{ rewrite <- Z.add_assoc. apply Hadd. rewrite Z.add_mod, U2, Z_mod_same_full by lia. apply Z.mod_0_l. lia. }
  2:{ rewrite E4, E3, E2, E1. change (zlen [FLASH_COMMITTED]) with 1 in *.
      rewrite !slice_splice_disjoint by (rewrite ?zlen_splice; rewrite ?zlen_splice; lia). apply Hn; lia. }
  split; [done|]. intros H. eapply and_then_step; [exact H|]; clear H. intros r6 p6 H6.
  apply (raw_sync_live raw) in H6 as (-> & Hl6 & _ & _); try done. split; [done|].
  unfold set_ram. intros [= <- <-]. done.
Qed.
(** *** The published backend *)

Definition same_geometry (m m' : ls_flash_mirror_t) : Prop :=
  m_capacity m' = m_capacity m /\ bank_size m' = bank_size m /\
  payload_offset m' = payload_offset m /\ commit_offset m' = commit_offset m.

Lemma layout_geometry m m' : same_geometry m m' -> layout_ok m -> layout_ok m'.
Proof. intros (E1&E2&E3&E4) []. split; rewrite ?E1, ?E2, ?E3, ?E4; done. Qed.

Lemma bank_holds_geometry m m' c bank gen img : same_geometry m m' ->
  bank_holds m c bank gen img -> bank_holds m' c bank gen img.
Proof.
  intros (E1&E2&E3&E4) [H1 H2 H3]. unfold bank_offset in *.
  split; unfold bank_offset, image_header in *; rewrite ?E1, ?E2, ?E3, ?E4; done.
Qed.

Lemma units_geometry m m' : same_geometry m m' -> units_ok m -> units_ok m'.
Proof. intros (E1&E2&E3&E4) []. split; rewrite ?E2, ?E3, ?E4; done. Qed.

(** The logical contents: the image of the active bank. *)
Definition image_of (s : ls_flash_mirror_t * D) : list Z :=
  let '(m, d) := s in
  slice (bank_offset m (active_bank m) + payload_offset m) (m_capacity m) (contents d).

Record mirror_inv (lcap : Z) (s : ls_flash_mirror_t * D) : Prop := {
  mi_inv : inv (snd s);
  mi_layout : layout_ok (fst s);
  mi_capacity : m_capacity (fst s) = lcap;
  mi_bank : is_bank (active_bank (fst s));
  mi_generation : is_u32 (m_generation (fst s));
  mi_holds : bank_holds (fst s) (contents (snd s)) (active_bank (fst s)) (m_generation (fst s)) (image_of s);
}.

Definition mirror_live (p : @mstate D) : Prop := live (raw_of p) /\ units_ok (ram p).

Lemma mirror_range m d lcap : mirror_inv lcap (m, d) ->
  let o := bank_offset m (active_bank m) + payload_offset m in
  0 <= o /\ o + m_capacity m <= capacity raw /\ 0 < m_capacity m.
Proof.
  intros [Hi Hlay _ Hb _ _]. simpl in *. pose proof (bank_range m _ Hlay Hb). destruct Hlay.
  unfold header_size in *. lia.
Qed.

Lemma image_zlen s lcap : mirror_inv lcap s -> zlen (image_of s) = lcap.
Proof.
  destruct s as [m d]. intros Hinv. pose proof (mirror_range m d lcap Hinv) as (?&?&?).
  destruct Hinv as [Hi ? E _ _ _]. simpl in *. rewrite <- E. apply zlen_slice; try lia.
  by rewrite contents_zlen.
Qed.

Lemma image_bytes s lcap : mirror_inv lcap s -> bytes_ok (image_of s).
Proof. destruct s as [m d]. intros []. simpl in *. apply bytes_ok_slice. by apply contents_bytes. Qed.

(** The invariant only depends on the medium. *)
Lemma mirror_inv_same lcap m d d' : mirror_inv lcap (m, d) -> inv d' -> contents d' = contents d ->
  mirror_inv lcap (m, d') /\ image_of (m, d') = image_of (m, d).
Proof.
  intros [H1 H2 H3 H4 H5 H6] Hi E. simpl in *. split; [|by rewrite E].
  split; simpl; try done. by rewrite E.
Qed.

Lemma other_bank b : is_bank b -> is_bank (Z.lxor b 1) /\ Z.lxor b 1 <> b.
Proof.
  intros [-> | ->]; [change (Z.lxor 0 1) with 1|change (Z.lxor 1 1) with 0]; unfold is_bank; lia.
Qed.

(** A change confined to the other bank leaves the active image alone. *)
Lemma holds_outside m c c' b o gen img :
  layout_ok m -> is_bank b -> is_bank o -> o <> b -> zlen c = capacity raw ->
  outside (bank_offset m o) (bank_size m) c c' -> bank_holds m c b gen img -> bank_holds m c' b gen img.
Proof.
  intros [L1 L2 L3 L4 L5] Hb Ho Hne Hz [_ Hout] [H1 H2 H3]. unfold header_size in *.
  assert (forall x n, 0 <= x -> 0 <= n -> x + n <= bank_size m ->
    slice (bank_offset m b + x) n c' = slice (bank_offset m b + x) n c) as Hs.
  { intros x n Hx Hn Hxn. unfold bank_offset in *.
    apply Hout; try lia; destruct Hb as [-> | ->], Ho as [-> | ->]; lia. }
  split; unfold header_size in *.
  - rewrite <- (Z.add_0_r (bank_offset m b)), Hs, Z.add_0_r by lia. done.
  - rewrite Hs by lia. done.
  - rewrite Hs by lia. done.
Qed.

(** The image to be committed by an update. *)
Definition new_image (offset : Z) (data : list Z) (p : @mstate D) : list Z :=
  splice offset data (image_of (dev p)).

Lemma read_active_image_spec lcap p r p' :
  mirror_inv lcap (dev p) -> read_active_image raw p = (r, p') ->
  inv (snd (dev p')) /\ medium p' = medium p /\
  ram p' = (if is_ok r then with_workspace (image_of (dev p)) (ram p) else ram p) /\
  (live (raw_of p) -> live (raw_of p') /\ r = LS_OK).
Proof.
  intros Hinv H. unfold read_active_image in H.
  destruct (mirror_range (ram p) (snd (dev p)) lcap) as (R1 & R2 & R3).
  { unfold ram. by destruct (dev p). }
  destruct (raw_read raw _ _ p) as [rd p1] eqn:Er.
  apply (raw_read_spec raw) in Er as (Hm & Hi & E & Hrd & Hne & Hl); try done; try lia; [|by destruct Hinv].
  destruct rd as [img|e].
  - unfold set_ram in H. simplify_eq. specialize (Hrd img eq_refl). split_and!; try done.
    + simpl. unfold ram, medium in *. rewrite Hm, Hrd. by destruct (dev p).
    + intros Hlv. destruct (Hl Hlv) as [Hl' _]. split; [exact Hl'|done].
  - simplify_eq. split_and!; try done.
    + destruct (is_ok r) eqn:Eo; [|done]. apply is_ok_true in Eo. congruence.
    + intros Hlv. destruct (Hl Hlv) as [_ [bs ?]]. done.
Qed.

(** The state after a commit attempt on the other bank. *)
Lemma commit_preserves lcap m d m1 gen img p p' r :
  mirror_inv lcap (m, d) -> same_geometry m m1 -> active_bank m1 = active_bank m ->
  m_generation m1 = m_generation m -> is_u32 gen -> medium p = contents d ->
  zlen img = lcap ->
  commit_result m1 (Z.lxor (active_bank m) 1) gen img p r p' ->
  mirror_inv lcap (dev p') /\ image_of (dev p') = (if is_ok r then img else image_of (m, d)).
Proof.
  intros [I1 I2 I3 I4 I5 I6] Hg Ha Hgen Hu Hmed Hzi [C1 C2 C3 C4 C5]. cbn [fst snd] in *.
  destruct (other_bank _ I4) as [Ho Hne]. pose proof (layout_geometry _ _ Hg I2) as Hlay1.
  pose proof Hg as (G1 & G2 & G3 & G4).
  unfold ram, medium in *. destruct (dev p') as [m' d']. cbn [fst snd] in *.
  destruct (is_ok r) eqn:Er.
  - apply is_ok_true in Er. specialize (C5 Er). subst m'.
    assert (image_of (with_active (Z.lxor (active_bank m) 1) gen m1, d') = img) as Himg.
    { unfold image_of. simpl. by destruct C5 as [_ _ H]. }
    split; [|done]. rewrite <- Himg in C5. split; cbn [fst snd]; try done.
    + by eapply layout_geometry; [|exact Hlay1].
    + unfold with_active. simpl. congruence.
    + eapply bank_holds_geometry; [|exact C5]. done.
  - subst m'. assert (bank_holds m1 (contents d') (active_bank m) (m_generation m) (image_of (m, d))) as Hh.
    { eapply (holds_outside m1 (contents d) _ _ (Z.lxor (active_bank m) 1)); try done.
      - by apply contents_zlen.
      - by rewrite <- Hmed.
      - by eapply bank_holds_geometry. }
    assert (image_of (m1, d') = image_of (m, d)) as Himg.
    { unfold image_of at 1. destruct Hh as [_ _ H]. rewrite Ha. done. }
    split; [|done]. split; cbn [fst snd]; rewrite ?Ha, ?Hgen, ?Himg; try done. congruence.
Qed.

Lemma update_image_spec lcap off len src data p r p' :
  mirror_inv lcap (dev p) -> 0 <= off -> 0 <= len -> off + len <= lcap -> bytes_ok data -> zlen data = len ->
  data = (match src with Some d => d | None => fill len 0xff end) ->
  update_image raw off len src p = (r, p') ->
  mirror_inv lcap (dev p') /\
  image_of (dev p') = (if is_ok r then new_image off data p else image_of (dev p)) /\
  (mirror_live p -> mirror_live p' /\ r = LS_OK) /\
  (r <> LS_OK /\ ram p' = ram p /\ medium p' = medium p \/
   exists m1, same_geometry (ram p) m1 /\
     commit_result m1 (Z.lxor (active_bank (ram p)) 1) (u32 (m_generation (ram p) + 1))
       (new_image off data p) p r p').
Proof.
  intros Hinv Ho Hn Hb Hd Hzd Hsrc H. unfold update_image in H.
  pose proof (image_zlen _ _ Hinv) as Hiz. pose proof (image_bytes _ _ Hinv) as Hib.
  assert (m_capacity (ram p) = lcap) as Hcap by (by destruct Hinv).
  destruct ((_ <? off) || _) eqn:Eb; [bool_prop; destruct Eb; blia|].
  rewrite <- Hsrc in H. clear Hsrc Eb.
  assert (exists m d, dev p = (m, d)) as (m & d & Edev) by (destruct (dev p); eauto).
  assert (ram p = m) as Hmp by (unfold ram; by rewrite Edev).
  assert (medium p = contents d) as Hmed by (unfold medium; by rewrite Edev).
  apply and_then_inv in H as [[H Hr] | (p1 & H1 & H)].
  - apply (read_active_image_spec lcap) in H as (Hi1 & E1 & Hm1 & Hl1); [|done].
    apply is_ok_false in Hr as Hr'. rewrite Hr' in *. rewrite Edev in *.
    destruct (mirror_inv_same lcap m d (snd (dev p')) Hinv Hi1) as [Hinv1 Himg1].
    { by rewrite <- Hmed. }
    assert (dev p' = (m, snd (dev p'))) as Edev' by (unfold ram in *; destruct (dev p'); simpl in *; congruence).
    rewrite Edev'. split_and!; try done.
    + intros [Hl _]. destruct (Hl1 Hl) as [_ ?]. done.
    + left. split_and!; congruence.
  - apply (read_active_image_spec lcap) in H1 as (Hi1 & E1 & Hm1 & Hl1); [|done].
    cbn [is_ok] in Hm1. rewrite Hmp in Hm1. unfold set_ram in H.
    set (p2 := set_dev _ p1) in H. fold (ram p1) in *.
    set (m1 := with_workspace (new_image off data p) m).
    assert (ram p2 = m1) as Hm2.
    { unfold p2, ram in *. simpl. rewrite Hm1. done. }
    rewrite Hm1 in H. simpl active_bank in H. simpl m_generation in H.
    assert (same_geometry m m1) as Hgeo by done.
    assert (zlen (new_image off data p) = lcap) as Hzn by (unfold new_image; rewrite zlen_splice; lia).
    assert (layout_ok m1) as Hlay by (eapply layout_geometry; [exact Hgeo|]; destruct Hinv; by rewrite Edev in *).
    assert (is_bank (active_bank m)) as Hbank by (destruct Hinv; by rewrite Edev in *).
    destruct (other_bank _ Hbank) as [Hob _].
    assert (zlen (workspace m1) = m_capacity m1 /\ bytes_ok (workspace m1)) as [Hw1 Hw2].
    { simpl. split; [congruence|]. unfold new_image. by apply bytes_ok_splice. }
    pose proof H as Hcommit.
    apply (commit_image_result m1) in H; try done.
    assert (commit_result m1 (Z.lxor (active_bank m) 1) (u32 (m_generation m + 1)) (new_image off data p) p r p') as Hres.
    { destruct H as [C1 C2 C3 C4 C5]. change (medium p2) with (medium p1) in *. rewrite E1 in *. by split. }
    rewrite Edev in Hinv.
    destruct (commit_preserves lcap m d m1 (u32 (m_generation m + 1)) (new_image off data p) p p' r)
      as [Hinv2 Himg2]; try done; [apply u32_range|].
    rewrite Hmp, Edev. split_and!; try done; [|right; by exists m1].
    intros [Hlive Hun]. destruct (Hl1 Hlive) as [Hl2 _]. rewrite Hmp in Hun.
    destruct (commit_live m1 _ _ p2 r p' Hlay (units_geometry _ _ Hgeo Hun) Hob Hi1 Hm2 Hw1 Hw2 Hl2 Hcommit) as [Hr Hl3].
    split; [|done]. split; [done|]. destruct Hres as [_ Hm' _ _ _]. rewrite Hm', Hr. simpl.
    eapply units_geometry; [|exact Hun]. done.
Qed.
(** *** Recovery *)

Definition bank_header (m : ls_flash_mirror_t) (c : list Z) (bank : Z) : flash_header_t :=
  header_unpack (slice (bank_offset m bank) header_size c).

(** A bank whose header checks and whose marker is set. *)
Definition bank_committed (m : ls_flash_mirror_t) (c : list Z) (bank : Z) : bool :=
  valid_header m (bank_header m c bank) &&
  (le_get (slice (bank_offset m bank + commit_offset m) 1 c) =? FLASH_COMMITTED).

Definition bank_valid (m : ls_flash_mirror_t) (c : list Z) (bank : Z) : bool :=
  bank_committed m c bank &&
  (data_crc (bank_header m c bank) =?
     ls_crc32 (slice (bank_offset m bank + payload_offset m) (m_capacity m) c)).

Lemma valid_bank_spec m bank p r p' :
  layout_ok m -> is_bank bank -> inv (snd (dev p)) -> ram p = m ->
  valid_bank raw bank p = (r, p') ->
  (exists ws, ram p' = with_workspace ws m) /\ inv (snd (dev p')) /\ medium p' = medium p /\
  (r = Ok (bank_header m (medium p) bank, bank_valid m (medium p) bank) \/
   (exists e, r = Err e /\ e <> LS_OK) /\ ~ live (raw_of p)) /\
  (live (raw_of p) -> live (raw_of p')).
Proof.
  intros Hlay Hb Hi Hm H. unfold valid_bank in H. rewrite Hm in H.
  destruct (bank_range m bank Hlay Hb) as [HB HB2]. pose proof Hlay as [L1 L2 L3 L4 L5].
  assert (exists ws, m = with_workspace ws m) as Hself by (exists (workspace m); by destruct m).
  unfold bank_valid, bank_committed. unfold header_size in L2.
  destruct (raw_read raw (bank_offset m bank) header_size p) as [r1 p1] eqn:E1.
  apply (raw_read_spec raw) in E1 as (M1 & I1 & S1 & R1 & N1 & V1); try done; try (unfold header_size; lia).
  rewrite Hm in M1. clear Hm. assert (live (raw_of p) -> live (raw_of p1)) as K1 by (intros Hl; by destruct (V1 Hl)).
  destruct r1 as [hb|e].
  2:{ injection H as <- <-. split_and!; try done; [by rewrite M1|]. right. split; [exists e; split; congruence|].
      intros Hl. by destruct (V1 Hl) as [_ [? ?]]. }
  specialize (R1 _ eq_refl). rewrite R1 in H. fold (bank_header m (medium p) bank) in H.
  destruct (valid_header m (bank_header m (medium p) bank)) eqn:Ev; cbn [negb andb] in *.
  2:{ injection H as <- <-. split_and!; try done; [by rewrite M1|by left]. }
  destruct (raw_read raw (bank_offset m bank + commit_offset m) 1 p1) as [r2 p2] eqn:E2.
  apply (raw_read_spec raw) in E2 as (M2 & I2 & S2 & R2 & N2 & V2); try done; try lia.
  assert (live (raw_of p1) -> live (raw_of p2)) as K2 by (intros Hl; by destruct (V2 Hl)).
  destruct r2 as [cb|e].
  2:{ injection H as <- <-. split_and!; try done; [by rewrite M2, M1|congruence| |auto]. right. split; [exists e; split; congruence|].
      intros Hl. by destruct (V2 (K1 Hl)) as [_ [? ?]]. }
  specialize (R2 _ eq_refl). rewrite R2, S1 in H.
  destruct (le_get _ =? FLASH_COMMITTED) eqn:Ec; cbn [negb] in H.
  2:{ injection H as <- <-. split_and!; try done; [by rewrite M2, M1|congruence|by left|auto]. }
  destruct (raw_read raw (bank_offset m bank + payload_offset m) (m_capacity m) p2) as [r3 p3] eqn:E3.
  apply (raw_read_spec raw) in E3 as (M3 & I3 & S3 & R3 & N3 & V3); try done; try lia.
  assert (live (raw_of p2) -> live (raw_of p3)) as K3 by (intros Hl; by destruct (V3 Hl)).
  destruct r3 as [img|e].
  2:{ injection H as <- <-. split_and!; try done; [by rewrite M3, M2, M1|congruence| |auto]. right. split; [exists e; split; congruence|].
      intros Hl. by destruct (V3 (K2 (K1 Hl))) as [_ [? ?]]. }
  specialize (R3 _ eq_refl). rewrite R3, S2, S1 in H.
  unfold set_ram in H. injection H as <- <-. split_and!; try done.
  - eexists. unfold ram in *. simpl. by rewrite M3, M2, M1.
  - change (medium p3 = medium p). congruence.
  - by left.
  - intros Hl. exact (K3 (K2 (K1 Hl))).
Qed.

(** A bank that holds an image is found valid, with its generation. *)
Lemma holds_valid m c bank gen img : is_u32 (m_capacity m) -> is_u32 gen -> bank_holds m c bank gen img ->
  bank_valid m c bank = true /\ generation (bank_header m c bank) = gen.
Proof.
  intros Hc Hg [H1 H2 H3]. unfold bank_valid, bank_committed, bank_header. rewrite H1, H2, H3.
  rewrite header_roundtrip by (by apply image_header_ok).
  rewrite image_header_valid by done. change (le_get [FLASH_COMMITTED] =? FLASH_COMMITTED) with true.
  cbn [data_crc image_header generation andb]. by rewrite Z.eqb_refl.
Qed.

(** Which bank [ls_flash_mirror_init] picks. *)
Definition picks (m : ls_flash_mirror_t) (c : list Z) (bank : Z) : Prop :=
  is_bank bank /\ bank_valid m c bank = true /\
  (bank_valid m c (1 - bank) = true ->
   generation_is_newer (generation (bank_header m c bank)) (generation (bank_header m c (1 - bank))) = true).

Lemma bank_header_u32 m c bank : layout_ok m -> is_bank bank -> zlen c = capacity raw -> bytes_ok c ->
  is_u32 (generation (bank_header m c bank)).
Proof.
  intros Hlay Hb Hz Hc. destruct (bank_range m bank Hlay Hb) as [HB HB2].
  destruct Hlay as [L1 L2 L3 L4 L5]. unfold header_size in L2. unfold bank_header.
  set (bs := slice (bank_offset m bank) header_size c).
  assert (bytes_ok bs) as Hbs by (by apply bytes_ok_slice).
  assert (zlen bs = 24) as Hzb by (apply zlen_slice; unfold header_size; lia).
  unfold header_unpack. cbn [unpack header_layout generation].
  apply le_get_u32; [by apply Forall_take, Forall_drop, Forall_drop|].
  unfold zlen in *. rewrite length_take, !length_drop. lia.
Qed.
(** The geometry [ls_flash_mirror_init] computes for this device and capacity. *)
Definition init_geometry (m : ls_flash_mirror_t) (lcap : Z) : Prop :=
  m_capacity m = lcap /\ is_Some (erase raw) /\ 0 <= erase_size raw /\
  flash_layout lcap (erase_size raw) unit_size = Some (payload_offset m, commit_offset m, bank_size m) /\
  0 < lcap <= UINT32_MAX /\ bank_size m <= SIZE_MAX / 2 /\ bank_size m * 2 <= capacity raw.

Lemma init_geometry_layout m lcap : init_geometry m lcap -> layout_ok m.
Proof.
  intros (E & _ & He & Hl & Hc & Hb & Hcap). pose proof (unit_size_pos raw).
  apply flash_layout_Some in Hl as (?&?&?&?&?&_); [|lia..]. split; rewrite ?E; lia.
Qed.

Lemma image_with_active m bank gen d :
  image_of (with_active bank gen m, d) =
  slice (bank_offset m bank + payload_offset m) (m_capacity m) (contents d).
Proof. done. Qed.

(** The state of initialisation once the structure is set up. *)
Definition fresh_mirror (ws : list Z) (m : ls_flash_mirror_t) : ls_flash_mirror_t :=
  {| workspace := ws; m_capacity := m_capacity m; bank_size := bank_size m;
     payload_offset := payload_offset m; commit_offset := commit_offset m;
     active_bank := 0; m_generation := 0 |}.

Lemma bank_valid_geometry m m' c b : same_geometry m m' ->
  bank_valid m' c b = bank_valid m c b /\ bank_header m' c b = bank_header m c b.
Proof.
  intros (E1 & E2 & E3 & E4). unfold bank_valid, bank_committed, bank_header, valid_header, bank_offset.
  by rewrite E1, E2, E3, E4.
Qed.

(** Initialisation, up to the choice of the bank. *)
Lemma init_choice ws lcap m p r p' :
  init_geometry m lcap -> inv (snd (dev p)) -> ls_flash_mirror_init raw ws lcap p = (r, p') ->
  (r <> LS_OK /\ ~ live (raw_of p)) \/
  exists p2 ws2, ram p2 = with_workspace ws2 (fresh_mirror ws m) /\ inv (snd (dev p2)) /\
    medium p2 = medium p /\ (live (raw_of p) -> live (raw_of p2)) /\
    let v0 := bank_valid m (medium p) 0 in
    let v1 := bank_valid m (medium p) 1 in
    let g0 := generation (bank_header m (medium p) 0) in
    let g1 := generation (bank_header m (medium p) 1) in
    (if v0 || v1 then
       if v1 && (negb v0 || generation_is_newer g1 g0)
       then let '(_, p) := set_ram (with_active 1 g1) p2 in (LS_OK, p)
       else let '(_, p) := set_ram (with_active 0 g0) p2 in (LS_OK, p)
     else let '(_, p) := set_ram (with_workspace (fill lcap 0xff)) p2 in commit_image raw 0 1 p)
    = (r, p').
Proof.
  intros Hg Hi H. pose proof (init_geometry_layout m lcap Hg) as Hlay.
  destruct Hg as (E & [e He] & _ & Hfl & Hc & Hbk & Hcap). unfold ls_flash_mirror_init in H.
  rewrite He in H. destruct ((lcap =? 0) || _) eqn:E0; [bool_prop; destruct E0; blia|].
  fold unit_size in H. rewrite Hfl in H.
  destruct ((SIZE_MAX / 2 <? _) || _) eqn:E1; [bool_prop; destruct E1; blia|]. unfold set_ram at 1 in H.
  rewrite <- E in H at 1. fold (fresh_mirror ws m) in H. set (m0 := fresh_mirror ws m) in *.
  set (p0 := set_dev _ p) in H. assert (same_geometry m m0) as Hg0 by done.
  pose proof (layout_geometry _ _ Hg0 Hlay) as Hlay0.
  destruct (valid_bank raw 0 p0) as [r1 p1] eqn:V0.
  apply (valid_bank_spec m0) in V0 as ([ws1 M1] & I1 & S1 & R1 & L1);
    [|exact Hlay0|by left|exact Hi|done].
  change (medium p0) with (medium p) in *. change (raw_of p0) with (raw_of p) in *.
  destruct (bank_valid_geometry m m0 (medium p) 0 Hg0) as [Ev0 Eh0].
  destruct (bank_valid_geometry m m0 (medium p) 1 Hg0) as [Ev1 Eh1].
  destruct R1 as [-> | [(e1 & -> & Ne1) Nl1]]; [|left; by simplify_eq].
  destruct (valid_bank raw 1 p1) as [r2 p2] eqn:V1.
  apply (valid_bank_spec (with_workspace ws1 m0)) in V1 as ([ws2 M2] & I2 & S2 & R2 & L2);
    [|by eapply layout_geometry; [|exact Hlay0]|by right|exact I1|exact M1].
  rewrite S1 in *.
  destruct R2 as [-> | [(e1 & -> & Ne1) Nl1]]; [|left; split; [by simplify_eq|by auto]].
  change (bank_valid (with_workspace ws1 m0)) with (bank_valid m0) in H.
  change (bank_header (with_workspace ws1 m0)) with (bank_header m0) in H.
  rewrite Ev0, Eh0, Ev1, Eh1 in H. right. exists p2, ws2. split_and!; try done. auto.
Qed.

Lemma init_picks ws lcap m p bank r p' :
  init_geometry m lcap -> inv (snd (dev p)) -> live (raw_of p) -> picks m (medium p) bank ->
  ls_flash_mirror_init raw ws lcap p = (r, p') ->
  r = LS_OK /\ image_of (dev p') = slice (bank_offset m bank + payload_offset m) (m_capacity m) (medium p) /\
  active_bank (ram p') = bank /\ m_generation (ram p') = generation (bank_header m (medium p) bank) /\
  same_geometry m (ram p') /\ medium p' = medium p.
Proof.
  intros Hg Hi Hl (Hb & Hv & Hd) H. pose proof (init_geometry_layout m lcap Hg) as Hlay.
  apply (init_choice _ _ m) in H as [[_ ?] | (p2 & ws2 & M2 & I2 & S2 & _ & H)]; [done| |done..].
  cbv zeta in H. set (v0 := bank_valid m (medium p) 0) in *. set (v1 := bank_valid m (medium p) 1) in *.
  assert (v0 || v1 = true) as Hor
    by (destruct Hb as [-> | ->]; [fold v0 in Hv|fold v1 in Hv]; rewrite Hv; [done|apply orb_true_r]).
  assert ((v1 && (negb v0 || generation_is_newer (generation (bank_header m (medium p) 1))
     (generation (bank_header m (medium p) 0)))) = (bank =? 1)) as Hsel.
  { destruct Hb as [-> | ->].
    - fold v0 in Hv. change (1 - 0) with 1 in Hd. fold v1 in Hd. rewrite Hv.
      destruct v1; [|done]. cbn [negb orb andb]. apply newer_antisym; [..|by apply Hd];
        apply bank_header_u32; try done; try (by left); try (by right);
        [by apply (medium_zlen raw)|by apply contents_bytes|by apply (medium_zlen raw)|by apply contents_bytes].
    - fold v1 in Hv. change (1 - 1) with 0 in Hd. fold v0 in Hd. rewrite Hv.
      destruct v0; [|done]. cbn [negb orb andb]. by apply Hd. }
  rewrite Hor, Hsel in H. unfold ram, medium in *.
  destruct Hb as [-> | ->]; simpl in H; unfold set_ram in H; simplify_eq; split_and!; try done; simpl;
    rewrite M2; unfold image_of, bank_offset; simpl; by rewrite ?S2.
Qed.

(** A bank found valid holds its image: nothing else passes the checks. *)
Lemma valid_holds m c bank : layout_ok m -> is_bank bank -> zlen c = capacity raw -> bytes_ok c ->
  bank_valid m c bank = true ->
  bank_holds m c bank (generation (bank_header m c bank))
    (slice (bank_offset m bank + payload_offset m) (m_capacity m) c).
Proof.
  intros Hlay Hb Hz Hc H. destruct (bank_range m bank Hlay Hb) as [HB HB2].
  destruct Hlay as [L1 L2 L3 L4 L5]. unfold header_size in L2.
  unfold bank_valid, bank_committed in H. bool_prop.
  set (bs := slice (bank_offset m bank) header_size c).
  assert (bytes_ok bs) as Hbs by (by apply bytes_ok_slice).
  assert (zlen bs = 24) as Hzb by (apply zlen_slice; unfold header_size; lia).
  assert (header_pack (header_unpack bs) = bs) as Hpu.
  { unfold zlen in Hzb. exact (pack_unpack header_layout bs Hbs ltac:(simpl; lia)). }
  split; [|  |done].
  - fold bs. rewrite <- Hpu at 1. f_equal. change (bank_header m c bank) with (header_unpack bs) in *.
    match goal with H : valid_header _ _ = true |- _ => unfold valid_header in H end. bool_prop.
    destruct (header_unpack bs) as [mg vs gn lc dc hc] eqn:Eh. simpl in *. subst.
    unfold image_header. rewrite u32_id by (unfold is_u32, UINT32_MAX in *; lia).
    cbn [magic version generation logical_capacity data_crc]. f_equal.
    match goal with H : hc = _ |- _ => rewrite H end. by apply header_crc_covers.
  - set (mk := slice (bank_offset m bank + commit_offset m) 1 c) in *.
    assert (zlen mk = 1) as Hzm by (apply zlen_slice; lia).
    assert (bytes_ok mk) as Hmk by (by apply bytes_ok_slice).
    destruct mk as [|x [|y mk]]; try (unfold zlen in Hzm; simpl in Hzm; lia).
    f_equal. apply Forall_cons in Hmk as [Hx _]. rewrite le_get_cons in * by done. simpl in *. lia.
Qed.
(** Initialisation establishes the invariant. *)
Lemma init_inv ws lcap m p p' :
  init_geometry m lcap -> inv (snd (dev p)) -> ls_flash_mirror_init raw ws lcap p = (LS_OK, p') ->
  mirror_inv lcap (dev p').
Proof.
  intros Hg Hi H. pose proof (init_geometry_layout m lcap Hg) as Hlay.
  assert (m_capacity m = lcap) as Ecap by (by destruct Hg).
  apply (init_choice _ _ m) in H as [[? _] | (p2 & ws2 & M2 & I2 & S2 & _ & H)]; [done| |done..].
  cbv zeta in H. set (v0 := bank_valid m (medium p) 0) in *. set (v1 := bank_valid m (medium p) 1) in *.
  assert (forall b, is_bank b -> bank_valid m (medium p) b = true ->
    mirror_inv lcap (with_active b (generation (bank_header m (medium p) b)) (fst (dev p2)), snd (dev p2))) as Hpick.
  { intros b Hb Hv. pose proof (medium_zlen raw p Hi) as Hz. pose proof (contents_bytes _ Hi) as Hby.
    unfold ram in M2. rewrite M2. split; cbn [fst snd]; try done.
    - eapply layout_geometry; [|exact Hlay]. done.
    - by apply bank_header_u32.
    - unfold image_of. eapply (bank_holds_geometry m); [done|]. simpl. unfold medium in S2. rewrite S2.
      exact (valid_holds m (medium p) b Hlay Hb Hz Hby Hv). }
  destruct (v0 || v1) eqn:Ev.
  - destruct (v1 && _) eqn:E1; unfold set_ram in H; simplify_eq; simpl; apply Hpick; try done.
    + by right.
    + by bool_prop.
    + by left.
    + fold v0. destruct v0; [done|]. simpl in *. destruct v1; done.
  - unfold set_ram in H. set (p3 := set_dev _ p2) in H.
    set (m3 := with_workspace (fill lcap 255) (fresh_mirror ws m)).
    assert (ram p3 = m3) as M3 by (unfold p3, ram in *; simpl; by rewrite M2).
    assert (same_geometry m m3) as Hg3 by done.
    assert (layout_ok m3) as Hlay3 by (by eapply layout_geometry).
    assert (0 < lcap) by (destruct Hlay; lia).
    apply (commit_image_result m3) in H as [C1 C2 C3 C4 C5]; try done.
    2:{ by left. } 2:{ simpl. rewrite zlen_fill; lia. } 2:{ simpl. by apply bytes_ok_fill. }
    specialize (C5 eq_refl). simpl in C2. unfold ram, medium in *. destruct (dev p') as [m' d'].
    cbn [fst snd] in *. subst m'. assert (image_of (with_active 0 1 m3, d') = fill lcap 255) as Himg.
    { unfold image_of. simpl. by destruct C5. }
    split; cbn [fst snd]; try done.
    + eapply layout_geometry; [|exact Hlay3]. done.
    + by left.
    + rewrite Himg. eapply bank_holds_geometry; [|exact C5]. done.
Qed.

#[export] Instance mirror_ok (lcap : Z) (Hl : 0 <= lcap <= SIZE_MAX) : StorageOk (mirror_backend raw lcap).
Proof.
  apply (Build_StorageOk _ (mirror_backend raw lcap) image_of (mirror_inv lcap) mirror_live Hl); simpl.
  - lia.
  - intros d. apply image_zlen.
  - intros d. apply image_bytes.
  - intros p [H _]. by apply live_quiet in H.
  - intros off len p r p' Hinv Ho Hn Hb H. unfold mirror_read in H.
    assert (exists m d, dev p = (m, d)) as (m & d & Ed) by (destruct (dev p); eauto).
    unfold ram in H. rewrite Ed in *. cbn [fst] in H.
    destruct (mirror_range m d lcap Hinv) as (R1 & R2 & R3).
    assert (m_capacity m = lcap) as Ec by (by destruct Hinv).
    destruct ((_ <? off) || _) eqn:Eb; [bool_prop; destruct Eb; blia|].
    apply (raw_read_spec raw) in H as (M & I & S & R & N & V); try lia; [|rewrite Ed; by destruct Hinv].
    unfold ram, medium in *. rewrite Ed in *. cbn [fst snd] in *.
    destruct (mirror_inv_same lcap m d (snd (dev p')) Hinv I S) as [Hinv' Himg].
    assert (dev p' = (m, snd (dev p'))) as Ed' by (destruct (dev p'); simpl in *; congruence).
    rewrite Ed'. split_and!; try done.
    + intros bs Hr. rewrite (R bs Hr). unfold image_of. rewrite slice_slice by lia. done.
    + intros [Hlv Hun]. destruct (V Hlv) as [Hlv' Hr]. split; [|done]. split; [done|].
      unfold ram in *. rewrite Ed', Ed in *. done.
  - intros off data p r p' Hinv Hd Ho Hb H. pose proof (zlen_nonneg data).
    apply (update_image_spec lcap _ _ _ data) in H as (Hinv' & Himg & Hl' & _); try done.
    unfold new_image in Himg. split; [done|]. rewrite Himg. split_and!.
    + case_if; [apply torn_splice; rewrite ?(image_zlen _ _ Hinv); lia|apply torn_refl].
    + by intros ->.
    + intros Hlv. by destruct (Hl' Hlv).
  - intros e off len p r p' [= <-] Hinv Ho Hn Hb H.
    apply (update_image_spec lcap _ _ _ (fill len 255)) in H as (Hinv' & Himg & Hl' & _); try done;
      [|by apply bytes_ok_fill|by apply zlen_fill].
    unfold new_image in Himg. split; [done|]. rewrite Himg. split_and!.
    + case_if; [apply torn_splice; rewrite ?(image_zlen _ _ Hinv), ?zlen_fill; lia|apply torn_refl].
    + by intros ->.
    + intros Hlv. by destruct (Hl' Hlv).
  - intros s p r p' [= <-] Hinv H. unfold mirror_sync in H.
    assert (exists m d, dev p = (m, d)) as (m & d & Ed) by (destruct (dev p); eauto). pose proof H as H'.
    apply (raw_sync_same raw) in H as (M & I & S); [|by destruct Hinv].
    unfold ram, medium in *. rewrite Ed in *. cbn [fst snd] in *.
    destruct (mirror_inv_same lcap m d (snd (dev p')) Hinv I S) as [Hinv' Himg].
    assert (dev p' = (m, snd (dev p'))) as Ed' by (destruct (dev p'); simpl in *; congruence).
    rewrite Ed'. split_and!; try done. intros [Hlv Hun].
    apply (raw_sync_live raw) in H' as (-> & Hlv' & _); [|done|rewrite Ed; by destruct Hinv].
    split; [|done]. split; [done|]. unfold ram in *. rewrite Ed', Ed in *. done.
Defined.
(** *** Recovery after an interrupted update *)

Lemma lxor_other b : is_bank b -> Z.lxor b 1 = 1 - b.
Proof. by intros [-> | ->]. Qed.

(** The header checksum notices a partial erasure of the header of [o]. *)
Definition tear_detected (m : ls_flash_mirror_t) (c : list Z) (o : Z) : Prop :=
  forall c', torn (bank_offset m o) (fill (bank_size m) 0xff) c c' ->
  valid_header m (bank_header m c' o) = true -> bank_header m c' o = bank_header m c o.

(** [bank], of generation [gen], is newer than whatever the other bank has committed. *)
Definition leads (m : ls_flash_mirror_t) (c : list Z) (bank gen : Z) : Prop :=
  bank_committed m c (1 - bank) = true ->
  generation_is_newer gen (generation (bank_header m c (1 - bank))) = true.

Definition dominates (m : ls_flash_mirror_t) (c : list Z) : Prop :=
  leads m c (active_bank m) (m_generation m).

Lemma bank_valid_committed m c b : bank_valid m c b = true -> bank_committed m c b = true.
Proof. unfold bank_valid. by intros [? _]%andb_true_iff. Qed.

(** Erasing cannot set the commit marker. *)
Lemma torn_erase_marker off len o c c' : 0 <= o -> o + 1 <= zlen c ->
  torn off (fill len 0xff) c c' -> le_get (slice o 1 c') = FLASH_COMMITTED -> slice o 1 c' = slice o 1 c.
Proof.
  intros Ho Hz [Hl H] Hm. assert (exists x, slice o 1 c' = [x]) as [x Hx].
  { assert (zlen (slice o 1 c') = 1) as Hs by (apply zlen_slice; unfold zlen in *; lia).
    destruct (slice o 1 c') as [|x [|y l]]; unfold zlen in Hs; simpl in Hs; try lia. eauto. }
  apply slice_ext; [done..|]. intros i Hi. destruct (H i) as [?|[Hr Hd]]; [done|]. exfalso.
  pose proof (lookup_slice o 1 c' 0 Ho ltac:(lia) ltac:(lia)) as Hs.
  rewrite Hx in Hs, Hm. replace (Z.to_nat o + 0)%nat with i in Hs by lia. rewrite Hd in Hs.
  unfold fill in Hs. symmetry in Hs. apply lookup_replicate in Hs as [Hx255 _]. simpl in Hx255.
  subst x. done.
Qed.

Lemma leads_picks m c bank gen img : layout_ok m -> is_bank bank -> is_u32 gen ->
  leads m c bank gen -> bank_holds m c bank gen img -> picks m c bank.
Proof.
  intros Hlay Hb Hg Hd Hh.
  assert (is_u32 (m_capacity m)) as Hc by (destruct Hlay; unfold is_u32, UINT32_MAX in *; lia).
  destruct (holds_valid m c _ _ img Hc Hg Hh) as [Hv Hgen].
  split; [done|]. split; [done|]. intros Hv'. rewrite Hgen. by apply Hd, bank_valid_committed.
Qed.

Lemma leads_geometry m m' c bank gen : same_geometry m m' -> leads m c bank gen -> leads m' c bank gen.
Proof.
  intros (E1 & E2 & E3 & E4). unfold leads, bank_committed, bank_header, valid_header, bank_offset.
  by rewrite E1, E2, ?E3, E4.
Qed.

(** A lead is kept as long as the other bank commits nothing new. *)
Lemma leads_kept m c c' bank gen : leads m c bank gen ->
  (bank_committed m c' (1 - bank) = true ->
   bank_committed m c (1 - bank) = true /\ bank_header m c' (1 - bank) = bank_header m c (1 - bank)) ->
  leads m c' bank gen.
Proof. intros Hl H [H1 H2]%H. rewrite H2. by apply Hl. Qed.

(** The bank initialisation picks after an update that was cut short anywhere. *)
Lemma update_picks lcap off data p r p' :
  mirror_inv lcap (dev p) -> 0 <= off -> off + zlen data <= lcap -> bytes_ok data ->
  dominates (ram p) (medium p) ->
  tear_detected (ram p) (medium p) (1 - active_bank (ram p)) ->
  mirror_write raw off data p = (r, p') ->
  let m := ram p in
  (r <> LS_OK /\ leads m (medium p') (active_bank m) (m_generation m) /\
   bank_holds m (medium p') (active_bank m) (m_generation m) (image_of (dev p))) \/
  (leads m (medium p') (1 - active_bank m) (u32 (m_generation m + 1)) /\
   bank_holds m (medium p') (1 - active_bank m) (u32 (m_generation m + 1)) (new_image off data p)).
Proof.
  intros Hinv Ho Hb Hd Hdom Htear H m. pose proof (zlen_nonneg data).
  apply (update_image_spec lcap _ _ _ data) in H as (_ & _ & _ & Hres); try done.
  destruct Hinv as [I1 I2 I3 I4 I5 I6]. fold (ram p) in *. fold m in Hdom, Htear, Hres, I2, I3, I4, I5, I6.
  pose proof (medium_zlen raw p I1) as Hz. destruct (other_bank _ I4) as [Hob Hne].
  rewrite (lxor_other _ I4) in *. fold (medium p) in *.
  destruct (bank_range m _ I2 Hob) as [HB HB2]. pose proof I2 as [L1 L2 L3 L4 L5]. unfold header_size in L2.
  destruct Hres as [(Hr & Hm' & Emed) | (m1 & Hgeo & [C1 C2 C3 C4 C5])].
  { left. rewrite Emed. split; [done|]. split; [|done].
    by eapply (leads_kept m (medium p)). }
  assert (same_geometry m1 m) as Hgeo' by (destruct Hgeo as (?&?&?&?); by repeat split).
  assert (bank_offset m1 = bank_offset m) as Ebo by (unfold bank_offset; destruct Hgeo as (?&->&?); done).
  pose proof Hgeo as (_ & Ebs & _ & Eco). rewrite ?Ebo, ?Ebs, ?Eco in *.
  assert (bank_holds m (medium p') (active_bank m) (m_generation m) (image_of (dev p))) as Hact
    by (by eapply (holds_outside m (medium p) _ _ (1 - active_bank m))).
  assert (is_u32 (m_capacity m)) as Hc by (unfold is_u32, UINT32_MAX in *; lia).
  assert (bank_holds m1 (medium p') (1 - active_bank m) (u32 (m_generation m + 1)) (new_image off data p) ->
    leads m (medium p') (1 - active_bank m) (u32 (m_generation m + 1)) /\
    bank_holds m (medium p') (1 - active_bank m) (u32 (m_generation m + 1)) (new_image off data p)) as Hnew.
  { intros Hh. apply (bank_holds_geometry m1 m) in Hh; [|done]. split; [|done].
    destruct (holds_valid m _ _ _ _ Hc I5 Hact) as [_ Hg'].
    unfold leads. replace (1 - (1 - active_bank m)) with (active_bank m) by lia.
    intros _. rewrite Hg'. by apply newer_succ. }
  destruct (decide (r = LS_OK)) as [Hr|Hr]; [right; auto|].
  destruct C4 as [Ht | [Hmk | Hh]]; [| |right; auto].
  - left. split; [done|]. split; [|done]. eapply (leads_kept m (medium p)); [done|]. intros Hv.
    unfold bank_committed in Hv. bool_prop.
    assert (bank_header m (medium p') (1 - active_bank m) = bank_header m (medium p) (1 - active_bank m)) as Eh
      by (by apply Htear).
    split; [|done]. unfold bank_committed. rewrite <- Eh. apply andb_true_iff. split; [done|].
    rewrite <- (torn_erase_marker (bank_offset m (1 - active_bank m)) (bank_size m) _ (medium p) (medium p'));
      [by apply Z.eqb_eq|lia|lia|done|done].
  - left. split; [done|]. split; [|done]. eapply (leads_kept m (medium p)); [done|]. intros Hv.
    unfold bank_committed in Hv. rewrite Hmk in Hv.
    apply andb_true_iff in Hv as [_ Hv]. done.
Qed.

Lemma mirror_write_inv lcap off data p r p' :
  mirror_inv lcap (dev p) -> 0 <= off -> off + zlen data <= lcap -> bytes_ok data ->
  mirror_write raw off data p = (r, p') -> inv (snd (dev p')).
Proof.
  intros Hinv Ho Hb Hd H. pose proof (zlen_nonneg data).
  apply (update_image_spec lcap _ _ _ data) in H as (H & _); try done. by destruct H.
Qed.

(** A write that succeeds leaves the bank it wrote in the lead. *)
Lemma mirror_write_dominates lcap off data p r p' :
  mirror_inv lcap (dev p) -> 0 <= off -> off + zlen data <= lcap -> bytes_ok data ->
  dominates (ram p) (medium p) -> tear_detected (ram p) (medium p) (1 - active_bank (ram p)) ->
  mirror_write raw off data p = (r, p') -> r = LS_OK -> dominates (ram p') (medium p').
Proof.
  intros Hinv Ho Hb Hd Hdom Htear H Hr. pose proof (zlen_nonneg data). pose proof H as H'.
  apply (update_picks lcap) in H as [[? _]|[H _]]; [done| |done..].
  apply (update_image_spec lcap _ _ _ data) in H' as (_ & _ & _ & [(? & _)|(m1 & Hgeo & [_ C2 _ _ _])]); [done| |done..].
  rewrite Hr in C2. cbn [is_ok] in C2. unfold dominates. rewrite C2. cbn [with_active active_bank m_generation].
  rewrite lxor_other by (by destruct Hinv). by eapply (leads_geometry (ram p)).
Qed.

(** Initialisation takes the bank that leads. *)
Lemma init_leads ws lcap m bank p gen img r q :
  init_geometry m lcap -> inv (snd (dev p)) -> live (raw_of p) -> is_bank bank -> is_u32 gen ->
  leads m (medium p) bank gen -> bank_holds m (medium p) bank gen img ->
  ls_flash_mirror_init raw ws lcap p = (r, q) ->
  r = LS_OK /\ image_of (dev q) = img /\ mirror_inv lcap (dev q) /\ dominates (ram q) (medium q).
Proof.
  intros Hg Hi Hl Hb Hgen Hlead Hh H. pose proof (init_geometry_layout m lcap Hg) as Hlay. pose proof H as H'.
  apply (init_picks _ _ m _ bank) in H as (-> & Himg & Ha & Hq & Hgeo & Hm); try done; [|by eapply leads_picks].
  apply (init_inv _ _ m) in H'; [|done..]. split; [done|]. split; [by rewrite Himg; destruct Hh|]. split; [done|].
  assert (is_u32 (m_capacity m)) as Hc by (destruct Hlay; unfold is_u32, UINT32_MAX in *; lia).
  destruct (holds_valid m _ _ _ _ Hc Hgen Hh) as [_ Eg].
  unfold dominates. rewrite Ha, Hq, Hm, Eg. by eapply (leads_geometry m).
Qed.
End MirrorOk.

(** ** Properties *)

(** C9: the mirror turns raw flash into storage with atomic writes.  After a write
    the logical contents are the old image with the new bytes in place when it
    succeeds, and exactly the old image when it fails, whichever erase, program
    or sync of the raw device failed and however it tore; on a live device it
    succeeds. *)
Theorem mirror_write_atomic {D} (raw : ls_storage_backend_t (platform D)) `{!StorageOk raw}
    lcap off data p r p' :
  mirror_inv raw lcap (dev p) -> bytes_ok data -> 0 <= off -> off + zlen data <= lcap ->
  mirror_write raw off data p = (r, p') ->
  mirror_inv raw lcap (dev p') /\
  image_of raw (dev p') =
    (if is_ok r then splice off data (image_of raw (dev p)) else image_of raw (dev p)) /\
  (mirror_live raw p -> r = LS_OK).
Proof.
  intros Hinv Hd Ho Hb H. pose proof (zlen_nonneg data).
  apply (update_image_spec raw lcap _ _ _ data) in H as (? & ? & Hl & _); try done.
  split_and!; try done. intros Hlv. by destruct (Hl Hlv).
Qed.

(** C10: power loss during a write never loses data.  Whatever the write had done when it
    was cut short, initialisation on the surviving medium, with the raw device answering,
    succeeds and finds the old image or the complete new one, and the new one when the
    write had reported success.  There are two premises on the state before the write.
    The active bank leads: the other bank has committed nothing newer.  The header
    checksum tells a partly erased header from a whole one.  The theorem restores the
    first premise itself: the active bank leads again after the recovery, and after a
    write that succeeded, so it has to be assumed only once.  A write that failed in its
    last sync, after the marker was programmed, is the one way to lose it:
    [failed_write_returns] shows what can happen then. *)
Theorem mirror_recovers {D} (raw : ls_storage_backend_t (platform D)) `{!StorageOk raw}
    lcap off data p r p' ws m0 t r2 q :
  mirror_inv raw lcap (dev p) -> bytes_ok data -> 0 <= off -> off + zlen data <= lcap ->
  init_geometry raw (ram p) lcap ->
  dominates (ram p) (medium raw p) ->
  tear_detected (ram p) (medium raw p) (1 - active_bank (ram p)) ->
  mirror_write raw off data p = (r, p') ->
  live {| faults := t; dev := snd (dev p') |} ->
  ls_flash_mirror_init raw ws lcap {| faults := t; dev := (m0, snd (dev p')) |} = (r2, q) ->
  r2 = LS_OK /\
  (image_of raw (dev q) = splice off data (image_of raw (dev p)) \/
   r <> LS_OK /\ image_of raw (dev q) = image_of raw (dev p)) /\
  mirror_inv raw lcap (dev q) /\ dominates (ram q) (medium raw q) /\
  (r = LS_OK -> dominates (ram p') (medium raw p')).
Proof.
  intros Hinv Hd Ho Hb Hg Hdom Htear H Hl Hinit.
  pose proof (mirror_write_dominates raw lcap off data p r p' Hinv Ho Hb Hd Hdom Htear H) as Hdom'.
  pose proof (mirror_write_inv raw lcap off data p r p' Hinv Ho Hb Hd H) as Hi'.
  apply (update_picks raw lcap) in H; try done.
  pose proof (fun gen img => init_leads raw ws lcap (ram p) (active_bank (ram p))
    {| faults := t; dev := (m0, snd (dev p')) |} gen img r2 q Hg Hi' Hl) as Hold.
  pose proof (fun gen img => init_leads raw ws lcap (ram p) (1 - active_bank (ram p))
    {| faults := t; dev := (m0, snd (dev p')) |} gen img r2 q Hg Hi' Hl) as Hnew.
  assert (is_bank (active_bank (ram p)) /\ is_u32 (m_generation (ram p))) as [Hbk Hgen] by (by destruct Hinv).
  assert (is_bank (1 - active_bank (ram p))) as Hbk' by (destruct Hbk as [-> | ->]; [right|left]; done).
  destruct H as [(Hr & Hp & Hh) | (Hp & Hh)].
  - destruct (Hold _ _ Hbk Hgen Hp Hh Hinit) as (-> & -> & ? & ?). split_and!; auto.
  - destruct (Hnew _ _ Hbk' (u32_range _) Hp Hh Hinit) as (-> & -> & ? & ?).
    split_and!; auto.
Qed.

(** ** Witnesses: a four-byte mirror on 64 bytes of erased memory *)

Definition demo_raw := memory_backend 64 32 1.

#[export] Instance demo_raw_ok : StorageOk demo_raw.
Proof. apply memory_ok; unfold SIZE_MAX; lia. Defined.

Definition demo_geometry : ls_flash_mirror_t :=
  {| workspace := []; m_capacity := 4; bank_size := 32; payload_offset := 25; commit_offset := 24;
     active_bank := 0; m_generation := 0 |}.

Definition demo_start : @mstate ls_memory_storage_t :=
  {| faults := no_faults; dev := (demo_geometry, fill 64 0xff) |}.

(** The state after initialisation. *)
Definition demo_mirror : @mstate ls_memory_storage_t :=
  snd (ls_flash_mirror_init demo_raw [] 4 demo_start).

Lemma demo_init_geometry m : same_geometry demo_geometry m -> init_geometry demo_raw m 4.
Proof.
  intros (E1 & E2 & E3 & E4). unfold init_geometry. rewrite E1, E2, E3, E4.
  split_and!; try reflexivity; try (by eexists); vm_compute; discriminate.
Qed.

Lemma demo_mirror_inv : mirror_inv demo_raw 4 (dev demo_mirror).
Proof.
  apply (init_inv demo_raw [] 4 demo_geometry demo_start).
  - by apply demo_init_geometry.
  - split; [done|]. apply bytes_ok_fill. unfold is_u8. lia.
  - vm_compute. reflexivity.
Qed.

Lemma demo_mirror_bytes : bytes_ok [7; 8].
Proof. repeat (apply List.Forall_cons || apply List.Forall_nil); unfold is_u8; lia. Qed.

Lemma mirror_write_atomic_witness :
  let run := mirror_write demo_raw 1 [7; 8] demo_mirror in
  image_of demo_raw (dev (snd run)) =
    (if is_ok (fst run) then splice 1 [7; 8] (image_of demo_raw (dev demo_mirror))
     else image_of demo_raw (dev demo_mirror)).
Proof.
  destruct (mirror_write_atomic demo_raw 4 1 [7; 8] demo_mirror
    (fst (mirror_write demo_raw 1 [7; 8] demo_mirror)) (snd (mirror_write demo_raw 1 [7; 8] demo_mirror)))
    as (_ & H & _).
  - exact demo_mirror_inv.
  - exact demo_mirror_bytes.
  - lia.
  - vm_compute. discriminate.
  - apply surjective_pairing.
  - exact H.
Defined.

Lemma torn_same {A} off (data l l' : list A) :
  0 <= off -> slice off (zlen data) l = data -> torn off data l l' -> l' = l.
Proof.
  intros Ho Hs [Hl H]. apply list_eq. intros i. destruct (H i) as [?|[Hi Hd]]; [done|].
  rewrite Hd, <- Hs, lookup_slice by lia. f_equal. lia.
Qed.

Lemma demo_dominates : dominates (ram demo_mirror) (medium demo_raw demo_mirror).
Proof. unfold dominates. vm_compute. discriminate. Qed.

Lemma demo_tear : tear_detected (ram demo_mirror) (medium demo_raw demo_mirror) 1.
Proof.
  intros c' Ht _. apply torn_same in Ht; [by rewrite Ht|vm_compute; discriminate|vm_compute; reflexivity].
Qed.

Lemma mirror_recovers_witness :
  let run := mirror_write demo_raw 1 [7; 8] demo_mirror in
  let q := snd (ls_flash_mirror_init demo_raw [] 4
                  {| faults := no_faults; dev := (demo_geometry, snd (dev (snd run))) |}) in
  image_of demo_raw (dev q) = splice 1 [7; 8] (image_of demo_raw (dev demo_mirror)) \/
  fst run <> LS_OK /\ image_of demo_raw (dev q) = image_of demo_raw (dev demo_mirror).
Proof.
  intros run q.
  destruct (mirror_recovers demo_raw 4 1 [7; 8] demo_mirror (fst run) (snd run) [] demo_geometry no_faults
    (fst (ls_flash_mirror_init demo_raw [] 4
       {| faults := no_faults; dev := (demo_geometry, snd (dev (snd run))) |})) q) as (_ & H & _).
  - exact demo_mirror_inv.
  - exact demo_mirror_bytes.
  - lia.
  - vm_compute. discriminate.
  - apply demo_init_geometry. vm_compute. repeat split.
  - exact demo_dominates.
  - exact demo_tear.
  - apply surjective_pairing.
  - reflexivity.
  - apply surjective_pairing.
  - exact H.
Defined.

(** *** A write that failed in its last sync

    The marker is on the medium, so the bank the failed write filled is the newer one,
    while the mirror goes on with the old bank. The next write begins by erasing that
    newer bank; when it is cut short before a byte is erased, initialisation takes up the
    write that had reported the error. *)
Definition sim_raw := sim_backend 64 32 1.

#[export] Instance sim_raw_ok : StorageOk sim_raw.
Proof. apply sim_ok; unfold SIZE_MAX; lia. Defined.

(** The simulated medium [p], whose operation number [n] from now on is the one to be
    interrupted, after none of its bytes. *)
Definition interrupted_at (n : Z) (p : @mstate ls_storage_sim_t) : @mstate ls_storage_sim_t :=
  {| faults := faults p; dev := (fst (dev p), ls_storage_sim_fail_at n 0 (snd (dev p))) |}.

Definition demo_sim_mirror : @mstate ls_storage_sim_t :=
  snd (ls_flash_mirror_init sim_raw [] 4
         {| faults := no_faults; dev := (demo_geometry,
              {| sim_data := fill 64 0xff; enforce_nor := true; operation_count := 0;
                 fail_operation := 0; partial_bytes := 0 |}) |}).

Lemma failed_write_returns :
  let first := mirror_write sim_raw 0 [1] (interrupted_at 7 demo_sim_mirror) in
  let second := mirror_write sim_raw 0 [2] (interrupted_at 2 (snd first)) in
  let again := ls_flash_mirror_init sim_raw [] 4 (interrupted_at 0 (snd second)) in
  fst first = LS_EIO /\ fst second = LS_EIO /\ fst again = LS_OK /\
  image_of sim_raw (dev (snd first)) = fill 4 0xff /\
  image_of sim_raw (dev (snd second)) = fill 4 0xff /\
  image_of sim_raw (dev (snd again)) = [1; 0xff; 0xff; 0xff].
Proof. vm_compute. repeat split. Qed.
