(* ===== verification/WearLevel.v ===== *)
(** * Wear levelling ([src/storage/wear_level.c])

    An atomic byte-addressable store over several flash slots.  Every update goes
    to the least-erased slot that is not active; initialisation picks the newest
    valid slot and recovers the erase counters from the headers. *)

From S2P Require Import Prelude Util FaultInjection Storage FlashLayer.

Definition WEAR_MAGIC : Z := 0x574c534c.
Definition WEAR_VERSION : Z := 2.
Definition WEAR_COMMITTED : Z := 0xa5.
Definition LS_FLASH_WEAR_MAX_SLOTS : Z := 32.

Record wear_header_t : Type := {
  magic : Z;
  version : Z;
  generation : Z;
  erase_count : Z;
  logical_capacity : Z;
  data_crc : Z;
  hdr_crc : Z;
}.

Definition header_layout : list nat := [4; 4; 4; 4; 4; 4; 4]%nat.
Definition header_size : Z := 28.

Definition header_pack (h : wear_header_t) : list Z :=
  pack header_layout
    [magic h; version h; generation h; erase_count h; logical_capacity h; data_crc h; hdr_crc h].

Definition header_unpack (bs : list Z) : wear_header_t :=
  match unpack header_layout bs with
  | [m; v; g; e; l; d; c] =>
      {| magic := m; version := v; generation := g; erase_count := e; logical_capacity := l;
         data_crc := d; hdr_crc := c |}
  | _ => {| magic := 0; version := 0; generation := 0; erase_count := 0; logical_capacity := 0;
            data_crc := 0; hdr_crc := 0 |}
  end.

(** ** Layout *)

(** Payload offset, commit offset and slot size. *)
Definition wear_layout (lcap esize wsize : Z) : option (Z * Z * Z) :=
  if (lcap =? 0) || (esize =? 0) || (wsize =? 0) || (esize <? wsize) ||
     negb (esize mod wsize =? 0) || (LS_STORAGE_MAX_WRITE_SIZE <? wsize)
  then None
  else
    commit ← align_size header_size wsize;
    metadata_end ← add_size commit wsize;
    payload ← align_size metadata_end wsize;
    slot ← add_size payload lcap;
    slot ← align_size slot esize;
    Some (payload, commit, slot).

Definition ls_flash_wear_physical_size_for_write (lcap esize wsize slots : Z) : Z :=
  let wsize := if wsize =? 0 then 1 else wsize in
  if (slots <? 2) || (LS_FLASH_WEAR_MAX_SLOTS <? slots) then 0
  else
    match wear_layout lcap esize wsize with
    | None => 0
    | Some (_, _, slot) =>
        if SIZE_MAX / slots <? slot then 0 else default 0 (add_size 0 (slot * slots))
    end.

Definition ls_flash_wear_physical_size (lcap esize slots : Z) : Z :=
  ls_flash_wear_physical_size_for_write lcap esize 1 slots.

(** ** The structure in RAM *)

Record ls_flash_wear_level_t : Type := {
  workspace : list Z;
  w_capacity : Z;
  slot_size : Z;
  payload_offset : Z;
  commit_offset : Z;
  slot_count : Z;
  w_generation : Z;
  erase_counts : list Z;
  failed_commits : Z;
  active_slot : Z;
}.

Definition with_workspace (ws : list Z) (w : ls_flash_wear_level_t) : ls_flash_wear_level_t :=
  {| workspace := ws; w_capacity := w_capacity w; slot_size := slot_size w;
     payload_offset := payload_offset w; commit_offset := commit_offset w; slot_count := slot_count w;
     w_generation := w_generation w; erase_counts := erase_counts w;
     failed_commits := failed_commits w; active_slot := active_slot w |}.

Definition with_counts (counts : list Z) (failed : Z) (w : ls_flash_wear_level_t)
  : ls_flash_wear_level_t :=
  {| workspace := workspace w; w_capacity := w_capacity w; slot_size := slot_size w;
     payload_offset := payload_offset w; commit_offset := commit_offset w; slot_count := slot_count w;
     w_generation := w_generation w; erase_counts := counts;
     failed_commits := failed; active_slot := active_slot w |}.

Definition with_active (slot gen : Z) (w : ls_flash_wear_level_t) : ls_flash_wear_level_t :=
  {| workspace := workspace w; w_capacity := w_capacity w; slot_size := slot_size w;
     payload_offset := payload_offset w; commit_offset := commit_offset w; slot_count := slot_count w;
     w_generation := gen; erase_counts := erase_counts w;
     failed_commits := failed_commits w; active_slot := slot |}.

(** [wear->failed_commits++]. *)
Definition note_failure (w : ls_flash_wear_level_t) : ls_flash_wear_level_t :=
  with_counts (erase_counts w) (inc32 (failed_commits w)) w.

Definition slot_offset (w : ls_flash_wear_level_t) (slot : Z) : Z := slot * slot_size w.

(** [wear->erase_counts[slot]]. *)
Definition count_of (w : ls_flash_wear_level_t) (slot : Z) : Z :=
  default 0 (erase_counts w !! Z.to_nat slot).

Definition header_crc (h : wear_header_t) : Z := ls_crc32 (slice 0 24 (header_pack h)).

Definition valid_header (w : ls_flash_wear_level_t) (h : wear_header_t) : bool :=
  (magic h =? WEAR_MAGIC) && (version h =? WEAR_VERSION) &&
  (logical_capacity h =? w_capacity w) && (hdr_crc h =? header_crc h).

(** The loop of [next_slot]; [step] runs from 1 to [slot_count]. *)
Fixpoint next_slot_loop (n : nat) (step : Z) (w : ls_flash_wear_level_t) (selected minimum : Z) : Z :=
  match n with
  | O => selected
  | S n =>
      let slot := (active_slot w + step) mod slot_count w in
      if slot =? active_slot w then next_slot_loop n (step + 1) w selected minimum
      else if count_of w slot <? minimum then next_slot_loop n (step + 1) w slot (count_of w slot)
      else next_slot_loop n (step + 1) w selected minimum
  end.

Definition next_slot (w : ls_flash_wear_level_t) : Z :=
  next_slot_loop (Z.to_nat (slot_count w)) 1 w ((active_slot w + 1) mod slot_count w) UINT32_MAX.

Section Wear.
Context {D : Type} (raw : ls_storage_backend_t (platform D)).
Local Abbreviation raw_read := (raw_read raw).
Local Abbreviation raw_sync := (raw_sync raw).
Local Abbreviation raw_erase := (raw_erase raw).

Definition wstate : Type := platform (ls_flash_wear_level_t * D).

Definition valid_slot (slot : Z) : st wstate (res (wear_header_t * bool)) := fun p =>
  let w := ram p in
  let offset := slot_offset w slot in
  let '(r, p) := raw_read offset header_size p in
  match r with
  | Err e => (Err e, p)
  | Ok bs =>
      let header := header_unpack bs in
      if negb (valid_header w header) then (Ok (header, false), p)
      else
        let '(r, p) := raw_read (offset + commit_offset w) 1 p in
        match r with
        | Err e => (Err e, p)
        | Ok committed =>
            if negb (le_get committed =? WEAR_COMMITTED) then (Ok (header, false), p)
            else
              let '(r, p) := raw_read (offset + payload_offset w) (w_capacity w) p in
              match r with
              | Err e => (Err e, p)
              | Ok image =>
                  let '(_, p) := set_ram (with_workspace image) p in
                  (Ok (header, data_crc header =? ls_crc32 image), p)
              end
        end
  end.

(** The header [commit] writes for an image. *)
Definition image_header (w : ls_flash_wear_level_t) (slot gen : Z) (image : list Z) : wear_header_t :=
  let h := {| magic := WEAR_MAGIC; version := WEAR_VERSION; generation := gen;
              erase_count := count_of w slot; logical_capacity := u32 (w_capacity w);
              data_crc := ls_crc32 image; hdr_crc := 0 |} in
  {| magic := magic h; version := version h; generation := generation h; erase_count := erase_count h;
     logical_capacity := logical_capacity h; data_crc := data_crc h; hdr_crc := header_crc h |}.

(** Record the failure of a commit. *)
Definition fail_commit (r : ls_result_t) : st wstate ls_result_t := fun p =>
  let '(_, p) := set_ram note_failure p in (r, p).

Definition commit (slot gen : Z) : st wstate ls_result_t := fun p =>
  let w := ram p in
  if count_of w slot =? UINT32_MAX then fail_commit LS_EOVERFLOW p
  else
    let offset := slot_offset w slot in
    let '(r, p) := raw_erase offset (slot_size w) p in
    if negb (is_ok r) then fail_commit r p
    else
      let '(_, p) := set_ram (fun w =>
        with_counts (<[Z.to_nat slot := count_of w slot + 1]> (erase_counts w)) (failed_commits w) w) p in
      let w := ram p in
      let header := image_header w slot gen (workspace w) in
      let '(r, p) :=
        (on_raw (ls_storage_program raw offset (header_pack header)) ;;?
         on_raw (ls_storage_program raw (offset + payload_offset w) (workspace w)) ;;?
         raw_sync ;;?
         on_raw (ls_storage_program raw (offset + commit_offset w) [WEAR_COMMITTED]) ;;?
         raw_sync) p in
      if is_ok r then let '(_, p) := set_ram (with_active (u8 slot) gen) p in (r, p)
      else fail_commit r p.

(** [read_active(wear, wear->workspace)]. *)
Definition read_active : st wstate ls_result_t := fun p =>
  let w := ram p in
  let '(r, p) := raw_read (slot_offset w (active_slot w) + payload_offset w) (w_capacity w) p in
  match r with
  | Err e => (e, p)
  | Ok image => let '(_, p) := set_ram (with_workspace image) p in (LS_OK, p)
  end.

Definition wear_read (offset length : Z) : st wstate (res (list Z)) := fun p =>
  let w := ram p in
  if (w_capacity w <? offset) || (w_capacity w - offset <? length) then (Err LS_EINVAL, p)
  else raw_read (slot_offset w (active_slot w) + payload_offset w + offset) length p.

Definition update (offset length : Z) (source : option (list Z)) : st wstate ls_result_t := fun p =>
  let w := ram p in
  if (w_capacity w <? offset) || (w_capacity w - offset <? length) then (LS_EINVAL, p)
  else
    (read_active ;;?
     (fun p =>
        let data := match source with Some d => d | None => fill length 0xff end in
        let '(_, p) := set_ram (fun w => with_workspace (splice offset data (workspace w)) w) p in
        let w := ram p in
        commit (next_slot w) (u32 (w_generation w + 1)) p)) p.

Definition wear_write (offset : Z) (source : list Z) : st wstate ls_result_t :=
  update offset (zlen source) (Some source).

Definition wear_erase (offset length : Z) : st wstate ls_result_t := update offset length None.

Definition wear_sync : st wstate ls_result_t := raw_sync.

Definition wear_backend (lcap : Z) : ls_storage_backend_t wstate :=
  Build_ls_storage_backend_t lcap 1 1 wear_read wear_write (Some wear_erase) (Some wear_sync).

(** The scan of initialisation: erase counters, and the newest valid slot so far
    as its generation. *)
Fixpoint init_scan (n : nat) (slot : Z) (newest : option Z) : st wstate (res (option Z)) := fun p =>
  match n with
  | O => (Ok newest, p)
  | S n =>
      let '(r, p) := valid_slot slot p in
      match r with
      | Err e => (Err e, p)
      | Ok (header, valid) =>
          let '(_, p) := set_ram (fun w =>
            if valid_header w header
            then with_counts (<[Z.to_nat slot := erase_count header]> (erase_counts w)) (failed_commits w) w
            else w) p in
          if valid && match newest with
                      | None => true
                      | Some g => generation_is_newer (generation header) g
                      end
          then
            let '(_, p) := set_ram (with_active (u8 slot) (generation header)) p in
            init_scan n (slot + 1) (Some (generation header)) p
          else init_scan n (slot + 1) newest p
      end
  end.

Definition ls_flash_wear_init (ws : list Z) (lcap slots : Z) : st wstate ls_result_t := fun p =>
  match erase raw with
  | None => (LS_EINVAL, p)
  | Some _ =>
      if (lcap =? 0) || (UINT32_MAX <? lcap) || (slots <? 2) || (LS_FLASH_WEAR_MAX_SLOTS <? slots)
      then (LS_EINVAL, p)
      else
        let wsize := if negb (write_size raw =? 0) then write_size raw else 1 in
        match wear_layout lcap (erase_size raw) wsize with
        | None => (LS_EINVAL, p)
        | Some (payload, commit_off, slot) =>
            if (SIZE_MAX / slots <? slot) || (capacity raw <? slot * slots) then (LS_ENOSPACE, p)
            else
              let '(_, p) := set_ram (fun _ =>
                {| workspace := ws; w_capacity := lcap; slot_size := slot; payload_offset := payload;
                   commit_offset := commit_off; slot_count := slots; w_generation := 0;
                   erase_counts := fill LS_FLASH_WEAR_MAX_SLOTS 0; failed_commits := 0;
                   active_slot := 0 |}) p in
              let '(r, p) := init_scan (Z.to_nat slots) 0 None p in
              match r with
              | Err e => (e, p)
              | Ok (Some _) => (LS_OK, p)
              | Ok None =>
                  let '(_, p) := set_ram (with_workspace (fill lcap 0xff)) p in
                  commit 0 1 p
              end
        end
  end.
End Wear.

(** ** Telemetry *)

Record ls_flash_wear_stats_t : Type := {
  s_generation : Z;
  total_erases : Z;
  minimum_erases : Z;
  maximum_erases : Z;
  s_failed_commits : Z;
  s_slots : Z;
  s_active_slot : Z;
}.

(** One slot of the statistics loop: total (saturating), minimum, maximum. *)
Definition stats_step (acc : Z * Z * Z) (count : Z) : Z * Z * Z :=
  let '(total, mn, mx) := acc in
  (if UINT32_MAX - total <? count then UINT32_MAX else total + count,
   if count <? mn then count else mn,
   if mx <? count then count else mx).

Definition ls_flash_wear_stats (wear : option ls_flash_wear_level_t) : ls_flash_wear_stats_t :=
  match wear with
  | None =>
      {| s_generation := 0; total_erases := 0; minimum_erases := 0; maximum_erases := 0;
         s_failed_commits := 0; s_slots := 0; s_active_slot := 0 |}
  | Some w =>
      let '(total, mn, mx) :=
        foldl stats_step (0, UINT32_MAX, 0) (take (Z.to_nat (slot_count w)) (erase_counts w)) in
      {| s_generation := w_generation w; total_erases := total;
         minimum_erases := if slot_count w =? 0 then 0 else mn; maximum_erases := mx;
         s_failed_commits := failed_commits w; s_slots := slot_count w;
         s_active_slot := active_slot w |}
  end.

Record ls_flash_wear_lifetime_t : Type := {
  rated_erase_cycles : Z;
  l_maximum_erases : Z;
  wear_permyriad : Z;
  exhausted : bool;
  estimated_commits_remaining : Z;
}.

(** One slot of the lifetime loop: maximum and remaining budget. *)
Definition lifetime_step (rated : Z) (acc : Z * Z) (count : Z) : Z * Z :=
  let '(mx, remaining) := acc in
  (if mx <? count then count else mx,
   if count <? rated then u64 (remaining + (rated - count)) else remaining).

Definition ls_flash_wear_lifetime (wear : option ls_flash_wear_level_t) (rated : Z) (lifetime : ptr)
  : res ls_flash_wear_lifetime_t :=
  match wear with
  | None => Err LS_EINVAL
  | Some w =>
      if negb lifetime || (rated =? 0) || (slot_count w =? 0) || (LS_FLASH_WEAR_MAX_SLOTS <? slot_count w)
      then Err LS_EINVAL
      else
        let '(mx, remaining) :=
          foldl (lifetime_step rated) (0, 0) (take (Z.to_nat (slot_count w)) (erase_counts w)) in
        let scaled := u64 (mx * 10000) in
        Ok {| rated_erase_cycles := rated; l_maximum_erases := mx;
              wear_permyriad := if u64 (rated * 10000) <=? scaled then 10000 else u16 (scaled / rated);
              exhausted := rated <=? mx; estimated_commits_remaining := remaining |}
  end.

(** ** Slot selection *)

(** The geometry and bookkeeping every operation maintains. *)
Record wear_ok (w : ls_flash_wear_level_t) : Prop := {
  wo_slots : 2 <= slot_count w <= LS_FLASH_WEAR_MAX_SLOTS;
  wo_active : 0 <= active_slot w < slot_count w;
  wo_length : zlen (erase_counts w) = LS_FLASH_WEAR_MAX_SLOTS;
  wo_counts : Forall is_u32 (erase_counts w);
}.

Lemma count_u32 w slot : wear_ok w -> is_u32 (count_of w slot).
Proof.
  intros [_ _ _ H]. unfold count_of. destruct (erase_counts w !! Z.to_nat slot) as [c|] eqn:E; simpl.
  - by eapply (Forall_lookup_1 is_u32).
  - unfold is_u32. lia.
Qed.

(** The invariant of the selection loop: [k] slots after the active one were seen. *)
Definition selecting (w : ls_flash_wear_level_t) (k selected minimum : Z) : Prop :=
  0 <= selected < slot_count w /\ selected <> active_slot w /\ count_of w selected <= minimum /\
  forall j, 1 <= j <= k -> let s := (active_slot w + j) mod slot_count w in
    s <> active_slot w -> minimum <= count_of w s.

Lemma next_slot_loop_spec n k w selected minimum :
  wear_ok w -> 0 <= k -> selecting w k selected minimum ->
  exists mn, selecting w (k + Z.of_nat n) (next_slot_loop n (k + 1) w selected minimum) mn.
Proof.
  intros Hw. revert k selected minimum. induction n as [|n IH]; intros k selected minimum Hk Hs; cbn [next_slot_loop].
  - exists minimum. by rewrite Z.add_0_r.
  - destruct Hw as [H1 H2 H3 H4]. set (s := (active_slot w + (k + 1)) mod slot_count w).
    pose proof (Z.mod_pos_bound (active_slot w + (k + 1)) (slot_count w) ltac:(lia)) as Hr. fold s in Hr.
    replace (k + Z.of_nat (S n)) with (k + 1 + Z.of_nat n) by lia.
    destruct Hs as (S1 & S2 & S3 & S4).
    assert (forall sel mn, (0 <= sel < slot_count w /\ sel <> active_slot w /\ count_of w sel <= mn) ->
      mn <= minimum -> (s <> active_slot w -> mn <= count_of w s) -> selecting w (k + 1) sel mn) as Hext.
    { intros sel mn (?&?&?) Hmn Hc. split; [done|]. split; [done|]. split; [done|].
      intros j Hj. destruct (decide (j = k + 1)) as [->|]; [done|].
      intros s' Hs'. assert (minimum <= count_of w s'); [|lia]. apply S4; [lia|done]. }
    destruct (s =? active_slot w) eqn:E1; bool_prop; [|destruct (count_of w s <? minimum) eqn:E2; bool_prop];
      apply IH; try lia; apply Hext; try done; lia.
Qed.

(** Every other slot is reached within one turn. *)
Lemma slot_reached a n s : 0 <= a < n -> 0 <= s < n -> s <> a ->
  exists j, 1 <= j <= n /\ (a + j) mod n = s.
Proof.
  intros Ha Hs Hne. destruct (Z.lt_ge_cases a s).
  - exists (s - a). split; [lia|]. replace (a + (s - a)) with s by lia. apply Z.mod_small. lia.
  - exists (s - a + n). split; [lia|]. replace (a + (s - a + n)) with (s + 1 * n) by lia.
    rewrite Z_mod_plus_full. apply Z.mod_small. lia.
Qed.

Lemma next_slot_spec w : wear_ok w ->
  0 <= next_slot w < slot_count w /\ next_slot w <> active_slot w /\
  forall s, 0 <= s < slot_count w -> s <> active_slot w -> count_of w (next_slot w) <= count_of w s.
Proof.
  intros Hw. pose proof Hw as [H1 H2 H3 H4]. unfold next_slot.
  destruct (next_slot_loop_spec (Z.to_nat (slot_count w)) 0 w ((active_slot w + 1) mod slot_count w) UINT32_MAX)
    as (mn & S1 & S2 & S3 & S4); [done|lia| |].
  - pose proof (Z.mod_pos_bound (active_slot w + 1) (slot_count w) ltac:(lia)).
    split; [done|]. split; [|split; [|lia]].
    + intros E. destruct (Z.lt_ge_cases (active_slot w + 1) (slot_count w)).
      * rewrite Z.mod_small in E; lia.
      * assert (active_slot w + 1 = slot_count w) as E' by lia. rewrite E', Z_mod_same_full in E. lia.
    + pose proof (count_u32 w ((active_slot w + 1) mod slot_count w) Hw) as Hc.
      unfold is_u32, UINT32_MAX in *. lia.
  - change (0 + 1) with 1 in *. split; [done|]. split; [done|]. intros s Hs Hne.
    destruct (slot_reached (active_slot w) (slot_count w) s) as (j & Hj & Ej); [done..|].
    specialize (S4 j ltac:(lia)). cbv zeta in S4. rewrite Ej in S4. specialize (S4 Hne). lia.
Qed.

(** ** Updates *)

Section WearOk.
Context {D : Type} (raw : ls_storage_backend_t (platform D)) `{OK : !StorageOk raw}.
Implicit Types p : @wstate D.
Local Abbreviation medium := (medium raw).

Record geometry_ok (w : ls_flash_wear_level_t) : Prop := {
  ge_capacity : 0 < w_capacity w <= UINT32_MAX;
  ge_commit : header_size <= commit_offset w;
  ge_payload : commit_offset w + 1 <= payload_offset w;
  ge_slot : payload_offset w + w_capacity w <= slot_size w;
  ge_fits : slot_count w * slot_size w <= capacity raw;
}.

Definition image_of (s : ls_flash_wear_level_t * D) : list Z :=
  let '(w, d) := s in
  slice (slot_offset w (active_slot w) + payload_offset w) (w_capacity w) (contents d).

Record wear_inv (lcap : Z) (s : ls_flash_wear_level_t * D) : Prop := {
  wi_inv : inv (snd s);
  wi_ok : wear_ok (fst s);
  wi_geometry : geometry_ok (fst s);
  wi_capacity : w_capacity (fst s) = lcap;
}.

Lemma slot_range w slot : wear_ok w -> geometry_ok w -> 0 <= slot < slot_count w ->
  0 <= slot_offset w slot /\ slot_offset w slot + slot_size w <= capacity raw.
Proof.
  intros [? ? ? ?] [? ? ? ? ?] Hs. unfold slot_offset, header_size in *. split; nia.
Qed.

(** The stores of a commit after the erase, as one step. *)
Lemma commit_stores off w hdr ws p r p' :
  inv (snd (dev p)) -> geometry_ok w -> 0 <= off -> off + slot_size w <= capacity raw ->
  bytes_ok hdr -> zlen hdr = header_size -> bytes_ok ws -> zlen ws = w_capacity w ->
  (on_raw (ls_storage_program raw off hdr) ;;?
   on_raw (ls_storage_program raw (off + payload_offset w) ws) ;;?
   raw_sync raw ;;?
   on_raw (ls_storage_program raw (off + commit_offset w) [WEAR_COMMITTED]) ;;?
   raw_sync raw) p = (r, p') ->
  ram p' = ram p /\ inv (snd (dev p')) /\ outside off (slot_size w) (medium p) (medium p') /\
  (r = LS_OK -> slice (off + payload_offset w) (w_capacity w) (medium p') = ws).
Proof.
  intros Hi [G1 G2 G3 G4 G5] Ho Hb Hh Hzh Hw Hzw H. unfold header_size in *.
  assert (bytes_ok [WEAR_COMMITTED]) as Hbc by (by repeat constructor).
  assert (zlen [WEAR_COMMITTED] = 1) as Hzc by done.
  apply and_then_inv in H as [[H Hr] | (p1 & H1 & H)].
  { apply (program_raw raw) in H as (M & I & T & _); try done; try lia.
    split_and!; try done. eapply torn_outside; [exact T|lia|lia]. }
  apply (program_raw raw) in H1 as (M1 & I1 & T1 & S1); try done; try lia. specialize (S1 eq_refl).
  assert (outside off (slot_size w) (medium p) (medium p1)) as O1 by (eapply torn_outside; [exact T1|lia|lia]).
  pose proof (medium_zlen raw p1 I1) as Z1.
  apply and_then_inv in H as [[H Hr] | (p2 & H2 & H)].
  { apply (program_raw raw) in H as (M & I & T & _); try done; try lia.
    split_and!; try done; [congruence|]. eapply outside_trans; [exact O1|]. eapply torn_outside; [exact T|lia|lia]. }
  apply (program_raw raw) in H2 as (M2 & I2 & T2 & S2); try done; try lia. specialize (S2 eq_refl).
  assert (outside off (slot_size w) (medium p) (medium p2)) as O2
    by (eapply outside_trans; [exact O1|]; eapply torn_outside; [exact T2|lia|lia]).
  assert (slice (off + payload_offset w) (w_capacity w) (medium p2) = ws) as P2
    by (rewrite S2, <- Hzw; apply slice_splice_same; lia).
  apply and_then_inv in H as [[H Hr] | (p3 & H3 & H)].
  { apply (raw_sync_same raw) in H as (M & I & S); [|done]. rewrite S. split_and!; try done. congruence. }
  apply (raw_sync_same raw) in H3 as (M3 & I3 & S3); [|done].
  apply and_then_inv in H as [[H Hr] | (p4 & H4 & H)].
  { apply (program_raw raw) in H as (M & I & T & _); try done; try lia. rewrite S3 in T.
    split_and!; try done; [congruence|]. eapply outside_trans; [exact O2|]. eapply torn_outside; [exact T|lia|lia]. }
  apply (program_raw raw) in H4 as (M4 & I4 & T4 & S4); try done; try lia. rewrite S3 in T4.
  apply (raw_sync_same raw) in H as (M5 & I5 & S5); [|done]. rewrite S5.
  split_and!; try done; [congruence| |].
  - eapply outside_trans; [exact O2|]. eapply torn_outside; [exact T4|lia|lia].
  - intros _. rewrite (torn_slice_disjoint _ _ _ _ _ _ T4) by lia. done.
Qed.

(** What a commit to [slot] leaves: the other slots as they were, the erase
    counter advanced when the erase went through, and on success the image. *)
Lemma commit_spec w slot gen p r p' :
  wear_ok w -> geometry_ok w -> inv (snd (dev p)) -> ram p = w -> 0 <= slot < slot_count w ->
  zlen (workspace w) = w_capacity w -> bytes_ok (workspace w) ->
  commit raw slot gen p = (r, p') ->
  let counts := <[Z.to_nat slot := count_of w slot + 1]> (erase_counts w) in
  inv (snd (dev p')) /\ outside (slot_offset w slot) (slot_size w) (medium p) (medium p') /\
  exists w', ram p' = (if is_ok r then with_active slot gen w' else note_failure w') /\
    (w' = with_counts counts (failed_commits w) w /\ count_of w slot < UINT32_MAX \/ r <> LS_OK /\ w' = w) /\
    (r = LS_OK -> slice (slot_offset w slot + payload_offset w) (w_capacity w) (medium p') = workspace w).
Proof.
  intros Hw Hg Hi Hm Hs Hzw Hbw H counts. unfold commit in H. rewrite Hm in H.
  destruct (slot_range w slot Hw Hg Hs) as [R1 R2]. pose proof Hg as [G1 G2 G3 G4 G5]. unfold header_size in G2.
  pose proof (count_u32 w slot Hw) as Hc. unfold is_u32 in Hc.
  destruct (count_of w slot =? UINT32_MAX) eqn:E; bool_prop.
  { unfold fail_commit, set_ram in H. simplify_eq. split_and!; try done.
    exists (ram p). split_and!; try done. by right. }
  destruct (raw_erase raw (slot_offset w slot) (slot_size w) p) as [re p1] eqn:Ee.
  apply (erase_raw raw) in Ee as (M1 & I1 & T1 & S1); try done; try lia.
  assert (outside (slot_offset w slot) (slot_size w) (medium p) (medium p1)) as O1.
  { eapply torn_outside; [exact T1|lia|]. rewrite zlen_fill by lia. lia. }
  destruct (negb (is_ok re)) eqn:Er; bool_prop.
  { unfold fail_commit, set_ram in H. simplify_eq. split_and!; try done. exists (ram p).
    apply is_ok_false in Er as Er'. rewrite Er'. unfold ram in *. simpl. rewrite M1. split_and!; try done. by right. }
  unfold set_ram at 1 in H. set (p2 := set_dev _ p1) in H.
  set (w2 := with_counts counts (failed_commits w) w).
  assert (ram p2 = w2) as M2 by (unfold p2, ram in *; simpl; by rewrite M1, Hm).
  rewrite M2 in H. change (workspace w2) with (workspace w) in H.
  change (payload_offset w2) with (payload_offset w) in H. change (commit_offset w2) with (commit_offset w) in H.
  destruct ((on_raw _ ;;? _) p2) as [rc p3] eqn:Ec.
  apply (commit_stores _ w) in Ec as (M3 & I3 & O3 & P3); try done; try lia.
  2:{ apply bytes_ok_pack. }
  assert (outside (slot_offset w slot) (slot_size w) (medium p) (medium p3)) as O4
    by (eapply outside_trans; [exact O1|exact O3]).
  assert (u8 slot = slot) as Hu.
  { apply u8_id. unfold is_u8. destruct Hw. unfold LS_FLASH_WEAR_MAX_SLOTS in *. lia. }
  assert (count_of w slot < UINT32_MAX) as Hlt by (unfold UINT32_MAX in *; lia).
  destruct (is_ok rc) eqn:Erc.
  - apply is_ok_true in Erc as ->. unfold set_ram in H. injection H as <- <-. split_and!; try done.
    exists w2. unfold ram in *. simpl. rewrite M3, M2, Hu. split_and!; try done; first [by left|auto].
  - unfold fail_commit, set_ram in H. injection H as <- <-. split_and!; try done.
    exists w2. rewrite Erc. unfold ram in *. simpl. rewrite M3, M2. split_and!; try done; first [by left|intros ->; done].
Qed.
Lemma next_slot_loop_workspace ws w n k sel mn :
  next_slot_loop n k (with_workspace ws w) sel mn = next_slot_loop n k w sel mn.
Proof.
  revert k sel mn. induction n as [|n IH]; intros; [done|]. cbn [next_slot_loop].
  cbn [slot_count active_slot with_workspace]. change (count_of (with_workspace ws w)) with (count_of w).
  repeat case_if; apply IH.
Qed.

Lemma next_slot_workspace ws w : next_slot (with_workspace ws w) = next_slot w.
Proof. apply next_slot_loop_workspace. Qed.

Lemma wear_ok_counts w counts f : wear_ok w -> zlen counts = zlen (erase_counts w) ->
  Forall is_u32 counts -> wear_ok (with_counts counts f w).
Proof. intros [? ? ? ?] Hz Hc. split; simpl; try done. congruence. Qed.

Lemma bump_ok w slot : wear_ok w -> count_of w slot < UINT32_MAX ->
  let counts := <[Z.to_nat slot := count_of w slot + 1]> (erase_counts w) in
  zlen counts = zlen (erase_counts w) /\ Forall is_u32 counts.
Proof.
  intros Hw Hlt counts. pose proof (count_u32 w slot Hw) as Hc. unfold zlen, counts.
  rewrite length_insert. split; [done|]. apply Forall_insert; [by destruct Hw|].
  unfold is_u32, UINT32_MAX in *. lia.
Qed.

(** The outcome of an update: its effect on the image and on the counters. *)
Record update_result (lcap off : Z) (data : list Z) (p : @wstate D) (r : ls_result_t) (p' : @wstate D) : Prop := {
  ur_inv : wear_inv lcap (dev p');
  ur_image : image_of (dev p') =
    if is_ok r then splice off data (image_of (dev p)) else image_of (dev p);
  ur_slots : slot_count (ram p') = slot_count (ram p);
  ur_ok : r = LS_OK ->
    active_slot (ram p') = next_slot (ram p) /\
    erase_counts (ram p') =
      <[Z.to_nat (next_slot (ram p)) := count_of (ram p) (next_slot (ram p)) + 1]> (erase_counts (ram p));
}.

Lemma wear_inv_same lcap w d d' : wear_inv lcap (w, d) -> inv d' -> contents d' = contents d ->
  wear_inv lcap (w, d') /\ image_of (w, d') = image_of (w, d).
Proof. intros [? ? ? ?] Hi E. split; [|by simpl; rewrite E]. by split. Qed.

Lemma image_range lcap w d : wear_inv lcap (w, d) ->
  let o := slot_offset w (active_slot w) + payload_offset w in
  0 <= o /\ o + w_capacity w <= capacity raw /\ zlen (image_of (w, d)) = lcap.
Proof.
  intros [Hi Hw Hg E]. cbn [fst snd] in *.
  destruct (slot_range w (active_slot w) Hw Hg) as [R1 R2]; [by destruct Hw|].
  destruct Hg as [G1 G2 G3 G4 G5]. unfold header_size in G2. cbv zeta. split; [lia|]. split; [lia|].
  simpl. rewrite <- E. apply zlen_slice; try lia. rewrite contents_zlen by done. lia.
Qed.

Lemma read_active_spec lcap p r p' : wear_inv lcap (dev p) -> read_active raw p = (r, p') ->
  inv (snd (dev p')) /\ medium p' = medium p /\
  ram p' = (if is_ok r then with_workspace (image_of (dev p)) (ram p) else ram p).
Proof.
  intros Hinv H. unfold read_active in H.
  assert (exists w d, dev p = (w, d)) as (w & d & Ed) by (destruct (dev p); eauto).
  rewrite Ed in Hinv. destruct (image_range lcap w d Hinv) as (R1 & R2 & _).
  assert (ram p = w) as Hw by (unfold ram; by rewrite Ed). rewrite Hw in *.
  destruct (raw_read raw _ _ p) as [rd p1] eqn:Er.
  assert (0 < w_capacity w) by (destruct Hinv as [_ _ [? _ _ _ _] _]; cbn [fst] in *; lia).
  apply (raw_read_spec raw) in Er as (M & I & S & R & N & _); try lia; [|rewrite Ed; by destruct Hinv].
  destruct rd as [img|e].
  - specialize (R img eq_refl). unfold set_ram in H. injection H as <- <-. split_and!; try done.
    unfold ram, FlashLayer.medium in *. simpl. rewrite M, Hw, Ed in *. by rewrite R.
  - injection H as <- <-. split_and!; try done. destruct (is_ok e) eqn:Eo; [|congruence].
    apply is_ok_true in Eo. congruence.
Qed.

(** A change of one slot does not touch another. *)
Lemma slot_outside w slot o (c c' : list Z) x n : wear_ok w -> geometry_ok w ->
  0 <= slot < slot_count w -> 0 <= o < slot_count w -> o <> slot ->
  outside (slot_offset w slot) (slot_size w) c c' -> 0 <= x -> 0 <= n -> x + n <= slot_size w ->
  slice (slot_offset w o + x) n c' = slice (slot_offset w o + x) n c.
Proof.
  intros Hw [G1 G2 G3 G4 G5] Hs Ho Hne [_ H] Hx Hn Hxn. unfold slot_offset, header_size in *.
  apply H; [nia|lia|]. destruct (Z.lt_ge_cases o slot); [left|right]; nia.
Qed.

Lemma update_spec lcap off len src data p r p' :
  wear_inv lcap (dev p) -> 0 <= off -> 0 <= len -> off + len <= lcap -> bytes_ok data -> zlen data = len ->
  data = (match src with Some d => d | None => fill len 0xff end) ->
  update raw off len src p = (r, p') -> update_result lcap off data p r p'.
Proof.
  intros Hinv Ho Hn Hb Hd Hzd Hsrc H. unfold update in H.
  assert (exists w d, dev p = (w, d)) as (w & d & Ed) by (destruct (dev p); eauto).
  assert (ram p = w) as Hrw by (unfold ram; by rewrite Ed).
  pose proof Hinv as Hinv0. rewrite Ed in Hinv0.
  destruct (image_range lcap w d Hinv0) as (R1 & R2 & Hzi). destruct Hinv0 as [I1 I2 I3 I4]. cbn [fst snd] in *.
  rewrite Hrw in H. destruct ((_ <? off) || _) eqn:Eb; [bool_prop; destruct Eb; blia|].
  rewrite <- Hsrc in H. clear Hsrc Eb.
  apply and_then_inv in H as [[H Hr] | (p1 & H1 & H)].
  - apply (read_active_spec lcap) in H as (I & S & M); [|done]. apply is_ok_false in Hr as Hr'. rewrite Hr' in M.
    assert (exists d', dev p' = (w, d')) as [d' Ed']
      by (exists (snd (dev p')); unfold ram in *; destruct (dev p'); simpl in *; congruence).
    unfold FlashLayer.medium in S. rewrite Ed, Ed' in *. cbn [snd] in *.
    destruct (wear_inv_same lcap w d d' Hinv I S) as [J1 J2].
    split; rewrite ?Ed', ?Hr', ?Ed; try done. by rewrite M.
  - apply (read_active_spec lcap) in H1 as (I & S & M); [|done]. cbn [is_ok] in M. rewrite Hrw, Ed in M.
    unfold set_ram in H. set (p2 := set_dev _ p1) in H.
    set (w2 := with_workspace (splice off data (image_of (w, d))) w).
    assert (ram p2 = w2) as M2 by (unfold p2, ram in *; simpl; by rewrite M).
    rewrite M2 in H. change (next_slot w2) with (next_slot (with_workspace (splice off data (image_of (w, d))) w)) in H.
    rewrite next_slot_workspace in H. destruct (next_slot_spec w I2) as (N1 & N2 & _).
    assert (wear_ok w2) as Hw2 by (destruct I2; by split).
    assert (geometry_ok w2) as Hg2 by (destruct I3; by split).
    assert (bytes_ok (image_of (w, d))) as Hbi by (simpl; apply bytes_ok_slice; by apply contents_bytes).
    apply (commit_spec w2) in H as (J1 & J2 & w' & J3 & J4 & J5); try done.
    2:{ change (zlen (splice off data (image_of (w, d))) = w_capacity w). rewrite zlen_splice; lia. }
    2:{ change (bytes_ok (splice off data (image_of (w, d)))). by apply bytes_ok_splice. }
    change (slot_offset w2) with (slot_offset w) in *. change (count_of w2) with (count_of w) in *.
    change (medium p2) with (medium p1) in J2. rewrite S in J2.
    cbn [w2 with_workspace workspace w_capacity payload_offset erase_counts failed_commits slot_size] in J4, J5.
    assert (FlashLayer.medium raw p = contents d) as Emed by (unfold FlashLayer.medium; by rewrite Ed).
    rewrite Emed in J2.
    assert (wear_ok w' /\ geometry_ok w' /\ w_capacity w' = lcap /\ active_slot w' = active_slot w /\
      slot_size w' = slot_size w /\ payload_offset w' = payload_offset w /\ slot_count w' = slot_count w)
      as (K1 & K2 & K3 & K4 & K5 & K6 & K7).
    { destruct J4 as [[-> Hlt] | [_ ->]]; [|done]. split; [|by destruct I3; split_and!].
      destruct (bump_ok w (next_slot w) I2 Hlt). by apply wear_ok_counts. }
    assert (exists d', dev p' = (ram p', d') /\ contents d' = medium p') as (d' & Ed' & Emed')
      by (exists (snd (dev p')); split; [unfold ram; by destruct (dev p')|done]).
    destruct (is_ok r) eqn:Er.
    + apply is_ok_true in Er as ->. specialize (J5 eq_refl).
      split; rewrite ?Ed', ?J3, ?Hrw, ?Ed.
      * split; cbn [fst snd]; try done; [by rewrite Ed' in J1| |by destruct K2; split].
        destruct K1. split; try done. simpl. lia.
      * simpl. unfold slot_offset in *. simpl. rewrite K5, K6, K3, Emed'. by rewrite <- I4.
      * done.
      * intros _. simpl. destruct J4 as [[-> _] | [? _]]; done.
    + apply is_ok_false in Er as Er'. split; rewrite ?Ed', ?J3, ?Hrw, ?Ed, ?Er; try done.
      * split; cbn [fst snd]; try done; [by rewrite Ed' in J1|by destruct K1; split|by destruct K2; split].
      * simpl. unfold slot_offset at 1. simpl. rewrite K4, K5, K6, K3, Emed'. fold (slot_offset w (active_slot w)).
        rewrite <- I4. destruct I3 as [G1 G2 G3 G4 G5]. unfold header_size in *.
        eapply (slot_outside w (next_slot w)); try done; try lia; by destruct I2.
Qed.
End WearOk.

(** ** Levelling *)

(** All erase counters within one of each other, the active slot among the most worn. *)
Definition levelled (w : ls_flash_wear_level_t) : Prop :=
  exists m, count_of w (active_slot w) = m + 1 /\
    forall s, 0 <= s < slot_count w -> m <= count_of w s <= m + 1.

Lemma count_bump w w' slot s :
  wear_ok w -> 0 <= slot < slot_count w -> 0 <= s < slot_count w ->
  erase_counts w' = <[Z.to_nat slot := count_of w slot + 1]> (erase_counts w) ->
  count_of w' s = if s =? slot then count_of w slot + 1 else count_of w s.
Proof.
  intros [H1 H2 H3 H4] Hs Hs' E. unfold count_of at 1. rewrite E.
  destruct (s =? slot) eqn:Es; bool_prop.
  - subst. rewrite list_lookup_insert_eq; [done|]. unfold zlen, LS_FLASH_WEAR_MAX_SLOTS in *. lia.
  - rewrite list_lookup_insert_ne by lia. done.
Qed.

Lemma levelled_bump w w' :
  wear_ok w -> levelled w -> slot_count w' = slot_count w -> active_slot w' = next_slot w ->
  erase_counts w' = <[Z.to_nat (next_slot w) := count_of w (next_slot w) + 1]> (erase_counts w) ->
  levelled w'.
Proof.
  intros Hw (m & Ha & Hm) Hn Hact Hc. destruct (next_slot_spec w Hw) as (N1 & N2 & N3).
  pose proof (fun s Hs => count_bump w w' (next_slot w) s Hw N1 Hs Hc) as Hb.
  destruct (Hm _ N1) as [Hl Hu]. destruct (decide (count_of w (next_slot w) = m)) as [E|E].
  - exists m. rewrite Hact, Hn. split; [rewrite Hb, Z.eqb_refl by done; lia|].
    intros s Hs. rewrite Hb by done. case_if; [lia|]. by apply Hm.
  - exists (m + 1). rewrite Hact, Hn. split; [rewrite Hb, Z.eqb_refl by done; lia|].
    intros s Hs. rewrite Hb by done. case_if; [lia|]. pose proof (Hm s Hs).
    destruct (decide (s = active_slot w)) as [->|]; [lia|]. specialize (N3 s Hs ltac:(done)). lia.
Qed.

(** ** Properties *)

(** The wear-levelling layer is atomic storage in one life of the device.  A write that fails anywhere,
    however the device tore, leaves the logical image exactly as it was, and one
    that succeeds has exactly its effect; the structural invariant survives both. *)
Theorem wear_write_atomic {D} (raw : ls_storage_backend_t (platform D)) `{!StorageOk raw}
    lcap off data p r p' :
  wear_inv raw lcap (dev p) -> bytes_ok data -> 0 <= off -> off + zlen data <= lcap ->
  wear_write raw off data p = (r, p') ->
  wear_inv raw lcap (dev p') /\
  image_of raw (dev p') =
    (if is_ok r then splice off data (image_of raw (dev p)) else image_of raw (dev p)).
Proof.
  intros Hinv Hd Ho Hb H. pose proof (zlen_nonneg data).
  apply (update_spec raw lcap _ _ _ data) in H as []; done.
Qed.

(** C12: wear is levelled.  A successful write goes to a slot other than the active
    one with the fewest erases, and from a levelled state leads to a levelled
    state: no two slots ever differ by more than one erase. *)
Theorem wear_levels {D} (raw : ls_storage_backend_t (platform D)) `{!StorageOk raw} lcap off data p p' :
  wear_inv raw lcap (dev p) -> bytes_ok data -> 0 <= off -> off + zlen data <= lcap ->
  levelled (ram p) -> wear_write raw off data p = (LS_OK, p') ->
  active_slot (ram p') <> active_slot (ram p) /\
  (forall s, 0 <= s < slot_count (ram p) -> s <> active_slot (ram p) ->
     count_of (ram p) (active_slot (ram p')) <= count_of (ram p) s) /\
  levelled (ram p') /\
  (forall s t, 0 <= s < slot_count (ram p') -> 0 <= t < slot_count (ram p') ->
     Z.abs (count_of (ram p') s - count_of (ram p') t) <= 1).
Proof.
  intros Hinv Hd Ho Hb Hlev H. pose proof (zlen_nonneg data).
  apply (update_spec raw lcap _ _ _ data) in H as [U1 U2 U3 U4]; try done. destruct (U4 eq_refl) as [A C].
  assert (wear_ok (ram p)) as Hw by (by destruct Hinv).
  destruct (next_slot_spec (ram p) Hw) as (N1 & N2 & N3).
  assert (levelled (ram p')) as Hlev' by (by eapply levelled_bump).
  rewrite A. split_and!; try done. destruct Hlev' as (m & _ & Hm). intros s t Hs Ht.
  pose proof (Hm s Hs). pose proof (Hm t Ht). lia.
Qed.

(** *** Lifetime *)

Definition budget (rated count : Z) : Z := Z.max 0 (rated - count).
Definition sum_z (l : list Z) : Z := foldr Z.add 0 l.

Lemma lifetime_fold rated l mx rem :
  is_u32 rated -> Forall is_u32 l -> 0 <= rem -> rem + zlen l * 2 ^ 32 < 2 ^ 64 ->
  foldl (lifetime_step rated) (mx, rem) l =
    (foldl Z.max mx l, rem + sum_z (map (budget rated) l)).
Proof.
  intros Hr Hl. revert mx rem. induction Hl as [|c l Hc Hl IH]; intros mx rem H0 Hb.
  - simpl. f_equal. lia.
  - rewrite zlen_cons in Hb. cbn [foldl]. pose proof (zlen_nonneg l). unfold is_u32 in *.
    assert (lifetime_step rated (mx, rem) c = (Z.max mx c, rem + budget rated c)) as ->.
    { unfold lifetime_step, budget. f_equal; [case_if; blia|].
      destruct (c <? rated) eqn:E; bool_prop; [|lia]. rewrite u64_id; unfold is_u64; lia. }
    rewrite IH by (unfold budget; lia). f_equal. simpl. lia.
Qed.

Lemma foldl_max_spec mx l : mx <= foldl Z.max mx l /\ (forall c, c ∈ l -> c <= foldl Z.max mx l) /\
  (foldl Z.max mx l = mx \/ foldl Z.max mx l ∈ l).
Proof.
  revert mx. induction l as [|c l IH]; intros mx; simpl.
  - split_and!; [lia| |by left]. intros c Hc. by apply elem_of_nil in Hc.
  - destruct (IH (Z.max mx c)) as (H1 & H2 & H3). split_and!; [lia| |].
    + intros x [->|Hx]%elem_of_cons; [lia|auto].
    + destruct H3 as [E|H3]; [|by right; apply elem_of_cons; right].
      rewrite E. destruct (Z.max_spec mx c) as [[_ ->]|[_ ->]]; [right; by apply elem_of_cons; left|by left].
Qed.

(** The lifetime report is exact for up to 32 slots of 32-bit counters: the
    remaining budget is the sum over the slots of what each has left, without
    overflow; the wear figure is the floor of the worst slot in 1/10000, capped at
    10000; and exhaustion is reported exactly when some slot reached its rating. *)
Theorem wear_lifetime_exact w rated :
  wear_ok w -> 0 < rated -> is_u32 rated ->
  let counts := take (Z.to_nat (slot_count w)) (erase_counts w) in
  exists l, ls_flash_wear_lifetime (Some w) rated SET = Ok l /\
    estimated_commits_remaining l = sum_z (map (budget rated) counts) /\
    (exhausted l = true <-> exists c, c ∈ counts /\ rated <= c) /\
    wear_permyriad l = Z.min 10000 (l_maximum_erases l * 10000 / rated) /\
    (forall c, c ∈ counts -> c <= l_maximum_erases l).
Proof.
  intros [H1 H2 H3 H4] Hr Hu counts. unfold ls_flash_wear_lifetime, LS_FLASH_WEAR_MAX_SLOTS in *.
  destruct (negb SET || _ || _ || _) eqn:E.
  { change (negb SET) with false in E. cbn [orb] in E.
    destruct (rated =? 0) eqn:?; [blia|]. destruct (slot_count w =? 0) eqn:?; [blia|]. simpl in E. blia. }
  assert (Forall is_u32 counts) as Hc by (by apply Forall_take).
  assert (zlen counts = slot_count w) as Hz
    by (unfold zlen, counts in *; rewrite length_take; lia).
  fold counts. rewrite lifetime_fold by (done || lia). eexists. split; [done|].
  destruct (foldl_max_spec 0 counts) as (M1 & M2 & M3). set (mx := foldl Z.max 0 counts) in *.
  assert (0 <= mx < 2 ^ 32) as Hmx.
  { destruct M3 as [->|M3]; [lia|]. rewrite Forall_forall in Hc. by apply Hc in M3. }
  unfold is_u32 in Hu.
  cbn [estimated_commits_remaining exhausted wear_permyriad l_maximum_erases]. split_and!; [lia| | |done].
  - rewrite Z.leb_le. split.
    + intros Hle. exists mx. destruct M3 as [E0|M3]; [lia|done].
    + intros (c & Hin & Hle). specialize (M2 c Hin). lia.
  - rewrite !u64_id by (unfold is_u64; lia).
    assert (0 <= mx * 10000 / rated) by (apply Z.div_pos; lia).
    destruct (rated * 10000 <=? mx * 10000) eqn:El; bool_prop.
    + assert (10000 <= mx * 10000 / rated) by (apply Z.div_le_lower_bound; lia). lia.
    + assert (mx * 10000 / rated < 10000) by (apply Z.div_lt_upper_bound; lia).
      rewrite u16_id by (unfold is_u16; lia). lia.
Qed.

(** ** Witnesses: three slots of erased memory, slot 0 active after one erase *)

Definition wear_raw := memory_backend 96 32 1.

#[export] Instance wear_raw_ok : StorageOk wear_raw.
Proof. apply memory_ok; unfold SIZE_MAX; lia. Defined.

Definition wear_demo : ls_flash_wear_level_t :=
  {| workspace := []; w_capacity := 3; slot_size := 32; payload_offset := 29; commit_offset := 28;
     slot_count := 3; w_generation := 1; erase_counts := 1 :: fill 31 0; failed_commits := 0;
     active_slot := 0 |}.

Definition wear_start : @wstate ls_memory_storage_t :=
  {| faults := no_faults; dev := (wear_demo, fill 96 0xff) |}.

Lemma wear_demo_ok : wear_ok wear_demo.
Proof.
  split; [vm_compute; split; discriminate|vm_compute; split; done|done|].
  apply Forall_cons. split; [done|]. apply Forall_replicate. done.
Qed.

Lemma wear_demo_inv : wear_inv wear_raw 3 (dev wear_start).
Proof.
  split; [split; [done|by apply bytes_ok_fill]|exact wear_demo_ok| |done].
  split; vm_compute; try (split; done); discriminate.
Qed.

Lemma wear_demo_levelled : levelled wear_demo.
Proof.
  exists 0. split; [done|]. intros s Hs. simpl in Hs. unfold count_of.
  assert (s = 0 \/ s = 1 \/ s = 2) as [->|[->| ->]] by lia; vm_compute; split; discriminate.
Qed.

Lemma wear_demo_bytes : bytes_ok [9; 8].
Proof. repeat (apply List.Forall_cons || apply List.Forall_nil); unfold is_u8; lia. Qed.

Lemma wear_write_atomic_witness :
  let run := wear_write wear_raw 1 [9; 8] wear_start in
  image_of wear_raw (dev (snd run)) =
    (if is_ok (fst run) then splice 1 [9; 8] (image_of wear_raw (dev wear_start))
     else image_of wear_raw (dev wear_start)).
Proof.
  refine (proj2 (wear_write_atomic wear_raw 3 1 [9; 8] wear_start
    (fst (wear_write wear_raw 1 [9; 8] wear_start)) (snd (wear_write wear_raw 1 [9; 8] wear_start)) _ _ _ _ _)).
  - exact wear_demo_inv.
  - exact wear_demo_bytes.
  - lia.
  - vm_compute. discriminate.
  - apply surjective_pairing.
Defined.

Lemma wear_levels_witness : levelled (ram (snd (wear_write wear_raw 1 [9; 8] wear_start))).
Proof.
  refine (proj1 (proj2 (proj2 (wear_levels wear_raw 3 1 [9; 8] wear_start
    (snd (wear_write wear_raw 1 [9; 8] wear_start)) _ _ _ _ _ _)))).
  - exact wear_demo_inv.
  - exact wear_demo_bytes.
  - lia.
  - vm_compute. discriminate.
  - exact wear_demo_levelled.
  - vm_compute. reflexivity.
Defined.

Lemma wear_lifetime_exact_witness :
  exists l, ls_flash_wear_lifetime (Some wear_demo) 100 SET = Ok l /\
    estimated_commits_remaining l = sum_z (map (budget 100) [1; 0; 0]).
Proof.
  destruct (wear_lifetime_exact wear_demo 100) as (l & H1 & H2 & _).
  - exact wear_demo_ok.
  - lia.
  - unfold is_u32. lia.
  - exists l. split; [exact H1|exact H2].
Defined.
