(* ===== verification/Transport.v ===== *)
(** * Transports ([src/transport/transport.c])

    Registration and selection of transports, the exclusive use of a transport
    during a send, retries, fragmentation of an envelope, and its reassembly at
    the receiver.

    The functions of a transport are the integrator's; they run over an external
    state [E], a parameter of the model. *)

From S2P Require Import Prelude Util FaultInjection.

Definition LS_MAX_TRANSPORTS : nat := 6.
Definition LS_TRANSPORT_ACK : Z := 1.
Definition LS_TRANSPORT_FRAGMENT : Z := 2.
Definition LS_TRANSPORT_DURABLE_ACK : Z := LS_TRANSPORT_ACK.

Definition LS_PRIORITY_EMERGENCY : Z := 0.
Definition LS_PRIORITY_CRITICAL : Z := 1.
Definition LS_PRIORITY_ERROR : Z := 2.
Definition LS_PRIORITY_WARNING : Z := 3.
Definition LS_PRIORITY_DIAGNOSTIC : Z := 4.

Record ls_transport_fragment_t : Type := {
  f_event_id : Z;
  f_envelope_crc : Z;
  f_total_length : Z;
  f_offset : Z;
  f_fragment_capacity : Z;
  f_fragment_crc : Z;
  f_fragment_index : Z;
  f_fragment_count : Z;
  f_data : list Z;
}.

(** [address] identifies the structure: the code compares pointers. *)
Record ls_transport_backend_t (E : Type) : Type := {
  address : Z;
  priority : Z;
  available : option (st E bool);
  send : option (list Z -> st E ls_result_t);
  send_fragment_v1 : option (Z -> Z -> Z -> list Z -> Z -> st E ls_result_t);
  max_payload : option (st E Z);
  capabilities : Z;
  energy_cost : Z;
  monetary_cost : Z;
  send_fragment_v2 : option (ls_transport_fragment_t -> st E ls_result_t);
  retry : option (Z -> ls_result_t -> st E bool);
  retry_limit : Z;
}.
Arguments address {E} _.
Arguments priority {E} _.
Arguments available {E} _.
Arguments send {E} _.
Arguments send_fragment_v1 {E} _.
Arguments max_payload {E} _.
Arguments capabilities {E} _.
Arguments energy_cost {E} _.
Arguments monetary_cost {E} _.
Arguments send_fragment_v2 {E} _.
Arguments retry {E} _.
Arguments retry_limit {E} _.

(** [busy_transports], the registered transports of [ls_runtime] and the world
    behind the callbacks. *)
Record net (E : Type) : Type := {
  busy_transports : list (option Z);
  transports : list (ls_transport_backend_t E);
  ext : E;
}.
Arguments busy_transports {E} _.
Arguments transports {E} _.
Arguments ext {E} _.

Section Transport.
Context {E : Type}.
Local Abbreviation transport_t := (ls_transport_backend_t E).

Definition nstate : Type := platform (net E).

Definition set_busy (b : list (option Z)) (n : net E) : net E :=
  {| busy_transports := b; transports := transports n; ext := ext n |}.
Definition set_transports (l : list transport_t) (n : net E) : net E :=
  {| busy_transports := busy_transports n; transports := l; ext := ext n |}.

(** Running a callback. *)
Definition call {A} (m : st E A) : st nstate A := fun p =>
  let '(a, e) := m (ext (dev p)) in
  (a, set_dev {| busy_transports := busy_transports (dev p); transports := transports (dev p); ext := e |} p).

Definition is_set {A} (o : option A) : bool := match o with Some _ => true | None => false end.

Definition has_fragment_sender (t : transport_t) : bool :=
  is_set (send_fragment_v1 t) || is_set (send_fragment_v2 t).

(** *** Exclusive use *)

(** The loop of [acquire_transport]: the table after it, or [None] when the
    transport was found busy or no slot was free before it. *)
Fixpoint acquire_loop (a : Z) (l : list (option Z)) : option (list (option Z)) :=
  match l with
  | [] => None
  | Some b :: l => if b =? a then None else (fun l => Some b :: l) <$> acquire_loop a l
  | None :: l => Some (Some a :: l)
  end.

Definition acquire_transport (t : transport_t) : st nstate bool := fun p =>
  match acquire_loop (address t) (busy_transports (dev p)) with
  | Some b => (true, set_dev (set_busy b (dev p)) p)
  | None => (false, p)
  end.

Fixpoint release_loop (a : Z) (l : list (option Z)) : list (option Z) :=
  match l with
  | [] => []
  | Some b :: l => if b =? a then None :: l else Some b :: release_loop a l
  | None :: l => None :: release_loop a l
  end.

Definition release_transport (t : transport_t) : st nstate unit := fun p =>
  (tt, set_dev (set_busy (release_loop (address t) (busy_transports (dev p))) (dev p)) p).

Definition transport_mtu (t : transport_t) (event_size : Z) : st nstate Z :=
  match max_payload t with Some f => call f | None => mret event_size end.

Definition ls_transport_result_is_retryable (r : ls_result_t) : bool :=
  match r with LS_EAGAIN | LS_EBUSY => true | _ => false end.

(** [transport->available && !transport->available(...)]. *)
Definition unavailable (t : transport_t) : st nstate bool := fun p =>
  match available t with
  | Some f => let '(b, p) := call f p in (negb b, p)
  | None => (false, p)
  end.

Definition ls_transport_can_send (t : transport_t) (event_size : Z) : st nstate bool := fun p =>
  if negb (is_set (send t)) && negb (has_fragment_sender t) then (false, p)
  else
    let '(un, p) := unavailable t p in
    if un then (false, p)
    else
      let '(mtu, p) := transport_mtu t event_size p in
      if mtu =? 0 then (false, p)
      else
        ((event_size <=? mtu) ||
         (negb (Z.land (capabilities t) LS_TRANSPORT_FRAGMENT =? 0) && has_fragment_sender t), p).

Definition ls_transport_register (t : option transport_t) : st nstate unit := fun p =>
  match t with
  | None => (tt, p)
  | Some t =>
      if negb (is_set (send t)) && negb (has_fragment_sender t) then (tt, p)
      else if existsb (fun u => address u =? address t) (transports (dev p)) then (tt, p)
      else if (length (transports (dev p)) <? LS_MAX_TRANSPORTS)%nat
      then (tt, set_dev (set_transports (transports (dev p) ++ [t]) (dev p)) p)
      else (tt, p)
  end.

Definition ls_transport_clear : st nstate unit := fun p =>
  (tt, set_dev (set_transports [] (dev p)) p).

Definition score_of (prio : Z) (t : transport_t) : Z :=
  let score := priority t * 1000 in
  let score := if LS_PRIORITY_WARNING <=? prio then score - energy_cost t - monetary_cost t * 2 else score in
  if negb (Z.land (capabilities t) LS_TRANSPORT_DURABLE_ACK =? 0) then score + 20 else score.

(** The selection loop over the snapshot of the table; [best] carries the chosen
    transport and its score, which starts below every score. *)
Fixpoint select_loop (prio event_size : Z) (l : list transport_t) (best : option (transport_t * Z))
  : st nstate (option (transport_t * Z)) := fun p =>
  match l with
  | [] => (best, p)
  | t :: l =>
      let '(ok, p) := ls_transport_can_send t event_size p in
      if negb ok then select_loop prio event_size l best p
      else
        let score := score_of prio t in
        let better := match best with None => true | Some (_, s) => s <? score end in
        select_loop prio event_size l (if better then Some (t, score) else best) p
  end.

Definition ls_transport_select (prio event_size : Z) : st nstate (option transport_t) := fun p =>
  let snapshot := take LS_MAX_TRANSPORTS (transports (dev p)) in
  let '(best, p) := select_loop prio event_size snapshot None p in
  (fst <$> best, p).

(** *** Sending *)

Definition should_retry (t : transport_t) (attempt : Z) (r : ls_result_t) : st nstate (bool * Z) := fun p =>
  if negb (ls_transport_result_is_retryable r) || (retry_limit t <=? attempt) then ((false, attempt), p)
  else
    let attempt := u8 (attempt + 1) in
    match retry t with
    | None => ((true, attempt), p)
    | Some f => let '(b, p) := call (f attempt r) p in ((b, attempt), p)
    end.

(** The [do ... while (should_retry(...))] loop around an injection point and an
    attempt.  The attempt counter stops it after [retry_limit + 1] rounds, the
    fuel given to it. *)
Fixpoint retry_loop (fuel : nat) (point : string) (action : st nstate ls_result_t)
    (t : transport_t) (attempt : Z) : st nstate ls_result_t := fun p =>
  match fuel with
  | O => (LS_EOVERFLOW, p)
  | S fuel =>
      let '(r, p) := hit point p in
      let '(r, p) := if is_ok r then action p else (r, p) in
      let '((again, attempt), p) := should_retry t attempt r p in
      if again then retry_loop fuel point action t attempt p else (r, p)
  end.

Definition retries (t : transport_t) : nat := S (Z.to_nat (retry_limit t)).

Definition send_complete (t : transport_t) (data : list Z) : st nstate ls_result_t := fun p =>
  match send t with
  | None => (LS_ENOTSUP, p)
  | Some f => retry_loop (retries t) "transport.send" (call (f data)) t 0 p
  end.

Definition send_fragment (t : transport_t) (f : ls_transport_fragment_t) : st nstate ls_result_t := fun p =>
  match send_fragment_v2 t, send_fragment_v1 t with
  | Some g, _ => retry_loop (retries t) "transport.fragment" (call (g f)) t 0 p
  | None, Some g =>
      retry_loop (retries t) "transport.fragment"
        (call (g (f_event_id f) (f_fragment_index f) (f_fragment_count f) (f_data f) (f_fragment_crc f))) t 0 p
  | None, None =>
      (* [return LS_ENOTSUP] from inside the loop, past the injection point. *)
      retry_loop (retries t) "transport.fragment" (mret LS_ENOTSUP) t 0 p
  end.

Definition fragment_count_of (length mtu : Z) : Z :=
  length / mtu + (if negb (length mod mtu =? 0) then 1 else 0).

Definition fragment_of (event_id : Z) (data : list Z) (mtu index : Z) : ls_transport_fragment_t :=
  let offset := index * mtu in
  let rest := zlen data - offset in
  let fragment_length := if mtu <? rest then mtu else rest in
  let bytes := slice offset fragment_length data in
  {| f_event_id := event_id; f_envelope_crc := ls_crc32 data; f_total_length := u32 (zlen data);
     f_offset := u32 offset; f_fragment_capacity := u32 mtu; f_fragment_crc := ls_crc32 bytes;
     f_fragment_index := u16 index; f_fragment_count := u16 (fragment_count_of (zlen data) mtu);
     f_data := bytes |}.

Fixpoint send_fragments (t : transport_t) (fs : list ls_transport_fragment_t) : st nstate ls_result_t :=
  match fs with
  | [] => mret LS_OK
  | f :: fs => send_fragment t f ;;? send_fragments t fs
  end.

(** The fragments the loop of [ls_transport_send] sends. *)
Definition fragments_of (event_id : Z) (data : list Z) (mtu : Z) : list ls_transport_fragment_t :=
  map (fun i => fragment_of event_id data mtu (Z.of_nat i))
    (List.seq 0 (Z.to_nat (fragment_count_of (zlen data) mtu))).

Definition ls_transport_send (t : option transport_t) (event_id : Z) (data : option (list Z))
  : st nstate ls_result_t := fun p =>
  match t, data with
  | None, _ | _, None | _, Some [] => (LS_EINVAL, p)
  | Some t, Some data =>
      let length := zlen data in
      if UINT32_MAX <? length then (LS_EOVERFLOW, p)
      else
        let '(un, p) := unavailable t p in
        if un then (LS_EAGAIN, p)
        else
          let '(mtu, p) := transport_mtu t length p in
          if mtu =? 0 then (LS_EINVAL, p)
          else
            let fragmented := mtu <? length in
            let no_fragments := (Z.land (capabilities t) LS_TRANSPORT_FRAGMENT =? 0) || negb (has_fragment_sender t) in
            if fragmented && no_fragments then (LS_ENOTSUP, p)
            else if negb fragmented && negb (is_set (send t)) && no_fragments then (LS_ENOTSUP, p)
            else
              let '(acquired, p) := acquire_transport t p in
              if negb acquired then (LS_EBUSY, p)
              else
                let '(r, p) :=
                  if negb fragmented && is_set (send t) then send_complete t data p
                  else if (UINT16_MAX <? fragment_count_of length mtu) || (UINT32_MAX <? mtu)
                  then (LS_EOVERFLOW, p)
                  else send_fragments t (fragments_of event_id data mtu) p in
                let '(_, p) := release_transport t p in
                (r, p)
  end.
End Transport.

(** ** Reassembly *)

Record ls_transport_reassembly_t : Type := {
  r_data : list Z;
  r_received : list Z;
  r_event_id : Z;
  r_envelope_crc : Z;
  r_total_length : Z;
  r_fragment_capacity : Z;
  r_fragment_count : Z;
  r_received_count : Z;
  r_active : bool;
  r_complete : bool;
}.

(** [data] and [received] are the caller's buffers, of [capacity] and
    [received_capacity] bytes. *)
Definition ls_transport_reassembly_reset (r : ls_transport_reassembly_t) : ls_transport_reassembly_t :=
  {| r_data := r_data r; r_received := fill (zlen (r_received r)) 0; r_event_id := 0; r_envelope_crc := 0;
     r_total_length := 0; r_fragment_capacity := 0; r_fragment_count := 0; r_received_count := 0;
     r_active := false; r_complete := false |}.

Definition ls_transport_reassembly_init (data received : list Z) : ls_transport_reassembly_t :=
  ls_transport_reassembly_reset
    {| r_data := data; r_received := received; r_event_id := 0; r_envelope_crc := 0; r_total_length := 0;
       r_fragment_capacity := 0; r_fragment_count := 0; r_received_count := 0; r_active := false;
       r_complete := false |}.

Definition validate_fragment (r : ls_transport_reassembly_t) (f : ls_transport_fragment_t) : ls_result_t :=
  if (zlen (f_data f) =? 0) || (f_total_length f =? 0) || (f_fragment_capacity f =? 0) ||
     (f_fragment_count f =? 0) || (f_fragment_count f <=? f_fragment_index f)
  then LS_EINVAL
  else if (zlen (r_data r) <? f_total_length f) || (u32 (zlen (r_received r) * 8) <? f_fragment_count f)
  then LS_ENOSPACE
  else
    let expected_count := fragment_count_of (f_total_length f) (f_fragment_capacity f) in
    if (expected_count =? 0) || (UINT16_MAX <? expected_count) || negb (f_fragment_count f =? expected_count)
    then LS_ECORRUPT
    else
      let expected_offset := u64 (f_fragment_index f * f_fragment_capacity f) in
      if (f_total_length f <=? expected_offset) || negb (f_offset f =? expected_offset) then LS_ECORRUPT
      else
        let rest := f_total_length f - u32 expected_offset in
        let expected_length := if f_fragment_capacity f <? rest then f_fragment_capacity f else rest in
        if negb (zlen (f_data f) =? expected_length) || negb (f_fragment_crc f =? ls_crc32 (f_data f))
        then LS_ECORRUPT else LS_OK.

(** [reassembly->received[i / 8] & (1 << (i % 8))]. *)
Definition received_bit (received : list Z) (index : Z) : bool :=
  negb (Z.land (default 0 (received !! Z.to_nat (index / 8))) (Z.shiftl 1 (index mod 8)) =? 0).

Definition mark_received (received : list Z) (index : Z) : list Z :=
  let byte := default 0 (received !! Z.to_nat (index / 8)) in
  <[Z.to_nat (index / 8) := Z.lor byte (Z.shiftl 1 (index mod 8))]> received.

(** The start of a new envelope. *)
Definition begin_envelope (r : ls_transport_reassembly_t) (f : ls_transport_fragment_t) : ls_transport_reassembly_t :=
  {| r_data := r_data r; r_received := fill (zlen (r_received r)) 0; r_event_id := f_event_id f;
     r_envelope_crc := f_envelope_crc f; r_total_length := f_total_length f;
     r_fragment_capacity := f_fragment_capacity f; r_fragment_count := f_fragment_count f;
     r_received_count := 0; r_active := true; r_complete := r_complete r |}.

Definition same_envelope (r : ls_transport_reassembly_t) (f : ls_transport_fragment_t) : bool :=
  (r_event_id r =? f_event_id f) && (r_envelope_crc r =? f_envelope_crc f) &&
  (r_total_length r =? f_total_length f) && (r_fragment_capacity r =? f_fragment_capacity f) &&
  (r_fragment_count r =? f_fragment_count f).

(** A push with a non-null length pointer: the code and [*envelope_length]. *)
Definition ls_transport_reassembly_push (f : ls_transport_fragment_t)
  : st ls_transport_reassembly_t (ls_result_t * Z) := fun r =>
  let result := validate_fragment r f in
  if negb (is_ok result) then ((result, 0), r)
  else if r_complete r then ((LS_EBUSY, 0), r)
  else if r_active r && negb (same_envelope r f) then ((LS_EBUSY, 0), r)
  else
    let r := if r_active r then r else begin_envelope r f in
    let index := f_fragment_index f in
    if received_bit (r_received r) index then
      if negb (ls_memcmp (slice (f_offset f) (zlen (f_data f)) (r_data r)) (f_data f) =? 0)
      then ((LS_ECORRUPT, 0), ls_transport_reassembly_reset r)
      else ((LS_OK, 0), r)
    else
      let r :=
        {| r_data := splice (f_offset f) (f_data f) (r_data r);
           r_received := mark_received (r_received r) index; r_event_id := r_event_id r;
           r_envelope_crc := r_envelope_crc r; r_total_length := r_total_length r;
           r_fragment_capacity := r_fragment_capacity r; r_fragment_count := r_fragment_count r;
           r_received_count := u16 (r_received_count r + 1); r_active := r_active r;
           r_complete := r_complete r |} in
      if negb (r_received_count r =? r_fragment_count r) then ((LS_OK, 0), r)
      else if negb (ls_crc32 (slice 0 (r_total_length r) (r_data r)) =? r_envelope_crc r)
      then ((LS_ECORRUPT, 0), ls_transport_reassembly_reset r)
      else
        ((LS_OK, r_total_length r),
         {| r_data := r_data r; r_received := r_received r; r_event_id := r_event_id r;
            r_envelope_crc := r_envelope_crc r; r_total_length := r_total_length r;
            r_fragment_capacity := r_fragment_capacity r; r_fragment_count := r_fragment_count r;
            r_received_count := r_received_count r; r_active := r_active r; r_complete := true |}).

(** ** Exclusive use *)

Lemma acquire_release a l l' : acquire_loop a l = Some l' -> release_loop a l' = l.
Proof.
  revert l'. induction l as [|[b|] l IH]; intros l' H; simpl in H; [done| |].
  - destruct (b =? a) eqn:E; [done|]. apply fmap_Some in H as (l2 & H2 & ->). simpl. rewrite E. by rewrite (IH l2).
  - simplify_eq. simpl. by rewrite Z.eqb_refl.
Qed.

(** Two transports, the first released while the second is in use: the second can
    be acquired again.  The search stops at the first free slot without looking
    for the transport in the slots behind it. *)
Theorem acquire_not_exclusive : exists a b l1 l2 l3,
  a <> b /\ acquire_loop a (replicate LS_MAX_TRANSPORTS None) = Some l1 /\ acquire_loop b l1 = Some l2 /\
  Some b ∈ release_loop a l2 /\ acquire_loop b (release_loop a l2) = Some l3.
Proof.
  exists 1, 2. do 3 eexists. split; [done|]. split; [reflexivity|]. split; [reflexivity|].
  split; [simpl; right; left|reflexivity].
Qed.

(** ** Retries *)

Section Retry.
Context {E : Type} (t : ls_transport_backend_t E) (Hlimit : 0 <= retry_limit t < 2 ^ 8).
Implicit Types p : @nstate E.

Lemma should_retry_step attempt r p again attempt' p' :
  0 <= attempt -> should_retry t attempt r p = ((again, attempt'), p') ->
  faults p' = faults p /\
  (again = true -> ls_transport_result_is_retryable r = true /\ attempt < retry_limit t /\ attempt' = attempt + 1).
Proof.
  intros Ha H. unfold should_retry in H.
  destruct (negb _ || _) eqn:Ec; [by simplify_eq|]. bool_prop.
  assert (u8 (attempt + 1) = attempt + 1) as Hu by (apply u8_id; unfold is_u8; lia). rewrite Hu in H.
  destruct (retry t) as [f|]; [|by simplify_eq].
  unfold call in H. destruct (f _ _ _) as [b e]. by simplify_eq.
Qed.

(** The fuel is never what ends the loop. *)
Lemma retry_fuel point action attempt p n k :
  0 <= attempt -> (Z.to_nat (retry_limit t - attempt) < n)%nat ->
  retry_loop (n + k) point action t attempt p = retry_loop n point action t attempt p.
Proof.
  revert attempt p. induction n as [|n IH]; intros attempt p Ha Hn; [lia|]. cbn [retry_loop Nat.add].
  destruct (hit point p) as [r1 p1]. destruct (if is_ok r1 then _ else _) as [r2 p2].
  destruct (should_retry t attempt r2 p2) as [[again attempt'] p3] eqn:Es.
  apply should_retry_step in Es as [_ Hs]; [|done]. destruct again; [|done].
  destruct (Hs eq_refl) as (_ & ? & ->). apply IH; lia.
Qed.

(** Induction over the rounds of the loop: [Inv] before every round, [Post] of the
    result of the last one. *)
Lemma retry_loop_ind (Inv : Z -> @nstate E -> Prop) (Post : ls_result_t -> @nstate E -> Prop) point action :
  (forall attempt p r p', Inv attempt p -> (if is_ok (fst (hit point p)) then action (snd (hit point p)) = (r, p')
     else (r, p') = hit point p) -> Post r p') ->
  (forall attempt p r p' p'', 0 <= attempt < retry_limit t -> Inv attempt p ->
     (if is_ok (fst (hit point p)) then action (snd (hit point p)) = (r, p') else (r, p') = hit point p) ->
     ls_transport_result_is_retryable r = true -> should_retry t attempt r p' = ((true, attempt + 1), p'') ->
     Inv (attempt + 1) p'') ->
  (forall attempt r p p' attempt', Post r p -> should_retry t attempt r p = ((false, attempt'), p') -> Post r p') ->
  forall n attempt p r p', 0 <= attempt -> (Z.to_nat (retry_limit t - attempt) < n)%nat -> Inv attempt p ->
  retry_loop n point action t attempt p = (r, p') -> Post r p'.
Proof.
  intros Hpost Hstep Hlast. induction n as [|n IH]; intros attempt p r p' Ha Hn Hi H; [lia|].
  cbn [retry_loop] in H. destruct (hit point p) as [r1 p1] eqn:Eh.
  destruct (if is_ok r1 then action p1 else (r1, p1)) as [r2 p2] eqn:E2.
  assert (if is_ok (fst (hit point p)) then action (snd (hit point p)) = (r2, p2) else (r2, p2) = hit point p) as Hround
    by (rewrite Eh; simpl; by destruct (is_ok r1)).
  destruct (should_retry t attempt r2 p2) as [[again attempt'] p3] eqn:Es.
  pose proof (should_retry_step _ _ _ _ _ _ Ha Es) as [_ Hs]. destruct again.
  - destruct (Hs eq_refl) as (Hre & Hlt & ->). eapply (IH (attempt + 1)); [lia|lia| |exact H].
    by eapply (Hstep attempt p r2 p2 p3).
  - simplify_eq. eapply (Hlast attempt); [|exact Es]. by eapply (Hpost attempt p).
Qed.
End Retry.

(** ** Delivery

    [delivered e x]: the world [e] has received [x], whole or as a fragment.  The
    callbacks of a transport never lose what was received, and one that reports
    success delivers. *)
Section Delivery.
Context {E : Type} (whole : E -> list Z -> Prop) (piece : E -> ls_transport_fragment_t -> Prop).

Definition keeps (e e' : E) : Prop := (forall d, whole e d -> whole e' d) /\ (forall f, piece e f -> piece e' f).

(** What a transport's callbacks promise. *)
Record transport_ok (t : ls_transport_backend_t E) : Prop := {
  to_limit : 0 <= retry_limit t < 2 ^ 8;
  to_available f e : available t = Some f -> keeps e (snd (f e));
  to_mtu f e : max_payload t = Some f -> keeps e (snd (f e)) /\ 0 <= fst (f e);
  to_retry f a r e : retry t = Some f -> keeps e (snd (f a r e));
  to_send f d e : send t = Some f -> keeps e (snd (f d e)) /\ (fst (f d e) = LS_OK -> whole (snd (f d e)) d);
  to_v2 g f e : send_fragment_v2 t = Some g ->
    keeps e (snd (g f e)) /\ (fst (g f e) = LS_OK -> piece (snd (g f e)) f);
  to_v1 g f e : send_fragment_v1 t = Some g ->
    let x := g (f_event_id f) (f_fragment_index f) (f_fragment_count f) (f_data f) (f_fragment_crc f) e in
    keeps e (snd x) /\ (fst x = LS_OK -> piece (snd x) f);
}.

Lemma keeps_refl e : keeps e e.
Proof. done. Qed.

Lemma keeps_trans e1 e2 e3 : keeps e1 e2 -> keeps e2 e3 -> keeps e1 e3.
Proof. intros [? ?] [? ?]. split; auto. Qed.

Definition net_keeps (p p' : @nstate E) : Prop :=
  keeps (ext (dev p)) (ext (dev p')) /\ transports (dev p') = transports (dev p).

Lemma net_keeps_refl p : net_keeps p p.
Proof. done. Qed.

Lemma net_keeps_trans p1 p2 p3 : net_keeps p1 p2 -> net_keeps p2 p3 -> net_keeps p1 p3.
Proof. intros [? E1] [? E2]. split; [by eapply keeps_trans|congruence]. Qed.

Lemma call_spec {A} (m : st E A) p a p' : call m p = (a, p') ->
  a = fst (m (ext (dev p))) /\ ext (dev p') = snd (m (ext (dev p))) /\
  transports (dev p') = transports (dev p) /\ busy_transports (dev p') = busy_transports (dev p).
Proof. unfold call. destruct (m _). by intros [= <- <-]. Qed.

Lemma hit_net name p r p' : hit name p = (r, p') -> net_keeps p p' /\ busy_transports (dev p') = busy_transports (dev p).
Proof. intros H%hit_dev. unfold net_keeps. by rewrite H. Qed.

Lemma should_retry_net t attempt r p b p' : transport_ok t ->
  should_retry t attempt r p = (b, p') -> net_keeps p p' /\ busy_transports (dev p') = busy_transports (dev p).
Proof.
  intros Ht H. unfold should_retry in H. destruct (negb _ || _); [by simplify_eq|].
  destruct (retry t) as [f|] eqn:Ef; [|by simplify_eq].
  destruct (call _ p) as [c p1] eqn:Ec. apply call_spec in Ec as (_ & E1 & E2 & E3). simplify_eq.
  split; [|done]. split; [|done]. rewrite E1. by eapply to_retry.
Qed.

(** A retry loop around an action that delivers on success. *)
Lemma retry_loop_delivers (Q : E -> Prop) point action t p r p' :
  transport_ok t -> (forall e e', keeps e e' -> Q e -> Q e') ->
  (forall p r p', action p = (r, p') ->
     net_keeps p p' /\ busy_transports (dev p') = busy_transports (dev p) /\ (r = LS_OK -> Q (ext (dev p')))) ->
  retry_loop (retries t) point action t 0 p = (r, p') ->
  net_keeps p p' /\ busy_transports (dev p') = busy_transports (dev p) /\ (r = LS_OK -> Q (ext (dev p'))).
Proof.
  intros Ht HQ Hact H.
  set (Inv := fun (_ : Z) q => net_keeps p q /\ busy_transports (dev q) = busy_transports (dev p)).
  set (Post := fun r q => net_keeps p q /\ busy_transports (dev q) = busy_transports (dev p) /\
    (r = LS_OK -> Q (ext (dev q)))).
  assert (forall q r' q', Inv 0 q ->
    (if is_ok (fst (hit point q)) then action (snd (hit point q)) = (r', q') else (r', q') = hit point q) ->
    Post r' q') as Hround.
  { intros q r' q' [Hk Hb] Hr. destruct (hit point q) as [rh q1] eqn:Eh. simpl in Hr.
    pose proof (hit_net _ _ _ _ Eh) as [Hk1 Hb1]. destruct (is_ok rh) eqn:Er.
    - apply Hact in Hr as (Hk2 & Hb2 & Hq). split; [|split; [congruence|done]].
      eapply net_keeps_trans; [exact Hk|]. by eapply net_keeps_trans.
    - simplify_eq. split; [by eapply net_keeps_trans|]. split; [congruence|]. intros ->. done. }
  eapply (retry_loop_ind t (to_limit t Ht) Inv Post point action); [..|exact H].
  - intros a q r' q' Hi. by apply Hround.
  - intros a q r' q' q'' _ Hi Hr _ Hs. apply Hround in Hr as (Hk & Hb & _); [|done].
    apply should_retry_net in Hs as [Hk' Hb']; [|done]. split; [by eapply net_keeps_trans|congruence].
  - intros a r' q q' a' (Hk & Hb & Hq) Hs. apply should_retry_net in Hs as [Hk' Hb']; [|done].
    split; [by eapply net_keeps_trans|]. split; [congruence|]. intros Hr. eapply HQ; [|by apply Hq]. by destruct Hk'.
  - lia.
  - unfold retries. lia.
  - done.
Qed.

Lemma send_complete_delivers t data p r p' : transport_ok t -> send_complete t data p = (r, p') ->
  net_keeps p p' /\ busy_transports (dev p') = busy_transports (dev p) /\
  (r = LS_OK -> whole (ext (dev p')) data).
Proof.
  intros Ht H. unfold send_complete in H. destruct (send t) as [f|] eqn:Ef; [|by simplify_eq].
  eapply (retry_loop_delivers (fun e => whole e data)); [done| | |exact H].
  - intros e e' [Hk _]. apply Hk.
  - intros q r' q' (-> & E1 & E2 & E3)%call_spec. destruct (to_send t Ht f data (ext (dev q)) Ef) as [Hk Hd].
    rewrite E1. unfold net_keeps. rewrite E1, E2. done.
Qed.

Lemma send_fragment_delivers t f p r p' : transport_ok t -> send_fragment t f p = (r, p') ->
  net_keeps p p' /\ busy_transports (dev p') = busy_transports (dev p) /\
  (r = LS_OK -> piece (ext (dev p')) f).
Proof.
  intros Ht H. unfold send_fragment in H.
  assert (forall e e', keeps e e' -> piece e f -> piece e' f) as HQ by (intros e e' [_ Hk]; apply Hk).
  destruct (send_fragment_v2 t) as [g|] eqn:E2; [|destruct (send_fragment_v1 t) as [g|] eqn:E1];
    (eapply (retry_loop_delivers (fun e => piece e f)); [done|exact HQ| |exact H]).
  - intros q r' q' (-> & X1 & X2 & X3)%call_spec. destruct (to_v2 t Ht g f (ext (dev q)) E2) as [Hk Hd].
    rewrite X1. unfold net_keeps. rewrite X1, X2. done.
  - intros q r' q' (-> & X1 & X2 & X3)%call_spec. destruct (to_v1 t Ht g f (ext (dev q)) E1) as [Hk Hd].
    rewrite X1. unfold net_keeps. rewrite X1, X2. done.
  - by intros q r' q' [= <- <-].
Qed.

Lemma send_fragments_delivers t fs p r p' : transport_ok t -> send_fragments t fs p = (r, p') ->
  net_keeps p p' /\ busy_transports (dev p') = busy_transports (dev p) /\
  (r = LS_OK -> forall f, f ∈ fs -> piece (ext (dev p')) f).
Proof.
  intros Ht. revert p r. induction fs as [|f fs IH]; intros p r H.
  - injection H as <- <-. split_and!; try done. intros _ f Hf. by apply elem_of_nil in Hf.
  - apply and_then_inv in H as [[H Hr] | (p1 & H1 & H)].
    + apply send_fragment_delivers in H as (Hk & Hb & _); [|done]. split_and!; try done.
    + apply send_fragment_delivers in H1 as (Hk & Hb & Hp); [|done]. apply IH in H as (Hk' & Hb' & Hp').
      split; [by eapply net_keeps_trans|]. split; [congruence|].
      intros Hr g [->|Hg]%elem_of_cons; [|by apply Hp']. destruct Hk' as [[_ Hk'] _]. by apply Hk', Hp.
Qed.

Lemma unavailable_net t p b p' : transport_ok t -> unavailable t p = (b, p') ->
  net_keeps p p' /\ busy_transports (dev p') = busy_transports (dev p).
Proof.
  intros Ht H. unfold unavailable in H. destruct (available t) as [f|] eqn:Ef; [|by simplify_eq].
  destruct (call f p) as [c p1] eqn:Ec. apply call_spec in Ec as (_ & E1 & E2 & E3). simplify_eq.
  split; [|done]. split; [|done]. rewrite E1. by eapply to_available.
Qed.

Lemma transport_mtu_net t size p m p' : transport_ok t -> 0 <= size -> transport_mtu t size p = (m, p') ->
  net_keeps p p' /\ busy_transports (dev p') = busy_transports (dev p) /\ 0 <= m.
Proof.
  intros Ht Hs H. unfold transport_mtu in H. destruct (max_payload t) as [f|] eqn:Ef; [|by injection H as <- <-].
  apply call_spec in H as (-> & E1 & E2 & E3). destruct (to_mtu t Ht f (ext (dev p)) Ef) as [Hk Hm].
  split; [|done]. split; [|done]. by rewrite E1.
Qed.

(** The whole send: success means delivery, and the transport is free again. *)
Definition arrived (e : E) (event_id : Z) (data : list Z) : Prop :=
  whole e data \/ exists mtu, 0 < mtu <= UINT32_MAX /\ fragment_count_of (zlen data) mtu <= UINT16_MAX /\
    forall f, f ∈ fragments_of event_id data mtu -> piece e f.

Lemma transport_send_delivers t event_id data p r p' : transport_ok t ->
  ls_transport_send (Some t) event_id (Some data) p = (r, p') ->
  net_keeps p p' /\ busy_transports (dev p') = busy_transports (dev p) /\
  (r = LS_OK -> arrived (ext (dev p')) event_id data).
Proof.
  intros Ht H. unfold ls_transport_send in H. destruct data as [|x data']; [by simplify_eq|].
  set (data := x :: data') in *. pose proof (zlen_nonneg data) as Hz.
  destruct (UINT32_MAX <? zlen data); [by simplify_eq|].
  destruct (unavailable t p) as [un p1] eqn:Eu. apply unavailable_net in Eu as [K1 B1]; [|done].
  destruct un; [by simplify_eq|].
  destruct (transport_mtu t (zlen data) p1) as [mtu p2] eqn:Em.
  apply transport_mtu_net in Em as (K2 & B2 & Hm); [|done|done].
  assert (net_keeps p p2) as K by (by eapply net_keeps_trans).
  destruct (mtu =? 0) eqn:E0; bool_prop; [simplify_eq; split; [done|split; [congruence|done]]|].
  destruct (_ && _) eqn:E1; [simplify_eq; split; [done|split; [congruence|done]]|].
  destruct (_ && _ && _) eqn:E2; [simplify_eq; split; [done|split; [congruence|done]]|].
  unfold acquire_transport in H.
  destruct (acquire_loop (address t) (busy_transports (dev p2))) as [l|] eqn:Ea; cbn [negb] in H;
    [|simplify_eq; split; [done|split; [congruence|done]]].
  set (p3 := set_dev _ p2) in H. assert (net_keeps p p3) as K3 by exact K.
  destruct (if negb (mtu <? zlen data) && is_set (send t) then _ else _) as [r4 p4] eqn:E4.
  assert (net_keeps p3 p4 /\ busy_transports (dev p4) = l /\ (r4 = LS_OK -> arrived (ext (dev p4)) event_id data))
    as (K4 & B4 & A4).
  { destruct (negb (mtu <? zlen data) && is_set (send t)).
    - apply send_complete_delivers in E4 as (?&?&?); [|done]. split_and!; try done. intros Hr. left. auto.
    - destruct ((UINT16_MAX <? _) || _) eqn:Eo; [injection E4 as <- <-; split_and!; done|]. bool_prop.
      apply send_fragments_delivers in E4 as (?&?&?); [|done]. split_and!; try done.
      intros Hr. right. exists mtu. split; [lia|]. split; [done|]. auto. }
  unfold release_transport in H. injection H as <- <-.
  split; [exact (net_keeps_trans _ _ _ K3 K4)|]. split; [|exact A4].
  simpl. rewrite B4, (acquire_release _ _ _ Ea). congruence.
Qed.

(** Selection only asks, and returns a registered transport. *)
Lemma can_send_net t size p b p' : transport_ok t -> 0 <= size -> ls_transport_can_send t size p = (b, p') ->
  net_keeps p p' /\ busy_transports (dev p') = busy_transports (dev p).
Proof.
  intros Ht Hs H. unfold ls_transport_can_send in H. destruct (_ && _); [by simplify_eq|].
  destruct (unavailable t p) as [un p1] eqn:Eu. apply unavailable_net in Eu as [K1 B1]; [|done].
  destruct un; [by simplify_eq|]. destruct (transport_mtu t size p1) as [mtu p2] eqn:Em.
  apply transport_mtu_net in Em as (K2 & B2 & _); [|done|done].
  assert (net_keeps p p2 /\ busy_transports (dev p2) = busy_transports (dev p)).
  { split; [by eapply net_keeps_trans|congruence]. }
  destruct (mtu =? 0); injection H as <- <-; done.
Qed.

Lemma select_loop_net prio size l : Forall transport_ok l -> 0 <= size -> forall best p best' p',
  select_loop prio size l best p = (best', p') ->
  net_keeps p p' /\ busy_transports (dev p') = busy_transports (dev p) /\
  (forall x, best' = Some x -> best = Some x \/ fst x ∈ l).
Proof.
  intros Hl Hs. induction Hl as [|t l Ht Hl IH]; intros best p best' p' H; cbn [select_loop] in H.
  - injection H as <- <-. split_and!; try done. auto.
  - destruct (ls_transport_can_send t size p) as [ok p1] eqn:Ec. apply can_send_net in Ec as [K1 B1]; [|done|done].
    destruct ok; cbn [negb] in H; apply IH in H as (K & B & Hx);
      (split; [by eapply net_keeps_trans|split; [congruence|]]); intros x Hb; destruct (Hx x Hb) as [Hx1|Hx1].
    + destruct (match best with None => true | Some (_, s) => s <? score_of prio t end).
      * injection Hx1 as <-. right. by left.
      * by left.
    + right. by right.
    + by left.
    + right. by right.
Qed.

Lemma transport_select_net prio size p best p' :
  Forall transport_ok (transports (dev p)) -> 0 <= size -> ls_transport_select prio size p = (best, p') ->
  net_keeps p p' /\ busy_transports (dev p') = busy_transports (dev p) /\
  (forall t, best = Some t -> t ∈ transports (dev p)).
Proof.
  intros Ht Hs H. unfold ls_transport_select in H.
  destruct (select_loop _ _ _ _ _) as [b p1] eqn:El. injection H as <- <-.
  apply select_loop_net in El as (K & B & Hx); [|by apply Forall_take|done].
  split_and!; try done. intros t Hb. destruct b as [x|]; [|done]. injection Hb as <-.
  destruct (Hx x eq_refl) as [?|Hin]; [done|]. apply elem_of_take in Hin as (i & Hi & _). by eapply list_elem_of_lookup_2.
Qed.
End Delivery.

(** ** Selection *)

Section Select.
Context {E : Type} (prio size : Z) (ok : ls_transport_backend_t E -> bool).

(** [best] is the first of the highest-scoring usable transports of [l]. *)
Definition first_best (l : list (ls_transport_backend_t E)) (best : option (ls_transport_backend_t E * Z)) : Prop :=
  match best with
  | None => forall t, t ∈ l -> ok t = false
  | Some (t, s) => s = score_of prio t /\ ok t = true /\ exists i, l !! i = Some t /\
      forall j u, l !! j = Some u -> ok u = true ->
        score_of prio u <= s /\ ((j < i)%nat -> score_of prio u < s)
  end.

Lemma first_best_step l best t : first_best l best ->
  first_best (l ++ [t])
    (if ok t then
       if match best with None => true | Some (_, s) => s <? score_of prio t end
       then Some (t, score_of prio t) else best
     else best).
Proof.
  intros H. destruct (ok t) eqn:Et.
  - destruct best as [[b s]|]; [destruct (s <? score_of prio t) eqn:Es|]; bool_prop.
    + destruct H as (-> & Hb & i & Hi & Hmax). split; [done|]. split; [done|].
      exists (length l). split; [by rewrite list_lookup_middle|].
      intros j u Hj Hu. apply lookup_app_Some in Hj as [Hj|[Hj Hj']].
      * destruct (Hmax j u Hj Hu). split; [lia|]. lia.
      * destruct (j - length l)%nat as [|k] eqn:Ek; [|done]. simpl in Hj'. simplify_eq. split; [lia|]. lia.
    + destruct H as (-> & Hb & i & Hi & Hmax). split; [done|]. split; [done|]. exists i.
      split; [by apply lookup_app_l_Some|]. intros j u Hj Hu. apply lookup_app_Some in Hj as [Hj|[Hj Hj']].
      * by apply (Hmax j u).
      * destruct (j - length l)%nat as [|k] eqn:Ek; [|done]. simpl in Hj'. simplify_eq.
        apply lookup_lt_Some in Hi. split; [lia|]. lia.
    + split; [done|]. split; [done|]. exists (length l). split; [by rewrite list_lookup_middle|].
      intros j u Hj Hu. apply lookup_app_Some in Hj as [Hj|[Hj Hj']].
      * apply list_elem_of_lookup_2 in Hj. apply H in Hj. congruence.
      * destruct (j - length l)%nat as [|k] eqn:Ek; [|done]. simpl in Hj'. simplify_eq. split; [lia|]. lia.
  - destruct best as [[b s]|].
    + destruct H as (-> & Hb & i & Hi & Hmax). split; [done|]. split; [done|]. exists i.
      split; [by apply lookup_app_l_Some|]. intros j u Hj Hu. apply lookup_app_Some in Hj as [Hj|[Hj Hj']].
      * by apply (Hmax j u).
      * destruct (j - length l)%nat as [|k]; [|done]. simpl in Hj'. simplify_eq. congruence.
    + intros u [Hu|Hu]%elem_of_app; [by apply H|]. apply list_elem_of_singleton in Hu. congruence.
Qed.

Lemma select_loop_spec l pre best (p : @nstate E) :
  (forall t, t ∈ l -> forall q, ls_transport_can_send t size q = (ok t, q)) -> first_best pre best ->
  exists best', select_loop prio size l best p = (best', p) /\ first_best (pre ++ l) best'.
Proof.
  revert pre best. induction l as [|t l IH]; intros pre best Hok Hb; simpl.
  - exists best. by rewrite app_nil_r.
  - rewrite Hok by (by left). pose proof (first_best_step pre best t Hb) as Hs.
    rewrite cons_middle, app_assoc.
    destruct (ok t) eqn:Et; cbn [negb]; (apply IH; [intros u Hu; apply Hok; by right|]); [|done].
    by destruct (match best with None => true | Some (_, s) => s <? score_of prio t end).
Qed.
End Select.

(** ** Properties of selection and sending *)

(** Selection is optimal and stable.  When availability and limits do not
    change during the call, [ls_transport_select] returns the first registered
    transport among those that can send the event and have the highest score, and
    nothing exactly when none can send it. *)
Theorem transport_select_best {E} prio size (p : @nstate E) (ok : ls_transport_backend_t E -> bool) :
  let table := take LS_MAX_TRANSPORTS (transports (dev p)) in
  (forall t, t ∈ table -> forall q, ls_transport_can_send t size q = (ok t, q)) ->
  exists best, ls_transport_select prio size p = (best, p) /\
  match best with
  | None => forall t, t ∈ table -> ok t = false
  | Some t => ok t = true /\ exists i, table !! i = Some t /\
      forall j u, table !! j = Some u -> ok u = true ->
        score_of prio u <= score_of prio t /\ ((j < i)%nat -> score_of prio u < score_of prio t)
  end.
Proof.
  intros table Hok. destruct (select_loop_spec prio size ok table [] None p Hok) as (best & Hs & Hb).
  { intros t Ht. by apply elem_of_nil in Ht. }
  exists (fst <$> best). split; [unfold ls_transport_select; fold table; by rewrite Hs|].
  destruct best as [[t s]|]; [|done]. destruct Hb as (-> & Ho & Hi). done.
Qed.

(** A transport that is always available, without limits. *)
Definition demo_transport (a prio : Z) : ls_transport_backend_t (list (list Z)) :=
  {| address := a; priority := prio; available := None;
     send := Some (fun d e => (LS_OK, d :: e)); send_fragment_v1 := None; max_payload := None;
     capabilities := 0; energy_cost := 0; monetary_cost := 0; send_fragment_v2 := None; retry := None;
     retry_limit := 2 |}.

Definition demo_net : @nstate (list (list Z)) :=
  {| faults := no_faults;
     dev := {| busy_transports := replicate LS_MAX_TRANSPORTS None;
               transports := [demo_transport 1 5; demo_transport 2 9; demo_transport 3 9]; ext := [] |} |}.

Lemma transport_select_best_witness :
  exists best, ls_transport_select 0 10 demo_net = (best, demo_net) /\ address <$> best = Some 2.
Proof.
  destruct (transport_select_best 0 10 demo_net (fun _ => true)) as (best & H & _).
  - intros t Ht q. change (t ∈ [demo_transport 1 5; demo_transport 2 9; demo_transport 3 9]) in Ht.
    repeat (apply elem_of_cons in Ht as [->|Ht]; [reflexivity|]). by apply elem_of_nil in Ht.
  - exists best. split; [exact H|]. unfold ls_transport_select in H. injection H as <-. reflexivity.
Defined.

(** C18: success means delivery.  For a transport whose callbacks deliver what they
    report as sent, [ls_transport_send] returns [LS_OK] only if the envelope
    arrived whole or every one of its fragments arrived; nothing that had arrived
    is lost, and the busy table is afterwards what it was, on every path. *)
Theorem transport_send_sound {E} (whole : E -> list Z -> Prop) (piece : E -> ls_transport_fragment_t -> Prop)
    t event_id data p r p' :
  transport_ok whole piece t -> ls_transport_send (Some t) event_id (Some data) p = (r, p') ->
  (r = LS_OK -> arrived whole piece (ext (dev p')) event_id data) /\
  keeps whole piece (ext (dev p)) (ext (dev p')) /\
  busy_transports (dev p') = busy_transports (dev p).
Proof.
  intros Ht H. apply (transport_send_delivers whole piece) in H as ((Hk & _) & Hb & Ha); [|done]. done.
Qed.

Lemma demo_transport_ok a prio :
  transport_ok (fun e d => d ∈ e) (fun _ _ => False) (demo_transport a prio).
Proof.
  split; try done. intros f d e [= <-]. simpl. split.
  - split; [|done]. intros x Hx. by right.
  - intros _. by left.
Qed.

Lemma transport_send_sound_witness :
  let run := ls_transport_send (Some (demo_transport 1 5)) 7 (Some [1; 2]) demo_net in
  fst run = LS_OK /\ arrived (fun e d => d ∈ e) (fun _ _ => False) (ext (dev (snd run))) 7 [1; 2].
Proof.
  split; [reflexivity|].
  refine (proj1 (transport_send_sound (fun e d => d ∈ e) (fun _ _ => False) (demo_transport 1 5) 7 [1; 2] demo_net
    LS_OK (snd (ls_transport_send (Some (demo_transport 1 5)) 7 (Some [1; 2]) demo_net)) _ _) _).
  - apply demo_transport_ok.
  - reflexivity.
  - reflexivity.
Defined.

(** C19: retries are bounded.  The send loop runs at most [retry_limit + 1] rounds:
    any larger bound gives the same run, so the loop always ends by itself. *)
Theorem send_retries_bounded {E} (t : ls_transport_backend_t E) point action p k :
  0 <= retry_limit t < 2 ^ 8 ->
  retry_loop (retries t + k) point action t 0 p = retry_loop (retries t) point action t 0 p.
Proof. intros H. apply retry_fuel; [done|lia|]. unfold retries. lia. Qed.

Lemma send_retries_bounded_witness :
  retry_loop (retries (demo_transport 1 5) + 9) "transport.send" (mret LS_EAGAIN) (demo_transport 1 5) 0 demo_net =
  retry_loop (retries (demo_transport 1 5)) "transport.send" (mret LS_EAGAIN) (demo_transport 1 5) 0 demo_net.
Proof. apply (send_retries_bounded (demo_transport 1 5)). simpl. lia. Defined.

(** ** Reassembly in any order *)

Lemma memcmp_refl l : ls_memcmp l l = 0.
Proof. induction l as [|x l IH]; [done|]. simpl. by rewrite Z.eqb_refl. Qed.

Lemma received_bit_mark received i j :
  0 <= i -> 0 <= j -> i / 8 < zlen received ->
  received_bit (mark_received received i) j = (j =? i) || received_bit received j.
Proof.
  intros Hi Hj Hz. unfold received_bit, mark_received.
  pose proof (Z.mod_pos_bound i 8 ltac:(lia)). pose proof (Z.mod_pos_bound j 8 ltac:(lia)).
  pose proof (Z.div_mod i 8 ltac:(lia)). pose proof (Z.div_mod j 8 ltac:(lia)).
  assert (0 <= i / 8) by (apply Z.div_pos; lia). assert (0 <= j / 8) by (apply Z.div_pos; lia).
  rewrite !Z.shiftl_mul_pow2, !Z.mul_1_l, !testbit_pow2_land, !negb_involutive by lia.
  destruct (decide (j / 8 = i / 8)) as [E|E].
  - rewrite E, list_lookup_insert_eq by (unfold zlen in Hz; lia). simpl. rewrite Z.lor_spec, orb_comm. f_equal.
    destruct (decide (j = i)) as [->|Hne]; [by rewrite Z.eqb_refl, Z.pow2_bits_true by lia|].
    rewrite (proj2 (Z.eqb_neq j i) Hne). apply Z.pow2_bits_false. intros Hm. apply Hne. lia.
  - rewrite list_lookup_insert_ne by lia. rewrite (proj2 (Z.eqb_neq j i)); [done|]. intros ->. done.
Qed.

Lemma received_bit_fill n i : received_bit (fill n 0) i = false.
Proof.
  unfold received_bit, fill. destruct (_ !! _) as [b|] eqn:E; simpl; [|done].
  apply lookup_replicate in E as [-> _]. done.
Qed.

Lemma zlen_mark received i : zlen (mark_received received i) = zlen received.
Proof. unfold mark_received, zlen. by rewrite length_insert. Qed.

Section Reassembly.
Context (event_id : Z) (data : list Z) (mtu : Z).
Context (Hdata : 0 < zlen data <= UINT32_MAX) (Hmtu : 0 < mtu <= UINT32_MAX).
Local Abbreviation n := (fragment_count_of (zlen data) mtu).
Context (Hcount : n <= UINT16_MAX).

Definition piece_length (i : Z) : Z := if mtu <? zlen data - i * mtu then mtu else zlen data - i * mtu.

Lemma fragment_count_bounds : zlen data <= n * mtu < zlen data + mtu.
Proof.
  unfold fragment_count_of. pose proof (Z.div_mod (zlen data) mtu ltac:(lia)).
  pose proof (Z.mod_pos_bound (zlen data) mtu ltac:(lia)). case_if; bool_prop; nia.
Qed.

Lemma fragment_offset i : 0 <= i < n -> 0 <= i * mtu < zlen data /\ 0 < piece_length i /\
  i * mtu + piece_length i <= zlen data /\ piece_length i <= mtu.
Proof.
  intros Hi. pose proof fragment_count_bounds. unfold piece_length. assert (i * mtu < zlen data) by nia.
  case_if; bool_prop; split_and!; nia.
Qed.

Lemma fragment_fields i : 0 <= i < n ->
  let f := fragment_of event_id data mtu i in
  f_offset f = i * mtu /\ f_fragment_index f = i /\ f_fragment_count f = n /\ f_total_length f = zlen data /\
  f_fragment_capacity f = mtu /\ f_data f = slice (i * mtu) (piece_length i) data /\
  zlen (f_data f) = piece_length i /\ f_fragment_crc f = ls_crc32 (f_data f).
Proof.
  intros Hi f. destruct (fragment_offset i Hi) as (H1 & H2 & H3 & H4).
  unfold UINT32_MAX, UINT16_MAX in *. unfold f, fragment_of.
  cbn [f_offset f_fragment_index f_fragment_count f_total_length f_fragment_capacity f_data f_fragment_crc].
  rewrite !u32_id, !u16_id by (unfold is_u32, is_u16; lia).
  fold (piece_length i). split_and!; try done. apply zlen_slice; lia.
Qed.

(** Buffers large enough for this envelope. *)
Definition room (r : ls_transport_reassembly_t) : Prop :=
  zlen data <= zlen (r_data r) /\ n <= zlen (r_received r) * 8 < 2 ^ 32.

Lemma fragment_valid r i : room r -> 0 <= i < n -> validate_fragment r (fragment_of event_id data mtu i) = LS_OK.
Proof.
  intros [R1 R2] Hi. destruct (fragment_fields i Hi) as (F1 & F2 & F3 & F4 & F5 & F6 & F7 & F8).
  destruct (fragment_offset i Hi) as (H1 & H2 & H3 & H4).
  set (f := fragment_of event_id data mtu i) in *. unfold validate_fragment. cbv zeta.
  rewrite F1, F2, F3, F4, F5, F7, F8, !Z.eqb_refl. unfold UINT32_MAX, UINT16_MAX in *.
  rewrite (u32_id (_ * 8)) by (unfold is_u32; lia). rewrite (u64_id (i * mtu)) by (unfold is_u64; lia).
  rewrite (u32_id (i * mtu)) by (unfold is_u32; lia). fold (piece_length i). rewrite !Z.eqb_refl.
  repeat match goal with |- context [?a =? ?b] => rewrite (proj2 (Z.eqb_neq a b)) by lia end.
  repeat match goal with |- context [?a <=? ?b] => rewrite (proj2 (Z.leb_gt a b)) by lia end.
  repeat match goal with |- context [?a <? ?b] => rewrite (proj2 (Z.ltb_ge a b)) by lia end. done.
Qed.

(** The receiver after the fragments with the numbers [seen]. *)
Record collected (seen : list Z) (r : ls_transport_reassembly_t) : Prop := {
  co_room : room r;
  co_open : r_complete r = false;
  co_nodup : NoDup seen;
  co_range : forall i, i ∈ seen -> 0 <= i < n;
  co_idle : r_active r = false -> seen = [];
  co_header : r_active r = true ->
    r_event_id r = event_id /\ r_envelope_crc r = ls_crc32 data /\ r_total_length r = zlen data /\
    r_fragment_capacity r = mtu /\ r_fragment_count r = n /\ r_received_count r = zlen seen /\
    (forall i, 0 <= i < n -> received_bit (r_received r) i = bool_decide (i ∈ seen));
  co_data : forall i, i ∈ seen -> slice (i * mtu) (piece_length i) (r_data r) = slice (i * mtu) (piece_length i) data;
}.

(** All numbers below [n] are in a duplicate-free list of [n] of them. *)
Lemma all_seen (seen : list Z) : NoDup seen -> (forall i, i ∈ seen -> 0 <= i < n) -> zlen seen = n ->
  forall i, 0 <= i < n -> i ∈ seen.
Proof.
  intros Hn Hr Hz i Hi.
  assert (seen ⊆+ map Z.of_nat (List.seq 0 (Z.to_nat n))) as Hsub.
  { apply NoDup_submseteq; [done|]. intros x Hx. apply Hr in Hx.
    apply list_elem_of_In, List.in_map_iff. exists (Z.to_nat x). split; [lia|]. apply List.in_seq. lia. }
  assert (seen ≡ₚ map Z.of_nat (List.seq 0 (Z.to_nat n))) as Hp.
  { apply submseteq_length_Permutation; [done|]. rewrite length_map, length_seq.
    assert (Z.of_nat (length seen) = n) by exact Hz. lia. }
  rewrite Hp. apply list_elem_of_In, List.in_map_iff. exists (Z.to_nat i). split; [lia|]. apply List.in_seq. lia.
Qed.

(** Every byte lies in some piece. *)
Lemma pieces_cover (buf : list Z) : zlen data <= zlen buf ->
  (forall i, 0 <= i < n -> slice (i * mtu) (piece_length i) buf = slice (i * mtu) (piece_length i) data) ->
  slice 0 (zlen data) buf = data.
Proof.
  intros Hb H. rewrite <- (slice_full data) at 2. apply slice_ext; [lia|lia|]. intros x Hx.
  set (i := Z.of_nat x / mtu). pose proof (Z.div_mod (Z.of_nat x) mtu ltac:(lia)).
  pose proof (Z.mod_pos_bound (Z.of_nat x) mtu ltac:(lia)). fold i in H0.
  assert (0 <= i) by (apply Z.div_pos; lia). pose proof fragment_count_bounds.
  assert (0 <= i < n) as Hi by nia. specialize (H i Hi).
  assert (Z.of_nat x - i * mtu < piece_length i) by (unfold piece_length; case_if; bool_prop; lia).
  destruct (fragment_offset i Hi) as (?&?&?&?).
  apply (f_equal (fun l => l !! Z.to_nat (Z.of_nat x - i * mtu))) in H. rewrite !lookup_slice in H by lia.
  by replace (Z.to_nat (i * mtu) + Z.to_nat (Z.of_nat x - i * mtu))%nat with x in H by lia.
Qed.
Lemma push_seen seen r i : collected seen r -> i ∈ seen ->
  ls_transport_reassembly_push (fragment_of event_id data mtu i) r = ((LS_OK, 0), r).
Proof.
  intros [C1 C2 C3 C4 C5 C6 C7] Hin. pose proof (C4 i Hin) as Hi.
  destruct (fragment_fields i Hi) as (F1 & F2 & F3 & F4 & F5 & F6 & F7 & F8).
  unfold ls_transport_reassembly_push. rewrite fragment_valid, C2 by done. cbn [is_ok negb].
  destruct (r_active r) eqn:Ea; [|rewrite (C5 eq_refl) in Hin; by apply elem_of_nil in Hin].
  destruct (C6 eq_refl) as (H1 & H2 & H3 & H4 & H5 & H6 & H7).
  assert (same_envelope r (fragment_of event_id data mtu i) = true) as ->.
  { unfold same_envelope. rewrite H1, H2, H3, H4, H5, F3, F4, F5.
    change (f_event_id (fragment_of event_id data mtu i)) with event_id.
    change (f_envelope_crc (fragment_of event_id data mtu i)) with (ls_crc32 data). by rewrite !Z.eqb_refl. }
  cbn [negb andb]. rewrite F1, F2, F7, H7 by done. rewrite bool_decide_true by done.
  rewrite F6, (C7 i Hin), memcmp_refl. done.
Qed.

(** The receiver ready for this envelope: as it is, or started by this fragment. *)
Lemma push_start seen r i : collected seen r -> 0 <= i < n ->
  let f := fragment_of event_id data mtu i in
  let r1 := if r_active r then r else begin_envelope r f in
  r_active r && negb (same_envelope r f) = false /\ collected seen r1 /\ r_active r1 = true.
Proof.
  intros Hc Hi f r1. pose proof Hc as [C1 C2 C3 C4 C5 C6 C7].
  destruct (fragment_fields i Hi) as (F1 & F2 & F3 & F4 & F5 & F6 & F7 & F8). fold f in F1, F2, F3, F4, F5, F6, F7, F8.
  unfold r1. destruct (r_active r) eqn:Ea.
  - destruct (C6 eq_refl) as (H1 & H2 & H3 & H4 & H5 & H6 & H7). split; [|done]. cbn [andb]. apply negb_false_iff.
    unfold same_envelope. rewrite H1, H2, H3, H4, H5, F3, F4, F5.
    change (f_event_id f) with event_id. change (f_envelope_crc f) with (ls_crc32 data). by rewrite !Z.eqb_refl.
  - split; [done|]. split; [|done]. rewrite (C5 eq_refl) in *. split; try done.
    + destruct C1 as [R1 R2]. split; [done|]. simpl. rewrite zlen_fill by apply zlen_nonneg. done.
    + intros _. cbn [begin_envelope r_event_id r_envelope_crc r_total_length r_fragment_capacity r_fragment_count
        r_received_count r_received]. rewrite F3, F4, F5. split_and!; try done.
      intros j Hj. by rewrite received_bit_fill.
Qed.

Lemma piece_disjoint i j : 0 <= i < n -> 0 <= j < n -> i <> j ->
  i * mtu + piece_length i <= j * mtu \/ j * mtu + piece_length j <= i * mtu.
Proof.
  intros Hi Hj Hne. destruct (fragment_offset i Hi) as (?&?&?&?). destruct (fragment_offset j Hj) as (?&?&?&?).
  destruct (Z.lt_ge_cases i j); [left|right]; nia.
Qed.

(** A fragment not seen before: one more, or the last one. *)
Lemma push_new seen r i : collected seen r -> 0 <= i < n -> i ∉ seen ->
  exists r' : ls_transport_reassembly_t,
    ls_transport_reassembly_push (fragment_of event_id data mtu i) r =
      ((LS_OK, (if zlen seen + 1 =? n then zlen data else 0)), r') /\
    (if zlen seen + 1 =? n then r_complete r' = true /\ slice 0 (zlen data) (r_data r') = data
     else collected (i :: seen) r').
Proof.
  intros Hc Hi Hnew. destruct (push_start seen r i Hc Hi) as (Hsame & Hc1 & Ha1).
  destruct (fragment_fields i Hi) as (F1 & F2 & F3 & F4 & F5 & F6 & F7 & F8).
  set (f := fragment_of event_id data mtu i) in *.
  set (r1 := if r_active r then r else begin_envelope r f) in *.
  unfold ls_transport_reassembly_push. unfold f at 1. rewrite fragment_valid by (done || by destruct Hc). fold f.
  rewrite (co_open _ _ Hc), Hsame. cbn [is_ok negb]. fold r1.
  pose proof Hc1 as [[R1 R2] C2 C3 C4 C5 C6 C7]. destruct (C6 Ha1) as (H1 & H2 & H3 & H4 & H5 & H6 & H7).
  destruct (fragment_offset i Hi) as (O1 & O2 & O3 & O4).
  rewrite F1, F2, H7, bool_decide_false by done.
  assert (zlen (splice (i * mtu) (f_data f) (r_data r1)) = zlen (r_data r1)) as Hzs by (apply zlen_splice; lia).
  assert (forall j, j ∈ i :: seen ->
    slice (j * mtu) (piece_length j) (splice (i * mtu) (f_data f) (r_data r1)) =
    slice (j * mtu) (piece_length j) data) as Hd.
  { intros j [->|Hj]%elem_of_cons.
    - rewrite <- F7, slice_splice_same by lia. by rewrite F7, <- F6.
    - pose proof (C4 j Hj) as Hjr. destruct (fragment_offset j Hjr) as (?&?&?&?).
      rewrite slice_splice_disjoint; [by apply C7|lia|lia|lia|lia|].
      rewrite F7. apply piece_disjoint; [done|done|]. intros ->. done. }
  assert (forall j, j ∈ i :: seen -> 0 <= j < n) as Hr by (intros j [->|Hj]%elem_of_cons; auto).
  assert (NoDup (i :: seen)) as Hn by (by constructor).
  assert (i / 8 < zlen (r_received r1)) as H8 by (apply Z.div_lt_upper_bound; lia).
  assert (u16 (r_received_count r1 + 1) = zlen (i :: seen)) as Hcnt.
  { rewrite H6, zlen_cons, Z.add_comm. apply u16_id. unfold is_u16, UINT16_MAX in *.
    pose proof (zlen_nonneg seen). assert (zlen (i :: seen) <= n); [|rewrite zlen_cons in *; lia].
    clear -Hn Hr Hi. assert (i :: seen ⊆+ map Z.of_nat (List.seq 0 (Z.to_nat n))) as Hsub.
    { apply NoDup_submseteq; [done|]. intros x Hx. apply Hr in Hx.
      apply list_elem_of_In, List.in_map_iff. exists (Z.to_nat x). split; [lia|]. apply List.in_seq. lia. }
    apply submseteq_length in Hsub. rewrite length_map, length_seq in Hsub.
    change (zlen (i :: seen)) with (Z.of_nat (length (i :: seen))). lia. }
  cbn [r_received_count r_fragment_count r_total_length r_data r_envelope_crc r_active r_complete r_event_id
       r_fragment_capacity r_received]. rewrite Hcnt, H5, zlen_cons, (Z.add_comm 1).
  destruct (zlen seen + 1 =? n) eqn:En; bool_prop; cbn [negb].
  - rewrite H3, H2. assert (slice 0 (zlen data) (splice (i * mtu) (f_data f) (r_data r1)) = data) as Hall.
    { apply pieces_cover; [lia|]. intros j Hj. apply Hd.
      apply (all_seen (i :: seen)); [done|done|rewrite zlen_cons; lia|done]. }
    rewrite Hall, Z.eqb_refl. cbn [negb]. eexists. split; [done|]. done.
  - eexists. split; [done|]. split; cbn [r_received_count r_fragment_count r_total_length r_data r_envelope_crc
      r_active r_complete r_event_id r_fragment_capacity r_received room]; try done.
    + unfold room. cbn [r_data r_received]. rewrite Hzs, zlen_mark. done.
    + rewrite Ha1. done.
    + intros _. split_and!; try done; [rewrite zlen_cons; lia|]. intros j Hj.
      rewrite received_bit_mark, bool_decide_cons, H7 by lia. done.
Qed.

(** Pushing the fragments with these numbers, in this order. *)
Fixpoint push_all (js : list Z) (r : ls_transport_reassembly_t) : list (ls_result_t * Z) * ls_transport_reassembly_t :=
  match js with
  | [] => ([], r)
  | i :: js =>
      let '(x, r) := ls_transport_reassembly_push (fragment_of event_id data mtu i) r in
      let '(xs, r) := push_all js r in (x :: xs, r)
  end.

(** While some number is missing, every fragment is accepted and nothing is complete. *)
Lemma push_all_incomplete k js : 0 <= k < n -> forall seen r, collected seen r -> (k ∉ seen) ->
  Forall (fun i => 0 <= i < n) js -> k ∉ js ->
  exists (seen' : list Z) (r' : ls_transport_reassembly_t),
    push_all js r = (map (fun _ => (LS_OK, 0)) js, r') /\ collected seen' r' /\ (k ∉ seen') /\
    (forall i, i ∈ seen \/ i ∈ js -> i ∈ seen').
Proof.
  intros Hk. induction js as [|i js IH]; intros seen r Hc Hns Hr Hnj.
  - exists seen, r. split_and!; try done. intros i [?|[]%elem_of_nil]; done.
  - apply Forall_cons in Hr as [Hi Hr]. apply not_elem_of_cons in Hnj as [Hne Hnj].
    destruct (decide (i ∈ seen)) as [Hin|Hnew].
    + destruct (IH seen r Hc Hns Hr Hnj) as (seen' & r' & E & H1 & H2 & H3).
      exists seen', r'. cbn [push_all map]. rewrite (push_seen seen r i Hc Hin), E. split_and!; try done.
      intros j [Hj|[->|Hj]%elem_of_cons]; auto.
    + destruct (push_new seen r i Hc Hi Hnew) as (r1 & E1 & H1).
      destruct (zlen seen + 1 =? n) eqn:En; bool_prop.
      { exfalso. pose proof (co_nodup _ _ Hc) as Hn. pose proof (co_range _ _ Hc) as Hra.
        assert (k ∈ i :: seen) as [?|?]%elem_of_cons; [|done|done].
        apply all_seen; [by constructor| |rewrite zlen_cons; lia|done].
        intros j [->|Hj]%elem_of_cons; auto. }
      assert (k ∉ i :: seen) as Hns1 by (rewrite not_elem_of_cons; done).
      destruct (IH _ r1 H1 Hns1 Hr Hnj) as (seen' & r' & E & H2 & H3 & H4).
      exists seen', r'. cbn [push_all map]. rewrite E1, E. split_and!; try done.
      intros j [Hj|[->|Hj]%elem_of_cons]; apply H4; [left|left|right]; rewrite ?elem_of_cons; auto.
Qed.

Lemma init_collected (buffer received : list Z) :
  zlen data <= zlen buffer -> n <= zlen received * 8 < 2 ^ 32 ->
  collected [] (ls_transport_reassembly_init buffer received).
Proof.
  intros H1 H2. split; try done.
  - split; [done|]. simpl. rewrite zlen_fill by apply zlen_nonneg. done.
  - constructor.
  - intros i []%elem_of_nil.
  - intros i []%elem_of_nil.
Qed.

Lemma push_all_app a b r :
  push_all (a ++ b) r =
    (let '(xs, r) := push_all a r in let '(ys, r) := push_all b r in (xs ++ ys, r)).
Proof.
  revert r. induction a as [|i a IH]; intros r; cbn [app push_all].
  - by destruct (push_all b r).
  - destruct (ls_transport_reassembly_push _ r) as [x r1]. rewrite IH. destruct (push_all a r1) as [xs r2].
    by destruct (push_all b r2).
Qed.

(** C20.  Fragmentation and reassembly: the fragments [ls_transport_send] cuts an envelope into, delivered in any
    order and with any repetitions, are all accepted; the envelope is reported exactly with the fragment that
    completes it (every earlier push reports length 0), and the buffer then holds the envelope byte for byte. *)
Theorem reassembly_any_order (buffer received : list Z) (js : list Z) (k : Z) :
  zlen data <= zlen buffer -> n <= zlen received * 8 < 2 ^ 32 ->
  Forall (fun i => 0 <= i < n) js -> 0 <= k < n -> k ∉ js -> (forall i, 0 <= i < n -> i <> k -> i ∈ js) ->
  let run := push_all (js ++ [k]) (ls_transport_reassembly_init buffer received) in
  fst run = map (fun _ => (LS_OK, 0)) js ++ [(LS_OK, zlen data)] /\
  r_complete (snd run) = true /\ slice 0 (zlen data) (r_data (snd run)) = data.
Proof.
  intros Hb Hr Hjs Hk Hnk Hcov. cbv zeta.
  destruct (push_all_incomplete k js Hk [] _ (init_collected buffer received Hb Hr) ltac:(apply not_elem_of_nil)
    Hjs Hnk) as (seen & r & E & Hc & Hns & Hsub).
  rewrite push_all_app, E. cbn [push_all].
  destruct (push_new seen r k Hc Hk Hns) as (r' & E' & H'). rewrite E'. cbn [fst snd].
  assert (zlen seen + 1 = n) as Hn.
  { assert (NoDup (k :: seen)) by (constructor; [done|by destruct Hc]).
    assert (k :: seen ≡ₚ map Z.of_nat (List.seq 0 (Z.to_nat n))) as Hp.
    { apply NoDup_Permutation; [done| |].
      - apply NoDup_fmap_2; [apply _|]. apply NoDup_ListNoDup, List.seq_NoDup.
      - intros x. rewrite elem_of_cons, (list_elem_of_In (map _ _)), List.in_map_iff. split.
        + intros Hx. assert (0 <= x < n) by (destruct Hx as [->|Hx]; [done|by apply (co_range _ _ Hc)]).
          exists (Z.to_nat x). split; [lia|]. apply List.in_seq. lia.
        + intros (y & <- & Hy%List.in_seq). destruct (decide (Z.of_nat y = k)); [by left|right].
          apply Hsub. right. apply Hcov; lia. }
    apply Permutation_length in Hp. rewrite length_map, length_seq in Hp.
    unfold zlen in *. simpl in Hp. lia. }
  rewrite Hn, Z.eqb_refl in H'. rewrite Hn, Z.eqb_refl. done.
Qed.
End Reassembly.

(** Five bytes in fragments of two, delivered 2, 0, 2, 1. *)
Lemma reassembly_any_order_witness :
  let run := push_all 7 [1; 2; 3; 4; 5] 2 ([2; 0; 2] ++ [1]) (ls_transport_reassembly_init (fill 8 0) [9]) in
  fst run = [(LS_OK, 0); (LS_OK, 0); (LS_OK, 0); (LS_OK, 5)] /\
  slice 0 5 (r_data (snd run)) = [1; 2; 3; 4; 5].
Proof.
  destruct (reassembly_any_order 7 [1; 2; 3; 4; 5] 2 ltac:(vm_compute; split; [done|discriminate])
    ltac:(vm_compute; split; [done|discriminate]) ltac:(vm_compute; discriminate) (fill 8 0) [9] [2; 0; 2] 1
    ltac:(vm_compute; discriminate) ltac:(vm_compute; split; [discriminate|done])
    ltac:(repeat constructor; vm_compute; discriminate) ltac:(vm_compute; split; [discriminate|done])
    ltac:(apply (bool_decide_unpack _); vm_compute; done)) as (H1 & H2 & H3).
  - intros i Hi Hne. assert (fragment_count_of (zlen [1; 2; 3; 4; 5]) 2 = 3) as Hn by reflexivity. rewrite Hn in Hi.
    rewrite !elem_of_cons. lia.
  - split; [exact H1|exact H3].
Defined.
