(* ===== verification/Spool.v ===== *)
(** * The event spool ([src/spool/spool.c])

    A fixed number of record slots behind a header in persistent storage.  An
    envelope is appended to the first erased slot its priority may use and
    committed with a single byte; flushing sends the committed records, the most
    important first, and acknowledges each by clearing its state byte; when no
    committed record is left the whole area is erased.

    The sizes are those of the default profile in [include/laststate/config.h]. *)

From S2P Require Import Prelude Util FaultInjection Storage FlashLayer Envelope Transport.

Definition LS_MAX_EVENT_SIZE : Z := 4096.
Definition LS_SPOOL_MAX_RECORDS : Z := 8.
Definition LS_SPOOL_RESERVED_CRITICAL : Z := 2.
Definition LS_SPOOL_RESERVED_EMERGENCY : Z := 1.
Definition LS_STORAGE_MAGIC : Z := 0x4c53534c.
Definition LS_EVENT_CRASH : Z := 1.
Definition LS_EVENT_COREDUMP : Z := 8.

Definition SPOOL_VERSION : Z := 3.
Definition SPOOL_HEADER_COMMITTED : Z := 0xa5.
Definition SPOOL_RECORD_MAGIC : Z := 0x4c535245.
Definition SPOOL_RECORD_COMMITTED : Z := 0xa5.
Definition SPOOL_RECORD_ACKED : Z := 0.

(** ** The structures in storage *)

Record spool_header_t : Type := {
  h_magic : Z;
  h_version : Z;
  h_slots : Z;
  h_record_size : Z;
  h_sequence_floor : Z;
  h_header_crc : Z;
  h_committed : Z;
  h_reserved : Z;
}.

Record spool_record_t : Type := {
  rec_magic : Z;
  rec_version : Z;
  rec_length : Z;
  rec_sequence : Z;
  rec_data_crc : Z;
  rec_priority : Z;
  rec_event_type : Z;
  rec_reserved : Z;
  rec_header_crc : Z;
  rec_state : Z;
  rec_retry_bits : Z;
  rec_reserved_after_state : Z;
}.

Definition spool_header_layout : list nat := [4; 2; 2; 4; 4; 4; 1; 3]%nat.
Definition spool_record_layout : list nat := [4; 2; 2; 4; 4; 1; 1; 2; 4; 1; 1; 2]%nat.
Definition spool_header_size : Z := 24.
Definition spool_record_bytes : Z := 28.
Definition offset_committed : Z := 20.
Definition offset_state : Z := 24.
Definition offset_retry_bits : Z := 25.

Definition spool_header_pack (h : spool_header_t) : list Z :=
  pack spool_header_layout
    [h_magic h; h_version h; h_slots h; h_record_size h; h_sequence_floor h; h_header_crc h; h_committed h;
     h_reserved h].

Definition spool_header_unpack (bs : list Z) : spool_header_t :=
  match unpack spool_header_layout bs with
  | [m; v; s; z; f; c; k; r] =>
      {| h_magic := m; h_version := v; h_slots := s; h_record_size := z; h_sequence_floor := f;
         h_header_crc := c; h_committed := k; h_reserved := r |}
  | _ => {| h_magic := 0; h_version := 0; h_slots := 0; h_record_size := 0; h_sequence_floor := 0;
            h_header_crc := 0; h_committed := 0; h_reserved := 0 |}
  end.

Definition spool_record_pack (r : spool_record_t) : list Z :=
  pack spool_record_layout
    [rec_magic r; rec_version r; rec_length r; rec_sequence r; rec_data_crc r; rec_priority r; rec_event_type r;
     rec_reserved r; rec_header_crc r; rec_state r; rec_retry_bits r; rec_reserved_after_state r].

Definition spool_record_unpack (bs : list Z) : spool_record_t :=
  match unpack spool_record_layout bs with
  | [m; v; n; s; d; p; t; z; c; k; b; y] =>
      {| rec_magic := m; rec_version := v; rec_length := n; rec_sequence := s; rec_data_crc := d;
         rec_priority := p; rec_event_type := t; rec_reserved := z; rec_header_crc := c; rec_state := k;
         rec_retry_bits := b; rec_reserved_after_state := y |}
  | _ => {| rec_magic := 0; rec_version := 0; rec_length := 0; rec_sequence := 0; rec_data_crc := 0;
            rec_priority := 0; rec_event_type := 0; rec_reserved := 0; rec_header_crc := 0; rec_state := 0;
            rec_retry_bits := 0; rec_reserved_after_state := 0 |}
  end.

(** ** Layout *)

Definition record_size : Z := spool_record_bytes + LS_MAX_EVENT_SIZE.

Definition raw_storage_size : Z :=
  if SIZE_MAX / LS_SPOOL_MAX_RECORDS <? record_size then 0
  else
    match add_size 0 (record_size * LS_SPOOL_MAX_RECORDS) with
    | None => 0
    | Some records => default 0 (add_size spool_header_size records)
    end.

Definition slot_offset (index : Z) : Z := spool_header_size + index * record_size.

Definition ls_spool_storage_size : Z :=
  let size := raw_storage_size in
  if size =? 0 then 0
  else
    let remainder := size mod LS_STORAGE_MAX_WRITE_SIZE in
    if remainder =? 0 then size
    else if SIZE_MAX - (LS_STORAGE_MAX_WRITE_SIZE - remainder) <? size then 0
    else size + LS_STORAGE_MAX_WRITE_SIZE - remainder.

(** [sizeof(ls_persistent_boot_t)]. *)
Definition boot_state_size : Z := 88.

Definition ls_storage_required_size : Z :=
  let spool_size := ls_spool_storage_size in
  if spool_size =? 0 then 0 else default 0 (add_size spool_size boot_state_size).

(** The slots, in the order every loop visits them. *)
Definition slots : list Z := map Z.of_nat (List.seq 0 (Z.to_nat LS_SPOOL_MAX_RECORDS)).

(** ** Validity *)

Definition spool_header_crc (h : spool_header_t) : Z := ls_crc32 (slice 0 16 (spool_header_pack h)).
Definition spool_record_crc (r : spool_record_t) : Z := ls_crc32 (slice 0 20 (spool_record_pack r)).

Definition header_valid (h : spool_header_t) : bool :=
  (h_magic h =? LS_STORAGE_MAGIC) && (h_version h =? SPOOL_VERSION) && (h_slots h =? LS_SPOOL_MAX_RECORDS) &&
  (h_record_size h =? record_size) && (h_committed h =? SPOOL_HEADER_COMMITTED) &&
  (h_header_crc h =? spool_header_crc h).

Definition record_valid (r : spool_record_t) : bool :=
  (rec_magic r =? SPOOL_RECORD_MAGIC) && (rec_version r =? SPOOL_VERSION) && (0 <? rec_length r) &&
  (rec_length r <=? LS_MAX_EVENT_SIZE) && (rec_priority r <=? LS_PRIORITY_DIAGNOSTIC) &&
  (LS_EVENT_CRASH <=? rec_event_type r) && (rec_event_type r <=? LS_EVENT_COREDUMP) &&
  (rec_header_crc r =? spool_record_crc r).

Definition record_is_erased (r : spool_record_t) : bool := forallb (Z.eqb 0xff) (spool_record_pack r).

(** ** Slots by priority *)

Definition normal_slot_limit : Z := LS_SPOOL_MAX_RECORDS - LS_SPOOL_RESERVED_CRITICAL.
Definition critical_slot_limit : Z := LS_SPOOL_MAX_RECORDS - LS_SPOOL_RESERVED_EMERGENCY.

Definition slot_limit_for_priority (prio : Z) : Z :=
  if prio =? LS_PRIORITY_EMERGENCY then LS_SPOOL_MAX_RECORDS
  else if prio =? LS_PRIORITY_CRITICAL then critical_slot_limit
  else normal_slot_limit.

(** ** The runtime

    The fields of [ls_runtime] the spool reads and writes, beside the storage
    device; [network] is the state of the transports. *)
Record spool_runtime (E : Type) : Type := {
  rt_sequence : Z;
  spool_high_watermark : Z;
  spool_dropped_records : Z;
  spool_corrupt_records : Z;
  spool_transport_failures : Z;
  spool_retry_saturated : Z;
  network : net E;
}.
Arguments rt_sequence {E} _.
Arguments spool_high_watermark {E} _.
Arguments spool_dropped_records {E} _.
Arguments spool_corrupt_records {E} _.
Arguments spool_transport_failures {E} _.
Arguments spool_retry_saturated {E} _.
Arguments network {E} _.

Record ls_spool_stats_t : Type := {
  st_capacity : Z;
  st_committed : Z;
  st_reserved_critical : Z;
  st_reserved_emergency : Z;
  st_high_watermark : Z;
  st_dropped_records : Z;
  st_corrupt_records : Z;
  st_transport_failures : Z;
  st_retry_saturated : Z;
}.

Section Spool.
Context {E D : Type}.
Local Abbreviation rt := (spool_runtime E).

Definition sstate : Type := platform (rt * D).

Definition with_sequence (s : Z) (m : rt) : rt :=
  {| rt_sequence := s; spool_high_watermark := spool_high_watermark m;
     spool_dropped_records := spool_dropped_records m; spool_corrupt_records := spool_corrupt_records m;
     spool_transport_failures := spool_transport_failures m; spool_retry_saturated := spool_retry_saturated m;
     network := network m |}.

Definition with_watermark (w : Z) (m : rt) : rt :=
  {| rt_sequence := rt_sequence m; spool_high_watermark := w;
     spool_dropped_records := spool_dropped_records m; spool_corrupt_records := spool_corrupt_records m;
     spool_transport_failures := spool_transport_failures m; spool_retry_saturated := spool_retry_saturated m;
     network := network m |}.

Definition with_network (n : net E) (m : rt) : rt :=
  {| rt_sequence := rt_sequence m; spool_high_watermark := spool_high_watermark m;
     spool_dropped_records := spool_dropped_records m; spool_corrupt_records := spool_corrupt_records m;
     spool_transport_failures := spool_transport_failures m; spool_retry_saturated := spool_retry_saturated m;
     network := n |}.

(** The [++] of each counter. *)
Definition count_dropped (m : rt) : rt :=
  {| rt_sequence := rt_sequence m; spool_high_watermark := spool_high_watermark m;
     spool_dropped_records := inc32 (spool_dropped_records m); spool_corrupt_records := spool_corrupt_records m;
     spool_transport_failures := spool_transport_failures m; spool_retry_saturated := spool_retry_saturated m;
     network := network m |}.

Definition count_corrupt (m : rt) : rt :=
  {| rt_sequence := rt_sequence m; spool_high_watermark := spool_high_watermark m;
     spool_dropped_records := spool_dropped_records m; spool_corrupt_records := inc32 (spool_corrupt_records m);
     spool_transport_failures := spool_transport_failures m; spool_retry_saturated := spool_retry_saturated m;
     network := network m |}.

Definition count_failure (m : rt) : rt :=
  {| rt_sequence := rt_sequence m; spool_high_watermark := spool_high_watermark m;
     spool_dropped_records := spool_dropped_records m; spool_corrupt_records := spool_corrupt_records m;
     spool_transport_failures := inc32 (spool_transport_failures m);
     spool_retry_saturated := spool_retry_saturated m; network := network m |}.

Definition count_saturated (m : rt) : rt :=
  {| rt_sequence := rt_sequence m; spool_high_watermark := spool_high_watermark m;
     spool_dropped_records := spool_dropped_records m; spool_corrupt_records := spool_corrupt_records m;
     spool_transport_failures := spool_transport_failures m;
     spool_retry_saturated := inc32 (spool_retry_saturated m); network := network m |}.

(** A call into the transport layer. *)
Definition on_net {A} (m : st (@nstate E) A) : st sstate A := fun p =>
  let '(a, q) := m {| faults := faults p; dev := network (ram p) |} in
  (a, {| faults := faults q; dev := (with_network (dev q) (ram p), snd (dev p)) |}).

(** The functions below run on [ls_runtime.storage]; [None] is the null pointer. *)
Definition usable (storage : option (ls_storage_backend_t (platform D))) : bool :=
  match storage with
  | None => false
  | Some raw => negb (ls_spool_storage_size =? 0) && (ls_spool_storage_size <=? capacity raw)
  end.

(** [ls_runtime.storage ? LS_ENOSPACE : LS_OK]. *)
Definition unusable_result (storage : option (ls_storage_backend_t (platform D))) : ls_result_t :=
  match storage with Some _ => LS_ENOSPACE | None => LS_OK end.

Section Backend.
Context (raw : ls_storage_backend_t (platform D)).

Definition storage_sync : st sstate ls_result_t := raw_sync raw.

Definition program (offset : Z) (bs : list Z) : st sstate ls_result_t := on_raw (ls_storage_program raw offset bs).

Definition read_header : st sstate (res spool_header_t) := fun p =>
  let '(r, p) := raw_read raw 0 spool_header_size p in
  (match r with Err e => Err e | Ok bs => Ok (spool_header_unpack bs) end, p).

Definition read_record (slot : Z) : st sstate (res spool_record_t) := fun p =>
  let '(r, p) := raw_read raw (slot_offset slot) spool_record_bytes p in
  (match r with Err e => Err e | Ok bs => Ok (spool_record_unpack bs) end, p).

(** The header [write_header] programs: every field it does not set is 0xff. *)
Definition fresh_header (floor : Z) : spool_header_t :=
  let h := {| h_magic := LS_STORAGE_MAGIC; h_version := SPOOL_VERSION; h_slots := LS_SPOOL_MAX_RECORDS;
              h_record_size := u32 record_size; h_sequence_floor := floor; h_header_crc := 0xffffffff;
              h_committed := 0xff; h_reserved := 0xffffff |} in
  {| h_magic := h_magic h; h_version := h_version h; h_slots := h_slots h; h_record_size := h_record_size h;
     h_sequence_floor := h_sequence_floor h; h_header_crc := spool_header_crc h; h_committed := h_committed h;
     h_reserved := h_reserved h |}.

Definition write_header : st sstate ls_result_t := fun p =>
  (program 0 (spool_header_pack (fresh_header (rt_sequence (ram p)))) ;;?
   storage_sync ;;?
   program offset_committed [SPOOL_HEADER_COMMITTED] ;;?
   storage_sync) p.

Definition erase_spool : st sstate ls_result_t := fun p =>
  let size := ls_spool_storage_size in
  match erase raw with
  | None => (LS_ECORRUPT, p)
  | Some _ =>
      if (1 <? erase_size raw) && negb (size mod erase_size raw =? 0) then (LS_ENOTSUP, p)
      else (raw_erase raw 0 size ;;? storage_sync) p
  end.

(** [scan_records]: the newest sequence number, starting from [sequence], and
    whether any valid record was met. *)
Fixpoint scan_loop (l : list Z) (sequence : Z) (has_record : bool) : st sstate (res (Z * bool)) := fun p =>
  match l with
  | [] => (Ok (sequence, has_record), p)
  | slot :: l =>
      let '(r, p) := read_record slot p in
      match r with
      | Err e => (Err e, p)
      | Ok record =>
          if record_valid record then
            scan_loop l (if generation_is_newer (rec_sequence record) sequence then rec_sequence record else sequence)
              true p
          else scan_loop l sequence has_record p
      end
  end.

Definition scan_records (sequence : Z) : st sstate (res (Z * bool)) := scan_loop slots sequence false.

Definition init_with : st sstate ls_result_t := fun p =>
  let '(r, p) := read_header p in
  match r with
  | Err e => (e, p)
  | Ok header =>
      let '(r, p) := scan_records (if header_valid header then h_sequence_floor header else 0) p in
      match r with
      | Err e => (e, p)
      | Ok (sequence, has_record) =>
          if header_valid header || has_record then
            if generation_is_newer sequence (rt_sequence (ram p))
            then let '(_, p) := set_ram (with_sequence sequence) p in (LS_OK, p)
            else (LS_OK, p)
          else
            let '(r, p) := on_raw (ls_storage_is_erased raw 0 ls_spool_storage_size SET) p in
            match r with
            | Err e => (e, p)
            | Ok erased => if erased then write_header p else (erase_spool ;;? write_header) p
            end
      end
  end.

(** The loop of [find_empty_slot], over the slots below the limit. *)
Fixpoint find_empty_loop (l : list Z) : st sstate (res Z) := fun p =>
  match l with
  | [] => (Err LS_ENOSPACE, p)
  | slot :: l =>
      let '(r, p) := on_raw (ls_storage_is_erased raw (slot_offset slot) spool_record_bytes SET) p in
      match r with
      | Err e => (Err e, p)
      | Ok erased => if erased then (Ok slot, p) else find_empty_loop l p
      end
  end.

Definition find_empty_slot (prio : Z) : st sstate (res Z) :=
  find_empty_loop (take (Z.to_nat (slot_limit_for_priority prio)) slots).

(** The record [ls_spool_append] programs for an envelope. *)
Definition fresh_record (data : list Z) (prio : Z) (info : ls_envelope_info_t) : spool_record_t :=
  let r := {| rec_magic := SPOOL_RECORD_MAGIC; rec_version := SPOOL_VERSION; rec_length := u16 (zlen data);
              rec_sequence := sequence info; rec_data_crc := ls_crc32 data; rec_priority := u8 prio;
              rec_event_type := type info; rec_reserved := 0xffff; rec_header_crc := 0xffffffff;
              rec_state := 0xff; rec_retry_bits := 0xff; rec_reserved_after_state := 0xffff |} in
  {| rec_magic := rec_magic r; rec_version := rec_version r; rec_length := rec_length r;
     rec_sequence := rec_sequence r; rec_data_crc := rec_data_crc r; rec_priority := rec_priority r;
     rec_event_type := rec_event_type r; rec_reserved := rec_reserved r; rec_header_crc := spool_record_crc r;
     rec_state := rec_state r; rec_retry_bits := rec_retry_bits r;
     rec_reserved_after_state := rec_reserved_after_state r |}.

(** [record_valid(&record) && record.state == SPOOL_RECORD_COMMITTED]. *)
Definition is_committed (r : spool_record_t) : bool :=
  record_valid r && (rec_state r =? SPOOL_RECORD_COMMITTED).

(** The loop of [ls_spool_append] that counts committed records; a failed read
    ends it. *)
Fixpoint count_loop (l : list Z) (committed : Z) : st sstate Z := fun p =>
  match l with
  | [] => (committed, p)
  | slot :: l =>
      let '(r, p) := read_record slot p in
      match r with
      | Err _ => (committed, p)
      | Ok record => count_loop l (if is_committed record then committed + 1 else committed) p
      end
  end.

Definition update_watermark : st sstate ls_result_t := fun p =>
  let '(committed, p) := count_loop slots 0 p in
  if spool_high_watermark (ram p) <? committed
  then let '(_, p) := set_ram (with_watermark committed) p in (LS_OK, p)
  else (LS_OK, p).

Definition append_record (slot : Z) (data : list Z) (record : spool_record_t) : st sstate ls_result_t :=
  let offset := slot_offset slot in
  hit "spool.before_header" ;;?
  program offset (spool_record_pack record) ;;?
  hit "spool.before_payload" ;;?
  program (offset + spool_record_bytes) data ;;?
  storage_sync ;;?
  hit "spool.before_commit" ;;?
  program (offset + offset_state) [SPOOL_RECORD_COMMITTED] ;;?
  storage_sync ;;?
  update_watermark.

Definition append_with (data : list Z) (prio : Z) : st sstate ls_result_t := fun p =>
  match ls_envelope_validate (Some data) with
  | Err _ => (LS_ECORRUPT, p)
  | Ok info =>
      let '(r, p) := find_empty_slot prio p in
      match r with
      | Err LS_ENOSPACE => let '(_, p) := set_ram count_dropped p in (LS_ENOSPACE, p)
      | Err e => (e, p)
      | Ok slot => append_record slot data (fresh_record data prio info) p
      end
  end.

Definition set_record_state (slot state : Z) : st sstate ls_result_t :=
  program (slot_offset slot + offset_state) [state].

Definition acknowledge_record (slot : Z) : st sstate ls_result_t :=
  set_record_state slot SPOOL_RECORD_ACKED ;;? storage_sync.

(** The loop of [increment_retries]: the lowest set bit of the byte cleared. *)
Fixpoint clear_lowest (n : nat) (bit bits : Z) : Z :=
  match n with
  | O => bits
  | S n =>
      let mask := u8 (Z.shiftl 1 bit) in
      if negb (Z.land bits mask =? 0) then u8 (Z.land bits (u8 (Z.lnot mask))) else clear_lowest n (bit + 1) bits
  end.

Definition increment_retries (slot retry_bits : Z) : st sstate ls_result_t := fun p =>
  let updated := clear_lowest 8 0 retry_bits in
  if updated =? retry_bits then let '(_, p) := set_ram count_saturated p in (LS_OK, p)
  else (program (slot_offset slot + offset_retry_bits) [updated] ;;? storage_sync) p.

(** The scan of [reclaim_if_drained]: [None] when a committed record is left,
    otherwise whether a slot was consumed. *)
Fixpoint drained_loop (l : list Z) (consumed : bool) : st sstate (res (option bool)) := fun p =>
  match l with
  | [] => (Ok (Some consumed), p)
  | slot :: l =>
      let '(r, p) := read_record slot p in
      match r with
      | Err e => (Err e, p)
      | Ok record =>
          if is_committed record then (Ok None, p)
          else drained_loop l (if negb (record_is_erased record) then true else consumed) p
      end
  end.

Definition reclaim_if_drained : st sstate ls_result_t := fun p =>
  let '(r, p) := drained_loop slots false p in
  match r with
  | Err e => (e, p)
  | Ok None => (LS_OK, p)
  | Ok (Some false) => (LS_OK, p)
  | Ok (Some true) => (erase_spool ;;? write_header) p
  end.

(** [record] goes before [selected]. *)
Definition goes_before (record selected : spool_record_t) : bool :=
  (rec_priority record <? rec_priority selected) ||
  ((rec_priority record =? rec_priority selected) && (s32 (rec_sequence record - rec_sequence selected) <? 0)).

(** The selection loop of [ls_spool_flush]. *)
Fixpoint first_loop (l : list Z) (selected : option (Z * spool_record_t))
  : st sstate (res (option (Z * spool_record_t))) := fun p =>
  match l with
  | [] => (Ok selected, p)
  | slot :: l =>
      let '(r, p) := read_record slot p in
      match r with
      | Err e => (Err e, p)
      | Ok record =>
          if negb (record_valid record) || negb (rec_state record =? SPOOL_RECORD_COMMITTED)
          then first_loop l selected p
          else
            let better := match selected with None => true | Some (_, s) => goes_before record s end in
            first_loop l (if better then Some (slot, record) else selected) p
      end
  end.

(** The rest of one pass, with the selected record: [None] to go on with the
    next pass, [Some r] to return [r]. *)
Definition discard_corrupt (slot : Z) : st sstate (option ls_result_t) := fun p =>
  let '(_, p) := set_ram count_corrupt p in
  let '(r, p) := acknowledge_record slot p in
  (if is_ok r then None else Some r, p).

Definition send_record (slot : Z) (selected : spool_record_t) (data : list Z) (info : ls_envelope_info_t)
  : st sstate (option ls_result_t) := fun p =>
  let '(transport, p) := on_net (ls_transport_select (rec_priority selected) (rec_length selected)) p in
  match transport with
  | None => (Some LS_EAGAIN, p)
  | Some t =>
      let '(r, p) := (hit "spool.before_send" ;;?
                      on_net (ls_transport_send (Some t) (event_id info) (Some data))) p in
      if negb (is_ok r) then
        let '(_, p) := set_ram count_failure p in
        let '(retry_result, p) := increment_retries slot (rec_retry_bits selected) p in
        (Some (if is_ok retry_result then r else retry_result), p)
      else
        let '(r, p) := (hit "spool.before_ack" ;;? acknowledge_record slot) p in
        (if is_ok r then None else Some r, p)
  end.

Definition flush_record (slot : Z) (selected : spool_record_t) : st sstate (option ls_result_t) := fun p =>
  let '(r, p) := raw_read raw (slot_offset slot + spool_record_bytes) (rec_length selected) p in
  match r with
  | Err _ => discard_corrupt slot p
  | Ok data =>
      if negb (rec_data_crc selected =? ls_crc32 data) then discard_corrupt slot p
      else
        match ls_envelope_validate (Some data) with
        | Err _ => discard_corrupt slot p
        | Ok info => send_record slot selected data info p
        end
  end.

Fixpoint flush_passes (n : nat) : st sstate ls_result_t := fun p =>
  match n with
  | O => reclaim_if_drained p
  | S n =>
      let '(r, p) := first_loop slots None p in
      match r with
      | Err e => (e, p)
      | Ok None => reclaim_if_drained p
      | Ok (Some (slot, selected)) =>
          let '(stop, p) := flush_record slot selected p in
          match stop with Some r => (r, p) | None => flush_passes n p end
      end
  end.

(** [stats->committed] over the slots: a failed read ends the loop with the
    records counted so far. *)
Fixpoint stats_loop (l : list Z) (committed : Z) : st sstate (ls_result_t * Z) := fun p =>
  match l with
  | [] => ((LS_OK, committed), p)
  | slot :: l =>
      let '(r, p) := read_record slot p in
      match r with
      | Err e => ((e, committed), p)
      | Ok record => stats_loop l (if is_committed record then committed + 1 else committed) p
      end
  end.
End Backend.

Section Api.
Context (storage : option (ls_storage_backend_t (platform D))).

Definition ls_spool_init : st sstate ls_result_t := fun p =>
  match storage with
  | Some raw => if usable storage then init_with raw p else (unusable_result storage, p)
  | None => (unusable_result storage, p)
  end.

Definition ls_spool_append (data : option (list Z)) (prio : Z) : st sstate ls_result_t := fun p =>
  match data with
  | None => (LS_EINVAL, p)
  | Some data =>
      if (zlen data =? 0) || (LS_MAX_EVENT_SIZE <? zlen data) || (LS_PRIORITY_DIAGNOSTIC <? prio)
      then (LS_EINVAL, p)
      else
        match storage with
        | Some raw => if usable storage then append_with raw data prio p else (unusable_result storage, p)
        | None => (unusable_result storage, p)
        end
  end.

Definition ls_spool_flush : st sstate ls_result_t := fun p =>
  match storage with
  | Some raw =>
      if usable storage then flush_passes raw (Z.to_nat LS_SPOOL_MAX_RECORDS) p else (unusable_result storage, p)
  | None => (unusable_result storage, p)
  end.

Definition ls_flush : st sstate ls_result_t := ls_spool_flush.

(** [ls_spool_get_stats]: the result and, for a non-null pointer, the structure as
    the function leaves it. *)
Definition ls_spool_get_stats (stats : ptr) : st sstate (ls_result_t * option ls_spool_stats_t) := fun p =>
  if negb stats then ((LS_EINVAL, None), p)
  else
    let m := ram p in
    let report committed watermark :=
      {| st_capacity := LS_SPOOL_MAX_RECORDS; st_committed := committed;
         st_reserved_critical := LS_SPOOL_RESERVED_CRITICAL;
         st_reserved_emergency := LS_SPOOL_RESERVED_EMERGENCY; st_high_watermark := watermark;
         st_dropped_records := spool_dropped_records m; st_corrupt_records := spool_corrupt_records m;
         st_transport_failures := spool_transport_failures m; st_retry_saturated := spool_retry_saturated m |} in
    match storage with
    | Some raw =>
        if usable storage then
          let '((r, committed), p) := stats_loop raw slots 0 p in
          if negb (is_ok r) then ((r, Some (report committed (spool_high_watermark m))), p)
          else if spool_high_watermark m <? committed then
            let '(_, p) := set_ram (with_watermark committed) p in
            ((LS_OK, Some (report committed committed)), p)
          else ((LS_OK, Some (report committed (spool_high_watermark m))), p)
        else ((unusable_result storage, Some (report 0 (spool_high_watermark m))), p)
    | None => ((unusable_result storage, Some (report 0 (spool_high_watermark m))), p)
    end.
End Api.
End Spool.

(** ** Structures as bytes *)

Definition record_ok (r : spool_record_t) : Prop :=
  is_u32 (rec_magic r) /\ is_u16 (rec_version r) /\ is_u16 (rec_length r) /\ is_u32 (rec_sequence r) /\
  is_u32 (rec_data_crc r) /\ is_u8 (rec_priority r) /\ is_u8 (rec_event_type r) /\ is_u16 (rec_reserved r) /\
  is_u32 (rec_header_crc r) /\ is_u8 (rec_state r) /\ is_u8 (rec_retry_bits r) /\ is_u16 (rec_reserved_after_state r).

Lemma record_roundtrip r : record_ok r -> spool_record_unpack (spool_record_pack r) = r.
Proof.
  intros (?&?&?&?&?&?&?&?&?&?&?&?). unfold spool_record_unpack, spool_record_pack.
  rewrite <- (app_nil_r (pack _ _)), unpack_pack by solve_fits. by destruct r.
Qed.

Lemma record_pack_unpack bs : bytes_ok bs -> zlen bs = spool_record_bytes ->
  spool_record_pack (spool_record_unpack bs) = bs.
Proof.
  intros Hb Hz. unfold spool_record_pack, spool_record_unpack.
  assert (length bs = sum_list spool_record_layout) as Hl by (unfold zlen, spool_record_bytes in Hz; simpl; lia).
  rewrite <- (pack_unpack spool_record_layout bs Hb Hl) at 13. simpl unpack. done.
Qed.

Lemma record_pack_zlen r : zlen (spool_record_pack r) = spool_record_bytes.
Proof. unfold zlen, spool_record_pack. by rewrite length_pack. Qed.

Lemma spool_header_pack_zlen h : zlen (spool_header_pack h) = spool_header_size.
Proof. unfold zlen, spool_header_pack. by rewrite length_pack. Qed.

Lemma spool_pack_bytes h r : bytes_ok (spool_header_pack h) /\ bytes_ok (spool_record_pack r).
Proof. split; apply bytes_ok_pack. Qed.

(** A record with another state and retry byte. *)
Definition with_state (s b : Z) (r : spool_record_t) : spool_record_t :=
  {| rec_magic := rec_magic r; rec_version := rec_version r; rec_length := rec_length r;
     rec_sequence := rec_sequence r; rec_data_crc := rec_data_crc r; rec_priority := rec_priority r;
     rec_event_type := rec_event_type r; rec_reserved := rec_reserved r; rec_header_crc := rec_header_crc r;
     rec_state := s; rec_retry_bits := b; rec_reserved_after_state := rec_reserved_after_state r |}.

(** The checksum does not cover them. *)
Lemma with_state_valid s b r : record_valid (with_state s b r) = record_valid r.
Proof. reflexivity. Qed.

Lemma spool_size_value : ls_spool_storage_size = 33024.
Proof. reflexivity. Qed.

Lemma slot_offset_value i : slot_offset i = 24 + i * 4124.
Proof. reflexivity. Qed.

Definition in_range (i : Z) : Prop := 0 <= i < LS_SPOOL_MAX_RECORDS.

Lemma slots_range i : i ∈ slots <-> in_range i.
Proof.
  unfold slots, in_range. rewrite list_elem_of_In, List.in_map_iff. unfold LS_SPOOL_MAX_RECORDS. split.
  - intros (n & <- & Hn%List.in_seq). lia.
  - intros H. exists (Z.to_nat i). split; [lia|]. apply List.in_seq. lia.
Qed.

Lemma slot_inside i : in_range i -> 24 <= slot_offset i /\ slot_offset i + record_size <= ls_spool_storage_size.
Proof.
  unfold in_range, LS_SPOOL_MAX_RECORDS. rewrite slot_offset_value, spool_size_value.
  change record_size with 4124. lia.
Qed.

Lemma slots_disjoint i j : i <> j ->
  slot_offset i + record_size <= slot_offset j \/ slot_offset j + record_size <= slot_offset i.
Proof. rewrite !slot_offset_value. change record_size with 4124. lia. Qed.

(** ** The spool on a medium *)

Definition record_in (c : list Z) (i : Z) : spool_record_t :=
  spool_record_unpack (slice (slot_offset i) spool_record_bytes c).

Definition payload_in (c : list Z) (i : Z) (n : Z) : list Z := slice (slot_offset i + spool_record_bytes) n c.

(** The committed record in slot [i] and its payload. *)
Definition entry_in (c : list Z) (i : Z) : option (spool_record_t * list Z) :=
  let r := record_in c i in
  if is_committed r then Some (r, payload_in c i (rec_length r)) else None.

(** No header byte of the slot has been programmed. *)
Definition slot_free (c : list Z) (i : Z) : Prop :=
  slice (slot_offset i) spool_record_bytes c = fill spool_record_bytes 0xff.

(** The members by their place. *)
Lemma record_unpack_fields bs :
  spool_record_unpack bs =
    {| rec_magic := le_get (slice 0 4 bs); rec_version := le_get (slice 4 2 bs); rec_length := le_get (slice 6 2 bs);
       rec_sequence := le_get (slice 8 4 bs); rec_data_crc := le_get (slice 12 4 bs);
       rec_priority := le_get (slice 16 1 bs); rec_event_type := le_get (slice 17 1 bs);
       rec_reserved := le_get (slice 18 2 bs); rec_header_crc := le_get (slice 20 4 bs);
       rec_state := le_get (slice 24 1 bs); rec_retry_bits := le_get (slice 25 1 bs);
       rec_reserved_after_state := le_get (slice 26 2 bs) |}.
Proof.
  unfold spool_record_unpack, spool_record_layout. cbn [unpack]. rewrite !drop_drop. unfold slice. by f_equal.
Qed.

Definition field_in (c : list Z) (i o w : Z) : Z := le_get (slice (slot_offset i + o) w c).

Lemma record_in_fields c i : in_range i -> ls_spool_storage_size <= zlen c ->
  record_in c i =
    {| rec_magic := field_in c i 0 4; rec_version := field_in c i 4 2; rec_length := field_in c i 6 2;
       rec_sequence := field_in c i 8 4; rec_data_crc := field_in c i 12 4;
       rec_priority := field_in c i 16 1; rec_event_type := field_in c i 17 1;
       rec_reserved := field_in c i 18 2; rec_header_crc := field_in c i 20 4;
       rec_state := field_in c i 24 1; rec_retry_bits := field_in c i 25 1;
       rec_reserved_after_state := field_in c i 26 2 |}.
Proof.
  intros Hi Hz. pose proof (slot_inside i Hi). change record_size with 4124 in *.
  unfold record_in, field_in, spool_record_bytes. rewrite record_unpack_fields, !slice_slice by lia. done.
Qed.

(** A change confined to one slot leaves the others alone. *)
Lemma record_in_outside c c' i j : in_range i -> i <> j -> outside (slot_offset j) record_size c c' ->
  record_in c' i = record_in c i.
Proof.
  intros Hi Hij [_ H]. pose proof (slot_inside i Hi). destruct (slots_disjoint i j Hij);
  unfold record_in, spool_record_bytes; rewrite H by (change record_size with 4124 in *; lia); done.
Qed.

Lemma payload_in_outside c c' i j n : in_range i -> i <> j -> 0 <= n <= LS_MAX_EVENT_SIZE ->
  outside (slot_offset j) record_size c c' -> payload_in c' i n = payload_in c i n.
Proof.
  unfold LS_MAX_EVENT_SIZE. intros Hi Hij Hn [_ H]. pose proof (slot_inside i Hi).
  destruct (slots_disjoint i j Hij); unfold payload_in, spool_record_bytes;
  rewrite H by (change record_size with 4124 in *; lia); done.
Qed.

Lemma committed_inv r : is_committed r = true ->
  record_valid r = true /\ rec_state r = SPOOL_RECORD_COMMITTED /\ 0 < rec_length r <= LS_MAX_EVENT_SIZE /\
  rec_priority r <= LS_PRIORITY_DIAGNOSTIC.
Proof.
  unfold is_committed. intros [Hv Hs]%andb_true_iff. bool_prop. split; [done|]. split; [done|].
  unfold record_valid in Hv. repeat (apply andb_true_iff in Hv as [Hv ?]). bool_prop. lia.
Qed.

Lemma entry_in_outside c c' i j : in_range i -> i <> j -> outside (slot_offset j) record_size c c' ->
  entry_in c' i = entry_in c i.
Proof.
  intros Hi Hij Ho. unfold entry_in. rewrite (record_in_outside c c' i j) by done.
  destruct (is_committed (record_in c i)) eqn:Ec; [|done]. apply committed_inv in Ec as (_ & _ & Hl & _).
  rewrite (payload_in_outside c c' i j) by (done || lia). done.
Qed.

(** So does a change behind the spool. *)
Lemma entry_in_before c c' i n : in_range i -> outside ls_spool_storage_size n c c' ->
  entry_in c' i = entry_in c i /\ (slot_free c i <-> slot_free c' i).
Proof.
  intros Hi [_ H]. pose proof (slot_inside i Hi). change record_size with 4124 in *. split.
  - unfold entry_in, record_in, payload_in, spool_record_bytes. rewrite (H (slot_offset i) 28) by lia.
    destruct (is_committed _) eqn:Ec; [|done]. apply committed_inv in Ec as (_&_&Hl&_). unfold LS_MAX_EVENT_SIZE in Hl.
    by rewrite H by lia.
  - unfold slot_free, spool_record_bytes. by rewrite H by lia.
Qed.

(** Programming the state byte or the retry byte of a slot. *)
Section SlotBytes.
Context (c : list Z) (i : Z) (Hi : in_range i) (Hz : ls_spool_storage_size <= zlen c).

Lemma field_in_same o v : is_u8 v -> 0 <= o < 28 -> field_in (splice (slot_offset i + o) [v] c) i o 1 = v.
Proof.
  intros Hv Ho. pose proof (slot_inside i Hi). change record_size with 4124 in *.
  unfold field_in. rewrite slice_splice_within by (rewrite ?zlen_cons, ?zlen_nil; lia).
  replace (slot_offset i + o - (slot_offset i + o)) with 0 by lia.
  replace (slice 0 1 [v]) with (le 1 v); [by apply le_get_le|]. cbn [le]. by rewrite u8_id.
Qed.

Lemma field_in_other o v k w : 0 <= o < 28 -> 0 <= k -> 0 <= w -> k + w <= o \/ o < k ->
  field_in (splice (slot_offset i + o) [v] c) i k w = field_in c i k w.
Proof.
  intros Ho Hk Hw Hd. pose proof (slot_inside i Hi). change record_size with 4124 in *.
  unfold field_in. rewrite slice_splice_disjoint; [done|..]; rewrite ?zlen_cons, ?zlen_nil; lia.
Qed.

Lemma record_in_state v : is_u8 v ->
  record_in (splice (slot_offset i + offset_state) [v] c) i =
    with_state v (rec_retry_bits (record_in c i)) (record_in c i).
Proof.
  intros Hv. pose proof (slot_inside i Hi). change record_size with 4124 in *. unfold offset_state.
  rewrite !record_in_fields; try done; [|rewrite zlen_splice; rewrite ?zlen_cons, ?zlen_nil; lia].
  unfold with_state. cbn [rec_magic rec_version rec_length rec_sequence rec_data_crc rec_priority rec_event_type
    rec_reserved rec_header_crc rec_state rec_retry_bits rec_reserved_after_state].
  f_equal; first [by apply field_in_same | apply field_in_other; lia].
Qed.

Lemma record_in_retry v : is_u8 v ->
  record_in (splice (slot_offset i + offset_retry_bits) [v] c) i =
    with_state (rec_state (record_in c i)) v (record_in c i).
Proof.
  intros Hv. pose proof (slot_inside i Hi). change record_size with 4124 in *. unfold offset_retry_bits.
  rewrite !record_in_fields; try done; [|rewrite zlen_splice; rewrite ?zlen_cons, ?zlen_nil; lia].
  unfold with_state. cbn [rec_magic rec_version rec_length rec_sequence rec_data_crc rec_priority rec_event_type
    rec_reserved rec_header_crc rec_state rec_retry_bits rec_reserved_after_state].
  f_equal; first [by apply field_in_same | apply field_in_other; lia].
Qed.

Lemma payload_in_splice o v n : 0 <= o < 28 -> 0 <= n ->
  payload_in (splice (slot_offset i + o) [v] c) i n = payload_in c i n.
Proof.
  intros Ho Hn. pose proof (slot_inside i Hi). change record_size with 4124 in *.
  unfold payload_in, spool_record_bytes. apply slice_splice_disjoint; rewrite ?zlen_cons, ?zlen_nil; lia.
Qed.
End SlotBytes.

(** A torn store whose bytes agree with the old ones in a region leaves the region. *)
Lemma torn_agree off data o n (l l' : list Z) : torn off data l l' -> 0 <= off <= o -> 0 <= n ->
  o + n <= off + zlen data -> slice o n l = slice (o - off) n data -> slice o n l' = slice o n l.
Proof.
  intros [_ H] Ho Hn Hb Hs. apply slice_ext; [lia..|]. intros i Hi. destruct (H i) as [->|[_ E]]; [done|].
  rewrite E. apply (f_equal (fun k => k !! (i - Z.to_nat o)%nat)) in Hs.
  rewrite !lookup_slice in Hs by lia. replace (Z.to_nat o + (i - Z.to_nat o))%nat with i in Hs by lia.
  rewrite Hs. f_equal. lia.
Qed.

(** ** Steps over a backend *)

Section SpoolOk.
Context {E D : Type} (raw : ls_storage_backend_t (platform D)) `{OK : !StorageOk raw}.
Context (Hcap : ls_spool_storage_size <= capacity raw).
Implicit Types p : @sstate E D.
Local Abbreviation medium := (medium raw).
Local Abbreviation unit_size := (unit_size raw).

Lemma medium_size p : inv (snd (dev p)) -> ls_spool_storage_size <= zlen (medium p).
Proof. intros Hi. by rewrite (medium_zlen raw). Qed.

(** A step that leaves medium and runtime alone. *)
Record quiet (p p' : @sstate E D) : Prop := {
  q_ram : ram p' = ram p;
  q_inv : inv (snd (dev p'));
  q_medium : medium p' = medium p;
  q_live : live (raw_of p) -> live (raw_of p');
}.

Lemma quiet_refl p : inv (snd (dev p)) -> quiet p p.
Proof. by split. Qed.

Lemma quiet_trans p p1 p2 : quiet p p1 -> quiet p1 p2 -> quiet p p2.
Proof. intros [] []. split; try congruence; auto. Qed.

Lemma hit_quiet name p r p' : inv (snd (dev p)) -> hit name p = (r, p') ->
  quiet p p' /\ (live (raw_of p) -> r = LS_OK).
Proof.
  intros Hi H. pose proof (hit_dev _ _ _ _ H) as Hd.
  assert (live (raw_of p) -> p' = p /\ r = LS_OK) as Hl.
  { intros Hl. rewrite hit_inactive in H; [by simplify_eq|]. by apply live_quiet in Hl. }
  split; [|intros H'; by destruct (Hl H')]. split; unfold ram, FlashLayer.medium; rewrite ?Hd; try done.
  intros H'. by destruct (Hl H') as [-> _].
Qed.

Lemma sync_quiet p r p' : inv (snd (dev p)) -> storage_sync raw p = (r, p') ->
  quiet p p' /\ (live (raw_of p) -> r = LS_OK).
Proof.
  intros Hi H. pose proof H as H'. apply (raw_sync_same raw) in H as (?&?&?); [|done].
  assert (live (raw_of p) -> r = LS_OK /\ live (raw_of p')) as Hl.
  { intros Hl. by apply (raw_sync_live raw) in H' as (?&?&?&?). }
  split; [split; try done|]; intros H9; by destruct (Hl H9).
Qed.

Lemma read_quiet off len p r p' : inv (snd (dev p)) -> 0 <= off -> 0 <= len -> off + len <= ls_spool_storage_size ->
  raw_read raw off len p = (r, p') ->
  quiet p p' /\ (forall bs, r = Ok bs -> bs = slice off len (medium p)) /\ r <> Err LS_OK /\
  (live (raw_of p) -> exists bs, r = Ok bs).
Proof.
  intros Hi Ho Hn Hb H. apply (raw_read_spec raw) in H as (?&?&?&?&?&Hl); try done; [|lia].
  split_and!; try done.
  - split; try done. intros H'. by destruct (Hl H').
  - intros H'. by destruct (Hl H').
Qed.

Lemma read_record_quiet slot p r p' : inv (snd (dev p)) -> in_range slot -> read_record raw slot p = (r, p') ->
  quiet p p' /\ (forall x, r = Ok x -> x = record_in (medium p) slot) /\ r <> Err LS_OK /\
  (live (raw_of p) -> exists x, r = Ok x).
Proof.
  intros Hi Hs H. pose proof (slot_inside slot Hs). unfold read_record in H.
  destruct (raw_read raw _ _ p) as [r1 p1] eqn:Er.
  apply read_quiet in Er as (Hq & Hr & Hn & Hl); [|done|change record_size with 4124 in *; unfold spool_record_bytes; lia..].
  injection H as <- <-. split; [done|]. destruct r1 as [bs|e].
  - split_and!; try done; [|by eexists]. intros x [= <-]. unfold record_in. by rewrite (Hr bs).
  - split_and!; try done. + congruence. + intros H'. by destruct (Hl H').
Qed.

Lemma is_erased_quiet off len p r p' : inv (snd (dev p)) -> 0 <= off -> 0 <= len -> off + len <= ls_spool_storage_size ->
  on_raw (ls_storage_is_erased raw off len SET) p = (r, p') ->
  quiet p p' /\ (forall e, r = Ok e -> e = true <-> slice off len (medium p) = fill len 0xff) /\ r <> Err LS_OK /\
  (live (raw_of p) -> exists e, r = Ok e).
Proof.
  intros Hi Ho Hn Hb [H Hm]%on_raw_inv. unfold ls_storage_is_erased in H.
  assert (storage_bounds raw off len = LS_OK) as Hsb by (unfold storage_bounds; case_if; [blia|done]).
  rewrite Hsb in H. cbn [negb is_ok orb] in H.
  apply (is_erased_loop_spec raw) in H as ((?&?&?)&?&?&?); try done; try lia.
Qed.

(** Loops over the slots that only read. *)
Fixpoint slot_fold {A} (step : A -> Z -> spool_record_t -> A) (c : list Z) (l : list Z) (a : A) : A :=
  match l with
  | [] => a
  | i :: l => slot_fold step c l (step a i (record_in c i))
  end.

Lemma slot_fold_quiet {A} (step : A -> Z -> spool_record_t -> A) (loop : list Z -> A -> st (@sstate E D) (res A)) :
  (forall a p, loop [] a p = (Ok a, p)) ->
  (forall i l a p, loop (i :: l) a p =
     (let '(r, p) := read_record raw i p in
      match r with Err e => (Err e, p) | Ok x => loop l (step a i x) p end)) ->
  forall l a p r p', Forall in_range l -> inv (snd (dev p)) -> loop l a p = (r, p') ->
  quiet p p' /\ (forall x, r = Ok x -> x = slot_fold step (medium p) l a) /\ r <> Err LS_OK /\
  (live (raw_of p) -> exists x, r = Ok x).
Proof.
  intros H0 H1. induction l as [|i l IH]; intros a p r p' Hl Hi H.
  - rewrite H0 in H. injection H as <- <-. split_and!; [by apply quiet_refl|by intros x [= <-]|done|by eexists].
  - apply Forall_cons in Hl as [Hr Hl]. rewrite H1 in H. destruct (read_record raw i p) as [rr p1] eqn:Er.
    apply read_record_quiet in Er as (Hq & Hx & Hn & Hlv); [|done|done]. destruct rr as [x|e].
    + apply IH in H as (Hq' & Hx' & Hn' & Hlv'); [|done|by destruct Hq].
      split; [by eapply quiet_trans|]. split; [|split; [done|]].
      * intros y Hy. rewrite (Hx' y Hy), (Hx x eq_refl), (q_medium _ _ Hq). done.
      * intros H'. apply Hlv'. by apply (q_live _ _ Hq).
    + injection H as <- <-. split; [done|]. split; [done|]. split; [congruence|].
      intros H'. by destruct (Hlv H').
Qed.

Lemma slots_in_range : Forall in_range slots.
Proof. apply Forall_forall. intros i. apply slots_range. Qed.

(** *** Programming *)

(** The spool area is a whole number of write units that [ls_storage_program] supports. *)
Definition units_fit : Prop := unit_size <= LS_STORAGE_MAX_WRITE_SIZE /\ ls_spool_storage_size mod unit_size = 0.

Record programs (off : Z) (data : list Z) (p : sstate) (r : ls_result_t) (p' : @sstate E D) : Prop := {
  pg_ram : ram p' = ram p;
  pg_inv : inv (snd (dev p'));
  pg_torn : torn off data (medium p) (medium p');
  pg_ok : r = LS_OK -> medium p' = splice off data (medium p);
  pg_live : units_fit -> live (raw_of p) -> nor_legal (slice off (zlen data) (medium p)) data = true ->
    r = LS_OK /\ live (raw_of p');
}.

Lemma program_programs off data p r p' : inv (snd (dev p)) -> bytes_ok data -> 0 <= off ->
  off + zlen data <= ls_spool_storage_size -> program raw off data p = (r, p') -> programs off data p r p'.
Proof.
  intros Hi Hd Ho Hb H. pose proof H as H'. unfold program in *.
  apply (program_raw raw) in H as (?&?&?&?); try done; [|lia]. split; try done.
  intros [Hu Hm] Hl Hn. rewrite spool_size_value in *.
  apply (program_live raw _ _ ls_spool_storage_size) in H' as (?&?&?&?);
    rewrite ?spool_size_value; try done; unfold LS_STORAGE_MAX_WRITE_SIZE, SIZE_MAX in *; lia.
Qed.

Lemma slot_program s o data p r p' : inv (snd (dev p)) -> bytes_ok data -> in_range s -> 0 <= o ->
  o + zlen data <= record_size -> program raw (slot_offset s + o) data p = (r, p') ->
  programs (slot_offset s + o) data p r p' /\ outside (slot_offset s) record_size (medium p) (medium p').
Proof.
  intros Hi Hd Hs Ho Hb H. pose proof (slot_inside s Hs).
  apply program_programs in H; [|done|done|lia|lia]. split; [done|].
  eapply torn_outside; [by eapply pg_torn|lia|lia].
Qed.

(** *** Appending *)

Lemma count_quiet l n p r p' : Forall in_range l -> inv (snd (dev p)) -> count_loop raw l n p = (r, p') -> quiet p p'.
Proof.
  revert n p. induction l as [|i l IH]; intros n p Hl Hi H; cbn [count_loop] in H.
  - injection H as <- <-. by apply quiet_refl.
  - apply Forall_cons in Hl as [Hr Hl]. destruct (read_record raw i p) as [rr p1] eqn:Er.
    apply read_record_quiet in Er as (Hq & _); [|done|done]. destruct rr; [|by injection H as <- <-].
    eapply quiet_trans; [done|]. eapply IH; [done|by destruct Hq|exact H].
Qed.

(** Counters may move, nothing else of the runtime. *)
Definition watermark_only (m m' : spool_runtime E) : Prop := exists w, m' = with_watermark w m.

Lemma watermark_refl m : watermark_only m m.
Proof. exists (spool_high_watermark m). by destruct m. Qed.

Lemma update_watermark_spec p r p' : inv (snd (dev p)) -> update_watermark raw p = (r, p') ->
  r = LS_OK /\ inv (snd (dev p')) /\ medium p' = medium p /\ watermark_only (ram p) (ram p').
Proof.
  intros Hi H. unfold update_watermark in H. destruct (count_loop raw slots 0 p) as [n p1] eqn:Ec.
  apply count_quiet in Ec as [Q1 Q2 Q3 Q4]; [|apply slots_in_range|done].
  destruct (_ <? n); injection H as <- <-; (split; [done|]); split_and!; try done.
  - exists n. unfold ram in *. simpl. by rewrite Q1.
  - rewrite Q1. apply watermark_refl.
Qed.

(** The slot before the commit byte is programmed: not committed. *)
Lemma uncommitted c s : in_range s -> ls_spool_storage_size <= zlen c ->
  slice (slot_offset s + offset_state) 1 c = [0xff] -> entry_in c s = None.
Proof.
  intros Hs Hz Hb. unfold entry_in, is_committed. rewrite record_in_fields by done. cbn [rec_state].
  unfold field_in. unfold offset_state in Hb. rewrite Hb. rewrite andb_false_r. done.
Qed.

Record holds_record (c : list Z) (s : Z) (rec : spool_record_t) (data : list Z) : Prop := {
  hr_record : record_in c s = with_state SPOOL_RECORD_COMMITTED 0xff rec;
  hr_payload : payload_in c s (zlen data) = data;
}.

(** A point of an append to the free slot [s] before its commit. *)
Section Append.
Context (s : Z) (data : list Z) (rec : spool_record_t) (p0 : @sstate E D).
Context (Hs : in_range s) (Hdata : bytes_ok data) (Hlen : 0 < zlen data <= LS_MAX_EVENT_SIZE).
Context (Hrec : record_ok rec) (Hstate : rec_state rec = 0xff) (Hretry : rec_retry_bits rec = 0xff).
Context (Hfree : slot_free (medium p0) s).

(** The payload area has not been programmed either. *)
Definition payload_blank (c : list Z) (s n : Z) : Prop :=
  slice (slot_offset s + spool_record_bytes) n c = fill n 0xff.

Definition fit_and_live : Prop := units_fit /\ live (raw_of p0) /\ payload_blank (medium p0) s (zlen data).

Record prepared (q : @sstate E D) : Prop := {
  pr_inv : inv (snd (dev q));
  pr_ram : ram q = ram p0;
  pr_outside : outside (slot_offset s) record_size (medium p0) (medium q);
  pr_state : slice (slot_offset s + offset_state) 1 (medium q) = [0xff];
  pr_live : fit_and_live -> live (raw_of q);
}.

Lemma prepared_quiet q q' : prepared q -> quiet q q' -> prepared q'.
Proof. intros [] []. split; try congruence; auto. Qed.

Lemma prepared_size q : prepared q -> ls_spool_storage_size <= zlen (medium q).
Proof. intros []. by apply medium_size. Qed.

Lemma prepared_start : inv (snd (dev p0)) -> prepared p0.
Proof.
  intros Hi. split; try done; [|by intros (_&?&_)]. pose proof (slot_inside s Hs). unfold slot_free in Hfree.
  apply (f_equal (slice 24 1)) in Hfree. unfold spool_record_bytes in *.
  rewrite slice_slice, slice_fill in Hfree by lia. done.
Qed.

(** The header: torn it leaves the state byte, whole it is the record. *)
Lemma header_step q r q' : prepared q -> medium q = medium p0 ->
  program raw (slot_offset s) (spool_record_pack rec) q = (r, q') ->
  prepared q' /\ (r = LS_OK -> medium q' = splice (slot_offset s) (spool_record_pack rec) (medium p0)) /\
  (fit_and_live -> r = LS_OK).
Proof.
  intros Hp Hq H. pose proof Hp as [P1 P2 P3 P4 P5]. pose proof (slot_inside s Hs).
  change record_size with 4124 in *. rewrite <- (Z.add_0_r (slot_offset s)) in H.
  apply slot_program in H as [[G1 G2 G3 G4 G5] Ho]; [|done|apply bytes_ok_pack|done|lia|
    rewrite record_pack_zlen; change record_size with 4124; unfold spool_record_bytes; lia].
  rewrite Z.add_0_r in *. rewrite Hq in *.
  assert (fit_and_live -> r = LS_OK /\ live (raw_of q')) as Hl.
  { intros Hf. apply G5; [apply Hf|auto|]. rewrite record_pack_zlen, Hfree. apply nor_legal_erased. }
  split; [|split; [done|intros Hf; by apply Hl]]. split; try done; [congruence| |intros Hf; by apply Hl].
  rewrite (torn_agree (slot_offset s) (spool_record_pack rec) (slot_offset s + offset_state) 1 (medium p0)); try done;
    unfold offset_state in *; try lia.
  - rewrite record_pack_zlen. unfold spool_record_bytes. lia.
  - rewrite P4. replace (slot_offset s + 24 - slot_offset s) with 24 by lia. unfold spool_record_pack. rewrite Hstate.
    reflexivity.
Qed.

Lemma payload_step q r q' : prepared q -> medium q = splice (slot_offset s) (spool_record_pack rec) (medium p0) ->
  program raw (slot_offset s + spool_record_bytes) data q = (r, q') ->
  prepared q' /\ (fit_and_live -> r = LS_OK) /\
  (r = LS_OK -> record_in (medium q') s = rec /\ payload_in (medium q') s (zlen data) = data).
Proof.
  intros Hp Hq H. pose proof Hp as [P1 P2 P3 P4 P5]. pose proof (slot_inside s Hs). pose proof (prepared_size q Hp) as Hz.
  change record_size with 4124 in *. unfold LS_MAX_EVENT_SIZE in *.
  apply slot_program in H as [[G1 G2 G3 G4 G5] Ho]; [|done|done|done|unfold spool_record_bytes; lia|
    change record_size with 4124; unfold spool_record_bytes; lia].
  assert (zlen (spool_record_pack rec) = 28) as Hz28 by apply record_pack_zlen. unfold spool_record_bytes in *.
  assert (zlen (medium p0) = zlen (medium q)) as Hz0 by (destruct P3; congruence).
  assert (fit_and_live -> r = LS_OK /\ live (raw_of q')) as Hl.
  { intros Hf. apply G5; [apply Hf|auto|]. rewrite Hq, slice_splice_disjoint by lia.
    destruct Hf as (_ & _ & Hbl). unfold payload_blank, spool_record_bytes in Hbl. rewrite Hbl. apply nor_legal_erased. }
  split; [|split; [intros Hf; by apply Hl|]].
  - split; try done; [congruence|by eapply outside_trans| |intros Hf; by apply Hl].
    rewrite <- P4. eapply torn_slice_disjoint; [done|unfold offset_state; lia..].
  - intros Hr. rewrite (G4 Hr). unfold record_in, payload_in, spool_record_bytes.
    rewrite slice_splice_disjoint by lia. rewrite slice_splice_same by lia. split; [|done].
    rewrite Hq. rewrite <- Hz28, slice_splice_same by lia. by apply record_roundtrip.
Qed.

(** The commit byte decides. *)
Lemma commit_step q r q' : prepared q -> record_in (medium q) s = rec -> payload_in (medium q) s (zlen data) = data ->
  program raw (slot_offset s + offset_state) [SPOOL_RECORD_COMMITTED] q = (r, q') ->
  ram q' = ram p0 /\ inv (snd (dev q')) /\ outside (slot_offset s) record_size (medium p0) (medium q') /\
  (entry_in (medium q') s = None \/ holds_record (medium q') s rec data) /\
  (r = LS_OK -> holds_record (medium q') s rec data) /\
  (fit_and_live -> r = LS_OK /\ live (raw_of q')).
Proof.
  intros Hp Hr Hpl H. pose proof Hp as [P1 P2 P3 P4 P5]. pose proof (slot_inside s Hs). pose proof (prepared_size q Hp) as Hz.
  change record_size with 4124 in *. apply slot_program in H as [[G1 G2 G3 G4 G5] Ho];
    [|done|by apply Forall_singleton|done|unfold offset_state; lia|change record_size with 4124; by vm_compute].
  assert (holds_record (splice (slot_offset s + offset_state) [SPOOL_RECORD_COMMITTED] (medium q)) s rec data) as Hh.
  { split.
    - rewrite record_in_state, Hr, Hretry by done. done.
    - rewrite payload_in_splice by (done || unfold offset_state; lia). done. }
  split; [congruence|]. split; [done|]. split; [by eapply outside_trans|]. split; [|split].
  - apply torn_byte in G3 as [->| ->]; [|right; done|unfold offset_state; lia..]. left. by apply uncommitted.
  - intros Hok. by rewrite (G4 Hok).
  - intros Hf. apply G5; [apply Hf|auto|]. change (zlen [SPOOL_RECORD_COMMITTED]) with 1. rewrite P4. done.
Qed.

Record append_result (r : ls_result_t) (q : @sstate E D) : Prop := {
  ar_inv : inv (snd (dev q));
  ar_outside : outside (slot_offset s) record_size (medium p0) (medium q);
  ar_ram : watermark_only (ram p0) (ram q);
  ar_entry : entry_in (medium q) s = None \/ holds_record (medium q) s rec data;
  ar_ok : r = LS_OK -> holds_record (medium q) s rec data;
  ar_live : fit_and_live -> r = LS_OK;
}.

Lemma append_failed q r : prepared q -> r <> LS_OK -> ~ fit_and_live -> append_result r q.
Proof.
  intros Hp Hr Hl. pose proof (prepared_size q Hp). destruct Hp as [P1 P2 P3 P4 P5]. split; try done.
  - rewrite P2. apply watermark_refl.
  - left. by apply uncommitted.
Qed.

Lemma append_record_spec r q : inv (snd (dev p0)) -> append_record raw s data rec p0 = (r, q) -> append_result r q.
Proof.
  intros Hi H. pose proof (prepared_start Hi) as S0. unfold append_record in H. cbv zeta in H.
  apply and_then_inv in H as [[H Hr] | (p1 & H1 & H)].
  { apply hit_quiet in H as [Hq Hl]; [|done]. apply append_failed; [exact (prepared_quiet _ _ S0 Hq)|done|].
    intros Hf. apply Hr, Hl, Hf. }
  apply hit_quiet in H1 as [Hq1 _]; [|done]. pose proof (prepared_quiet _ _ S0 Hq1) as S1.
  apply and_then_inv in H as [[H Hr] | (p2 & H2 & H)].
  { apply header_step in H as (S2 & _ & Hl); [|done|by destruct Hq1]. apply append_failed; auto. }
  apply header_step in H2 as (S2 & M2 & _); [|done|by destruct Hq1]. specialize (M2 eq_refl).
  apply and_then_inv in H as [[H Hr] | (p3 & H3 & H)].
  { apply hit_quiet in H as [Hq Hl]; [|by destruct S2]. apply append_failed; [exact (prepared_quiet _ _ S2 Hq)|done|].
    intros Hf. apply Hr, Hl. by apply (pr_live _ S2). }
  apply hit_quiet in H3 as [Hq3 _]; [|by destruct S2]. pose proof (prepared_quiet _ _ S2 Hq3) as S3.
  rewrite <- (q_medium _ _ Hq3) in M2. apply and_then_inv in H as [[H Hr] | (p4 & H4 & H)].
  { apply payload_step in H as (S4 & Hl & _); [|done|done]. apply append_failed; auto. }
  apply payload_step in H4 as (S4 & _ & R4); [|done|done]. destruct (R4 eq_refl) as [R4a R4b].
  apply and_then_inv in H as [[H Hr] | (p5 & H5 & H)].
  { apply sync_quiet in H as [Hq Hl]; [|by destruct S4]. apply append_failed; [exact (prepared_quiet _ _ S4 Hq)|done|].
    intros Hf. apply Hr, Hl. by apply (pr_live _ S4). }
  apply sync_quiet in H5 as [Hq5 _]; [|by destruct S4]. pose proof (prepared_quiet _ _ S4 Hq5) as S5.
  apply and_then_inv in H as [[H Hr] | (p6 & H6 & H)].
  { apply hit_quiet in H as [Hq Hl]; [|by destruct S5]. apply append_failed; [exact (prepared_quiet _ _ S5 Hq)|done|].
    intros Hf. apply Hr, Hl. by apply (pr_live _ S5). }
  apply hit_quiet in H6 as [Hq6 _]; [|by destruct S5]. pose proof (prepared_quiet _ _ S5 Hq6) as S6.
  assert (medium p6 = medium p4) as M6 by (rewrite (q_medium _ _ Hq6); apply (q_medium _ _ Hq5)).
  rewrite <- M6 in R4a, R4b. apply and_then_inv in H as [[H Hr] | (p7 & H7 & H)].
  { apply commit_step in H as (C1 & C2 & C3 & C4 & C5 & C6); [|done..]. split; try done.
    - rewrite C1. apply watermark_refl.
    - intros Hf. by apply C6. }
  apply commit_step in H7 as (C1 & C2 & C3 & C4 & C5 & C6); [|done..]. specialize (C5 eq_refl).
  apply and_then_inv in H as [[H Hr] | (p8 & H8 & H)].
  { apply sync_quiet in H as [[Q1 Q2 Q3 Q4] Hl]; [|done]. split; rewrite ?Q3; try done; auto.
    - rewrite Q1, C1. apply watermark_refl.
    - intros Hf. apply Hl. by apply C6. }
  apply sync_quiet in H8 as [[Q1 Q2 Q3 Q4] _]; [|done].
  apply update_watermark_spec in H as (-> & W1 & W2 & W3); [|done].
  split; rewrite ?W2, ?Q3; try done; auto. by rewrite Q1, C1 in W3.
Qed.
End Append.

(** The first free slot of those tried. *)
Lemma find_empty_loop_spec l p r p' : Forall in_range l -> inv (snd (dev p)) -> find_empty_loop raw l p = (r, p') ->
  quiet p p' /\ r <> Err LS_OK /\
  (forall s, r = Ok s -> exists pre post, l = pre ++ s :: post /\ slot_free (medium p) s /\
     Forall (fun i => ~ slot_free (medium p) i) pre) /\
  (live (raw_of p) -> forall e, r = Err e -> e = LS_ENOSPACE /\ Forall (fun i => ~ slot_free (medium p) i) l).
Proof.
  revert p. induction l as [|i l IH]; intros p Hl Hi H; cbn [find_empty_loop] in H.
  - injection H as <- <-. split_and!; [by apply quiet_refl|done|done|]. intros _ e [= <-]. done.
  - apply Forall_cons in Hl as [Hr Hl]. pose proof (slot_inside i Hr).
    destruct (on_raw _ p) as [re p1] eqn:Ee.
    apply is_erased_quiet in Ee as (Hq & Hx & Hn & Hlv);
      [|done|change record_size with 4124 in *; unfold spool_record_bytes; lia..].
    destruct re as [e|e].
    + specialize (Hx e eq_refl). fold (slot_free (medium p) i) in Hx. destruct e.
      * injection H as <- <-. split_and!; try done. intros s [= <-]. exists [], l. split_and!; try done. by apply Hx.
      * assert (~ slot_free (medium p) i) as Hnf by (intros Hf; by apply Hx in Hf).
        apply IH in H as (Hq' & Hn' & Hs & Hlv'); [|done|by destruct Hq]. rewrite (q_medium _ _ Hq) in *.
        split; [by eapply quiet_trans|]. split; [done|]. split.
        -- intros s Hr'. destruct (Hs s Hr') as (pre & post & -> & Hf & Hp). exists (i :: pre), post. auto.
        -- intros H' x Hx'. destruct (Hlv' (q_live _ _ Hq H') x Hx'). auto.
    + injection H as <- <-. split; [done|]. split; [congruence|]. split; [done|].
      intros H'. by destruct (Hlv H').
Qed.

(** The envelope's header fields fit the record. *)
Lemma fresh_record_ok data prio info : bytes_ok data -> ls_envelope_validate (Some data) = Ok info ->
  record_ok (fresh_record data prio info).
Proof.
  intros Hb Hv. apply envelope_decodes in Hv as (body & auth & [] & _); [|done].
  unfold record_ok, fresh_record.
  cbn [rec_magic rec_version rec_length rec_sequence rec_data_crc rec_priority rec_event_type rec_reserved
    rec_header_crc rec_state rec_retry_bits rec_reserved_after_state].
  split_and!; try apply crc32_range; try apply u16_range; try apply u8_range; try done; by vm_compute.
Qed.

Lemma fresh_record_valid data prio info : 0 < zlen data <= LS_MAX_EVENT_SIZE -> 0 <= prio <= LS_PRIORITY_DIAGNOSTIC ->
  LS_EVENT_CRASH <= type info <= LS_EVENT_COREDUMP -> record_valid (fresh_record data prio info) = true.
Proof.
  unfold LS_MAX_EVENT_SIZE, LS_PRIORITY_DIAGNOSTIC. intros Hl Hp Ht. unfold record_valid.
  replace (rec_header_crc _ =? _) with true by (symmetry; apply Z.eqb_eq; reflexivity).
  unfold fresh_record. cbn [rec_magic rec_version rec_length rec_priority rec_event_type].
  rewrite u16_id, u8_id by (unfold is_u16, is_u8; lia). unfold LS_MAX_EVENT_SIZE, LS_PRIORITY_DIAGNOSTIC.
  repeat (apply andb_true_intro; split); try done; apply Z.leb_le || apply Z.ltb_lt; lia.
Qed.

(** What the slot of a new record holds. *)
Definition stored_record (data : list Z) (prio : Z) (info : ls_envelope_info_t) : spool_record_t :=
  with_state SPOOL_RECORD_COMMITTED 0xff (fresh_record data prio info).

Lemma holds_entry c s data prio info : 0 < zlen data <= LS_MAX_EVENT_SIZE -> 0 <= prio <= LS_PRIORITY_DIAGNOSTIC ->
  LS_EVENT_CRASH <= type info <= LS_EVENT_COREDUMP -> holds_record c s (fresh_record data prio info) data ->
  entry_in c s = Some (stored_record data prio info, data).
Proof.
  intros Hl Hp Ht [Hr Hd]. unfold entry_in. rewrite Hr. fold (stored_record data prio info).
  assert (is_committed (stored_record data prio info) = true) as ->.
  { unfold is_committed, stored_record. rewrite with_state_valid, fresh_record_valid by done. done. }
  change (rec_length (stored_record data prio info)) with (u16 (zlen data)).
  rewrite u16_id, Hd by (unfold is_u16, LS_MAX_EVENT_SIZE in *; lia). done.
Qed.

Lemma slot_limit_range prio : 0 <= slot_limit_for_priority prio <= LS_SPOOL_MAX_RECORDS.
Proof. unfold slot_limit_for_priority. repeat case_if; vm_compute; split; discriminate. Qed.

Lemma slots_lookup k i : slots !! k = Some i <-> i = Z.of_nat k /\ in_range i.
Proof.
  unfold slots, in_range, LS_SPOOL_MAX_RECORDS. change (map Z.of_nat) with (fmap (M:=list) Z.of_nat).
  rewrite list_lookup_fmap. destruct (decide (k < 8)%nat).
  - rewrite lookup_seq_lt by lia. split; [intros [= <-]; simpl; lia|]. intros [-> ?]. done.
  - rewrite lookup_seq_ge by lia. split; [done|]. intros [-> ?]. lia.
Qed.

(** The slots tried for a priority. *)
Lemma tried_slots prio pre s post : take (Z.to_nat (slot_limit_for_priority prio)) slots = pre ++ s :: post ->
  in_range s /\ 0 <= s < slot_limit_for_priority prio /\ (forall i, 0 <= i < s -> i ∈ pre).
Proof.
  pose proof (slot_limit_range prio) as Hlim. set (n := slot_limit_for_priority prio) in *. intros H.
  assert (take (Z.to_nat n) slots !! length pre = Some s) as Hs by (rewrite H; by apply list_lookup_middle).
  apply lookup_take_Some in Hs as [[Hs Hr]%slots_lookup Hn]. split; [done|]. split; [lia|]. intros i Hi.
  apply (list_elem_of_lookup_2 pre (Z.to_nat i)).
  rewrite <- (lookup_app_l pre (s :: post)) by lia. rewrite <- H. apply lookup_take_Some.
  rewrite slots_lookup. unfold in_range in *. lia.
Qed.

Lemma tried_range prio : Forall in_range (take (Z.to_nat (slot_limit_for_priority prio)) slots).
Proof. apply Forall_take, slots_in_range. Qed.

Lemma tried_elem prio i : 0 <= i < slot_limit_for_priority prio ->
  i ∈ take (Z.to_nat (slot_limit_for_priority prio)) slots.
Proof.
  intros Hi. pose proof (slot_limit_range prio). apply (list_elem_of_lookup_2 _ (Z.to_nat i)), lookup_take_Some.
  rewrite slots_lookup. unfold in_range. lia.
Qed.

Lemma usable_true : usable (Some raw) = true.
Proof. unfold usable. rewrite (proj2 (Z.leb_le _ _)) by done. done. Qed.

(** The public function reduced to its working part. *)
Lemma append_unfold data prio p : 0 < zlen data <= LS_MAX_EVENT_SIZE -> prio <= LS_PRIORITY_DIAGNOSTIC ->
  ls_spool_append (E:=E) (Some raw) (Some data) prio p = append_with raw data prio p.
Proof.
  intros Hl Hp. unfold ls_spool_append. rewrite usable_true.
  rewrite (proj2 (Z.eqb_neq _ _)), !(proj2 (Z.ltb_ge _ _)) by lia. done.
Qed.

Lemma append_einval data prio p r p' : ls_spool_append (E:=E) (Some raw) (Some data) prio p = (r, p') ->
  (r = LS_EINVAL /\ p' = p) \/ 0 < zlen data <= LS_MAX_EVENT_SIZE /\ prio <= LS_PRIORITY_DIAGNOSTIC.
Proof.
  unfold ls_spool_append. destruct (_ || _) eqn:Ec; [intros [= <- <-]; by left|]. bool_prop.
  pose proof (zlen_nonneg data). right. lia.
Qed.

Lemma append_with_spec data prio info p r p' : inv (snd (dev p)) -> bytes_ok data ->
  0 < zlen data <= LS_MAX_EVENT_SIZE -> 0 <= prio <= LS_PRIORITY_DIAGNOSTIC ->
  ls_envelope_validate (Some data) = Ok info -> append_with raw data prio p = (r, p') ->
  (r <> LS_OK /\ inv (snd (dev p')) /\ medium p' = medium p /\
   (live (raw_of p) -> r = LS_ENOSPACE /\ ram p' = count_dropped (ram p) /\
      forall i, 0 <= i < slot_limit_for_priority prio -> ~ slot_free (medium p) i)) \/
  (exists s, 0 <= s < slot_limit_for_priority prio /\ in_range s /\ slot_free (medium p) s /\
     (forall i, 0 <= i < s -> ~ slot_free (medium p) i) /\
     exists q, quiet p q /\ append_result s data (fresh_record data prio info) q r p').
Proof.
  intros Hi Hd Hl Hp Hv H. unfold append_with in H. rewrite Hv in H.
  destruct (find_empty_slot raw prio p) as [rf p1] eqn:Ef.
  apply find_empty_loop_spec in Ef as (Hq & Hn & Hs & Hlv); [|apply tried_range|done].
  destruct rf as [s|e].
  - right. destruct (Hs s eq_refl) as (pre & post & Ht & Hf & Hpre).
    apply tried_slots in Ht as (Hr & Hlim & Hlow). exists s. split_and!; try done; try lia.
    + intros i Hlt. rewrite Forall_forall in Hpre. by apply Hpre, Hlow.
    + exists p1. split; [done|].
      apply append_record_spec in H; [exact H|exact Hr|exact Hd|exact Hl|by apply fresh_record_ok|reflexivity|
        reflexivity| |by destruct Hq]. by rewrite (q_medium _ _ Hq).
  - left. assert (r = e /\ inv (snd (dev p')) /\ medium p' = medium p /\
      (e = LS_ENOSPACE -> ram p' = count_dropped (ram p))) as (-> & Hi' & Hm & Hram).
    { pose proof (q_inv _ _ Hq). pose proof (q_medium _ _ Hq). pose proof (q_ram _ _ Hq) as Hra.
      destruct e; injection H as <- <-; split_and!; try done. intros _. unfold ram in *. simpl. by rewrite Hra. }
    split; [congruence|]. split; [done|]. split; [done|]. intros H'. destruct (Hlv H' e eq_refl) as [-> Hall].
    split_and!; auto. intros i Hir. rewrite Forall_forall in Hall. by apply Hall, tried_elem.
Qed.

(** *** Acknowledging and counting retries *)

Lemma acknowledge_spec s p r p' : in_range s -> inv (snd (dev p)) -> acknowledge_record raw s p = (r, p') ->
  ram p' = ram p /\ inv (snd (dev p')) /\
  (medium p' = medium p \/ medium p' = splice (slot_offset s + offset_state) [SPOOL_RECORD_ACKED] (medium p)) /\
  (r = LS_OK -> medium p' = splice (slot_offset s + offset_state) [SPOOL_RECORD_ACKED] (medium p)) /\
  (units_fit -> live (raw_of p) -> r = LS_OK /\ live (raw_of p')).
Proof.
  intros Hs Hi H. pose proof (slot_inside s Hs) as Hin. pose proof (medium_size p Hi) as Hz. change record_size with 4124 in *.
  assert (forall r q, set_record_state raw s SPOOL_RECORD_ACKED p = (r, q) ->
    ram q = ram p /\ inv (snd (dev q)) /\
    (medium q = medium p \/ medium q = splice (slot_offset s + offset_state) [SPOOL_RECORD_ACKED] (medium p)) /\
    (r = LS_OK -> medium q = splice (slot_offset s + offset_state) [SPOOL_RECORD_ACKED] (medium p)) /\
    (units_fit -> live (raw_of p) -> r = LS_OK /\ live (raw_of q))) as Hset.
  { intros r1 q Hq. apply slot_program in Hq as [[G1 G2 G3 G4 G5] _];
      [|done|by apply Forall_singleton|done|by vm_compute|by vm_compute].
    split_and!; try done.
    - apply torn_byte in G3; [done|unfold offset_state; lia..].
    - intros Hu Hl. apply G5; [done|done|].
      destruct (slice _ _ _) as [|o [|]]; try done; simpl; by rewrite Z.land_0_r. }
  apply and_then_inv in H as [[H Hr]|(q & H1 & H)].
  - apply Hset in H as (?&?&?&?&?). split_and!; try done.
  - apply Hset in H1 as (A1 & A2 & A3 & A4 & A5). apply sync_quiet in H as [[Q1 Q2 Q3 Q4] Ql]; [|done].
    rewrite Q1, Q3. split_and!; try done; [by auto|]. intros Hu Hl. destruct (A5 Hu Hl). auto.
Qed.

Lemma clear_lowest_u8 n bit bits : is_u8 bits -> is_u8 (clear_lowest n bit bits).
Proof.
  revert bit. induction n as [|n IH]; intros bit Hb; cbn [clear_lowest]; [done|].
  case_if; [apply u8_range|by apply IH].
Qed.

Lemma increment_retries_spec s b p r p' : in_range s -> is_u8 b -> inv (snd (dev p)) ->
  increment_retries raw s b p = (r, p') ->
  (ram p' = ram p \/ ram p' = count_saturated (ram p)) /\ inv (snd (dev p')) /\
  (medium p' = medium p \/ exists v, is_u8 v /\ medium p' = splice (slot_offset s + offset_retry_bits) [v] (medium p)).
Proof.
  intros Hs Hb Hi H. unfold increment_retries in H. pose proof (slot_inside s Hs) as Hin. pose proof (medium_size p Hi) as Hz.
  change record_size with 4124 in *. pose proof (clear_lowest_u8 8 0 b Hb) as Hv.
  destruct (_ =? b); [injection H as <- <-; split_and!; try done; [by right|by left]|].
  assert (forall r q, program raw (slot_offset s + offset_retry_bits) [clear_lowest 8 0 b] p = (r, q) ->
    ram q = ram p /\ inv (snd (dev q)) /\
    (medium q = medium p \/ medium q = splice (slot_offset s + offset_retry_bits) [clear_lowest 8 0 b] (medium p)))
    as Hset.
  { intros r1 q Hq. apply slot_program in Hq as [[G1 G2 G3 G4 G5] _];
      [|done|by apply Forall_singleton|done|by vm_compute|by vm_compute].
    split_and!; try done. apply torn_byte in G3; [done|unfold offset_retry_bits; lia..]. }
  apply and_then_inv in H as [[H _]|(q & H1 & H)].
  - apply Hset in H as (?&?&[?|?]); split_and!; eauto.
  - apply Hset in H1 as (A1 & A2 & A3). apply sync_quiet in H as [[Q1 Q2 Q3 Q4] _]; [|done].
    rewrite Q1, Q3. destruct A3; split_and!; eauto.
Qed.

(** *** Selection *)

Definition first_step (sel : option (Z * spool_record_t)) (i : Z) (rec : spool_record_t) : option (Z * spool_record_t) :=
  if is_committed rec then
    if match sel with None => true | Some (_, s) => goes_before rec s end then Some (i, rec) else sel
  else sel.

Lemma first_loop_quiet p r p' : inv (snd (dev p)) -> first_loop raw slots None p = (r, p') ->
  quiet p p' /\ (forall x, r = Ok x -> x = slot_fold first_step (medium p) slots None) /\ r <> Err LS_OK /\
  (live (raw_of p) -> exists x, r = Ok x).
Proof.
  intros Hi H. eapply (slot_fold_quiet first_step (first_loop raw)); [done| |apply slots_in_range|done|exact H].
  intros i l a q. cbn [first_loop]. destruct (read_record raw i q) as [[x|e] q1]; [|done].
  unfold first_step, is_committed. destruct (record_valid x); cbn [negb orb andb]; [|done].
  destruct (_ =? _); done.
Qed.

Lemma first_fold_spec c l sel : (forall s rec, sel = Some (s, rec) -> rec = record_in c s /\ is_committed rec = true) ->
  match slot_fold first_step c l sel with
  | None => sel = None /\ forall i, i ∈ l -> is_committed (record_in c i) = false
  | Some (s, rec) => (sel = Some (s, rec) \/ s ∈ l) /\ rec = record_in c s /\ is_committed rec = true
  end.
Proof.
  revert sel. induction l as [|i l IH]; intros sel Hsel; cbn [slot_fold].
  - destruct sel as [[s rec]|]; [destruct (Hsel s rec eq_refl); auto|]. split; [done|]. intros i []%elem_of_nil.
  - assert (forall s rec, first_step sel i (record_in c i) = Some (s, rec) -> rec = record_in c s /\ is_committed rec = true)
      as Hstep.
    { intros s rec. unfold first_step. destruct (is_committed (record_in c i)) eqn:Ec; [|apply Hsel].
      destruct (match sel with None => _ | Some _ => _ end); [by intros [= <- <-]|apply Hsel]. }
    specialize (IH _ Hstep). destruct (slot_fold _ _ _ _) as [[s rec]|].
    + destruct IH as ([Hs|Hs] & IH); (split; [|done]); [|right; by right]. unfold first_step in Hs.
      destruct (is_committed _); [destruct (match sel with None => _ | Some _ => _ end)|]; auto.
      injection Hs as <- <-. right. by left.
    + destruct IH as [Hn IH]. unfold first_step in Hn. destruct (is_committed (record_in c i)) eqn:Ec.
      * destruct sel as [[s rec]|]; [destruct (goes_before _ _); done|done].
      * split; [done|]. intros j [->|Hj]%elem_of_cons; auto.
Qed.

(** *** Erasing *)

Lemma erase_spool_spec p r p' : inv (snd (dev p)) -> erase_spool raw p = (r, p') ->
  ram p' = ram p /\ inv (snd (dev p')) /\
  (r = LS_OK -> medium p' = splice 0 (fill ls_spool_storage_size 0xff) (medium p)) /\
  (is_Some (erase raw) -> ls_spool_storage_size mod erase_size raw = 0 -> live (raw_of p) ->
   r = LS_OK /\ live (raw_of p')).
Proof.
  intros Hi H. unfold erase_spool in H. cbv zeta in H. destruct (erase raw) as [e|] eqn:Ee.
  2: { injection H as <- <-. split_and!; try done. }
  destruct (_ && _) eqn:Eb.
  { injection H as <- <-. split_and!; try done. intros _ Hm. rewrite Hm, andb_false_r in Eb. done. }
  assert (0 <= ls_spool_storage_size) as Hz by (rewrite spool_size_value; lia).
  assert (forall r q, raw_erase raw 0 ls_spool_storage_size p = (r, q) ->
    ram q = ram p /\ inv (snd (dev q)) /\
    (r = LS_OK -> medium q = splice 0 (fill ls_spool_storage_size 0xff) (medium p)) /\
    (live (raw_of p) -> r = LS_OK /\ live (raw_of q))) as He.
  { intros r1 q Hq. pose proof Hq as Hq'. apply (erase_raw raw) in Hq as (?&?&?&?); try done; try lia.
    split; [done|]. split; [done|]. split; [done|]. intros Hl.
    apply (raw_erase_live raw) in Hq' as (?&?&?&?); try done; lia. }
  apply and_then_inv in H as [[H Hr]|(q & H1 & H)].
  - apply He in H as (?&?&?&?). split_and!; try done.
  - apply He in H1 as (A1 & A2 & A3 & A4). apply sync_quiet in H as [[Q1 Q2 Q3 Q4] Ql]; [|done].
    rewrite Q1, Q3. split_and!; try done; [by auto|]. intros _ _ Hl. destruct (A4 Hl). auto.
Qed.

(** The header area: the bytes before the first slot. *)
Lemma header_outside i c c' : in_range i -> (exists o d, 0 <= o /\ o + zlen d <= spool_header_size /\ torn o d c c') ->
  entry_in c' i = entry_in c i /\ (slot_free c i -> slot_free c' i).
Proof.
  intros Hi (o & d & Ho & Hb & Ht). pose proof (slot_inside i Hi). unfold spool_header_size in *.
  assert (forall k n, 0 <= k -> 0 <= n -> slice (slot_offset i + k) n c' = slice (slot_offset i + k) n c) as Hs.
  { intros k n Hk Hn. eapply torn_slice_disjoint; [done|lia..]. }
  specialize (Hs 0) as Hs0. rewrite Z.add_0_r in Hs0. split.
  - unfold entry_in, record_in, payload_in, spool_record_bytes. rewrite Hs0 by lia.
    destruct (is_committed _) eqn:Ec; [|done]. apply committed_inv in Ec as (_&_&?&_). rewrite Hs by lia. done.
  - unfold slot_free, spool_record_bytes. by rewrite Hs0 by lia.
Qed.

Lemma write_header_spec p r p' : inv (snd (dev p)) -> write_header raw p = (r, p') ->
  ram p' = ram p /\ inv (snd (dev p')) /\
  (forall i, in_range i -> entry_in (medium p') i = entry_in (medium p) i /\ (slot_free (medium p) i -> slot_free (medium p') i)) /\
  (units_fit -> live (raw_of p) -> slice 0 spool_header_size (medium p) = fill spool_header_size 0xff -> r = LS_OK).
Proof.
  intros Hi H. unfold write_header in H. set (h := spool_header_pack _) in H.
  assert (zlen h = 24) as Hh by apply spool_header_pack_zlen. assert (bytes_ok h) as Hhb by apply bytes_ok_pack.
  pose proof (medium_size p Hi) as Hz. rewrite spool_size_value in Hz.
  apply and_then_inv in H as [[H Hr]|(p1 & H1 & H)].
  { apply program_programs in H as [G1 G2 G3 G4 G5]; [|done|done|lia|rewrite spool_size_value; lia].
    split_and!; try done.
    - intros i Hir. apply header_outside; [done|]. exists 0, h. unfold spool_header_size. split_and!; [lia|lia|done].
    - intros Hu Hl Hb. destruct G5; try done. rewrite Hh. change 24 with spool_header_size. rewrite Hb. apply nor_legal_erased. }
  apply program_programs in H1 as [G1 G2 G3 G4 G5]; [|done|done|lia|rewrite spool_size_value; lia]. specialize (G4 eq_refl).
  assert (forall i, in_range i -> entry_in (medium p1) i = entry_in (medium p) i /\
    (slot_free (medium p) i -> slot_free (medium p1) i)) as Hs1.
  { intros i Hir. apply header_outside; [done|]. exists 0, h. unfold spool_header_size. split_and!; [lia|lia|done]. }
  assert (units_fit -> live (raw_of p) -> slice 0 spool_header_size (medium p) = fill spool_header_size 0xff ->
    live (raw_of p1)) as Hl1.
  { intros Hu Hl Hb. destruct G5; try done. rewrite Hh. change 24 with spool_header_size. rewrite Hb. apply nor_legal_erased. }
  apply and_then_inv in H as [[H Hr]|(p2 & H2 & H)].
  { apply sync_quiet in H as [[Q1 Q2 Q3 Q4] Ql]; [|done]. rewrite Q1, Q3. split_and!; try done. auto. }
  apply sync_quiet in H2 as [[Q1 Q2 Q3 Q4] Ql]; [|done].
  assert (forall r q, program raw offset_committed [SPOOL_HEADER_COMMITTED] p2 = (r, q) ->
    ram q = ram p /\ inv (snd (dev q)) /\
    (forall i, in_range i -> entry_in (medium q) i = entry_in (medium p) i /\ (slot_free (medium p) i -> slot_free (medium q) i)) /\
    (units_fit -> live (raw_of p) -> slice 0 spool_header_size (medium p) = fill spool_header_size 0xff ->
     r = LS_OK /\ live (raw_of q))) as Hc.
  { intros rc q Hq. apply program_programs in Hq as [C1 C2 C3 C4 C5];
      [|done|by apply Forall_singleton|by vm_compute|by vm_compute]. rewrite Q3 in *.
    split; [congruence|]. split; [done|]. split.
    - intros i Hir. destruct (Hs1 i Hir) as [E1 F1]. rewrite <- E1.
      destruct (header_outside i (medium p1) (medium q)) as [E2 F2]; [done| |auto].
      exists offset_committed, [SPOOL_HEADER_COMMITTED]. split_and!; [by vm_compute|by vm_compute|done].
    - intros Hu Hl Hb. apply C5; [done|auto|]. rewrite G4. rewrite slice_splice_within by (rewrite ?Hh; try lia; by vm_compute).
      reflexivity. }
  apply and_then_inv in H as [[H Hr]|(p3 & H3 & H)].
  - apply Hc in H as (?&?&?&Hx). split_and!; try done. intros. by apply Hx.
  - apply Hc in H3 as (A1 & A2 & A3 & A4). apply sync_quiet in H as [[X1 X2 X3 X4] Xl]; [|done]. rewrite X1, X3.
    split_and!; try done. intros Hu Hl Hb. apply Xl. by apply A4.
Qed.

Lemma record_erased_iff c i : in_range i -> bytes_ok c -> ls_spool_storage_size <= zlen c ->
  record_is_erased (record_in c i) = true <-> slot_free c i.
Proof.
  intros Hi Hb Hz. pose proof (slot_inside i Hi). change record_size with 4124 in *.
  unfold record_is_erased, record_in, slot_free, spool_record_bytes.
  assert (zlen (slice (slot_offset i) 28 c) = 28) as Hs by (apply zlen_slice; lia).
  rewrite record_pack_unpack by (done || by apply bytes_ok_slice). rewrite forallb_erased. by rewrite Hs.
Qed.

Lemma drained_loop_spec l b p r p' : Forall in_range l -> inv (snd (dev p)) -> drained_loop raw l b p = (r, p') ->
  quiet p p' /\ r <> Err LS_OK /\ (live (raw_of p) -> exists x, r = Ok x) /\
  (forall x, r = Ok x ->
    match x with
    | None => exists i, i ∈ l /\ is_committed (record_in (medium p) i) = true
    | Some consumed => (forall i, i ∈ l -> is_committed (record_in (medium p) i) = false) /\
        (consumed = false -> b = false /\ forall i, i ∈ l -> slot_free (medium p) i)
    end).
Proof.
  revert b p. induction l as [|i l IH]; intros b p Hl Hi H; cbn [drained_loop] in H.
  - injection H as <- <-. split_and!; [by apply quiet_refl|done|by eexists|]. intros x [= <-].
    split; [intros i []%elem_of_nil|]. intros ->. split; [done|]. intros i []%elem_of_nil.
  - apply Forall_cons in Hl as [Hr Hl]. destruct (read_record raw i p) as [rr p1] eqn:Er.
    apply read_record_quiet in Er as (Hq & Hx & Hn & Hlv); [|done|done]. destruct rr as [rec|e].
    2: { injection H as <- <-. split; [done|]. split; [congruence|]. split; [|done]. intros H'. by destruct (Hlv H'). }
    specialize (Hx rec eq_refl) as ->. destruct (is_committed (record_in (medium p) i)) eqn:Ec.
    + injection H as <- <-. split; [done|]. split; [done|]. split; [by eexists|]. intros x [= <-].
      exists i. split; [by left|done].
    + apply IH in H as (Hq' & Hn' & Hlv' & Hx'); [|done|by destruct Hq]. rewrite (q_medium _ _ Hq) in *.
      split; [by eapply quiet_trans|]. split; [done|]. split; [intros H'; by apply Hlv', (q_live _ _ Hq)|].
      intros x Hok. specialize (Hx' x Hok). destruct x as [consumed|].
      * destruct Hx' as [Hall Hc]. split; [intros j [->|Hj]%elem_of_cons; auto|]. intros Hcf.
        destruct (Hc Hcf) as [Hb Hf]. destruct (record_is_erased (record_in (medium p) i)) eqn:Ee; [|done].
        apply record_erased_iff in Ee; [|done|by apply contents_bytes|by apply medium_size].
        split; [done|]. intros j [->|Hj]%elem_of_cons; auto.
      * destruct Hx' as (j & Hj & Hc). exists j. split; [by right|done].
Qed.

Lemma entry_none c i : entry_in c i = None <-> is_committed (record_in c i) = false.
Proof. unfold entry_in. by destruct (is_committed _). Qed.

(** Nothing is reclaimed while a committed record is left. *)
Lemma reclaim_spec p r p' : inv (snd (dev p)) -> reclaim_if_drained raw p = (r, p') ->
  ram p' = ram p /\ inv (snd (dev p')) /\
  ((exists i, in_range i /\ entry_in (medium p) i <> None) -> medium p' = medium p).
Proof.
  intros Hi H. unfold reclaim_if_drained in H. destruct (drained_loop raw slots false p) as [rd p1] eqn:Ed.
  apply drained_loop_spec in Ed as ([Q1 Q2 Q3 Q4] & _ & _ & Hx); [|apply slots_in_range|done].
  destruct rd as [[[|]|]|]; try by (injection H as <- <-).
  destruct (Hx _ eq_refl) as [Hnone _].
  assert (forall r q, (erase_spool raw ;;? write_header raw) p1 = (r, q) -> ram q = ram p /\ inv (snd (dev q))) as Hew.
  { intros r1 q Hq. apply and_then_inv in Hq as [[Hq _]|(p2 & H2 & Hq)].
    - apply erase_spool_spec in Hq as (E1 & E2 & _); [|done]. split; [congruence|done].
    - apply erase_spool_spec in H2 as (E1 & E2 & _); [|done].
      apply write_header_spec in Hq as (W1 & W2 & _); [|done]. split; [congruence|done]. }
  apply Hew in H as [? ?]. split_and!; try done. intros (i & Hir & He). destruct He. apply entry_none, Hnone.
  by apply slots_range.
Qed.

(** *** Flushing *)

Section Flush.
Context (whole : E -> list Z -> Prop) (piece : E -> ls_transport_fragment_t -> Prop).
Local Abbreviation world p := (ext (network (ram p))).
Local Abbreviation table p := (transports (network (ram p))).
Local Abbreviation corrupt p := (spool_corrupt_records (ram p)).
Local Abbreviation transports_ok p := (Forall (transport_ok whole piece) (table p)).

Lemma on_net_inv {A} (m : st (@nstate E) A) p a p' : on_net m p = (a, p') ->
  exists q, m {| faults := faults p; dev := network (ram p) |} = (a, q) /\
    ram p' = with_network (dev q) (ram p) /\ snd (dev p') = snd (dev p).
Proof. unfold on_net. destruct (m _) as [b q]. intros [= <- <-]. by exists q. Qed.

(** What steps of the flush keep: the transports, and what was received. *)
Record kept (p p' : @sstate E D) : Prop := {
  k_inv : inv (snd (dev p'));
  k_table : table p' = table p;
  k_world : keeps whole piece (world p) (world p');
}.

Lemma kept_ram p p' : inv (snd (dev p')) -> ram p' = ram p -> kept p p'.
Proof. intros Hi Hr. split; rewrite ?Hr; done. Qed.

Lemma kept_trans p p1 p2 : kept p p1 -> kept p1 p2 -> kept p p2.
Proof. intros [] []. split; [done|congruence|]. by eapply keeps_trans. Qed.

Lemma arrived_keeps e e' id d : keeps whole piece e e' -> arrived whole piece e id d -> arrived whole piece e' id d.
Proof. intros [Hw Hp] [H|(mtu & ? & ? & H)]; [left; auto|right]. exists mtu. auto. Qed.

(** The record is still there, up to its retry byte, or its envelope arrived. *)
Definition safe (rec : spool_record_t) (d : list Z) (i : Z) (p' : @sstate E D) : Prop :=
  (exists b, is_u8 b /\ entry_in (medium p') i = Some (with_state SPOOL_RECORD_COMMITTED b rec, d)) \/
  (exists info, ls_envelope_validate (Some d) = Ok info /\ arrived whole piece (world p') (event_id info) d).

Lemma entry_u8 c i rec d : in_range i -> bytes_ok c -> ls_spool_storage_size <= zlen c -> entry_in c i = Some (rec, d) ->
  rec = with_state SPOOL_RECORD_COMMITTED (rec_retry_bits rec) rec /\ is_u8 (rec_retry_bits rec) /\
  rec = record_in c i /\ d = payload_in c i (rec_length rec).
Proof.
  intros Hi Hb Hz H. unfold entry_in in H. destruct (is_committed (record_in c i)) eqn:Ec; [|done].
  injection H as <- <-. pose proof Ec as (_ & Hst & _)%committed_inv. split_and!; try done.
  - unfold with_state. rewrite <- Hst. by destruct (record_in c i).
  - rewrite record_in_fields by done. cbn [rec_retry_bits]. unfold field_in. pose proof (slot_inside i Hi).
    change record_size with 4124 in *.
    pose proof (le_get_range (slice (slot_offset i + 25) 1 c) ltac:(by apply bytes_ok_slice)) as Hr.
    rewrite zlen_slice in Hr by lia. exact Hr.
Qed.

Lemma safe_same rec d i p p' : in_range i -> inv (snd (dev p)) -> entry_in (medium p) i = Some (rec, d) ->
  medium p' = medium p -> safe rec d i p'.
Proof.
  intros Hi Hin He Hm. left. exists (rec_retry_bits rec).
  destruct (entry_u8 (medium p) i rec d) as (Hr & Hu & _); try done; [by apply contents_bytes|by apply medium_size|].
  split; [done|]. by rewrite Hm, He, <- Hr.
Qed.

(** The record's own bytes are not those of an envelope that was committed. *)
Definition damaged (rec : spool_record_t) (d : list Z) : Prop :=
  rec_data_crc rec <> ls_crc32 d \/ exists e, ls_envelope_validate (Some d) = Err e.

(** After [p] the storage refused to read the payload of the record in slot [s]. *)
Definition unreadable (s : Z) (rec : spool_record_t) (p : @sstate E D) : Prop :=
  exists q e q', kept p q /\ raw_read raw (slot_offset s + spool_record_bytes) (rec_length rec) q = (Err e, q').

(** One pass over the selected record: it is safe, or it is counted as corrupt with reason. *)
Record pass_result (s : Z) (rec : spool_record_t) (d : list Z) (p p' : @sstate E D) : Prop := {
  ps_kept : kept p p';
  ps_outside : outside (slot_offset s) record_size (medium p) (medium p');
  ps_fate : (corrupt p' = corrupt p /\ safe rec d s p') \/
            (corrupt p' = inc32 (corrupt p) /\ (damaged rec d \/ unreadable s rec p));
}.

Lemma ack_outside s p p' : in_range s -> inv (snd (dev p)) ->
  (medium p' = medium p \/ medium p' = splice (slot_offset s + offset_state) [SPOOL_RECORD_ACKED] (medium p)) ->
  outside (slot_offset s) record_size (medium p) (medium p').
Proof.
  intros Hs Hi [->| ->]; [apply outside_refl|]. pose proof (slot_inside s Hs). pose proof (medium_size p Hi).
  change record_size with 4124 in *. eapply (torn_outside _ _ (slot_offset s + offset_state) [SPOOL_RECORD_ACKED]).
  - apply torn_splice; unfold offset_state; rewrite ?zlen_cons, ?zlen_nil; lia.
  - unfold offset_state. lia.
  - unfold offset_state. rewrite zlen_cons, zlen_nil. lia.
Qed.

Lemma unreadable_before s rec p p1 : kept p p1 -> unreadable s rec p1 -> unreadable s rec p.
Proof. intros Hk (q & e & q' & Hq & He). exists q, e, q'. split; [by eapply kept_trans|done]. Qed.

(** Steps that touch neither medium nor the count. *)
Definition idle (p p' : @sstate E D) : Prop := kept p p' /\ medium p' = medium p /\ corrupt p' = corrupt p.

Lemma idle_refl p : inv (snd (dev p)) -> idle p p.
Proof. intros. split_and!; [by apply kept_ram|done|done]. Qed.

Lemma idle_trans p p1 p2 : idle p p1 -> idle p1 p2 -> idle p p2.
Proof. intros (?&?&?) (?&?&?). split_and!; [by eapply kept_trans|congruence|congruence]. Qed.

Lemma quiet_idle p p' : quiet p p' -> idle p p'.
Proof. intros [Hr Hi Hm _]. split_and!; [by apply kept_ram|done|by rewrite Hr]. Qed.

Lemma discard_corrupt_spec s rec d p0 p stop p' : in_range s -> idle p0 p -> damaged rec d \/ unreadable s rec p0 ->
  discard_corrupt raw s p = (stop, p') -> pass_result s rec d p0 p'.
Proof.
  intros Hs (K & M & C) Hwhy H. assert (inv (snd (dev p))) as Hi by (by destruct K). unfold discard_corrupt in H. cbn [set_ram] in H.
  destruct (acknowledge_record raw s _) as [r p1] eqn:Ea. apply acknowledge_spec in Ea as (A1 & A2 & A3 & _); [|done|done].
  injection H as <- <-. unfold ram in A1. simpl in A1. split.
  - eapply kept_trans; [exact K|]. split; [done|..]; unfold ram; rewrite A1; done.
  - rewrite <- M. by apply ack_outside.
  - right. unfold ram in *. rewrite A1. cbn [count_corrupt spool_corrupt_records]. by rewrite C.
Qed.

Lemma idle_net {A} (m : st (@nstate E) A) p a p' : inv (snd (dev p)) -> on_net m p = (a, p') ->
  (forall q, m {| faults := faults p; dev := network (ram p) |} = (a, q) ->
     net_keeps whole piece {| faults := faults p; dev := network (ram p) |} q) -> idle p p'.
Proof.
  intros Hi H Hk. apply on_net_inv in H as (q & Hm & Hr & Hs). destruct (Hk q Hm) as [Hk1 Hk2].
  split_and!; [split|..]; unfold FlashLayer.medium; rewrite ?Hr, ?Hs; done.
Qed.

Lemma select_idle prio size p t p' : inv (snd (dev p)) -> transports_ok p -> 0 <= size ->
  on_net (ls_transport_select prio size) p = (t, p') -> idle p p' /\ forall x, t = Some x -> x ∈ table p.
Proof.
  intros Hi Ht Hs H. split.
  - eapply idle_net; [done|exact H|]. intros q Hq. by apply (transport_select_net whole piece) in Hq as (?&_).
  - apply on_net_inv in H as (q & Hq & _). by apply (transport_select_net whole piece) in Hq as (_&_&?).
Qed.

Lemma send_idle t id d p r p' : inv (snd (dev p)) -> transport_ok whole piece t ->
  on_net (ls_transport_send (Some t) id (Some d)) p = (r, p') ->
  idle p p' /\ (r = LS_OK -> arrived whole piece (world p') id d).
Proof.
  intros Hi Ht H. split.
  - eapply idle_net; [done|exact H|]. intros q Hq. by apply (transport_send_delivers whole piece) in Hq as (?&_).
  - apply on_net_inv in H as (q & Hq & -> & _). by apply (transport_send_delivers whole piece) in Hq as (_&_&?).
Qed.

(** A pass whose changes are confined to the state byte after the envelope arrived. *)
Lemma acknowledged_pass s rec d info p p1 r p' : in_range s -> ls_envelope_validate (Some d) = Ok info ->
  idle p p1 -> arrived whole piece (world p1) (event_id info) d ->
  (hit "spool.before_ack" ;;? acknowledge_record raw s) p1 = (r, p') -> pass_result s rec d p p'.
Proof.
  intros Hs Hv (K1 & M1 & C1) Ha H.
  assert (kept p1 p' /\ corrupt p' = corrupt p1 /\ outside (slot_offset s) record_size (medium p1) (medium p'))
    as (K & C & O).
  { apply and_then_inv in H as [[H _]|(p2 & H2 & H)].
    - apply hit_quiet in H as [(K & M & C)%quiet_idle _]; [|by destruct K1]. rewrite M. done.
    - apply hit_quiet in H2 as [(K & M & C)%quiet_idle _]; [|by destruct K1].
      apply acknowledge_spec in H as (A1 & A2 & A3 & _); [|done|by destruct K].
      split; [eapply kept_trans; [done|by apply kept_ram]|]. rewrite A1. split; [done|]. rewrite <- M.
      apply ack_outside; [done|by destruct K|done]. }
  split; [by eapply kept_trans|by rewrite <- M1|left].
  split; [congruence|]. right. exists info. split; [done|]. eapply arrived_keeps; [by apply K|done].
Qed.

Lemma send_record_spec s rec d info p stop p' : in_range s -> inv (snd (dev p)) -> transports_ok p ->
  entry_in (medium p) s = Some (rec, d) -> 0 <= rec_length rec -> ls_envelope_validate (Some d) = Ok info ->
  send_record raw s rec d info p = (stop, p') -> pass_result s rec d p p'.
Proof.
  intros Hs Hi Ht He Hlen Hv H. unfold send_record in H.
  assert (forall q, idle p q -> pass_result s rec d p q) as Hidle.
  { intros q (K & M & C). split; try done; [rewrite M; apply outside_refl|left]. split; [done|]. by eapply safe_same. }
  destruct (on_net (ls_transport_select _ _) p) as [t p1] eqn:Es.
  apply select_idle in Es as [I1 Hin]; [|done..]. destruct t as [t|]; [|injection H as <- <-; by apply Hidle].
  assert (transport_ok whole piece t) as Hto by (rewrite Forall_forall in Ht; by apply Ht, Hin).
  destruct ((hit "spool.before_send" ;;? _) p1) as [r p2] eqn:E2.
  assert (idle p p2 /\ (r = LS_OK -> arrived whole piece (world p2) (event_id info) d)) as [I2 Ha].
  { apply and_then_inv in E2 as [[E2 Hr]|(p3 & E3 & E2)].
    - apply hit_quiet in E2 as [Q2%quiet_idle _]; [|by destruct I1 as [[]]]. split; [by eapply idle_trans|done].
    - apply hit_quiet in E3 as [Q3%quiet_idle _]; [|by destruct I1 as [[]]].
      apply send_idle in E2 as [I2 Ha]; [|by destruct Q3 as [[]]|done].
      split; [|done]. eapply idle_trans; [exact I1|]. by eapply idle_trans. }
  destruct (is_ok r) eqn:Er; cbn [negb] in H.
  - apply is_ok_true in Er. destruct ((hit "spool.before_ack" ;;? _) p2) as [ra p3] eqn:E3. injection H as <- <-.
    eapply acknowledged_pass; eauto.
  - cbn [set_ram] in H. destruct I2 as ([K1 K2 K3] & M & C).
    destruct (entry_u8 (medium p) s rec d) as (Hwr & Hbu & Hrec & Hpl);
      [done|by apply contents_bytes|by apply medium_size|done|].
    destruct (increment_retries raw s _ _) as [rr p4] eqn:E4. injection H as <- <-.
    apply increment_retries_spec in E4 as (R1 & R2 & R3); [|done|done|done].
    change (medium (set_dev _ p2)) with (medium p2) in R3. rewrite M in R3.
    assert (network (ram p4) = network (ram p2) /\ corrupt p4 = corrupt p2) as [N4 C4] by (destruct R1 as [-> | ->]; done).
    pose proof (medium_size p Hi) as Hz. pose proof (slot_inside s Hs). change record_size with 4124 in *.
    split; [split; rewrite ?N4; done| |left; split; [congruence|left]].
    + destruct R3 as [->|(v & Hv8 & ->)]; [apply outside_refl|].
      eapply (torn_outside _ _ (slot_offset s + offset_retry_bits) [v]); [apply torn_splice|..];
        change record_size with 4124; unfold offset_retry_bits; rewrite ?zlen_cons, ?zlen_nil; lia.
    + destruct R3 as [->|(v & Hv8 & ->)]; [exists (rec_retry_bits rec); rewrite He, <- Hwr; done|].
      exists v. split; [done|]. unfold entry_in. rewrite record_in_retry by done. rewrite <- Hrec.
      assert (is_committed rec = true) as Hc.
      { unfold entry_in in He. rewrite <- Hrec in He. by destruct (is_committed rec). }
      pose proof Hc as (_ & -> & _)%committed_inv.
      assert (is_committed (with_state SPOOL_RECORD_COMMITTED v rec) = true) as ->.
      { unfold is_committed in *. rewrite with_state_valid. apply andb_true_iff in Hc as [-> _]. done. }
      change (rec_length (with_state _ _ rec)) with (rec_length rec).
      rewrite payload_in_splice by (done || (unfold offset_retry_bits; lia)). by rewrite <- Hpl.
Qed.

Lemma flush_record_spec s rec d p stop p' : in_range s -> inv (snd (dev p)) -> transports_ok p ->
  entry_in (medium p) s = Some (rec, d) -> flush_record raw s rec p = (stop, p') -> pass_result s rec d p p'.
Proof.
  intros Hs Hi Ht He H. unfold flush_record in H. pose proof (slot_inside s Hs). change record_size with 4124 in *.
  assert (is_committed rec = true /\ d = payload_in (medium p) s (rec_length rec)) as [Hc Hd].
  { unfold entry_in in He. destruct (is_committed (record_in (medium p) s)) eqn:Ec; [|done]. by simplify_eq. }
  pose proof Hc as (_ & _ & Hl & _)%committed_inv. unfold LS_MAX_EVENT_SIZE in Hl.
  destruct (raw_read raw _ _ p) as [rd p1] eqn:Er. pose proof Er as Hread.
  apply read_quiet in Er as (Hq & Hx & _); [|done|unfold spool_record_bytes; lia..].
  pose proof (quiet_idle _ _ Hq) as Hidle. pose proof Hidle as (Hk & Hm & Hco).
  destruct rd as [data|e].
  2: { eapply discard_corrupt_spec; [done|exact Hidle| |exact H]. right. exists p, e, p1. split; [by apply kept_ram|exact Hread]. }
  specialize (Hx data eq_refl). fold (payload_in (medium p) s (rec_length rec)) in Hx. rewrite <- Hd in Hx. subst data.
  destruct (rec_data_crc rec =? ls_crc32 d) eqn:Ecrc; cbn [negb] in H; bool_prop;
    [|eapply discard_corrupt_spec; [done|exact Hidle|left; by left|exact H]].
  destruct (ls_envelope_validate (Some d)) as [info|e] eqn:Ev;
    [|eapply discard_corrupt_spec; [done|exact Hidle|left; right; by exists e|exact H]].
  apply (send_record_spec s rec d) in H as [P1 P2 P3]; [|done|by destruct Hk|by destruct Hk as [_ -> _]|by rewrite Hm|lia|done].
  rewrite Hm in P2. rewrite Hco in P3. split; [by eapply kept_trans|done|].
  destruct P3 as [?|[? [?|?]]]; [by left|right; by auto|right]. split; [done|]. right. by eapply unreadable_before.
Qed.

(** What became of the records: each is safe, or its slot is among those counted as
    corrupt, and with reason. *)
Definition all_safe (p p' : @sstate E D) (lost : list Z) : Prop :=
  forall i rec d, in_range i -> entry_in (medium p) i = Some (rec, d) ->
  safe rec d i p' \/ (i ∈ lost /\ (damaged rec d \/ unreadable i rec p)).

Definition accounted (p p' : @sstate E D) (lost : list Z) : Prop :=
  kept p p' /\ corrupt p' = u32 (corrupt p + zlen lost) /\ Forall in_range lost /\ all_safe p p' lost.

(** A safe record has a new retry byte at most. *)
Lemma safe_later rec d i p p1 p' lost : in_range i -> kept p p1 -> kept p1 p' -> all_safe p1 p' lost -> safe rec d i p1 ->
  safe rec d i p' \/ (i ∈ lost /\ (damaged rec d \/ unreadable i rec p)).
Proof.
  intros Hi Hk Hk' Hall [(b & Hb & He)|(info & Hv & Ha)].
  - destruct (Hall i _ d Hi He) as [[(b2 & Hb2 & He2)|Ha]|(Hin & Hwhy)]; [left; left; by exists b2|left; by right|right].
    split; [done|]. destruct Hwhy as [Hd|Hun]; [by left|right; by eapply unreadable_before].
  - left. right. exists info. split; [done|]. eapply arrived_keeps; [by apply Hk'|done].
Qed.

Lemma accounted_step s rec d p p1 p' lost : in_range s -> is_u32 (corrupt p) -> entry_in (medium p) s = Some (rec, d) ->
  pass_result s rec d p p1 -> accounted p1 p' lost -> exists more, zlen more <= 1 /\ accounted p p' (more ++ lost).
Proof.
  intros Hs Hu He [P1 P2 P3] (K & C & Hr & Hall).
  assert (exists more, zlen more <= 1 /\ corrupt p1 = u32 (corrupt p + zlen more) /\ Forall in_range more /\
    (safe rec d s p1 \/ (s ∈ more /\ (damaged rec d \/ unreadable s rec p)))) as (more & Hm & Hc & Hrm & Hfate).
  { destruct P3 as [[Hc Hsf]|[Hc Hwhy]].
    - exists []. rewrite zlen_nil, Z.add_0_r, u32_id by done. split; [lia|]. split; [done|]. split; [by apply List.Forall_nil|by left].
    - exists [s]. split; [done|]. split; [done|]. split; [by apply List.Forall_cons; [|apply List.Forall_nil]|right]. split; [by apply list_elem_of_singleton|done]. }
  exists more. split; [done|]. split; [by eapply kept_trans|]. split; [|split; [by apply Forall_app|]].
  - rewrite C, Hc, zlen_app. unfold u32. rewrite Zplus_mod_idemp_l. f_equal. lia.
  - assert (forall j x, j ∈ lost /\ x \/ j ∈ more /\ x -> j ∈ more ++ lost /\ x) as Happ
      by (intros j x [[? ?]|[? ?]]; (split; [apply elem_of_app; auto|done])).
    intros i rec' d' Hi He'. destruct (decide (i = s)) as [->|Hne].
    + rewrite He in He'. injection He' as <- <-. destruct Hfate as [Hsf|Hl]; [|right; auto].
      destruct (safe_later rec d s p p1 p' lost Hs P1 K Hall Hsf) as [?|?]; [by left|right; auto].
    + rewrite <- (entry_in_outside _ _ i s Hi Hne P2) in He'. destruct (Hall i rec' d' Hi He') as [?|[Hin Hwhy]]; [by left|right].
      apply Happ. left. split; [done|]. destruct Hwhy as [?|?]; [by left|right; by eapply unreadable_before].
Qed.

Lemma accounted_idle p p1 p' lost : idle p p1 -> accounted p1 p' lost -> accounted p p' lost.
Proof.
  intros (K & M & C) (K' & C' & Hr & Hall). split; [by eapply kept_trans|]. split; [by rewrite <- C|]. split; [done|].
  intros i rec d Hi He. rewrite <- M in He. destruct (Hall i rec d Hi He) as [?|[? [?|?]]]; [by left|right; by auto|right].
  split; [done|]. right. by eapply unreadable_before.
Qed.

Lemma accounted_nothing p p' : inv (snd (dev p)) -> is_u32 (corrupt p) -> kept p p' -> corrupt p' = corrupt p ->
  (forall i rec d, in_range i -> entry_in (medium p) i = Some (rec, d) -> medium p' = medium p) -> accounted p p' [].
Proof.
  intros Hi Hu K C M. split; [done|]. rewrite zlen_nil, Z.add_0_r, u32_id by done. split; [done|]. split; [by apply List.Forall_nil|].
  intros i rec d Hr He. left. eapply safe_same; try done. by eapply M.
Qed.

Lemma reclaim_accounted p r p' : inv (snd (dev p)) -> is_u32 (corrupt p) -> reclaim_if_drained raw p = (r, p') -> accounted p p' [].
Proof.
  intros Hi Hu H. apply reclaim_spec in H as (R1 & R2 & R3); [|done].
  apply accounted_nothing; [done|done|by apply kept_ram|by rewrite R1|]. intros i rec d Hr He. apply R3. exists i. by rewrite He.
Qed.

Lemma flush_passes_spec n p r p' : inv (snd (dev p)) -> transports_ok p -> is_u32 (corrupt p) ->
  flush_passes raw n p = (r, p') -> exists lost, zlen lost <= Z.of_nat n /\ accounted p p' lost.
Proof.
  revert p. induction n as [|n IH]; intros p Hi Ht Hu H; cbn [flush_passes] in H.
  { exists []. split; [done|]. by eapply reclaim_accounted. }
  destruct (first_loop raw slots None p) as [rf p1] eqn:Ef.
  apply first_loop_quiet in Ef as (Hidle%quiet_idle & Hx & _); [|done]. pose proof Hidle as ([K1 K2 K3] & M1 & C1).
  assert (is_u32 (corrupt p1)) as Hu1 by (by rewrite C1).
  destruct rf as [[[s rec]|]|e].
  - specialize (Hx _ eq_refl). pose proof (first_fold_spec (medium p) slots None ltac:(done)) as Hf. rewrite <- Hx in Hf.
    destruct Hf as ([?|Hs%slots_range] & Hrec & Hc); [done|].
    assert (entry_in (medium p1) s = Some (rec, payload_in (medium p1) s (rec_length rec))) as He.
    { unfold entry_in. rewrite M1, <- Hrec, Hc. done. }
    destruct (flush_record raw s rec p1) as [stop p2] eqn:Er.
    eapply flush_record_spec in Er; [|done|done|by rewrite K2|exact He].
    assert (exists lost, zlen lost <= Z.of_nat n /\ accounted p2 p' lost) as (lost & Hl & Hacc).
    { pose proof Er as [[KI KT KW] _ P3].
      assert (is_u32 (corrupt p2)) as Hu2 by (destruct P3 as [[-> _]|[-> _]]; [done|apply u32_range]).
      destruct stop as [r2|].
      - injection H as <- <-. exists []. split; [rewrite zlen_nil; lia|]. by apply accounted_nothing.
      - eapply IH in H; [exact H|done|by rewrite KT, K2|done]. }
    destruct (accounted_step s rec _ p1 p2 p' lost Hs Hu1 He Er Hacc) as (more & Hm & Hacc').
    exists (more ++ lost). split; [rewrite zlen_app; lia|]. by eapply accounted_idle.
  - exists []. split; [rewrite zlen_nil; lia|]. eapply accounted_idle; [exact Hidle|]. by eapply reclaim_accounted.
  - injection H as <- <-. exists []. split; [rewrite zlen_nil; lia|]. eapply accounted_idle; [exact Hidle|].
    by apply accounted_nothing.
Qed.
End Flush.

(** *** Draining on working storage and a working network *)

Section Drain.
Context (works : net E -> Prop).

(** The network accepts every envelope while no fault is injected. *)
Definition network_works : Prop :=
  forall prio id d f n, fault_injection_active f = false -> works n -> 0 < zlen d <= LS_MAX_EVENT_SIZE ->
  exists t n1 n2,
    ls_transport_select prio (zlen d) {| faults := f; dev := n |} = (Some t, {| faults := f; dev := n1 |}) /\
    ls_transport_send (Some t) id (Some d) {| faults := f; dev := n1 |} = (LS_OK, {| faults := f; dev := n2 |}) /\
    works n2.

Context (Hnet : network_works) (Hfit : units_fit) (Herase : is_Some (erase raw)).
Context (Hunits : ls_spool_storage_size mod erase_size raw = 0).

Record healthy (p : @sstate E D) : Prop := {
  he_inv : inv (snd (dev p));
  he_live : live (raw_of p);
  he_net : works (network (ram p));
}.

Definition acked (s : Z) (c : list Z) : list Z := splice (slot_offset s + offset_state) [SPOOL_RECORD_ACKED] c.

Lemma live_hit name p : live (raw_of p) -> hit name p = (LS_OK, p).
Proof. intros Hl. apply hit_inactive. by apply live_quiet in Hl. Qed.

Lemma quiet_healthy p p' : healthy p -> quiet p p' -> healthy p'.
Proof. intros [H1 H2 H3] [Q1 Q2 Q3 Q4]. split; [done|by apply Q4|]. by rewrite Q1. Qed.

Lemma acknowledge_healthy s p r p' : in_range s -> healthy p -> acknowledge_record raw s p = (r, p') ->
  r = LS_OK /\ healthy p' /\ medium p' = acked s (medium p).
Proof.
  intros Hs [H1 H2 H3] H. apply acknowledge_spec in H as (A1 & A2 & _ & A4 & A5); [|done|done].
  destruct (A5 Hfit H2) as [-> Hl]. split_and!; auto. split; [done|done|]. by rewrite A1.
Qed.

Lemma discard_healthy s p stop p' : in_range s -> healthy p -> discard_corrupt raw s p = (stop, p') ->
  stop = None /\ healthy p' /\ medium p' = acked s (medium p).
Proof.
  intros Hs Hh H. unfold discard_corrupt in H. cbn [set_ram] in H.
  destruct (acknowledge_record raw s _) as [r p1] eqn:Ea. injection H as <- <-.
  apply acknowledge_healthy in Ea as (-> & ? & ?); [done|done|]. by destruct Hh.
Qed.

Lemma send_record_healthy s rec d info p stop p' : in_range s -> healthy p -> rec_length rec = zlen d ->
  0 < zlen d <= LS_MAX_EVENT_SIZE -> send_record raw s rec d info p = (stop, p') ->
  stop = None /\ healthy p' /\ medium p' = acked s (medium p).
Proof.
  intros Hs [H1 H2 H3] Hl Hz H. unfold send_record in H. rewrite Hl in H.
  destruct (Hnet (rec_priority rec) (event_id info) d (faults p) (network (ram p))) as (t & n1 & n2 & S1 & S2 & Hw);
    [by apply live_quiet in H2|done|done|].
  unfold on_net in H at 1. rewrite S1 in H. cbn [faults dev] in H.
  set (p1 := {| faults := faults p; dev := (with_network n1 (ram p), snd (dev p)) |}) in H.
  assert (live (raw_of p1)) as L1 by exact H2. unfold and_then at 1 in H. rewrite live_hit in H by done.
  cbn [is_ok] in H. unfold on_net in H at 1. change (network (ram p1)) with n1 in H. change (faults p1) with (faults p) in H.
  rewrite S2 in H. cbn [is_ok negb faults dev] in H. set (p2 := {| faults := faults p; dev := _ |}) in H.
  assert (healthy p2) as Hh2 by (split; done). unfold and_then in H. rewrite live_hit in H by apply Hh2.
  cbn [is_ok] in H. destruct (acknowledge_record raw s p2) as [ra p3] eqn:Ea. injection H as <- <-.
  apply acknowledge_healthy in Ea as (-> & ? & ?); done.
Qed.

Lemma flush_record_healthy s p stop p' : in_range s -> healthy p -> is_committed (record_in (medium p) s) = true ->
  flush_record raw s (record_in (medium p) s) p = (stop, p') ->
  stop = None /\ healthy p' /\ medium p' = acked s (medium p).
Proof.
  intros Hs Hh Hc H. unfold flush_record in H. set (rec := record_in (medium p) s) in *.
  pose proof (slot_inside s Hs). change record_size with 4124 in *.
  pose proof Hc as (_ & _ & Hl & _)%committed_inv. unfold LS_MAX_EVENT_SIZE in Hl.
  destruct (raw_read raw _ _ p) as [rd p1] eqn:Er.
  apply read_quiet in Er as (Hq & Hx & _ & _); [|by destruct Hh|unfold spool_record_bytes; lia..].
  pose proof (quiet_healthy _ _ Hh Hq) as Hh1. rewrite <- (q_medium _ _ Hq).
  destruct rd as [data|e]; [|by apply discard_healthy in H].
  destruct (negb _); [by apply discard_healthy in H|]. specialize (Hx data eq_refl).
  pose proof (medium_size p (he_inv _ Hh)).
  assert (zlen data = rec_length rec) as Hzd by (rewrite Hx; apply zlen_slice; unfold spool_record_bytes; lia).
  destruct (ls_envelope_validate (Some data)) as [info|]; [|by apply discard_healthy in H].
  apply send_record_healthy in H; try done. rewrite Hzd. unfold LS_MAX_EVENT_SIZE. lia.
Qed.

(** Acknowledging removes exactly one committed record. *)
Definition committed_count (c : list Z) (l : list Z) : nat :=
  sum_list (map (fun i => if is_committed (record_in c i) then 1%nat else 0%nat) l).

Lemma acked_committed s c i : in_range s -> in_range i -> ls_spool_storage_size <= zlen c ->
  is_committed (record_in (acked s c) i) = if i =? s then false else is_committed (record_in c i).
Proof.
  intros Hs Hi Hz. pose proof (slot_inside s Hs). change record_size with 4124 in *. unfold acked.
  destruct (i =? s) eqn:Eis; bool_prop.
  - subst i. rewrite record_in_state by done. unfold is_committed. rewrite with_state_valid. apply andb_false_r.
  - erewrite (record_in_outside c _ i s); [done|done|done|].
    eapply (torn_outside _ _ (slot_offset s + offset_state) [SPOOL_RECORD_ACKED]); [apply torn_splice|..];
      change record_size with 4124; unfold offset_state; rewrite ?zlen_cons, ?zlen_nil; lia.
Qed.

Lemma acked_count s c l : in_range s -> Forall in_range l -> ls_spool_storage_size <= zlen c -> NoDup l -> s ∈ l ->
  is_committed (record_in c s) = true -> committed_count c l = S (committed_count (acked s c) l).
Proof.
  intros Hs Hl Hz Hn Hin Hc. unfold committed_count.
  assert (forall l, Forall in_range l -> s ∉ l ->
    map (fun i => if is_committed (record_in (acked s c) i) then 1%nat else 0%nat) l =
    map (fun i => if is_committed (record_in c i) then 1%nat else 0%nat) l) as Hsame.
  { clear -Hs Hz. intros l. induction l as [|j l IH]; intros Hl Hni; [done|]. apply Forall_cons in Hl as [Hj Hl].
    apply not_elem_of_cons in Hni as [Hne Hni]. cbn [map]. rewrite acked_committed, IH by done.
    by rewrite (proj2 (Z.eqb_neq j s)) by done. }
  induction l as [|j l IH]; [by apply elem_of_nil in Hin|]. apply Forall_cons in Hl as [Hj Hl].
  apply NoDup_cons in Hn as [Hnj Hn]. cbn [map sum_list]. rewrite acked_committed by done.
  apply elem_of_cons in Hin as [->|Hin].
  - rewrite Z.eqb_refl, Hc, (Hsame l) by done. done.
  - rewrite (proj2 (Z.eqb_neq j s)) by (intros ->; done). rewrite (IH Hl Hn Hin). lia.
Qed.

Lemma erased_free c i : in_range i -> zlen c >= ls_spool_storage_size ->
  slot_free (splice 0 (fill ls_spool_storage_size 0xff) c) i.
Proof.
  intros Hi Hz. pose proof (slot_inside i Hi) as Hin. change record_size with 4124 in *. rewrite spool_size_value in *.
  unfold slot_free, spool_record_bytes. rewrite slice_splice_within by (rewrite ?zlen_fill; lia).
  rewrite Z.sub_0_r. apply slice_fill; lia.
Qed.

Lemma reclaim_healthy p r p' : healthy p -> (forall i, in_range i -> is_committed (record_in (medium p) i) = false) ->
  reclaim_if_drained raw p = (r, p') -> r = LS_OK /\ forall i, in_range i -> slot_free (medium p') i.
Proof.
  intros Hh Hall H. unfold reclaim_if_drained in H. destruct (drained_loop raw slots false p) as [rd p1] eqn:Ed.
  apply drained_loop_spec in Ed as (Hq & _ & Hl & Hx); [|apply slots_in_range|by destruct Hh].
  destruct (Hl (he_live _ Hh)) as [x ->]. specialize (Hx x eq_refl). destruct x as [consumed|].
  2: { destruct Hx as (i & Hi%slots_range & Hc). by rewrite Hall in Hc. }
  destruct Hx as [_ Hf]. pose proof (quiet_healthy _ _ Hh Hq) as Hh1. destruct consumed.
  - pose proof (medium_size p1 (he_inv _ Hh1)) as Hz.
    apply and_then_inv in H as [[H Hr]|(p2 & H2 & H)].
    { apply erase_spool_spec in H as (_ & _ & _ & El); [|by destruct Hh1]. by destruct (El Herase Hunits (he_live _ Hh1)). }
    apply erase_spool_spec in H2 as (E1 & E2 & E3 & El); [|by destruct Hh1].
    destruct (El Herase Hunits (he_live _ Hh1)) as [_ L2]. specialize (E3 eq_refl).
    apply write_header_spec in H as (_ & _ & Hs & Hw); [|done]. split.
    + apply Hw; [done|done|]. rewrite E3, slice_splice_within by (rewrite ?zlen_fill; rewrite ?spool_size_value in *; by vm_compute || lia).
      apply slice_fill; rewrite ?spool_size_value; by vm_compute.
    + intros i Hi. apply (Hs i Hi). rewrite E3. apply erased_free; [done|lia].
  - injection H as <- <-. split; [done|]. intros i Hi. rewrite (q_medium _ _ Hq). apply Hf; [done|]. by apply slots_range.
Qed.

Lemma slots_nodup : NoDup slots.
Proof. apply NoDup_fmap_2; [apply _|]. apply NoDup_ListNoDup, List.seq_NoDup. Qed.

Lemma count_zero c l : committed_count c l = 0%nat -> forall i, i ∈ l -> is_committed (record_in c i) = false.
Proof.
  induction l as [|j l IH]; intros H i Hi; [by apply elem_of_nil in Hi|]. unfold committed_count in *. simpl in H.
  destruct (is_committed (record_in c j)) eqn:Ej; [done|]. apply elem_of_cons in Hi as [->|Hi]; auto.
Qed.

Lemma flush_passes_healthy n p r p' : healthy p -> (committed_count (medium p) slots <= n)%nat ->
  flush_passes raw n p = (r, p') -> r = LS_OK /\ forall i, in_range i -> slot_free (medium p') i.
Proof.
  revert p. induction n as [|n IH]; intros p Hh Hn H; cbn [flush_passes] in H.
  - apply reclaim_healthy in H; [done|done|]. intros i Hi%slots_range. eapply count_zero; [|done]. lia.
  - destruct (first_loop raw slots None p) as [rf p1] eqn:Ef.
    apply first_loop_quiet in Ef as (Hq & Hx & _ & Hl); [|by destruct Hh]. destruct (Hl (he_live _ Hh)) as [x ->].
    specialize (Hx x eq_refl). pose proof (quiet_healthy _ _ Hh Hq) as Hh1. pose proof (q_medium _ _ Hq) as Hm.
    pose proof (first_fold_spec (medium p) slots None ltac:(done)) as Hf. rewrite <- Hx, <- Hm in Hf.
    destruct x as [[s rec]|].
    + destruct Hf as ([?|Hin] & -> & Hc); [done|]. pose proof Hin as Hs%slots_range.
      destruct (flush_record raw s _ p1) as [stop p2] eqn:Er.
      apply flush_record_healthy in Er as (-> & Hh2 & Hm2); [|done..]. apply IH in H; [done|done|].
      rewrite Hm2. rewrite <- Hm in Hn.
      rewrite (acked_count s) in Hn; [lia|done|apply slots_in_range|apply medium_size, Hh1|apply slots_nodup|done|done].
    + destruct Hf as [_ Hf]. apply reclaim_healthy in H; [done|done|]. intros i Hi%slots_range. by apply Hf.
Qed.

Lemma count_bound c l : (committed_count c l <= length l)%nat.
Proof. unfold committed_count. induction l as [|j l IH]; simpl; [done|]. destruct (is_committed _); lia. Qed.
End Drain.

(** *** Sequence numbers within half the number circle from [base] *)

Definition age (base s : Z) : Z := u32 (s - base).

Lemma age_diff base a b : age base a < 2 ^ 31 -> age base b < 2 ^ 31 -> s32 (a - b) = age base a - age base b.
Proof.
  unfold age. intros Ha Hb. pose proof (u32_range (a - base)). pose proof (u32_range (b - base)). unfold is_u32 in *.
  assert (u32 (a - b) = u32 (u32 (a - base) - u32 (b - base))) as Hu.
  { rewrite u32_sub. f_equal. lia. }
  unfold s32. cbv zeta. rewrite Hu. set (x := u32 (a - base)) in *. set (y := u32 (b - base)) in *.
  assert (u32 (x - y) = if y <=? x then x - y else x - y + 2 ^ 32) as ->.
  { unfold u32. case_if; bool_prop; [apply Z.mod_small; lia|]. symmetry. apply (Z.mod_unique _ _ (-1)); lia. }
  repeat case_if; blia.
Qed.

Definition not_after (base : Z) (a b : spool_record_t) : Prop :=
  rec_priority a < rec_priority b \/
  rec_priority a = rec_priority b /\ age base (rec_sequence a) <= age base (rec_sequence b).

Lemma goes_before_spec base a b : age base (rec_sequence a) < 2 ^ 31 -> age base (rec_sequence b) < 2 ^ 31 ->
  if goes_before a b then not_after base a b else not_after base b a.
Proof.
  intros Ha Hb. unfold goes_before, not_after. rewrite (age_diff base) by done.
  destruct (rec_priority a <? rec_priority b) eqn:E1; cbn [orb]; bool_prop; [by left|].
  destruct (rec_priority a =? rec_priority b) eqn:E2; cbn [andb]; bool_prop; [|lia].
  destruct (_ <? 0) eqn:E3; bool_prop; lia.
Qed.

(** The fold keeps a record no other goes before. *)
Lemma first_fold_min base c l sel :
  (forall i, i ∈ l -> is_committed (record_in c i) = true -> age base (rec_sequence (record_in c i)) < 2 ^ 31) ->
  (forall s rec, sel = Some (s, rec) -> age base (rec_sequence rec) < 2 ^ 31) ->
  forall s rec, slot_fold first_step c l sel = Some (s, rec) ->
  (forall s' rec', sel = Some (s', rec') -> not_after base rec rec') /\
  (forall i, i ∈ l -> is_committed (record_in c i) = true -> not_after base rec (record_in c i)).
Proof.
  revert sel. induction l as [|i l IH]; intros sel Hw Hsel s rec H; cbn [slot_fold] in H.
  - subst sel. split; [|intros i []%elem_of_nil]. intros s' rec' [= <- <-]. right. lia.
  - assert (forall s rec, first_step sel i (record_in c i) = Some (s, rec) -> age base (rec_sequence rec) < 2 ^ 31) as Hstep.
    { intros s1 rec1. unfold first_step. destruct (is_committed (record_in c i)) eqn:Ec; [|apply Hsel].
      destruct (match sel with None => _ | Some _ => _ end); [|apply Hsel]. intros [= <- <-]. apply Hw; [by left|done]. }
    apply IH in H as [H1 H2]; [|intros; apply Hw; [by right|done]|done].
    assert ((forall s' rec', sel = Some (s', rec') -> not_after base rec rec') /\
      (is_committed (record_in c i) = true -> not_after base rec (record_in c i))) as [H3 H4].
    { unfold first_step in H1. destruct (is_committed (record_in c i)) eqn:Ec; [|split; [done|by intros]].
      destruct sel as [[s0 rec0]|].
      - pose proof (goes_before_spec base (record_in c i) rec0 (Hw i ltac:(by left) Ec) (Hsel _ _ eq_refl)) as Hg.
        destruct (goes_before (record_in c i) rec0); pose proof (H1 _ _ eq_refl) as Hx; unfold not_after in *; split;
          [intros s' rec' [= <- <-]|intros _|intros s' rec' [= <- <-]|intros _]; lia.
      - split; [done|]. intros _. by apply (H1 i). }
    split; [done|]. intros j [->|Hj]%elem_of_cons; auto.
Qed.

(** *** Initialisation *)

Definition header_in (c : list Z) : spool_header_t := spool_header_unpack (slice 0 spool_header_size c).

Definition scan_step (a : Z * bool) (i : Z) (rec : spool_record_t) : Z * bool :=
  if record_valid rec
  then (if generation_is_newer (rec_sequence rec) (fst a) then rec_sequence rec else fst a, true) else a.

Lemma scan_quiet seq p r p' : inv (snd (dev p)) -> scan_records raw seq p = (r, p') ->
  quiet p p' /\ (forall x, r = Ok x -> x = slot_fold scan_step (medium p) slots (seq, false)) /\ r <> Err LS_OK /\
  (live (raw_of p) -> exists x, r = Ok x).
Proof.
  intros Hi H. unfold scan_records in H.
  eapply (slot_fold_quiet scan_step (fun l a => scan_loop raw l (fst a) (snd a))) with (a := (seq, false));
    [| |apply slots_in_range|done|exact H].
  - by intros [].
  - intros i l [a b] q. cbn [scan_loop fst snd]. destruct (read_record raw i q) as [[x|e] q1]; [|done].
    unfold scan_step. by destruct (record_valid x).
Qed.

Lemma newer_age base a b : age base a < 2 ^ 31 -> age base b < 2 ^ 31 ->
  generation_is_newer a b = (age base b <? age base a).
Proof.
  intros Ha Hb. unfold generation_is_newer. rewrite (age_diff base) by done.
  destruct (age base b <? age base a) eqn:E1; bool_prop; [apply Z.ltb_lt|apply Z.ltb_ge]; lia.
Qed.

(** The scan returns a number not older than any it met, and one of them. *)
Lemma scan_fold_spec base c l seq has :
  age base seq < 2 ^ 31 ->
  (forall i, i ∈ l -> record_valid (record_in c i) = true -> age base (rec_sequence (record_in c i)) < 2 ^ 31) ->
  let out := slot_fold scan_step c l (seq, has) in
  age base seq <= age base (fst out) < 2 ^ 31 /\
  (forall i, i ∈ l -> record_valid (record_in c i) = true -> age base (rec_sequence (record_in c i)) <= age base (fst out)) /\
  (snd out = true <-> has = true \/ exists i, i ∈ l /\ record_valid (record_in c i) = true).
Proof.
  revert seq has. induction l as [|i l IH]; intros seq has Hs Hw; cbn [slot_fold].
  - cbn [fst snd]. split; [lia|]. split; [intros i []%elem_of_nil|]. split; [by left|]. intros [?|(i & []%elem_of_nil & _)]. done.
  - assert (forall j, j ∈ l -> record_valid (record_in c j) = true -> age base (rec_sequence (record_in c j)) < 2 ^ 31)
      as Hw' by (intros j Hj; apply Hw; by right).
    assert (scan_step (seq, has) i (record_in c i) = if record_valid (record_in c i)
      then (if generation_is_newer (rec_sequence (record_in c i)) seq then rec_sequence (record_in c i) else seq, true)
      else (seq, has)) as -> by done.
    cbv zeta. destruct (record_valid (record_in c i)) eqn:Ev.
    + pose proof (Hw i ltac:(by left) Ev) as Hi. rewrite (newer_age base) by done.
      set (seq' := if _ <? _ then _ else _).
      assert (age base seq <= age base seq' < 2 ^ 31 /\ age base (rec_sequence (record_in c i)) <= age base seq') as [H1 H2].
      { unfold seq'. case_if; blia. }
      destruct (IH seq' true) as (J1 & J2 & J3); [lia|done|]. split; [lia|]. split.
      * intros j [->|Hj]%elem_of_cons Hv; [lia|by apply J2].
      * rewrite J3. split; [intros _; right; exists i; split; [by left|done]|by left].
    + destruct (IH seq has Hs Hw') as (J1 & J2 & J3). split; [done|]. split.
      * intros j [->|Hj]%elem_of_cons Hv; [congruence|by apply J2].
      * rewrite J3. split; (intros [?|(j & Hj & Hv)]; [by left|right]); exists j; (split; [|done]); [by right|].
        apply elem_of_cons in Hj as [->|Hj]; [congruence|done].
Qed.

Lemma read_header_quiet p r p' : inv (snd (dev p)) -> read_header raw p = (r, p') ->
  quiet p p' /\ (forall h, r = Ok h -> h = header_in (medium p)) /\ r <> Err LS_OK /\ (live (raw_of p) -> exists h, r = Ok h).
Proof.
  intros Hi H. unfold read_header in H. destruct (raw_read raw _ _ p) as [r1 p1] eqn:Er.
  apply read_quiet in Er as (Hq & Hr & Hn & Hl); [|done|by vm_compute..]. injection H as <- <-. split; [done|].
  destruct r1 as [bs|e].
  - split_and!; try done; [|by eexists]. intros h [= <-]. unfold header_in. by rewrite (Hr bs).
  - split_and!; try done; [congruence|]. intros H'. by destruct (Hl H').
Qed.

(** The header [write_header] leaves. *)
Definition with_committed (h : spool_header_t) : spool_header_t :=
  {| h_magic := h_magic h; h_version := h_version h; h_slots := h_slots h; h_record_size := h_record_size h;
     h_sequence_floor := h_sequence_floor h; h_header_crc := h_header_crc h; h_committed := SPOOL_HEADER_COMMITTED;
     h_reserved := h_reserved h |}.

Definition committed_header (floor : Z) : spool_header_t := with_committed (fresh_header floor).

Lemma with_committed_pack h :
  splice offset_committed [SPOOL_HEADER_COMMITTED] (spool_header_pack h) = spool_header_pack (with_committed h).
Proof. destruct h. reflexivity. Qed.

Lemma committed_header_valid floor : header_valid (committed_header floor) = true.
Proof.
  unfold header_valid. replace (h_header_crc _ =? _) with true by (symmetry; apply Z.eqb_eq; reflexivity).
  rewrite andb_true_r. reflexivity.
Qed.

Lemma committed_header_roundtrip floor : is_u32 floor ->
  spool_header_unpack (spool_header_pack (committed_header floor)) = committed_header floor.
Proof.
  intros Hf. assert (is_u32 (h_header_crc (committed_header floor))) as Hc by apply crc32_range.
  unfold spool_header_unpack, spool_header_pack. rewrite <- (app_nil_r (pack _ _)), unpack_pack;
    [by destruct (committed_header floor)|].
  change (h_sequence_floor (committed_header floor)) with floor.
  set (c := h_header_crc (committed_header floor)) in *. clearbody c.
  repeat (apply List.Forall2_cons || apply List.Forall2_nil); try exact Hf; try exact Hc; by vm_compute.
Qed.

Lemma write_header_ok p p' : inv (snd (dev p)) -> is_u32 (rt_sequence (ram p)) -> write_header raw p = (LS_OK, p') ->
  header_in (medium p') = committed_header (rt_sequence (ram p)).
Proof.
  intros Hi Hu H. unfold write_header in H. set (h := spool_header_pack _) in H.
  assert (zlen h = 24) as Hh by apply spool_header_pack_zlen. assert (bytes_ok h) as Hhb by apply bytes_ok_pack.
  pose proof (medium_size p Hi) as Hz. rewrite spool_size_value in Hz.
  apply and_then_inv in H as [[_ Hr]|(p1 & H1 & H)]; [done|].
  apply program_programs in H1 as [_ G2 _ G4 _]; [|done|done|lia|rewrite spool_size_value; lia]. specialize (G4 eq_refl).
  apply and_then_inv in H as [[_ Hr]|(p2 & H2 & H)]; [done|]. apply sync_quiet in H2 as [[_ Q2 Q3 _] _]; [|done].
  apply and_then_inv in H as [[_ Hr]|(p3 & H3 & H)]; [done|].
  apply program_programs in H3 as [_ C2 _ C4 _]; [|done|by apply Forall_singleton|by vm_compute|by vm_compute].
  specialize (C4 eq_refl). apply sync_quiet in H as [[_ X2 X3 _] _]; [|done].
  unfold header_in. rewrite X3, C4, Q3, G4. unfold spool_header_size, offset_committed.
  assert (zlen (splice 0 h (medium p)) = zlen (medium p)) as Hzs by (apply zlen_splice; lia).
  rewrite slice_splice_inside by (rewrite ?zlen_cons, ?zlen_nil; lia). rewrite <- Hh, slice_splice_same by lia.
  change (20 - 0) with offset_committed. unfold h. rewrite with_committed_pack. by apply committed_header_roundtrip.
Qed.

(** The numbers initialisation sees are within half the number circle. *)
Record window_ok (base : Z) (c : list Z) (current : Z) : Prop := {
  wo_current : age base current < 2 ^ 31;
  wo_floor : age base (if header_valid (header_in c) then h_sequence_floor (header_in c) else 0) < 2 ^ 31;
  wo_records i : in_range i -> record_valid (record_in c i) = true -> age base (rec_sequence (record_in c i)) < 2 ^ 31;
}.

(** The spool is recognised: a valid header, or a valid record. *)
Definition recognised (c : list Z) : Prop :=
  header_valid (header_in c) = true \/ exists i, in_range i /\ record_valid (record_in c i) = true.

Lemma init_resumes base p r p' : inv (snd (dev p)) -> live (raw_of p) -> window_ok base (medium p) (rt_sequence (ram p)) ->
  recognised (medium p) -> init_with raw p = (r, p') ->
  r = LS_OK /\ medium p' = medium p /\
  let new := rt_sequence (ram p') in
  age base (rt_sequence (ram p)) <= age base new /\
  (header_valid (header_in (medium p)) = true -> age base (h_sequence_floor (header_in (medium p))) <= age base new) /\
  (forall i, in_range i -> record_valid (record_in (medium p) i) = true ->
     age base (rec_sequence (record_in (medium p) i)) <= age base new).
Proof.
  intros Hi Hl [W1 W2 W3] Hrec H. unfold init_with in H.
  destruct (read_header raw p) as [rh p1] eqn:Eh. apply read_header_quiet in Eh as (Hq1 & Hh & _ & Hl1); [|done].
  destruct (Hl1 Hl) as [h ->]. rewrite (Hh h eq_refl) in H.
  destruct (scan_records raw _ p1) as [rs p2] eqn:Es. pose proof Hq1 as [Q1 Q2 Q3 Q4].
  apply scan_quiet in Es as (Hq2 & Hs & _ & Hl2); [|done]. destruct (Hl2 (Q4 Hl)) as [[seq has] ->].
  specialize (Hs _ eq_refl). rewrite Q3 in Hs.
  set (start := if header_valid (header_in (medium p)) then _ else _) in *.
  destruct (scan_fold_spec base (medium p) slots start false) as (S1 & S2 & S3); [done| |].
  { intros i Hir%slots_range. by apply W3. }
  rewrite <- Hs in S1, S2, S3. cbn [fst snd] in S1, S2, S3.
  assert (header_valid (header_in (medium p)) || has = true) as Hor.
  { destruct Hrec as [->|(i & Hir & Hv)]; [done|]. apply orb_true_iff. right. apply S3. right. exists i.
    split; [by apply slots_range|done]. }
  rewrite Hor in H. pose proof (quiet_trans _ _ _ Hq1 Hq2) as [R1 R2 R3 R4].
  rewrite R1, (newer_age base) in H by (done || lia).
  assert (exists new, rt_sequence (ram p') = new /\ r = LS_OK /\ medium p' = medium p /\
    age base (rt_sequence (ram p)) <= age base new /\ age base seq <= age base new) as (new & -> & -> & Hm & N1 & N2).
  { destruct (_ <? _) eqn:En; bool_prop; injection H as <- <-; eexists; (split; [reflexivity|]); split; try done; split; try done.
    - simpl. lia.
    - rewrite R1. lia. }
  split; [done|]. split; [done|]. cbv zeta. split; [done|]. split.
  - intros Hv. unfold start in *. rewrite Hv in *. lia.
  - intros i Hir Hv. etransitivity; [|exact N2]. apply S2; [by apply slots_range|done].
Qed.

Lemma init_formats p r p' : units_fit -> is_Some (erase raw) -> ls_spool_storage_size mod erase_size raw = 0 ->
  inv (snd (dev p)) -> live (raw_of p) -> is_u32 (rt_sequence (ram p)) -> ~ recognised (medium p) ->
  init_with raw p = (r, p') ->
  r = LS_OK /\ header_in (medium p') = committed_header (rt_sequence (ram p)) /\
  rt_sequence (ram p') = rt_sequence (ram p) /\ forall i, in_range i -> slot_free (medium p') i.
Proof.
  intros Hfit Herase Hunits Hi Hl Hu Hrec H. unfold init_with in H.
  destruct (read_header raw p) as [rh p1] eqn:Eh. apply read_header_quiet in Eh as (Hq1 & Hh & _ & Hl1); [|done].
  destruct (Hl1 Hl) as [h ->]. rewrite (Hh h eq_refl) in H.
  assert (header_valid (header_in (medium p)) = false) as Hhv.
  { apply not_true_is_false. intros Hv. apply Hrec. by left. }
  rewrite Hhv in H. destruct (scan_records raw _ p1) as [rs p2] eqn:Es. pose proof Hq1 as [Q1 Q2 Q3 Q4].
  apply scan_quiet in Es as (Hq2 & Hs & _ & Hl2); [|done]. destruct (Hl2 (Q4 Hl)) as [[seq has] ->].
  specialize (Hs _ eq_refl). rewrite Q3 in Hs.
  assert (has = false) as ->.
  { assert (forall l a, (forall i, i ∈ l -> record_valid (record_in (medium p) i) = false) ->
      slot_fold scan_step (medium p) l a = a) as Hfold.
    { induction l as [|i l IH]; intros a Hall; [done|]. cbn [slot_fold]. unfold scan_step at 2.
      rewrite Hall by (by left). apply IH. intros j Hj. apply Hall. by right. }
    rewrite Hfold in Hs; [by injection Hs|]. intros i Hir%slots_range. apply not_true_is_false. intros Hv. apply Hrec.
    right. eauto. }
  cbn [orb] in H. pose proof (quiet_trans _ _ _ Hq1 Hq2) as Hq. clear Hq1 Hq2 Q1 Q2 Q3 Q4.
  destruct (on_raw _ p2) as [re p3] eqn:Ee.
  apply is_erased_quiet in Ee as (Hq3 & Hx & _ & Hl3); [|by destruct Hq|done|by vm_compute|lia].
  destruct (Hl3 (q_live _ _ Hq Hl)) as [e ->]. specialize (Hx e eq_refl).
  pose proof (quiet_trans _ _ _ Hq Hq3) as [R1 R2 R3 R4]. rewrite (q_medium _ _ Hq) in Hx.
  assert (forall q, ram q = ram p -> inv (snd (dev q)) -> live (raw_of q) ->
    slice 0 ls_spool_storage_size (medium q) = fill ls_spool_storage_size 0xff -> write_header raw q = (r, p') ->
    r = LS_OK /\ header_in (medium p') = committed_header (rt_sequence (ram p)) /\
    rt_sequence (ram p') = rt_sequence (ram p) /\ forall i, in_range i -> slot_free (medium p') i) as Hw.
  { intros q Hr Hiq Hlq Hblank Hq'. pose proof Hq' as Hq''. rewrite spool_size_value in Hblank.
    assert (slice 0 spool_header_size (medium q) = fill spool_header_size 0xff) as Hb0.
    { apply (f_equal (slice 0 24)) in Hblank. rewrite slice_slice, slice_fill in Hblank by lia. exact Hblank. }
    apply write_header_spec in Hq' as (W1 & W2 & W3 & W4); [|done]. specialize (W4 Hfit Hlq Hb0) as ->.
    apply write_header_ok in Hq''; [|done|by rewrite Hr]. rewrite Hr in Hq''. rewrite W1, Hr. split; [reflexivity|]. split; [exact Hq''|]. split; [reflexivity|].
    intros i Hir. apply W3; [done|]. pose proof (slot_inside i Hir) as Hin. change record_size with 4124 in *.
    rewrite spool_size_value in Hin. unfold slot_free, spool_record_bytes.
    apply (f_equal (slice (slot_offset i) 28)) in Hblank. rewrite slice_slice, slice_fill in Hblank by lia. exact Hblank. }
  destruct e.
  - apply (Hw p3); try done; [by apply R4|]. rewrite R3. by apply Hx.
  - apply and_then_inv in H as [[H Hr]|(p4 & H4 & H)].
    + apply erase_spool_spec in H as (_ & _ & _ & El); [|done]. by destruct (El Herase Hunits (R4 Hl)).
    + apply erase_spool_spec in H4 as (E1 & E2 & E3 & El); [|done]. destruct (El Herase Hunits (R4 Hl)) as [_ L4].
      specialize (E3 eq_refl). apply (Hw p4); try done; [congruence|]. pose proof (medium_size p3 R2) as Hz3.
      rewrite spool_size_value in E3, Hz3 |- *. rewrite E3. rewrite <- (zlen_fill 33024 255) at 1 by lia.
      apply slice_splice_same; [lia|]. rewrite zlen_fill; lia.
Qed.
End SpoolOk.

(** ** Properties *)

(** What an append can leave on the medium. *)
Lemma append_outcome {E D} (raw : ls_storage_backend_t (platform D)) `{!StorageOk raw}
    data prio info (p : @sstate E D) r p' :
  ls_spool_storage_size <= capacity raw -> inv (snd (dev p)) -> bytes_ok data -> 0 <= prio ->
  ls_envelope_validate (Some data) = Ok info -> LS_EVENT_CRASH <= type info <= LS_EVENT_COREDUMP ->
  ls_spool_append (Some raw) (Some data) prio p = (r, p') ->
  let old := entry_in (medium raw p) in
  let new := entry_in (medium raw p') in
  inv (snd (dev p')) /\
  ((r <> LS_OK /\ forall i, in_range i -> new i = old i) \/
   exists s, 0 <= s < slot_limit_for_priority prio /\ slot_free (medium raw p) s /\
     new s = Some (stored_record data prio info, data) /\ forall i, in_range i -> i <> s -> new i = old i).
Proof.
  intros Hcap Hi Hd Hp Hv Ht H old new. pose proof (append_einval raw data prio p r p' H) as [[-> ->]|[Hl Hpr]].
  { split; [done|]. by left. }
  rewrite append_unfold in H by done.
  apply (append_with_spec raw Hcap data prio info) in H as [(Hr & Hi' & Hm & _)|H]; try done.
  - split; [done|]. left. split; [done|]. intros i Hir. unfold new, old. by rewrite Hm.
  - destruct H as (s & Hs & Hir & Hf & _ & q & Hq & [A1 A2 A3 A4 A5 A6]). rewrite (q_medium _ _ _ Hq) in A2.
    assert (forall i, in_range i -> i <> s -> new i = old i) as Ho.
    { intros i Hi0 Hne. by apply (entry_in_outside _ _ i s). }
    split; [done|]. destruct A4 as [Hn|Hh].
    + left. split.
      * intros Hr. apply A5 in Hr. apply holds_entry in Hr; [congruence|done..].
      * intros i Hi0. destruct (decide (i = s)) as [->|Hne]; [|by apply Ho]. unfold new, old. rewrite Hn. symmetry.
        apply uncommitted; [done|by eapply medium_size|]. unfold slot_free, spool_record_bytes in Hf.
        apply (f_equal (slice 24 1)) in Hf. pose proof (slot_inside s Hir).
        rewrite slice_slice, slice_fill in Hf by lia. done.
    + right. exists s. split; [done|]. split; [done|]. split; [|done].
      exact (holds_entry _ _ _ _ _ Hl (conj Hp Hpr) Ht Hh).
Qed.

(** C21: appending is atomic.  Whatever operation of the storage fails or tears, and
    at whatever injection point the append is cut short, the committed records are
    afterwards the old ones, or the old ones and the new envelope, complete and with
    its sequence number, priority and type, in a slot that was free and that its
    priority may use; success means the latter. *)
Theorem spool_append_atomic {E D} (raw : ls_storage_backend_t (platform D)) `{!StorageOk raw}
    data prio info (p : @sstate E D) r p' :
  ls_spool_storage_size <= capacity raw -> inv (snd (dev p)) -> bytes_ok data -> 0 <= prio ->
  ls_envelope_validate (Some data) = Ok info -> LS_EVENT_CRASH <= type info <= LS_EVENT_COREDUMP ->
  ls_spool_append (Some raw) (Some data) prio p = (r, p') ->
  let old := entry_in (medium raw p) in
  let new := entry_in (medium raw p') in
  inv (snd (dev p')) /\
  ((r <> LS_OK /\ forall i, in_range i -> new i = old i) \/
   exists s, 0 <= s < slot_limit_for_priority prio /\ slot_free (medium raw p) s /\
     new s = Some (stored_record data prio info, data) /\ forall i, in_range i -> i <> s -> new i = old i).
Proof. exact (append_outcome raw data prio info p r p'). Qed.

(** Reserved slots and accounting.  On storage that works, an append succeeds
    exactly when a slot its priority may use is free (the last two slots are kept
    for critical and the last one for emergency events), takes the lowest such
    slot, and otherwise reports [LS_ENOSPACE], counts the drop and leaves the
    medium alone. *)
Theorem spool_append_capacity {E D} (raw : ls_storage_backend_t (platform D)) `{!StorageOk raw}
    data prio info (p : @sstate E D) r p' :
  ls_spool_storage_size <= capacity raw -> inv (snd (dev p)) -> bytes_ok data ->
  0 < zlen data <= LS_MAX_EVENT_SIZE -> 0 <= prio <= LS_PRIORITY_DIAGNOSTIC ->
  ls_envelope_validate (Some data) = Ok info ->
  units_fit raw -> live (raw_of p) ->
  (forall i, in_range i -> slot_free (medium raw p) i -> payload_blank (medium raw p) i (zlen data)) ->
  ls_spool_append (Some raw) (Some data) prio p = (r, p') ->
  let limit := if prio =? LS_PRIORITY_EMERGENCY then 8 else if prio =? LS_PRIORITY_CRITICAL then 7 else 6 in
  (r = LS_OK /\ exists s, 0 <= s < limit /\ slot_free (medium raw p) s /\ holds_record (medium raw p') s
     (fresh_record data prio info) data /\ forall i, 0 <= i < s -> ~ slot_free (medium raw p) i) \/
  (r = LS_ENOSPACE /\ medium raw p' = medium raw p /\ ram p' = count_dropped (ram p) /\
   forall i, 0 <= i < limit -> ~ slot_free (medium raw p) i).
Proof.
  intros Hcap Hi Hd Hl Hpr Hv Hu Hlive Hblank H limit. change limit with (slot_limit_for_priority prio).
  rewrite append_unfold in H by (done || lia).
  apply (append_with_spec raw Hcap data prio info) in H as [(_ & Hi' & Hm & H)|H]; try done.
  - right. destruct (H Hlive) as (-> & ? & ?). done.
  - left. destruct H as (s & Hs & Hir & Hf & Hlow & q & Hq & [A1 A2 A3 A4 A5 A6]).
    assert (r = LS_OK) as ->; [|split; [done|exists s; auto]].
    apply A6. split; [done|]. split; [by apply Hq|]. rewrite (q_medium _ _ _ Hq). by apply Hblank.
Qed.

(** C23: flushing loses only records that are corrupt, and counts them.  Whatever fails
    in the storage, in the transports or at an injection point, and wherever the flush
    stops, each committed record is afterwards still committed (only its retry byte may
    have changed), or its envelope was delivered by a transport, or it is one of at most
    eight that the corrupt counter has counted, and then its payload does not match its
    checksum, or is not a valid envelope, or was refused by the storage when the flush
    read it. *)
Theorem spool_flush_keeps {E D} (raw : ls_storage_backend_t (platform D)) `{!StorageOk raw}
    (whole : E -> list Z -> Prop) (piece : E -> ls_transport_fragment_t -> Prop) (p : @sstate E D) r p' :
  ls_spool_storage_size <= capacity raw -> inv (snd (dev p)) ->
  Forall (transport_ok whole piece) (transports (network (ram p))) -> is_u32 (spool_corrupt_records (ram p)) ->
  ls_spool_flush (Some raw) p = (r, p') ->
  exists lost, zlen lost <= LS_SPOOL_MAX_RECORDS /\
    spool_corrupt_records (ram p') = u32 (spool_corrupt_records (ram p) + zlen lost) /\
    forall i rec d, in_range i -> entry_in (medium raw p) i = Some (rec, d) ->
    (exists b, is_u8 b /\ entry_in (medium raw p') i = Some (with_state SPOOL_RECORD_COMMITTED b rec, d)) \/
    (exists info, ls_envelope_validate (Some d) = Ok info /\
       arrived whole piece (ext (network (ram p'))) (event_id info) d) \/
    (i ∈ lost /\ (rec_data_crc rec <> ls_crc32 d \/ (exists e, ls_envelope_validate (Some d) = Err e) \/
                  unreadable raw whole piece i rec p)).
Proof.
  intros Hcap Hi Ht Hu H. unfold ls_spool_flush in H. rewrite usable_true in H by done.
  eapply (flush_passes_spec raw Hcap whole piece) in H as (lost & Hl & _ & Hc & _ & Hs); [|done..].
  exists lost. split; [exact Hl|]. split; [exact Hc|]. intros i rec d Hir He.
  destruct (Hs i rec d Hir He) as [[?|?]|(Hin & [[?|?]|?])]; [by left|right; by left|right; right; split; [done|]; by auto..].
Qed.

(** C24: flushing terminates with an empty spool.  On working storage and with a
    network that accepts envelopes, [ls_spool_flush] returns [LS_OK] and leaves every
    slot erased, however many records were committed, torn or corrupt. *)
Theorem spool_flush_drains {E D} (raw : ls_storage_backend_t (platform D)) `{!StorageOk raw}
    (works : net E -> Prop) (p : @sstate E D) r p' :
  ls_spool_storage_size <= capacity raw -> network_works works -> units_fit raw -> is_Some (erase raw) ->
  ls_spool_storage_size mod erase_size raw = 0 ->
  inv (snd (dev p)) -> live (raw_of p) -> works (network (ram p)) ->
  ls_spool_flush (Some raw) p = (r, p') ->
  r = LS_OK /\ forall i, in_range i -> slot_free (medium raw p') i.
Proof.
  intros Hcap Hn Hu He Hm Hi Hl Hw H. unfold ls_spool_flush in H. rewrite usable_true in H by done.
  eapply (flush_passes_healthy raw Hcap works) in H; try done. apply (count_bound _ slots).
Qed.

(** The most important record goes first.  Among the committed records the flush
    selects one of the lowest priority number and, among those, one with the oldest
    sequence number, whatever slots they are in and also across the wrap of the
    32-bit counter; nothing is selected only when nothing is committed. *)
Theorem spool_selects_first {E D} (raw : ls_storage_backend_t (platform D)) `{!StorageOk raw}
    base (p : @sstate E D) sel p' :
  ls_spool_storage_size <= capacity raw -> inv (snd (dev p)) ->
  (forall i, in_range i -> is_committed (record_in (medium raw p) i) = true ->
     age base (rec_sequence (record_in (medium raw p) i)) < 2 ^ 31) ->
  first_loop raw slots None p = (Ok sel, p') ->
  match sel with
  | None => forall i, in_range i -> is_committed (record_in (medium raw p) i) = false
  | Some (s, rec) => in_range s /\ rec = record_in (medium raw p) s /\ is_committed rec = true /\
      forall i, in_range i -> is_committed (record_in (medium raw p) i) = true ->
        let other := record_in (medium raw p) i in
        rec_priority rec <= rec_priority other /\
        (rec_priority rec = rec_priority other -> age base (rec_sequence rec) <= age base (rec_sequence other))
  end.
Proof.
  intros Hcap Hi Hw H. apply (first_loop_quiet raw Hcap) in H as (_ & Hx & _); [|done]. specialize (Hx sel eq_refl).
  pose proof (first_fold_spec (medium raw p) slots None ltac:(done)) as Hf. rewrite <- Hx in Hf.
  destruct sel as [[s rec]|].
  - destruct Hf as ([?|Hs%slots_range] & Hrec & Hc); [done|]. split_and!; try done; try apply Hs. intros i Hir Hci other.
    edestruct (first_fold_min base (medium raw p) slots None) as [_ Hmin]; [| |symmetry; exact Hx|].
    + intros j Hj%slots_range. by apply Hw.
    + done.
    + specialize (Hmin i (proj2 (slots_range i) Hir) Hci). unfold not_after in Hmin. fold other in Hmin. lia.
  - destruct Hf as [_ Hf]. intros i Hir. by apply Hf, slots_range.
Qed.

(** Restarting resumes the numbering.  When the medium holds a valid header or a
    valid record, initialisation leaves the medium alone and sets the runtime's
    sequence number so that it is not older than its previous value, the header's
    floor or the number of any valid record, so that no number is given out twice. *)
Theorem spool_init_resumes {E D} (raw : ls_storage_backend_t (platform D)) `{!StorageOk raw}
    base (p : @sstate E D) r p' :
  ls_spool_storage_size <= capacity raw -> inv (snd (dev p)) -> live (raw_of p) ->
  window_ok base (medium raw p) (rt_sequence (ram p)) -> recognised (medium raw p) ->
  ls_spool_init (Some raw) p = (r, p') ->
  r = LS_OK /\ medium raw p' = medium raw p /\
  let new := rt_sequence (ram p') in
  age base (rt_sequence (ram p)) <= age base new /\
  (header_valid (header_in (medium raw p)) = true -> age base (h_sequence_floor (header_in (medium raw p))) <= age base new) /\
  (forall i, in_range i -> record_valid (record_in (medium raw p) i) = true ->
     age base (rec_sequence (record_in (medium raw p) i)) <= age base new).
Proof.
  intros Hcap Hi Hl Hw Hr H. unfold ls_spool_init in H. rewrite usable_true in H by done.
  by eapply (init_resumes raw Hcap).
Qed.

(** A medium that is not recognised is formatted.  On working storage
    initialisation erases the area when it is not blank, writes a header that is
    valid afterwards and records the runtime's sequence number as its floor, and
    every slot is free. *)
Theorem spool_init_formats {E D} (raw : ls_storage_backend_t (platform D)) `{!StorageOk raw} (p : @sstate E D) r p' :
  ls_spool_storage_size <= capacity raw -> units_fit raw -> is_Some (erase raw) ->
  ls_spool_storage_size mod erase_size raw = 0 -> inv (snd (dev p)) -> live (raw_of p) ->
  is_u32 (rt_sequence (ram p)) -> ~ recognised (medium raw p) ->
  ls_spool_init (Some raw) p = (r, p') ->
  r = LS_OK /\ header_valid (header_in (medium raw p')) = true /\
  h_sequence_floor (header_in (medium raw p')) = rt_sequence (ram p) /\
  forall i, in_range i -> slot_free (medium raw p') i.
Proof.
  intros Hcap Hu He Hm Hi Hl Hs Hr H. unfold ls_spool_init in H. rewrite usable_true in H by done.
  eapply (init_formats raw Hcap) in H as (-> & Hh & _ & Hf); [|done..]. rewrite Hh.
  split; [done|]. split; [apply committed_header_valid|]. split; [reflexivity|done].
Qed.

(** A fresh memory of the required size, and an envelope. *)
Definition demo_spool_storage := memory_backend ls_spool_storage_size 256 4.

#[export] Instance demo_spool_ok : StorageOk demo_spool_storage.
Proof. apply memory_ok; vm_compute; [split; discriminate|discriminate]. Defined.

Definition demo_data : list Z := envelope_bytes demo_info (encode_tlvs [(3, [1; 2])]) [].

Definition demo_spool : @sstate (list (list Z)) ls_memory_storage_t :=
  {| faults := no_faults;
     dev := ({| rt_sequence := 0; spool_high_watermark := 0; spool_dropped_records := 0; spool_corrupt_records := 0;
                spool_transport_failures := 0; spool_retry_saturated := 0; network := dev demo_net |},
             fill ls_spool_storage_size 0xff) |}.

Lemma demo_spool_inv : inv (StorageOk:=demo_spool_ok) (snd (dev demo_spool)).
Proof. split; [by vm_compute|]. apply bytes_ok_fill. by vm_compute. Defined.

Lemma demo_data_ok : bytes_ok demo_data /\ ls_envelope_validate (Some demo_data) = Ok demo_info.
Proof. split; [apply bytes_ok_envelope|apply envelope_accepts]; exact demo_envelope_ok. Defined.

Lemma spool_append_atomic_witness :
  let run := ls_spool_append (Some demo_spool_storage) (Some demo_data) 2 demo_spool in
  fst run = LS_OK /\
  exists s, 0 <= s < 6 /\ entry_in (snd (dev (snd run))) s = Some (stored_record demo_data 2 demo_info, demo_data).
Proof.
  intros run.
  destruct (spool_append_atomic demo_spool_storage demo_data 2 demo_info demo_spool (fst run) (snd run)) as (_ & H).
  - vm_compute. discriminate.
  - exact demo_spool_inv.
  - apply demo_data_ok.
  - lia.
  - apply demo_data_ok.
  - split; vm_compute; discriminate.
  - apply surjective_pairing.
  - assert (fst run = LS_OK) as Hr by (vm_compute; reflexivity). split; [exact Hr|].
    destruct H as [[Hn _]|(s & Hs & _ & He & _)]; [by destruct Hn|]. exists s. split; [exact Hs|exact He].
Defined.

Lemma spool_append_capacity_witness :
  let run := ls_spool_append (Some demo_spool_storage) (Some demo_data) 2 demo_spool in
  fst run = LS_OK \/ fst run = LS_ENOSPACE.
Proof.
  intros run.
  destruct (spool_append_capacity demo_spool_storage demo_data 2 demo_info demo_spool (fst run) (snd run)) as [H|H].
  - vm_compute. discriminate.
  - exact demo_spool_inv.
  - apply demo_data_ok.
  - split; vm_compute; reflexivity || discriminate.
  - split; vm_compute; discriminate.
  - apply demo_data_ok.
  - split; vm_compute; reflexivity || discriminate.
  - vm_compute. reflexivity.
  - intros i Hi _. pose proof (slot_inside i Hi).
    change (slice (slot_offset i + spool_record_bytes) (zlen demo_data) (fill ls_spool_storage_size 255) =
      fill (zlen demo_data) 255).
    apply slice_fill; change record_size with 4124 in *; change (zlen demo_data) with 34; unfold spool_record_bytes;
      lia.
  - apply surjective_pairing.
  - left. apply H.
  - right. apply H.
Defined.

(** The spool after one append, with the transports of the examples. *)
Definition demo_filled : @sstate (list (list Z)) ls_memory_storage_t :=
  snd (ls_spool_append (Some demo_spool_storage) (Some demo_data) 2 demo_spool).

Lemma demo_filled_inv : inv (StorageOk:=demo_spool_ok) (snd (dev demo_filled)).
Proof.
  destruct (append_with_spec demo_spool_storage ltac:(vm_compute; discriminate) demo_data 2 demo_info demo_spool
    (fst (append_with demo_spool_storage demo_data 2 demo_spool))
    (snd (append_with demo_spool_storage demo_data 2 demo_spool))) as [(_ & H & _)|(s & _ & _ & _ & _ & q & _ & [H _ _ _ _ _])].
  - exact demo_spool_inv.
  - apply demo_data_ok.
  - split; vm_compute; reflexivity || discriminate.
  - split; vm_compute; discriminate.
  - apply demo_data_ok.
  - apply surjective_pairing.
  - exact H.
  - exact H.
Qed.

Lemma spool_flush_keeps_witness :
  let run := ls_spool_flush (Some demo_spool_storage) demo_filled in
  entry_in (medium demo_spool_storage demo_filled) 0 = Some (stored_record demo_data 2 demo_info, demo_data) /\
  ((exists b, is_u8 b /\ entry_in (medium demo_spool_storage (snd run)) 0 =
      Some (with_state SPOOL_RECORD_COMMITTED b (stored_record demo_data 2 demo_info), demo_data)) \/
   (exists info, ls_envelope_validate (Some demo_data) = Ok info /\
      arrived (fun e d => d ∈ e) (fun _ _ => False) (ext (network (ram (snd run)))) (event_id info) demo_data)).
Proof.
  intros run.
  assert (entry_in (medium demo_spool_storage demo_filled) 0 = Some (stored_record demo_data 2 demo_info, demo_data)) as He
    by (vm_compute; reflexivity).
  assert (spool_corrupt_records (ram demo_filled) = 0) as Hc0 by (vm_compute; reflexivity).
  assert (spool_corrupt_records (ram (snd run)) = 0) as Hc1 by (vm_compute; reflexivity).
  destruct (spool_flush_keeps demo_spool_storage (fun e d => d ∈ e) (fun _ _ => False) demo_filled (fst run) (snd run))
    as (lost & Hl & Hc & Hs).
  - vm_compute. discriminate.
  - exact demo_filled_inv.
  - assert (transports (network (ram demo_filled)) = [demo_transport 1 5; demo_transport 2 9; demo_transport 3 9]) as ->
      by (vm_compute; reflexivity).
    repeat (apply List.Forall_cons; [apply demo_transport_ok|]). apply List.Forall_nil.
  - rewrite Hc0. clear. unfold is_u32. lia.
  - apply surjective_pairing.
  - split; [exact He|]. rewrite Hc1, Hc0 in Hc. pose proof (zlen_nonneg lost) as Hz.
    unfold LS_SPOOL_MAX_RECORDS in Hl. rewrite Z.add_0_l, u32_id in Hc by (unfold is_u32; lia).
    destruct (Hs 0 _ demo_data ltac:(unfold in_range, LS_SPOOL_MAX_RECORDS; lia) He) as [H|[H|[H _]]]; [by left|by right|].
    exfalso. destruct lost as [|x lost]; [by apply not_elem_of_nil in H|]. rewrite zlen_cons in Hc. pose proof (zlen_nonneg lost). lia.
Defined.

(** The transports of the examples accept everything. *)
Definition demo_works (n : net (list (list Z))) : Prop :=
  busy_transports n = replicate LS_MAX_TRANSPORTS None /\
  transports n = [demo_transport 1 5; demo_transport 2 9; demo_transport 3 9].

Lemma demo_can_send a pr size q : 0 < size -> ls_transport_can_send (demo_transport a pr) size q = (true, q).
Proof.
  intros Hs. unfold ls_transport_can_send, unavailable, transport_mtu. cbn. rewrite (proj2 (Z.eqb_neq _ _)) by lia.
  by rewrite Z.leb_refl.
Qed.

Lemma demo_send a pr id d f n : fault_injection_active f = false ->
  busy_transports n = replicate LS_MAX_TRANSPORTS None -> 0 < zlen d <= LS_MAX_EVENT_SIZE ->
  ls_transport_send (Some (demo_transport a pr)) id (Some d) {| faults := f; dev := n |} =
    (LS_OK, {| faults := f; dev := {| busy_transports := busy_transports n; transports := transports n;
                                      ext := d :: ext n |} |}).
Proof.
  unfold LS_MAX_EVENT_SIZE. intros Hf Hb Hz. unfold ls_transport_send. destruct d as [|x d]; [change (zlen []) with 0 in Hz; lia|].
  set (dd := x :: d) in *. rewrite (proj2 (Z.ltb_ge _ _)) by (unfold UINT32_MAX; lia).
  cbn [unavailable available demo_transport transport_mtu max_payload mret st_ret].
  rewrite (proj2 (Z.eqb_neq (zlen dd) 0)) by lia. rewrite Z.ltb_irrefl. cbn [andb negb is_set send demo_transport].
  unfold acquire_transport. cbn [dev]. rewrite Hb. cbn [acquire_loop replicate LS_MAX_TRANSPORTS negb].
  unfold send_complete. cbn [send demo_transport]. unfold retries. cbn [retry_loop].
  rewrite hit_inactive by exact Hf. cbn [is_ok]. unfold call. cbn [dev set_dev set_busy ext].
  unfold should_retry. cbn [ls_transport_result_is_retryable negb orb].
  unfold release_transport. cbn [dev set_dev set_busy busy_transports address demo_transport release_loop].
  rewrite Z.eqb_refl. done.
Qed.

Lemma demo_network_works : network_works demo_works.
Proof.
  intros prio id d f n Hf [Hb Ht] Hz. set (q := {| faults := f; dev := n |}).
  destruct (select_loop_spec prio (zlen d) (fun _ => true) (transports n) [] None q) as (best & Hs & Hx).
  { intros t Hin q'. rewrite Ht in Hin. repeat (apply elem_of_cons in Hin as [->|Hin]; [apply demo_can_send; lia|]).
    by apply elem_of_nil in Hin. }
  { intros t Hin. by apply elem_of_nil in Hin. }
  assert (exists t, fst <$> best = Some t /\ t ∈ transports n) as (t & Hbest & Hin).
  { destruct best as [[t s]|]; cbn [app] in Hx.
    - exists t. split; [done|]. destruct Hx as (_ & _ & i & Hi & _). by eapply list_elem_of_lookup_2.
    - exfalso. specialize (Hx (demo_transport 1 5)). rewrite Ht in Hx. discriminate Hx. by left. }
  assert (exists a pr, t = demo_transport a pr) as (a & pr & ->).
  { rewrite Ht in Hin. repeat (apply elem_of_cons in Hin as [->|Hin]; [by eauto|]). by apply elem_of_nil in Hin. }
  exists (demo_transport a pr), n, {| busy_transports := busy_transports n; transports := transports n; ext := d :: ext n |}.
  split; [|split; [by apply demo_send|by split]]. unfold ls_transport_select. fold q.
  rewrite take_ge by (cbn [dev q]; rewrite Ht; simpl; unfold LS_MAX_TRANSPORTS; lia). cbn [dev q]. rewrite Hs. by rewrite Hbest.
Qed.

Lemma spool_flush_drains_witness :
  let run := ls_spool_flush (Some demo_spool_storage) demo_filled in
  fst run = LS_OK /\ forall i, in_range i -> slot_free (medium demo_spool_storage (snd run)) i.
Proof.
  intros run.
  refine (spool_flush_drains demo_spool_storage demo_works demo_filled (fst run) (snd run)
    _ demo_network_works _ _ _ demo_filled_inv _ _ (surjective_pairing run)).
  - vm_compute. discriminate.
  - split; vm_compute; reflexivity || discriminate.
  - eexists. reflexivity.
  - vm_compute. reflexivity.
  - vm_compute. reflexivity.
  - split; vm_compute; reflexivity.
Defined.

(** The first slot holds the record, the others are free. *)
Lemma demo_filled_slots i : in_range i ->
  i = 0 \/ record_valid (record_in (medium demo_spool_storage demo_filled) i) = false.
Proof.
  intros Hi. assert (Forall (fun i => i = 0 \/ record_valid (record_in (medium demo_spool_storage demo_filled) i) = false)
    slots) as Hall.
  { apply List.Forall_forall. intros j Hj. repeat (destruct Hj as [<-|Hj]; [(left; reflexivity) || (right; vm_compute; reflexivity)|]).
    destruct Hj. }
  rewrite Forall_forall in Hall. apply Hall. by apply slots_range.
Qed.

Lemma demo_sequence : rec_sequence (record_in (medium demo_spool_storage demo_filled) 0) = 9.
Proof. vm_compute. reflexivity. Qed.

Lemma spool_selects_first_witness :
  let run := first_loop demo_spool_storage slots None demo_filled in
  exists rec, fst run = Ok (Some (0, rec)) /\ is_committed rec = true.
Proof.
  intros run. set (rec := record_in (medium demo_spool_storage demo_filled) 0).
  assert (fst run = Ok (Some (0, rec))) as Hr by (vm_compute; reflexivity).
  assert (run = (Ok (Some (0, rec)), snd run)) as Hrun by (rewrite <- Hr; apply surjective_pairing).
  exists rec. split; [exact Hr|].
  refine (proj1 (proj2 (proj2 (spool_selects_first demo_spool_storage 0 demo_filled (Some (0, rec)) (snd run)
    _ demo_filled_inv _ Hrun)))).
  - vm_compute. discriminate.
  - intros i Hi Hc. destruct (demo_filled_slots i Hi) as [->|Hv].
    + rewrite demo_sequence. reflexivity.
    + unfold is_committed in Hc. rewrite Hv in Hc. discriminate Hc.
Defined.

Lemma spool_init_resumes_witness :
  let run := ls_spool_init (Some demo_spool_storage) demo_filled in
  fst run = LS_OK /\ 9 <= age 0 (rt_sequence (ram (snd run))).
Proof.
  intros run.
  assert (record_valid (record_in (medium demo_spool_storage demo_filled) 0) = true) as Hv by (vm_compute; reflexivity).
  assert (in_range 0) as H0 by (clear; unfold in_range, LS_SPOOL_MAX_RECORDS; lia).
  destruct (spool_init_resumes demo_spool_storage 0 demo_filled (fst run) (snd run)) as (H1 & _ & _ & _ & H2).
  - vm_compute. discriminate.
  - exact demo_filled_inv.
  - vm_compute. reflexivity.
  - split.
    + vm_compute. reflexivity.
    + vm_compute. reflexivity.
    + intros i Hi Hvi. destruct (demo_filled_slots i Hi) as [->|Hn]; [rewrite demo_sequence; reflexivity|congruence].
  - right. exists 0. split; [exact H0|exact Hv].
  - apply surjective_pairing.
  - split; [exact H1|]. specialize (H2 0 H0 Hv). rewrite demo_sequence in H2. exact H2.
Defined.

Lemma demo_unrecognised : ~ recognised (medium demo_spool_storage demo_spool).
Proof.
  intros [H|(i & Hi & H)].
  - vm_compute in H. discriminate H.
  - pose proof (slot_inside i Hi). change record_size with 4124 in *. rewrite spool_size_value in *.
    unfold record_in in H. change (medium demo_spool_storage demo_spool) with (fill 33024 255) in H.
    unfold spool_record_bytes in H. rewrite slice_fill in H by lia. vm_compute in H. discriminate H.
Qed.

Lemma spool_init_formats_witness :
  let run := ls_spool_init (Some demo_spool_storage) demo_spool in
  fst run = LS_OK /\ forall i, in_range i -> slot_free (medium demo_spool_storage (snd run)) i.
Proof.
  intros run.
  destruct (spool_init_formats demo_spool_storage demo_spool (fst run) (snd run)) as (H1 & _ & _ & H2).
  - vm_compute. discriminate.
  - split; vm_compute; reflexivity || discriminate.
  - eexists. reflexivity.
  - vm_compute. reflexivity.
  - exact demo_spool_inv.
  - vm_compute. reflexivity.
  - split; vm_compute; reflexivity || discriminate.
  - exact demo_unrecognised.
  - apply surjective_pairing.
  - split; [exact H1|exact H2].
Defined.

(** ** An accepted envelope that is never sent

    [ls_spool_append] checks the envelope but not its type; [record_valid] requires
    one of the known types.  An envelope of another type is stored, and reported as
    stored, in a slot that no flush will ever select. *)
Theorem append_unknown_type {E D} (raw : ls_storage_backend_t (platform D)) `{!StorageOk raw}
    data prio info (p : @sstate E D) r p' :
  ls_spool_storage_size <= capacity raw -> inv (snd (dev p)) -> bytes_ok data -> 0 <= prio ->
  ls_envelope_validate (Some data) = Ok info -> type info < LS_EVENT_CRASH \/ LS_EVENT_COREDUMP < type info ->
  ls_spool_append (Some raw) (Some data) prio p = (r, p') ->
  forall i, in_range i -> entry_in (medium raw p') i = entry_in (medium raw p) i.
Proof.
  intros Hcap Hi Hd Hp Hv Ht H i Hir. pose proof (append_einval raw data prio p r p' H) as [[-> ->]|[Hl Hpr]]; [done|].
  rewrite append_unfold in H by done.
  apply (append_with_spec raw Hcap data prio info) in H as [(Hr & Hi' & Hm & _)|H]; try done; [by rewrite Hm|].
  destruct H as (s & Hs & Hsr & Hf & _ & q & Hq & [A1 A2 A3 A4 A5 A6]). rewrite (q_medium _ _ _ Hq) in A2.
  destruct (decide (i = s)) as [->|Hne]; [|by apply (entry_in_outside _ _ i s)].
  assert (entry_in (medium raw p) s = None) as ->.
  { apply uncommitted; [done|by eapply medium_size|]. unfold slot_free, spool_record_bytes in Hf.
    apply (f_equal (slice 24 1)) in Hf. pose proof (slot_inside s Hsr). rewrite slice_slice, slice_fill in Hf by lia. done. }
  destruct A4 as [?|[Hr _]]; [done|]. apply entry_none. rewrite Hr. unfold is_committed. rewrite with_state_valid.
  replace (record_valid (fresh_record data prio info)) with false; [done|]. symmetry. unfold record_valid.
  change (rec_event_type (fresh_record data prio info)) with (type info). destruct Ht as [Ht|Ht].
  - rewrite (proj2 (Z.leb_gt LS_EVENT_CRASH (type info))) by done. rewrite !andb_false_r. done.
  - rewrite (proj2 (Z.leb_gt (type info) LS_EVENT_COREDUMP)) by done. rewrite !andb_false_r. done.
Qed.

Example append_unknown_type_accepted :
  let info := {| version := 1; type := 9; architecture := 2; flags := 0; sequence := 9; event_id := 77;
                 payload_length := 6 |} in
  let data := envelope_bytes info (encode_tlvs [(3, [1; 2])]) [] in
  ls_envelope_validate (Some data) = Ok info /\
  fst (ls_spool_append (Some demo_spool_storage) (Some data) 2 demo_spool) = LS_OK.
Proof. split; vm_compute; reflexivity. Qed.
