(* ===== verification/Boot.v ===== *)
(** * Boot state, releases and updates ([src/core/boot.c], [ls_boot] of [src/core/runtime.c])

    The persistent boot record behind the spool area: its layout and its two older
    layouts, loading and saving, the failure count that arms safe mode, and the
    anti-rollback state of firmware updates. *)

From stdpp Require Import relations.
From S2P Require Import Prelude Util FaultInjection Storage FlashLayer Envelope Transport Spool.

Definition LS_BOOT_MAGIC : Z := 0x544f4f42.
Definition LS_BOOT_VERSION : Z := 3.
Definition LS_BOOT_VERSION_V2 : Z := 2.
Definition LS_BOOT_VERSION_LEGACY : Z := 1.
Definition LS_BOOT_LOOP_THRESHOLD : Z := 3.
Definition LS_BOOT_LOOP_WINDOW_MS : Z := 60000.

Definition LS_UPDATE_NONE : Z := 0.
Definition LS_UPDATE_PENDING : Z := 1.
Definition LS_UPDATE_CONFIRMED : Z := 2.
Definition LS_UPDATE_ROLLED_BACK : Z := 3.

(** ** The persistent record

    The members of [ls_persistent_boot_t] in the order of the structure, grouped:
    versions 1 and 2 of the record are the same structure without the later groups. *)
Record boot_part : Type := {
  boot_count : Z;
  previous_uptime_ms : Z;
  consecutive_failures : Z;
  first_failure_ms : Z;
  last_sequence : Z;
  pending_crash_id : Z;
  release_hash : Z;
  crash_pending : Z;
  expected_reset : Z;
  boot_successful : Z;
  release_state : Z;
}.

Record update_part : Type := {
  update_version_floor : Z;
  update_pending_version : Z;
  update_image_fingerprint : Z;
  update_signing_key_id : Z;
  update_rollback_count : Z;
  update_state : Z;
  update_reserved : Z;
}.

Record provision_part : Type := {
  provision_key_id : Z;
  provision_pending_key_id : Z;
  provision_generation : Z;
  provision_monotonic_counter : Z;
  provision_state : Z;
  provision_reserved : Z;
}.

Record ls_persistent_boot_t : Type := {
  pb_magic : Z;
  pb_version : Z;
  pb_boot : boot_part;
  pb_update : update_part;
  pb_provision : provision_part;
  pb_crc : Z;
}.

Record ls_persistent_boot_v1_t : Type := {
  v1_magic : Z;
  v1_version : Z;
  v1_boot : boot_part;
  v1_crc : Z;
}.

Record ls_persistent_boot_v2_t : Type := {
  v2_magic : Z;
  v2_version : Z;
  v2_boot : boot_part;
  v2_update : update_part;
  v2_crc : Z;
}.

Definition boot_layout : list nat := [4; 4; 4; 4; 4; 4; 4; 1; 1; 1; 1]%nat.
Definition update_layout : list nat := [4; 4; 4; 4; 4; 1; 3]%nat.
Definition provision_layout : list nat := [4; 4; 4; 4; 1; 3]%nat.

Definition boot_values (b : boot_part) : list Z :=
  [boot_count b; previous_uptime_ms b; consecutive_failures b; first_failure_ms b; last_sequence b;
   pending_crash_id b; release_hash b; crash_pending b; expected_reset b; boot_successful b; release_state b].

Definition update_values (u : update_part) : list Z :=
  [update_version_floor u; update_pending_version u; update_image_fingerprint u; update_signing_key_id u;
   update_rollback_count u; update_state u; update_reserved u].

Definition provision_values (v : provision_part) : list Z :=
  [provision_key_id v; provision_pending_key_id v; provision_generation v; provision_monotonic_counter v;
   provision_state v; provision_reserved v].

Definition boot_of (l : list Z) : boot_part :=
  let f := fun i => default 0 (l !! i) in
  {| boot_count := f 0%nat; previous_uptime_ms := f 1%nat; consecutive_failures := f 2%nat;
     first_failure_ms := f 3%nat; last_sequence := f 4%nat; pending_crash_id := f 5%nat; release_hash := f 6%nat;
     crash_pending := f 7%nat; expected_reset := f 8%nat; boot_successful := f 9%nat; release_state := f 10%nat |}.

Definition update_of (l : list Z) : update_part :=
  let f := fun i => default 0 (l !! i) in
  {| update_version_floor := f 0%nat; update_pending_version := f 1%nat; update_image_fingerprint := f 2%nat;
     update_signing_key_id := f 3%nat; update_rollback_count := f 4%nat; update_state := f 5%nat;
     update_reserved := f 6%nat |}.

Definition provision_of (l : list Z) : provision_part :=
  let f := fun i => default 0 (l !! i) in
  {| provision_key_id := f 0%nat; provision_pending_key_id := f 1%nat; provision_generation := f 2%nat;
     provision_monotonic_counter := f 3%nat; provision_state := f 4%nat; provision_reserved := f 5%nat |}.

(** The three structures as memory: 88, 44 and 68 bytes. *)
Definition boot_pack (s : ls_persistent_boot_t) : list Z :=
  le 4 (pb_magic s) ++ le 4 (pb_version s) ++ pack boot_layout (boot_values (pb_boot s)) ++
  pack update_layout (update_values (pb_update s)) ++ pack provision_layout (provision_values (pb_provision s)) ++
  le 4 (pb_crc s).

Definition boot_v1_pack (s : ls_persistent_boot_v1_t) : list Z :=
  le 4 (v1_magic s) ++ le 4 (v1_version s) ++ pack boot_layout (boot_values (v1_boot s)) ++ le 4 (v1_crc s).

Definition boot_v2_pack (s : ls_persistent_boot_v2_t) : list Z :=
  le 4 (v2_magic s) ++ le 4 (v2_version s) ++ pack boot_layout (boot_values (v2_boot s)) ++
  pack update_layout (update_values (v2_update s)) ++ le 4 (v2_crc s).

Definition boot_v1_size : Z := 44.
Definition boot_v2_size : Z := 68.

Definition boot_unpack (bs : list Z) : ls_persistent_boot_t :=
  {| pb_magic := read_u32 bs 0; pb_version := read_u32 bs 4;
     pb_boot := boot_of (unpack boot_layout (slice 8 32 bs));
     pb_update := update_of (unpack update_layout (slice 40 24 bs));
     pb_provision := provision_of (unpack provision_layout (slice 64 20 bs));
     pb_crc := read_u32 bs 84 |}.

Definition boot_v1_unpack (bs : list Z) : ls_persistent_boot_v1_t :=
  {| v1_magic := read_u32 bs 0; v1_version := read_u32 bs 4;
     v1_boot := boot_of (unpack boot_layout (slice 8 32 bs)); v1_crc := read_u32 bs 40 |}.

Definition boot_v2_unpack (bs : list Z) : ls_persistent_boot_v2_t :=
  {| v2_magic := read_u32 bs 0; v2_version := read_u32 bs 4;
     v2_boot := boot_of (unpack boot_layout (slice 8 32 bs));
     v2_update := update_of (unpack update_layout (slice 40 24 bs)); v2_crc := read_u32 bs 64 |}.

Definition boot_offset : Z := ls_spool_storage_size.

Definition boot_crc (s : ls_persistent_boot_t) : Z := ls_crc32 (slice 0 84 (boot_pack s)).
Definition boot_v1_crc (s : ls_persistent_boot_v1_t) : Z := ls_crc32 (slice 0 40 (boot_v1_pack s)).
Definition boot_v2_crc (s : ls_persistent_boot_v2_t) : Z := ls_crc32 (slice 0 64 (boot_v2_pack s)).

Definition zero_boot : boot_part := boot_of [].
Definition zero_update : update_part := update_of [].
Definition zero_provision : provision_part := provision_of [].

(** [ls_memset(&ls_runtime.persistent, 0, sizeof ...)]. *)
Definition zero_persistent : ls_persistent_boot_t :=
  {| pb_magic := 0; pb_version := 0; pb_boot := zero_boot; pb_update := zero_update;
     pb_provision := zero_provision; pb_crc := 0 |}.

Definition with_prefix (s : ls_persistent_boot_t) : ls_persistent_boot_t :=
  {| pb_magic := LS_BOOT_MAGIC; pb_version := LS_BOOT_VERSION; pb_boot := pb_boot s; pb_update := pb_update s;
     pb_provision := pb_provision s; pb_crc := pb_crc s |}.

(** [boot_from_v1] writes the members of the old record over the current one. *)
Definition boot_from_v1 (legacy : ls_persistent_boot_v1_t) (s : ls_persistent_boot_t) : ls_persistent_boot_t :=
  {| pb_magic := LS_BOOT_MAGIC; pb_version := LS_BOOT_VERSION; pb_boot := v1_boot legacy; pb_update := pb_update s;
     pb_provision := pb_provision s; pb_crc := pb_crc s |}.

(** [boot_from_v2] clears the record first; it does not copy the reserved bytes. *)
Definition boot_from_v2 (legacy : ls_persistent_boot_v2_t) : ls_persistent_boot_t :=
  let u := v2_update legacy in
  {| pb_magic := LS_BOOT_MAGIC; pb_version := LS_BOOT_VERSION; pb_boot := v2_boot legacy;
     pb_update := {| update_version_floor := update_version_floor u;
                     update_pending_version := update_pending_version u;
                     update_image_fingerprint := update_image_fingerprint u;
                     update_signing_key_id := update_signing_key_id u;
                     update_rollback_count := update_rollback_count u; update_state := update_state u;
                     update_reserved := 0 |};
     pb_provision := zero_provision; pb_crc := 0 |}.

(** ** The runtime *)

Inductive ls_reset_reason_t : Type :=
  LS_RESET_UNKNOWN | LS_RESET_POWER_ON | LS_RESET_PIN | LS_RESET_SOFTWARE | LS_RESET_WATCHDOG
| LS_RESET_INDEPENDENT_WATCHDOG | LS_RESET_WINDOW_WATCHDOG | LS_RESET_BROWNOUT | LS_RESET_LOW_POWER_WAKE
| LS_RESET_LOCKUP | LS_RESET_SECURITY | LS_RESET_BOOTLOADER | LS_RESET_FIRMWARE_UPDATE | LS_RESET_CLOCK_FAILURE.

Record ls_reset_info_t : Type := {
  reason : ls_reset_reason_t;
  raw_reason : Z;
  ri_boot_count : Z;
  ri_previous_uptime_ms : Z;
  ri_expected : bool;
  ri_crash_pending : bool;
  ri_boot_loop : bool;
}.

(** The fields of [ls_runtime] these functions use.  [world] is the state behind the
    integrator's clock and reset callbacks; [spool_rt] holds the spool's fields, the
    sequence number among them. *)
Record boot_runtime (E W : Type) : Type := {
  persistent : ls_persistent_boot_t;
  spool_rt : spool_runtime E;
  boot_started_ms : Z;
  b_boot_count : Z;
  reset_info : ls_reset_info_t;
  previous_crashed : bool;
  boot_loop : bool;
  safe_mode : bool;
  powerfail_last_valid : bool;
  world : W;
}.
Arguments persistent {E W} _.
Arguments spool_rt {E W} _.
Arguments boot_started_ms {E W} _.
Arguments b_boot_count {E W} _.
Arguments reset_info {E W} _.
Arguments previous_crashed {E W} _.
Arguments boot_loop {E W} _.
Arguments safe_mode {E W} _.
Arguments powerfail_last_valid {E W} _.
Arguments world {E W} _.

Record ls_update_state_t : Type := {
  us_confirmed_version_floor : Z;
  us_pending_version : Z;
  us_image_fingerprint : Z;
  us_signing_key_id : Z;
  us_rollback_count : Z;
  us_state : Z;
}.

Definition with_boot (f : boot_part -> boot_part) (s : ls_persistent_boot_t) : ls_persistent_boot_t :=
  {| pb_magic := pb_magic s; pb_version := pb_version s; pb_boot := f (pb_boot s); pb_update := pb_update s;
     pb_provision := pb_provision s; pb_crc := pb_crc s |}.

Definition with_update (f : update_part -> update_part) (s : ls_persistent_boot_t) : ls_persistent_boot_t :=
  {| pb_magic := pb_magic s; pb_version := pb_version s; pb_boot := pb_boot s; pb_update := f (pb_update s);
     pb_provision := pb_provision s; pb_crc := pb_crc s |}.

Definition with_provision (f : provision_part -> provision_part) (s : ls_persistent_boot_t) : ls_persistent_boot_t :=
  {| pb_magic := pb_magic s; pb_version := pb_version s; pb_boot := pb_boot s; pb_update := pb_update s;
     pb_provision := f (pb_provision s); pb_crc := pb_crc s |}.

Definition with_crc (c : Z) (s : ls_persistent_boot_t) : ls_persistent_boot_t :=
  {| pb_magic := pb_magic s; pb_version := pb_version s; pb_boot := pb_boot s; pb_update := pb_update s;
     pb_provision := pb_provision s; pb_crc := c |}.

(** The assignments to members of the boot group. *)
Definition set_saved (uptime sequence : Z) (b : boot_part) : boot_part :=
  {| boot_count := boot_count b; previous_uptime_ms := uptime; consecutive_failures := consecutive_failures b;
     first_failure_ms := first_failure_ms b; last_sequence := sequence; pending_crash_id := pending_crash_id b;
     release_hash := release_hash b; crash_pending := crash_pending b; expected_reset := expected_reset b;
     boot_successful := boot_successful b; release_state := release_state b |}.

Definition set_crash (event_id : Z) (b : boot_part) : boot_part :=
  {| boot_count := boot_count b; previous_uptime_ms := previous_uptime_ms b;
     consecutive_failures := consecutive_failures b; first_failure_ms := first_failure_ms b;
     last_sequence := last_sequence b; pending_crash_id := event_id; release_hash := release_hash b;
     crash_pending := 1; expected_reset := expected_reset b; boot_successful := 0; release_state := release_state b |}.

Definition set_expected (v : Z) (b : boot_part) : boot_part :=
  {| boot_count := boot_count b; previous_uptime_ms := previous_uptime_ms b;
     consecutive_failures := consecutive_failures b; first_failure_ms := first_failure_ms b;
     last_sequence := last_sequence b; pending_crash_id := pending_crash_id b; release_hash := release_hash b;
     crash_pending := crash_pending b; expected_reset := v; boot_successful := boot_successful b;
     release_state := release_state b |}.

Definition set_successful (b : boot_part) : boot_part :=
  {| boot_count := boot_count b; previous_uptime_ms := previous_uptime_ms b; consecutive_failures := 0;
     first_failure_ms := first_failure_ms b; last_sequence := last_sequence b;
     pending_crash_id := pending_crash_id b; release_hash := release_hash b; crash_pending := 0;
     expected_reset := expected_reset b; boot_successful := 1; release_state := release_state b |}.

Definition set_release (hash state : Z) (b : boot_part) : boot_part :=
  {| boot_count := boot_count b; previous_uptime_ms := previous_uptime_ms b;
     consecutive_failures := consecutive_failures b; first_failure_ms := first_failure_ms b;
     last_sequence := last_sequence b; pending_crash_id := pending_crash_id b; release_hash := hash;
     crash_pending := crash_pending b; expected_reset := expected_reset b; boot_successful := boot_successful b;
     release_state := state |}.

Section Boot.
Context {E W D : Type}.
Local Abbreviation rt := (boot_runtime E W).

Definition bstate : Type := platform (rt * D).

Definition with_persistent (f : ls_persistent_boot_t -> ls_persistent_boot_t) (m : rt) : rt :=
  {| persistent := f (persistent m); spool_rt := spool_rt m; boot_started_ms := boot_started_ms m;
     b_boot_count := b_boot_count m; reset_info := reset_info m; previous_crashed := previous_crashed m;
     boot_loop := boot_loop m; safe_mode := safe_mode m; powerfail_last_valid := powerfail_last_valid m;
     world := world m |}.

Definition with_world (w : W) (m : rt) : rt :=
  {| persistent := persistent m; spool_rt := spool_rt m; boot_started_ms := boot_started_ms m;
     b_boot_count := b_boot_count m; reset_info := reset_info m; previous_crashed := previous_crashed m;
     boot_loop := boot_loop m; safe_mode := safe_mode m; powerfail_last_valid := powerfail_last_valid m;
     world := w |}.

Definition set_persistent (f : ls_persistent_boot_t -> ls_persistent_boot_t) : st bstate unit :=
  set_ram (with_persistent f).

(** [ls_runtime.config.timestamp_ms], [ls_runtime.config.reset_info] and
    [ls_runtime.storage]. *)
Context (timestamp_ms : option (st W Z)) (storage : option (ls_storage_backend_t (platform D))).

Definition ls_timestamp : st bstate Z := fun p =>
  match timestamp_ms with
  | None => (0, p)
  | Some clock =>
      let '(t, w) := clock (world (ram p)) in
      let '(_, p) := set_ram (with_world w) p in (t, p)
  end.

Definition ls_uptime_ms : st bstate Z := fun p =>
  let '(now, p) := ls_timestamp p in (u32 (now - boot_started_ms (ram p)), p).

(** *** Loading and saving *)

(** The failed checks of [ls_boot_state_load] leave a blank current record. *)
Definition load_failed (e : ls_result_t) : st bstate ls_result_t := fun p =>
  let '(_, p) := set_persistent with_prefix p in (e, p).

Definition load_v1 (raw : ls_storage_backend_t (platform D)) : st bstate ls_result_t := fun p =>
  let '(r, p) := raw_read raw boot_offset boot_v1_size p in
  match r with
  | Err e => (e, p)
  | Ok bs =>
      let legacy := boot_v1_unpack bs in
      if negb (v1_crc legacy =? boot_v1_crc legacy) then load_failed LS_ECORRUPT p
      else let '(_, p) := set_persistent (boot_from_v1 legacy) p in (LS_OK, p)
  end.

Definition load_v2 (raw : ls_storage_backend_t (platform D)) : st bstate ls_result_t := fun p =>
  if capacity raw <? boot_offset + boot_v2_size then (LS_ENOSPACE, p)
  else
    let '(r, p) := raw_read raw boot_offset boot_v2_size p in
    match r with
    | Err e => (e, p)
    | Ok bs =>
        let legacy := boot_v2_unpack bs in
        if negb (v2_crc legacy =? boot_v2_crc legacy) then load_failed LS_ECORRUPT p
        else let '(_, p) := set_persistent (fun _ => boot_from_v2 legacy) p in (LS_OK, p)
    end.

Definition load_current (raw : ls_storage_backend_t (platform D)) : st bstate ls_result_t := fun p =>
  let '(r, p) := raw_read raw boot_offset boot_state_size p in
  match r with
  | Err e => (e, p)
  | Ok bs =>
      let state := boot_unpack bs in
      if negb (pb_crc state =? boot_crc state) then load_failed LS_ECORRUPT p
      else let '(_, p) := set_persistent (fun _ => state) p in (LS_OK, p)
  end.

Definition ls_boot_state_load : st bstate ls_result_t := fun p =>
  let '(_, p) := set_persistent (fun _ => zero_persistent) p in
  match storage with
  | None => (LS_OK, p)
  | Some raw =>
      if capacity raw <? boot_offset + boot_v1_size then (LS_ENOSPACE, p)
      else
        let '(r, p) := raw_read raw boot_offset 8 p in
        match r with
        | Err e => (e, p)
        | Ok prefix =>
            let version := read_u32 prefix 4 in
            if negb (read_u32 prefix 0 =? LS_BOOT_MAGIC) then load_failed LS_ECORRUPT p
            else if version =? LS_BOOT_VERSION_LEGACY then load_v1 raw p
            else if version =? LS_BOOT_VERSION_V2 then load_v2 raw p
            else if negb (version =? LS_BOOT_VERSION) || (capacity raw <? boot_offset + boot_state_size)
            then load_failed (if version =? LS_BOOT_VERSION then LS_ENOSPACE else LS_ECORRUPT) p
            else load_current raw p
        end
  end.

Definition ls_boot_state_save : st bstate ls_result_t := fun p =>
  match storage with
  | None => (LS_OK, p)
  | Some raw =>
      if capacity raw <? boot_offset + boot_state_size then (LS_ENOSPACE, p)
      else
        let '(_, p) := set_persistent with_prefix p in
        let '(uptime, p) := ls_uptime_ms p in
        let '(_, p) := set_persistent (with_boot (set_saved uptime (rt_sequence (spool_rt (ram p))))) p in
        let '(_, p) := set_persistent (fun s => with_crc (boot_crc s) s) p in
        (on_raw (ls_storage_program raw boot_offset (boot_pack (persistent (ram p)))) ;;? raw_sync raw) p
  end.

(** [(void)ls_boot_state_save()] after a change of the record. *)
Definition change_and_save (f : ls_persistent_boot_t -> ls_persistent_boot_t) : st bstate ls_result_t := fun p =>
  let '(_, p) := set_persistent f p in ls_boot_state_save p.

Definition ls_boot_state_mark_crash (event_id : Z) : st bstate unit := fun p =>
  let '(_, p) := change_and_save (with_boot (set_crash event_id)) p in (tt, p).

Definition set_reset_expected (e : bool) (m : rt) : rt :=
  let i := reset_info m in
  {| persistent := persistent m; spool_rt := spool_rt m; boot_started_ms := boot_started_ms m;
     b_boot_count := b_boot_count m;
     reset_info := {| reason := reason i; raw_reason := raw_reason i; ri_boot_count := ri_boot_count i;
                      ri_previous_uptime_ms := ri_previous_uptime_ms i; ri_expected := e;
                      ri_crash_pending := ri_crash_pending i; ri_boot_loop := ri_boot_loop i |};
     previous_crashed := previous_crashed m; boot_loop := boot_loop m; safe_mode := safe_mode m;
     powerfail_last_valid := powerfail_last_valid m; world := world m |}.

Definition ls_reset_mark_expected (expected : bool) : st bstate unit := fun p =>
  let '(_, p) := set_persistent (with_boot (set_expected (if expected then 1 else 0))) p in
  let '(_, p) := set_ram (set_reset_expected expected) p in
  let '(_, p) := ls_boot_state_save p in (tt, p).

Definition clear_powerfail (m : rt) : rt :=
  {| persistent := persistent m; spool_rt := spool_rt m; boot_started_ms := boot_started_ms m;
     b_boot_count := b_boot_count m; reset_info := reset_info m; previous_crashed := previous_crashed m;
     boot_loop := boot_loop m; safe_mode := safe_mode m; powerfail_last_valid := false; world := world m |}.

Definition ls_boot_mark_successful : st bstate unit := fun p =>
  let '(_, p) := set_persistent (with_boot set_successful) p in
  let '(_, p) := set_ram clear_powerfail p in
  let '(_, p) := ls_boot_state_save p in (tt, p).

Definition ls_safe_mode_requested (m : rt) : bool := safe_mode m.

Definition ls_release_mark_pending (release : option (list Z)) : st bstate unit := fun p =>
  let '(_, p) := change_and_save (with_boot (set_release (ls_hash_string release) 1)) p in (tt, p).

Definition ls_release_confirm : st bstate unit := fun p =>
  let '(_, p) := change_and_save (with_boot (fun b => set_release (release_hash b) 2 b)) p in (tt, p).

Definition ls_release_mark_rollback : st bstate unit := fun p =>
  let '(_, p) := change_and_save (with_boot (fun b => set_release (release_hash b) 3 b)) p in (tt, p).

(** *** Updates *)

Local Abbreviation update_now p := (pb_update (persistent (ram p))).

Definition ls_update_version_allowed (version : Z) (u : update_part) : bool :=
  negb (version =? 0) && (update_version_floor u <=? version).

Definition ls_update_stage (version fingerprint key : Z) : st bstate ls_result_t := fun p =>
  if negb (ls_update_version_allowed version (update_now p)) || (fingerprint =? 0) || (key =? 0)
  then (LS_EINVAL, p)
  else
    change_and_save (with_update (fun u =>
      {| update_version_floor := update_version_floor u; update_pending_version := version;
         update_image_fingerprint := fingerprint; update_signing_key_id := key;
         update_rollback_count := update_rollback_count u; update_state := LS_UPDATE_PENDING;
         update_reserved := update_reserved u |})) p.

(** [state != PENDING || version == 0 || version != pending_version]. *)
Definition not_pending (version : Z) (u : update_part) : bool :=
  negb (update_state u =? LS_UPDATE_PENDING) || (version =? 0) || negb (version =? update_pending_version u).

Definition ls_update_confirm_version (version : Z) : st bstate ls_result_t := fun p =>
  if not_pending version (update_now p) then (LS_EINVAL, p)
  else
    change_and_save (with_update (fun u =>
      {| update_version_floor := if update_version_floor u <? version then version else update_version_floor u;
         update_pending_version := 0; update_image_fingerprint := update_image_fingerprint u;
         update_signing_key_id := update_signing_key_id u; update_rollback_count := update_rollback_count u;
         update_state := LS_UPDATE_CONFIRMED; update_reserved := update_reserved u |})) p.

Definition ls_update_mark_version_rollback (version : Z) : st bstate ls_result_t := fun p =>
  if not_pending version (update_now p) then (LS_EINVAL, p)
  else
    change_and_save (with_update (fun u =>
      {| update_version_floor := update_version_floor u; update_pending_version := 0;
         update_image_fingerprint := update_image_fingerprint u; update_signing_key_id := update_signing_key_id u;
         update_rollback_count := if negb (update_rollback_count u =? UINT32_MAX)
                                  then u32 (update_rollback_count u + 1) else update_rollback_count u;
         update_state := LS_UPDATE_ROLLED_BACK; update_reserved := update_reserved u |})) p.

Definition ls_update_abort_stage (version : Z) : st bstate ls_result_t := fun p =>
  if not_pending version (update_now p) then (LS_EINVAL, p)
  else
    change_and_save (with_update (fun u =>
      {| update_version_floor := update_version_floor u; update_pending_version := 0; update_image_fingerprint := 0;
         update_signing_key_id := 0; update_rollback_count := update_rollback_count u;
         update_state := LS_UPDATE_NONE; update_reserved := update_reserved u |})) p.

Definition ls_update_get_state (m : rt) : ls_update_state_t :=
  let u := pb_update (persistent m) in
  {| us_confirmed_version_floor := update_version_floor u; us_pending_version := update_pending_version u;
     us_image_fingerprint := update_image_fingerprint u; us_signing_key_id := update_signing_key_id u;
     us_rollback_count := update_rollback_count u; us_state := update_state u |}.

(** *** Booting *)

(** The reset causes that count as failures. *)
Definition reset_failure (r : ls_reset_reason_t) : bool :=
  match r with
  | LS_RESET_WATCHDOG | LS_RESET_INDEPENDENT_WATCHDOG | LS_RESET_WINDOW_WATCHDOG | LS_RESET_LOCKUP => true
  | _ => false
  end.

(** The failure count after this boot. *)
Definition failures_after (crashed failed : bool) (b : boot_part) : Z :=
  if crashed || failed then
    if previous_uptime_ms b <=? LS_BOOT_LOOP_WINDOW_MS then u32 (consecutive_failures b + 1) else 1
  else if negb (boot_successful b =? 0) then 0
  else consecutive_failures b.

(** [ls_boot] between reading the clock and saving the record, for the reset
    information [info] of the platform and a snapshot retained over the reset. *)
Definition boot_decide (started : Z) (info : ls_reset_info_t) (retained_fault : bool) (m : rt) : rt :=
  let b := pb_boot (persistent m) in
  let crashed := negb (crash_pending b =? 0) || retained_fault in
  let expected := negb (expected_reset b =? 0) in
  let failures := failures_after crashed (reset_failure (reason info) && negb expected) b in
  let loop := LS_BOOT_LOOP_THRESHOLD <=? failures in
  let count := u32 (boot_count b + 1) in
  let s := spool_rt m in
  {| persistent := with_boot (fun b =>
       {| boot_count := count; previous_uptime_ms := previous_uptime_ms b; consecutive_failures := failures;
          first_failure_ms := first_failure_ms b; last_sequence := last_sequence b;
          pending_crash_id := pending_crash_id b; release_hash := release_hash b; crash_pending := 0;
          expected_reset := 0; boot_successful := 0; release_state := release_state b |}) (persistent m);
     spool_rt := if rt_sequence s <? last_sequence b then with_sequence (last_sequence b) s else s;
     boot_started_ms := started; b_boot_count := count;
     reset_info := {| reason := reason info; raw_reason := raw_reason info; ri_boot_count := count;
                      ri_previous_uptime_ms := previous_uptime_ms b; ri_expected := expected;
                      ri_crash_pending := crashed; ri_boot_loop := loop |};
     previous_crashed := crashed; boot_loop := loop; safe_mode := loop;
     powerfail_last_valid := powerfail_last_valid m; world := world m |}.

Definition with_spool (x : spool_runtime E) (m : rt) : rt :=
  {| persistent := persistent m; spool_rt := x; boot_started_ms := boot_started_ms m;
     b_boot_count := b_boot_count m; reset_info := reset_info m; previous_crashed := previous_crashed m;
     boot_loop := boot_loop m; safe_mode := safe_mode m; powerfail_last_valid := powerfail_last_valid m;
     world := world m |}.

(** A call into the spool. *)
Definition on_spool {A} (f : st (@sstate E D) A) : st bstate A := fun p =>
  let '(a, q) := f {| faults := faults p; dev := (spool_rt (ram p), snd (dev p)) |} in
  (a, {| faults := faults q; dev := (with_spool (fst (dev q)) (ram p), snd (dev q)) |}).

(** [ls_runtime.config.reset_info], whether a snapshot survived the reset
    ([ls_minimal_snapshot_read]), and what follows a successful save
    ([ls_powerfail_recover] and [ls_capture_minimal_recover]), all of other parts of
    the program, are arguments. *)
Definition ls_boot (initialized : bool) (reset_info_fn : option (st W ls_reset_info_t)) (retained_fault : bool)
    (recover : st bstate unit) : st bstate ls_result_t := fun p =>
  if negb initialized then (LS_EINVAL, p)
  else
    let '(r, p) := on_spool (ls_spool_init storage) p in
    if negb (is_ok r) then (r, p)
    else
      let '(r, p) := ls_boot_state_load p in
      if negb (is_ok r) && negb (bool_decide (r = LS_ECORRUPT)) then (r, p)
      else
        let '(started, p) := ls_timestamp p in
        let '(info, p) :=
          match reset_info_fn with
          | None => ({| reason := LS_RESET_UNKNOWN; raw_reason := 0; ri_boot_count := 0; ri_previous_uptime_ms := 0;
                        ri_expected := false; ri_crash_pending := false; ri_boot_loop := false |}, p)
          | Some f =>
              let '(info, w) := f (world (ram p)) in
              let '(_, p) := set_ram (with_world w) p in (info, p)
          end in
        let '(_, p) := set_ram (boot_decide started info retained_fault) p in
        let '(r, p) := ls_boot_state_save p in
        if negb (is_ok r) then (r, p)
        else let '(_, p) := recover p in (LS_OK, p).
End Boot.

(** The boot state within a larger runtime, and a call into it. *)
Section Within.
Context {E W D K : Type}.
Local Abbreviation state := (platform ((boot_runtime E W * K) * D)).

Definition boot_within (p : state) : @bstate E W D := {| faults := faults p; dev := (fst (ram p), snd (dev p)) |}.

Definition on_boot {A} (f : st (@bstate E W D) A) : st state A := fun p =>
  let '(a, q) := f (boot_within p) in
  (a, {| faults := faults q; dev := ((fst (dev q), snd (ram p)), snd (dev q)) |}).

Lemma on_boot_inv {A} (f : st (@bstate E W D) A) p a p' : on_boot f p = (a, p') ->
  f (boot_within p) = (a, boot_within p') /\ snd (ram p') = snd (ram p).
Proof. unfold on_boot. destruct (f _) as [a0 [fl [m d]]]. by intros [= <- <-]. Qed.
End Within.

(** ** The record as bytes *)

Definition boot_part_ok (b : boot_part) : Prop := Forall2 fits boot_layout (boot_values b).
Definition update_part_ok (u : update_part) : Prop := Forall2 fits update_layout (update_values u).
Definition provision_part_ok (v : provision_part) : Prop := Forall2 fits provision_layout (provision_values v).

Lemma boot_of_values b rest : boot_part_ok b -> boot_of (unpack boot_layout (pack boot_layout (boot_values b) ++ rest)) = b.
Proof. intros H. rewrite unpack_pack by done. by destruct b. Qed.

Lemma update_of_values u rest : update_part_ok u ->
  update_of (unpack update_layout (pack update_layout (update_values u) ++ rest)) = u.
Proof. intros H. rewrite unpack_pack by done. by destruct u. Qed.

Lemma provision_of_values v rest : provision_part_ok v ->
  provision_of (unpack provision_layout (pack provision_layout (provision_values v) ++ rest)) = v.
Proof. intros H. rewrite unpack_pack by done. by destruct v. Qed.

Record persistent_ok (s : ls_persistent_boot_t) : Prop := {
  po_magic : is_u32 (pb_magic s);
  po_version : is_u32 (pb_version s);
  po_boot : boot_part_ok (pb_boot s);
  po_update : update_part_ok (pb_update s);
  po_provision : provision_part_ok (pb_provision s);
  po_crc : is_u32 (pb_crc s);
}.

Lemma boot_roundtrip s : persistent_ok s -> boot_unpack (boot_pack s) = s.
Proof.
  intros [H1 H2 H3 H4 H5 H6]. unfold boot_unpack, read_u32.
  change (slice 0 4 (boot_pack s)) with (le 4 (pb_magic s)). change (slice 4 4 (boot_pack s)) with (le 4 (pb_version s)).
  change (slice 8 32 (boot_pack s)) with (pack boot_layout (boot_values (pb_boot s))).
  change (slice 40 24 (boot_pack s)) with (pack update_layout (update_values (pb_update s))).
  change (slice 64 20 (boot_pack s)) with (pack provision_layout (provision_values (pb_provision s))).
  change (slice 84 4 (boot_pack s)) with (le 4 (pb_crc s)).
  rewrite <- (app_nil_r (pack boot_layout _)), <- (app_nil_r (pack update_layout _)),
    <- (app_nil_r (pack provision_layout _)).
  rewrite boot_of_values, update_of_values, provision_of_values, !le_get_le4 by done. by destruct s.
Qed.

Lemma boot_v1_roundtrip s : is_u32 (v1_magic s) -> is_u32 (v1_version s) -> boot_part_ok (v1_boot s) -> is_u32 (v1_crc s) ->
  boot_v1_unpack (boot_v1_pack s) = s.
Proof.
  intros H1 H2 H3 H4. unfold boot_v1_unpack, read_u32.
  change (slice 0 4 (boot_v1_pack s)) with (le 4 (v1_magic s)). change (slice 4 4 (boot_v1_pack s)) with (le 4 (v1_version s)).
  change (slice 8 32 (boot_v1_pack s)) with (pack boot_layout (boot_values (v1_boot s))).
  change (slice 40 4 (boot_v1_pack s)) with (le 4 (v1_crc s)).
  rewrite <- (app_nil_r (pack boot_layout _)), boot_of_values, !le_get_le4 by done. by destruct s.
Qed.

Lemma boot_v2_roundtrip s : is_u32 (v2_magic s) -> is_u32 (v2_version s) -> boot_part_ok (v2_boot s) ->
  update_part_ok (v2_update s) -> is_u32 (v2_crc s) -> boot_v2_unpack (boot_v2_pack s) = s.
Proof.
  intros H1 H2 H3 H4 H5. unfold boot_v2_unpack, read_u32.
  change (slice 0 4 (boot_v2_pack s)) with (le 4 (v2_magic s)). change (slice 4 4 (boot_v2_pack s)) with (le 4 (v2_version s)).
  change (slice 8 32 (boot_v2_pack s)) with (pack boot_layout (boot_values (v2_boot s))).
  change (slice 40 24 (boot_v2_pack s)) with (pack update_layout (update_values (v2_update s))).
  change (slice 64 4 (boot_v2_pack s)) with (le 4 (v2_crc s)).
  rewrite <- (app_nil_r (pack boot_layout _)), <- (app_nil_r (pack update_layout _)).
  rewrite boot_of_values, update_of_values, !le_get_le4 by done. by destruct s.
Qed.

Lemma boot_pack_zlen s : zlen (boot_pack s) = boot_state_size.
Proof. reflexivity. Qed.

(** The checksum does not cover its own member. *)
Lemma boot_crc_with_crc c s : boot_crc (with_crc c s) = boot_crc s.
Proof. reflexivity. Qed.

(** The first eight bytes of every layout. *)
Lemma prefix_fields bs : 8 <= zlen bs -> read_u32 (slice 0 8 bs) 0 = read_u32 bs 0 /\ read_u32 (slice 0 8 bs) 4 = read_u32 bs 4.
Proof. intros Hz. unfold read_u32. by rewrite !slice_slice by lia. Qed.

(** ** Loading *)

Section BootOk.
Context {E W D : Type} (raw : ls_storage_backend_t (platform D)) `{OK : !StorageOk raw}.
Context (timestamp_ms : option (st W Z)).
Implicit Types p : @bstate E W D.
Local Abbreviation medium := (medium raw).

(** The region of the record. *)
Definition boot_area (c : list Z) (n : Z) : list Z := slice boot_offset n c.

Lemma boot_read n p : inv (snd (dev p)) -> live (raw_of p) -> 0 <= n -> boot_offset + n <= capacity raw ->
  exists p', raw_read raw boot_offset n p = (Ok (boot_area (medium p) n), p') /\
    ram p' = ram p /\ inv (snd (dev p')) /\ medium p' = medium p /\ live (raw_of p').
Proof.
  intros Hi Hl Hn Hc. destruct (raw_read raw boot_offset n p) as [r p'] eqn:Er.
  apply (raw_read_spec raw) in Er as (H1 & H2 & H3 & H4 & _ & H5); [|done|by vm_compute|done|done].
  destruct (H5 Hl) as [Hl' [bs ->]]. rewrite (H4 bs eq_refl). by exists p'.
Qed.

Lemma boot_area_prefix c n : 8 <= n -> boot_offset + n <= zlen c -> boot_area c 8 = slice 0 8 (boot_area c n).
Proof. intros Hn Hz. unfold boot_area. rewrite slice_slice by (done || lia || by vm_compute). by rewrite Z.add_0_r. Qed.

(** Loading dispatches on the stored version. *)
Lemma load_dispatch n p bs : inv (snd (dev p)) -> live (raw_of p) -> 44 <= n -> boot_offset + n <= capacity raw ->
  boot_area (medium p) n = bs -> read_u32 bs 0 = LS_BOOT_MAGIC ->
  exists q, ram q = with_persistent (fun _ => zero_persistent) (ram p) /\ inv (snd (dev q)) /\ medium q = medium p /\
    live (raw_of q) /\
    ls_boot_state_load (Some raw) p =
      (let version := read_u32 bs 4 in
       if version =? LS_BOOT_VERSION_LEGACY then load_v1 raw q
       else if version =? LS_BOOT_VERSION_V2 then load_v2 raw q
       else if negb (version =? LS_BOOT_VERSION) || (capacity raw <? boot_offset + boot_state_size)
       then load_failed (if version =? LS_BOOT_VERSION then LS_ENOSPACE else LS_ECORRUPT) q
       else load_current raw q).
Proof.
  intros Hi Hl Hn Hc Hb Hm. unfold ls_boot_state_load. cbn [set_persistent set_ram].
  set (p0 := set_dev _ p). assert (inv (snd (dev p0)) /\ live (raw_of p0) /\ medium p0 = medium p) as (I0 & L0 & M0) by done.
  rewrite (proj2 (Z.ltb_ge (capacity raw) (boot_offset + boot_v1_size))) by (unfold boot_v1_size; lia).
  destruct (boot_read 8 p0 I0 L0) as (q & -> & R1 & R2 & R3 & R4); [lia|lia|].
  assert (boot_offset + n <= zlen (medium p)) as Hz by (by rewrite (medium_zlen raw)).
  assert (zlen bs = n) as Hzb by (rewrite <- Hb; unfold boot_area; apply zlen_slice; [by vm_compute|lia|lia]).
  rewrite M0, (boot_area_prefix (medium p) n), Hb by (done || lia).
  destruct (prefix_fields bs ltac:(lia)) as [-> ->]. rewrite Hm, Z.eqb_refl. cbn [negb].
  exists q. rewrite R3. split_and!; try done.
Qed.

Lemma load_current_ok p s : inv (snd (dev p)) -> live (raw_of p) -> boot_offset + boot_state_size <= capacity raw ->
  persistent_ok s -> pb_magic s = LS_BOOT_MAGIC -> pb_version s = LS_BOOT_VERSION -> pb_crc s = boot_crc s ->
  boot_area (medium p) boot_state_size = boot_pack s ->
  exists p', ls_boot_state_load (Some raw) p = (LS_OK, p') /\ persistent (ram p') = s /\ medium p' = medium p.
Proof.
  intros Hi Hl Hc Hs Hm Hv Hcrc Hb.
  pose proof (boot_roundtrip s Hs) as Hrt. pose proof Hrt as Hrt'. unfold boot_unpack in Hrt'.
  assert (read_u32 (boot_pack s) 0 = LS_BOOT_MAGIC) as Hr0 by (rewrite <- Hm; rewrite <- Hrt' at 2; done).
  assert (read_u32 (boot_pack s) 4 = LS_BOOT_VERSION) as Hr4 by (rewrite <- Hv; rewrite <- Hrt' at 2; done).
  destruct (load_dispatch boot_state_size p (boot_pack s)) as (q & Q1 & Q2 & Q3 & Q4 & ->); try done.
  cbv zeta. rewrite Hr4. change (LS_BOOT_VERSION =? LS_BOOT_VERSION_LEGACY) with false.
  change (LS_BOOT_VERSION =? LS_BOOT_VERSION_V2) with false. change (LS_BOOT_VERSION =? LS_BOOT_VERSION) with true.
  rewrite (proj2 (Z.ltb_ge _ _)) by done. cbn [negb orb].
  unfold load_current. destruct (boot_read boot_state_size q) as (q' & -> & R1 & R2 & R3 & R4); try done.
  rewrite Q3, Hb, Hrt, Hcrc, Z.eqb_refl. cbn [negb]. eexists. split; [reflexivity|]. split; [done|].
  change (medium q' = medium p). congruence.
Qed.

(** *** Saving *)

Lemma on_raw_ram {A} (f : st (platform D) A) p a p' : on_raw f p = (a, p') -> ram p' = ram p.
Proof. by intros [_ H]%on_raw_inv. Qed.

(** The record that is written. *)
Definition saved (uptime sequence : Z) (s : ls_persistent_boot_t) : ls_persistent_boot_t :=
  let s := with_boot (set_saved uptime sequence) (with_prefix s) in with_crc (boot_crc s) s.

Lemma save_run p r p' : ls_boot_state_save timestamp_ms (Some raw) p = (r, p') ->
  (r = LS_ENOSPACE /\ p' = p) \/
  exists q w uptime, boot_offset + boot_state_size <= capacity raw /\ is_u32 uptime /\
    ram q = with_world w (with_persistent (saved uptime (rt_sequence (spool_rt (ram p)))) (ram p)) /\
    faults q = faults p /\ snd (dev q) = snd (dev p) /\
    (on_raw (ls_storage_program raw boot_offset (boot_pack (persistent (ram q)))) ;;? raw_sync raw) q = (r, p').
Proof.
  intros H. unfold ls_boot_state_save in H. destruct (capacity raw <? _) eqn:Ec; [injection H as <- <-; by left|].
  bool_prop. right. destruct p as [fl [m d]]. unfold ls_uptime_ms, ls_timestamp, set_persistent, set_ram, set_dev, ram in H.
  cbn [dev fst snd faults] in H. destruct timestamp_ms as [clock|].
  - destruct (clock _) as [t w]. cbn [dev fst snd faults] in H. destruct m as [per srt st0 bc ri pc bl sm pf wo].
    unfold with_persistent, with_world in H. cbn [persistent spool_rt boot_started_ms b_boot_count reset_info
      previous_crashed boot_loop safe_mode powerfail_last_valid world] in H.
    eexists ?[q], w, (u32 (t - st0)). split; [lia|]. split; [apply u32_range|].
    match type of H with _ ?x = _ => instantiate (q := x) end. split; [reflexivity|]. split; [done|]. split; [done|exact H].
  - cbn [dev fst snd faults] in H. destruct m as [per srt st0 bc ri pc bl sm pf wo].
    unfold with_persistent, with_world in H. cbn [dev fst snd faults persistent spool_rt boot_started_ms b_boot_count reset_info
      previous_crashed boot_loop safe_mode powerfail_last_valid world] in H.
    eexists ?[q], wo, (u32 (0 - st0)). split; [lia|]. split; [apply u32_range|].
    match type of H with _ ?x = _ => instantiate (q := x) end. split; [reflexivity|]. split; [done|]. split; [done|exact H].
Qed.

Lemma program_sync_ram bs p r p' : (on_raw (ls_storage_program raw boot_offset bs) ;;? raw_sync raw) p = (r, p') ->
  ram p' = ram p.
Proof.
  intros H. assert (forall (q : @bstate E W D) r q', raw_sync raw q = (r, q') -> ram q' = ram q) as Hsync.
  { intros q r1 q'. unfold raw_sync. destruct (sync raw); [apply on_raw_ram|]. by intros [= <- <-]. }
  apply and_then_inv in H as [[H _]|(q & H1 & H)]; [by eapply on_raw_ram|].
  apply Hsync in H. apply on_raw_ram in H1. congruence.
Qed.

Lemma save_persistent p r p' : ls_boot_state_save timestamp_ms (Some raw) p = (r, p') ->
  ram p' = ram p \/
  exists w uptime, is_u32 uptime /\
    ram p' = with_world w (with_persistent (saved uptime (rt_sequence (spool_rt (ram p)))) (ram p)).
Proof.
  intros [[-> ->]|(q & w & u & _ & Hu & Hq & _ & _ & H)]%save_run; [by left|right].
  apply program_sync_ram in H. exists w, u. split; [done|]. congruence.
Qed.

Lemma saved_ok u sq s : is_u32 u -> is_u32 sq -> persistent_ok s -> persistent_ok (saved u sq s).
Proof.
  intros Hu Hq [H1 H2 H3 H4 H5 H6]. unfold saved. split.
  - cbn [pb_magic with_crc with_boot with_prefix]. by vm_compute.
  - cbn [pb_version with_crc with_boot with_prefix]. by vm_compute.
  - unfold boot_part_ok, boot_layout, boot_values in *. cbn [with_boot with_prefix with_crc pb_boot set_saved
      boot_count previous_uptime_ms consecutive_failures first_failure_ms last_sequence pending_crash_id release_hash
      crash_pending expected_reset boot_successful release_state].
    rewrite !Forall2_cons in *. destruct H3 as (?&_&?&?&_&?&?&?&?&?&?&?). split_and!; done.
  - exact H4.
  - exact H5.
  - cbn [pb_crc with_crc]. apply crc32_range.
Qed.

Lemma save_stores p p' : inv (snd (dev p)) -> persistent_ok (persistent (ram p)) -> is_u32 (rt_sequence (spool_rt (ram p))) ->
  ls_boot_state_save timestamp_ms (Some raw) p = (LS_OK, p') ->
  boot_offset + boot_state_size <= capacity raw /\ inv (snd (dev p')) /\
  boot_area (medium p') boot_state_size = boot_pack (persistent (ram p')) /\
  exists u, is_u32 u /\ persistent (ram p') = saved u (rt_sequence (spool_rt (ram p))) (persistent (ram p)).
Proof.
  intros Hi Hs Hq H. apply save_run in H as [[? _]|(q & w & u & Hc & Hu & Hr & _ & Hd & H)]; [done|].
  assert (inv (snd (dev q))) as Hiq by (by rewrite Hd). split; [done|].
  pose proof (program_sync_ram _ _ _ _ H) as Hrm.
  apply and_then_inv in H as [[_ ?]|(q1 & H1 & H)]; [done|].
  set (bs := boot_pack (persistent (ram q))) in *. assert (zlen bs = 88) as Hz by reflexivity.
  assert (bytes_ok bs) as Hbs.
  { unfold bs, boot_pack. rewrite !bytes_ok_app. split_and!; apply bytes_ok_le || apply bytes_ok_pack. }
  assert (0 <= boot_offset) as Ho by by vm_compute. unfold boot_state_size in *.
  apply (program_raw raw) in H1 as (_ & I1 & _ & M1); [|done|done|done|lia]. specialize (M1 eq_refl).
  apply (raw_sync_same raw) in H as (_ & I2 & M2); [|done]. split; [done|]. split.
  - unfold boot_area. rewrite M2, M1, <- Hz, slice_splice_same; [by rewrite Hrm|done|]. rewrite (medium_zlen raw) by done. lia.
  - exists u. split; [done|]. by rewrite Hrm, Hr.
Qed.

(** Whatever fails, a save stays in its region and changes only the record and the clock. *)
Lemma save_frame p r p' : inv (snd (dev p)) -> ls_boot_state_save timestamp_ms (Some raw) p = (r, p') ->
  inv (snd (dev p')) /\ outside boot_offset boot_state_size (medium p) (medium p') /\ spool_rt (ram p') = spool_rt (ram p).
Proof.
  intros Hi H. pose proof (save_persistent _ _ _ H) as Hr.
  assert (spool_rt (ram p') = spool_rt (ram p)) as Es by (by destruct Hr as [->|(w & u & _ & ->)]).
  apply save_run in H as [[_ ->]|(q & w & u & Hc & Hu & Hq & _ & Hd & H)]; [split; [done|]; split; [apply outside_refl|done]|].
  assert (medium q = medium p) as Em by (unfold FlashLayer.medium; by rewrite Hd).
  rewrite <- Em. assert (inv (snd (dev q))) as Hiq by (by rewrite Hd).
  set (bs := boot_pack (persistent (ram q))) in *. assert (zlen bs = 88) as Hz by reflexivity.
  assert (bytes_ok bs) as Hbs.
  { unfold bs, boot_pack. rewrite !bytes_ok_app. split_and!; apply bytes_ok_le || apply bytes_ok_pack. }
  assert (0 <= boot_offset) as Ho by by vm_compute. unfold boot_state_size in *.
  assert (forall q1 r1, on_raw (ls_storage_program raw boot_offset bs) q = (r1, q1) ->
    inv (snd (dev q1)) /\ outside boot_offset 88 (medium q) (medium q1)) as Hprog.
  { intros q1 r1 H1. apply (program_raw raw) in H1 as (_ & I1 & T1 & _); [|done|done|done|lia].
    split; [exact I1|]. eapply torn_outside; [exact T1|lia|lia]. }
  apply and_then_inv in H as [[H _]|(q1 & H1 & H)].
  - apply Hprog in H as [I1 O1]. by split_and!.
  - apply Hprog in H1 as [I1 O1]. apply (raw_sync_same raw) in H as (_ & I2 & M2); [|done]. split; [done|]. split; [|done].
    by rewrite M2.
Qed.

Lemma mark_crash_frame i p p' : inv (snd (dev p)) -> ls_boot_state_mark_crash timestamp_ms (Some raw) i p = (tt, p') ->
  inv (snd (dev p')) /\ outside boot_offset boot_state_size (medium p) (medium p') /\ spool_rt (ram p') = spool_rt (ram p).
Proof.
  intros Hi H. unfold ls_boot_state_mark_crash, change_and_save in H. cbn [set_persistent set_ram] in H.
  destruct (ls_boot_state_save _ _ _) as [r q] eqn:Hs. injection H as <-. by apply save_frame in Hs.
Qed.

(** The old layouts. *)
Lemma load_v1_ok p legacy : inv (snd (dev p)) -> live (raw_of p) -> boot_offset + boot_v1_size <= capacity raw ->
  v1_magic legacy = LS_BOOT_MAGIC -> v1_version legacy = LS_BOOT_VERSION_LEGACY -> boot_part_ok (v1_boot legacy) ->
  v1_crc legacy = boot_v1_crc legacy -> boot_area (medium p) boot_v1_size = boot_v1_pack legacy ->
  exists p', ls_boot_state_load (Some raw) p = (LS_OK, p') /\
    persistent (ram p') = boot_from_v1 legacy zero_persistent /\ medium p' = medium p.
Proof.
  intros Hi Hl Hc Hm Hv Hb Hcrc Ha.
  assert (boot_v1_unpack (boot_v1_pack legacy) = legacy) as Hrt.
  { apply boot_v1_roundtrip; rewrite ?Hm, ?Hv; try done. rewrite Hcrc. apply crc32_range. }
  pose proof Hrt as Hrt'. unfold boot_v1_unpack in Hrt'.
  assert (read_u32 (boot_v1_pack legacy) 0 = LS_BOOT_MAGIC) as Hr0 by (rewrite <- Hm; rewrite <- Hrt' at 2; done).
  assert (read_u32 (boot_v1_pack legacy) 4 = LS_BOOT_VERSION_LEGACY) as Hr4 by (rewrite <- Hv; rewrite <- Hrt' at 2; done).
  destruct (load_dispatch boot_v1_size p (boot_v1_pack legacy)) as (q & Q1 & Q2 & Q3 & Q4 & ->); try done.
  cbv zeta. rewrite Hr4, Z.eqb_refl. unfold load_v1.
  destruct (boot_read boot_v1_size q) as (q' & -> & R1 & R2 & R3 & R4); try done.
  rewrite Q3, Ha, Hrt, Hcrc, Z.eqb_refl. cbn [negb]. eexists. split; [reflexivity|].
  split; [|change (medium q' = medium p); congruence]. cbn [set_persistent set_ram ram set_dev dev fst snd with_persistent persistent].
  fold (ram q'). rewrite R1, Q1. done.
Qed.

Lemma load_v2_ok p legacy : inv (snd (dev p)) -> live (raw_of p) -> boot_offset + boot_v2_size <= capacity raw ->
  v2_magic legacy = LS_BOOT_MAGIC -> v2_version legacy = LS_BOOT_VERSION_V2 -> boot_part_ok (v2_boot legacy) ->
  update_part_ok (v2_update legacy) ->
  v2_crc legacy = boot_v2_crc legacy -> boot_area (medium p) boot_v2_size = boot_v2_pack legacy ->
  exists p', ls_boot_state_load (Some raw) p = (LS_OK, p') /\
    persistent (ram p') = boot_from_v2 legacy /\ medium p' = medium p.
Proof.
  intros Hi Hl Hc Hm Hv Hb Hu Hcrc Ha.
  assert (boot_v2_unpack (boot_v2_pack legacy) = legacy) as Hrt.
  { apply boot_v2_roundtrip; rewrite ?Hm, ?Hv; try done. rewrite Hcrc. apply crc32_range. }
  pose proof Hrt as Hrt'. unfold boot_v2_unpack in Hrt'.
  assert (read_u32 (boot_v2_pack legacy) 0 = LS_BOOT_MAGIC) as Hr0 by (rewrite <- Hm; rewrite <- Hrt' at 2; done).
  assert (read_u32 (boot_v2_pack legacy) 4 = LS_BOOT_VERSION_V2) as Hr4 by (rewrite <- Hv; rewrite <- Hrt' at 2; done).
  destruct (load_dispatch boot_v2_size p (boot_v2_pack legacy)) as (q & Q1 & Q2 & Q3 & Q4 & ->); try done.
  cbv zeta. rewrite Hr4. change (LS_BOOT_VERSION_V2 =? LS_BOOT_VERSION_LEGACY) with false. rewrite Z.eqb_refl.
  unfold load_v2. rewrite (proj2 (Z.ltb_ge _ _)) by done.
  destruct (boot_read boot_v2_size q) as (q' & -> & R1 & R2 & R3 & R4); try done.
  rewrite Q3, Ha, Hrt, Hcrc, Z.eqb_refl. cbn [negb]. eexists. split; [reflexivity|].
  split; [done|]. change (medium q' = medium p). congruence.
Qed.
End BootOk.

(** ** Updates as a state machine

    Any sequence of the functions that change the persistent record, with any
    storage, any clock and any outcome of saving. *)

Section Updates.
Context {E W D : Type} (timestamp_ms : option (st W Z)) (storage : option (ls_storage_backend_t (platform D))).
Local Abbreviation state := (@bstate E W D).
Implicit Types p q : state.
Local Abbreviation update_now p := (pb_update (persistent (ram p))).
Local Abbreviation provision_now p := (pb_provision (persistent (ram p))).

Inductive boot_step : state -> state -> Prop :=
| step_stage v f k p r p' : ls_update_stage timestamp_ms storage v f k p = (r, p') -> boot_step p p'
| step_confirm v p r p' : ls_update_confirm_version timestamp_ms storage v p = (r, p') -> boot_step p p'
| step_rollback v p r p' : ls_update_mark_version_rollback timestamp_ms storage v p = (r, p') -> boot_step p p'
| step_abort v p r p' : ls_update_abort_stage timestamp_ms storage v p = (r, p') -> boot_step p p'
| step_crash i p p' : ls_boot_state_mark_crash timestamp_ms storage i p = (tt, p') -> boot_step p p'
| step_expected b p p' : ls_reset_mark_expected timestamp_ms storage b p = (tt, p') -> boot_step p p'
| step_successful p p' : ls_boot_mark_successful timestamp_ms storage p = (tt, p') -> boot_step p p'
| step_pending n p p' : ls_release_mark_pending timestamp_ms storage n p = (tt, p') -> boot_step p p'
| step_release p p' : ls_release_confirm timestamp_ms storage p = (tt, p') -> boot_step p p'
| step_rolled p p' : ls_release_mark_rollback timestamp_ms storage p = (tt, p') -> boot_step p p'
| step_save p r p' : ls_boot_state_save timestamp_ms storage p = (r, p') -> boot_step p p'.

(** Saving touches neither the update nor the provisioning group. *)
Lemma save_groups p r p' : ls_boot_state_save timestamp_ms storage p = (r, p') ->
  update_now p' = update_now p /\ provision_now p' = provision_now p.
Proof.
  intros H. destruct storage as [raw|]; [|by injection H as <- <-].
  apply save_persistent in H as [->|(w & u & _ & ->)]; done.
Qed.

Lemma change_groups f p r p' : change_and_save timestamp_ms storage f p = (r, p') ->
  update_now p' = pb_update (f (persistent (ram p))) /\ provision_now p' = pb_provision (f (persistent (ram p))).
Proof.
  intros H. unfold change_and_save in H. cbn [set_persistent set_ram] in H.
  apply save_groups in H as [-> ->]. done.
Qed.

(** Reads off the two groups after a step that ends in a save. *)
Local Ltac step_groups :=
  unfold ls_update_stage, ls_update_confirm_version, ls_update_mark_version_rollback, ls_update_abort_stage,
    ls_boot_state_mark_crash, ls_reset_mark_expected, ls_boot_mark_successful, ls_release_mark_pending,
    ls_release_confirm, ls_release_mark_rollback, set_persistent, set_ram in *;
  repeat match goal with
  | H : (if ?b then _ else _) = _ |- _ => destruct b; [by injection H as <- <-|]
  | H : (let '(_, _) := ?e in _) = _ |- _ => destruct e as [? ?] eqn:?; injection H as <-
  end;
  match goal with
  | H : change_and_save _ _ _ _ = _ |- _ => apply change_groups in H as [Hu Hv]; (rewrite Hu || rewrite Hv); done
  | H : ls_boot_state_save _ _ _ = _ |- _ => apply save_groups in H as [Hu Hv]; (rewrite Hu || rewrite Hv); done
  end.

Lemma boot_step_provision p p' : boot_step p p' -> provision_now p' = provision_now p.
Proof. destruct 1; step_groups. Qed.

(** A step that leaves the update group alone. *)
Definition mark_step p p' : Prop := boot_step p p' /\ update_now p' = update_now p.

Lemma mark_pending_step n p p' : ls_release_mark_pending timestamp_ms storage n p = (tt, p') -> mark_step p p'.
Proof. intros H. split; [by eapply step_pending|]. step_groups. Qed.

Lemma release_confirm_step p p' : ls_release_confirm timestamp_ms storage p = (tt, p') -> mark_step p p'.
Proof. intros H. split; [by eapply step_release|]. step_groups. Qed.

Lemma mark_rollback_step p p' : ls_release_mark_rollback timestamp_ms storage p = (tt, p') -> mark_step p p'.
Proof. intros H. split; [by eapply step_rolled|]. step_groups. Qed.

Lemma mark_expected_step b p p' : ls_reset_mark_expected timestamp_ms storage b p = (tt, p') -> mark_step p p'.
Proof. intros H. split; [by eapply step_expected|]. step_groups. Qed.

(** What one step can do to the update group. *)
Definition update_move (u u' : update_part) : Prop :=
  u' = u \/
  (exists v f k, ls_update_version_allowed v u = true /\ update_version_floor u' = update_version_floor u /\
     update_pending_version u' = v /\ update_image_fingerprint u' = f /\ update_signing_key_id u' = k /\
     f <> 0 /\ k <> 0 /\ update_state u' = LS_UPDATE_PENDING) \/
  (update_state u = LS_UPDATE_PENDING /\ update_pending_version u <> 0 /\ update_pending_version u' = 0 /\
   (update_version_floor u' = Z.max (update_version_floor u) (update_pending_version u) /\
      update_state u' = LS_UPDATE_CONFIRMED \/
    update_version_floor u' = update_version_floor u /\
      (update_state u' = LS_UPDATE_ROLLED_BACK \/ update_state u' = LS_UPDATE_NONE))).

Lemma pending_inv v u : not_pending v u = false ->
  update_state u = LS_UPDATE_PENDING /\ update_pending_version u <> 0 /\ v = update_pending_version u.
Proof. unfold not_pending. intros H. bool_prop. split_and!; congruence. Qed.

Lemma boot_step_move p p' : boot_step p p' -> update_move (update_now p) (update_now p').
Proof.
  destruct 1 as [v f k p r p' H|v p r p' H|v p r p' H|v p r p' H|i p p' H|b p p' H|p p' H|n p p' H|p p' H|p p' H|p r p' H].
  5-11: left; step_groups.
  - unfold ls_update_stage in H. destruct (_ || _) eqn:Ec; [injection H as <- <-; by left|].
    apply change_groups in H as [-> _]. right. left. bool_prop. exists v, f, k. done.
  - unfold ls_update_confirm_version in H. destruct (not_pending _ _) eqn:Ec; [injection H as <- <-; by left|].
    apply change_groups in H as [-> _]. apply pending_inv in Ec as (E1 & E2 & ->). right. right.
    cbn [with_update pb_update update_version_floor update_pending_version update_state]. split_and!; try done. left.
    split; [|done]. case_if; blia.
  - unfold ls_update_mark_version_rollback in H. destruct (not_pending _ _) eqn:Ec; [injection H as <- <-; by left|].
    apply change_groups in H as [-> _]. apply pending_inv in Ec as (E1 & E2 & ->). right. right. split_and!; try done.
    right. split; [done|by left].
  - unfold ls_update_abort_stage in H. destruct (not_pending _ _) eqn:Ec; [injection H as <- <-; by left|].
    apply change_groups in H as [-> _]. apply pending_inv in Ec as (E1 & E2 & ->). right. right. split_and!; try done.
    right. split; [done|by right].
Qed.

(** A version is pending exactly in the pending state, and is allowed by the floor. *)
Definition update_inv (u : update_part) : Prop :=
  (update_state u = LS_UPDATE_PENDING <-> update_pending_version u <> 0) /\
  (update_pending_version u <> 0 -> update_version_floor u <= update_pending_version u /\
     update_image_fingerprint u <> 0 /\ update_signing_key_id u <> 0).

Lemma update_move_inv u u' : update_inv u -> update_move u u' ->
  update_inv u' /\ update_version_floor u <= update_version_floor u'.
Proof.
  intros [I1 I2] [->|[(v & f & k & Ha & F & P & G & K & Hf & Hk & S)|(S & P & P' & H)]].
  - split; [done|lia].
  - unfold ls_update_version_allowed in Ha. apply andb_true_iff in Ha as [Ha1 Ha2]. bool_prop.
    split; [|lia]. split; [rewrite S, P; done|]. intros _. rewrite F, P, G, K. done.
  - destruct H as [[F S']|[F [S'|S']]]; (split; [split; rewrite ?S', ?P'; [|done]|lia]);
      unfold LS_UPDATE_PENDING, LS_UPDATE_CONFIRMED, LS_UPDATE_ROLLED_BACK, LS_UPDATE_NONE; split; done || lia.
Qed.

Lemma update_trace p p' : rtc boot_step p p' -> update_inv (update_now p) ->
  update_inv (update_now p') /\ update_version_floor (update_now p) <= update_version_floor (update_now p').
Proof.
  induction 1 as [p|p p1 p' H _ IH]; intros Hi; [split; [done|lia]|].
  apply boot_step_move in H. apply update_move_inv in H as [Hi1 Hf]; [|done]. destruct (IH Hi1). split; [done|lia].
Qed.
End Updates.

(** *** Lives

    A restart reads the record back. It finds the one in memory when the last save
    succeeded; a save that was cut short leaves no valid record, and the next boot starts
    from an empty one ([torn_save_forgets] below). *)

Section Lives.
Context {E W D : Type} (timestamp_ms : option (st W Z)) (raw : ls_storage_backend_t (platform D)) `{!StorageOk raw}.
Local Abbreviation state := (@bstate E W D).
Implicit Types p q : state.
Local Abbreviation update_now p := (pb_update (persistent (ram p))).
Local Abbreviation provision_now p := (pb_provision (persistent (ram p))).

(** The medium holds a valid record with the update and provisioning state of [p]. *)
Definition recorded p : Prop :=
  boot_offset + boot_state_size <= capacity raw /\
  exists s, persistent_ok s /\ pb_magic s = LS_BOOT_MAGIC /\ pb_version s = LS_BOOT_VERSION /\ pb_crc s = boot_crc s /\
    boot_area (medium raw p) boot_state_size = boot_pack s /\ pb_update s = update_now p /\ pb_provision s = provision_now p.

(** Operations; restarts of a device whose record is on the medium, with anything in the
    memory of the runtime [q] that starts; and the rest of [ls_boot] up to its save. *)
Inductive life : state -> state -> Prop :=
| life_operation p p' : boot_step timestamp_ms (Some raw) p p' -> life p p'
| life_restart p q r p' : recorded p -> inv (snd (dev q)) -> live (raw_of q) -> medium raw q = medium raw p ->
    ls_boot_state_load (Some raw) q = (r, p') -> life p p'
| life_booted started info retained_fault p p' :
    set_ram (boot_decide started info retained_fault) p = (tt, p') -> life p p'.

(** A save that succeeds puts the record on the medium. *)
Lemma save_recorded p p' : inv (snd (dev p)) -> persistent_ok (persistent (ram p)) -> is_u32 (rt_sequence (spool_rt (ram p))) ->
  ls_boot_state_save timestamp_ms (Some raw) p = (LS_OK, p') -> recorded p'.
Proof.
  intros Hi Hs Hq H. apply (save_stores raw) in H as (Hc & _ & Ha & u & Hu & Hp); [|done..]. split; [done|].
  exists (persistent (ram p')). split; [rewrite Hp; by apply saved_ok|]. rewrite Hp. split_and!; try reflexivity. by rewrite Ha, Hp.
Qed.

Lemma life_groups p p' : life p p' -> boot_step timestamp_ms (Some raw) p p' \/
  (update_now p' = update_now p /\ provision_now p' = provision_now p).
Proof.
  destruct 1 as [p p' H|p q r p' (Hc & s & Hs & Hm & Hv & Hcrc & Ha & Hu & Hp) Hi Hl Hmed H|t i f p p' H]; [by left|right..].
  - destruct (load_current_ok raw q s) as (q' & H' & Hpq & _); [done..|by rewrite Hmed|]. rewrite H in H'.
    injection H' as -> ->. by rewrite Hpq.
  - unfold set_ram in H. injection H as <-. done.
Qed.

Lemma update_lives p p' : rtc life p p' -> update_inv (update_now p) ->
  update_inv (update_now p') /\ update_version_floor (update_now p) <= update_version_floor (update_now p').
Proof.
  induction 1 as [p|p p1 p' H _ IH]; intros Hi; [split; [done|lia]|]. apply life_groups in H as [H|[H _]].
  - apply (boot_step_move timestamp_ms (Some raw)) in H. apply update_move_inv in H as [Hi1 Hf]; [|done]. destruct (IH Hi1). split; [done|lia].
  - rewrite H in IH. by apply IH.
Qed.
End Lives.

(** ** Boot loops *)

Section Loops.
Context {E W : Type}.
Local Abbreviation rt := (boot_runtime E W).
Local Abbreviation failures m := (consecutive_failures (pb_boot (@persistent E W m))).

(** One life of the device that ends in a crash, and the boot after it: the record
    as [ls_boot_state_mark_crash] saved it with this uptime, then [boot_decide]. *)
Record crash_life : Type := {
  cl_event : Z;
  cl_uptime : Z;
  cl_sequence : Z;
  cl_started : Z;
  cl_info : ls_reset_info_t;
  cl_retained : bool;
}.

Definition crash_and_boot (m : rt) (c : crash_life) : rt :=
  boot_decide (cl_started c) (cl_info c) (cl_retained c)
    (with_persistent (with_boot (fun b => set_saved (cl_uptime c) (cl_sequence c) (set_crash (cl_event c) b))) m).

Lemma crash_and_boot_spec m c : failures (crash_and_boot m c) =
    (if cl_uptime c <=? LS_BOOT_LOOP_WINDOW_MS then u32 (failures m + 1) else 1) /\
  safe_mode (crash_and_boot m c) = (LS_BOOT_LOOP_THRESHOLD <=? failures (crash_and_boot m c)) /\
  boot_loop (crash_and_boot m c) = safe_mode (crash_and_boot m c).
Proof. done. Qed.

Lemma crash_lives m l : Forall (fun c => cl_uptime c <= LS_BOOT_LOOP_WINDOW_MS) l ->
  0 <= failures m -> failures m + zlen l < 2 ^ 32 ->
  failures (foldl crash_and_boot m l) = failures m + zlen l /\
  (l <> [] -> safe_mode (foldl crash_and_boot m l) = (LS_BOOT_LOOP_THRESHOLD <=? failures m + zlen l)).
Proof.
  intros Hl. revert m. induction Hl as [|c l Hc Hl IH]; intros m H0 Hz.
  - rewrite zlen_nil, Z.add_0_r. done.
  - rewrite zlen_cons in *. destruct (crash_and_boot_spec m c) as (Hf & Hs & _).
    rewrite (proj2 (Z.leb_le _ _)), u32_id in Hf by (done || unfold is_u32; pose proof (zlen_nonneg l); lia).
    cbn [foldl]. destruct (IH (crash_and_boot m c)) as [I1 I2]; [lia|lia|]. rewrite I1, Hf. split; [lia|]. intros _.
    destruct l as [|c' l]; [|rewrite I2, Hf by done; f_equal; lia].
    cbn [foldl]. rewrite Hs, Hf. rewrite zlen_nil. f_equal.
Qed.
End Loops.

(** ** Properties *)

(** The boot record survives a restart.  After a save that reported success, a
    load by a fresh runtime from the same medium succeeds and finds exactly the
    record of the runtime that saved, with the sequence number of that moment. *)
Theorem boot_state_survives {E W D} (raw : ls_storage_backend_t (platform D)) `{!StorageOk raw}
    (clock : option (st W Z)) (p p' q : @bstate E W D) r q' :
  inv (snd (dev p)) -> persistent_ok (persistent (ram p)) -> is_u32 (rt_sequence (spool_rt (ram p))) ->
  ls_boot_state_save clock (Some raw) p = (LS_OK, p') ->
  inv (snd (dev q)) -> live (raw_of q) -> medium raw q = medium raw p' ->
  ls_boot_state_load (Some raw) q = (r, q') ->
  r = LS_OK /\ persistent (ram q') = persistent (ram p') /\
  pb_update (persistent (ram q')) = pb_update (persistent (ram p)) /\
  pb_provision (persistent (ram q')) = pb_provision (persistent (ram p)) /\
  last_sequence (pb_boot (persistent (ram q'))) = rt_sequence (spool_rt (ram p)).
Proof.
  intros Hi Hs Hq H Hiq Hlq Hm Hld. apply (save_stores raw) in H as (Hc & Hi' & Ha & u & Hu & Hp); [|done..].
  pose proof (saved_ok u (rt_sequence (spool_rt (ram p))) _ Hu Hq Hs) as Hok.
  destruct (load_current_ok raw q (persistent (ram p'))) as (q1 & Hld1 & Hp1 & _); rewrite ?Hp; try assumption; try reflexivity.
  - by rewrite Hm, Ha, Hp.
  - rewrite Hld in Hld1. injection Hld1 as -> ->. rewrite Hp1, Hp. split_and!; reflexivity.
Qed.

(** Records of older firmware are migrated.  A valid version 1 record is loaded
    with its boot members and no update or provisioning state; a valid version 2
    record keeps its update state as well, the anti-rollback floor included; both
    become version 3 records in memory and the medium is left alone. *)
Theorem boot_state_migrates {E W D} (raw : ls_storage_backend_t (platform D)) `{!StorageOk raw}
    (old : ls_persistent_boot_v1_t + ls_persistent_boot_v2_t) (p : @bstate E W D) r p' :
  inv (snd (dev p)) -> live (raw_of p) -> boot_offset + boot_v2_size <= capacity raw ->
  match old with
  | inl v1 => v1_magic v1 = LS_BOOT_MAGIC /\ v1_version v1 = LS_BOOT_VERSION_LEGACY /\ boot_part_ok (v1_boot v1) /\
      v1_crc v1 = boot_v1_crc v1 /\ boot_area (medium raw p) boot_v1_size = boot_v1_pack v1
  | inr v2 => v2_magic v2 = LS_BOOT_MAGIC /\ v2_version v2 = LS_BOOT_VERSION_V2 /\ boot_part_ok (v2_boot v2) /\
      update_part_ok (v2_update v2) /\ v2_crc v2 = boot_v2_crc v2 /\
      boot_area (medium raw p) boot_v2_size = boot_v2_pack v2
  end ->
  ls_boot_state_load (Some raw) p = (r, p') ->
  let s := persistent (ram p') in
  r = LS_OK /\ medium raw p' = medium raw p /\ pb_magic s = LS_BOOT_MAGIC /\ pb_version s = LS_BOOT_VERSION /\
  pb_provision s = zero_provision /\
  match old with
  | inl v1 => pb_boot s = v1_boot v1 /\ pb_update s = zero_update
  | inr v2 => pb_boot s = v2_boot v2 /\
      update_version_floor (pb_update s) = update_version_floor (v2_update v2) /\
      update_pending_version (pb_update s) = update_pending_version (v2_update v2) /\
      update_image_fingerprint (pb_update s) = update_image_fingerprint (v2_update v2) /\
      update_signing_key_id (pb_update s) = update_signing_key_id (v2_update v2) /\
      update_rollback_count (pb_update s) = update_rollback_count (v2_update v2) /\
      update_state (pb_update s) = update_state (v2_update v2)
  end.
Proof.
  intros Hi Hl Hc Hold H. destruct old as [v1|v2].
  - destruct Hold as (H1 & H2 & H3 & H4 & H5).
    destruct (load_v1_ok raw p v1) as (q & Hq & Hp & Hm); try assumption; [unfold boot_v1_size, boot_v2_size in *; lia|].
    rewrite H in Hq. injection Hq as -> ->. cbv zeta. rewrite Hp. split_and!; reflexivity || assumption.
  - destruct Hold as (H1 & H2 & H3 & H4 & H5 & H6).
    destruct (load_v2_ok raw p v2) as (q & Hq & Hp & Hm); try assumption.
    rewrite H in Hq. injection Hq as -> ->. cbv zeta. rewrite Hp. split_and!; reflexivity || assumption.
Qed.


(** C31: boot loops are detected at the threshold.  After [n] lives that each ended in
    a crash within the window, the failure count is [n] more than before and safe
    mode is requested exactly when it has reached the threshold; a boot after
    [ls_boot_mark_successful] without a new failure clears both. *)
Theorem boot_loop_detected {E W} (m : boot_runtime E W) (lives : list crash_life) :
  Forall (fun c => cl_uptime c <= LS_BOOT_LOOP_WINDOW_MS) lives -> lives <> [] ->
  0 <= consecutive_failures (pb_boot (persistent m)) ->
  consecutive_failures (pb_boot (persistent m)) + zlen lives < 2 ^ 32 ->
  let m' := foldl crash_and_boot m lives in
  let n := consecutive_failures (pb_boot (persistent m)) + zlen lives in
  consecutive_failures (pb_boot (persistent m')) = n /\
  ls_safe_mode_requested m' = (LS_BOOT_LOOP_THRESHOLD <=? n) /\
  forall started info, reset_failure (reason info) = false ->
    let m'' := boot_decide started info false (with_persistent (with_boot set_successful) m') in
    consecutive_failures (pb_boot (persistent m'')) = 0 /\ ls_safe_mode_requested m'' = false.
Proof.
  intros Hl Hne H0 Hz m' n. destruct (crash_lives m lives Hl H0 Hz) as [H1 H2]. split; [exact H1|].
  split; [by apply H2|]. intros started info Hr. cbn. rewrite Hr. done.
Qed.

(** Memory behind the spool area for the record. *)
Definition demo_boot_storage := memory_backend (boot_offset + boot_state_size) 256 1.

#[export] Instance demo_boot_ok : StorageOk demo_boot_storage.
Proof. apply memory_ok; vm_compute; [split; discriminate|discriminate]. Defined.

Definition demo_runtime (s : ls_persistent_boot_t) : boot_runtime (list (list Z)) Z :=
  {| persistent := s; spool_rt := ram demo_spool; boot_started_ms := 0; b_boot_count := 0;
     reset_info := {| reason := LS_RESET_POWER_ON; raw_reason := 0; ri_boot_count := 0; ri_previous_uptime_ms := 0;
                      ri_expected := false; ri_crash_pending := false; ri_boot_loop := false |};
     previous_crashed := false; boot_loop := false; safe_mode := false; powerfail_last_valid := false; world := 7 |}.

Definition demo_clock : option (st Z Z) := Some (fun t => (t, t + 1)).

Definition demo_boot (s : ls_persistent_boot_t) (c : list Z) : @bstate (list (list Z)) Z ls_memory_storage_t :=
  {| faults := no_faults; dev := (demo_runtime s, c) |}.

Definition demo_blank : list Z := fill (boot_offset + boot_state_size) 0xff.

Lemma demo_blank_inv : inv (StorageOk:=demo_boot_ok) demo_blank.
Proof. split; [by vm_compute|]. apply bytes_ok_fill. by vm_compute. Qed.

Lemma zero_persistent_ok : persistent_ok zero_persistent.
Proof. split; try (by vm_compute); repeat (apply List.Forall2_cons || apply List.Forall2_nil); by vm_compute. Qed.

(** A fresh runtime on a given medium. *)
Lemma demo_boot_state s (x : @bstate (list (list Z)) Z ls_memory_storage_t) :
  (inv (StorageOk:=demo_boot_ok) (snd (dev x)) -> inv (StorageOk:=demo_boot_ok) (snd (dev (demo_boot s (snd (dev x)))))) /\
  live (StorageOk:=demo_boot_ok) (raw_of (demo_boot s (snd (dev x)))) /\
  medium demo_boot_storage (demo_boot s (snd (dev x))) = medium demo_boot_storage x.
Proof. split; [intros H; exact H|]. split; reflexivity. Qed.

Definition demo_saved : @bstate (list (list Z)) Z ls_memory_storage_t :=
  snd (ls_boot_state_save demo_clock (Some demo_boot_storage) (demo_boot zero_persistent demo_blank)).

Lemma boot_state_survives_witness :
  let loaded := ls_boot_state_load (Some demo_boot_storage) (demo_boot zero_persistent (snd (dev demo_saved))) in
  fst loaded = LS_OK /\ persistent (ram (snd loaded)) = persistent (ram demo_saved).
Proof.
  intros loaded.
  assert (ls_boot_state_save demo_clock (Some demo_boot_storage) (demo_boot zero_persistent demo_blank) =
    (LS_OK, demo_saved)) as Hs.
  { unfold demo_saved. rewrite (surjective_pairing (ls_boot_state_save _ _ _)) at 1. f_equal. }
  assert (is_u32 (rt_sequence (spool_rt (ram (demo_boot zero_persistent demo_blank))))) as Hq
    by (vm_compute; split; [discriminate|reflexivity]).
  destruct (demo_boot_state zero_persistent demo_saved) as (Hi & Hl & Hm).
  destruct (save_stores demo_boot_storage demo_clock (demo_boot zero_persistent demo_blank) demo_saved demo_blank_inv
    zero_persistent_ok Hq Hs) as (_ & Hsi & _).
  destruct (boot_state_survives demo_boot_storage demo_clock (demo_boot zero_persistent demo_blank) demo_saved
    (demo_boot zero_persistent (snd (dev demo_saved))) (fst loaded) (snd loaded) demo_blank_inv zero_persistent_ok
    Hq Hs (Hi Hsi) Hl Hm (surjective_pairing loaded)) as (H1 & H2 & _).
  split; [exact H1|exact H2].
Defined.

(** A version 1 record with three boots. *)
Definition demo_v1 : ls_persistent_boot_v1_t :=
  let b := {| boot_count := 3; previous_uptime_ms := 5; consecutive_failures := 0; first_failure_ms := 0;
              last_sequence := 9; pending_crash_id := 0; release_hash := 0; crash_pending := 0; expected_reset := 0;
              boot_successful := 1; release_state := 2 |} in
  {| v1_magic := LS_BOOT_MAGIC; v1_version := LS_BOOT_VERSION_LEGACY; v1_boot := b;
     v1_crc := boot_v1_crc {| v1_magic := LS_BOOT_MAGIC; v1_version := LS_BOOT_VERSION_LEGACY; v1_boot := b; v1_crc := 0 |} |}.

Definition demo_old : list Z := splice boot_offset (boot_v1_pack demo_v1) demo_blank.

Lemma demo_old_inv : inv (StorageOk:=demo_boot_ok) demo_old.
Proof.
  destruct demo_blank_inv as [H1 H2]. split; [by vm_compute|].
  apply bytes_ok_splice; [|exact H2]. unfold boot_v1_pack. rewrite !bytes_ok_app.
  split_and!; apply bytes_ok_le || apply bytes_ok_pack.
Qed.

Lemma boot_state_migrates_witness :
  let run := ls_boot_state_load (Some demo_boot_storage) (demo_boot zero_persistent demo_old) in
  fst run = LS_OK /\ pb_boot (persistent (ram (snd run))) = v1_boot demo_v1.
Proof.
  intros run.
  destruct (boot_state_migrates demo_boot_storage (inl demo_v1) (demo_boot zero_persistent demo_old) (fst run) (snd run)
    demo_old_inv) as (H1 & _ & _ & _ & _ & H2 & _).
  - vm_compute. reflexivity.
  - vm_compute. discriminate.
  - split; [reflexivity|]. split; [reflexivity|]. split.
    + repeat (apply List.Forall2_cons || apply List.Forall2_nil); by vm_compute.
    + split; vm_compute; reflexivity.
  - apply surjective_pairing.
  - split; [exact H1|exact H2].
Defined.

(** Version 5 confirmed and the device restarted: version 4 is refused. *)
Definition demo_confirmed : @bstate (list (list Z)) Z ls_memory_storage_t :=
  snd (ls_update_confirm_version demo_clock (Some demo_boot_storage) 5
         (snd (ls_update_stage demo_clock (Some demo_boot_storage) 5 1 1 (demo_boot zero_persistent demo_blank)))).

Definition demo_restarted : @bstate (list (list Z)) Z ls_memory_storage_t :=
  snd (ls_boot_state_load (Some demo_boot_storage) (demo_boot zero_persistent (snd (dev demo_confirmed)))).

Lemma demo_bytes_ok (l : list Z) : forallb (fun x => (0 <=? x) && (x <? 256)) l = true -> bytes_ok l.
Proof.
  intros H. apply Forall_forall. intros x Hx. rewrite forallb_forall in H. specialize (H x (proj1 (list_elem_of_In _ _) Hx)).
  apply andb_true_iff in H as [H1%Z.leb_le H2%Z.ltb_lt]. by split.
Qed.

Lemma demo_confirmed_inv : inv (StorageOk:=demo_boot_ok) (snd (dev demo_confirmed)).
Proof. split; [by vm_compute|]. apply demo_bytes_ok. vm_compute. reflexivity. Qed.

Lemma demo_confirmed_recorded : recorded demo_boot_storage demo_confirmed.
Proof.
  split; [by vm_compute|].
  let s := eval vm_compute in (persistent (ram demo_confirmed)) in
    exists s; assert (persistent_ok s) as Hok
      by (split; try (by vm_compute); repeat (apply List.Forall2_cons || apply List.Forall2_nil); by vm_compute).
  split; [exact Hok|]. clear Hok. split_and!; vm_compute; reflexivity.
Qed.

Lemma demo_confirmed_update : update_inv (pb_update (persistent (ram demo_confirmed))).
Proof.
  let u := eval vm_compute in (pb_update (persistent (ram demo_confirmed))) in
    assert (pb_update (persistent (ram demo_confirmed)) = u) as -> by (vm_compute; reflexivity).
  split; [split; intros H; discriminate H || (exfalso; apply H; reflexivity)|]. intros H. exfalso. apply H. reflexivity.
Qed.


(** *** A save that is cut short

    The record is written in place: when the write stops after 20 of its 88 bytes, the
    next boot finds a record whose checksum is wrong, keeps the empty one, and version 4
    can be staged although version 5 had been confirmed. *)
Definition demo_sim_backend := sim_backend (boot_offset + boot_state_size) 256 1.

Definition demo_sim (medium : list Z) (operation partial : Z) : ls_storage_sim_t :=
  {| sim_data := medium; enforce_nor := false; operation_count := 0; fail_operation := operation; partial_bytes := partial |}.

Definition demo_life (s : ls_persistent_boot_t) (medium : list Z) (operation partial : Z)
  : @bstate (list (list Z)) Z ls_storage_sim_t :=
  {| faults := no_faults; dev := (demo_runtime s, demo_sim medium operation partial) |}.

Lemma torn_save_forgets :
  let floor {D} (p : @bstate (list (list Z)) Z D) := update_version_floor (pb_update (persistent (ram p))) in
  let confirmed := demo_life (persistent (ram demo_confirmed)) (snd (dev demo_confirmed)) 1 20 in
  let saved := ls_boot_state_save demo_clock (Some demo_sim_backend) confirmed in
  let loaded := ls_boot_state_load (Some demo_sim_backend)
                  (demo_life zero_persistent (sim_data (snd (dev (snd saved)))) 0 0) in
  floor confirmed = 5 /\ fst saved = LS_EIO /\ fst loaded = LS_ECORRUPT /\ floor (snd loaded) = 0 /\
  fst (ls_update_stage demo_clock (Some demo_sim_backend) 4 1 1 (snd loaded)) = LS_OK.
Proof. vm_compute. repeat split. Qed.

Lemma boot_loop_detected_witness :
  let life := {| cl_event := 1; cl_uptime := 10; cl_sequence := 1; cl_started := 0;
                 cl_info := reset_info (demo_runtime zero_persistent); cl_retained := false |} in
  ls_safe_mode_requested (foldl crash_and_boot (demo_runtime zero_persistent) [life; life; life]) = true.
Proof.
  intros life. destruct (boot_loop_detected (demo_runtime zero_persistent) [life; life; life]) as (_ & H & _).
  - repeat (apply List.Forall_cons || apply List.Forall_nil); vm_compute; discriminate.
  - discriminate.
  - vm_compute. discriminate.
  - vm_compute. reflexivity.
  - exact H.
Defined.
