(* ===== verification/Provisioning.v ===== *)
(** * Provisioning ([src/core/provisioning.c])

    The life cycle of the device key: activation, rotation, revocation and
    decommissioning, with the monotonic counter that orders provisioning commands.
    The state lives in the persistent boot record; the session key is in RAM and a
    secure element, code of the integrator, may hold the device key. *)

From stdpp Require Import relations.
From S2P Require Import Prelude Util FaultInjection Storage FlashLayer Envelope Transport Spool Boot.

Definition LS_PROVISIONING_UNPROVISIONED : Z := 0.
Definition LS_PROVISIONING_ACTIVE : Z := 1.
Definition LS_PROVISIONING_ROTATING : Z := 2.
Definition LS_PROVISIONING_REVOKED : Z := 3.
Definition LS_PROVISIONING_DECOMMISSIONED : Z := 4.
Definition LS_PROVISIONING_DECOMMISSIONING : Z := 5.

Record ls_provisioning_state_t : Type := {
  ps_state : Z;
  ps_key_id : Z;
  ps_pending_key_id : Z;
  ps_generation : Z;
  ps_monotonic_counter : Z;
}.

(** The callbacks of [ls_secure_element_t], over the element's state. *)
Record ls_secure_element_t (X : Type) : Type := {
  se_random : option (Z -> st X (res (list Z)));
  sign_sha256 : option (list Z -> st X (res (list Z)));
  read_certificate : option (Z -> st X (res (list Z)));
  derive_key : option (Z -> list Z -> st X (res (list Z)));
  destroy_key : option (Z -> st X ls_result_t);
}.
Arguments se_random {X} _.
Arguments read_certificate {X} _.
Arguments derive_key {X} _.
Arguments sign_sha256 {X} _.
Arguments destroy_key {X} _.

(** [ls_secure_element_destroy_key] and [ls_secure_element_sign] with non-null
    buffers ([src/security/secure_element.c]). *)
Definition ls_secure_element_destroy_key {X} (element : option (ls_secure_element_t X)) (key_id : Z) : st X ls_result_t :=
  match element with
  | None => mret LS_EINVAL
  | Some e =>
      if key_id =? 0 then mret LS_EINVAL
      else match destroy_key e with None => mret LS_ENOTSUP | Some f => f key_id end
  end.

Definition ls_secure_element_sign {X} (element : option (ls_secure_element_t X)) (digest : list Z) : st X (res (list Z)) :=
  match element with
  | None => mret (Err LS_EINVAL)
  | Some e => match sign_sha256 e with None => mret (Err LS_EINVAL) | Some f => f digest end
  end.

Definition ls_secure_element_validate {X} (element : option (ls_secure_element_t X)) : ls_result_t :=
  match element with
  | Some e =>
      match se_random e, sign_sha256 e, read_certificate e with
      | Some _, Some _, Some _ => LS_OK
      | _, _, _ => LS_EINVAL
      end
  | None => LS_EINVAL
  end.

(** [output] tells whether the buffer is set. *)
Definition ls_secure_element_random {X} (element : option (ls_secure_element_t X)) (output : ptr) (length_ : Z)
  : st X (res (list Z)) :=
  match element with
  | None => mret (Err LS_EINVAL)
  | Some e =>
      match se_random e with
      | None => mret (Err LS_EINVAL)
      | Some f => if negb output && negb (length_ =? 0) then mret (Err LS_EINVAL) else f length_
      end
  end.

Definition ls_secure_element_certificate {X} (element : option (ls_secure_element_t X)) (output : ptr) (capacity : Z)
    (length_ : ptr) : st X (res (list Z)) :=
  match element with
  | None => mret (Err LS_EINVAL)
  | Some e =>
      match read_certificate e with
      | None => mret (Err LS_EINVAL)
      | Some f => if negb output || (capacity =? 0) || negb length_ then mret (Err LS_EINVAL) else f capacity
      end
  end.

(** A null [context_data] has a length of its own. *)
Definition ls_secure_element_derive {X} (element : option (ls_secure_element_t X)) (key_id : Z)
    (context_data : option (list Z)) (context_length : Z) (output : ptr) : st X (res (list Z)) :=
  match element with
  | None => mret (Err LS_EINVAL)
  | Some e =>
      match derive_key e with
      | None => mret (Err LS_EINVAL)
      | Some f =>
          if (match context_data with None => negb (context_length =? 0) | Some _ => false end) || negb output || (key_id =? 0)
          then mret (Err LS_EINVAL)
          else f key_id (take (Z.to_nat context_length) (default [] context_data))
      end
  end.

(** The session key in [ls_runtime], and the state of the secure element. *)
Record key_runtime (X : Type) : Type := {
  security_key : list Z;
  security_key_length : Z;
  last_envelope_nonce : list Z;
  has_last_envelope_nonce : bool;
  element_state : X;
}.
Arguments security_key {X} _.
Arguments security_key_length {X} _.
Arguments last_envelope_nonce {X} _.
Arguments has_last_envelope_nonce {X} _.
Arguments element_state {X} _.

Section Provisioning.
Context {E W X D : Type}.
Context (timestamp_ms : option (st W Z)) (storage : option (ls_storage_backend_t (platform D))).

Definition pstate : Type := platform ((boot_runtime E W * key_runtime X) * D).

Definition provision_now (p : pstate) : provision_part := pb_provision (persistent (fst (ram p))).

(** Assignments to [ls_runtime.persistent.provision_...], and [ls_boot_state_save()]. *)
Definition set_provision (f : provision_part -> provision_part) : st pstate unit :=
  on_boot (set_persistent (with_provision f)).

Definition save : st pstate ls_result_t := on_boot (ls_boot_state_save timestamp_ms storage).

(** [ls_security_clear_key] ([src/security/sha256.c]). *)
Definition clear_key (k : key_runtime X) : key_runtime X :=
  {| security_key := fill (zlen (security_key k)) 0; security_key_length := 0;
     last_envelope_nonce := fill (zlen (last_envelope_nonce k)) 0; has_last_envelope_nonce := false;
     element_state := element_state k |}.

Definition ls_security_clear_key : st pstate unit := set_ram (fun m => (fst m, clear_key (snd m))).

(** A call into the secure element. *)
Definition on_element {A} (f : st X A) : st pstate A := fun p =>
  let k := snd (ram p) in
  let '(a, x) := f (element_state k) in
  let '(_, p) := set_ram (fun m => (fst m,
    {| security_key := security_key k; security_key_length := security_key_length k;
       last_envelope_nonce := last_envelope_nonce k; has_last_envelope_nonce := has_last_envelope_nonce k;
       element_state := x |})) p in
  (a, p).

Definition monotonic_allowed (counter : Z) (v : provision_part) : bool :=
  negb (counter =? 0) && (provision_monotonic_counter v <? counter).

Definition ls_provisioning_get_state (p : pstate) : ls_provisioning_state_t :=
  let v := provision_now p in
  {| ps_state := provision_state v; ps_key_id := provision_key_id v; ps_pending_key_id := provision_pending_key_id v;
     ps_generation := provision_generation v; ps_monotonic_counter := provision_monotonic_counter v |}.

(** [if (generation != UINT32_MAX) generation++]. *)
Definition next_generation (g : Z) : Z := if negb (g =? UINT32_MAX) then u32 (g + 1) else g.

Definition ls_provisioning_activate (key_id counter : Z) : st pstate ls_result_t := fun p =>
  let v := provision_now p in
  if (key_id =? 0) || negb (monotonic_allowed counter v) ||
     (negb (provision_state v =? LS_PROVISIONING_UNPROVISIONED) && negb (provision_state v =? LS_PROVISIONING_REVOKED))
  then (LS_EINVAL, p)
  else
    let '(_, p) := set_provision (fun v =>
      {| provision_key_id := key_id; provision_pending_key_id := 0;
         provision_generation := next_generation (provision_generation v); provision_monotonic_counter := counter;
         provision_state := LS_PROVISIONING_ACTIVE; provision_reserved := provision_reserved v |}) p in
    save p.

Definition ls_provisioning_begin_rotation (new_key_id counter : Z) : st pstate ls_result_t := fun p =>
  let v := provision_now p in
  if negb (provision_state v =? LS_PROVISIONING_ACTIVE) || (new_key_id =? 0) || (new_key_id =? provision_key_id v) ||
     negb (monotonic_allowed counter v)
  then (LS_EINVAL, p)
  else
    let '(_, p) := set_provision (fun v =>
      {| provision_key_id := provision_key_id v; provision_pending_key_id := new_key_id;
         provision_generation := provision_generation v; provision_monotonic_counter := counter;
         provision_state := LS_PROVISIONING_ROTATING; provision_reserved := provision_reserved v |}) p in
    save p.

Definition ls_provisioning_commit_rotation : st pstate ls_result_t := fun p =>
  let v := provision_now p in
  if negb (provision_state v =? LS_PROVISIONING_ROTATING) || (provision_pending_key_id v =? 0) then (LS_EINVAL, p)
  else
    let '(_, p) := set_provision (fun v =>
      {| provision_key_id := provision_pending_key_id v; provision_pending_key_id := 0;
         provision_generation := next_generation (provision_generation v);
         provision_monotonic_counter := provision_monotonic_counter v; provision_state := LS_PROVISIONING_ACTIVE;
         provision_reserved := provision_reserved v |}) p in
    save p.

Definition ls_provisioning_revoke : st pstate ls_result_t := fun p =>
  let v := provision_now p in
  if negb (provision_state v =? LS_PROVISIONING_ACTIVE) && negb (provision_state v =? LS_PROVISIONING_ROTATING)
  then (LS_EINVAL, p)
  else
    let '(_, p) := set_provision (fun v =>
      {| provision_key_id := provision_key_id v; provision_pending_key_id := 0;
         provision_generation := provision_generation v;
         provision_monotonic_counter := provision_monotonic_counter v; provision_state := LS_PROVISIONING_REVOKED;
         provision_reserved := provision_reserved v |}) p in
    let '(_, p) := ls_security_clear_key p in
    save p.

Definition ls_provisioning_decommission : st pstate ls_result_t := fun p =>
  if provision_state (provision_now p) =? LS_PROVISIONING_DECOMMISSIONED then (LS_OK, p)
  else
    let '(_, p) := ls_security_clear_key p in
    let '(_, p) := set_provision (fun v =>
      {| provision_key_id := 0; provision_pending_key_id := 0;
         provision_generation := next_generation (provision_generation v);
         provision_monotonic_counter := provision_monotonic_counter v;
         provision_state := LS_PROVISIONING_DECOMMISSIONED; provision_reserved := provision_reserved v |}) p in
    save p.

Definition set_state (s : Z) : provision_part -> provision_part := fun v =>
  {| provision_key_id := provision_key_id v; provision_pending_key_id := provision_pending_key_id v;
     provision_generation := provision_generation v; provision_monotonic_counter := provision_monotonic_counter v;
     provision_state := s; provision_reserved := provision_reserved v |}.

(** The part of [ls_provisioning_decommission_secure] after its checks. *)
Definition destroy_and_decommission (element : option (ls_secure_element_t X)) (key_id : Z) : st pstate ls_result_t :=
  fun p =>
  let '(r, p) := on_element (ls_secure_element_destroy_key element key_id) p in
  if negb (is_ok r) then let '(_, p) := ls_security_clear_key p in (r, p)
  else ls_provisioning_decommission p.

Definition ls_provisioning_decommission_secure (element : option (ls_secure_element_t X)) : st pstate ls_result_t :=
  fun p =>
  let v := provision_now p in
  let key_id := provision_key_id v in
  let previous := provision_state v in
  if previous =? LS_PROVISIONING_DECOMMISSIONED then (LS_OK, p)
  else if negb (is_set element) || (key_id =? 0) ||
          (negb (previous =? LS_PROVISIONING_ACTIVE) && negb (previous =? LS_PROVISIONING_REVOKED) &&
           negb (previous =? LS_PROVISIONING_DECOMMISSIONING))
  then (LS_EINVAL, p)
  else if negb (previous =? LS_PROVISIONING_DECOMMISSIONING) then
    let '(_, p) := set_provision (set_state LS_PROVISIONING_DECOMMISSIONING) p in
    let '(persisted, p) := save p in
    if negb (is_ok persisted) then
      let '(_, p) := set_provision (set_state previous) p in (persisted, p)
    else destroy_and_decommission element key_id p
  else destroy_and_decommission element key_id p.

(** [ls_provisioning_attest] with non-null output buffers: the digest and the
    signature.  [sha256] is the hash of [src/security/sha256.c]; [device] and [build]
    are the identity strings of the configuration. *)
Definition ls_provisioning_attest (sha256 : list Z -> list Z) (device build : option (list Z))
    (element : option (ls_secure_element_t X)) (challenge : list Z) : st pstate (res (list Z * list Z)) := fun p =>
  if negb (is_set element) || (128 <? zlen challenge) then (Err LS_EINVAL, p)
  else if 256 <? zlen challenge + ls_string_length device + ls_string_length build + 12 then (Err LS_ENOSPACE, p)
  else
    let v := provision_now p in
    let material := challenge ++ default [] device ++ default [] build ++
                    le 4 (provision_generation v) ++ le 4 (provision_monotonic_counter v) ++
                    le 4 (b_boot_count (fst (ram p))) in
    let digest := sha256 material in
    let '(r, p) := on_element (ls_secure_element_sign element digest) p in
    (match r with Err e => Err e | Ok signature => Ok (digest, signature) end, p).
End Provisioning.

(** ** Provisioning as a state machine *)

(** What each operation may do to the provisioning group: the transitions of the
    life cycle, without storage, keys and elements. *)
Inductive prov_move (v : provision_part) : provision_part -> Prop :=
| move_activate k c :
    provision_state v = LS_PROVISIONING_UNPROVISIONED \/ provision_state v = LS_PROVISIONING_REVOKED ->
    k <> 0 -> provision_monotonic_counter v < c ->
    prov_move v {| provision_key_id := k; provision_pending_key_id := 0;
                   provision_generation := next_generation (provision_generation v); provision_monotonic_counter := c;
                   provision_state := LS_PROVISIONING_ACTIVE; provision_reserved := provision_reserved v |}
| move_rotate k c :
    provision_state v = LS_PROVISIONING_ACTIVE -> k <> 0 -> k <> provision_key_id v -> provision_monotonic_counter v < c ->
    prov_move v {| provision_key_id := provision_key_id v; provision_pending_key_id := k;
                   provision_generation := provision_generation v; provision_monotonic_counter := c;
                   provision_state := LS_PROVISIONING_ROTATING; provision_reserved := provision_reserved v |}
| move_commit :
    provision_state v = LS_PROVISIONING_ROTATING -> provision_pending_key_id v <> 0 ->
    prov_move v {| provision_key_id := provision_pending_key_id v; provision_pending_key_id := 0;
                   provision_generation := next_generation (provision_generation v);
                   provision_monotonic_counter := provision_monotonic_counter v;
                   provision_state := LS_PROVISIONING_ACTIVE; provision_reserved := provision_reserved v |}
| move_revoke :
    provision_state v = LS_PROVISIONING_ACTIVE \/ provision_state v = LS_PROVISIONING_ROTATING ->
    prov_move v {| provision_key_id := provision_key_id v; provision_pending_key_id := 0;
                   provision_generation := provision_generation v;
                   provision_monotonic_counter := provision_monotonic_counter v;
                   provision_state := LS_PROVISIONING_REVOKED; provision_reserved := provision_reserved v |}
| move_destroying :
    provision_state v = LS_PROVISIONING_ACTIVE \/ provision_state v = LS_PROVISIONING_REVOKED -> provision_key_id v <> 0 ->
    prov_move v (set_state LS_PROVISIONING_DECOMMISSIONING v)
| move_decommission :
    provision_state v <> LS_PROVISIONING_DECOMMISSIONED ->
    prov_move v {| provision_key_id := 0; provision_pending_key_id := 0;
                   provision_generation := next_generation (provision_generation v);
                   provision_monotonic_counter := provision_monotonic_counter v;
                   provision_state := LS_PROVISIONING_DECOMMISSIONED; provision_reserved := provision_reserved v |}.

(** The keys each state holds. *)
Definition prov_inv (v : provision_part) : Prop :=
  (provision_state v = LS_PROVISIONING_UNPROVISIONED /\ provision_key_id v = 0 /\ provision_pending_key_id v = 0) \/
  (provision_state v = LS_PROVISIONING_ACTIVE /\ provision_key_id v <> 0 /\ provision_pending_key_id v = 0) \/
  (provision_state v = LS_PROVISIONING_ROTATING /\ provision_key_id v <> 0 /\ provision_pending_key_id v <> 0 /\
     provision_pending_key_id v <> provision_key_id v) \/
  (provision_state v = LS_PROVISIONING_REVOKED /\ provision_key_id v <> 0 /\ provision_pending_key_id v = 0) \/
  (provision_state v = LS_PROVISIONING_DECOMMISSIONING /\ provision_key_id v <> 0 /\ provision_pending_key_id v = 0) \/
  (provision_state v = LS_PROVISIONING_DECOMMISSIONED /\ provision_key_id v = 0 /\ provision_pending_key_id v = 0).

(** Decides goals about the state code, the keys and the counters of one record. *)
Ltac prov_decide :=
  unfold LS_PROVISIONING_UNPROVISIONED, LS_PROVISIONING_ACTIVE, LS_PROVISIONING_ROTATING, LS_PROVISIONING_REVOKED,
    LS_PROVISIONING_DECOMMISSIONED, LS_PROVISIONING_DECOMMISSIONING in *;
  cbn [provision_state provision_key_id provision_pending_key_id provision_monotonic_counter provision_generation] in *;
  lia.

Lemma move_inv v v' : prov_inv v -> prov_move v v' -> prov_inv v'.
Proof. unfold prov_inv. intros Hv H. destruct H; unfold set_state; prov_decide. Qed.

Lemma next_generation_le g : 0 <= g <= UINT32_MAX -> g <= next_generation g <= UINT32_MAX.
Proof. unfold next_generation, u32. intros H. case_if; [|lia]. bool_prop. unfold UINT32_MAX in *. rewrite Z.mod_small by lia. lia. Qed.

(** The quantities no move decreases. *)
Definition prov_order (v v' : provision_part) : Prop :=
  provision_monotonic_counter v <= provision_monotonic_counter v' /\
  (0 <= provision_generation v <= UINT32_MAX -> provision_generation v <= provision_generation v' <= UINT32_MAX).

Lemma move_order v v' : prov_move v v' -> prov_order v v'.
Proof.
  destruct 1; split; unfold set_state; cbn [provision_monotonic_counter provision_generation]; intros;
    try apply next_generation_le; lia.
Qed.

Lemma moves_order v v' : rtc prov_move v v' -> prov_order v v'.
Proof.
  induction 1 as [v|v v1 v' Hm _ IH]; [split; lia|]. apply move_order in Hm. unfold prov_order in *. lia.
Qed.

Lemma moves_inv v v' : prov_inv v -> rtc prov_move v v' -> prov_inv v'.
Proof. intros Hv. induction 1; eauto using move_inv. Qed.

(** The last state of the life cycle is final. *)
Lemma moves_final v v' : rtc prov_move v v' -> provision_state v = LS_PROVISIONING_DECOMMISSIONED -> v' = v.
Proof.
  induction 1 as [v|v v1 v' Hm _ IH]; [done|]. intros Hs. exfalso. destruct Hm; prov_decide.
Qed.

(** ** The functions make these moves *)

Section ProvisioningSteps.
Context {E W X D : Type}.
Context (timestamp_ms : option (st W Z)) (storage : option (ls_storage_backend_t (platform D))).
Local Abbreviation state := (@pstate E W X D).
Implicit Types p q : state.

(** The session key is gone. *)
Definition key_cleared (k : key_runtime X) : Prop :=
  Forall (fun b => b = 0) (security_key k) /\ security_key_length k = 0 /\ has_last_envelope_nonce k = false.

(** Any sequence of provisioning commands, attestations and operations on the boot
    record, with any secure element and any outcome of saving. *)
Inductive prov_step : state -> state -> Prop :=
| step_activate k c p r p' : ls_provisioning_activate timestamp_ms storage k c p = (r, p') -> prov_step p p'
| step_rotate k c p r p' : ls_provisioning_begin_rotation timestamp_ms storage k c p = (r, p') -> prov_step p p'
| step_commit p r p' : ls_provisioning_commit_rotation timestamp_ms storage p = (r, p') -> prov_step p p'
| step_revoke p r p' : ls_provisioning_revoke timestamp_ms storage p = (r, p') -> prov_step p p'
| step_decommission p r p' : ls_provisioning_decommission timestamp_ms storage p = (r, p') -> prov_step p p'
| step_secure e p r p' : ls_provisioning_decommission_secure timestamp_ms storage e p = (r, p') -> prov_step p p'
| step_attest h d b e c p r p' : ls_provisioning_attest h d b e c p = (r, p') -> prov_step p p'
| step_boot p p' : boot_step timestamp_ms storage (boot_within p) (boot_within p') -> snd (ram p') = snd (ram p) ->
    prov_step p p'.

Lemma prov_save p r p' : save timestamp_ms storage p = (r, p') ->
  provision_now p' = provision_now p /\ snd (ram p') = snd (ram p).
Proof.
  unfold save, on_boot. destruct (ls_boot_state_save _ _ _) as [r0 q] eqn:H. intros [= <- <-].
  apply save_groups in H as [_ H]. done.
Qed.

Lemma set_save f p r p' : (let '(_, p) := set_provision f p in save timestamp_ms storage p) = (r, p') ->
  provision_now p' = f (provision_now p) /\ snd (ram p') = snd (ram p).
Proof. intros H. by apply prov_save in H. Qed.

Lemma element_same {A} (f : st X A) p a p' : on_element f p = (a, p') ->
  provision_now p' = provision_now p /\ security_key (snd (ram p')) = security_key (snd (ram p)).
Proof. unfold on_element. destruct (f _) as [a0 x]. by intros [= <- <-]. Qed.

Lemma clear_key_cleared (k : key_runtime X) : key_cleared (clear_key k).
Proof. split; [|done]. apply Forall_replicate. done. Qed.

Lemma activate_move k c p r p' : ls_provisioning_activate timestamp_ms storage k c p = (r, p') ->
  (r = LS_EINVAL /\ p' = p) \/
  (prov_move (provision_now p) (provision_now p') /\ provision_monotonic_counter (provision_now p) < c).
Proof.
  unfold ls_provisioning_activate. destruct (_ || _) eqn:Ec; [intros [= <- <-]; by left|]. intros H. right.
  apply set_save in H as [-> _]. unfold monotonic_allowed in Ec. bool_prop. split; [|lia]. constructor; prov_decide.
Qed.

Lemma rotate_move k c p r p' : ls_provisioning_begin_rotation timestamp_ms storage k c p = (r, p') ->
  (r = LS_EINVAL /\ p' = p) \/
  (prov_move (provision_now p) (provision_now p') /\ provision_monotonic_counter (provision_now p) < c).
Proof.
  unfold ls_provisioning_begin_rotation. destruct (_ || _) eqn:Ec; [intros [= <- <-]; by left|]. intros H. right.
  apply set_save in H as [-> _]. unfold monotonic_allowed in Ec. bool_prop. split; [|lia]. constructor; prov_decide.
Qed.

Lemma commit_move p r p' : ls_provisioning_commit_rotation timestamp_ms storage p = (r, p') ->
  p' = p \/ prov_move (provision_now p) (provision_now p').
Proof.
  unfold ls_provisioning_commit_rotation. destruct (_ || _) eqn:Ec; [intros [= <- <-]; by left|]. intros H. right.
  apply set_save in H as [-> _]. bool_prop. constructor; prov_decide.
Qed.

Lemma revoke_move p r p' : ls_provisioning_revoke timestamp_ms storage p = (r, p') ->
  p' = p \/ (prov_move (provision_now p) (provision_now p') /\ key_cleared (snd (ram p'))).
Proof.
  unfold ls_provisioning_revoke. destruct (_ && _) eqn:Ec; [intros [= <- <-]; by left|].
  cbn [ls_security_clear_key set_ram set_provision]. intros H. right.
  apply prov_save in H as [-> ->]. split; [|apply clear_key_cleared]. bool_prop. constructor. prov_decide.
Qed.

Lemma decommission_move p r p' : ls_provisioning_decommission timestamp_ms storage p = (r, p') ->
  (provision_state (provision_now p) = LS_PROVISIONING_DECOMMISSIONED /\ r = LS_OK /\ p' = p) \/
  (prov_move (provision_now p) (provision_now p') /\ key_cleared (snd (ram p')) /\
   provision_state (provision_now p') = LS_PROVISIONING_DECOMMISSIONED).
Proof.
  unfold ls_provisioning_decommission. destruct (_ =? _) eqn:Ec; bool_prop; [intros [= <- <-]; by left|].
  cbn [ls_security_clear_key set_ram set_provision]. intros H. right.
  apply prov_save in H as [-> ->]. split; [|split; [apply clear_key_cleared|done]]. constructor. prov_decide.
Qed.

(** What the element answers to the request to destroy the key. *)
Definition destroy_result (element : option (ls_secure_element_t X)) (key_id : Z) (p : state) : ls_result_t :=
  fst (ls_secure_element_destroy_key element key_id (element_state (snd (ram p)))).

(** The element answered [rd], and [p'] is the outcome. *)
Definition destroyed (rd : ls_result_t) (p p' : state) (r : ls_result_t) : Prop :=
  key_cleared (snd (ram p')) /\
  (rd <> LS_OK -> r = rd /\ provision_now p' = provision_now p) /\
  (rd = LS_OK -> prov_move (provision_now p) (provision_now p') /\
     provision_state (provision_now p') = LS_PROVISIONING_DECOMMISSIONED).

Lemma destroy_spec element key p r p' : provision_state (provision_now p) = LS_PROVISIONING_DECOMMISSIONING ->
  destroy_and_decommission timestamp_ms storage element key p = (r, p') ->
  destroyed (destroy_result element key p) p p' r.
Proof.
  intros Hs H. unfold destroy_and_decommission in H. destruct (on_element _ p) as [rd q] eqn:He.
  assert (rd = destroy_result element key p) as Hrd.
  { unfold on_element in He. unfold destroy_result. destruct (ls_secure_element_destroy_key _ _ _). by injection He as -> _. }
  apply element_same in He as [Hq _]. rewrite <- Hrd. destruct (is_ok rd) eqn:Ho; cbn [negb] in H.
  - apply is_ok_true in Ho. apply decommission_move in H as [(Hs' & _)|(Hm & Hk & Hd)]; [rewrite Hq, Hs in Hs'; discriminate|].
    rewrite Hq in Hm. split; [done|]. split; [done|by split].
  - cbn [ls_security_clear_key set_ram] in H. injection H as <- <-. split; [apply clear_key_cleared|].
    split; [by split|]. intros ->. done.
Qed.

(** The state in which the destruction is attempted: DECOMMISSIONING is stored. *)
Definition destruction_begun (p q : state) : Prop :=
  (provision_state (provision_now p) = LS_PROVISIONING_DECOMMISSIONING /\ q = p) \/
  (provision_state (provision_now p) <> LS_PROVISIONING_DECOMMISSIONING /\
   save timestamp_ms storage (snd (set_provision (set_state LS_PROVISIONING_DECOMMISSIONING) p)) = (LS_OK, q)).

Lemma begun_same p q : destruction_begun p q ->
  provision_now q = set_state LS_PROVISIONING_DECOMMISSIONING (provision_now p) /\ snd (ram q) = snd (ram p).
Proof.
  intros [[Hs ->]|[_ H]]; [|by apply prov_save in H]. split; [|done]. unfold set_state. rewrite <- Hs.
  by destruct (provision_now p).
Qed.

Lemma secure_spec e p r p' : ls_provisioning_decommission_secure timestamp_ms storage e p = (r, p') ->
  let v := provision_now p in
  (provision_state v = LS_PROVISIONING_DECOMMISSIONED /\ r = LS_OK /\ p' = p) \/
  (provision_state v <> LS_PROVISIONING_DECOMMISSIONED /\
   ((r = LS_EINVAL /\ p' = p) \/
    (r <> LS_OK /\ provision_now p' = v /\ snd (ram p') = snd (ram p)) \/
    exists q, is_set e = true /\ provision_key_id v <> 0 /\
      provision_state v <> LS_PROVISIONING_UNPROVISIONED /\ provision_state v <> LS_PROVISIONING_ROTATING /\
      (provision_state v <> LS_PROVISIONING_DECOMMISSIONING ->
         provision_state v = LS_PROVISIONING_ACTIVE \/ provision_state v = LS_PROVISIONING_REVOKED) /\
      destruction_begun p q /\ destroyed (destroy_result e (provision_key_id v) q) q p' r)).
Proof.
  intros H v. unfold ls_provisioning_decommission_secure in H. fold v in H.
  destruct (provision_state v =? LS_PROVISIONING_DECOMMISSIONED) eqn:E1; bool_prop; [injection H as <- <-; by left|].
  right. split; [done|]. destruct (_ || _) eqn:E2; [injection H as <- <-; by left|]. right. bool_prop.
  destruct (provision_state v =? LS_PROVISIONING_DECOMMISSIONING) eqn:E3; cbn [negb] in H; bool_prop.
  - right. exists p. apply destroy_spec in H; [|done]. split_and!; try (done || prov_decide). by left.
  - destruct (set_provision _ p) as [[] p1] eqn:Ep1. destruct (save _ _ p1) as [rs q] eqn:Es.
    destruct (is_ok rs) eqn:Ho; cbn [negb] in H.
    + right. apply is_ok_true in Ho as ->. exists q.
      assert (destruction_begun p q) as Hb by (right; by rewrite Ep1).
      apply destroy_spec in H; [|by destruct (begun_same p q Hb) as [-> _]].
      split_and!; try (done || prov_decide).
    + left. destruct (set_provision _ q) as [[] p2] eqn:Ep2. injection H as <- <-. split; [by intros ->|].
      apply prov_save in Es as [Hn Hk].
      assert (provision_now p2 = set_state (provision_state v) (provision_now q) /\ snd (ram p2) = snd (ram q)) as [-> ->]
        by (by injection Ep2 as <-).
      assert (provision_now p1 = set_state LS_PROVISIONING_DECOMMISSIONING v /\ snd (ram p1) = snd (ram p)) as [Hv1 Hk1]
        by (by injection Ep1 as <-).
      rewrite Hn, Hv1, Hk, Hk1. split; [|done]. unfold set_state. by destruct v.
Qed.

Lemma secure_moves e p r p' : ls_provisioning_decommission_secure timestamp_ms storage e p = (r, p') ->
  rtc prov_move (provision_now p) (provision_now p').
Proof.
  intros [(_ & _ & ->)|(_ & [[_ ->]|[(_ & -> & _)|(q & _ & Hk & _ & _ & Hs & Hb & _ & Hd1 & Hd2)]])]%secure_spec;
    [reflexivity..|].
  transitivity (provision_now q).
  - destruct (begun_same p q Hb) as [Hq _]. rewrite Hq.
    destruct (decide (provision_state (provision_now p) = LS_PROVISIONING_DECOMMISSIONING)) as [Hd|Hd].
    + replace (set_state _ _) with (provision_now p); [reflexivity|]. unfold set_state. rewrite <- Hd. by destruct (provision_now p).
    + apply rtc_once. constructor; [by apply Hs|done].
  - destruct (decide (destroy_result e (provision_key_id (provision_now p)) q = LS_OK)) as [Ho|Ho].
    + apply rtc_once. by apply Hd2.
    + destruct (Hd1 Ho) as [_ ->]. reflexivity.
Qed.

Lemma prov_step_moves p p' : prov_step p p' -> rtc prov_move (provision_now p) (provision_now p').
Proof.
  destruct 1 as [k c p r p' H|k c p r p' H|p r p' H|p r p' H|p r p' H|e p r p' H|h d b e c p r p' H|p p' H _].
  - apply activate_move in H as [[_ ->]|[H _]]; [reflexivity|by apply rtc_once].
  - apply rotate_move in H as [[_ ->]|[H _]]; [reflexivity|by apply rtc_once].
  - apply commit_move in H as [->|H]; [reflexivity|by apply rtc_once].
  - apply revoke_move in H as [->|[H _]]; [reflexivity|by apply rtc_once].
  - apply decommission_move in H as [(_ & _ & ->)|(H & _)]; [reflexivity|by apply rtc_once].
  - by apply secure_moves in H.
  - unfold ls_provisioning_attest in H. do 2 (case_match; [by injection H as <- <-|]).
    destruct (on_element _ p) as [a q] eqn:He. apply element_same in He as [Hq _]. injection H as <- <-. by rewrite Hq.
  - apply boot_step_provision in H. unfold provision_now. change (fst (ram p)) with (ram (boot_within p)).
    change (fst (ram p')) with (ram (boot_within p')). by rewrite H.
Qed.

Lemma prov_trace p p' : rtc prov_step p p' -> rtc prov_move (provision_now p) (provision_now p').
Proof. induction 1 as [|p q p' H _ IH]; [reflexivity|]. apply prov_step_moves in H. by transitivity (provision_now q). Qed.
End ProvisioningSteps.

(** Operations, and restarts and boots of the device ([Boot.life]); the session key and the
    element are what they are after them. *)
Section ProvisioningLives.
Context {E W X D : Type} (timestamp_ms : option (st W Z)) (raw : ls_storage_backend_t (platform D)) `{!StorageOk raw}.
Local Abbreviation state := (@pstate E W X D).
Implicit Types p q : state.

Inductive prov_life : state -> state -> Prop :=
| prov_operation p p' : prov_step timestamp_ms (Some raw) p p' -> prov_life p p'
| prov_restart p p' : life timestamp_ms raw (boot_within p) (boot_within p') -> prov_life p p'.

Lemma prov_lives p p' : rtc prov_life p p' -> rtc prov_move (provision_now p) (provision_now p').
Proof.
  induction 1 as [p|p q p' H _ IH]; [reflexivity|]. destruct H as [p q H|p q H].
  - apply prov_step_moves in H. by transitivity (provision_now q).
  - apply life_groups in H as [H|[_ H]].
    + apply boot_step_provision in H. unfold provision_now in *. change (fst (ram p)) with (ram (boot_within p)).
      rewrite <- H. exact IH.
    + unfold provision_now in *. change (fst (ram p)) with (ram (boot_within p)). rewrite <- H. exact IH.
Qed.
End ProvisioningLives.

(** ** Theorems *)



(** C34: secure decommissioning fails closed.  On a device that can be
    decommissioned, either saving the intermediate state failed, and nothing has
    changed, or that state was stored before the element was asked to destroy the key;
    then the session key is cleared, and the device is decommissioned exactly if
    the element destroyed the key, or else stays in the intermediate state with the
    element's error, for a retry. *)
Theorem decommission_fails_closed {E W X D} (clock : option (st W Z)) (storage : option (ls_storage_backend_t (platform D)))
    (element : option (ls_secure_element_t X)) (p p' : @pstate E W X D) r :
  provision_state (provision_now p) <> LS_PROVISIONING_DECOMMISSIONED ->
  ls_provisioning_decommission_secure clock storage element p = (r, p') ->
  (r <> LS_OK /\ provision_now p' = provision_now p /\ snd (ram p') = snd (ram p)) \/
  exists q, destruction_begun clock storage p q /\ key_cleared (snd (ram p')) /\
    provision_state (provision_now q) = LS_PROVISIONING_DECOMMISSIONING /\
    let rd := destroy_result element (provision_key_id (provision_now p)) q in
    (provision_state (provision_now p') = LS_PROVISIONING_DECOMMISSIONED <-> rd = LS_OK) /\
    (rd <> LS_OK -> r = rd /\ provision_now p' = provision_now q).
Proof.
  intros Hs [(? & _)|(_ & [[-> ->]|[H|(q & _ & _ & _ & _ & _ & Hb & Hk & H1 & H2)]])]%secure_spec; [done|by left..|].
  right. exists q. destruct (begun_same _ _ p q Hb) as [Hq _].
  assert (provision_state (provision_now q) = LS_PROVISIONING_DECOMMISSIONING) as Hd by (by rewrite Hq).
  split_and!; try done. intros rd. split; [|done]. split; [|by intros [_ ?]%H2].
  intros Hp. destruct (decide (rd = LS_OK)) as [|Hn]; [done|]. destruct (H1 Hn) as [_ He]. rewrite He, Hd in Hp. discriminate.
Qed.

(** An element that counts the keys it destroyed and refuses key 9. *)
Definition demo_element : ls_secure_element_t Z :=
  {| se_random := None; read_certificate := None; derive_key := None; sign_sha256 := None;
     destroy_key := Some (fun k n => if k =? 9 then (LS_EIO, n) else (LS_OK, n + 1)) |}.

Definition demo_prov : @pstate (list (list Z)) Z Z ls_memory_storage_t :=
  {| faults := no_faults;
     dev := ((demo_runtime zero_persistent,
              {| security_key := [1; 2; 3]; security_key_length := 3; last_envelope_nonce := [4];
                 has_last_envelope_nonce := true; element_state := 0 |}), demo_blank) |}.

Lemma demo_prov_inv : prov_inv (provision_now demo_prov).
Proof. left. split_and!; reflexivity. Qed.

Definition demo_active (key : Z) := snd (ls_provisioning_activate demo_clock None key 5 demo_prov).

(** Key 7 activated with counter 5, and the record stored. *)
Definition demo_stored : @pstate (list (list Z)) Z Z ls_memory_storage_t :=
  snd (ls_provisioning_activate demo_clock (Some demo_boot_storage) 7 5 demo_prov).

(** A device after a restart. *)
Definition demo_again (p : @pstate (list (list Z)) Z Z ls_memory_storage_t) : @pstate (list (list Z)) Z Z ls_memory_storage_t :=
  snd (on_boot (ls_boot_state_load (Some demo_boot_storage))
         {| faults := no_faults; dev := ((demo_runtime zero_persistent, snd (ram p)), snd (dev p)) |}).

Lemma demo_restarts p : recorded demo_boot_storage (boot_within p) -> inv (StorageOk:=demo_boot_ok) (snd (dev p)) ->
  prov_life demo_clock demo_boot_storage p (demo_again p).
Proof.
  intros Hr Hi. apply prov_restart. set (q := demo_boot zero_persistent (snd (dev p))).
  apply (life_restart _ _ _ q (fst (ls_boot_state_load (Some demo_boot_storage) q))).
  - exact Hr.
  - exact Hi.
  - exact (proj1 (proj2 (demo_boot_state zero_persistent (boot_within p)))).
  - exact (proj2 (proj2 (demo_boot_state zero_persistent (boot_within p)))).
  - unfold demo_again, on_boot.
    change (boot_within {| faults := no_faults; dev := (demo_runtime zero_persistent, snd (ram p), snd (dev p)) |})
      with q.
    destruct (ls_boot_state_load _ q) as [r [f [m d]]]. reflexivity.
Qed.

Lemma demo_stored_inv : inv (StorageOk:=demo_boot_ok) (snd (dev demo_stored)).
Proof. split; [by vm_compute|]. apply demo_bytes_ok. vm_compute. reflexivity. Qed.

Lemma demo_stored_recorded : recorded demo_boot_storage (boot_within demo_stored).
Proof.
  split; [by vm_compute|].
  let s := eval vm_compute in (persistent (ram (boot_within demo_stored))) in
    exists s; assert (persistent_ok s) as Hok
      by (split; try (by vm_compute); repeat (apply List.Forall2_cons || apply List.Forall2_nil); by vm_compute).
  split; [exact Hok|]. clear Hok. split_and!; vm_compute; reflexivity.
Qed.



Lemma decommission_fails_closed_witness :
  let run := ls_provisioning_decommission_secure demo_clock None (Some demo_element) (demo_active 9) in
  fst run = LS_EIO /\ provision_state (provision_now (snd run)) = LS_PROVISIONING_DECOMMISSIONING /\
  ((fst run <> LS_OK /\ provision_now (snd run) = provision_now (demo_active 9) /\
    snd (ram (snd run)) = snd (ram (demo_active 9))) \/ key_cleared (snd (ram (snd run)))).
Proof.
  intros run. split; [reflexivity|]. split; [reflexivity|].
  destruct (decommission_fails_closed demo_clock None (Some demo_element) (demo_active 9) (snd run) (fst run)) as [H|H].
  - vm_compute. discriminate.
  - apply surjective_pairing.
  - left. exact H.
  - right. destruct H as (q & _ & H & _). exact H.
Defined.
