(* ===== verification/Ota.v ===== *)
(** * Over-the-air updates ([src/core/ota.c])

    Staging, confirming and rolling back a firmware image through the integrator's
    backend, with the anti-rollback record of the boot state kept in step. *)

From stdpp Require Import relations.
From S2P Require Import Prelude Util FaultInjection Storage FlashLayer Envelope Transport Spool Boot.

(** The numeric codes of [ls_result_t]. *)
Definition result_code (r : ls_result_t) : Z :=
  match r with
  | LS_OK => 0 | LS_EINVAL => -1 | LS_ENOSPACE => -2 | LS_EIO => -3 | LS_ECORRUPT => -4 | LS_EAGAIN => -5
  | LS_ENOTSUP => -6 | LS_EBUSY => -7 | LS_EAUTH => -8 | LS_EOVERFLOW => -9
  end.

(** A call of [ls_blackbox_record_values]: the source, the flags and the four values;
    the kind is [LS_BLACKBOX_STATE] in every call here. *)
Record blackbox_call : Type := {
  bc_source_id : Z;
  bc_flags : Z;
  bc_values : list Z;
}.

Definition LS_BLACKBOX_IMPORTANT : Z := 1.
Definition LS_BLACKBOX_ERROR : Z := 2.

(** The callbacks, over the state behind [context]. *)
Record ls_ota_backend_t (X : Type) : Type := {
  authenticate : option (Z -> Z -> list Z -> list Z -> st X ls_result_t);
  stage : option (list Z -> st X ls_result_t);
  request_boot : option (Z -> st X ls_result_t);
  confirm : option (Z -> st X ls_result_t);
  rollback : option (Z -> st X ls_result_t);
}.
Arguments authenticate {X} _.
Arguments stage {X} _.
Arguments request_boot {X} _.
Arguments confirm {X} _.
Arguments rollback {X} _.

(** The backend's state, and the calls made to the black box. *)
Record ota_runtime (X : Type) : Type := {
  backend_state : X;
  blackbox_calls : list blackbox_call;
}.
Arguments backend_state {X} _.
Arguments blackbox_calls {X} _.

(** [digest_fingerprint]. *)
Definition digest_fingerprint (digest : list Z) : Z :=
  let value := read_u32 digest 0 in if value =? 0 then 1 else value.

Definition backend_valid {X} (backend : option (ls_ota_backend_t X)) : bool :=
  match backend with
  | None => false
  | Some b => is_set (authenticate b) && is_set (stage b) && is_set (request_boot b) && is_set (confirm b) &&
              is_set (rollback b)
  end.

(** An absent or empty buffer. *)
Definition no_bytes (b : option (list Z)) : bool := match b with Some (_ :: _) => false | _ => true end.

Section Ota.
Context {E W X D : Type}.
Context (timestamp_ms : option (st W Z)) (storage : option (ls_storage_backend_t (platform D))).
(** [ls_sha256] and [ls_runtime.config.identity->firmware_version]. *)
Context (sha256 : list Z -> list Z) (firmware_version : option (list Z)).

Definition ostate : Type := platform ((boot_runtime E W * ota_runtime X) * D).

Definition update_of_ota (p : ostate) : update_part := pb_update (persistent (fst (ram p))).

(** A callback of a valid backend. *)
Definition on_backend (f : option (st X ls_result_t)) : st ostate ls_result_t := fun p =>
  match f with
  | None => (LS_EINVAL, p)
  | Some f =>
      let '(r, x) := f (backend_state (snd (ram p))) in
      let '(_, p) := set_ram (fun m => (fst m, {| backend_state := x; blackbox_calls := blackbox_calls (snd m) |})) p in
      (r, p)
  end.

Definition blackbox (source flags : Z) (values : list Z) : st ostate unit :=
  set_ram (fun m => (fst m,
    {| backend_state := backend_state (snd m);
       blackbox_calls := blackbox_calls (snd m) ++
         [{| bc_source_id := source; bc_flags := flags; bc_values := values |}] |})).

(** Asking the bootloader for the staged image, which aborts the update if refused. *)
Definition request_staged (b : ls_ota_backend_t X) (version : Z) : st ostate ls_result_t := fun p =>
  let '(r, p) := on_backend ((fun f => f version) <$> request_boot b) p in
  if is_ok r then (LS_OK, p)
  else
    let '(_, p) := on_boot (ls_update_abort_stage timestamp_ms storage version) p in
    let '(_, p) := blackbox 0x0a04 (Z.lor LS_BLACKBOX_IMPORTANT LS_BLACKBOX_ERROR) [s32 version; result_code r; 0; 0] p in
    (r, p).

Definition mark_staged (version key fingerprint : Z) : st ostate ls_result_t := fun p =>
  let '(_, p) := on_boot (ls_release_mark_pending timestamp_ms storage firmware_version) p in
  let '(_, p) := on_boot (ls_reset_mark_expected timestamp_ms storage true) p in
  let '(_, p) := blackbox 0x0a01 LS_BLACKBOX_IMPORTANT [s32 version; s32 key; s32 fingerprint; 0] p in
  (LS_OK, p).

Definition ls_ota_stage_candidate (backend : option (ls_ota_backend_t X)) (version key : Z)
    (image signature : option (list Z)) : st ostate ls_result_t := fun p =>
  match backend, image, signature with
  | Some b, Some image, Some signature =>
      if negb (backend_valid backend) || no_bytes (Some image) || no_bytes (Some signature) || (key =? 0) ||
         negb (ls_update_version_allowed version (update_of_ota p))
      then (LS_EINVAL, p)
      else
        let digest := sha256 image in
        let fingerprint := digest_fingerprint digest in
        (on_backend ((fun f => f version key digest signature) <$> authenticate b) ;;?
         on_backend ((fun f => f image) <$> stage b) ;;?
         on_boot (ls_update_stage timestamp_ms storage version fingerprint key) ;;?
         request_staged b version ;;?
         mark_staged version key fingerprint) p
  | _, _, _ => (LS_EINVAL, p)
  end.

Definition ls_ota_confirm_running (backend : option (ls_ota_backend_t X)) (version : Z) : st ostate ls_result_t := fun p =>
  match backend with
  | Some b =>
      if negb (backend_valid backend) || (version =? 0) then (LS_EINVAL, p)
      else
        (on_backend ((fun f => f version) <$> confirm b) ;;?
         on_boot (ls_update_confirm_version timestamp_ms storage version) ;;?
         (fun p =>
            let '(_, p) := on_boot (ls_release_confirm timestamp_ms storage) p in
            let '(_, p) := on_boot (ls_reset_mark_expected timestamp_ms storage false) p in
            let '(_, p) := blackbox 0x0a02 LS_BLACKBOX_IMPORTANT [s32 version; 0; 0; 0] p in
            (LS_OK, p))) p
  | None => (LS_EINVAL, p)
  end.

Definition ls_ota_request_rollback (backend : option (ls_ota_backend_t X)) (version : Z) : st ostate ls_result_t := fun p =>
  match backend with
  | Some b =>
      if negb (backend_valid backend) || (version =? 0) then (LS_EINVAL, p)
      else
        (on_backend ((fun f => f version) <$> rollback b) ;;?
         on_boot (ls_update_mark_version_rollback timestamp_ms storage version) ;;?
         (fun p =>
            let '(_, p) := on_boot (ls_release_mark_rollback timestamp_ms storage) p in
            let '(_, p) := on_boot (ls_reset_mark_expected timestamp_ms storage true) p in
            let '(_, p) := blackbox 0x0a03 (Z.lor LS_BLACKBOX_IMPORTANT LS_BLACKBOX_ERROR) [s32 version; 0; 0; 0] p in
            (LS_OK, p))) p
  | None => (LS_EINVAL, p)
  end.
End Ota.

(** ** Outcomes *)

(** The update group with a version pending, after it was aborted, confirmed or
    rolled back. *)
Definition staged (version fingerprint key : Z) (u : update_part) : update_part :=
  {| update_version_floor := update_version_floor u; update_pending_version := version;
     update_image_fingerprint := fingerprint; update_signing_key_id := key;
     update_rollback_count := update_rollback_count u; update_state := LS_UPDATE_PENDING;
     update_reserved := update_reserved u |}.

Definition aborted (u : update_part) : update_part :=
  {| update_version_floor := update_version_floor u; update_pending_version := 0; update_image_fingerprint := 0;
     update_signing_key_id := 0; update_rollback_count := update_rollback_count u;
     update_state := LS_UPDATE_NONE; update_reserved := update_reserved u |}.

(** Version [v] is pending, and its end raises the floor to [f] and sets the state. *)
Definition ended (v f state : Z) (u u' : update_part) : Prop :=
  update_state u = LS_UPDATE_PENDING /\ v = update_pending_version u /\ v <> 0 /\
  update_pending_version u' = 0 /\ update_version_floor u' = f /\ update_state u' = state.

Section OtaOk.
Context {E W X D : Type}.
Context (timestamp_ms : option (st W Z)) (storage : option (ls_storage_backend_t (platform D))).
Context (sha256 : list Z -> list Z) (firmware_version : option (list Z)).
Implicit Types p q : @ostate E W X D.
Local Abbreviation reach := (rtc (boot_step timestamp_ms storage)).
Local Abbreviation x_of p := (backend_state (snd (ram p))).

(** What a callback answers in the backend's state. *)
Definition answer (f : option (st X ls_result_t)) (x : X) : ls_result_t :=
  match f with None => LS_EINVAL | Some f => fst (f x) end.

Lemma on_backend_inv f p r p' : on_backend f p = (r, p') ->
  r = answer f (x_of p) /\ boot_within p' = boot_within p /\
  x_of p' = match f with None => x_of p | Some f => snd (f (x_of p)) end.
Proof.
  unfold on_backend, answer. destruct f as [f|]; [|by intros [= <- <-]]. destruct (f _) as [r0 x0]. by intros [= <- <-].
Qed.

Lemma blackbox_inv a b c p p' : blackbox a b c p = (tt, p') -> boot_within p' = boot_within p /\ x_of p' = x_of p.
Proof. by intros [= <-]. Qed.

Lemma update_within p : update_of_ota p = pb_update (persistent (ram (boot_within p))).
Proof. done. Qed.

(** Bookkeeping after the update group has changed. *)
Definition noted p p' : Prop :=
  reach (boot_within p) (boot_within p') /\ update_of_ota p' = update_of_ota p /\ x_of p' = x_of p.

Lemma noted_trans p q p' : noted p q -> noted q p' -> noted p p'.
Proof. intros (A1 & A2 & A3) (B1 & B2 & B3). split; [by transitivity (boot_within q)|]. split; congruence. Qed.

Lemma on_boot_noted (f : st (@bstate E W D) unit) p p' :
  (forall b b', f b = (tt, b') -> mark_step timestamp_ms storage b b') -> on_boot f p = (tt, p') -> noted p p'.
Proof.
  intros Hf [H Hx]%on_boot_inv. apply Hf in H as [H1 H2]. split; [by apply rtc_once|]. by rewrite !update_within, Hx.
Qed.

Lemma blackbox_noted a b c p p' : blackbox a b c p = (tt, p') -> noted p p'.
Proof. intros [H Hx]%blackbox_inv. unfold noted. rewrite !update_within, H, Hx. split; [reflexivity|done]. Qed.

(** Two marks and an entry of the black box. *)
Lemma notes (f g : st (@bstate E W D) unit) a b c p r p' :
  (forall b b', f b = (tt, b') -> mark_step timestamp_ms storage b b') ->
  (forall b b', g b = (tt, b') -> mark_step timestamp_ms storage b b') ->
  (let '(_, p) := on_boot f p in let '(_, p) := on_boot g p in let '(_, p) := blackbox a b c p in (LS_OK, p)) = (r, p') ->
  r = LS_OK /\ noted p p'.
Proof.
  intros Hf Hg H. destruct (on_boot f p) as [[] p1] eqn:E1. destruct (on_boot g p1) as [[] p2] eqn:E2.
  destruct (blackbox a b c p2) as [[] p3] eqn:E3. injection H as <- <-. split; [done|].
  apply on_boot_noted in E1; [|done]. apply on_boot_noted in E2; [|done]. apply blackbox_noted in E3.
  eauto using noted_trans.
Qed.

Lemma mark_staged_noted v k f p r p' : mark_staged timestamp_ms storage firmware_version v k f p = (r, p') ->
  r = LS_OK /\ noted p p'.
Proof. apply notes; intros; [by eapply mark_pending_step|by eapply mark_expected_step]. Qed.

(** A change of the update group through the boot state. *)
Lemma on_boot_step (f : st (@bstate E W D) ls_result_t) p r p' :
  (forall b r b', f b = (r, b') -> boot_step timestamp_ms storage b b') -> on_boot f p = (r, p') ->
  reach (boot_within p) (boot_within p') /\ x_of p' = x_of p.
Proof. intros Hf [H Hx]%on_boot_inv. apply Hf in H. split; [by apply rtc_once|by rewrite Hx]. Qed.

(** The last thing done was to store the record, with this result. *)
Definition save_returned r p' : Prop := exists b, ls_boot_state_save timestamp_ms storage b = (r, boot_within p').

Lemma stage_update v f k p r p' : on_boot (ls_update_stage timestamp_ms storage v f k) p = (r, p') ->
  reach (boot_within p) (boot_within p') /\ x_of p' = x_of p /\
  (r <> LS_OK /\ update_of_ota p' = update_of_ota p \/
   update_of_ota p' = staged v f k (update_of_ota p) /\ save_returned r p').
Proof.
  intros H. pose proof H as [Hr Hx]%on_boot_step; [|by intros; eapply step_stage]. split; [done|]. split; [done|].
  apply on_boot_inv in H as [H _]. unfold ls_update_stage in H. destruct (_ || _).
  - left. pose proof (f_equal fst H) as H1. pose proof (f_equal snd H) as Hb. cbn [fst snd] in H1, Hb.
    split; [by rewrite <- H1|by rewrite !update_within, Hb].
  - right. split; [apply change_groups in H as [H _]; by rewrite !update_within, H|]. unfold save_returned. eexists. exact H.
Qed.

Lemma abort_update v f k u p r p' : v <> 0 -> update_of_ota p = staged v f k u ->
  on_boot (ls_update_abort_stage timestamp_ms storage v) p = (r, p') ->
  reach (boot_within p) (boot_within p') /\ update_of_ota p' = aborted u.
Proof.
  intros Hv Hu H. pose proof H as [Hr _]%on_boot_step; [|by intros; eapply step_abort]. split; [done|].
  apply on_boot_inv in H as [H _]. unfold ls_update_abort_stage, not_pending in H. rewrite <- update_within, Hu in H.
  cbn [staged update_state update_pending_version] in H. rewrite !Z.eqb_refl, (proj2 (Z.eqb_neq v 0) Hv) in H. cbn [negb orb] in H.
  apply change_groups in H as [H _]. rewrite update_within, H. cbn [with_update pb_update]. rewrite <- update_within, Hu. done.
Qed.

Lemma update_not_pending v p r p' (f : update_part -> update_part) :
  on_boot (fun b => if not_pending v (pb_update (persistent (ram b))) then (LS_EINVAL, b)
                    else change_and_save timestamp_ms storage (with_update f) b) p = (r, p') ->
  (r <> LS_OK /\ update_of_ota p' = update_of_ota p) \/
  (update_state (update_of_ota p) = LS_UPDATE_PENDING /\ v = update_pending_version (update_of_ota p) /\ v <> 0 /\
   update_of_ota p' = f (update_of_ota p)).
Proof.
  intros [H _]%on_boot_inv. destruct (not_pending _ _) eqn:En.
  - left. pose proof (f_equal fst H) as H1. pose proof (f_equal snd H) as Hb. cbn [fst snd] in H1, Hb.
    split; [by rewrite <- H1|by rewrite !update_within, Hb].
  - right. apply pending_inv in En as (E1 & E2 & ->). apply change_groups in H as [H _]. rewrite !update_within, H. done.
Qed.

(** Staging: the candidate was refused, or it is pending, or it was aborted. *)
Definition stage_outcome (version fingerprint key : Z) (u : update_part) (r : ls_result_t) p' : Prop :=
  (r <> LS_OK /\ update_of_ota p' = u) \/
  (update_of_ota p' = staged version fingerprint key u /\ (r = LS_OK \/ save_returned r p')) \/
  (r <> LS_OK /\ update_of_ota p' = aborted u).

Lemma request_outcome b v f k u p r p' : v <> 0 -> update_of_ota p = staged v f k u ->
  request_staged timestamp_ms storage b v p = (r, p') ->
  reach (boot_within p) (boot_within p') /\
  (r = LS_OK /\ update_of_ota p' = staged v f k u \/ r <> LS_OK /\ update_of_ota p' = aborted u).
Proof.
  intros Hv Hu H. unfold request_staged in H. destruct (on_backend _ p) as [r1 p1] eqn:E1.
  apply on_backend_inv in E1 as (_ & Hb & _). destruct (is_ok r1) eqn:Eo.
  - injection H as <- <-. rewrite Hb. split; [reflexivity|]. left. split; [done|]. by rewrite !update_within, Hb in *.
  - destruct (on_boot _ p1) as [r2 p2] eqn:E2. destruct (blackbox _ _ _ p2) as [[] p3] eqn:E3. injection H as <- <-.
    apply (abort_update v f k u) in E2 as [Hr Ha]; [|done|by rewrite !update_within, Hb in *].
    apply blackbox_noted in E3 as (Hr3 & Ha3 & _). rewrite <- Hb. split; [by transitivity (boot_within p2)|].
    right. split; [by apply is_ok_false|congruence].
Qed.

Lemma stage_spec b v k image signature p r p' :
  ls_ota_stage_candidate timestamp_ms storage sha256 firmware_version (Some b) v k (Some image) (Some signature) p = (r, p') ->
  let digest := sha256 image in
  let auth := answer ((fun f => f v k digest signature) <$> authenticate b) (x_of p) in
  reach (boot_within p) (boot_within p') /\
  stage_outcome v (digest_fingerprint digest) k (update_of_ota p) r p' /\
  (update_of_ota p' <> update_of_ota p -> auth = LS_OK /\ ls_update_version_allowed v (update_of_ota p) = true) /\
  (r = LS_OK -> update_of_ota p' = staged v (digest_fingerprint digest) k (update_of_ota p) /\ auth = LS_OK).
Proof.
  intros H digest auth. unfold ls_ota_stage_candidate in H. fold digest in H. set (fp := digest_fingerprint digest) in *.
  destruct (_ || _) eqn:Ec.
  { injection H as <- <-. split; [reflexivity|]. split; [by left|]. split; [|done]. intros Hn. by destruct Hn. }
  assert (ls_update_version_allowed v (update_of_ota p) = true /\ v <> 0) as [Hal Hv].
  { apply orb_false_iff in Ec as [_ Ec]. apply negb_false_iff in Ec. split; [done|].
    unfold ls_update_version_allowed in Ec. by apply andb_true_iff in Ec as [Ec%negb_true_iff%Z.eqb_neq _]. }
  assert (forall q q', boot_within q' = boot_within q -> update_of_ota q' = update_of_ota q) as Hsame
    by (intros q q' Hq; by rewrite !update_within, Hq).
  apply and_then_inv in H as [[H Hr]|(p1 & H1 & H)].
  { apply on_backend_inv in H as (_ & Hb & _). unfold stage_outcome. rewrite Hb, (Hsame _ _ Hb). split; [reflexivity|].
    split; [by left|]. split; [by intros []|done]. }
  apply on_backend_inv in H1 as (Ha & Hb1 & _).
  apply and_then_inv in H as [[H Hr]|(p2 & H2 & H)].
  { apply on_backend_inv in H as (_ & Hb & _). unfold stage_outcome. rewrite Hb, Hb1, (Hsame _ _ Hb), (Hsame _ _ Hb1).
    split; [reflexivity|]. split; [by left|]. split; [by intros []|done]. }
  apply on_backend_inv in H2 as (_ & Hb2 & _). rewrite Hb1 in Hb2. pose proof (Hsame _ _ Hb2) as Hu2.
  apply and_then_inv in H as [[H Hr]|(p3 & H3 & H)].
  { apply stage_update in H as (Hre & _ & Hu). rewrite Hb2, Hu2 in *. split; [done|].
    split; [destruct Hu as [[]|[Hu Hsv]]; [by left|right; left; by split; [|right]]|].
    split; done. }
  apply stage_update in H3 as (Hre3 & _ & [[]|[Hu3 _]]); [done|]. rewrite Hb2, Hu2 in *.
  apply and_then_inv in H as [[H Hr]|(p4 & H4 & H)].
  { apply (request_outcome b v fp k (update_of_ota p)) in H as [Hre [[]|[_ Hu]]]; [done| |done..].
    split; [by transitivity (boot_within p3)|]. split; [right; right; by split|]. split; done. }
  apply (request_outcome b v fp k (update_of_ota p)) in H4 as [Hre4 [[_ Hu4]|[]]]; [|done..].
  apply mark_staged_noted in H as [-> (Hre5 & Hu5 & _)]. unfold stage_outcome. rewrite Hu5, Hu4.
  split; [by transitivity (boot_within p3); [|transitivity (boot_within p4)]|]. split; [right; left; by split; [|left]|]. split; done.
Qed.

(** Confirming and rolling back: ask the backend, change the update group, take notes. *)
Lemma end_spec (ask : option (st X ls_result_t)) v (g : update_part -> update_part) (f1 f2 : st (@bstate E W D) unit) a c d p r p' :
  (forall (b : @bstate E W D) r b', (if not_pending v (pb_update (persistent (ram b))) then (LS_EINVAL, b)
     else change_and_save timestamp_ms storage (with_update g) b) = (r, b') -> boot_step timestamp_ms storage b b') ->
  (forall b b', f1 b = (tt, b') -> mark_step timestamp_ms storage b b') ->
  (forall b b', f2 b = (tt, b') -> mark_step timestamp_ms storage b b') ->
  (on_backend ask ;;?
   on_boot (fun b => if not_pending v (pb_update (persistent (ram b))) then (LS_EINVAL, b)
                     else change_and_save timestamp_ms storage (with_update g) b) ;;?
   (fun p => let '(_, p) := on_boot f1 p in let '(_, p) := on_boot f2 p in let '(_, p) := blackbox a c d p in (LS_OK, p))) p
  = (r, p') ->
  reach (boot_within p) (boot_within p') /\
  (r <> LS_OK /\ update_of_ota p' = update_of_ota p \/
   answer ask (x_of p) = LS_OK /\ update_state (update_of_ota p) = LS_UPDATE_PENDING /\
   v = update_pending_version (update_of_ota p) /\ v <> 0 /\ update_of_ota p' = g (update_of_ota p)).
Proof.
  intros Hstep Hf1 Hf2 H. apply and_then_inv in H as [[H Hr]|(p1 & H1 & H)].
  { apply on_backend_inv in H as (_ & Hb & _). rewrite Hb. split; [reflexivity|]. left. split; [done|]. by rewrite !update_within, Hb. }
  apply on_backend_inv in H1 as (Ha & Hb1 & _).
  assert (update_of_ota p1 = update_of_ota p) as Hu1 by (by rewrite !update_within, Hb1).
  apply and_then_inv in H as [[H Hr]|(p2 & H2 & H)].
  - pose proof H as [Hre _]%on_boot_step; [|done]. rewrite Hb1 in Hre. split; [done|].
    apply update_not_pending in H. rewrite Hu1 in H. destruct H as [H|(K1 & K2 & K3 & K4)]; [by left|]. right. by split_and!.
  - pose proof H2 as [Hre _]%on_boot_step; [|done]. rewrite Hb1 in Hre. apply update_not_pending in H2. rewrite Hu1 in H2.
    apply notes in H as [-> (Hre3 & Hu3 & _)]; [|done..]. rewrite Hu3. split; [by transitivity (boot_within p2)|].
    destruct H2 as [[H2 _]|(K1 & K2 & K3 & K4)]; [done|]. right. by split_and!.
Qed.

Lemma confirm_spec b v p r p' : ls_ota_confirm_running timestamp_ms storage (Some b) v p = (r, p') ->
  reach (boot_within p) (boot_within p') /\
  (r <> LS_OK /\ update_of_ota p' = update_of_ota p \/
   answer ((fun f => f v) <$> confirm b) (x_of p) = LS_OK /\
   ended v (Z.max (update_version_floor (update_of_ota p)) v) LS_UPDATE_CONFIRMED (update_of_ota p) (update_of_ota p')).
Proof.
  intros H. unfold ls_ota_confirm_running in H. destruct (_ || _).
  { injection H as <- <-. split; [reflexivity|by left]. }
  apply end_spec in H as [Hre [Hu|(Ha & K1 & K2 & K3 & ->)]]; try by split; [|left].
  - split; [done|]. right. split; [done|]. unfold ended. split_and!; try done. cbn [update_version_floor]. case_if; blia.
  - intros. by eapply (step_confirm _ _ v).
  - intros. by eapply release_confirm_step.
  - intros. by eapply mark_expected_step.
Qed.

Lemma rollback_spec b v p r p' : ls_ota_request_rollback timestamp_ms storage (Some b) v p = (r, p') ->
  reach (boot_within p) (boot_within p') /\
  (r <> LS_OK /\ update_of_ota p' = update_of_ota p \/
   answer ((fun f => f v) <$> rollback b) (x_of p) = LS_OK /\
   ended v (update_version_floor (update_of_ota p)) LS_UPDATE_ROLLED_BACK (update_of_ota p) (update_of_ota p')).
Proof.
  intros H. unfold ls_ota_request_rollback in H. destruct (_ || _).
  { injection H as <- <-. split; [reflexivity|by left]. }
  apply end_spec in H as [Hre [Hu|(Ha & K1 & K2 & K3 & ->)]]; try by split; [|left].
  - split; [done|]. right. split; [done|]. unfold ended. by split_and!.
  - intros. by eapply (step_rollback _ _ v).
  - intros. by eapply mark_rollback_step.
  - intros. by eapply mark_expected_step.
Qed.
End OtaOk.

(** ** Theorem *)

(** C40: over-the-air updates keep the anti-rollback record in step with the bootloader.
    Every call is a sequence of steps of the update state machine, so the floor never
    falls.  Staging changes the record only for an allowed version whose image the
    backend authenticated, leaves the floor alone, and on failure leaves nothing pending
    unless storing the record failed; the floor rises only when the backend has confirmed
    the pending version, and a rollback leaves it. *)
Theorem ota_updates_guarded {E W X D} (clock : option (st W Z)) (storage : option (ls_storage_backend_t (platform D)))
    (sha256 : list Z -> list Z) firmware (b : ls_ota_backend_t X) v (p p' : @ostate E W X D) r :
  let u := update_of_ota p in
  let u' := update_of_ota p' in
  let x := backend_state (snd (ram p)) in
  let reach := rtc (boot_step clock storage) (boot_within p) (boot_within p') in
  (forall key image signature,
     ls_ota_stage_candidate clock storage sha256 firmware (Some b) v key (Some image) (Some signature) p = (r, p') ->
     reach /\ stage_outcome clock storage v (digest_fingerprint (sha256 image)) key u r p' /\
     (u' <> u -> answer ((fun f => f v key (sha256 image) signature) <$> authenticate b) x = LS_OK /\
        ls_update_version_allowed v u = true) /\
     (r = LS_OK -> u' = staged v (digest_fingerprint (sha256 image)) key u)) /\
  (ls_ota_confirm_running clock storage (Some b) v p = (r, p') ->
     reach /\ (r <> LS_OK /\ u' = u \/
       answer ((fun f => f v) <$> confirm b) x = LS_OK /\
       ended v (Z.max (update_version_floor u) v) LS_UPDATE_CONFIRMED u u')) /\
  (ls_ota_request_rollback clock storage (Some b) v p = (r, p') ->
     reach /\ (r <> LS_OK /\ u' = u \/
       answer ((fun f => f v) <$> rollback b) x = LS_OK /\
       ended v (update_version_floor u) LS_UPDATE_ROLLED_BACK u u')).
Proof.
  intros u u' x reach. split_and!.
  - intros key image signature H. apply stage_spec in H as (H1 & H2 & H3 & H4). split_and!; try done. intros Hr. by apply H4.
  - apply confirm_spec.
  - apply rollback_spec.
Qed.

(** A backend that counts its calls and accepts everything. *)
Definition demo_ota : ls_ota_backend_t Z :=
  let ok : st Z ls_result_t := fun n => (LS_OK, n + 1) in
  {| authenticate := Some (fun _ _ _ _ => ok); stage := Some (fun _ => ok); request_boot := Some (fun _ => ok);
     confirm := Some (fun _ => ok); rollback := Some (fun _ => ok) |}.

Definition demo_ota_state : @ostate (list (list Z)) Z Z unit :=
  {| faults := no_faults;
     dev := ((demo_runtime zero_persistent, {| backend_state := 0; blackbox_calls := [] |}), tt) |}.

Lemma ota_updates_guarded_witness :
  let run := ls_ota_stage_candidate demo_clock None (fun _ => [7; 0; 0; 0]) None (Some demo_ota) 5 1 (Some [1]) (Some [2])
               demo_ota_state in
  fst run = LS_OK /\ update_of_ota (snd run) = staged 5 (digest_fingerprint [7; 0; 0; 0]) 1 (update_of_ota demo_ota_state).
Proof.
  intros run. assert (fst run = LS_OK) as Hok by (vm_compute; reflexivity). split; [exact Hok|].
  destruct (ota_updates_guarded demo_clock None (fun _ => [7; 0; 0; 0]) None demo_ota 5 demo_ota_state (snd run) (fst run)) as [H _].
  destruct (H 1 [1] [2] (surjective_pairing run)) as (_ & _ & _ & Hr). exact (Hr Hok).
Defined.
