(* ===== verification/Blackbox.v ===== *)
(** * The black box ([src/core/blackbox.c])

    A ring of state records in memory that survives a CPU reset: recording, freezing,
    profiles, recovery of the ring after a reset, and reading it back. *)

From S2P Require Import Prelude Util.

Definition LS_BLACKBOX_MAGIC : Z := 0x5842424c.
Definition LS_BLACKBOX_VERSION : Z := 1.
Definition LS_BLACKBOX_CAPACITY : Z := 64.
Definition LS_BLACKBOX_TEST_INITIAL_SEQUENCE : Z := 1.

Definition LS_BLACKBOX_STATE : Z := 1.
Definition LS_BLACKBOX_WATCHDOG : Z := 4.
Definition LS_BLACKBOX_POWER : Z := 5.
Definition LS_BLACKBOX_USER : Z := 10.
Definition LS_BLACKBOX_PROFILE_QUIET : Z := 0.
Definition LS_BLACKBOX_PROFILE_NORMAL : Z := 1.
Definition LS_BLACKBOX_PROFILE_ANOMALY : Z := 2.
Definition LS_BLACKBOX_IMPORTANT_OR_ERROR : Z := 3.

Record ls_blackbox_record_t : Type := {
  bb_timestamp_ms : Z;
  bb_kind : Z;
  bb_source_id : Z;
  bb_flags : Z;
  bb_reserved : Z;
  bb_value : list Z;
}.

Record ls_blackbox_retained_record_t : Type := {
  rr_sequence : Z;
  rr_record : ls_blackbox_record_t;
  rr_crc : Z;
}.

(** A value of the metadata next to its complement. *)
Record metadata : Type := {
  md_value : Z;
  md_inverse : Z;
}.

(** [ls_blackbox_retained_t], and [previous_profile] beside it. *)
Record ls_blackbox_retained_t : Type := {
  bb_magic : Z;
  bb_version : Z;
  next_sequence : metadata;
  total_records : metadata;
  overwritten_records : metadata;
  anomaly_until_ms : metadata;
  frozen : metadata;
  profile : metadata;
  records : list ls_blackbox_retained_record_t;
  previous_profile : Z;
}.

Record ls_blackbox_stats_t : Type := {
  bs_capacity : Z;
  bs_count : Z;
  bs_total_records : Z;
  bs_overwritten_records : Z;
  bs_frozen : bool;
  bs_profile : Z;
  bs_anomaly_until_ms : Z;
}.

(** ** Sequence numbers and checks *)

Definition sequence_is_newer (candidate reference : Z) : bool := 0 <? s32 (candidate - reference).

Fixpoint sequence_before (sequence : Z) (count : nat) : Z :=
  match count with
  | O => sequence
  | S count => sequence_before (if sequence =? 1 then UINT32_MAX else u32 (sequence - 1)) count
  end.

Definition sequence_after (sequence : Z) : Z := if sequence =? UINT32_MAX then 1 else u32 (sequence + 1).

(** The bytes of the structure before its checksum. *)
Definition record_bytes (s : Z) (r : ls_blackbox_record_t) : list Z :=
  le 4 s ++ le 4 (bb_timestamp_ms r) ++ le 2 (bb_kind r) ++ le 2 (bb_source_id r) ++ le 2 (bb_flags r) ++
  le 2 (bb_reserved r) ++ concat (map (le 4) (bb_value r)).

Definition record_crc (r : ls_blackbox_retained_record_t) : Z := ls_crc32 (record_bytes (rr_sequence r) (rr_record r)).

Definition record_valid (r : ls_blackbox_retained_record_t) : bool :=
  negb (rr_sequence r =? 0) && (rr_crc r =? record_crc r).

Definition metadata_store_u32 (v : Z) : metadata := {| md_value := v; md_inverse := u32 (Z.lnot v) |}.
Definition metadata_u32_valid (m : metadata) : bool := md_inverse m =? u32 (Z.lnot (md_value m)).
Definition metadata_store_u8 (v : Z) : metadata := {| md_value := v; md_inverse := u8 (Z.lnot v) |}.
Definition metadata_u8_valid (m : metadata) : bool := md_inverse m =? u8 (Z.lnot (md_value m)).

Definition zero_record : ls_blackbox_retained_record_t :=
  {| rr_sequence := 0;
     rr_record := {| bb_timestamp_ms := 0; bb_kind := 0; bb_source_id := 0; bb_flags := 0; bb_reserved := 0;
                     bb_value := [0; 0; 0; 0] |};
     rr_crc := 0 |}.

Definition blackbox_reset : ls_blackbox_retained_t :=
  {| bb_magic := LS_BLACKBOX_MAGIC; bb_version := LS_BLACKBOX_VERSION;
     next_sequence := metadata_store_u32 LS_BLACKBOX_TEST_INITIAL_SEQUENCE; total_records := metadata_store_u32 0;
     overwritten_records := metadata_store_u32 0; anomaly_until_ms := metadata_store_u32 0;
     frozen := metadata_store_u8 0; profile := metadata_store_u8 LS_BLACKBOX_PROFILE_NORMAL;
     records := replicate (Z.to_nat LS_BLACKBOX_CAPACITY) zero_record;
     previous_profile := LS_BLACKBOX_PROFILE_NORMAL |}.

(** The scan for the newest valid record, and the number of valid records. *)
Definition scan_step (acc : Z * Z) (r : ls_blackbox_retained_record_t) : Z * Z :=
  let '(highest, valid) := acc in
  if negb (record_valid r) then (highest, valid)
  else (if (highest =? 0) || sequence_is_newer (rr_sequence r) highest then rr_sequence r else highest, valid + 1).

Definition scan (b : ls_blackbox_retained_t) : Z * Z := foldl scan_step (0, 0) (records b).

Definition ls_blackbox_init (b : ls_blackbox_retained_t) : ls_blackbox_retained_t :=
  if negb (bb_magic b =? LS_BLACKBOX_MAGIC) || negb (bb_version b =? LS_BLACKBOX_VERSION) then blackbox_reset
  else
    let '(highest, valid) := scan b in
    let next :=
      if negb (metadata_u32_valid (next_sequence b)) || (md_value (next_sequence b) =? 0) then
        metadata_store_u32 (if negb (u32 (highest + 1) =? 0) then u32 (highest + 1) else 1)
      else next_sequence b in
    let total :=
      if negb (metadata_u32_valid (total_records b)) then metadata_store_u32 (if valid <? highest then highest else valid)
      else total_records b in
    let overwritten :=
      if negb (metadata_u32_valid (overwritten_records b)) then
        metadata_store_u32 (if LS_BLACKBOX_CAPACITY <? md_value total then md_value total - LS_BLACKBOX_CAPACITY else 0)
      else overwritten_records b in
    let anomaly := if negb (metadata_u32_valid (anomaly_until_ms b)) then metadata_store_u32 0 else anomaly_until_ms b in
    let frz := if negb (metadata_u8_valid (frozen b)) then metadata_store_u8 0 else frozen b in
    let prof :=
      if negb (metadata_u8_valid (profile b)) || (LS_BLACKBOX_PROFILE_ANOMALY <? md_value (profile b))
      then metadata_store_u8 LS_BLACKBOX_PROFILE_NORMAL else profile b in
    {| bb_magic := bb_magic b; bb_version := bb_version b; next_sequence := next; total_records := total;
       overwritten_records := overwritten; anomaly_until_ms := anomaly; frozen := frz; profile := prof;
       records := records b; previous_profile := md_value prof |}.

(** [if (magic != LS_BLACKBOX_MAGIC) ls_blackbox_init();] *)
Definition ensure_init (b : ls_blackbox_retained_t) : ls_blackbox_retained_t :=
  if negb (bb_magic b =? LS_BLACKBOX_MAGIC) then ls_blackbox_init b else b.

(** ** Recording *)

Definition profile_accepts (r : ls_blackbox_record_t) (b : ls_blackbox_retained_t) : bool :=
  if negb (md_value (profile b) =? LS_BLACKBOX_PROFILE_QUIET) then true
  else negb (Z.land (bb_flags r) LS_BLACKBOX_IMPORTANT_OR_ERROR =? 0) || (bb_kind r =? LS_BLACKBOX_WATCHDOG) ||
       (bb_kind r =? LS_BLACKBOX_POWER).

(** The record with its time, [now] being [ls_runtime.initialized ? ls_uptime_ms() : 0]. *)
Definition stamped (now : Z) (r : ls_blackbox_record_t) : ls_blackbox_record_t :=
  {| bb_timestamp_ms := if bb_timestamp_ms r =? 0 then now else bb_timestamp_ms r; bb_kind := bb_kind r;
     bb_source_id := bb_source_id r; bb_flags := bb_flags r; bb_reserved := bb_reserved r; bb_value := bb_value r |}.

Definition retained_of (sequence : Z) (r : ls_blackbox_record_t) : ls_blackbox_retained_record_t :=
  {| rr_sequence := sequence; rr_record := r; rr_crc := ls_crc32 (record_bytes sequence r) |}.

(** [if (x != UINT32_MAX) x++]. *)
Definition saturate (x : Z) : Z := if negb (x =? UINT32_MAX) then u32 (x + 1) else x.

(** The part of [ls_blackbox_record] that stores the record. *)
Definition store_record (now : Z) (r : ls_blackbox_record_t) (b : ls_blackbox_retained_t) : ls_blackbox_retained_t :=
  let sequence := if md_value (next_sequence b) =? 0 then 1 else md_value (next_sequence b) in
  let slot := u32 (sequence - 1) mod LS_BLACKBOX_CAPACITY in
  let total := saturate (md_value (total_records b)) in
  {| bb_magic := bb_magic b; bb_version := bb_version b;
     next_sequence := metadata_store_u32 (sequence_after sequence);
     total_records := metadata_store_u32 total;
     overwritten_records :=
       if LS_BLACKBOX_CAPACITY <? total then metadata_store_u32 (saturate (md_value (overwritten_records b)))
       else overwritten_records b;
     anomaly_until_ms := anomaly_until_ms b; frozen := frozen b; profile := profile b;
     records := <[Z.to_nat slot := retained_of sequence (stamped now r)]> (records b);
     previous_profile := previous_profile b |}.

(** [ls_blackbox_record] on a non-null record. *)
Definition ls_blackbox_record (now : Z) (r : ls_blackbox_record_t) : st ls_blackbox_retained_t ls_result_t := fun b =>
  if (bb_kind r <? LS_BLACKBOX_STATE) || (LS_BLACKBOX_USER <? bb_kind r) then (LS_EINVAL, b)
  else
    let b := ensure_init b in
    if negb (md_value (frozen b) =? 0) then (LS_EBUSY, b)
    else if negb (profile_accepts r b) then (LS_OK, b)
    else (LS_OK, store_record now r b).

Definition ls_blackbox_record_values (now kind source flags v0 v1 v2 v3 : Z) : st ls_blackbox_retained_t ls_result_t :=
  ls_blackbox_record now
    {| bb_timestamp_ms := now; bb_kind := u16 kind; bb_source_id := source; bb_flags := flags; bb_reserved := 0;
       bb_value := [v0; v1; v2; v3] |}.

(** ** Control *)

Definition set_frozen (v : Z) (b : ls_blackbox_retained_t) : ls_blackbox_retained_t :=
  {| bb_magic := bb_magic b; bb_version := bb_version b; next_sequence := next_sequence b;
     total_records := total_records b; overwritten_records := overwritten_records b;
     anomaly_until_ms := anomaly_until_ms b; frozen := metadata_store_u8 v; profile := profile b;
     records := records b; previous_profile := previous_profile b |}.

Definition set_profile_until (p : Z) (until : metadata) (previous : Z) (b : ls_blackbox_retained_t) : ls_blackbox_retained_t :=
  {| bb_magic := bb_magic b; bb_version := bb_version b; next_sequence := next_sequence b;
     total_records := total_records b; overwritten_records := overwritten_records b;
     anomaly_until_ms := until; frozen := frozen b; profile := metadata_store_u8 p;
     records := records b; previous_profile := previous |}.

Definition ls_blackbox_freeze (b : ls_blackbox_retained_t) : ls_blackbox_retained_t :=
  if bb_magic b =? LS_BLACKBOX_MAGIC then set_frozen 1 b else b.

Definition ls_blackbox_thaw (b : ls_blackbox_retained_t) : ls_blackbox_retained_t := set_frozen 0 (ensure_init b).

Definition ls_blackbox_clear (b : ls_blackbox_retained_t) : ls_blackbox_retained_t := blackbox_reset.

Definition ls_blackbox_set_profile (p : Z) (b : ls_blackbox_retained_t) : ls_blackbox_retained_t :=
  if LS_BLACKBOX_PROFILE_ANOMALY <? p then b
  else
    let b := ensure_init b in
    set_profile_until p (if negb (p =? LS_BLACKBOX_PROFILE_ANOMALY) then metadata_store_u32 0 else anomaly_until_ms b) p b.

Definition ls_blackbox_anomaly_begin (now duration : Z) (b : ls_blackbox_retained_t) : ls_blackbox_retained_t :=
  if duration =? 0 then b
  else
    let b := ensure_init b in
    let previous := if negb (md_value (profile b) =? LS_BLACKBOX_PROFILE_ANOMALY) then md_value (profile b)
                    else previous_profile b in
    set_profile_until LS_BLACKBOX_PROFILE_ANOMALY (metadata_store_u32 (u32 (now + duration))) previous b.

(** [now] is [ls_uptime_ms()]. *)
Definition ls_blackbox_poll (initialized : bool) (now : Z) (b : ls_blackbox_retained_t) : ls_blackbox_retained_t :=
  if negb (bb_magic b =? LS_BLACKBOX_MAGIC) || negb (md_value (profile b) =? LS_BLACKBOX_PROFILE_ANOMALY) ||
     (md_value (anomaly_until_ms b) =? 0) || negb initialized then b
  else if 0 <=? s32 (now - md_value (anomaly_until_ms b)) then
    set_profile_until (u8 (previous_profile b)) (metadata_store_u32 0) (previous_profile b) b
  else b.

(** ** Reading *)

Definition find_sequence (sequence : Z) (b : ls_blackbox_retained_t) : option ls_blackbox_record_t :=
  rr_record <$> find (fun r => record_valid r && (rr_sequence r =? sequence)) (records b).

(** The loop of [ls_blackbox_copy] over sequence numbers, which it leaves at the newest
    after at most [wanted] rounds. *)
Fixpoint copy_loop (fuel : nat) (sequence newest wanted : Z) (b : ls_blackbox_retained_t)
    (out : list ls_blackbox_record_t) : list ls_blackbox_record_t :=
  match fuel with
  | O => out
  | S fuel =>
      if wanted <=? zlen out then out
      else
        let out := match find_sequence sequence b with Some r => out ++ [r] | None => out end in
        if sequence =? newest then out else copy_loop fuel (sequence_after sequence) newest wanted b out
  end.

(** [ls_blackbox_copy] with a non-null [count]; [None] is a null array. *)
Definition ls_blackbox_copy (to : ptr) (capacity : Z) : st ls_blackbox_retained_t (res (list ls_blackbox_record_t)) := fun b =>
  if negb to && negb (capacity =? 0) then (Err LS_EINVAL, b)
  else
    let b := ensure_init b in
    let '(newest, valid) := scan b in
    let wanted := if valid <? capacity then valid else capacity in
    if wanted =? 0 then (Ok [], b)
    else
      let first := sequence_before newest (Z.to_nat (wanted - 1)) in
      (Ok (copy_loop (Z.to_nat wanted) first newest wanted b []), b).

Definition ls_blackbox_get_recent (age : Z) : st ls_blackbox_retained_t (res ls_blackbox_record_t) := fun b =>
  let b := ensure_init b in
  let '(newest, valid) := scan b in
  if (valid <=? age) || (newest =? 0) then (Err LS_EAGAIN, b)
  else
    match find_sequence (sequence_before newest (Z.to_nat age)) b with
    | Some r => (Ok r, b)
    | None => (Err LS_EAGAIN, b)
    end.

Definition ls_blackbox_get_stats : st ls_blackbox_retained_t ls_blackbox_stats_t := fun b =>
  let b := ensure_init b in
  ({| bs_capacity := LS_BLACKBOX_CAPACITY; bs_count := zlen (filter (fun r => record_valid r = true) (records b));
      bs_total_records := md_value (total_records b); bs_overwritten_records := md_value (overwritten_records b);
      bs_frozen := negb (md_value (frozen b) =? 0); bs_profile := md_value (profile b);
      bs_anomaly_until_ms := md_value (anomaly_until_ms b) |}, b).

(** ** The ring and the log of everything recorded *)

Local Abbreviation cap := 64%nat.

(** The slots hold the last records of the log [h], with their numbers, and nothing else
    that is valid. *)
Record ring (h : list ls_blackbox_record_t) (b : ls_blackbox_retained_t) : Prop := {
  ring_magic : bb_magic b = LS_BLACKBOX_MAGIC;
  ring_version : bb_version b = LS_BLACKBOX_VERSION;
  ring_next : next_sequence b = metadata_store_u32 (zlen h + 1);
  ring_length : length (records b) = cap;
  ring_holds i x : h !! i = Some x -> (length h <= i + cap)%nat ->
    records b !! (i mod cap)%nat = Some (retained_of (Z.of_nat i + 1) x);
  ring_only j r : records b !! j = Some r -> record_valid r = true ->
    exists i x, h !! i = Some x /\ (length h <= i + cap)%nat /\ r = retained_of (Z.of_nat i + 1) x /\ j = (i mod cap)%nat;
}.

Lemma retained_valid s x : s <> 0 -> record_valid (retained_of s x) = true.
Proof.
  intros Hs. unfold record_valid, retained_of. cbn [rr_sequence rr_crc]. rewrite (proj2 (Z.eqb_neq s 0) Hs).
  apply Z.eqb_refl.
Qed.

Lemma ring_empty : ring [] blackbox_reset.
Proof.
  split; try done. intros j r Hj Hv. exfalso. cbn [blackbox_reset records] in Hj.
  apply lookup_replicate in Hj as [-> _]. done.
Qed.

(** Two indices of one window in the same slot are equal. *)
Lemma slot_inj (i j n : nat) : (i < n)%nat -> (j < n)%nat -> (n <= i + cap)%nat -> (n <= j + cap)%nat ->
  (i mod cap = j mod cap)%nat -> i = j.
Proof.
  intros. pose proof (Nat.div_mod_eq i cap). pose proof (Nat.div_mod_eq j cap). lia.
Qed.

Lemma ring_store h b now r : ring h b -> zlen h < 2 ^ 32 - 2 -> ring (h ++ [stamped now r]) (store_record now r b).
Proof.
  intros [H1 H2 H3 H4 H5 H6] Hn. pose proof (zlen_nonneg h) as H0. unfold store_record. rewrite H3.
  cbn [metadata_store_u32 md_value]. rewrite (proj2 (Z.eqb_neq (zlen h + 1) 0)) by lia. unfold sequence_after, UINT32_MAX.
  rewrite (proj2 (Z.eqb_neq (zlen h + 1) (2 ^ 32 - 1))) by lia. rewrite u32_id by (unfold is_u32; lia).
  set (slot := Z.to_nat _). assert (slot = (length h mod cap)%nat) as Hslot.
  { unfold slot, zlen, LS_BLACKBOX_CAPACITY. rewrite u32_id by (unfold is_u32, zlen in *; lia).
    replace (Z.of_nat (length h) + 1 - 1) with (Z.of_nat (length h)) by lia. change 64 with (Z.of_nat 64).
    by rewrite <- Nat2Z.inj_mod, Nat2Z.id. }
  assert (length h mod cap < cap)%nat as Hlt by (by apply Nat.mod_upper_bound).
  split; cbn [bb_magic bb_version next_sequence records]; try done.
  - rewrite zlen_app, zlen_cons, zlen_nil. f_equal; lia.
  - by rewrite length_insert.
  - intros i x Hi Hw. rewrite length_app in Hw. cbn [length] in Hw. apply lookup_app_Some in Hi as [Hi|[Hl Hi]].
    + apply lookup_lt_Some in Hi as Hil. rewrite list_lookup_insert_ne; [apply H5; [done|lia]|].
      rewrite Hslot. intros Heq. pose proof (Nat.div_mod_eq i cap). pose proof (Nat.div_mod_eq (length h) cap). lia.
    + assert (i = length h) as -> by (apply lookup_lt_Some in Hi; cbn [length] in Hi; lia).
      rewrite Nat.sub_diag in Hi. injection Hi as <-. rewrite Hslot, list_lookup_insert_eq by lia. done.
  - intros j q Hj Hv. rewrite length_app. cbn [length]. apply list_lookup_insert_Some in Hj as [(-> & <- & _)|(Hne & Hj)].
    + exists (length h), (stamped now r). rewrite lookup_app_r, Nat.sub_diag by done. split_and!; (done || lia).
    + destruct (H6 j q Hj Hv) as (i & x & Hi & Hw & -> & ->). exists i, x. apply lookup_lt_Some in Hi as Hil.
      split_and!; try done; [by apply lookup_app_l_Some|].
      destruct (decide (length h = i + cap)%nat) as [He|]; [|lia]. exfalso. apply Hne. rewrite Hslot, He.
      symmetry. rewrite <- (Nat.Div0.add_mod_idemp_r i cap), Nat.Div0.mod_same, Nat.add_0_r. done.
Qed.

(** ** Scanning *)

Lemma newer_near a c : Z.abs (a - c) < 2 ^ 31 -> sequence_is_newer a c = (c <? a).
Proof.
  intros H. unfold sequence_is_newer, s32. cbv zeta.
  destruct (Z.lt_ge_cases (a - c) 0) as [Hl|Hl].
  - assert (u32 (a - c) = a - c + 2 ^ 32) as ->.
    { unfold u32. rewrite <- (Z.mod_add _ 1) by lia. apply Z.mod_small. lia. }
    rewrite (proj2 (Z.ltb_ge _ (2 ^ 31))) by lia. destruct (c <? a) eqn:E; bool_prop; [lia|]. apply Z.ltb_ge. lia.
  - rewrite u32_id by (unfold is_u32; lia). rewrite (proj2 (Z.ltb_lt _ (2 ^ 31))) by lia.
    destruct (c <? a) eqn:E; bool_prop; [apply Z.ltb_lt|apply Z.ltb_ge]; lia.
Qed.

(** The number of valid records, when they are the first [m]. *)
Lemma scan_count l : forall m acc, (m <= length l)%nat ->
  (forall j r, l !! j = Some r -> record_valid r = (j <? m)%nat) -> snd (foldl scan_step acc l) = snd acc + Z.of_nat m.
Proof.
  induction l as [|r l IH]; intros m [hi v] Hm Hv; [cbn in Hm; assert (m = O) as -> by lia; cbn; lia|]. cbn [foldl].
  pose proof (Hv O r eq_refl) as Hr. destruct m as [|m].
  - rewrite (IH O) by (lia || (intros j q Hj; apply (Hv (S j) q Hj))). unfold scan_step. by rewrite Hr.
  - cbn [length] in Hm. change (0 <? S m)%nat with true in Hr. rewrite (IH m) by (lia || (intros j q Hj; apply (Hv (S j) q Hj))).
    unfold scan_step. rewrite Hr. cbn [negb snd]. lia.
Qed.

(** The newest number, when all valid ones are close together. *)
Lemma scan_newest lo l : forall acc, 0 < lo -> (fst acc = 0 \/ lo <= fst acc < lo + 2 ^ 31) ->
  (forall r, r ∈ l -> record_valid r = true -> lo <= rr_sequence r < lo + 2 ^ 31) ->
  let top := fst (foldl scan_step acc l) in
  fst acc <= top /\ (top = fst acc \/ exists r, r ∈ l /\ record_valid r = true /\ top = rr_sequence r) /\
  forall r, r ∈ l -> record_valid r = true -> rr_sequence r <= top.
Proof.
  induction l as [|r l IH]; intros [hi v] Hlo Hacc Hl; cbn [foldl].
  { cbn [fst] in *. split; [lia|]. split; [by left|]. intros r Hr. by apply elem_of_nil in Hr. }
  destruct (record_valid r) eqn:Er.
  - pose proof (Hl r ltac:(by left) Er) as Hr. set (acc' := scan_step (hi, v) r).
    assert (fst acc' = Z.max hi (rr_sequence r)) as Ha.
    { unfold acc', scan_step. rewrite Er. cbn [negb fst] in *. destruct (hi =? 0) eqn:E0; bool_prop; cbn [orb]; [lia|].
      rewrite newer_near by lia. case_if; blia. }
    cbn [fst] in Hacc. destruct (IH acc' Hlo) as (I1 & I2 & I3); [right; lia|intros; apply Hl; [by right|done]|].
    cbn [fst]. split; [lia|]. split.
    + destruct I2 as [I2|(q & Hq & Hv & I2)]; [|right; exists q; split; [by right|done]].
      destruct (Z.max_spec hi (rr_sequence r)) as [[_ Hm]|[_ Hm]]; [right; exists r; split; [by left|]; split; [done|congruence]|].
      left. congruence.
    + intros q Hq Hv. apply elem_of_cons in Hq as [->|Hq]; [lia|by apply I3].
  - assert (scan_step (hi, v) r = (hi, v)) as -> by (unfold scan_step; by rewrite Er).
    destruct (IH (hi, v) Hlo Hacc) as (I1 & I2 & I3); [intros; apply Hl; [by right|done]|].
    split; [done|]. split; [destruct I2 as [I2|(q & Hq & Hv & I2)]; [by left|right; exists q; split; [by right|done]]|].
    intros q Hq Hv. apply elem_of_cons in Hq as [->|Hq]; [congruence|by apply I3].
Qed.

Section Ring.
Context (h : list ls_blackbox_record_t) (b : ls_blackbox_retained_t).
Hypothesis Hring : ring h b.
Hypothesis Hsize : zlen h < 2 ^ 32 - 1.

(** The slots in use are the first ones. *)
Lemma ring_slots j r : records b !! j = Some r -> record_valid r = (j <? length h `min` cap)%nat.
Proof.
  intros Hj. apply lookup_lt_Some in Hj as Hjl. rewrite (ring_length h b Hring) in Hjl.
  destruct (j <? length h `min` cap)%nat eqn:E; [apply Nat.ltb_lt in E|apply Nat.ltb_ge in E].
  - set (i := (length h - 1 - (length h - 1 - j) mod cap)%nat).
    pose proof (Nat.mod_upper_bound (length h - 1 - j) cap ltac:(done)) as Hm.
    pose proof (Nat.div_mod_eq (length h - 1 - j) cap) as Hd.
    assert (i = j + cap * ((length h - 1 - j) / cap))%nat as Hi by (unfold i; lia).
    assert (i mod cap = j)%nat as Him.
    { rewrite Hi, Nat.mul_comm, Nat.Div0.mod_add. by apply Nat.mod_small. }
    assert (i < length h)%nat as Hil by (unfold i; lia). destruct (lookup_lt_is_Some_2 h i Hil) as [x Hx].
    pose proof (ring_holds h b Hring i x Hx ltac:(unfold i; lia)) as Hr. rewrite Him, Hj in Hr. injection Hr as ->.
    apply retained_valid. lia.
  - destruct (record_valid r) eqn:Ev; [|done]. destruct (ring_only h b Hring j r Hj Ev) as (i & x & Hx & _ & _ & Him).
    apply lookup_lt_Some in Hx. pose proof (Nat.Div0.mod_le i cap). lia.
Qed.

Lemma ring_sequences r : r ∈ records b -> record_valid r = true ->
  Z.max 1 (zlen h - 63) <= rr_sequence r <= zlen h.
Proof.
  intros [j Hj]%list_elem_of_lookup Hv. destruct (ring_only h b Hring j r Hj Hv) as (i & x & Hx & Hw & -> & _).
  apply lookup_lt_Some in Hx. cbn [retained_of rr_sequence]. unfold zlen. lia.
Qed.

Lemma ring_scan : scan b = (zlen h, Z.of_nat (length h `min` cap)).
Proof.
  unfold scan. rewrite (surjective_pairing (foldl _ _ _)). f_equal.
  - destruct (scan_newest (Z.max 1 (zlen h - 63)) (records b) (0, 0)) as (T1 & T2 & T3); [lia|by left| |].
    { intros r Hr Hv. pose proof (ring_sequences r Hr Hv). lia. }
    cbn [fst] in *. destruct (decide (length h = O)) as [E0|E0].
    + destruct T2 as [->|(r & Hr & Hv & ->)]; [unfold zlen; lia|]. pose proof (ring_sequences r Hr Hv). unfold zlen in *. lia.
    + destruct (lookup_lt_is_Some_2 h (length h - 1)%nat ltac:(lia)) as [x Hx].
      pose proof (ring_holds h b Hring _ x Hx ltac:(lia)) as Hr. apply list_elem_of_lookup_2 in Hr.
      pose proof (T3 _ Hr ltac:(apply retained_valid; lia)) as Hle. cbn [retained_of rr_sequence] in Hle.
      destruct T2 as [T2|(r & Hr' & Hv' & T2)]; [unfold zlen; lia|]. pose proof (ring_sequences r Hr' Hv'). unfold zlen in *. lia.
  - rewrite (scan_count (records b) (length h `min` cap)); [cbn [snd]; lia|rewrite (ring_length h b Hring); lia|].
    apply ring_slots.
Qed.

Lemma ring_find i x : h !! i = Some x -> (length h <= i + cap)%nat -> find_sequence (Z.of_nat i + 1) b = Some x.
Proof.
  intros Hx Hw. unfold find_sequence. set (f := fun r => _). pose proof (ring_holds h b Hring i x Hx Hw) as Hr.
  apply list_elem_of_lookup_2, list_elem_of_In in Hr.
  assert (f (retained_of (Z.of_nat i + 1) x) = true) as Hf.
  { unfold f. rewrite retained_valid by lia. apply Z.eqb_refl. }
  destruct (find f (records b)) as [r|] eqn:Ef; [|by rewrite (find_none _ _ Ef _ Hr) in Hf].
  apply find_some in Ef as [Hin Hfr]. unfold f in Hfr. apply andb_true_iff in Hfr as [Hv Hs%Z.eqb_eq].
  apply list_elem_of_In, list_elem_of_lookup in Hin as [j Hj]. destruct (ring_only h b Hring j r Hj Hv) as (i' & x' & Hx' & _ & -> & _).
  cbn [retained_of rr_sequence] in Hs. assert (i' = i) as -> by lia. cbn. congruence.
Qed.

(** The loop of the copy reads the log from its position on. *)
Lemma ring_copy_loop fuel : forall i out wanted, (i + fuel = length h)%nat -> (0 < fuel)%nat -> (length h <= i + cap)%nat ->
  zlen out + Z.of_nat fuel = wanted ->
  copy_loop fuel (Z.of_nat i + 1) (zlen h) wanted b out = out ++ drop i h.
Proof.
  induction fuel as [|fuel IH]; intros i out wanted Hi Hf Hw Ho; [lia|]. cbn [copy_loop].
  rewrite (proj2 (Z.leb_gt _ _)) by lia. destruct (lookup_lt_is_Some_2 h i ltac:(lia)) as [x Hx].
  rewrite (ring_find i x Hx Hw), (drop_S h x i Hx). unfold zlen at 1. destruct (_ =? _) eqn:E; bool_prop.
  - assert (fuel = O) as -> by lia. by rewrite drop_ge by lia.
  - replace (sequence_after (Z.of_nat i + 1)) with (Z.of_nat (S i) + 1).
    2: { unfold sequence_after, UINT32_MAX, zlen in *. rewrite (proj2 (Z.eqb_neq _ (2 ^ 32 - 1))) by lia. rewrite u32_id by (unfold is_u32; lia). lia. }
    rewrite (IH (S i) (out ++ [x]) wanted); [by rewrite <- app_assoc|lia..|].
    rewrite zlen_app, zlen_cons, zlen_nil. lia.
Qed.

Lemma sequence_before_sub k : forall s, Z.of_nat k < s <= UINT32_MAX -> sequence_before s k = s - Z.of_nat k.
Proof.
  induction k as [|k IH]; intros s Hs; cbn [sequence_before]; [lia|]. unfold UINT32_MAX in *.
  rewrite (proj2 (Z.eqb_neq s 1)) by lia. rewrite u32_id by (unfold is_u32; lia). rewrite IH; lia.
Qed.

Lemma ring_ensure : ensure_init b = b.
Proof. unfold ensure_init. by rewrite (ring_magic h b Hring), Z.eqb_refl. Qed.

(** Reading yields the end of the log. *)
Lemma ring_copy capacity : 0 <= capacity ->
  ls_blackbox_copy SET capacity b = (Ok (drop (length h - Z.to_nat capacity `min` cap)%nat h), b).
Proof.
  intros Hc. unfold ls_blackbox_copy. cbn [negb SET andb]. rewrite ring_ensure, ring_scan.
  set (wanted := if Z.of_nat (length h `min` cap) <? capacity then _ else _).
  assert (wanted = Z.of_nat (length h `min` (Z.to_nat capacity `min` cap))) as Hw.
  { unfold wanted. case_if; blia. }
  destruct (wanted =? 0) eqn:E0; bool_prop; [by rewrite drop_ge by lia|]. f_equal. f_equal.
  rewrite sequence_before_sub by (unfold zlen, UINT32_MAX in *; lia).
  set (i := (length h - Z.to_nat capacity `min` cap)%nat).
  replace (zlen h - Z.of_nat (Z.to_nat (wanted - 1))) with (Z.of_nat i + 1) by (unfold i, zlen; lia).
  rewrite (ring_copy_loop _ i); [done|unfold i; lia|lia|unfold i; lia|]. rewrite zlen_nil. lia.
Qed.

Lemma ring_recent age : 0 <= age ->
  ls_blackbox_get_recent age b =
  (if age <? Z.of_nat (length h `min` cap) then match reverse h !! Z.to_nat age with Some x => Ok x | None => Err LS_EAGAIN end
   else Err LS_EAGAIN, b).
Proof.
  intros Ha. unfold ls_blackbox_get_recent. rewrite ring_ensure, ring_scan. destruct (age <? _) eqn:E; bool_prop.
  - rewrite (proj2 (Z.leb_gt _ age)), (proj2 (Z.eqb_neq (zlen h) 0)) by (unfold zlen; lia). cbn [orb].
    rewrite sequence_before_sub by (unfold zlen, UINT32_MAX in *; lia).
    destruct (lookup_lt_is_Some_2 h (length h - S (Z.to_nat age))%nat ltac:(lia)) as [x Hx].
    rewrite reverse_lookup by lia. rewrite Hx.
    replace (zlen h - Z.of_nat (Z.to_nat age)) with (Z.of_nat (length h - S (Z.to_nat age)) + 1) by (unfold zlen; lia).
    rewrite (ring_find _ x Hx) by lia. done.
  - by rewrite (proj2 (Z.leb_le _ age)) by lia.
Qed.
End Ring.

(** ** The recorder over its life *)

(** What a record adds to the log. *)
Definition recorded (now : Z) (r : ls_blackbox_record_t) (b : ls_blackbox_retained_t) : list ls_blackbox_record_t :=
  if (LS_BLACKBOX_STATE <=? bb_kind r) && (bb_kind r <=? LS_BLACKBOX_USER) && (md_value (frozen b) =? 0) && profile_accepts r b
  then [stamped now r] else [].

Inductive control (b : ls_blackbox_retained_t) : ls_blackbox_retained_t -> Prop :=
| control_freeze : control b (ls_blackbox_freeze b)
| control_thaw : control b (ls_blackbox_thaw b)
| control_profile p : control b (ls_blackbox_set_profile p b)
| control_anomaly now d : control b (ls_blackbox_anomaly_begin now d b)
| control_poll i now : control b (ls_blackbox_poll i now b).

(** A CPU reset keeps the records; of the metadata anything may be lost, but a lost next
    sequence number no longer matches its complement. *)
Definition survived (b b' : ls_blackbox_retained_t) : Prop :=
  bb_magic b' = bb_magic b /\ bb_version b' = bb_version b /\ records b' = records b /\
  (next_sequence b' = next_sequence b \/ metadata_u32_valid (next_sequence b') = false).

(** The states in which everything recorded so far is [h]. *)
Inductive bb_run : list ls_blackbox_record_t -> ls_blackbox_retained_t -> Prop :=
| run_first b : negb (bb_magic b =? LS_BLACKBOX_MAGIC) || negb (bb_version b =? LS_BLACKBOX_VERSION) = true ->
    bb_run [] (ls_blackbox_init b)
| run_clear h b : bb_run h b -> bb_run [] (ls_blackbox_clear b)
| run_record h b now r res b' : bb_run h b -> zlen h < 2 ^ 32 - 2 -> ls_blackbox_record now r b = (res, b') ->
    bb_run (h ++ recorded now r b) b'
| run_control h b b' : bb_run h b -> control b b' -> bb_run h b'
| run_reset h b b' : bb_run h b -> survived b b' -> bb_run h (ls_blackbox_init b').

(** The ring depends on four members only. *)
Lemma ring_same h b b' : ring h b -> bb_magic b' = bb_magic b -> bb_version b' = bb_version b -> records b' = records b ->
  next_sequence b' = next_sequence b -> ring h b'.
Proof. intros [H1 H2 H3 H4 H5 H6] E1 E2 E3 E4. split; rewrite ?E1, ?E2, ?E3, ?E4; done. Qed.

Lemma control_ring h b b' : ring h b -> control b b' -> ring h b'.
Proof.
  intros Hr Hc. pose proof (ring_ensure h b Hr) as He.
  destruct Hc; unfold ls_blackbox_freeze, ls_blackbox_thaw, ls_blackbox_set_profile, ls_blackbox_anomaly_begin,
    ls_blackbox_poll; rewrite ?He; repeat case_if; by eapply ring_same.
Qed.

Lemma survived_ring h b b' : ring h b -> zlen h < 2 ^ 32 - 1 -> survived b b' -> ring h (ls_blackbox_init b').
Proof.
  intros Hr Hz (E1 & E2 & E3 & E4). pose proof (ring_scan h b Hr) as Hs. pose proof Hr as [H1 H2 H3 H4 H5 H6].
  unfold ls_blackbox_init. rewrite E1, E2, H1, H2, !Z.eqb_refl. cbn [negb orb].
  assert (scan b' = scan b) as -> by (unfold scan; by rewrite E3). rewrite Hs. pose proof (zlen_nonneg h).
  eapply (ring_same h b); cbn [bb_magic bb_version records next_sequence]; try done; [congruence..|].
  assert ((md_value (next_sequence b) =? 0) = false) as Hn0 by (rewrite H3; cbn [metadata_store_u32 md_value]; apply Z.eqb_neq; lia).
  destruct E4 as [E4|E4]; rewrite E4; cbn [negb orb].
  - rewrite Hn0. replace (metadata_u32_valid (next_sequence b)) with true; [done|].
    rewrite H3. symmetry. apply Z.eqb_refl.
  - rewrite H3, u32_id by (unfold is_u32; lia). by rewrite (proj2 (Z.eqb_neq (zlen h + 1) 0)) by lia.
Qed.

Lemma record_ring h b now r res b' : ring h b -> zlen h < 2 ^ 32 - 2 -> ls_blackbox_record now r b = (res, b') ->
  ring (h ++ recorded now r b) b'.
Proof.
  intros Hr Hz H. unfold ls_blackbox_record in H. unfold recorded. rewrite (ring_ensure h b Hr) in H.
  destruct ((bb_kind r <? _) || _) eqn:Ek in H; bool_prop.
  - injection H as <- <-. replace ((LS_BLACKBOX_STATE <=? _) && _) with false; [by rewrite app_nil_r|].
    symmetry. apply andb_false_iff. destruct Ek as [Ek|Ek]; [left; by apply Z.leb_gt, Z.ltb_lt|right; by apply Z.leb_gt, Z.ltb_lt].
  - rewrite (proj2 (Z.leb_le _ (bb_kind r))), (proj2 (Z.leb_le (bb_kind r) _)) by lia. cbn [andb].
    destruct (md_value (frozen b) =? 0); cbn [negb] in H; [|injection H as <- <-; by rewrite app_nil_r].
    destruct (profile_accepts r b); cbn [negb] in H; injection H as <- <-; [by apply ring_store|by rewrite app_nil_r].
Qed.

Lemma run_ring h b : bb_run h b -> ring h b /\ zlen h < 2 ^ 32 - 1.
Proof.
  induction 1 as [b Hb|h b _ _|h b now r res b' _ [Hr _] Hz H|h b b' _ [Hr Hz] Hc|h b b' _ [Hr Hz] Hs].
  - unfold ls_blackbox_init. rewrite Hb. split; [apply ring_empty|done].
  - split; [apply ring_empty|done].
  - split; [by eapply record_ring|]. rewrite zlen_app. unfold recorded. case_if; autorewrite with latch_len; lia.
  - split; [by eapply control_ring|done].
  - split; [by eapply survived_ring|done].
Qed.

(** C8: the black box keeps the latest records as long as its sequence numbers do not wrap.
    Over any sequence of records, changes of profile, freezes and CPU resets in which
    metadata may be damaged, from a power-on or a clear to at most 2^32 - 2 stored records,
    reading returns, in order, the last records of everything that was recorded, as many
    as fit the ring and the caller's array, and the record of a given age is the one of
    that age in the log.  After a wrap of the sequence this does not hold for a while:
    [wrap_hides_one]. *)
Theorem blackbox_keeps_latest h b capacity age : bb_run h b -> 0 <= capacity -> 0 <= age ->
  ls_blackbox_copy SET capacity b =
    (Ok (drop (length h - Z.to_nat (Z.min capacity LS_BLACKBOX_CAPACITY)) h), b) /\
  ls_blackbox_get_recent age b =
    (match reverse h !! Z.to_nat age with
     | Some x => if age <? LS_BLACKBOX_CAPACITY then Ok x else Err LS_EAGAIN
     | None => Err LS_EAGAIN
     end, b).
Proof.
  intros [Hr Hz]%run_ring Hc Ha. split.
  - rewrite (ring_copy h b Hr Hz) by done. do 3 f_equal. unfold LS_BLACKBOX_CAPACITY. lia.
  - rewrite (ring_recent h b Hr Hz) by done. f_equal. unfold LS_BLACKBOX_CAPACITY.
    destruct (reverse h !! Z.to_nat age) as [x|] eqn:Ex; [|by destruct (_ <? _)].
    apply lookup_lt_Some in Ex. rewrite length_reverse in Ex.
    destruct (age <? 64) eqn:E1, (age <? Z.of_nat (length h `min` cap)) eqn:E2; bool_prop; (done || lia).
Qed.

(** Garbage at power-on, two records, a reset that damages all metadata. *)
Definition demo_garbage : ls_blackbox_retained_t :=
  {| bb_magic := 7; bb_version := 0; next_sequence := metadata_store_u32 5; total_records := metadata_store_u32 5;
     overwritten_records := metadata_store_u32 5; anomaly_until_ms := metadata_store_u32 5; frozen := metadata_store_u8 1;
     profile := metadata_store_u8 0; records := []; previous_profile := 0 |}.

Definition demo_record (v : Z) : ls_blackbox_record_t :=
  {| bb_timestamp_ms := 0; bb_kind := 1; bb_source_id := 0; bb_flags := 0; bb_reserved := 0; bb_value := [v; 0; 0; 0] |}.

Definition demo_damaged (b : ls_blackbox_retained_t) : ls_blackbox_retained_t :=
  let bad := {| md_value := 1; md_inverse := 1 |} in
  {| bb_magic := bb_magic b; bb_version := bb_version b; next_sequence := bad; total_records := bad;
     overwritten_records := bad; anomaly_until_ms := bad; frozen := bad; profile := bad; records := records b;
     previous_profile := 0 |}.

Lemma blackbox_keeps_latest_witness :
  let b0 := ls_blackbox_init demo_garbage in
  let b1 := snd (ls_blackbox_record 3 (demo_record 1) b0) in
  let b2 := snd (ls_blackbox_record 4 (demo_record 2) b1) in
  let b3 := ls_blackbox_init (demo_damaged b2) in
  fst (ls_blackbox_copy SET 10 b3) = Ok [stamped 3 (demo_record 1); stamped 4 (demo_record 2)].
Proof.
  intros b0 b1 b2 b3.
  assert (bb_run [stamped 3 (demo_record 1); stamped 4 (demo_record 2)] b3) as Hrun.
  { apply (run_reset _ b2); [|repeat split; right; reflexivity].
    apply (run_record [stamped 3 (demo_record 1)] b1 4 (demo_record 2) LS_OK b2); [|reflexivity|reflexivity].
    apply (run_record [] b0 3 (demo_record 1) LS_OK b1); [|reflexivity|reflexivity].
    apply run_first. reflexivity. }
  destruct (blackbox_keeps_latest _ b3 10 0 Hrun) as [H _]; [discriminate|discriminate|]. rewrite H. reflexivity.
Defined.

(** *** The wrap of the sequence

    Sequence 1 follows 2^32 - 1. The slot of a sequence is its distance from 1 modulo 64,
    and 2^32 - 1 is one short of a multiple of 64, so after the wrap one slot is left out:
    for 63 records the ring holds 64 records of which reading returns 63. *)

(** A recorder whose next sequence number is [q]. *)
Definition demo_before_wrap (q : Z) : ls_blackbox_retained_t :=
  let b := ls_blackbox_init demo_garbage in
  {| bb_magic := bb_magic b; bb_version := bb_version b; next_sequence := metadata_store_u32 q;
     total_records := total_records b; overwritten_records := overwritten_records b;
     anomaly_until_ms := anomaly_until_ms b; frozen := frozen b; profile := profile b; records := records b;
     previous_profile := previous_profile b |}.

(** [n] records one after the other. *)
Definition demo_records (n : nat) (b : ls_blackbox_retained_t) : ls_blackbox_retained_t :=
  foldl (fun b i => snd (ls_blackbox_record (Z.of_nat i) (demo_record (Z.of_nat i)) b)) b (List.seq 0 n).

(** The length of what reading returns, and the count in the statistics. *)
Definition demo_reads (b : ls_blackbox_retained_t) : option Z * Z :=
  (match fst (ls_blackbox_copy SET 64 b) with Ok l => Some (zlen l) | Err _ => None end,
   bs_count (fst (ls_blackbox_get_stats b))).

Lemma wrap_hides_one :
  map (fun n => demo_reads (demo_records n (demo_before_wrap (2 ^ 32 - 64)))) [64; 65; 127; 128]%nat =
    [(Some 64, 64); (Some 63, 64); (Some 63, 64); (Some 64, 64)].
Proof. vm_compute. reflexivity. Qed.
