(* ===== verification/Telemetry.v ===== *)
(** * Breadcrumbs, metrics, health, power, memory regions ([src/metrics/], [src/core/health.c],
    [src/core/memory.c])

    The bounded tables an event carries, with the operations that fill them. Calls of the
    black box act on its model; an error handed to the capture path is recorded. *)

From S2P Require Import Prelude Util Blackbox.

Definition LS_BREADCRUMB_CAPACITY : Z := 32.
Definition LS_BREADCRUMB_CATEGORY_MAX : Z := 16.
Definition LS_BREADCRUMB_MESSAGE_MAX : Z := 48.
Definition LS_BREADCRUMB_KV_MAX : Z := 4.
Definition LS_METRIC_CAPACITY : Z := 16.
Definition LS_METRIC_NAME_MAX : Z := 32.
Definition LS_METRIC_WINDOW_SIZE : Z := 8.
Definition LS_POWER_SAMPLE_CAPACITY : Z := 16.
Definition LS_HEALTH_CAPACITY : Z := 16.
Definition LS_MAX_DUMP_REGIONS : Z := 8.
Definition LS_MAX_REDACTIONS : Z := 8.
Definition LS_COMPILED_MIN_LEVEL : Z := 0.
Definition LS_SEVERITY_INFO : Z := 1.
Definition LS_SEVERITY_ERROR : Z := 3.
Definition LS_BREADCRUMB_DROP_OLDEST : Z := 0.
Definition LS_BREADCRUMB_DROP_NEWEST : Z := 1.
Definition LS_BREADCRUMB_KEEP_ERRORS : Z := 2.

(** The string a [char[size]] holds after [ls_copy_string]. *)
Definition copied (size : Z) (src : option (list Z)) : list Z :=
  match ls_copy_string SET size src with Some s => take (length s - 1) s | None => [] end.

(** ** Rings

    A fixed array with the next slot and the number of used slots, as breadcrumbs and
    power samples are kept. *)
Record ring (A : Type) : Type := mk_ring { r_slots : list A; r_next : Z; r_count : Z }.
Arguments mk_ring {A} _ _ _.
Arguments r_slots {A} _.
Arguments r_next {A} _.
Arguments r_count {A} _.

Definition ring_push {A} (cap : Z) (x : A) (r : ring A) : ring A :=
  mk_ring (<[Z.to_nat (r_next r) := x]> (r_slots r)) ((r_next r + 1) mod cap)
    (if r_count r <? cap then r_count r + 1 else r_count r).

(** The slot of the [count]-th element, oldest first. *)
Definition ring_index {A} (cap : Z) (r : ring A) (count : Z) : Z := (r_next r + cap - r_count r + count) mod cap.

(** The elements, oldest first, as the encoder visits them. *)
Definition ring_list {A} (cap : Z) (d : A) (r : ring A) : list A :=
  map (fun i => nth (Z.to_nat (ring_index cap r (Z.of_nat i))) (r_slots r) d)
      (List.seq 0 (Z.to_nat (r_count r))).

(** ** Records *)

Record ls_breadcrumb_kv_t : Type := { kv_key_id : Z; kv_type : Z; kv_u32 : Z }.

Record ls_breadcrumb_t : Type := {
  b_category : option (list Z);
  b_level : Z;
  b_message_id : Z;
  b_message : option (list Z);
  b_values : option (list ls_breadcrumb_kv_t);
  b_value_count : Z
}.

Record ls_breadcrumb_record_t : Type := {
  br_at_ms : Z;
  br_message_id : Z;
  br_severity : Z;
  br_value_count : Z;
  br_category_hash : Z;
  br_message_hash : Z;
  br_category : list Z;
  br_message : list Z;
  br_values : list ls_breadcrumb_kv_t
}.

Record ls_metric_record_t : Type := mk_metric {
  m_name_hash : Z;
  m_name : list Z;
  m_value : Z;
  m_previous : Z;
  m_minimum : Z;
  m_maximum : Z;
  m_sum : Z;
  m_count : Z;
  m_window : list Z;
  m_window_next : Z;
  m_window_count : Z;
  m_type : Z
}.

Record ls_power_sample_t : Type := {
  pw_timestamp_ms : Z;
  pw_vdd_mv : Z;
  pw_battery_mv : Z;
  pw_current_ma : Z;
  pw_temperature_c : Z;
  pw_charger_status : Z;
  pw_power_flags : Z
}.

Record ls_health_record_t : Type := mk_health {
  h_name : list Z;
  h_deadline_ms : Z;
  h_last_touch_ms : Z;
  h_misses : Z;
  h_max_lateness_ms : Z;
  h_expired : bool
}.

Record ls_heap_stats_t : Type := mk_heap {
  hs_free_bytes : Z;
  hs_minimum_free_bytes : Z;
  hs_largest_block : Z;
  hs_allocation_failures : Z;
  hs_pool_exhaustions : Z
}.

Record ls_dump_region_t : Type := {
  dr_name : option (list Z);
  dr_address : Z;
  dr_length : Z;
  dr_flags : Z
}.

Inductive ls_redaction_mode_t : Type := LS_REDACT_ZERO | LS_REDACT_HASH | LS_REDACT_EXCLUDE.

Record ls_redaction_t : Type := { rd_address : Z; rd_length : Z; rd_mode : ls_redaction_mode_t }.

(** An error handed to [ls_capture_error]. *)
Record ls_error_t : Type := { er_domain : list Z; er_code : Z; er_severity : Z; er_message : option (list Z) }.

(** The fields of [ls_runtime] the functions below use. [breadcrumbs] and [power] are
    the whole arrays; the tables of metrics, health, regions and redactions are their
    used prefixes. *)
Record telemetry : Type := mk_telemetry {
  t_initialized : bool;
  t_breadcrumbs : ring ls_breadcrumb_record_t;
  t_breadcrumb_min_level : Z;
  t_breadcrumb_policy : Z;
  t_metrics : list ls_metric_record_t;
  t_power : ring ls_power_sample_t;
  t_health : list ls_health_record_t;
  t_active_task : list Z;
  t_watchdog_last_feed : Z;
  t_watchdog_checkpoint : Z;
  t_dump_regions : list ls_dump_region_t;
  t_redactions : list ls_redaction_t;
  t_stack : option (Z * Z);
  t_heap_stats : ls_heap_stats_t;
  t_blackbox : ls_blackbox_retained_t;
  t_captured : list ls_error_t
}.

Definition set_breadcrumbs (v : ring ls_breadcrumb_record_t) (t : telemetry) : telemetry :=
  mk_telemetry (t_initialized t) v (t_breadcrumb_min_level t) (t_breadcrumb_policy t) (t_metrics t) (t_power t)
    (t_health t) (t_active_task t) (t_watchdog_last_feed t) (t_watchdog_checkpoint t) (t_dump_regions t)
    (t_redactions t) (t_stack t) (t_heap_stats t) (t_blackbox t) (t_captured t).
Definition set_breadcrumb_rules (level policy : Z) (t : telemetry) : telemetry :=
  mk_telemetry (t_initialized t) (t_breadcrumbs t) level policy (t_metrics t) (t_power t)
    (t_health t) (t_active_task t) (t_watchdog_last_feed t) (t_watchdog_checkpoint t) (t_dump_regions t)
    (t_redactions t) (t_stack t) (t_heap_stats t) (t_blackbox t) (t_captured t).
Definition set_metrics (v : list ls_metric_record_t) (t : telemetry) : telemetry :=
  mk_telemetry (t_initialized t) (t_breadcrumbs t) (t_breadcrumb_min_level t) (t_breadcrumb_policy t) v (t_power t)
    (t_health t) (t_active_task t) (t_watchdog_last_feed t) (t_watchdog_checkpoint t) (t_dump_regions t)
    (t_redactions t) (t_stack t) (t_heap_stats t) (t_blackbox t) (t_captured t).
Definition set_power (v : ring ls_power_sample_t) (t : telemetry) : telemetry :=
  mk_telemetry (t_initialized t) (t_breadcrumbs t) (t_breadcrumb_min_level t) (t_breadcrumb_policy t) (t_metrics t) v
    (t_health t) (t_active_task t) (t_watchdog_last_feed t) (t_watchdog_checkpoint t) (t_dump_regions t)
    (t_redactions t) (t_stack t) (t_heap_stats t) (t_blackbox t) (t_captured t).
Definition set_health (v : list ls_health_record_t) (t : telemetry) : telemetry :=
  mk_telemetry (t_initialized t) (t_breadcrumbs t) (t_breadcrumb_min_level t) (t_breadcrumb_policy t) (t_metrics t)
    (t_power t) v (t_active_task t) (t_watchdog_last_feed t) (t_watchdog_checkpoint t) (t_dump_regions t)
    (t_redactions t) (t_stack t) (t_heap_stats t) (t_blackbox t) (t_captured t).
Definition set_watchdog (task : list Z) (feed checkpoint : Z) (t : telemetry) : telemetry :=
  mk_telemetry (t_initialized t) (t_breadcrumbs t) (t_breadcrumb_min_level t) (t_breadcrumb_policy t) (t_metrics t)
    (t_power t) (t_health t) task feed checkpoint (t_dump_regions t)
    (t_redactions t) (t_stack t) (t_heap_stats t) (t_blackbox t) (t_captured t).
Definition set_memory (regions : list ls_dump_region_t) (redactions : list ls_redaction_t) (stack : option (Z * Z))
    (heap : ls_heap_stats_t) (t : telemetry) : telemetry :=
  mk_telemetry (t_initialized t) (t_breadcrumbs t) (t_breadcrumb_min_level t) (t_breadcrumb_policy t) (t_metrics t)
    (t_power t) (t_health t) (t_active_task t) (t_watchdog_last_feed t) (t_watchdog_checkpoint t) regions
    redactions stack heap (t_blackbox t) (t_captured t).
Definition set_effects (bb : ls_blackbox_retained_t) (captured : list ls_error_t) (t : telemetry) : telemetry :=
  mk_telemetry (t_initialized t) (t_breadcrumbs t) (t_breadcrumb_min_level t) (t_breadcrumb_policy t) (t_metrics t)
    (t_power t) (t_health t) (t_active_task t) (t_watchdog_last_feed t) (t_watchdog_checkpoint t) (t_dump_regions t)
    (t_redactions t) (t_stack t) (t_heap_stats t) bb captured.

(** [(void)ls_blackbox_record_values(...)]. *)
Definition blackbox_note (now kind source flags v0 v1 v2 v3 : Z) (t : telemetry) : telemetry :=
  set_effects (snd (ls_blackbox_record_values now kind source flags v0 v1 v2 v3 (t_blackbox t))) (t_captured t) t.

Definition ls_capture_error (e : ls_error_t) (t : telemetry) : telemetry :=
  set_effects (t_blackbox t) (t_captured t ++ [e]) t.

(** In the operations, [now] is what [ls_uptime_ms()] returns. *)

(** ** Breadcrumbs *)

Definition breadcrumb_record (now : Z) (event : ls_breadcrumb_t) : ls_breadcrumb_record_t :=
  let value_count := if b_value_count event >? LS_BREADCRUMB_KV_MAX then LS_BREADCRUMB_KV_MAX else b_value_count event in
  {| br_at_ms := now;
     br_message_id := b_message_id event;
     br_severity := u8 (b_level event);
     br_value_count := value_count;
     br_category_hash := ls_hash_string (b_category event);
     br_message_hash := if negb (b_message_id event =? 0) then b_message_id event else ls_hash_string (b_message event);
     br_category := copied LS_BREADCRUMB_CATEGORY_MAX (b_category event);
     br_message := copied LS_BREADCRUMB_MESSAGE_MAX (b_message event);
     br_values := match b_values event with
                  | Some l => take (Z.to_nat value_count) l
                  | None => replicate (Z.to_nat value_count) {| kv_key_id := 0; kv_type := 0; kv_u32 := 0 |}
                  end |}.

(** The event is below the level, or the ring is full and the policy drops it. *)
Definition breadcrumb_dropped (event : ls_breadcrumb_t) (t : telemetry) : bool :=
  negb (t_initialized t) || (b_level event <? LS_COMPILED_MIN_LEVEL) || (b_level event <? t_breadcrumb_min_level t) ||
  ((r_count (t_breadcrumbs t) =? LS_BREADCRUMB_CAPACITY) && (t_breadcrumb_policy t =? LS_BREADCRUMB_DROP_NEWEST)) ||
  ((r_count (t_breadcrumbs t) =? LS_BREADCRUMB_CAPACITY) && (t_breadcrumb_policy t =? LS_BREADCRUMB_KEEP_ERRORS) &&
   (b_level event <? LS_SEVERITY_ERROR)).

Definition ls_breadcrumb_event (now : Z) (event : option ls_breadcrumb_t) (t : telemetry) : telemetry :=
  match event with
  | None => t
  | Some e =>
      if breadcrumb_dropped e t then t
      else set_breadcrumbs (ring_push LS_BREADCRUMB_CAPACITY (breadcrumb_record now e) (t_breadcrumbs t)) t
  end.

Definition ls_breadcrumb (now : Z) (message : option (list Z)) (t : telemetry) : telemetry :=
  ls_breadcrumb_event now (Some {| b_category := None; b_level := LS_SEVERITY_INFO; b_message_id := 0;
    b_message := message; b_values := None; b_value_count := 0 |}) t.

Definition ls_breadcrumb_set_min_level (level : Z) (t : telemetry) : telemetry :=
  set_breadcrumb_rules level (t_breadcrumb_policy t) t.
Definition ls_breadcrumb_set_policy (policy : Z) (t : telemetry) : telemetry :=
  set_breadcrumb_rules (t_breadcrumb_min_level t) policy t.

(** ** Metrics *)

Definition LS_METRIC_I32 : Z := 1.
Definition LS_METRIC_U32 : Z := 2.
Definition LS_METRIC_BOOL : Z := 3.
Definition LS_METRIC_COUNTER : Z := 4.

(** The index of the metric of a name: the first with its hash. *)
Fixpoint find_hash (hash : Z) (l : list ls_metric_record_t) (i : nat) : option nat :=
  match l with
  | [] => None
  | m :: l => if m_name_hash m =? hash then Some i else find_hash hash l (S i)
  end.

Definition find_metric (name : option (list Z)) (l : list ls_metric_record_t) : option nat :=
  find_hash (ls_hash_string name) l 0.

Definition fresh_metric (name : list Z) (value : Z) : ls_metric_record_t :=
  mk_metric (ls_hash_string (Some name)) (copied LS_METRIC_NAME_MAX (Some name)) 0 0 value value 0 0
    (replicate (Z.to_nat LS_METRIC_WINDOW_SIZE) 0) 0 0 0.

(** The assignments of [set_metric] to the record. *)
Definition metric_update (value type_ : Z) (m : ls_metric_record_t) : ls_metric_record_t :=
  mk_metric (m_name_hash m) (m_name m) value (m_value m)
    (if (m_count m =? 0) || (value <? m_minimum m) then value else m_minimum m)
    (if (m_count m =? 0) || (value >? m_maximum m) then value else m_maximum m)
    (m_sum m + value) (u32 (m_count m + 1))
    (<[Z.to_nat (m_window_next m) := value]> (m_window m))
    ((m_window_next m + 1) mod LS_METRIC_WINDOW_SIZE)
    (if m_window_count m <? LS_METRIC_WINDOW_SIZE then m_window_count m + 1 else m_window_count m)
    type_.

Definition set_metric (name : option (list Z)) (value type_ : Z) (t : telemetry) : telemetry :=
  match name with
  | None => t
  | Some n =>
      match find_metric name (t_metrics t) with
      | Some i => set_metrics (alter (metric_update value type_) i (t_metrics t)) t
      | None =>
          if zlen (t_metrics t) <? LS_METRIC_CAPACITY
          then set_metrics (t_metrics t ++ [metric_update value type_ (fresh_metric n value)]) t
          else t
      end
  end.

Definition ls_metric_i32 (name : option (list Z)) (value : Z) : telemetry -> telemetry := set_metric name value LS_METRIC_I32.
Definition ls_metric_u32 (name : option (list Z)) (value : Z) : telemetry -> telemetry := set_metric name (s32 value) LS_METRIC_U32.
Definition ls_metric_bool (name : option (list Z)) (value : bool) : telemetry -> telemetry :=
  set_metric name (if value then 1 else 0) LS_METRIC_BOOL.

Definition metric_at (l : list ls_metric_record_t) (i : option nat) : option ls_metric_record_t :=
  match i with Some i => l !! i | None => None end.

(** The sum of two [int32_t], which overflows where the wrap-around is taken here. *)
Definition ls_metric_increment (name : option (list Z)) (amount : Z) (t : telemetry) : telemetry :=
  let value := match metric_at (t_metrics t) (find_metric name (t_metrics t)) with Some m => m_value m | None => 0 end in
  set_metric name (s32 (value + s32 amount)) LS_METRIC_COUNTER t.

Record ls_metric_snapshot_t : Type := {
  ms_name : list Z;
  ms_name_hash : Z;
  ms_type : Z;
  ms_current : Z;
  ms_previous : Z;
  ms_minimum : Z;
  ms_maximum : Z;
  ms_average : Z;
  ms_sum : Z;
  ms_count : Z
}.

(** C's [/] truncates. *)
Definition ls_metric_get (name : option (list Z)) (snapshot : ptr) (t : telemetry) : res ls_metric_snapshot_t :=
  match name with
  | None => Err LS_EINVAL
  | Some _ =>
      if negb snapshot then Err LS_EINVAL
      else match metric_at (t_metrics t) (find_metric name (t_metrics t)) with
      | None => Err LS_EINVAL
      | Some m =>
          let window_sum := foldl Z.add 0 (take (Z.to_nat (m_window_count m)) (m_window m)) in
          Ok {| ms_name := copied LS_METRIC_NAME_MAX (Some (m_name m)); ms_name_hash := m_name_hash m; ms_type := m_type m;
                ms_current := m_value m; ms_previous := m_previous m; ms_minimum := m_minimum m; ms_maximum := m_maximum m;
                ms_average := if negb (m_window_count m =? 0) then Z.quot window_sum (m_window_count m) else 0;
                ms_sum := m_sum m; ms_count := m_count m |}
      end
  end.

Definition clear_window (m : ls_metric_record_t) : ls_metric_record_t :=
  mk_metric (m_name_hash m) (m_name m) (m_value m) (m_previous m) (m_minimum m) (m_maximum m) (m_sum m) (m_count m)
    (m_window m) 0 0 (m_type m).

Definition ls_metrics_reset_window (name : option (list Z)) (t : telemetry) : telemetry :=
  match find_metric name (t_metrics t) with
  | Some i => set_metrics (alter clear_window i (t_metrics t)) t
  | None => t
  end.

(** ** Health deadlines and the watchdog *)

Fixpoint find_health (hash : Z) (l : list ls_health_record_t) (i : nat) : option nat :=
  match l with
  | [] => None
  | h :: l => if hash =? ls_hash_string (Some (h_name h)) then Some i else find_health hash l (S i)
  end.

Definition ls_health_register (now : Z) (name : option (list Z)) (deadline_ms : Z) (t : telemetry) : telemetry :=
  match name with
  | None => t
  | Some _ =>
      if deadline_ms =? 0 then t
      else match find_health (ls_hash_string name) (t_health t) 0 with
      | Some i =>
          set_health (alter (fun h => mk_health (h_name h) deadline_ms (h_last_touch_ms h) (h_misses h)
                                        (h_max_lateness_ms h) (h_expired h)) i (t_health t)) t
      | None =>
          if zlen (t_health t) <? LS_HEALTH_CAPACITY
          then set_health (t_health t ++ [mk_health (copied LS_BREADCRUMB_CATEGORY_MAX name) deadline_ms now 0 0 false]) t
          else t
      end
  end.

Definition touch (now : Z) (h : ls_health_record_t) : ls_health_record_t :=
  mk_health (h_name h) (h_deadline_ms h) now (h_misses h) (h_max_lateness_ms h) false.

Definition ls_health_touch (now : Z) (name : option (list Z)) (t : telemetry) : telemetry :=
  match find_health (ls_hash_string name) (t_health t) 0 with
  | Some i => set_health (alter (touch now) i (t_health t)) t
  | None => t
  end.

Definition ls_health_get (name : option (list Z)) (health : ptr) (t : telemetry) : res ls_health_record_t :=
  match name with
  | None => Err LS_EINVAL
  | Some _ =>
      if negb health then Err LS_EINVAL
      else match find_health (ls_hash_string name) (t_health t) 0 with
      | Some i => match t_health t !! i with Some h => Ok h | None => Err LS_EAGAIN end
      | None => Err LS_EAGAIN
      end
  end.

Definition ls_health_snapshot (health : ptr) (capacity : Z) (t : telemetry) : list ls_health_record_t :=
  if negb health || (capacity =? 0) then [] else take (Z.to_nat capacity) (t_health t).

(** The record of one component in [ls_health_poll], and whether it expired now. *)
Definition poll_record (now : Z) (h : ls_health_record_t) : ls_health_record_t * bool :=
  let age := u32 (now - h_last_touch_ms h) in
  if age >? h_deadline_ms h then
    let lateness := age - h_deadline_ms h in
    let worst := if lateness >? h_max_lateness_ms h then lateness else h_max_lateness_ms h in
    if negb (h_expired h)
    then (mk_health (h_name h) (h_deadline_ms h) (h_last_touch_ms h)
            (if negb (h_misses h =? UINT32_MAX) then h_misses h + 1 else h_misses h) worst true, true)
    else (mk_health (h_name h) (h_deadline_ms h) (h_last_touch_ms h) (h_misses h) worst true, false)
  else (h, false).

Definition BLACKBOX_ERROR_FLAG : Z := 2.

(** The loop of [ls_health_poll] from index [i] on. *)
Fixpoint poll_loop (now : Z) (l : list ls_health_record_t) (i : Z) (t : telemetry) : list ls_health_record_t * bool * telemetry :=
  match l with
  | [] => ([], false, t)
  | h :: l =>
      let '(h', expired) := poll_record now h in
      let t :=
        if expired then
          ls_capture_error {| er_domain := str "health"; er_code := s32 (ls_hash_string (Some (h_name h')));
                              er_severity := LS_SEVERITY_ERROR; er_message := Some (h_name h') |}
            (blackbox_note now LS_BLACKBOX_WATCHDOG (u16 i) BLACKBOX_ERROR_FLAG (s32 (h_deadline_ms h'))
               (s32 (u32 (now - h_last_touch_ms h'))) (s32 (h_misses h')) 0 t)
        else t in
      let '(l', any, t) := poll_loop now l (i + 1) t in
      (h' :: l', expired || any, t)
  end.

Definition ls_health_poll (now : Z) : st telemetry ls_result_t := fun t =>
  let '(l, any, t) := poll_loop now (t_health t) 0 t in
  ((if any then LS_EAGAIN else LS_OK), set_health l t).

Definition ls_health_set_active_task (name : option (list Z)) (t : telemetry) : telemetry :=
  set_watchdog (copied LS_BREADCRUMB_CATEGORY_MAX name) (t_watchdog_last_feed t) (t_watchdog_checkpoint t) t.

Definition ls_watchdog_fed (now : Z) (t : telemetry) : telemetry :=
  let t := set_watchdog (t_active_task t) now (t_watchdog_checkpoint t) t in
  blackbox_note now LS_BLACKBOX_WATCHDOG (t_watchdog_checkpoint t) 0 (s32 now) 1 0 0 t.

Definition ls_watchdog_last_feed_ms (t : telemetry) : Z := t_watchdog_last_feed t.
Definition ls_watchdog_last_checkpoint (t : telemetry) : Z := t_watchdog_checkpoint t.

Definition ls_watchdog_checkpoint (now checkpoint_id : Z) (t : telemetry) : telemetry :=
  let t := set_watchdog (t_active_task t) (t_watchdog_last_feed t) checkpoint_id t in
  blackbox_note now LS_BLACKBOX_WATCHDOG checkpoint_id 0 0 0 0 0 t.

(** ** Power samples *)

Definition ls_power_sample (now : Z) (sample : option ls_power_sample_t) (t : telemetry) : telemetry :=
  match sample with
  | None => t
  | Some v =>
      let v := {| pw_timestamp_ms := if pw_timestamp_ms v =? 0 then now else pw_timestamp_ms v;
                  pw_vdd_mv := pw_vdd_mv v; pw_battery_mv := pw_battery_mv v; pw_current_ma := pw_current_ma v;
                  pw_temperature_c := pw_temperature_c v; pw_charger_status := pw_charger_status v;
                  pw_power_flags := pw_power_flags v |} in
      let t := set_power (ring_push LS_POWER_SAMPLE_CAPACITY v (t_power t)) t in
      let t := ls_metric_u32 (Some (str "vdd_mv")) (pw_vdd_mv v) t in
      let t := ls_metric_u32 (Some (str "battery_mv")) (pw_battery_mv v) t in
      let t := ls_metric_i32 (Some (str "current_ma")) (pw_current_ma v) t in
      let t := ls_metric_i32 (Some (str "temperature_c")) (pw_temperature_c v) t in
      blackbox_note now LS_BLACKBOX_POWER 0 0 (pw_vdd_mv v) (pw_battery_mv v) (pw_current_ma v) (pw_temperature_c v) t
  end.

Definition ls_power_sample_count (t : telemetry) : Z := r_count (t_power t).

Definition zero_sample : ls_power_sample_t :=
  {| pw_timestamp_ms := 0; pw_vdd_mv := 0; pw_battery_mv := 0; pw_current_ma := 0; pw_temperature_c := 0;
     pw_charger_status := 0; pw_power_flags := 0 |}.

Definition power_list (t : telemetry) : list ls_power_sample_t := ring_list LS_POWER_SAMPLE_CAPACITY zero_sample (t_power t).

Record ls_power_summary_t : Type := {
  su_sample_count : Z;
  su_last : ls_power_sample_t;
  su_minimum_vdd_mv : Z;
  su_minimum_battery_mv : Z;
  su_maximum_temperature_c : Z;
  su_maximum_current_ma : Z
}.

(** One pass of the loop; [first] is [!count]. *)
Definition summary_step (acc : ls_power_summary_t * bool) (s : ls_power_sample_t) : ls_power_summary_t * bool :=
  let '(u, first) := acc in
  ({| su_sample_count := su_sample_count u; su_last := s;
      su_minimum_vdd_mv := if pw_vdd_mv s <? su_minimum_vdd_mv u then pw_vdd_mv s else su_minimum_vdd_mv u;
      su_minimum_battery_mv := if pw_battery_mv s <? su_minimum_battery_mv u then pw_battery_mv s else su_minimum_battery_mv u;
      su_maximum_temperature_c :=
        if first || (pw_temperature_c s >? su_maximum_temperature_c u) then pw_temperature_c s else su_maximum_temperature_c u;
      su_maximum_current_ma :=
        if first || (pw_current_ma s >? su_maximum_current_ma u) then pw_current_ma s else su_maximum_current_ma u |}, false).

Definition ls_power_get_summary (summary : ptr) (t : telemetry) : res ls_power_summary_t :=
  if negb summary then Err LS_EINVAL
  else if r_count (t_power t) =? 0 then Err LS_EAGAIN
  else
    let start := {| su_sample_count := r_count (t_power t); su_last := zero_sample; su_minimum_vdd_mv := UINT16_MAX;
                    su_minimum_battery_mv := UINT16_MAX; su_maximum_temperature_c := 0; su_maximum_current_ma := 0 |} in
    Ok (fst (foldl summary_step (start, true) (power_list t))).

(** The loop of [ls_power_brownout_suspected], newest sample first. *)
Fixpoint brownout_loop (now threshold within : Z) (l : list ls_power_sample_t) : bool :=
  match l with
  | [] => false
  | s :: l =>
      if negb (within =? 0) && (u32 (now - pw_timestamp_ms s) >? within) then false
      else if negb (pw_vdd_mv s =? 0) && (pw_vdd_mv s <? threshold) then true
      else brownout_loop now threshold within l
  end.

Definition ls_power_brownout_suspected (now threshold_mv within_ms : Z) (t : telemetry) : bool :=
  if (threshold_mv =? 0) || (r_count (t_power t) =? 0) then false
  else brownout_loop now threshold_mv within_ms (rev (power_list t)).

(** ** Memory regions *)

Definition LS_DUMP_SAFE : Z := 1.

Definition ls_dump_region_register (name : option (list Z)) (address length_ flags_ : Z) : st telemetry ls_result_t := fun t =>
  match name with
  | None => (LS_EINVAL, t)
  | Some _ =>
      if (address =? 0) || (length_ =? 0) || (Z.land flags_ LS_DUMP_SAFE =? 0) ||
         (LS_MAX_DUMP_REGIONS <=? zlen (t_dump_regions t))
      then (LS_EINVAL, t)
      else (LS_OK, set_memory (t_dump_regions t ++
              [{| dr_name := name; dr_address := address; dr_length := length_; dr_flags := flags_ |}])
              (t_redactions t) (t_stack t) (t_heap_stats t) t)
  end.

Definition ls_memory_redact (address length_ : Z) (mode : ls_redaction_mode_t) : st telemetry ls_result_t := fun t =>
  if (address =? 0) || (length_ =? 0) || (LS_MAX_REDACTIONS <=? zlen (t_redactions t)) then (LS_EINVAL, t)
  else (LS_OK, set_memory (t_dump_regions t)
          (t_redactions t ++ [{| rd_address := address; rd_length := length_; rd_mode := mode |}])
          (t_stack t) (t_heap_stats t) t).

Definition ls_memory_exclude (address length_ : Z) (t : telemetry) : telemetry :=
  snd (ls_memory_redact address length_ LS_REDACT_EXCLUDE t).

(** The first redaction that overlaps the range; [uintptr_t] arithmetic wraps at the
    pointer width. *)
Fixpoint redaction_search (start stop : Z) (l : list ls_redaction_t) : option ls_redaction_mode_t :=
  match l with
  | [] => None
  | r :: l =>
      if (start <? u32 (rd_address r + rd_length r)) && (rd_address r <? stop) then Some (rd_mode r)
      else redaction_search start stop l
  end.

Definition ls_redaction_for (address length_ : Z) (t : telemetry) : option ls_redaction_mode_t :=
  redaction_search address (u32 (address + length_)) (t_redactions t).

Definition ls_stack_bounds_set (lower upper : Z) : st telemetry ls_result_t := fun t =>
  if (lower =? 0) || (upper =? 0) || (upper <=? lower) then (LS_EINVAL, t)
  else (LS_OK, set_memory (t_dump_regions t) (t_redactions t) (Some (lower, upper)) (t_heap_stats t) t).

Definition ls_memory_allocation_failed (size : Z) (t : telemetry) : telemetry :=
  let h := t_heap_stats t in
  ls_capture_error {| er_domain := str "memory"; er_code := s32 size; er_severity := LS_SEVERITY_ERROR;
                      er_message := Some (str "allocation_failed") |}
    (set_memory (t_dump_regions t) (t_redactions t) (t_stack t)
       (mk_heap (hs_free_bytes h) (hs_minimum_free_bytes h) (hs_largest_block h)
          (inc32 (hs_allocation_failures h)) (hs_pool_exhaustions h)) t).

Definition ls_pool_exhausted (pool : option (list Z)) (t : telemetry) : telemetry :=
  let h := t_heap_stats t in
  ls_capture_error {| er_domain := str "memory"; er_code := 0; er_severity := LS_SEVERITY_ERROR; er_message := pool |}
    (set_memory (t_dump_regions t) (t_redactions t) (t_stack t)
       (mk_heap (hs_free_bytes h) (hs_minimum_free_bytes h) (hs_largest_block h)
          (hs_allocation_failures h) (inc32 (hs_pool_exhaustions h))) t).

Definition ls_heap_stats_update (stats : option ls_heap_stats_t) (t : telemetry) : telemetry :=
  match stats with
  | Some h => set_memory (t_dump_regions t) (t_redactions t) (t_stack t) h t
  | None => t
  end.

Definition ls_heap_stats_get (t : telemetry) : ls_heap_stats_t := t_heap_stats t.

(** ** Rings keep the latest elements in order *)

Section Ring.
Context {A : Type} (cap : Z) (cap_pos : 0 < cap) (d : A).
Implicit Types (h : list A) (r : ring A).

(** [r] holds the last elements of the history [h]. *)
Record ring_of (h : list A) (r : ring A) : Prop := {
  ro_slots : zlen (r_slots r) = cap;
  ro_next : r_next r = zlen h mod cap;
  ro_count : r_count r = Z.min (zlen h) cap;
  ro_latest : forall i, zlen h - cap <= i < zlen h -> 0 <= i ->
    r_slots r !! Z.to_nat (i mod cap) = h !! Z.to_nat i
}.

Lemma window_empty slots : zlen slots = cap -> ring_of [] (mk_ring slots 0 0).
Proof using cap_pos.
  intros Hs. split; cbn [r_slots r_next r_count]; [done|by rewrite Z.mod_0_l by lia|change (zlen []) with 0; lia|].
  intros i. change (zlen []) with 0. lia.
Qed.

Lemma mod_window i j : 0 <= j - i < cap -> i mod cap = j mod cap -> i = j.
Proof using cap_pos.
  intros Hd Hm. pose proof (Z.div_mod i cap ltac:(lia)). pose proof (Z.div_mod j cap ltac:(lia)).
  assert (cap * (j / cap - i / cap) = j - i) by nia.
  assert (j / cap - i / cap = 0) by nia. nia.
Qed.

Lemma ring_push_of h r x : ring_of h r -> ring_of (h ++ [x]) (ring_push cap x r).
Proof using cap_pos.
  intros [Hs Hn Hc Hl]. pose proof (zlen_nonneg h). pose proof (Z.mod_pos_bound (zlen h) cap cap_pos).
  split; cbn [ring_push r_slots r_next r_count].
  - unfold zlen in *. by rewrite length_insert.
  - rewrite Hn, Z.add_mod_idemp_l by lia. rewrite zlen_app. done.
  - rewrite Hc, zlen_app. change (zlen [x]) with 1. case_if; bool_prop; lia.
  - intros i. rewrite zlen_app. change (zlen [x]) with 1. intros Hi Hi0. rewrite Hn.
    pose proof (Z.mod_pos_bound i cap cap_pos).
    destruct (decide (i = zlen h)) as [->|Hne].
    + rewrite list_lookup_insert_eq by (unfold zlen in *; lia).
      rewrite lookup_app_r by (unfold zlen; lia). unfold zlen. by rewrite Nat2Z.id, Nat.sub_diag.
    + rewrite list_lookup_insert_ne.
      * rewrite Hl by lia. symmetry. apply lookup_app_l. unfold zlen in *. lia.
      * intros E. apply Z2Nat.inj in E; [|lia..]. apply Hne, mod_window; lia.
Qed.

Lemma ring_list_latest h r : ring_of h r ->
  ring_list cap d r = drop (length h - Z.to_nat cap) h.
Proof using cap_pos.
  intros [Hs Hn Hc Hl]. pose proof (zlen_nonneg h). unfold ring_list. apply list_eq. intros i.
  rewrite lookup_drop, list_lookup_fmap.
  destruct (Nat.lt_ge_cases i (Z.to_nat (r_count r))) as [Hi|Hi].
  - rewrite lookup_seq_lt by done. cbn. unfold ring_index.
    assert ((r_next r + cap - r_count r + Z.of_nat i) mod cap = (zlen h - r_count r + Z.of_nat i) mod cap) as ->.
    { rewrite Hn. replace (zlen h mod cap + cap - r_count r + Z.of_nat i)
        with (zlen h mod cap + (- r_count r + Z.of_nat i) + 1 * cap) by lia.
      rewrite Z.mod_add, Z.add_mod_idemp_l by lia. f_equal. lia. }
    set (j := zlen h - r_count r + Z.of_nat i).
    assert (h !! Z.to_nat j = h !! (length h - Z.to_nat cap + i)%nat) as Ej by (f_equal; unfold j, zlen in *; lia).
    rewrite <- Ej. pose proof (Hl j ltac:(lia) ltac:(lia)) as Hj. rewrite <- Hj.
    destruct (lookup_lt_is_Some_2 h (Z.to_nat j)) as [x Ex]; [unfold j, zlen in *; lia|].
    rewrite Ex in Hj. rewrite Hj. by rewrite (nth_lookup_Some _ _ _ _ Hj).
  - rewrite lookup_seq_ge by done. cbn. symmetry. apply lookup_ge_None_2. unfold zlen in *. lia.
Qed.
End Ring.

(** The breadcrumbs accepted by a sequence of calls, in order. *)
Fixpoint breadcrumbs_accepted (calls : list (Z * ls_breadcrumb_t)) (t : telemetry) : list ls_breadcrumb_record_t :=
  match calls with
  | [] => []
  | (now, e) :: calls =>
      (if breadcrumb_dropped e t then [] else [breadcrumb_record now e]) ++
      breadcrumbs_accepted calls (ls_breadcrumb_event now (Some e) t)
  end.

Definition run_breadcrumbs (calls : list (Z * ls_breadcrumb_t)) (t : telemetry) : telemetry :=
  foldl (fun t c => ls_breadcrumb_event (fst c) (Some (snd c)) t) t calls.

Lemma breadcrumbs_run calls h t : ring_of LS_BREADCRUMB_CAPACITY h (t_breadcrumbs t) ->
  ring_of LS_BREADCRUMB_CAPACITY (h ++ breadcrumbs_accepted calls t) (t_breadcrumbs (run_breadcrumbs calls t)).
Proof.
  revert h t. induction calls as [|[now e] calls IH]; intros h t Hr; cbn [breadcrumbs_accepted].
  - by rewrite app_nil_r.
  - change (run_breadcrumbs ((now, e) :: calls) t) with (run_breadcrumbs calls (ls_breadcrumb_event now (Some e) t)).
    rewrite app_assoc. apply IH. cbn [ls_breadcrumb_event]. case_if; [by rewrite app_nil_r|].
    by apply ring_push_of.
Qed.
