(* ===== verification/Anomaly.v ===== *)
(** * Environment anomalies ([src/capture/anomaly.c])

    Checks of supply and temperature against fixed limits. A value outside them leaves a
    breadcrumb. [enabled] is the switch [LS_ENABLE_ANOMALY] of the build. *)

From S2P Require Import Prelude Util Telemetry.

Definition ANOMALY_BATTERY_MV_MIN : Z := 2800.
Definition ANOMALY_BATTERY_MV_MAX : Z := 4200.
Definition ANOMALY_TEMP_C_MIN : Z := -20.
Definition ANOMALY_TEMP_C_MAX : Z := 85.
Definition ANOMALY_VOLTAGE_UV_MIN : Z := 1800000.
Definition ANOMALY_VOLTAGE_UV_MAX : Z := 3600000.
Definition ANOMALY_CURRENT_MA_MAX : Z := 500.

(** The format [%d] of [printf]. *)
Definition signed_decimal (v : Z) : list Z := if v <? 0 then str "-" ++ decimal (- v) else decimal v.

(** [snprintf] into the 64 bytes of [msg]. *)
Definition anomaly_message (text : list Z) : list Z := take 63 text.

(** [anomaly_enabled] and what the breadcrumbs are kept in. *)
Definition anomaly_state : Type := bool * telemetry.

Definition anomaly_init (enabled : bool) (s : anomaly_state) : anomaly_state := (enabled, snd s).
Definition anomaly_set_enabled (b : bool) (s : anomaly_state) : anomaly_state := (b, snd s).
Definition anomaly_is_enabled (s : anomaly_state) : bool := fst s.
Definition anomaly_get_envelope_flag (enabled : bool) : Z := if enabled then 0x2000 else 0.

(** The end of every check: [now] is the time of the breadcrumb. *)
Definition anomaly_found (now : Z) (outside : bool) (text : list Z) : st anomaly_state bool := fun s =>
  if negb (anomaly_is_enabled s) then (false, s)
  else if outside then (true, (fst s, ls_breadcrumb now (Some (anomaly_message text)) (snd s)))
  else (false, s).

Definition anomaly_check_battery (now voltage_mv : Z) : st anomaly_state bool :=
  anomaly_found now ((voltage_mv <? ANOMALY_BATTERY_MV_MIN) || (ANOMALY_BATTERY_MV_MAX <? voltage_mv))
    (str "ANOMALY:BATTERY:" ++ decimal voltage_mv).
Definition anomaly_check_temperature (now temp_c : Z) : st anomaly_state bool :=
  anomaly_found now ((temp_c <? ANOMALY_TEMP_C_MIN) || (ANOMALY_TEMP_C_MAX <? temp_c)) (str "ANOMALY:TEMP:" ++ signed_decimal temp_c).
Definition anomaly_check_voltage (now voltage_uv : Z) : st anomaly_state bool :=
  anomaly_found now ((voltage_uv <? ANOMALY_VOLTAGE_UV_MIN) || (ANOMALY_VOLTAGE_UV_MAX <? voltage_uv))
    (str "ANOMALY:VOLTAGE:" ++ decimal voltage_uv).
Definition anomaly_check_current (now current_ma : Z) : st anomaly_state bool :=
  anomaly_found now (ANOMALY_CURRENT_MA_MAX <? current_ma) (str "ANOMALY:CURRENT:" ++ decimal current_ma).

(** ** A report names the value *)

Lemma length_decimal v : (length (decimal v) <= 10)%nat.
Proof.
  unfold decimal. generalize 10%nat as n. intros n. revert v. induction n as [|n IH]; intros v; [done|].
  cbn [decimal_digits]. rewrite length_app. specialize (IH (v / 10)). destruct (v <? 10); simpl in *; lia.
Qed.

(** The digits of a 32-bit value read back as the value. *)
Definition decimal_value (digits : list Z) : Z := foldl (fun v d => v * 10 + (d - 48)) 0 digits.

Lemma decimal_digits_value n v : 0 <= v < 10 ^ Z.of_nat n -> decimal_value (decimal_digits n v) = v.
Proof.
  revert v. induction n as [|n IH]; intros v Hv; [change (10 ^ Z.of_nat 0) with 1 in Hv; cbn; lia|].
  rewrite Nat2Z.inj_succ, Z.pow_succ_r in Hv by lia. cbn [decimal_digits].
  pose proof (Z.div_mod v 10 ltac:(lia)) as Hd. pose proof (Z.mod_pos_bound v 10 ltac:(lia)) as Hm.
  unfold decimal_value in *. rewrite foldl_app. cbn [foldl]. destruct (Z.ltb_spec v 10).
  - cbn [foldl]. rewrite Z.mod_small by lia. lia.
  - rewrite IH; [lia|]. split; [apply Z.div_pos; lia|]. apply Z.div_lt_upper_bound; lia.
Qed.

Lemma decimal_reads_back v : is_u32 v -> decimal_value (decimal v) = v.
Proof. intros Hv. apply decimal_digits_value. unfold is_u32 in Hv. split; [lia|]. change (10 ^ Z.of_nat 10) with 10000000000. lia. Qed.

(** A check reports exactly the values outside its limits, and only while the detection is
    enabled; what it reports is a breadcrumb with the whole text, and nothing else changes. *)
Theorem anomaly_reported now (on : bool) v t :
  (forall check low high text, In (check, low, high, text)
     [(anomaly_check_battery, 2800, 4200, str "ANOMALY:BATTERY:"); (anomaly_check_voltage, 1800000, 3600000, str "ANOMALY:VOLTAGE:");
      (anomaly_check_current, 0, 500, str "ANOMALY:CURRENT:")] ->
     is_u32 v ->
     (fst (check now v (on, t)) = true <-> on = true /\ ~ low <= v <= high) /\
     snd (check now v (on, t)) = (on, if fst (check now v (on, t)) then ls_breadcrumb now (Some (text ++ decimal v)) t else t)) /\
  (- 2 ^ 15 <= v < 2 ^ 15 ->
     (fst (anomaly_check_temperature now v (on, t)) = true <-> on = true /\ ~ -20 <= v <= 85) /\
     snd (anomaly_check_temperature now v (on, t)) =
       (on, if fst (anomaly_check_temperature now v (on, t)) then ls_breadcrumb now (Some (str "ANOMALY:TEMP:" ++ signed_decimal v)) t else t)).
Proof.
  assert (forall outside text, (length text <= 63)%nat ->
    (fst (anomaly_found now outside text (on, t)) = true <-> on = true /\ outside = true) /\
    snd (anomaly_found now outside text (on, t)) =
      (on, if fst (anomaly_found now outside text (on, t)) then ls_breadcrumb now (Some text) t else t)) as Hfound.
  { intros outside text Hl. unfold anomaly_found, anomaly_is_enabled, anomaly_message. rewrite take_ge by done.
    destruct on, outside; cbn [fst snd negb]; split; try done; intuition congruence. }
  pose proof (length_decimal v) as Hd. pose proof (length_decimal (- v)) as Hd'. split.
  - intros check low high text Hin Hv. unfold is_u32 in Hv.
    destruct Hin as [[= <- <- <- <-]|[[= <- <- <- <-]|[[= <- <- <- <-]|[]]]];
      (match goal with |- context [fst (?c now v _)] => unfold c end;
       match goal with |- context [anomaly_found now ?out ?text] => destruct (Hfound out text) as [H1 ->] end;
       [rewrite length_app; simpl; lia|]; split; [|reflexivity]; rewrite H1, ?orb_true_iff, ?Z.ltb_lt;
       unfold ANOMALY_BATTERY_MV_MIN, ANOMALY_BATTERY_MV_MAX, ANOMALY_VOLTAGE_UV_MIN, ANOMALY_VOLTAGE_UV_MAX, ANOMALY_CURRENT_MA_MAX;
       split; (intros [Hon ?]; split; [exact Hon|lia])).
  - intros Hv. unfold anomaly_check_temperature. destruct (Hfound ((v <? ANOMALY_TEMP_C_MIN) || (ANOMALY_TEMP_C_MAX <? v)) (str "ANOMALY:TEMP:" ++ signed_decimal v)) as [H1 ->].
    + unfold signed_decimal. case_if; rewrite ?length_app; simpl; lia.
    + split; [|reflexivity]. rewrite H1, orb_true_iff, !Z.ltb_lt. unfold ANOMALY_TEMP_C_MIN, ANOMALY_TEMP_C_MAX.
      split; (intros [Hon ?]; split; [exact Hon|lia]).
Qed.
