(* ===== verification/Services.v ===== *)
(** * Mission, time, environment and supervision ([src/core/mission.c], [time_sync.c],
    [environment.c], [supervisor.c], [fingerprint.c], [performance.c], [trace.c])

    The small stateful services whose state goes into an event. [now] is what
    [ls_uptime_ms()] returns; the black box and the health table are the models of
    [Blackbox] and [Telemetry]. *)

From S2P Require Import Prelude Util Blackbox Telemetry.

Definition LS_BLACKBOX_SENSOR : Z := 6.
Definition LS_BLACKBOX_BUS : Z := 7.
Definition LS_BLACKBOX_TASK : Z := 2.
Definition LS_BLACKBOX_IRQ : Z := 3.
Definition LS_BLACKBOX_MISSION : Z := 9.
Definition BLACKBOX_IMPORTANT_FLAG : Z := 1.
Definition LS_MISSION_ID_MAX : Z := 32.
Definition LS_DIVE_ID_MAX : Z := 24.
Definition LS_NODE_ID_MAX : Z := 24.
Definition LS_VEHICLE_MODE_MAX : Z := 20.
Definition LS_SPAN_CAPACITY : Z := 8.

(** ** Fingerprints *)

Definition mix (value : Z) : Z :=
  let value := Z.lxor value (Z.shiftr value 16) in
  let value := u32 (value * 0x7feb352d) in
  let value := Z.lxor value (Z.shiftr value 15) in
  let value := u32 (value * 0x846ca68b) in
  Z.lxor value (Z.shiftr value 16).

(** [build_id] is the string of [ls_build_id()]. *)
Definition ls_event_fingerprint (build_id : list Z) (domain : option (list Z)) (code_ detail : Z) : Z :=
  let value := Z.lxor (Z.lxor (Z.lxor (ls_hash_string domain) (mix (u32 code_))) (mix detail))
                      (mix (ls_hash_string (Some build_id))) in
  let value := mix value in
  if negb (value =? 0) then value else 1.

(** ** State *)

Record ls_mission_context_t : Type := mk_mission {
  mi_mission_id : list Z;
  mi_dive_id : list Z;
  mi_node_id : list Z;
  mi_vehicle_mode : list Z;
  mi_mission_started_ms : Z;
  mi_phase : Z;
  mi_depth_cm : Z;
  mi_incident_hi : Z;
  mi_incident_lo : Z;
  mi_incident_active : bool
}.

Record ls_time_sync_state_t : Type := mk_time {
  ts_source : Z;
  ts_utc_ms_at_sync : Z;
  ts_monotonic_ms_at_sync : Z;
  ts_uncertainty_ms : Z;
  ts_generation : Z;
  ts_synchronized : bool
}.

Record ls_environment_sample_t : Type := {
  es_timestamp_ms : Z;
  es_pressure_pa : Z;
  es_depth_cm : Z;
  es_internal_temperature_c : Z;
  es_humidity_permyriad : Z;
  es_vibration_mg_rms : Z;
  es_flags : Z
}.

Record ls_environment_summary_t : Type := {
  ev_last : ls_environment_sample_t;
  ev_sample_count : Z;
  ev_maximum_pressure_pa : Z;
  ev_maximum_depth_cm : Z;
  ev_maximum_temperature_c : Z;
  ev_maximum_humidity_permyriad : Z;
  ev_maximum_vibration_mg_rms : Z;
  ev_leak_events : Z
}.

Record ls_supervisor_config_t : Type := {
  sc_watchdog_max_stale_ms : Z;
  sc_minimum_vdd_mv : Z;
  sc_minimum_battery_mv : Z;
  sc_maximum_temperature_c : Z;
  sc_minimum_heap_free_bytes : Z;
  sc_maximum_spool_percent : Z;
  sc_maximum_vibration_mg_rms : Z;
  sc_anomaly_hold_ms : Z
}.

Record ls_supervisor_status_t : Type := {
  ss_active_alarms : Z;
  ss_previous_alarms : Z;
  ss_transitions : Z;
  ss_last_change_ms : Z;
  ss_configured : bool
}.

Record ls_span_record_t : Type := { sn_id : Z; sn_started_ms : Z; sn_elapsed_ms : Z; sn_active : bool }.

Record services : Type := mk_services {
  sv_telemetry : telemetry;
  sv_mission : ls_mission_context_t;
  sv_time_sync : ls_time_sync_state_t;
  sv_environment : ls_environment_summary_t;
  sv_supervisor_config : ls_supervisor_config_t;
  sv_supervisor_status : ls_supervisor_status_t;
  sv_spans : list ls_span_record_t
}.

Definition set_telemetry (t : telemetry) (s : services) : services :=
  mk_services t (sv_mission s) (sv_time_sync s) (sv_environment s) (sv_supervisor_config s) (sv_supervisor_status s) (sv_spans s).
Definition set_mission (m : ls_mission_context_t) (s : services) : services :=
  mk_services (sv_telemetry s) m (sv_time_sync s) (sv_environment s) (sv_supervisor_config s) (sv_supervisor_status s) (sv_spans s).
Definition set_time_sync (t : ls_time_sync_state_t) (s : services) : services :=
  mk_services (sv_telemetry s) (sv_mission s) t (sv_environment s) (sv_supervisor_config s) (sv_supervisor_status s) (sv_spans s).
Definition set_environment (e : ls_environment_summary_t) (s : services) : services :=
  mk_services (sv_telemetry s) (sv_mission s) (sv_time_sync s) e (sv_supervisor_config s) (sv_supervisor_status s) (sv_spans s).
Definition set_supervisor (c : ls_supervisor_config_t) (x : ls_supervisor_status_t) (s : services) : services :=
  mk_services (sv_telemetry s) (sv_mission s) (sv_time_sync s) (sv_environment s) c x (sv_spans s).
Definition set_spans (l : list ls_span_record_t) (s : services) : services :=
  mk_services (sv_telemetry s) (sv_mission s) (sv_time_sync s) (sv_environment s) (sv_supervisor_config s)
    (sv_supervisor_status s) l.

Definition note (now kind source flags v0 v1 v2 v3 : Z) (s : services) : services :=
  set_telemetry (blackbox_note now kind source flags v0 v1 v2 v3 (sv_telemetry s)) s.

Definition on_blackbox (f : ls_blackbox_retained_t -> ls_blackbox_retained_t) (s : services) : services :=
  let t := sv_telemetry s in set_telemetry (set_effects (f (t_blackbox t)) (t_captured t) t) s.

Definition capture_error (e : ls_error_t) (s : services) : services :=
  set_telemetry (ls_capture_error e (sv_telemetry s)) s.

(** ** Mission *)

Definition empty_mission : ls_mission_context_t := mk_mission [] [] [] [] 0 0 0 0 0 false.

Definition ls_mission_begin (now : Z) (mission_id dive_id node_id : option (list Z)) : st services ls_result_t := fun s =>
  match mission_id with
  | None | Some [] => (LS_EINVAL, s)
  | Some _ =>
      let s := set_mission (mk_mission (copied LS_MISSION_ID_MAX mission_id) (copied LS_DIVE_ID_MAX dive_id)
                              (copied LS_NODE_ID_MAX node_id) [] now 0 0 0 0 false) s in
      (LS_OK, note now LS_BLACKBOX_MISSION 1 BLACKBOX_IMPORTANT_FLAG (s32 (ls_hash_string mission_id))
                (s32 (ls_hash_string dive_id)) (s32 (ls_hash_string node_id)) 0 s)
  end.

Definition ls_mission_end (now : Z) (s : services) : services :=
  let m := sv_mission s in
  set_mission empty_mission
    (note now LS_BLACKBOX_MISSION 2 BLACKBOX_IMPORTANT_FLAG (s32 (ls_hash_string (Some (mi_mission_id m))))
       (mi_depth_cm m) (s32 (mi_phase m)) 0 s).

Definition ls_mission_set_mode (now : Z) (mode : option (list Z)) (phase : Z) (s : services) : services :=
  let m := sv_mission s in
  let s := set_mission (mk_mission (mi_mission_id m) (mi_dive_id m) (mi_node_id m) (copied LS_VEHICLE_MODE_MAX mode)
             (mi_mission_started_ms m) phase (mi_depth_cm m) (mi_incident_hi m) (mi_incident_lo m) (mi_incident_active m)) s in
  note now LS_BLACKBOX_MISSION 3 0 (s32 (ls_hash_string mode)) (s32 phase) (mi_depth_cm m) 0 s.

Definition ls_mission_set_depth_cm (now depth_cm : Z) (s : services) : services :=
  let m := sv_mission s in
  let s := set_mission (mk_mission (mi_mission_id m) (mi_dive_id m) (mi_node_id m) (mi_vehicle_mode m)
             (mi_mission_started_ms m) (mi_phase m) depth_cm (mi_incident_hi m) (mi_incident_lo m) (mi_incident_active m)) s in
  note now LS_BLACKBOX_SENSOR 1 0 depth_cm 0 0 0 s.

Definition ls_mission_get (context : ptr) (s : services) : res ls_mission_context_t :=
  if negb context then Err LS_EINVAL else Ok (sv_mission s).

Definition ls_mission_elapsed_ms (now : Z) (m : ls_mission_context_t) : Z :=
  match mi_mission_id m with [] => 0 | _ :: _ => u32 (now - mi_mission_started_ms m) end.

Definition set_incident (hi lo : Z) (active : bool) (s : services) : services :=
  let m := sv_mission s in
  set_mission (mk_mission (mi_mission_id m) (mi_dive_id m) (mi_node_id m) (mi_vehicle_mode m) (mi_mission_started_ms m)
    (mi_phase m) (mi_depth_cm m) hi lo active) s.

(** The identifier [ls_incident_begin] uses when it is given none. [random] is the
    result of [ls_security_random] on 16 bytes. *)
Definition incident_id (build_id : list Z) (device_id : option (list Z)) (boot_count sequence now : Z)
    (random : res (list Z)) : Z * Z :=
  let '(hi, lo) :=
    match random with
    | Ok bytes => (le_get (slice 8 8 bytes), le_get (slice 0 8 bytes))
    | Err _ =>
        let seed := Z.lxor (Z.lxor (Z.lxor (ls_hash_string device_id) (ls_hash_string (Some build_id))) boot_count) now in
        (Z.lor (u64 (Z.shiftl seed 32)) (ls_event_fingerprint build_id (Some (str "incident")) (s32 boot_count) sequence),
         Z.lor (u64 (Z.shiftl sequence 32)) (ls_event_fingerprint build_id (Some (str "mission")) (s32 now) seed))
    end in
  if (hi =? 0) && (lo =? 0) then (hi, 1) else (hi, lo).

Definition ls_incident_begin (build_id : list Z) (device_id : option (list Z)) (boot_count sequence now : Z)
    (random : res (list Z)) (hi lo : Z) : st services ls_result_t := fun s =>
  let '(hi, lo) := if (hi =? 0) && (lo =? 0)
                   then incident_id build_id device_id boot_count sequence now random else (hi, lo) in
  (LS_OK, note now LS_BLACKBOX_MISSION 4 BLACKBOX_IMPORTANT_FLAG (s32 hi) (s32 (Z.shiftr hi 32)) (s32 lo)
            (s32 (Z.shiftr lo 32)) (set_incident hi lo true s)).

Definition ls_incident_end (s : services) : services := set_incident 0 0 false s.

(** ** Time *)

Definition LS_TIME_SOURCE_NONE : Z := 0.
Definition LS_TIME_SOURCE_HOST : Z := 5.
Definition UINT64_MAX : Z := 2 ^ 64 - 1.

Definition ls_time_sync_set (now source utc_ms uncertainty_ms : Z) : st services ls_result_t := fun s =>
  if (source <=? LS_TIME_SOURCE_NONE) || (LS_TIME_SOURCE_HOST <? source) || (utc_ms =? 0) then (LS_EINVAL, s)
  else
    let g := ts_generation (sv_time_sync s) in
    (LS_OK, set_time_sync (mk_time source utc_ms now uncertainty_ms (if negb (g =? UINT32_MAX) then g + 1 else g) true) s).

Definition ls_time_sync_clear (s : services) : services :=
  set_time_sync (mk_time 0 0 0 0 (ts_generation (sv_time_sync s)) false) s.

Definition ls_time_sync_get (s : services) : ls_time_sync_state_t := sv_time_sync s.

Definition ls_time_utc_ms (now : Z) (utc_ms : ptr) (s : services) : res Z :=
  if negb utc_ms then Err LS_EINVAL
  else if negb (ts_synchronized (sv_time_sync s)) then Err LS_EAGAIN
  else
    let delta := u32 (now - ts_monotonic_ms_at_sync (sv_time_sync s)) in
    if UINT64_MAX - ts_utc_ms_at_sync (sv_time_sync s) <? delta then Err LS_EOVERFLOW
    else Ok (ts_utc_ms_at_sync (sv_time_sync s) + delta).

(** ** Environment *)

Definition LS_ENV_LEAK : Z := 3. (* LS_ENV_LEAK_DETECTED | LS_ENV_WATER_INGRESS *)
Definition LS_ENV_PRESSURE_SENSOR_FAULT : Z := 4.
Definition LS_ENV_VIBRATION_LIMIT : Z := 8.

Definition has_bits (value bits : Z) : bool := negb (Z.land value bits =? 0).
Definition saturated_inc (v : Z) : Z := if negb (v =? UINT32_MAX) then v + 1 else v.
Definition max_of (a b : Z) : Z := if b >? a then b else a.

Definition environment_update (v : ls_environment_sample_t) (e : ls_environment_summary_t) : ls_environment_summary_t :=
  {| ev_last := v; ev_sample_count := saturated_inc (ev_sample_count e);
     ev_maximum_pressure_pa := max_of (ev_maximum_pressure_pa e) (es_pressure_pa v);
     ev_maximum_depth_cm := max_of (ev_maximum_depth_cm e) (es_depth_cm v);
     ev_maximum_temperature_c := max_of (ev_maximum_temperature_c e) (es_internal_temperature_c v);
     ev_maximum_humidity_permyriad := max_of (ev_maximum_humidity_permyriad e) (es_humidity_permyriad v);
     ev_maximum_vibration_mg_rms := max_of (ev_maximum_vibration_mg_rms e) (es_vibration_mg_rms v);
     ev_leak_events := if has_bits (es_flags v) LS_ENV_LEAK then saturated_inc (ev_leak_events e) else ev_leak_events e |}.

Definition ls_environment_sample (now : Z) (sample : option ls_environment_sample_t) (s : services) : services :=
  match sample with
  | None => s
  | Some v =>
      let v := {| es_timestamp_ms := if (es_timestamp_ms v =? 0) && t_initialized (sv_telemetry s) then now else es_timestamp_ms v;
                  es_pressure_pa := es_pressure_pa v; es_depth_cm := es_depth_cm v;
                  es_internal_temperature_c := es_internal_temperature_c v; es_humidity_permyriad := es_humidity_permyriad v;
                  es_vibration_mg_rms := es_vibration_mg_rms v; es_flags := es_flags v |} in
      let leak := has_bits (es_flags v) LS_ENV_LEAK in
      let s := set_environment (environment_update v (sv_environment s)) s in
      let s := if leak then on_blackbox (ls_blackbox_anomaly_begin now 30000) s else s in
      let s := ls_mission_set_depth_cm now (es_depth_cm v) s in
      note now LS_BLACKBOX_SENSOR 0x454e (if leak then 3 else 0) (es_depth_cm v) (s32 (es_pressure_pa v))
        (es_vibration_mg_rms v) (es_flags v) s
  end.

Definition ls_environment_get_summary (summary : ptr) (s : services) : res ls_environment_summary_t :=
  if negb summary then Err LS_EINVAL else Ok (sv_environment s).

Definition ls_environment_leak_detected (s : services) : bool := has_bits (es_flags (ev_last (sv_environment s))) LS_ENV_LEAK.

(** ** Supervision *)

Definition LS_SUPERVISOR_WATCHDOG_STALE : Z := 1.
Definition LS_SUPERVISOR_VDD_LOW : Z := 2.
Definition LS_SUPERVISOR_BATTERY_LOW : Z := 4.
Definition LS_SUPERVISOR_TEMPERATURE_HIGH : Z := 8.
Definition LS_SUPERVISOR_HEAP_LOW : Z := 16.
Definition LS_SUPERVISOR_SPOOL_HIGH : Z := 32.
Definition LS_SUPERVISOR_BOOT_LOOP : Z := 64.
Definition LS_SUPERVISOR_HEALTH_DEADLINE : Z := 128.
Definition LS_SUPERVISOR_ENVIRONMENT_LEAK : Z := 256.
Definition LS_SUPERVISOR_VIBRATION_HIGH : Z := 512.
Definition LS_SUPERVISOR_ENV_SENSOR_FAULT : Z := 1024.

(** [if (cond) alarms |= bit;]. *)
Definition raise_if (cond : bool) (bit alarms : Z) : Z := if cond then Z.lor alarms bit else alarms.

Definition power_alarms (c : ls_supervisor_config_t) (t : telemetry) : Z :=
  if r_count (t_power t) =? 0 then 0
  else
    let index := (r_next (t_power t) + LS_POWER_SAMPLE_CAPACITY - 1) mod LS_POWER_SAMPLE_CAPACITY in
    let sample := nth (Z.to_nat index) (r_slots (t_power t)) zero_sample in
    let alarms := raise_if (negb (sc_minimum_vdd_mv c =? 0) && (pw_vdd_mv sample <? sc_minimum_vdd_mv c)) LS_SUPERVISOR_VDD_LOW 0 in
    let alarms := raise_if (negb (sc_minimum_battery_mv c =? 0) && (pw_battery_mv sample <? sc_minimum_battery_mv c))
                    LS_SUPERVISOR_BATTERY_LOW alarms in
    raise_if (negb (sc_maximum_temperature_c c =? 0) && (pw_temperature_c sample >? sc_maximum_temperature_c c))
      LS_SUPERVISOR_TEMPERATURE_HIGH alarms.

Definition ls_supervisor_configure (config : option ls_supervisor_config_t) : st services ls_result_t := fun s =>
  match config with
  | None => (LS_EINVAL, s)
  | Some c =>
      if sc_maximum_spool_percent c >? 100 then (LS_EINVAL, s)
      else
        let x := sv_supervisor_status s in
        (LS_OK, set_supervisor c {| ss_active_alarms := ss_active_alarms x; ss_previous_alarms := ss_previous_alarms x;
                  ss_transitions := ss_transitions x; ss_last_change_ms := ss_last_change_ms x; ss_configured := true |} s)
  end.

Definition environment_alarms (c : ls_supervisor_config_t) (e : ls_environment_summary_t) (alarms : Z) : Z :=
  if ev_sample_count e =? 0 then alarms
  else
    let v := ev_last e in
    let alarms := raise_if (has_bits (es_flags v) LS_ENV_LEAK) LS_SUPERVISOR_ENVIRONMENT_LEAK alarms in
    let alarms := raise_if (has_bits (es_flags v) LS_ENV_PRESSURE_SENSOR_FAULT) LS_SUPERVISOR_ENV_SENSOR_FAULT alarms in
    raise_if (has_bits (es_flags v) LS_ENV_VIBRATION_LIMIT ||
              (negb (sc_maximum_vibration_mg_rms c =? 0) && (es_vibration_mg_rms v >? sc_maximum_vibration_mg_rms c)))
      LS_SUPERVISOR_VIBRATION_HIGH alarms.

(** The alarms of a poll; [s] is the state after [ls_health_poll], [before] the alarms
    up to the call of it. [spool] is what [ls_spool_get_stats] gives: the committed
    records and the capacity. *)
Definition early_alarms (now : Z) (boot_loop : bool) (s : services) : Z :=
  let c := sv_supervisor_config s in
  let t := sv_telemetry s in
  let alarms := power_alarms c t in
  let alarms := raise_if (negb (sc_watchdog_max_stale_ms c =? 0) && negb (t_watchdog_last_feed t =? 0) &&
                          (u32 (now - t_watchdog_last_feed t) >? sc_watchdog_max_stale_ms c))
                  LS_SUPERVISOR_WATCHDOG_STALE alarms in
  let alarms := raise_if (negb (sc_minimum_heap_free_bytes c =? 0) &&
                          (hs_free_bytes (t_heap_stats t) <? sc_minimum_heap_free_bytes c)) LS_SUPERVISOR_HEAP_LOW alarms in
  raise_if boot_loop LS_SUPERVISOR_BOOT_LOOP alarms.

Definition late_alarms (spool : res (Z * Z)) (before : Z) (s : services) : Z :=
  let c := sv_supervisor_config s in
  let alarms := raise_if (existsb h_expired (t_health (sv_telemetry s))) LS_SUPERVISOR_HEALTH_DEADLINE before in
  let alarms := environment_alarms c (sv_environment s) alarms in
  if sc_maximum_spool_percent c =? 0 then alarms
  else match spool with
       | Err _ => alarms
       | Ok (committed, capacity) =>
           raise_if (negb (capacity =? 0) && (u32 (capacity * sc_maximum_spool_percent c) <=? u32 (committed * 100)))
             LS_SUPERVISOR_SPOOL_HIGH alarms
       end.

Definition ls_supervisor_poll (now : Z) (boot_loop : bool) (spool : res (Z * Z)) : st services ls_result_t := fun s =>
  if negb (ss_configured (sv_supervisor_status s)) then (LS_ENOTSUP, s)
  else
    let before := early_alarms now boot_loop s in
    let s := set_telemetry (snd (ls_health_poll now (sv_telemetry s))) s in
    let alarms := late_alarms spool before s in
    let x := sv_supervisor_status s in
    let c := sv_supervisor_config s in
    let previous := ss_active_alarms x in
    let changed := negb (previous =? alarms) in
    let s := set_supervisor c
      {| ss_active_alarms := alarms; ss_previous_alarms := previous;
         ss_transitions := if changed then saturated_inc (ss_transitions x) else ss_transitions x;
         ss_last_change_ms := if changed then now else ss_last_change_ms x; ss_configured := ss_configured x |} s in
    let s :=
      if changed then
        let s := note now LS_BLACKBOX_STATE 0xff00 (if negb (alarms =? 0) then BLACKBOX_ERROR_FLAG else BLACKBOX_IMPORTANT_FLAG)
                   (s32 previous) (s32 alarms) 0 0 s in
        let s := if negb (alarms =? 0) && negb (sc_anomaly_hold_ms c =? 0)
                 then on_blackbox (ls_blackbox_anomaly_begin now (sc_anomaly_hold_ms c)) s else s in
        if negb (Z.land alarms (u32 (Z.lnot previous)) =? 0)
        then capture_error {| er_domain := str "supervisor"; er_code := s32 (Z.land alarms (u32 (Z.lnot previous)));
                              er_severity := LS_SEVERITY_ERROR; er_message := Some (str "health_alarm") |} s
        else s
      else s in
    let s := on_blackbox (ls_blackbox_poll (t_initialized (sv_telemetry s)) now) s in
    ((if negb (alarms =? 0) then LS_EAGAIN else LS_OK), s).

Definition ls_supervisor_get_status (s : services) : ls_supervisor_status_t := sv_supervisor_status s.

(** ** Spans and performance reports *)

Definition LS_PERF_DEADLINE_MISS : Z := 2.
Definition LS_PERF_DMA_TIMEOUT : Z := 5.
Definition LS_SEVERITY_WARNING : Z := 2.

(** The first span that satisfies [f], with the spans before and after it. *)
Fixpoint split_first (f : ls_span_record_t -> bool) (l : list ls_span_record_t)
  : option (list ls_span_record_t * ls_span_record_t * list ls_span_record_t) :=
  match l with
  | [] => None
  | x :: l =>
      if f x then Some ([], x, l)
      else match split_first f l with Some (before, y, after) => Some (x :: before, y, after) | None => None end
  end.

Definition ls_span_begin (now id : Z) : st services ls_result_t := fun s =>
  match split_first (fun x => negb (sn_active x)) (sv_spans s) with
  | Some (before, _, after) =>
      (LS_OK, set_spans (before ++ {| sn_id := id; sn_started_ms := now; sn_elapsed_ms := 0; sn_active := true |} :: after) s)
  | None => (LS_ENOSPACE, s)
  end.

Definition ls_span_end (now id : Z) : st services ls_result_t := fun s =>
  match split_first (fun x => sn_active x && (sn_id x =? id)) (sv_spans s) with
  | Some (before, x, after) =>
      let elapsed := u32 (now - sn_started_ms x) in
      let s := set_spans (before ++ {| sn_id := sn_id x; sn_started_ms := sn_started_ms x; sn_elapsed_ms := elapsed;
                                       sn_active := false |} :: after) s in
      (LS_OK, set_telemetry (ls_metric_u32 (Some (str "span_last_ms")) elapsed (sv_telemetry s)) s)
  | None => (LS_EINVAL, s)
  end.

Definition ls_performance_report (kind value threshold : Z) (s : services) : services :=
  if value <? threshold then s
  else
    let s := capture_error {| er_domain := str "performance"; er_code := s32 kind;
               er_severity := if (kind =? LS_PERF_DEADLINE_MISS) || (kind =? LS_PERF_DMA_TIMEOUT)
                              then LS_SEVERITY_ERROR else LS_SEVERITY_WARNING;
               er_message := Some (str "performance_threshold") |} s in
    set_telemetry (ls_metric_u32 (Some (str "performance_value")) value (sv_telemetry s)) s.

(** ** Trace points *)

Definition ls_trace_task_switch (now previous_task next_task : Z) : services -> services :=
  note now LS_BLACKBOX_TASK next_task 0 previous_task next_task 0 0.
Definition ls_trace_irq_enter (now irq : Z) : services -> services := note now LS_BLACKBOX_IRQ irq 0 1 0 0 0.
Definition ls_trace_irq_exit (now irq : Z) : services -> services := note now LS_BLACKBOX_IRQ irq 0 0 0 0 0.
Definition ls_trace_mutex_timeout (now mutex_id waited_ms : Z) (s : services) : services :=
  ls_performance_report LS_PERF_DEADLINE_MISS waited_ms 1
    (note now LS_BLACKBOX_TASK mutex_id BLACKBOX_ERROR_FLAG (s32 waited_ms) (-1) 0 0 s).
Definition ls_trace_dma (now channel : Z) (started : bool) (status : Z) : services -> services :=
  note now LS_BLACKBOX_BUS channel (if negb (status =? 0) then BLACKBOX_ERROR_FLAG else 0) (if started then 1 else 0)
    (s32 status) 0 0.
Definition ls_trace_state (now machine_id previous_state next_state : Z) : services -> services :=
  note now LS_BLACKBOX_STATE machine_id 0 previous_state next_state 0 0.
Definition ls_trace_link (now link_id : Z) (up : bool) (detail : Z) : services -> services :=
  note now LS_BLACKBOX_BUS link_id (if up then 0 else BLACKBOX_ERROR_FLAG) (if up then 1 else 0) (s32 detail) 0 0.
