(* ===== verification/Policy.v ===== *)
(** * Event policies ([src/core/policy.c])

    What decides whether a captured event is stored: duplicate suppression, rate limits
    and sampling per domain. *)

From S2P Require Import Prelude Util FaultInjection Storage Envelope Transport.

Definition LS_POLICY_CAPACITY : Z := 16.
Definition LS_DEDUP_CAPACITY : Z := 16.
Definition LS_DEDUP_WINDOW_MS : Z := 60000.

Record ls_policy_record_t : Type := {
  domain_hash : Z;
  sampling_permyriad : Z;
  rate_maximum : Z;
  rate_count : Z;
  rate_period_ms : Z;
  window_started_ms : Z;
  seen : Z;
}.

Record ls_dedup_record_t : Type := {
  d_fingerprint : Z;
  d_count : Z;
  d_first_seen_ms : Z;
  d_last_seen_ms : Z;
}.

(** The members of [ls_event_t] used here. *)
Record ls_event_t : Type := {
  e_priority : Z;
  e_timestamp_ms : Z;
  e_fingerprint : Z;
  e_domain : option (list Z);
  e_code : Z;
  e_message : option (list Z);
  e_repeat_count : Z;
  e_first_seen_ms : Z;
  e_last_seen_ms : Z;
}.

(** The tables of [ls_runtime]: the used prefixes of the two arrays. *)
Record policy_runtime : Type := {
  policies : list ls_policy_record_t;
  dedup : list ls_dedup_record_t;
  dedup_next : Z;
  random_state : Z;
}.

Definition with_policies (l : list ls_policy_record_t) (t : policy_runtime) : policy_runtime :=
  {| policies := l; dedup := dedup t; dedup_next := dedup_next t; random_state := random_state t |}.

Definition with_dedup (l : list ls_dedup_record_t) (t : policy_runtime) : policy_runtime :=
  {| policies := policies t; dedup := l; dedup_next := dedup_next t; random_state := random_state t |}.

(** ** Configuration *)

Definition fresh_policy (hash : Z) : ls_policy_record_t :=
  {| domain_hash := hash; sampling_permyriad := 10000; rate_maximum := 0; rate_count := 0; rate_period_ms := 0;
     window_started_ms := 0; seen := 0 |}.

(** The result is the index of the record. *)
Definition find_policy (hash : Z) (create : bool) : st policy_runtime (option nat) := fun t =>
  match first_slot (fun q => domain_hash q =? hash) (policies t) with
  | Some i => (Some i, t)
  | None =>
      if negb create || (LS_POLICY_CAPACITY <=? zlen (policies t)) then (None, t)
      else (Some (length (policies t)), with_policies (policies t ++ [fresh_policy hash]) t)
  end.

Definition set_sampling (v : Z) (q : ls_policy_record_t) : ls_policy_record_t :=
  {| domain_hash := domain_hash q; sampling_permyriad := v; rate_maximum := rate_maximum q; rate_count := rate_count q;
     rate_period_ms := rate_period_ms q; window_started_ms := window_started_ms q; seen := seen q |}.

Definition ls_sampling_set_permyriad (domain : option (list Z)) (permyriad : Z) : st policy_runtime ls_result_t := fun t =>
  if negb (is_set domain) || (10000 <? permyriad) then (LS_EINVAL, t)
  else
    let '(policy, t) := find_policy (ls_hash_string domain) true t in
    match policy with
    | None => (LS_ENOSPACE, t)
    | Some i => (LS_OK, with_policies (alter (set_sampling permyriad) i (policies t)) t)
    end.

(** [bits] is the representation of the [float] argument. *)
Definition ls_sampling_set (domain : option (list Z)) (bits : Z) : st policy_runtime ls_result_t :=
  let magnitude := Z.land bits 0x7fffffff in
  if (negb (Z.shiftr bits 31 =? 0) && negb (magnitude =? 0)) || (0x3f800000 <? magnitude) then mret LS_EINVAL
  else if magnitude =? 0 then ls_sampling_set_permyriad domain 0
  else
    let exponent := Z.shiftr magnitude 23 in
    let mantissa := Z.land magnitude 0x7fffff in
    if exponent =? 0 then ls_sampling_set_permyriad domain 0
    else
      let mantissa := Z.lor mantissa 0x800000 in
      let shift := u32 (150 - exponent) in
      let scaled := u64 (mantissa * 10000) in
      let permyriad :=
        if 64 <=? shift then 0 else u32 (Z.shiftr (u64 (scaled + Z.shiftl 1 (shift - 1))) shift) in
      ls_sampling_set_permyriad domain (u16 permyriad).

Definition set_rate (maximum period now : Z) (q : ls_policy_record_t) : ls_policy_record_t :=
  {| domain_hash := domain_hash q; sampling_permyriad := sampling_permyriad q; rate_maximum := maximum;
     rate_count := 0; rate_period_ms := u32 period; window_started_ms := now; seen := seen q |}.

(** [now] is the value of [ls_uptime_ms()]. *)
Definition ls_rate_limit_set (domain : option (list Z)) (maximum period now : Z) : st policy_runtime ls_result_t := fun t =>
  if negb (is_set domain) || (maximum =? 0) || (period =? 0) then (LS_EINVAL, t)
  else
    let '(policy, t) := find_policy (ls_hash_string domain) true t in
    match policy with
    | None => (LS_ENOSPACE, t)
    | Some i => (LS_OK, with_policies (alter (set_rate maximum period now) i (policies t)) t)
    end.

Definition ls_policy_reset (t : policy_runtime) : policy_runtime :=
  {| policies := []; dedup := []; dedup_next := 0; random_state := random_state t |}.

Definition ls_dedup_count (t : policy_runtime) : Z := zlen (dedup t).

(** [ls_dedup_get] with a non-null snapshot, whose members are those of the record. *)
Definition ls_dedup_get (index : Z) (t : policy_runtime) : res ls_dedup_record_t :=
  if ls_dedup_count t <=? index then Err LS_EINVAL
  else match dedup t !! Z.to_nat index with Some d => Ok d | None => Err LS_EINVAL end.

(** ** Decisions *)

Definition random_next : st policy_runtime Z := fun t =>
  let value := if random_state t =? 0 then 0xa341316c else random_state t in
  let value := Z.lxor value (u32 (Z.shiftl value 13)) in
  let value := Z.lxor value (Z.shiftr value 17) in
  let value := Z.lxor value (u32 (Z.shiftl value 5)) in
  (value, {| policies := policies t; dedup := dedup t; dedup_next := dedup_next t; random_state := value |}).

Definition is_power_of_two (value : Z) : bool := negb (value =? 0) && (Z.land value (u32 (value - 1)) =? 0).

(** The result is the index of the record. *)
Definition dedup_record (fingerprint now : Z) : st policy_runtime nat := fun t =>
  match first_slot (fun d => d_fingerprint d =? fingerprint) (dedup t) with
  | Some i => (i, t)
  | None =>
      let record := {| d_fingerprint := fingerprint; d_count := 0; d_first_seen_ms := now; d_last_seen_ms := now |} in
      if zlen (dedup t) <? LS_DEDUP_CAPACITY then (length (dedup t), with_dedup (dedup t ++ [record]) t)
      else
        let i := Z.to_nat (dedup_next t) in
        (i, {| policies := policies t; dedup := <[i := record]> (dedup t);
               dedup_next := (dedup_next t + 1) mod LS_DEDUP_CAPACITY; random_state := random_state t |})
  end.

(** The updates of one duplicate record. *)
Definition dedup_seen (now : Z) (d : ls_dedup_record_t) : ls_dedup_record_t :=
  let expired := LS_DEDUP_WINDOW_MS <? u32 (now - d_last_seen_ms d) in
  {| d_fingerprint := d_fingerprint d; d_count := inc32 (if expired then 0 else d_count d);
     d_first_seen_ms := if expired then now else d_first_seen_ms d; d_last_seen_ms := now |}.

(** [event->fingerprint] after the default is filled in. *)
Definition event_fingerprint (e : ls_event_t) : Z :=
  if e_fingerprint e =? 0 then
    Z.lxor (Z.lxor (ls_hash_string (e_domain e)) (u32 (u32 (e_code e) * 0x9e3779b9))) (ls_hash_string (e_message e))
  else e_fingerprint e.

(** The rate limit of one record: whether the event passes, and the record after. *)
Definition rate_step (now : Z) (q : ls_policy_record_t) : bool * ls_policy_record_t :=
  if rate_maximum q =? 0 then (true, q)
  else
    let expired := rate_period_ms q <=? u32 (now - window_started_ms q) in
    let started := if expired then now else window_started_ms q in
    let count := if expired then 0 else rate_count q in
    let full := rate_maximum q <=? count in
    (negb full,
     {| domain_hash := domain_hash q; sampling_permyriad := sampling_permyriad q; rate_maximum := rate_maximum q;
        rate_count := if full then count else u16 (count + 1); rate_period_ms := rate_period_ms q;
        window_started_ms := started; seen := seen q |}).

Definition count_seen (q : ls_policy_record_t) : ls_policy_record_t :=
  {| domain_hash := domain_hash q; sampling_permyriad := sampling_permyriad q; rate_maximum := rate_maximum q;
     rate_count := rate_count q; rate_period_ms := rate_period_ms q; window_started_ms := window_started_ms q;
     seen := inc32 (seen q) |}.

(** The part of [ls_policy_apply] for events that are not critical; [distinct] is its
    last test. *)
Definition policy_filter (hash now : Z) (distinct : bool) : st policy_runtime bool := fun t =>
  let '(policy, t) := find_policy hash false t in
  match policy ≫= (fun i => (i,.) <$> policies t !! i) with
  | None => (distinct, t)
  | Some (i, q) =>
      let '(passes, q) := rate_step now (count_seen q) in
      let t := with_policies (<[i := q]> (policies t)) t in
      if negb passes then (false, t)
      else if (1 <? seen q) && (sampling_permyriad q <? 10000) then
        let '(v, t) := random_next t in
        (if sampling_permyriad q <=? v mod 10000 then false else distinct, t)
      else (distinct, t)
  end.

(** [ls_policy_apply] on a non-null event: the decision and the event as changed. *)
Definition ls_policy_apply (e : ls_event_t) : st policy_runtime (bool * ls_event_t) := fun t =>
  let now := e_timestamp_ms e in
  let fingerprint := event_fingerprint e in
  let '(di, t) := dedup_record fingerprint now t in
  let t := with_dedup (alter (dedup_seen now) di (dedup t)) t in
  match dedup t !! di with
  | None => ((false, e), t)
  | Some d =>
      let e := {| e_priority := e_priority e; e_timestamp_ms := now; e_fingerprint := fingerprint;
                  e_domain := e_domain e; e_code := e_code e; e_message := e_message e; e_repeat_count := d_count d;
                  e_first_seen_ms := d_first_seen_ms d; e_last_seen_ms := now |} in
      if e_priority e <=? LS_PRIORITY_CRITICAL then ((true, e), t)
      else
        let '(kept, t) := policy_filter (ls_hash_string (e_domain e)) now
                            ((d_count d =? 1) || is_power_of_two (d_count d)) t in
        ((kept, e), t)
  end.

(** A sequence of events. *)
Fixpoint apply_all (es : list ls_event_t) : st policy_runtime (list (bool * ls_event_t)) := fun t =>
  match es with
  | [] => ([], t)
  | e :: es =>
      let '(r, t) := ls_policy_apply e t in
      let '(rs, t) := apply_all es t in (r :: rs, t)
  end.

(** ** Powers of two *)

Lemma is_power_of_two_spec v : is_u32 v -> is_power_of_two v = true <-> exists k, 0 <= k /\ v = 2 ^ k.
Proof.
  intros Hv. unfold is_power_of_two, u32. split.
  - intros [H1%negb_true_iff%Z.eqb_neq H2%Z.eqb_eq]%andb_true_iff. rewrite Z.mod_small in H2 by blia. exists (Z.log2 v). split; [apply Z.log2_nonneg|].
    assert (0 < v) as Hpos by blia. destruct (Z.log2_spec v Hpos) as [Hl Hu].
    destruct (Z.eq_dec v (2 ^ Z.log2 v)) as [|Hn]; [done|]. exfalso.
    assert (Z.log2 (v - 1) = Z.log2 v) as Hlog by (apply Z.log2_unique; [apply Z.log2_nonneg|lia]).
    assert (Z.testbit (Z.land v (v - 1)) (Z.log2 v) = true) as Hb.
    { rewrite Z.land_spec, Z.bit_log2 by done. rewrite <- Hlog. apply Z.bit_log2. pose proof (Z.pow_pos_nonneg 2 (Z.log2 v) eq_refl (Z.log2_nonneg v)). lia. }
    rewrite H2, Z.bits_0 in Hb. done.
  - intros (k & Hk & ->). pose proof (Z.pow_pos_nonneg 2 k). rewrite (proj2 (Z.eqb_neq (2 ^ k) 0)) by lia.
    rewrite Z.mod_small by blia. apply Z.eqb_eq. replace (2 ^ k - 1) with (Z.ones k) by (rewrite Z.ones_equiv; lia).
    rewrite Z.land_ones by done. apply Z.mod_same. lia.
Qed.

Lemma distinct_spec v : is_u32 v -> (v =? 1) || is_power_of_two v = true <-> exists k, 0 <= k /\ v = 2 ^ k.
Proof.
  intros Hv. rewrite orb_true_iff, is_power_of_two_spec, Z.eqb_eq by done. split; [|by right].
  intros [->|?]; [by exists 0|done].
Qed.

(** ** Duplicates *)

Definition tables_ok (t : policy_runtime) : Prop := zlen (dedup t) <= LS_DEDUP_CAPACITY /\ 0 <= dedup_next t < LS_DEDUP_CAPACITY.

(** The duplicate record of a fingerprint, and the policy record of a domain. *)
Definition dedup_at (f : Z) (t : policy_runtime) (d : ls_dedup_record_t) : Prop :=
  exists i, first_slot (fun d => d_fingerprint d =? f) (dedup t) = Some i /\ dedup t !! i = Some d.

Definition policy_at (h : Z) (t : policy_runtime) (q : ls_policy_record_t) : Prop :=
  exists i, first_slot (fun q => domain_hash q =? h) (policies t) = Some i /\ policies t !! i = Some q.

(** Changing a record in place without its key does not change where it is found. *)
Lemma first_slot_insert {A} (test : A -> bool) l i a b : l !! i = Some a -> test b = test a ->
  first_slot test (<[i := b]> l) = first_slot test l.
Proof.
  revert i. induction l as [|c l IH]; intros i Hi Ht; [done|]. destruct i as [|i]; simpl in *.
  - simplify_eq. by rewrite Ht.
  - destruct (test c); [done|]. by rewrite IH.
Qed.

Lemma dedup_record_spec f now t i t' : tables_ok t -> dedup_record f now t = (i, t') ->
  policies t' = policies t /\ tables_ok t' /\
  exists d, first_slot (fun d => d_fingerprint d =? f) (dedup t') = Some i /\ dedup t' !! i = Some d /\
    ((first_slot (fun d => d_fingerprint d =? f) (dedup t) = None /\
      d = {| d_fingerprint := f; d_count := 0; d_first_seen_ms := now; d_last_seen_ms := now |}) \/
     dedup_at f t d).
Proof.
  intros [Hz Hn] H. unfold dedup_record in H. destruct (first_slot _ (dedup t)) as [j|] eqn:Ef.
  { injection H as <- <-. split; [done|]. split; [done|]. pose proof Ef as (d & Hd & _)%first_slot_Some.
    exists d. split_and!; [done..|]. right. by exists j. }
  pose proof (first_slot_None _ _ Ef) as Hnone. set (r := {| d_fingerprint := f |}) in *.
  destruct (zlen (dedup t) <? LS_DEDUP_CAPACITY) eqn:Ec; bool_prop; injection H as <- <-.
  - split; [done|]. split; [split; [cbn [dedup with_dedup]; rewrite zlen_app, zlen_cons, zlen_nil|]; cbn; lia|].
    exists r. cbn [with_dedup dedup]. assert ((dedup t ++ [r]) !! length (dedup t) = Some r) as Hr.
    { rewrite lookup_app_r, Nat.sub_diag by done. done. }
    split; [|split; [done|by left]]. eapply first_slot_here; [done|apply Z.eqb_refl|].
    intros j b Hj Hb. rewrite lookup_app_l in Hb by done. by eapply Hnone.
  - assert (Z.to_nat (dedup_next t) < length (dedup t))%nat as Hlt by (unfold zlen in *; lia).
    split; [done|]. split.
    { split; cbn [dedup dedup_next]; [unfold zlen in *; by rewrite length_insert|]. apply Z.mod_pos_bound. done. }
    exists r. cbn [dedup]. assert (<[Z.to_nat (dedup_next t) := r]> (dedup t) !! Z.to_nat (dedup_next t) = Some r) as Hr
      by (by apply list_lookup_insert_eq).
    split; [|split; [done|by left]]. eapply first_slot_here; [done|apply Z.eqb_refl|].
    intros j b Hj Hb. rewrite list_lookup_insert_ne in Hb by lia. by eapply Hnone.
Qed.

(** The filter leaves the duplicate records alone. *)
Lemma policy_filter_dedup h now b t r t' : policy_filter h now b t = (r, t') ->
  dedup t' = dedup t /\ dedup_next t' = dedup_next t.
Proof.
  unfold policy_filter, find_policy, random_next. intros H.
  repeat (case_match; simplify_eq/=; try done).
Qed.

Lemma first_slot_alter {A} (test : A -> bool) g l i : (forall a, test (g a) = test a) ->
  first_slot test (alter g i l) = first_slot test l.
Proof.
  intros Ht. revert i. induction l as [|c l IH]; intros i; [done|]. destruct i as [|i]; simpl; [by rewrite Ht|].
  destruct (test c); [done|]. f_equal. apply IH.
Qed.

(** One event: its duplicate record, and the decision. *)
Lemma apply_spec e t b e' t' : tables_ok t -> ls_policy_apply e t = ((b, e'), t') ->
  exists d0 t1, tables_ok t' /\
    ((first_slot (fun d => d_fingerprint d =? event_fingerprint e) (dedup t) = None /\
      d0 = {| d_fingerprint := event_fingerprint e; d_count := 0; d_first_seen_ms := e_timestamp_ms e;
              d_last_seen_ms := e_timestamp_ms e |}) \/ dedup_at (event_fingerprint e) t d0) /\
    let d := dedup_seen (e_timestamp_ms e) d0 in
    dedup_at (event_fingerprint e) t' d /\ e_repeat_count e' = d_count d /\ policies t1 = policies t /\
    if e_priority e <=? LS_PRIORITY_CRITICAL then b = true /\ t' = t1
    else policy_filter (ls_hash_string (e_domain e)) (e_timestamp_ms e) ((d_count d =? 1) || is_power_of_two (d_count d)) t1 =
         (b, t').
Proof.
  intros Ht H. unfold ls_policy_apply in H. destruct (dedup_record _ _ t) as [i t0] eqn:Ed.
  apply dedup_record_spec in Ed as (Hp & Ht0 & d0 & Hs & Hi & Hd0); [|done].
  set (t1 := with_dedup _ t0) in H. exists d0, t1. set (d := dedup_seen (e_timestamp_ms e) d0).
  assert (dedup t1 = alter (dedup_seen (e_timestamp_ms e)) i (dedup t0)) as Et1 by done.
  assert (dedup t1 !! i = Some d) as Hl by (rewrite Et1, list_lookup_alter_eq, Hi; done).
  assert (dedup_at (event_fingerprint e) t1 d) as Hat by (exists i; split; [by rewrite Et1, first_slot_alter|done]).
  assert (tables_ok t1) as Ht1 by (destruct Ht0; split; [rewrite Et1; unfold zlen in *; by rewrite length_alter|done]).
  rewrite Hl in H. cbn [e_priority e_domain] in H. case_if.
  - injection H as <- <- <-. split_and!; done.
  - destruct (policy_filter _ _ _ t1) as [k t2] eqn:Ef. injection H as <- <- <-.
    pose proof (policy_filter_dedup _ _ _ _ _ _ Ef) as [E1 E2]. unfold tables_ok, dedup_at in *. rewrite E1, E2.
    split_and!; try done; apply Ht1.
Qed.

Lemma apply_keeps e t b e' t' : tables_ok t -> ls_policy_apply e t = ((b, e'), t') ->
  tables_ok t' /\ e_priority e' = e_priority e /\ (e_priority e <= LS_PRIORITY_CRITICAL -> b = true).
Proof.
  intros Ht H. pose proof (apply_spec _ _ _ _ _ Ht H) as (d0 & t1 & Ht' & _ & _ & _ & _ & Hc). split; [done|]. split.
  - unfold ls_policy_apply in H. destruct (dedup_record _ _ t) as [i t0]. cbv zeta in H.
    destruct (_ !! i); [|by injection H as <- <- <-]. cbn [e_priority] in H.
    case_if; [by injection H as <- <- <-|]. destruct (policy_filter _ _ _ _). by injection H as <- <- <-.
  - intros Hp. rewrite (proj2 (Z.leb_le _ _) Hp) in Hc. by destruct Hc.
Qed.

(** The last clause for events of a domain with no policy. *)
Lemma filter_no_policy h now b t r t' : first_slot (fun q => domain_hash q =? h) (policies t) = None ->
  policy_filter h now b t = (r, t') -> r = b /\ t' = t.
Proof. intros Hn H. unfold policy_filter, find_policy in H. rewrite Hn in H. by injection H as <- <-. Qed.

(** Timestamps no two of which are further apart than the window. *)
Fixpoint gaps (last : Z) (es : list ls_event_t) : Prop :=
  match es with
  | [] => True
  | e :: es => u32 (e_timestamp_ms e - last) <= LS_DEDUP_WINDOW_MS /\ gaps (e_timestamp_ms e) es
  end.

(** The decisions on repetitions of one event, the first of which has number [n]. *)
Fixpoint repeated (n : Z) (es : list ls_event_t) (rs : list (bool * ls_event_t)) : Prop :=
  match es, rs with
  | [], [] => True
  | e :: es, (b, e') :: rs =>
      e_repeat_count e' = n /\
      (b = true <-> e_priority e <= LS_PRIORITY_CRITICAL \/ exists k, 0 <= k /\ n = 2 ^ k) /\ repeated (n + 1) es rs
  | _, _ => False
  end.

Definition same_event (f : Z) (t : policy_runtime) (e : ls_event_t) : Prop :=
  event_fingerprint e = f /\ first_slot (fun q => domain_hash q =? ls_hash_string (e_domain e)) (policies t) = None.

Lemma repeated_step f e t b e' t' n : tables_ok t -> same_event f t e -> 0 <= n < 2 ^ 32 - 1 ->
  (first_slot (fun d => d_fingerprint d =? f) (dedup t) = None /\ n = 0 \/
   exists d, dedup_at f t d /\ d_count d = n /\ u32 (e_timestamp_ms e - d_last_seen_ms d) <= LS_DEDUP_WINDOW_MS) ->
  ls_policy_apply e t = ((b, e'), t') ->
  tables_ok t' /\ policies t' = policies t /\ e_repeat_count e' = n + 1 /\
  (b = true <-> e_priority e <= LS_PRIORITY_CRITICAL \/ exists k, 0 <= k /\ n + 1 = 2 ^ k) /\
  exists d, dedup_at f t' d /\ d_count d = n + 1 /\ d_last_seen_ms d = e_timestamp_ms e.
Proof.
  intros Ht [Hf Hp] Hn Hold H. apply apply_spec in H as (d0 & t1 & Ht' & Hd0 & Hd & Hr & Hp1 & Hdec); [|done].
  rewrite Hf in *. set (d := dedup_seen _ d0) in *.
  assert (d_count d = n + 1) as Hc.
  { assert (d_count d0 = n /\ u32 (e_timestamp_ms e - d_last_seen_ms d0) <= LS_DEDUP_WINDOW_MS) as [E1 E2].
    { destruct Hold as [[Hno ->]|(d1 & Hd1 & Hc1 & Hw)], Hd0 as [[Hno' ->]|Hd0].
      - split; [done|]. cbn [d_last_seen_ms]. rewrite Z.sub_diag. vm_compute. discriminate.
      - destruct Hd0 as (i & Hi & _). congruence.
      - destruct Hd1 as (i & Hi & _). congruence.
      - destruct Hd1 as (i & Hi & Hl), Hd0 as (j & Hj & Hl'). simplify_eq. done. }
    unfold d, dedup_seen. cbn [d_count]. rewrite (proj2 (Z.ltb_ge _ _)) by done. unfold inc32, u32. rewrite E1, Z.mod_small; lia. }
  assert (is_u32 (n + 1)) as Hu by (unfold is_u32; lia).
  rewrite Hc in *. split; [done|]. destruct (e_priority e <=? LS_PRIORITY_CRITICAL) eqn:Ec; bool_prop.
  - destruct Hdec as [-> ->]. split_and!; try done; [split; [by left|done]|]. by exists d.
  - apply filter_no_policy in Hdec as [-> ->]; [|by rewrite Hp1]. split_and!; try done; [|by exists d].
    rewrite distinct_spec by done. split; [by right|]. intros [?|?]; [lia|done].
Qed.

Lemma repeated_spec f es : forall t n, tables_ok t -> Forall (same_event f t) es -> 0 <= n -> n + zlen es < 2 ^ 32 ->
  (first_slot (fun d => d_fingerprint d =? f) (dedup t) = None /\ n = 0 /\
     match es with [] => True | e :: es => gaps (e_timestamp_ms e) es end \/
   exists d, dedup_at f t d /\ d_count d = n /\ gaps (d_last_seen_ms d) es) ->
  repeated (n + 1) es (fst (apply_all es t)).
Proof.
  induction es as [|e es IH]; intros t n Ht He Hn Hz Hold; [done|]. rewrite zlen_cons in Hz. pose proof (zlen_nonneg es).
  cbn [apply_all]. destruct (ls_policy_apply e t) as [[b e'] t'] eqn:Ea. destruct (apply_all es t') as [rs t2] eqn:Er.
  apply Forall_cons in He as [He Hes].
  pose proof Ea as Hstep. apply (repeated_step f e t b e' t' n) in Hstep as (Ht' & Hp & Hr & Hb & d & Hd & Hc & Hl); try done; [|lia|].
  - cbn [fst repeated]. split; [done|]. split; [done|].
    specialize (IH t' (n + 1)). rewrite Er in IH. apply IH; try done; [|lia|lia|].
    + eapply Forall_impl; [exact Hes|]. intros x [X1 X2]. split; [done|]. by rewrite Hp.
    + right. exists d. rewrite Hl. split_and!; try done. destruct Hold as [(_ & _ & Hg)|(d1 & _ & _ & Hg)]; [done|]. by destruct Hg.
  - destruct Hold as [(H1 & H2 & _)|(d1 & H1 & H2 & Hg)]; [by left|]. right. exists d1. split_and!; try done. by destruct Hg.
Qed.

(** ** Rate limits *)

(** The events the limit of domain [h] applies to. *)
Definition limited (h : Z) (e : ls_event_t) : bool :=
  negb (e_priority e <=? LS_PRIORITY_CRITICAL) && (ls_hash_string (e_domain e) =? h).

Lemma policy_at_insert h h' l q0 i q q' : first_slot (fun q => domain_hash q =? h') l = Some i -> l !! i = Some q ->
  domain_hash q' = domain_hash q -> (exists j, first_slot (fun q => domain_hash q =? h) l = Some j /\ l !! j = Some q0) ->
  exists j, first_slot (fun q => domain_hash q =? h) (<[i := q']> l) = Some j /\
    <[i := q']> l !! j = Some (if h' =? h then q' else q0).
Proof.
  intros Hf Hi Hq (j & Hj & Hl). exists j. rewrite (first_slot_insert _ l i q) by (done || by rewrite Hq).
  split; [done|]. destruct (h' =? h) eqn:E; bool_prop.
  - subst h'. replace j with i by congruence. apply list_lookup_insert_eq. by eapply lookup_lt_Some.
  - rewrite list_lookup_insert_ne; [done|]. intros ->.
    apply first_slot_Some in Hf as (a & Ha & Ta & _), Hj as (c & Hc & Tc & _). simplify_eq. bool_prop. congruence.
Qed.

Lemma rate_step_hash now q : domain_hash (snd (rate_step now q)) = domain_hash q.
Proof. unfold rate_step. by case_if. Qed.

(** The filter advances the record of its domain and no other. *)
Lemma filter_policy h h' now b t r t' q : policy_at h t q -> policy_filter h' now b t = (r, t') ->
  if h' =? h then policy_at h t' (snd (rate_step now (count_seen q))) /\ (r = true -> fst (rate_step now (count_seen q)) = true)
  else policy_at h t' q.
Proof.
  intros Hq H. unfold policy_filter, find_policy in H.
  destruct (first_slot (fun q => domain_hash q =? h') (policies t)) as [i|] eqn:Ef; cbn [negb orb] in H.
  2: { injection H as <- <-. case_if; [|done]. bool_prop. subst. destruct Hq as (j & Hj & _). congruence. }
  pose proof Ef as (q1 & Hq1 & Hh & _)%first_slot_Some. bool_prop. cbn [mbind option_bind] in H. rewrite Hq1 in H. cbn [fmap option_fmap option_map] in H.
  destruct (rate_step now (count_seen q1)) as [passes q2] eqn:Es.
  assert (policy_at h (with_policies (<[i := q2]> (policies t)) t) (if h' =? h then q2 else q)) as Hat.
  { unfold policy_at. cbn [with_policies policies]. eapply (policy_at_insert h h'); try done.
    pose proof (rate_step_hash now (count_seen q1)) as Hx. by rewrite Es in Hx. }
  set (t2 := with_policies _ t) in *.
  assert (policies t' = policies t2 /\ (r = true -> passes = true)) as [Hp Hr].
  { unfold random_next in H. repeat (case_match; simplify_eq/=; try done); by destruct passes. }
  unfold policy_at in *. rewrite Hp. destruct (h' =? h) eqn:E; [|done]. apply Z.eqb_eq in E. rewrite E in Ef.
  destruct Hq as (j & Hj & Hl). assert (q1 = q) as -> by congruence. rewrite Es. done.
Qed.

Lemma apply_policy h e t b e' t' q : tables_ok t -> policy_at h t q -> ls_policy_apply e t = ((b, e'), t') ->
  tables_ok t' /\
  if limited h e then policy_at h t' (snd (rate_step (e_timestamp_ms e) (count_seen q))) /\
    (b = true -> fst (rate_step (e_timestamp_ms e) (count_seen q)) = true)
  else policy_at h t' q.
Proof.
  intros Ht Hq H. apply apply_spec in H as (d0 & t1 & Ht' & _ & _ & _ & Hp & H); [|done]. split; [done|].
  assert (policy_at h t1 q) as Hq1 by (unfold policy_at in *; by rewrite Hp). unfold limited.
  destruct (e_priority e <=? LS_PRIORITY_CRITICAL); cbn [negb andb]; [by destruct H as [_ ->]|].
  by eapply filter_policy in H.
Qed.

(** The number of events the limit applies to that are kept. *)
Fixpoint passed (h : Z) (es : list ls_event_t) (rs : list (bool * ls_event_t)) : Z :=
  match es, rs with
  | e :: es, (b, _) :: rs => (if limited h e && b then 1 else 0) + passed h es rs
  | _, _ => 0
  end.

(** A record with an active limit. *)
Definition rate_ok (m period : Z) (q : ls_policy_record_t) : Prop :=
  rate_maximum q = m /\ 0 < m <= UINT16_MAX /\ rate_period_ms q = period /\ 0 <= rate_count q <= m.

(** One event: in an open window it uses up one permit, or else it opens a window. *)
Lemma rate_step_spec m period now q : rate_ok m period q ->
  let q' := snd (rate_step now (count_seen q)) in
  rate_ok m period q' /\
  (if period <=? u32 (now - window_started_ms q)
   then window_started_ms q' = now /\ rate_count q' = 1 /\ fst (rate_step now (count_seen q)) = true
   else window_started_ms q' = window_started_ms q /\
        rate_count q' = rate_count q + if fst (rate_step now (count_seen q)) then 1 else 0).
Proof.
  intros (Hm & Hm0 & Hp & Hc). unfold rate_step, rate_ok, u16. cbn [count_seen rate_maximum rate_count rate_period_ms window_started_ms].
  rewrite Hm, Hp. rewrite (proj2 (Z.eqb_neq m 0)) by lia. cbn [fst snd rate_maximum rate_count rate_period_ms window_started_ms].
  unfold UINT16_MAX in *. destruct (period <=? u32 _); [|destruct (m <=? rate_count q) eqn:E; bool_prop];
    rewrite ?(proj2 (Z.leb_gt m 0)) by lia; cbn [negb]; rewrite ?Z.mod_small by lia; lia.
Qed.

(** Events at most [period] after [a], in order of time. *)
Fixpoint in_order (a d0 period : Z) (es : list ls_event_t) (ds : list Z) : Prop :=
  match es, ds with
  | [], [] => True
  | e :: es, d :: ds => e_timestamp_ms e = u32 (a + d) /\ d0 <= d < period /\ in_order a d period es ds
  | _, _ => False
  end.

Lemma in_order_wider a period period' es : period <= period' -> forall d0 ds,
  in_order a d0 period es ds -> in_order a d0 period' es ds.
Proof.
  intros Hp. induction es as [|x es IH]; intros d0 [|y ds] Ho; try done.
  cbn [in_order] in *. destruct Ho as (? & ? & Ho). split_and!; try (done || lia). by apply IH.
Qed.

(** While one window is open. *)
Lemma passed_window h m period a es : forall ds d0 w t q, 0 <= w <= d0 -> period <= 2 ^ 32 ->
  tables_ok t -> policy_at h t q -> rate_ok m period q -> window_started_ms q = u32 (a + w) -> in_order a d0 (w + period) es ds ->
  passed h es (fst (apply_all es t)) <= m - rate_count q.
Proof.
  induction es as [|e es IH]; intros ds d0 w t q Hw Hp Ht Hq Hr Hs Ho;
    [destruct Hr as (? & ? & ? & ?); cbn [apply_all passed fst]; lia|].
  destruct ds as [|d ds]; [done|]. destruct Ho as (He & Hd & Ho). cbn [apply_all].
  destruct (ls_policy_apply e t) as [[b e'] t'] eqn:Ea. destruct (apply_all es t') as [rs t2] eqn:Er. cbn [fst passed].
  apply (apply_policy h) with (q := q) in Ea as [Ht' Hq']; [|done..].
  destruct (limited h e); cbn [andb]; [|replace rs with (fst (apply_all es t')) by (by rewrite Er); rewrite Z.add_0_l; eapply (IH ds d w); eauto; lia].
  destruct Hq' as [Hq' Hb]. destruct (rate_step_spec m period (e_timestamp_ms e) q Hr) as [Hr' Hst].
  rewrite (proj2 (Z.leb_gt period _)) in Hst.
  2: { rewrite He, Hs. unfold u32. rewrite <- Zminus_mod. replace (a + d - (a + w)) with (d - w) by lia. rewrite Z.mod_small; lia. }
  destruct Hst as [Hw' Hc']. assert (passed h es rs <= m - rate_count (snd (rate_step (e_timestamp_ms e) (count_seen q)))) as Hle.
  { replace rs with (fst (apply_all es t')) by (by rewrite Er). eapply (IH ds d w); eauto; [lia|congruence]. }
  destruct (fst (rate_step _ _)), b; lia || by specialize (Hb eq_refl).
Qed.

(** At most one new window is opened in one period. *)
Lemma passed_period h m period a es : forall ds d0 t q, 0 <= d0 -> period <= 2 ^ 32 ->
  tables_ok t -> policy_at h t q -> rate_ok m period q -> in_order a d0 period es ds ->
  passed h es (fst (apply_all es t)) <= (m - rate_count q) + m.
Proof.
  induction es as [|e es IH]; intros ds d0 t q Hw Hp Ht Hq Hr Ho; [destruct Hr as (? & ? & ? & ?); cbn [apply_all passed fst]; lia|].
  destruct ds as [|d ds]; [done|]. destruct Ho as (He & Hd & Ho). cbn [apply_all].
  destruct (ls_policy_apply e t) as [[b e'] t'] eqn:Ea. destruct (apply_all es t') as [rs t2] eqn:Er. cbn [fst passed].
  apply (apply_policy h) with (q := q) in Ea as [Ht' Hq']; [|done..].
  destruct (limited h e); cbn [andb]; [|replace rs with (fst (apply_all es t')) by (by rewrite Er); rewrite Z.add_0_l; eapply (IH ds d); eauto; lia].
  destruct Hq' as [Hq' Hb]. destruct (rate_step_spec m period (e_timestamp_ms e) q Hr) as [Hr' Hst].
  set (q' := snd (rate_step (e_timestamp_ms e) (count_seen q))) in *. pose proof Hr as (_ & _ & _ & Hc).
  destruct (period <=? u32 _).
  - destruct Hst as (Hw' & Hc' & _). assert (passed h es rs <= m - rate_count q') as Hle.
    { replace rs with (fst (apply_all es t')) by (by rewrite Er). eapply (passed_window h m period a es ds d d); try done; [lia|congruence|].
      eapply in_order_wider; [|done]. lia. }
    destruct b; lia.
  - destruct Hst as [Hw' Hc']. assert (passed h es rs <= m - rate_count q' + m) as Hle.
    { replace rs with (fst (apply_all es t')) by (by rewrite Er). eapply (IH ds d); eauto; lia. }
    destruct (fst (rate_step _ _)), b; lia || by specialize (Hb eq_refl).
Qed.

(** The limit stays in force over any events. *)
Lemma apply_all_policy h m period es : forall t q, tables_ok t -> policy_at h t q -> rate_ok m period q ->
  exists q', tables_ok (snd (apply_all es t)) /\ policy_at h (snd (apply_all es t)) q' /\ rate_ok m period q'.
Proof.
  induction es as [|e es IH]; intros t q Ht Hq Hr; [by exists q|]. cbn [apply_all].
  destruct (ls_policy_apply e t) as [[b e'] t'] eqn:Ea. destruct (apply_all es t') as [rs t2] eqn:Er.
  apply (apply_policy h) with (q := q) in Ea as [Ht' Hq']; [|done..].
  assert (exists q', policy_at h t' q' /\ rate_ok m period q') as (q' & Hq1 & Hr1).
  { destruct (limited h e); [|by exists q]. destruct Hq' as [Hq' _]. eexists. split; [done|]. by apply rate_step_spec. }
  replace t2 with (snd (apply_all es t')) by (by rewrite Er). by apply (IH t' q').
Qed.

(** ** Configuration *)

(** Both setters change the record of the domain, which they create if needed. *)
Lemma configure_at g h t i t' : (forall q, domain_hash (g q) = domain_hash q) -> find_policy h true t = (Some i, t') ->
  dedup t' = dedup t /\ dedup_next t' = dedup_next t /\
  exists q, policy_at h (with_policies (alter g i (policies t')) t') (g q) /\ (policy_at h t q \/ q = fresh_policy h).
Proof.
  intros Hg H.
  assert (dedup t' = dedup t /\ dedup_next t' = dedup_next t /\ exists q,
    first_slot (fun q => domain_hash q =? h) (policies t') = Some i /\ policies t' !! i = Some q /\
    (policy_at h t q \/ q = fresh_policy h)) as (H1 & H2 & q & Hf & Hi & Hq).
  { unfold find_policy in H. destruct (first_slot _ (policies t)) as [j|] eqn:Ef.
    - injection H as <- <-. split; [done|]. split; [done|]. pose proof Ef as (q & Hq & _)%first_slot_Some.
      exists q. split_and!; try done. left. by exists j.
    - destruct (_ || _); [done|]. injection H as <- <-. split; [done|]. split; [done|]. exists (fresh_policy h).
      cbn [with_policies policies].
      assert ((policies t ++ [fresh_policy h]) !! length (policies t) = Some (fresh_policy h)) as Hl
        by (by rewrite lookup_app_r, Nat.sub_diag).
      split; [|split; [done|by right]]. eapply first_slot_here; [done|apply Z.eqb_refl|].
      intros j b Hj Hb. rewrite lookup_app_l in Hb by done. apply (first_slot_None _ _ Ef j b Hb). }
  split; [done|]. split; [done|]. exists q. split; [|done]. exists i.
  change (policies (with_policies (alter g i (policies t')) t')) with (alter g i (policies t')).
  rewrite first_slot_alter by (intros a; by rewrite Hg). by rewrite list_lookup_alter_eq, Hi.
Qed.

Lemma rate_limit_set_ok domain m period now t t' : ls_rate_limit_set (Some domain) m period now t = (LS_OK, t') ->
  0 <= m <= UINT16_MAX -> is_u32 period ->
  (tables_ok t -> tables_ok t') /\
  exists q, policy_at (ls_hash_string (Some domain)) t' q /\ rate_ok m period q /\ rate_count q = 0 /\ window_started_ms q = now.
Proof.
  unfold ls_rate_limit_set. cbn [is_set negb orb]. destruct (_ || _) eqn:Ez; [done|]. bool_prop.
  destruct (find_policy _ true t) as [[i|] t1] eqn:Ef; [|done]. intros [= <-] Hm Hp.
  apply (configure_at (set_rate m period now)) in Ef as (H1 & H2 & q & Hq & _); [|done].
  split; [unfold tables_ok; cbn [with_policies dedup dedup_next]; rewrite H1, H2; tauto|].
  eexists. split; [exact Hq|]. unfold rate_ok. cbn [set_rate rate_maximum rate_count rate_period_ms window_started_ms].
  rewrite u32_id by done. split_and!; (done || lia).
Qed.

(** ** Probabilities *)

(** The value of a [float] with a clear sign is [float_num bits / 2^150]. *)
Definition float_num (bits : Z) : Z :=
  let m := bits mod 2 ^ 31 in
  let e := m / 2 ^ 23 in
  let f := m mod 2 ^ 23 in
  if e =? 0 then 2 * f else (2 ^ 23 + f) * 2 ^ e.

(** A negative number, zero excepted. *)
Definition float_negative (bits : Z) : Prop := 2 ^ 31 <= bits /\ bits mod 2 ^ 31 <> 0.

(** The code's bound on the representation is the bound 1 on the value. *)
Lemma float_le_one bits : is_u32 bits -> bits mod 2 ^ 31 <= 0x3f800000 <-> float_num bits <= 2 ^ 150.
Proof.
  intros Hb. unfold float_num. set (m := bits mod 2 ^ 31). assert (0 <= m < 2 ^ 31) as Hm by (apply Z.mod_pos_bound; lia).
  pose proof (Z.div_mod m (2 ^ 23) ltac:(lia)) as Hdm. pose proof (Z.mod_pos_bound m (2 ^ 23) ltac:(lia)) as Hf.
  set (e := m / 2 ^ 23) in *. set (f := m mod 2 ^ 23) in *.
  destruct (e =? 0) eqn:E0; bool_prop; [lia|]. assert (1 <= e) as He by lia.
  destruct (Z.lt_trichotomy e 127) as [Hl|[He1|Hl]].
  - assert (2 ^ e <= 2 ^ 126) by (apply Z.pow_le_mono_r; lia). split; intros _; [nia|lia].
  - rewrite He1 in *. lia.
  - assert (2 ^ 128 <= 2 ^ e) by (apply Z.pow_le_mono_r; lia). split; intros H'; [lia|nia].
Qed.

(** Rounding of [10000 * mantissa / 2^s] to the nearest integer. *)
Lemma round_nearest mantissa s : 0 <= mantissa < 2 ^ 24 -> mantissa <= 2 ^ s -> 1 <= s ->
  let k := if 64 <=? s then 0 else (mantissa * 10000 + 2 ^ (s - 1)) / 2 ^ s in
  0 <= k <= 10000 /\ 2 * Z.abs (k * 2 ^ s - 10000 * mantissa) <= 2 ^ s.
Proof.
  intros Hm Hms Hs k. assert (2 ^ s = 2 * 2 ^ (s - 1)) as H2 by (rewrite <- Z.pow_succ_r by lia; f_equal; lia).
  unfold k. destruct (64 <=? s) eqn:E; bool_prop.
  - split; [lia|]. assert (2 ^ 63 <= 2 ^ (s - 1)) by (apply Z.pow_le_mono_r; lia). lia.
  - set (h := 2 ^ (s - 1)) in *. rewrite H2 in *.
    assert (0 < h) as Hh by (apply Z.pow_pos_nonneg; lia). set (n := mantissa * 10000 + h).
    pose proof (Z.div_mod n (2 * h) ltac:(lia)). pose proof (Z.mod_pos_bound n (2 * h) ltac:(lia)).
    set (d := n / (2 * h)) in *. unfold n in *. split; [nia|lia].
Qed.

Lemma shiftr31 bits : is_u32 bits -> (Z.shiftr bits 31 =? 0) = (bits <? 2 ^ 31).
Proof.
  intros Hb. unfold is_u32 in Hb. rewrite Z.shiftr_div_pow2 by lia. destruct (bits <? 2 ^ 31) eqn:E; bool_prop.
  - apply Z.eqb_eq, Z.div_small. lia.
  - apply Z.eqb_neq. intros H. apply Z.div_small_iff in H; lia.
Qed.

(** What [ls_sampling_set] passes on for a normal number. *)
Lemma sampling_set_normal domain bits t : is_u32 bits -> ~ float_negative bits -> float_num bits <= 2 ^ 150 ->
  bits mod 2 ^ 31 <> 0 -> bits mod 2 ^ 31 / 2 ^ 23 <> 0 ->
  let mantissa := 2 ^ 23 + bits mod 2 ^ 31 mod 2 ^ 23 in
  let s := 150 - bits mod 2 ^ 31 / 2 ^ 23 in
  1 <= s < 150 /\ mantissa <= 2 ^ s /\
  ls_sampling_set domain bits t =
  ls_sampling_set_permyriad domain (if 64 <=? s then 0 else (mantissa * 10000 + 2 ^ (s - 1)) / 2 ^ s) t.
Proof.
  intros Hb Hn Hle Hm Hx mantissa s. apply float_le_one in Hle as Hmag; [|done].
  unfold float_num in Hle. rewrite (proj2 (Z.eqb_neq _ _) Hx) in Hle. fold mantissa in Hle.
  set (m := bits mod 2 ^ 31) in *. assert (0 <= m) as Hm0 by (apply Z.mod_pos_bound; lia).
  pose proof (Z.mod_pos_bound m (2 ^ 23) ltac:(lia)) as Hf. pose proof (Z.div_mod m (2 ^ 23) ltac:(lia)) as Hdm.
  assert (1 <= m / 2 ^ 23 <= 127) as He by lia. assert (23 <= s <= 149) as Hs by (unfold s; lia).
  assert (mantissa <= 2 ^ s) as Hms.
  { apply (Z.mul_le_mono_pos_r _ _ (2 ^ (m / 2 ^ 23))); [apply Z.pow_pos_nonneg; lia|].
    rewrite <- Z.pow_add_r by lia. replace (s + m / 2 ^ 23) with 150 by (unfold s; lia). done. }
  split; [lia|]. split; [done|]. assert (0 <= mantissa < 2 ^ 24) as Hmant by (unfold mantissa; lia).
  destruct (round_nearest mantissa s Hmant Hms ltac:(lia)) as [Hk _].
  unfold ls_sampling_set. replace (Z.land bits 0x7fffffff) with m by (unfold m; by rewrite <- Z.land_ones by lia).
  rewrite shiftr31 by done. replace (negb (bits <? 2 ^ 31) && negb (m =? 0)) with false.
  2: { symmetry. apply andb_false_iff. left. apply negb_false_iff, Z.ltb_lt. destruct (Z.lt_ge_cases bits (2 ^ 31)); [done|].
       exfalso. by apply Hn. }
  rewrite (proj2 (Z.ltb_ge 0x3f800000 m)), (proj2 (Z.eqb_neq m 0)) by done. cbn [orb].
  rewrite Z.shiftr_div_pow2, (proj2 (Z.eqb_neq _ _) Hx) by lia.
  replace (Z.lor (Z.land m 0x7fffff) 0x800000) with mantissa.
  2: { change 0x7fffff with (Z.ones 23). change 0x800000 with (Z.shiftl 1 23). rewrite Z.land_ones, lor_shiftl_add by lia. unfold mantissa. lia. }
  cbv zeta. fold s. rewrite (u32_id s) by (unfold is_u32; lia).
  rewrite (u64_id (mantissa * 10000)) by (unfold is_u64; lia). destruct (64 <=? s) eqn:Es; bool_prop; [done|].
  rewrite Z.shiftl_1_l. assert (0 < 2 ^ (s - 1) <= 2 ^ 62) as Hp by (split; [apply Z.pow_pos_nonneg; lia|apply Z.pow_le_mono_r; lia]).
  rewrite u64_id by (unfold is_u64; lia). rewrite Z.shiftr_div_pow2 by lia.
  rewrite u32_id by (unfold is_u32; lia). by rewrite u16_id by (unfold is_u16; lia).
Qed.

Lemma sampling_refused domain bits t : is_u32 bits -> float_negative bits \/ 2 ^ 150 < float_num bits ->
  ls_sampling_set domain bits t = (LS_EINVAL, t).
Proof.
  intros Hb H. unfold ls_sampling_set. change 0x7fffffff with (Z.ones 31). rewrite Z.land_ones by lia. rewrite shiftr31 by done.
  destruct H as [[H1 H2]|H].
  - by rewrite (proj2 (Z.ltb_ge bits (2 ^ 31))), (proj2 (Z.eqb_neq _ 0)).
  - assert (~ bits mod 2 ^ 31 <= 0x3f800000) as Hg by (rewrite float_le_one by done; lia).
    rewrite (proj2 (Z.ltb_lt 0x3f800000 _)) by lia. by rewrite orb_true_r.
Qed.

Lemma sampling_accepted domain bits t : is_u32 bits -> ~ float_negative bits -> float_num bits <= 2 ^ 150 ->
  exists k, 0 <= k <= 10000 /\ 2 * Z.abs (k * 2 ^ 150 - 10000 * float_num bits) <= 2 ^ 150 /\
    ls_sampling_set domain bits t = ls_sampling_set_permyriad domain k t.
Proof.
  intros Hb Hn Hle. set (m := bits mod 2 ^ 31). set (e := m / 2 ^ 23).
  assert (0 <= m) as Hm0 by (apply Z.mod_pos_bound; lia). pose proof (Z.mod_pos_bound m (2 ^ 23) ltac:(lia)) as Hf.
  destruct (decide (m = 0 \/ e = 0)) as [Hz|Hz].
  - exists 0. assert (e = 0) as He by (destruct Hz as [Hz|Hz]; [unfold e; by rewrite Hz|done]).
    assert (float_num bits = 2 * (m mod 2 ^ 23)) as Hnum by (unfold float_num; fold m e; by rewrite He).
    split; [lia|]. split; [rewrite Hnum; lia|]. apply float_le_one in Hle as Hmag; [|done].
    unfold ls_sampling_set. change 0x7fffffff with (Z.ones 31). rewrite Z.land_ones by lia. rewrite shiftr31 by done. fold m. fold m in Hmag.
    replace (negb (bits <? 2 ^ 31) && negb (m =? 0)) with false.
    2: { symmetry. apply andb_false_iff. destruct (Z.lt_ge_cases bits (2 ^ 31)); [left; apply negb_false_iff, Z.ltb_lt; done|].
         right. apply negb_false_iff, Z.eqb_eq. destruct (Z.eq_dec m 0); [done|]. exfalso. by apply Hn. }
    rewrite (proj2 (Z.ltb_ge 0x3f800000 m)) by done. cbn [orb]. destruct (m =? 0); [done|].
    rewrite Z.shiftr_div_pow2 by lia. fold e. by rewrite He.
  - assert (m <> 0 /\ e <> 0) as [Hz1 Hz2] by tauto.
    destruct (sampling_set_normal domain bits t Hb Hn Hle Hz1 Hz2) as (Hs & Hms & Hset). fold m e in Hs, Hms, Hset.
    eexists. split; [|split; [|exact Hset]]; destruct (round_nearest (2 ^ 23 + m mod 2 ^ 23) (150 - e)) as [Hk Hr];
      try lia; try done.
    unfold float_num. fold m e. rewrite (proj2 (Z.eqb_neq e 0) Hz2).
    assert (0 <= e) as He by (apply Z.div_pos; lia). assert (0 < 2 ^ e) as Hpe by (by apply Z.pow_pos_nonneg).
    replace (2 ^ 150) with (2 ^ (150 - e) * 2 ^ e) by (rewrite <- Z.pow_add_r by lia; f_equal; lia).
    set (k := if 64 <=? 150 - e then 0 else _) in *.
    replace (k * (2 ^ (150 - e) * 2 ^ e) - 10000 * ((2 ^ 23 + m mod 2 ^ 23) * 2 ^ e))
      with ((k * 2 ^ (150 - e) - 10000 * (2 ^ 23 + m mod 2 ^ 23)) * 2 ^ e) by ring.
    rewrite Z.abs_mul, (Z.abs_eq (2 ^ e)) by lia. rewrite Z.mul_assoc. apply Z.mul_le_mono_nonneg_r; lia.
Qed.

Lemma set_permyriad_spec domain k t r t' : 0 <= k <= 10000 -> ls_sampling_set_permyriad (Some domain) k t = (r, t') ->
  (r = LS_ENOSPACE /\ t' = t) \/
  (r = LS_OK /\ exists q, policy_at (ls_hash_string (Some domain)) t' q /\ sampling_permyriad q = k).
Proof.
  intros Hk. unfold ls_sampling_set_permyriad. cbn [is_set negb orb]. rewrite (proj2 (Z.ltb_ge 10000 k)) by lia.
  destruct (find_policy _ true t) as [[i|] t1] eqn:Ef; intros [= <- <-].
  - right. apply (configure_at (set_sampling k)) in Ef as (_ & _ & q & Hq & _); [|done]. split; [done|]. by exists (set_sampling k q).
  - left. split; [done|]. unfold find_policy in Ef. repeat (case_match; simplify_eq/=; try done).
Qed.

(** ** Theorems *)

(** Repetitions are thinned, critical events are not.  In a sequence of events of one
    fingerprint that is not in the table yet, no two more than the window apart and none
    in a domain with a policy, the [n]-th is reported as repetition [n], and it is kept
    exactly if it is critical or [n] is a power of two. *)
Theorem policy_thins_repeats (f : Z) (es : list ls_event_t) (t : policy_runtime) :
  tables_ok t -> Forall (same_event f t) es -> zlen es < 2 ^ 32 ->
  first_slot (fun d => d_fingerprint d =? f) (dedup t) = None ->
  match es with [] => True | e :: es => gaps (e_timestamp_ms e) es end ->
  repeated 1 es (fst (apply_all es t)).
Proof. intros Ht Hes Hz Hn Hg. apply (repeated_spec f es t 0); try done. by left. Qed.

(** C36: the rate limit.  Once a limit of [m] events per period is set for a domain,
    whatever events follow, of whatever domains, at most [m] of the domain's
    events that are not critical are kept in the first period, and at most [2 * m] in
    any later interval of that length, across the wrap of the clock. *)
Theorem policy_rate_limited domain m period now t t' before after es a ds ds' :
  ls_rate_limit_set (Some domain) m period now t = (LS_OK, t') -> tables_ok t -> 0 <= m <= UINT16_MAX -> is_u32 period ->
  is_u32 now ->
  let h := ls_hash_string (Some domain) in
  in_order now 0 period es ds -> in_order a 0 period after ds' ->
  passed h es (fst (apply_all es t')) <= m /\
  passed h after (fst (apply_all after (snd (apply_all before t')))) <= 2 * m.
Proof.
  intros H Ht Hm Hp Hnow h H1 H2. apply rate_limit_set_ok in H as (Ht' & q & Hq & Hr & Hc & Hw); [|done..].
  specialize (Ht' Ht). unfold is_u32 in Hp. split.
  - replace m with (m - rate_count q) by lia. eapply (passed_window h m period now es ds 0 0); try done; [lia..|].
    rewrite Z.add_0_r, Hw. symmetry. by apply u32_id.
  - destruct (apply_all_policy h m period before t' q) as (q' & Ht2 & Hq2 & Hr2); [done..|].
    pose proof Hr2 as (_ & _ & _ & ?).
    transitivity (m - rate_count q' + m); [|lia]. eapply (passed_period h m period a after ds' 0); try done; lia.
Qed.

(** Sampling probabilities.  A negative probability, one above 1, an infinity or
    a NaN is refused and changes nothing; any other is stored as the nearest multiple
    of a ten-thousandth, computed without floating point. *)
Theorem sampling_rounds_to_nearest domain bits t : is_u32 bits ->
  (float_negative bits \/ 2 ^ 150 < float_num bits -> ls_sampling_set (Some domain) bits t = (LS_EINVAL, t)) /\
  (~ float_negative bits -> float_num bits <= 2 ^ 150 ->
   exists k, 0 <= k <= 10000 /\ 2 * Z.abs (k * 2 ^ 150 - 10000 * float_num bits) <= 2 ^ 150 /\
     forall r t', ls_sampling_set (Some domain) bits t = (r, t') ->
       (r = LS_ENOSPACE /\ t' = t) \/
       (r = LS_OK /\ exists q, policy_at (ls_hash_string (Some domain)) t' q /\ sampling_permyriad q = k)).
Proof.
  intros Hb. split; [apply sampling_refused; done|]. intros Hn Hle.
  destruct (sampling_accepted (Some domain) bits t Hb Hn Hle) as (k & Hk & Hd & Hs). exists k. split; [done|]. split; [done|].
  intros r t' H. rewrite Hs in H. by apply set_permyriad_spec in H.
Qed.

(** An error without a policy, five times within a second. *)
Definition demo_event (domain : list Z) (time : Z) : ls_event_t :=
  {| e_priority := 2; e_timestamp_ms := time; e_fingerprint := time + 1; e_domain := Some domain; e_code := 0;
     e_message := None; e_repeat_count := 0; e_first_seen_ms := 0; e_last_seen_ms := 0 |}.

Definition demo_repeat (time : Z) : ls_event_t :=
  {| e_priority := 2; e_timestamp_ms := time; e_fingerprint := 77; e_domain := Some [1]; e_code := 0;
     e_message := None; e_repeat_count := 0; e_first_seen_ms := 0; e_last_seen_ms := 0 |}.

Definition demo_tables : policy_runtime := {| policies := []; dedup := []; dedup_next := 0; random_state := 1 |}.

Lemma demo_tables_ok : tables_ok demo_tables.
Proof. by vm_compute. Qed.

Lemma policy_thins_repeats_witness :
  let es := map demo_repeat [10; 20; 30; 40; 50] in
  repeated 1 es (fst (apply_all es demo_tables)) /\
  map fst (fst (apply_all es demo_tables)) = [true; true; false; true; false].
Proof.
  intros es. split; [|vm_compute; reflexivity].
  apply (policy_thins_repeats 77 es demo_tables demo_tables_ok).
  - repeat (apply List.Forall_cons; [split; reflexivity|]). apply List.Forall_nil.
  - vm_compute. reflexivity.
  - reflexivity.
  - vm_compute. repeat split; discriminate.
Defined.

(** Two per second, the clock about to wrap. *)
Lemma policy_rate_limited_witness :
  let now := 2 ^ 32 - 5 in
  let t' := snd (ls_rate_limit_set (Some [1]) 2 1000 now demo_tables) in
  let ds := [0; 6; 7; 8] in
  let es := map (fun d => demo_event [1] (u32 (now + d))) ds in
  passed (ls_hash_string (Some [1])) es (fst (apply_all es t')) <= 2 /\
  map fst (fst (apply_all es t')) = [true; true; false; false].
Proof.
  intros now t' ds es. split; [|vm_compute; reflexivity].
  apply (policy_rate_limited [1] 2 1000 now demo_tables t' [] [] es 0 ds []).
  - vm_compute. reflexivity.
  - exact demo_tables_ok.
  - vm_compute. split; discriminate.
  - vm_compute. split; [discriminate|reflexivity].
  - vm_compute. split; [discriminate|reflexivity].
  - vm_compute. repeat split; discriminate.
  - exact I.
Defined.

(** 0.1f is stored as 1000. *)
Lemma sampling_rounds_to_nearest_witness :
  exists k, 2 * Z.abs (k * 2 ^ 150 - 10000 * float_num 0x3dcccccd) <= 2 ^ 150 /\
    exists q, policy_at (ls_hash_string (Some [1])) (snd (ls_sampling_set (Some [1]) 0x3dcccccd demo_tables)) q /\
      sampling_permyriad q = k.
Proof.
  destruct (sampling_rounds_to_nearest [1] 0x3dcccccd demo_tables) as [_ H].
  - vm_compute. split; [discriminate|reflexivity].
  - destruct H as (k & _ & Hk & H).
    + intros [H _]. vm_compute in H. apply H. reflexivity.
    + vm_compute. discriminate.
    + exists k. split; [exact Hk|].
      destruct (H _ _ (surjective_pairing (ls_sampling_set (Some [1]) 0x3dcccccd demo_tables))) as [[Hr _]|[_ Hq]].
      * vm_compute in Hr. discriminate Hr.
      * exact Hq.
Defined.
