(* ===== verification/Encode.v ===== *)
(** * The envelope encoder ([src/envelope/lep.c])

    Every section an event carries, in the order the encoder writes them: each is built
    in a bounded buffer of its own and appended as one TLV, or left out, with the
    envelope marked truncated, when it does not fit. *)

From S2P Require Import Prelude Util Poly1305 Chacha Sha256 Aead Envelope Security FaultInjection Storage FlashLayer Transport Spool Boot Provisioning Blackbox Telemetry Services Policy.

Definition LS_TLV_IDENTITY : Z := 1.
Definition LS_TLV_RESET : Z := 2.
Definition LS_TLV_EVENT : Z := 3.
Definition LS_TLV_CPU : Z := 4.
Definition LS_TLV_FAULT : Z := 5.
Definition LS_TLV_BREADCRUMB : Z := 6.
Definition LS_TLV_METRIC : Z := 7.
Definition LS_TLV_POWER : Z := 8.
Definition LS_TLV_HEALTH : Z := 9.
Definition LS_TLV_ASSERT : Z := 10.
Definition LS_TLV_PERIPHERAL : Z := 11.
Definition LS_TLV_LOG : Z := 12.
Definition LS_TLV_MEMORY : Z := 13.
Definition LS_TLV_STACK : Z := 14.
Definition LS_TLV_HEAP : Z := 15.
Definition LS_TLV_CPU64 : Z := 16.
Definition LS_TLV_BLACKBOX : Z := 17.
Definition LS_TLV_MISSION : Z := 18.
Definition LS_TLV_TIME_SYNC : Z := 19.
Definition LS_TLV_PROVISIONING : Z := 20.
Definition LS_TLV_SUPERVISOR : Z := 21.
Definition LS_TLV_ENVIRONMENT : Z := 22.
Definition LS_TLV_POWERFAIL_SEAL : Z := 23.
Definition LS_ARCH_RISCV64 : Z := 5.
Definition LS_BLACKBOX_ENVELOPE_MAX : Z := 24.
Definition LS_BLACKBOX_SENSITIVE : Z := 4.
Definition LS_DUMP_REGION_MAX_BYTES : Z := 512.
Definition LS_STACK_SNAPSHOT_MAX : Z := 256.
Definition LS_CAPTURE_STACK : Z := 2.
Definition LS_CAPTURE_SELECTIVE : Z := 3.
Definition LS_POWERFAIL_PVD : Z := 3.
Definition LS_LEP_CURRENT_VERSION : Z := 1.

(** ** What an event carries *)

Record ls_arch_context_t : Type := {
  ac_architecture : Z;
  ac_fault : Z;
  ac_registers : list Z;           (* registers[32] *)
  ac_lr : Z; ac_pc : Z; ac_xpsr : Z; ac_msp : Z; ac_psp : Z; ac_control : Z; ac_primask : Z; ac_basepri : Z;
  ac_faultmask : Z; ac_exc_return : Z;
  ac_cfsr : Z; ac_hfsr : Z; ac_dfsr : Z; ac_afsr : Z; ac_mmfar : Z; ac_bfar : Z; ac_shcsr : Z; ac_icsr : Z;
  ac_vtor : Z; ac_sfsr : Z; ac_sfar : Z;
  ac_s : list Z;                   (* s[16] *)
  ac_fpscr : Z;
  ac_mcause : Z; ac_mtval : Z; ac_mstatus : Z; ac_mepc : Z;
  ac_exccause : Z; ac_excvaddr : Z; ac_ps : Z; ac_sar : Z;
  ac_fault_address : Z;
  ac_signal_number : Z;
  ac_has_fpu : bool;
  ac_fpu_lazy : bool
}.

Record ls_riscv64_context_t : Type := { rv_x : list Z; rv_mstatus : Z; rv_mcause : Z; rv_mtval : Z; rv_mepc : Z }.
Record ls_assert_info_t : Type := { as_expression : option (list Z); as_file : option (list Z); as_message : option (list Z); as_line : Z }.
Record ls_log_info_t : Type := { lg_message_id : Z; lg_format_id : Z; lg_argument_count : Z; lg_arguments : list Z }.
Record ls_peripheral_fault_t : Type := {
  pf_domain : Z; pf_fault : Z; pf_instance : Z; pf_status : Z; pf_address : Z; pf_reg : Z; pf_timeout_ms : Z; pf_auxiliary : list Z
}.

(** [ls_event_t]: the fields the policies use are those of [Policy]. *)
Record lep_event : Type := {
  le_base : ls_event_t;
  le_type : Z;
  le_severity : Z;
  le_cpu : option ls_arch_context_t;
  le_riscv64 : option ls_riscv64_context_t;
  le_assertion : option ls_assert_info_t;
  le_peripheral : option ls_peripheral_fault_t;
  le_log : option ls_log_info_t;
  le_capture_level : Z
}.

Record ls_identity_t : Type := {
  id_project_id : option (list Z); id_device_id : option (list Z); id_product : option (list Z);
  id_hardware_revision : option (list Z); id_bom_revision : option (list Z); id_manufacturing_batch : option (list Z);
  id_firmware_version : option (list Z); id_firmware_build_id : option (list Z); id_bootloader_version : option (list Z);
  id_git_commit : option (list Z); id_variant : option (list Z); id_architecture : option (list Z);
  id_rtos : option (list Z); id_region : option (list Z); id_device_group : option (list Z)
}.

Record ls_powerfail_seal_info_t : Type := {
  pi_reason : Z; pi_tier : Z; pi_vcap_mv : Z; pi_boot_id : Z; pi_fault : Z; pi_sealed_ok : bool
}.

(** What the encoder reads of [ls_runtime] and around it. [env_now] is [ls_uptime_ms()];
    [env_read] is the device's memory. *)
Record encode_env : Type := {
  env_identity : ls_identity_t;
  env_config_rtos : option (list Z);
  env_config_region : option (list Z);
  env_config_device_group : option (list Z);
  env_config_architecture : Z;
  env_build_id : list Z;
  env_reset_reason : Z;
  env_raw_reason : Z;
  env_boot_count : Z;
  env_previous_uptime_ms : Z;
  env_reset_expected : bool;
  env_previous_crashed : bool;
  env_boot_loop : bool;
  env_services : services;
  env_provisioning : ls_provisioning_state_t;
  env_powerfail : option ls_powerfail_seal_info_t;  (* [None]: not [powerfail_last_valid] *)
  env_now : Z;
  env_read : Z -> Z -> list Z
}.

(** ** The writer and the truncation mark *)

Definition enc : Type := ls_writer_t * bool.

Definition on_writer (m : st ls_writer_t ls_result_t) : st enc ls_result_t := fun e =>
  let '(r, w) := m (fst e) in (r, (w, snd e)).

Definition mark_truncated (e : enc) : enc := (fst e, true).

Definition writer_remaining (w : ls_writer_t) : Z :=
  if w_capacity w <? w_length w then 0 else w_capacity w - w_length w.

Definition string_value_capacity (w : ls_writer_t) : Z :=
  let remaining := writer_remaining w in if remaining >? 2 then remaining - 2 else 0.

(** A null [text] has length zero, for which [ls_writer_write] accepts it. *)
Definition put_string_field (field : Z) (text : option (list Z)) (value_limit : Z) : st enc ls_result_t := fun e =>
  let length := ls_string_length text in
  let '(length, e) := if length >? 255 then (255, mark_truncated e) else (length, e) in
  let '(length, e) := if length >? value_limit then (value_limit, mark_truncated e) else (length, e) in
  on_writer (ls_writer_u8 field ;;? ls_writer_u8 length ;;?
             ls_writer_write_n length (take (Z.to_nat length) <$> text)) e.

(** [put_string_field(&nested, field, text, string_value_capacity(&nested), truncated)]. *)
Definition put_stored_string (field : Z) (text : option (list Z)) : st enc ls_result_t := fun e =>
  put_string_field field text (string_value_capacity (fst e)) e.

Definition put_optional_tlv (type : Z) (value : list Z) (length : Z) : st enc ls_result_t := fun e =>
  let '(result, e) := on_writer (ls_writer_tlv type value length) e in
  match result with LS_ENOSPACE => (LS_OK, mark_truncated e) | _ => (result, e) end.

(** A section built in a buffer of [capacity] bytes: the result of writing it, and the
    bytes. The truncation mark is the caller's. *)
Definition nested (capacity : Z) (body : st enc ls_result_t) : st enc (ls_result_t * list Z) := fun e =>
  let '(r, (w, t)) := body (mk_writer capacity [], snd e) in
  ((r, w_data w), (fst e, t)).

(** [if (result != LS_OK) return result; return ls_writer_tlv(...)]. *)
Definition put_section (type capacity : Z) (body : st enc ls_result_t) : st enc ls_result_t := fun e =>
  let '((result, value), e) := nested capacity body e in
  if negb (is_ok result) then (result, e) else on_writer (ls_writer_tlv type value (u16 (zlen value))) e.

(** [if (result != LS_OK) return result; return put_optional_tlv(...)]. *)
Definition put_optional_section (type capacity : Z) (body : st enc ls_result_t) : st enc ls_result_t := fun e =>
  let '((result, value), e) := nested capacity body e in
  if negb (is_ok result) then (result, e) else put_optional_tlv type value (u16 (zlen value)) e.

(** The detail sections: one that outgrows its buffer is dropped and marked. *)
Definition put_detail_section (type capacity : Z) (body : st enc ls_result_t) : st enc ls_result_t := fun e =>
  let '((result, value), e) := nested capacity body e in
  match result with
  | LS_ENOSPACE => (LS_OK, mark_truncated e)
  | LS_OK => put_optional_tlv type value (u16 (zlen value)) e
  | _ => (result, e)
  end.

(** One integer, written at its width. *)
Inductive field : Type := F8 (v : Z) | F16 (v : Z) | F32 (v : Z) | F64 (v : Z).

Definition put_field (f : field) : st ls_writer_t ls_result_t :=
  match f with
  | F8 v => ls_writer_u8 v
  | F16 v => ls_writer_u16 v
  | F32 v => ls_writer_u32 v
  | F64 v => ls_writer_u64 v
  end.

(** The chains of [if (result == LS_OK) result = ls_writer_...]. *)
Fixpoint put_fields (fs : list field) : st enc ls_result_t :=
  match fs with
  | [] => mret LS_OK
  | f :: fs => on_writer (put_field f) ;;? put_fields fs
  end.

Fixpoint put_all (ms : list (st enc ls_result_t)) : st enc ls_result_t :=
  match ms with
  | [] => mret LS_OK
  | m :: ms => m ;;? put_all ms
  end.

Definition of_bool (b : bool) : Z := if b then 1 else 0.

(** ** Identity, reset and event *)

Definition or_else (a b : option (list Z)) : option (list Z) := match a with Some _ => a | None => b end.

Definition identity_fields (env : encode_env) : list (option (list Z)) :=
  let i := env_identity env in
  [id_project_id i; id_device_id i; id_product i; id_hardware_revision i; id_bom_revision i; id_manufacturing_batch i;
   id_firmware_version i; or_else (id_firmware_build_id i) (Some (env_build_id env)); id_bootloader_version i;
   id_git_commit i; id_variant i; id_architecture i;
   or_else (id_rtos i) (env_config_rtos env); or_else (id_region i) (env_config_region env);
   or_else (id_device_group i) (env_config_device_group env)].

(** The loop over the fields from [index] on; every field keeps two bytes for each of
    the fields after it. *)
Fixpoint put_identity_fields (index : Z) (fields : list (option (list Z))) : st enc ls_result_t := fun e =>
  match fields with
  | [] => (LS_OK, e)
  | text :: fields =>
      let fields_remaining := zlen fields in
      let available := writer_remaining (fst e) in
      if available <? 2 + fields_remaining * 2 then (LS_ENOSPACE, e)
      else
        let value_limit := available - 2 - fields_remaining * 2 in
        (put_string_field (index + 1) text value_limit ;;? put_identity_fields (index + 1) fields) e
  end.

Definition put_identity (env : encode_env) : st enc ls_result_t := fun e =>
  let outer_capacity := writer_remaining (fst e) in
  if outer_capacity <? 4 + 30 then (LS_ENOSPACE, e)
  else
    let value_capacity := outer_capacity - 4 in
    let value_capacity := if value_capacity >? 512 then 512 else value_capacity in
    put_section LS_TLV_IDENTITY value_capacity (put_identity_fields 0 (identity_fields env)) e.

Definition reset_fields (env : encode_env) (event : lep_event) : list field :=
  [F8 (env_reset_reason env); F32 (env_raw_reason env); F32 (env_boot_count env); F32 (env_previous_uptime_ms env);
   F32 (e_timestamp_ms (le_base event)); F8 (of_bool (env_reset_expected env)); F8 (of_bool (env_previous_crashed env));
   F8 (of_bool (env_boot_loop env))].

Definition put_reset (env : encode_env) (event : lep_event) : st enc ls_result_t :=
  put_section LS_TLV_RESET 32 (put_fields (reset_fields env event)).

Definition event_fields (event : lep_event) : list field :=
  let b := le_base event in
  [F8 (e_priority b); F8 (le_severity event); F8 (le_capture_level event); F32 (ls_hash_string (e_domain b));
   F32 (u32 (e_code b)); F32 (ls_hash_string (e_message b)); F32 (e_fingerprint b); F32 (e_repeat_count b);
   F32 (e_first_seen_ms b); F32 (e_last_seen_ms b)].

Definition put_event (event : lep_event) : st enc ls_result_t :=
  put_section LS_TLV_EVENT 64 (put_fields (event_fields event)).

(** ** Processor state *)

Definition put_cpu64 (context : option ls_riscv64_context_t) (complete : bool) : st enc ls_result_t :=
  put_section LS_TLV_CPU64 292
    (put_fields ([F8 1; F8 (if complete then 1 else 2); F8 LS_ARCH_RISCV64; F8 8] ++
       match context with
       | Some c => if complete then map F64 (take 32 (rv_x c)) ++ [F64 (rv_mstatus c); F64 (rv_mcause c); F64 (rv_mtval c); F64 (rv_mepc c)]
                   else []
       | None => []
       end)).

Definition cpu_fields (cpu : ls_arch_context_t) : list field :=
  [F8 (ac_architecture cpu); F8 (ac_fault cpu)] ++ map F32 (take 32 (ac_registers cpu)) ++
  map F32 [ac_lr cpu; ac_pc cpu; ac_xpsr cpu; ac_msp cpu; ac_psp cpu; ac_control cpu; ac_primask cpu; ac_basepri cpu;
           ac_faultmask cpu; ac_exc_return cpu; ac_mcause cpu; ac_mtval cpu; ac_mstatus cpu; ac_mepc cpu; ac_exccause cpu;
           ac_excvaddr cpu; ac_ps cpu; ac_sar cpu] ++
  [F8 (of_bool (ac_has_fpu cpu)); F8 (of_bool (ac_fpu_lazy cpu))] ++
  (if ac_has_fpu cpu then map F32 (take 16 (ac_s cpu)) ++ [F32 (ac_fpscr cpu)] else []).

Definition fault_fields (cpu : ls_arch_context_t) : list field :=
  map F32 [ac_cfsr cpu; ac_hfsr cpu; ac_dfsr cpu; ac_afsr cpu; ac_mmfar cpu; ac_bfar cpu; ac_shcsr cpu; ac_icsr cpu;
           ac_vtor cpu; ac_sfsr cpu; ac_sfar cpu; u32 (ac_fault_address cpu); u32 (ac_signal_number cpu)].

Definition put_cpu (cpu : option ls_arch_context_t) (riscv64 : option ls_riscv64_context_t) : st enc ls_result_t := fun e =>
  match cpu with
  | None => (LS_OK, e)
  | Some cpu =>
      let cpu_value_length := 2 + 32 * 4 + 18 * 4 + 2 + (if ac_has_fpu cpu then 17 * 4 else 0) in
      let legacy_required := 4 + cpu_value_length + 4 + 13 * 4 in
      let full_cpu64_required := 4 + 4 + (32 + 4) * 8 in
      let is_riscv64 := ac_architecture cpu =? LS_ARCH_RISCV64 in
      let full_cpu64 := is_riscv64 && (match riscv64 with Some _ => true | None => false end) &&
                        (legacy_required + full_cpu64_required <=? writer_remaining (fst e)) in
      ((fun e => if is_riscv64 then
                   let '(result, e) := put_cpu64 riscv64 full_cpu64 e in
                   if negb (is_ok result) then (result, e)
                   else (LS_OK, if negb full_cpu64 then mark_truncated e else e)
                 else (LS_OK, e)) ;;?
       put_section LS_TLV_CPU 512 (put_fields (cpu_fields cpu)) ;;?
       put_section LS_TLV_FAULT 64 (put_fields (fault_fields cpu))) e
  end.

(** ** Breadcrumbs, metrics, power and health *)

Definition zero_breadcrumb : ls_breadcrumb_record_t :=
  {| br_at_ms := 0; br_message_id := 0; br_severity := 0; br_value_count := 0; br_category_hash := 0; br_message_hash := 0;
     br_category := []; br_message := []; br_values := [] |}.

Definition breadcrumb_body (record : ls_breadcrumb_record_t) : st enc ls_result_t :=
  put_fields [F32 (br_at_ms record); F16 (br_message_id record); F8 (br_severity record); F32 (br_category_hash record);
              F32 (br_message_hash record)] ;;?
  put_stored_string 1 (Some (br_category record)) ;;?
  put_stored_string 2 (Some (br_message record)) ;;?
  put_fields (F8 (br_value_count record) ::
    concat (map (fun kv => [F16 (kv_key_id kv); F8 (kv_type kv); F32 (kv_u32 kv)])
              (take (Z.to_nat (br_value_count record)) (br_values record)))).

(** The loops that stop, successfully and marked, at the first section that outgrows
    its buffer. *)
Fixpoint put_series {A} (type capacity : Z) (body : A -> st enc ls_result_t) (l : list A) : st enc ls_result_t := fun e =>
  match l with
  | [] => (LS_OK, e)
  | a :: l =>
      let '((result, value), e) := nested capacity (body a) e in
      match result with
      | LS_ENOSPACE => (LS_OK, mark_truncated e)
      | LS_OK => (put_optional_tlv type value (u16 (zlen value)) ;;? put_series type capacity body l) e
      | _ => (result, e)
      end
  end.

Definition put_breadcrumbs (t : telemetry) : st enc ls_result_t :=
  put_series LS_TLV_BREADCRUMB 160 breadcrumb_body (ring_list LS_BREADCRUMB_CAPACITY zero_breadcrumb (t_breadcrumbs t)).

Definition metric_body (metric : ls_metric_record_t) : st enc ls_result_t :=
  put_fields [F32 (m_name_hash metric)] ;;?
  put_stored_string 1 (Some (m_name metric)) ;;?
  put_fields ([F8 (m_type metric); F32 (u32 (m_value metric)); F32 (u32 (m_previous metric)); F32 (u32 (m_minimum metric));
               F32 (u32 (m_maximum metric)); F64 (u64 (m_sum metric)); F32 (m_count metric); F8 (m_window_count metric)] ++
              map (fun v => F32 (u32 v)) (take (Z.to_nat (m_window_count metric)) (m_window metric))).

Definition put_metrics (t : telemetry) : st enc ls_result_t := put_series LS_TLV_METRIC 128 metric_body (t_metrics t).

Definition power_fields (s : ls_power_sample_t) : list field :=
  [F32 (pw_timestamp_ms s); F16 (pw_vdd_mv s); F16 (pw_battery_mv s); F16 (u16 (pw_current_ma s)); F16 (u16 (pw_temperature_c s));
   F16 (pw_charger_status s); F16 (pw_power_flags s)].

Definition put_power_health (t : telemetry) : st enc ls_result_t :=
  put_all (map (fun s => put_optional_section LS_TLV_POWER 20 (put_fields (power_fields s))) (power_list t)) ;;?
  put_optional_section LS_TLV_HEALTH 32
    (put_fields [F32 (t_watchdog_last_feed t); F16 (t_watchdog_checkpoint t); F32 (ls_hash_string (Some (t_active_task t)))]).

(** ** The black box *)

Definition blackbox_fields (r : ls_blackbox_record_t) : list field :=
  [F8 1; F32 (bb_timestamp_ms r); F16 (bb_kind r); F16 (bb_source_id r); F16 (bb_flags r)] ++
  map (fun v => F32 (u32 v)) (take 4 (bb_value r)).

(** The loop of [put_blackbox]; the record read back may initialise the retained ring,
    which is idempotent. *)
Fixpoint blackbox_loop (remaining : nat) (b : ls_blackbox_retained_t) : st enc ls_result_t := fun e =>
  match remaining with
  | O => (LS_OK, e)
  | S remaining =>
      let '(r, b) := ls_blackbox_get_recent (Z.of_nat remaining) b in
      match r with
      | Err LS_EAGAIN => blackbox_loop remaining b e
      | Err err => (err, e)
      | Ok record =>
          if has_bits (bb_flags record) LS_BLACKBOX_SENSITIVE then blackbox_loop remaining b e
          else
            let '(result, e) := put_optional_section LS_TLV_BLACKBOX 32 (put_fields (blackbox_fields record)) e in
            if negb (is_ok result) then (result, e)
            else if snd e then (LS_OK, e)
            else blackbox_loop remaining b e
      end
  end.

Definition put_blackbox (t : telemetry) : st enc ls_result_t :=
  let '(stats, b) := ls_blackbox_get_stats (t_blackbox t) in
  let emit := if bs_count stats <? LS_BLACKBOX_ENVELOPE_MAX then bs_count stats else LS_BLACKBOX_ENVELOPE_MAX in
  blackbox_loop (Z.to_nat emit) b.

(** ** Services *)

Definition put_mission (now : Z) (m : ls_mission_context_t) : st enc ls_result_t := fun e =>
  if (match mi_mission_id m with [] => true | _ => false end) && negb (mi_incident_active m) then (LS_OK, e)
  else put_optional_section LS_TLV_MISSION 256
    (put_fields [F8 1; F32 (ls_hash_string (Some (mi_mission_id m))); F32 (ls_hash_string (Some (mi_dive_id m)));
                 F32 (ls_hash_string (Some (mi_node_id m))); F32 (ls_hash_string (Some (mi_vehicle_mode m)));
                 F32 (mi_phase m); F32 (u32 (mi_depth_cm m)); F32 (ls_mission_elapsed_ms now m);
                 F64 (mi_incident_hi m); F64 (mi_incident_lo m); F8 (of_bool (mi_incident_active m))] ;;?
     put_stored_string 1 (Some (mi_mission_id m)) ;;?
     put_stored_string 2 (Some (mi_dive_id m)) ;;?
     put_stored_string 3 (Some (mi_node_id m)) ;;?
     put_stored_string 4 (Some (mi_vehicle_mode m))) e.

Definition put_time_sync (t : ls_time_sync_state_t) : st enc ls_result_t := fun e =>
  if negb (ts_synchronized t) then (LS_OK, e)
  else put_optional_section LS_TLV_TIME_SYNC 32
    (put_fields [F8 1; F8 (ts_source t); F64 (ts_utc_ms_at_sync t); F32 (ts_monotonic_ms_at_sync t);
                 F32 (ts_uncertainty_ms t); F32 (ts_generation t)]) e.

Definition put_provisioning (p : ls_provisioning_state_t) : st enc ls_result_t := fun e =>
  if (ps_state p =? LS_PROVISIONING_UNPROVISIONED) && (ps_generation p =? 0) then (LS_OK, e)
  else put_optional_section LS_TLV_PROVISIONING 32
    (put_fields [F8 1; F8 (ps_state p); F32 (ps_key_id p); F32 (ps_pending_key_id p); F32 (ps_generation p);
                 F32 (ps_monotonic_counter p)]) e.

Definition put_supervisor (x : ls_supervisor_status_t) : st enc ls_result_t := fun e =>
  if negb (ss_configured x) then (LS_OK, e)
  else put_optional_section LS_TLV_SUPERVISOR 24
    (put_fields [F8 1; F32 (ss_active_alarms x); F32 (ss_previous_alarms x); F32 (ss_transitions x); F32 (ss_last_change_ms x)]) e.

Definition put_environment (s : services) : st enc ls_result_t := fun e =>
  match ls_environment_get_summary SET s with
  | Err r => (r, e)
  | Ok v =>
      if ev_sample_count v =? 0 then (LS_OK, e)
      else
        let l := ev_last v in
        put_optional_section LS_TLV_ENVIRONMENT 40
          (put_fields [F8 1; F32 (es_timestamp_ms l); F32 (es_pressure_pa l); F32 (u32 (es_depth_cm l));
                       F16 (u16 (es_internal_temperature_c l)); F16 (es_humidity_permyriad l); F16 (es_vibration_mg_rms l);
                       F16 (es_flags l); F32 (ev_sample_count v); F32 (ev_leak_events v)]) e
  end.

Definition put_powerfail_seal (p : option ls_powerfail_seal_info_t) : st enc ls_result_t := fun e =>
  match p with
  | None => (LS_OK, e)
  | Some p =>
      if negb (pi_sealed_ok p) then (LS_OK, e)
      else if pi_reason p >? LS_POWERFAIL_PVD then (LS_OK, e)
      else put_optional_section LS_TLV_POWERFAIL_SEAL 16
        (put_fields [F8 1; F8 (pi_reason p); F8 (pi_tier p); F16 (pi_vcap_mv p); F32 (pi_boot_id p); F32 (pi_fault p)]) e
  end.

(** ** Details of the event *)

Definition put_assertion (a : ls_assert_info_t) : st enc ls_result_t :=
  put_detail_section LS_TLV_ASSERT 200
    (put_fields [F32 (u32 (as_line a)); F32 (ls_hash_string (as_expression a)); F32 (ls_hash_string (as_file a))] ;;?
     put_stored_string 1 (as_expression a) ;;?
     put_stored_string 2 (as_file a) ;;?
     put_stored_string 3 (as_message a)).

Definition put_peripheral (p : ls_peripheral_fault_t) : st enc ls_result_t :=
  put_detail_section LS_TLV_PERIPHERAL 48
    (put_fields ([F8 (pf_domain p); F16 (pf_fault p); F16 (pf_instance p); F32 (pf_status p); F32 (pf_address p);
                  F32 (pf_reg p); F32 (pf_timeout_ms p)] ++ map F32 (take 4 (pf_auxiliary p)))).

Definition put_log (l : ls_log_info_t) : st enc ls_result_t :=
  put_detail_section LS_TLV_LOG 24
    (put_fields ([F16 (lg_message_id l); F16 (lg_format_id l); F8 (lg_argument_count l)] ++
                 map F32 (take (Z.to_nat (lg_argument_count l)) (lg_arguments l)))).

Definition when {A} (o : option A) (f : A -> st enc ls_result_t) : st enc ls_result_t :=
  match o with Some a => f a | None => mret LS_OK end.

Definition put_details (event : lep_event) : st enc ls_result_t :=
  when (le_assertion event) put_assertion ;;?
  when (le_peripheral event) put_peripheral ;;?
  when (le_log event) put_log.

(** ** Memory *)

(** What is written of a region: a checksum, zeros in pieces of 32 bytes, or the bytes. *)
Fixpoint put_zeros (fuel : nat) (remaining : Z) : st enc ls_result_t := fun e =>
  match fuel with
  | O => (LS_OK, e)
  | S fuel =>
      if negb (remaining =? 0) then
        let chunk := if remaining >? 32 then 32 else remaining in
        (on_writer (ls_writer_write (fill chunk 0)) ;;? put_zeros fuel (remaining - chunk)) e
      else (LS_OK, e)
  end.

Definition region_body (env : encode_env) (region : ls_dump_region_t) (length : Z) (mode : option ls_redaction_mode_t)
  : st enc ls_result_t :=
  put_fields [F32 (ls_hash_string (dr_name region)); F32 (u32 (dr_address region)); F32 (u32 (dr_length region));
              F32 (dr_flags region)] ;;?
  match mode with
  | Some LS_REDACT_HASH => put_fields [F32 (ls_crc32 (env_read env (dr_address region) length))]
  | Some LS_REDACT_ZERO => put_zeros (Z.to_nat length) length
  | _ => on_writer (ls_writer_write (env_read env (dr_address region) length))
  end.

(** The loop over the registered regions, and [rest], what [put_memory] does after it. A
    region that outgrows its buffer ends [put_memory] at once, successfully. *)
Fixpoint put_regions (env : encode_env) (t : telemetry) (regions : list ls_dump_region_t) (rest : st enc ls_result_t)
  : st enc ls_result_t := fun e =>
  match regions with
  | [] => rest e
  | region :: regions =>
      if Z.land (dr_flags region) LS_DUMP_SAFE =? 0 then put_regions env t regions rest e
      else
        let '(length, e) := if dr_length region >? LS_DUMP_REGION_MAX_BYTES
                            then (LS_DUMP_REGION_MAX_BYTES, mark_truncated e) else (dr_length region, e) in
        let mode := ls_redaction_for (dr_address region) length t in
        match mode with
        | Some LS_REDACT_EXCLUDE => put_regions env t regions rest (mark_truncated e)
        | _ =>
            let '((result, value), e) := nested (LS_DUMP_REGION_MAX_BYTES + 48) (region_body env region length mode) e in
            match result with
            | LS_ENOSPACE => (LS_OK, mark_truncated e)
            | LS_OK => (put_optional_tlv LS_TLV_MEMORY value (u16 (zlen value)) ;;? put_regions env t regions rest) e
            | _ => (result, e)
            end
        end
  end.

Definition put_stack (env : encode_env) (t : telemetry) (event : lep_event) : st enc ls_result_t := fun e =>
  match le_cpu event, t_stack t with
  | Some cpu, Some (lower, upper) =>
      if LS_CAPTURE_STACK <=? le_capture_level event then
        let stack_pointer := if negb (ac_psp cpu =? 0) then ac_psp cpu else ac_msp cpu in
        if (lower <=? stack_pointer) && (stack_pointer <? upper) then
          let length := upper - stack_pointer in
          let '(length, e) := if length >? LS_STACK_SNAPSHOT_MAX
                              then (LS_STACK_SNAPSHOT_MAX, mark_truncated e) else (length, e) in
          put_detail_section LS_TLV_STACK (LS_STACK_SNAPSHOT_MAX + 8)
            (put_fields [F32 (u32 stack_pointer); F32 (u32 length)] ;;?
             on_writer (ls_writer_write (env_read env stack_pointer length))) e
        else (LS_OK, e)
      else (LS_OK, e)
  | _, _ => (LS_OK, e)
  end.

Definition heap_fields (h : ls_heap_stats_t) : list field :=
  [F32 (hs_free_bytes h); F32 (hs_minimum_free_bytes h); F32 (hs_largest_block h); F32 (hs_allocation_failures h);
   F32 (hs_pool_exhaustions h)].

Definition put_memory (env : encode_env) (event : lep_event) : st enc ls_result_t :=
  let t := sv_telemetry (env_services env) in
  let rest := put_stack env t event ;;? put_optional_section LS_TLV_HEAP 20 (put_fields (heap_fields (t_heap_stats t))) in
  if LS_CAPTURE_SELECTIVE <=? le_capture_level event then put_regions env t (t_dump_regions t) rest else rest.

(** ** The payload *)

Definition put_payload (env : encode_env) (event : lep_event) : st enc ls_result_t :=
  let s := env_services env in
  let t := sv_telemetry s in
  put_identity env ;;?
  put_reset env event ;;?
  put_event event ;;?
  put_cpu (le_cpu event) (le_riscv64 event) ;;?
  put_breadcrumbs t ;;?
  put_metrics t ;;?
  put_power_health t ;;?
  put_blackbox t ;;?
  put_mission (env_now env) (sv_mission s) ;;?
  put_time_sync (sv_time_sync s) ;;?
  put_provisioning (env_provisioning env) ;;?
  put_supervisor (ls_supervisor_get_status s) ;;?
  put_environment s ;;?
  put_powerfail_seal (env_powerfail env) ;;?
  put_details event ;;?
  put_memory env event.

(** ** The envelope *)

Definition write_header (type architecture flags sequence event_id payload_length : Z) : list Z :=
  let head := le 4 LS_MAGIC ++ [LS_LEP_CURRENT_VERSION; type; architecture; flags] ++
              le 4 sequence ++ le 4 event_id ++ le 4 payload_length in
  head ++ le 4 (ls_crc32 head).

Definition envelope_label : list Z := str "laststate/latch/envelope/v1".

Definition envelope_salt (key_id sequence event_id : Z) : list Z := le 4 key_id ++ le 4 sequence ++ le 4 event_id.

Section Encode.
Context {X : Type}.
(** The security fields of [ls_runtime], and [persistent.last_sequence]. *)
Local Abbreviation estate := (security_runtime X * Z)%type.

(** [ls_secure_zero(out, n)]. *)
Definition wipe (n : Z) (out : list Z) : list Z := splice 0 (fill n 0) out.

Definition is_aead (s : security_runtime X) : bool :=
  negb (s_key_length s =? 0) && (sp_algorithm (s_policy s) =? LS_SECURITY_XCHACHA20_POLY1305).
Definition encode_metadata_size (s : security_runtime X) : Z :=
  if is_aead s then LS_ENVELOPE_SECURITY_METADATA_SIZE else 0.
Definition encode_authentication_size (s : security_runtime X) : Z :=
  if negb (s_key_length s =? 0) then (if is_aead s then LS_AEAD_TAG_SIZE else LS_HMAC_SHA256_SIZE) else 0.

Definition encode_flags (s : security_runtime X) (truncated : bool) : Z :=
  let flags := if negb (s_key_length s =? 0) then LS_ENVELOPE_AUTHENTICATED else 0 in
  let flags := if is_aead s then Z.lor flags (Z.lor LS_ENVELOPE_ENCRYPTED LS_ENVELOPE_AEAD) else flags in
  if truncated then Z.lor flags LS_ENVELOPE_TRUNCATED else flags.

(** The AEAD branch: [out] holds the header and, after the metadata, the plaintext. The
    result is the length, or an error after which the buffer has been wiped. *)
Definition encode_aead (sequence event_id plen : Z) (out : list Z) : st (security_runtime X) (res Z * list Z) := fun s =>
  let body := LS_LEP_HEADER_SIZE + LS_ENVELOPE_SECURITY_METADATA_SIZE in
  let '((result, nonce), s) := ls_security_random LS_XCHACHA20_NONCE_SIZE s in
  if negb (is_ok result) then ((Err result, wipe (body + plen) out), s)
  else if s_has_last_nonce s && ls_constant_time_equal nonce (s_last_nonce s) then
    ((Err LS_EAUTH, wipe (body + plen) out), s)
  else
    let key_id := sp_key_id (s_policy s) in
    let out := splice LS_LEP_HEADER_SIZE (nonce ++ le 4 key_id) out in
    let '(derived, s) := ls_crypto_hkdf_sha256 (envelope_salt key_id sequence event_id)
                           (slice 0 (s_key_length s) (s_key s)) envelope_label 32 s in
    match derived with
    | Err e => ((Err e, wipe (body + plen) out), s)
    | Ok derived =>
        let crc_offset := body + plen in
        let '(sealed, s) := ls_crypto_xchacha20_poly1305_encrypt derived nonce (slice 0 body out) (slice body plen out) s in
        match sealed with
        | Err e => ((Err e, wipe (crc_offset + 4 + LS_AEAD_TAG_SIZE) out), s)
        | Ok (ciphertext, tag) =>
            let out := splice body ciphertext out in
            let out := splice (crc_offset + 4) tag out in
            let payload_crc := ls_crc32 (slice LS_LEP_HEADER_SIZE (LS_ENVELOPE_SECURITY_METADATA_SIZE + plen) out) in
            let out := splice crc_offset (le 4 payload_crc) out in
            ((Ok (crc_offset + 4 + LS_AEAD_TAG_SIZE), out), with_nonce nonce s)
        end
    end.

(** The other branch: a checksum, and a keyed hash when there is a key. *)
Definition encode_plain (plen : Z) (out : list Z) (s : security_runtime X) : Z * list Z :=
  let crc_offset := LS_LEP_HEADER_SIZE + plen in
  let out := splice crc_offset (le 4 (ls_crc32 (slice LS_LEP_HEADER_SIZE plen out))) out in
  let total := crc_offset + 4 in
  if negb (encode_authentication_size s =? 0) then
    (total + encode_authentication_size s,
     splice total (ls_hmac_sha256 (slice 0 (s_key_length s) (s_key s)) (slice 0 total out)) out)
  else (total, out).

Definition ls_envelope_encode (env : encode_env) (event : option lep_event) (out : option (list Z)) (capacity sequence : Z)
    (length : ptr) : st estate (res Z * list Z) := fun st =>
  let '(s, last) := st in
  let metadata_size := encode_metadata_size s in
  let authentication_size := encode_authentication_size s in
  match event, out with
  | Some event, Some out =>
      if negb length || (capacity <? LS_LEP_HEADER_SIZE + metadata_size + 4 + authentication_size)
      then ((Err LS_EINVAL, out), st)
      else
        let body := LS_LEP_HEADER_SIZE + metadata_size in
        let '(result, (payload, truncated)) :=
          put_payload env event (mk_writer (capacity - body - 4 - authentication_size) [], false) in
        let plen := w_length payload in
        let out := splice body (w_data payload) out in
        if negb (is_ok result) then ((Err result, wipe (body + plen) out), st)
        else if plen >? UINT32_MAX then ((Err LS_EOVERFLOW, wipe (body + plen) out), st)
        else
          let event_id := Z.lxor (Z.lxor (ls_crc32 (slice body plen out)) sequence)
                                 (ls_hash_string (Some (env_build_id env))) in
          let arch := match le_cpu event with Some cpu => ac_architecture cpu | None => env_config_architecture env end in
          let header := write_header (u8 (le_type event)) (u8 arch) (encode_flags s truncated) sequence event_id plen in
          let out := splice 0 header out in
          if is_aead s then
            let '((r, out), s) := encode_aead sequence event_id plen out s in
            ((r, out), (s, match r with Ok _ => sequence | Err _ => last end))
          else
            let '(total, out) := encode_plain plen out s in
            ((Ok total, out), (s, sequence))
  | _, _ => ((Err LS_EINVAL, default [] out), st)
  end.

(** ** Reading protected envelopes *)

(** [ls_envelope_decrypt_payload]; [plaintext] is the buffer when it is set. The result is
    the plaintext length with the buffer as it is left: untouched by an error found
    before the key is derived, wiped for [capacity] bytes by one found after it. *)
Definition ls_envelope_decrypt_payload (data plaintext : option (list Z)) (capacity : Z) (plaintext_length : ptr)
  : st (security_runtime X) (res Z * option (list Z)) := fun s =>
  if negb plaintext_length then ((Err LS_EINVAL, plaintext), s)
  else match ls_envelope_validate data with
  | Err e => ((Err e, plaintext), s)
  | Ok info =>
      let data := default [] data in
      let set := match plaintext with Some _ => true | None => false end in
      if negb (has_flag (flags info) LS_ENVELOPE_ENCRYPTED) || negb (has_flag (flags info) LS_ENVELOPE_AEAD) ||
         (s_key_length s =? 0) then ((Err LS_EAUTH, plaintext), s)
      else if set && (capacity <? payload_length info) then ((Err LS_ENOSPACE, plaintext), s)
      else if negb set && negb (capacity =? 0) then ((Err LS_EINVAL, plaintext), s)
      else
        let nonce := slice LS_LEP_HEADER_SIZE 24 data in
        let key_id := read_u32 data (LS_LEP_HEADER_SIZE + 24) in
        if negb (key_id =? sp_key_id (s_policy s)) then ((Err LS_EAUTH, plaintext), s)
        else
          let '(derived, s) := ls_crypto_hkdf_sha256 (envelope_salt key_id (sequence info) (event_id info))
                                 (slice 0 (s_key_length s) (s_key s)) envelope_label 32 s in
          match derived with
          | Err e => ((Err e, wipe capacity <$> plaintext), s)
          | Ok derived =>
              let body := LS_LEP_HEADER_SIZE + LS_ENVELOPE_SECURITY_METADATA_SIZE in
              let '(r, s) := ls_crypto_xchacha20_poly1305_decrypt derived nonce (slice 0 body data)
                               (slice body (payload_length info) data) set
                               (slice (body + payload_length info + 4) 16 data) s in
              match r with
              | Err e => ((Err e, wipe capacity <$> plaintext), s)
              | Ok text => ((Ok (payload_length info), splice 0 text <$> plaintext), s)
              end
          end
  end.

(** [ls_envelope_verify_auth]. *)
Definition ls_envelope_verify_auth (data : option (list Z)) : st (security_runtime X) ls_result_t := fun s =>
  match ls_envelope_validate data with
  | Err e => (e, s)
  | Ok info =>
      if negb (has_flag (flags info) LS_ENVELOPE_AUTHENTICATED) || (s_key_length s =? 0) then (LS_EAUTH, s)
      else if has_flag (flags info) LS_ENVELOPE_AEAD then
        let '((r, _), s) := ls_envelope_decrypt_payload data None 0 SET s in (code r, s)
      else if negb (sp_allow_legacy_hmac (s_policy s)) then (LS_EAUTH, s)
      else
        let data := default [] data in
        let signed := zlen data - LS_HMAC_SHA256_SIZE in
        let expected := ls_hmac_sha256 (slice 0 (s_key_length s) (s_key s)) (slice 0 signed data) in
        ((if ls_constant_time_equal expected (slice signed 32 data) then LS_OK else LS_EAUTH), s)
  end.

Section Visit.
Context {C : Type} (visitor : Z -> list Z -> Prelude.st C ls_result_t).

(** The plaintext of an envelope that is not encrypted, once its authentication and the
    policy allow it. *)
Definition plain_allowed (info : ls_envelope_info_t) (data : option (list Z)) : st (security_runtime X) ls_result_t := fun s =>
  if has_flag (flags info) LS_ENVELOPE_AUTHENTICATED then ls_envelope_verify_auth data s
  else if ls_security_enabled s && sp_reject_plaintext (s_policy s) then (LS_EAUTH, s)
  else (LS_OK, s).

(** The result with the caller's [workspace], [workspace_size] bytes, as it is left: the
    plaintext in it is wiped once it was visited. *)
Definition ls_envelope_visit_secure (data : option (list Z)) (workspace : list Z) (workspace_size : Z)
  : st (security_runtime X * C) (ls_result_t * list Z) := fun sc =>
  let '(s, c) := sc in
  match ls_envelope_validate data with
  | Err e => ((e, workspace), sc)
  | Ok info =>
      if negb (has_flag (flags info) LS_ENVELOPE_ENCRYPTED) then
        let '(r, s) := plain_allowed info data s in
        if negb (is_ok r) then ((r, workspace), (s, c))
        else let '(r, c) := visit_payload visitor (slice LS_LEP_HEADER_SIZE (payload_length info) (default [] data)) c in
             ((r, workspace), (s, c))
      else
        let '((r, buffer), s) := ls_envelope_decrypt_payload data (Some workspace) workspace_size SET s in
        let workspace := default [] buffer in
        match r with
        | Err e => ((e, workspace), (s, c))
        | Ok plaintext_length =>
            let '(r, c) := visit_payload visitor (slice 0 plaintext_length workspace) c in
            ((r, wipe plaintext_length workspace), (s, c))
        end
  end.

(** With a non-null replay window. *)
Definition ls_envelope_visit_secure_replay (data : option (list Z)) (workspace : list Z) (workspace_size : Z)
  : st (security_runtime X * C * ls_envelope_replay_t) (ls_result_t * list Z) := fun sc =>
  let '(s, c, w) := sc in
  match ls_envelope_validate data with
  | Err e => ((e, workspace), sc)
  | Ok info =>
      if negb (has_flag (flags info) LS_ENVELOPE_ENCRYPTED) then
        let '(r, s) := plain_allowed info data s in
        if negb (is_ok r) then ((r, workspace), (s, c, w))
        else
          let '(accepted, w) :=
            if has_flag (flags info) LS_ENVELOPE_AUTHENTICATED then ls_envelope_replay_accept (sequence info) w
            else (true, w) in
          if negb accepted then ((LS_EAUTH, workspace), (s, c, w))
          else let '(r, c) := visit_payload visitor (slice LS_LEP_HEADER_SIZE (payload_length info) (default [] data)) c in
               ((r, workspace), (s, c, w))
      else
        let '((r, buffer), s) := ls_envelope_decrypt_payload data (Some workspace) workspace_size SET s in
        let workspace := default [] buffer in
        match r with
        | Err e => ((e, workspace), (s, c, w))
        | Ok plaintext_length =>
            let text := slice 0 plaintext_length workspace in
            let workspace := wipe plaintext_length workspace in
            let result := validate_payload text in
            if negb (is_ok result) then ((result, workspace), (s, c, w))
            else
              let '(accepted, w) := ls_envelope_replay_accept (sequence info) w in
              if negb accepted then ((LS_EAUTH, workspace), (s, c, w))
              else let '(r, c) := visit_payload visitor text c in ((r, workspace), (s, c, w))
        end
  end.
End Visit.
End Encode.
