(* ===== verification/Payload.v ===== *)
(** * The payload of an envelope ([src/envelope/lep.c], [put_payload] and its callees)

    Every operation on the writer appends well-formed material within its capacity, and an
    operation that succeeds without marking a truncation appends exactly the bytes that
    [payload_sections] lists for the event and the state of the services. *)

From S2P Require Import Prelude Util Envelope FaultInjection Boot Provisioning Blackbox Telemetry Services Policy Encode.

(** ** Operations that append *)

Create HintDb enc.

(** What may be appended: closed under concatenation. *)
Class Appendable (P : list Z -> Prop) : Prop := {
  appendable_nil : P [];
  appendable_app a b : P a -> P b -> P (a ++ b)
}.

(** The encodings of well-formed fields. *)
Definition tlvs (d : list Z) : Prop := exists fs, Forall tlv_ok fs /\ d = encode_tlvs fs.

#[export] Instance bytes_appendable : Appendable bytes_ok.
Proof. split; [constructor|]. intros. by apply bytes_ok_app. Qed.

Lemma encode_tlvs_app fs gs : encode_tlvs (fs ++ gs) = encode_tlvs fs ++ encode_tlvs gs.
Proof. unfold encode_tlvs. by rewrite map_app, join_app. Qed.

#[export] Instance tlvs_appendable : Appendable tlvs.
Proof.
  split; [by exists []|]. intros a b (fs & Hf & ->) (gs & Hg & ->). exists (fs ++ gs).
  split; [by apply Forall_app|]. by rewrite encode_tlvs_app.
Qed.

Lemma tlvs_one t v : tlv_ok (t, v) -> tlvs (encode_tlv (t, v)).
Proof. intros H. exists [(t, v)]. split; [by apply List.Forall_cons|]. unfold encode_tlvs. simpl. by rewrite app_nil_r. Qed.

Lemma tlvs_bytes d : tlvs d -> bytes_ok d.
Proof.
  intros (fs & Hf & ->). induction Hf as [|[t v] fs (_ & _ & Hv) Hf IH]; [constructor|].
  change (encode_tlvs ((t, v) :: fs)) with (encode_tlv (t, v) ++ encode_tlvs fs). apply bytes_ok_app. split; [|done].
  unfold encode_tlv. repeat (apply bytes_ok_app; split); try done; apply bytes_ok_le.
Qed.

(** The writer has not outgrown its buffer. *)
Definition room (e : enc) : Prop := w_length (fst e) <= w_capacity (fst e).

(** [x] is [e] with something that satisfies [P] appended, within the capacity; a
    truncation that was marked stays marked. *)
Definition grows (P : list Z -> Prop) (e : enc) (x : ls_result_t * enc) : Prop :=
  exists d, fst (snd x) = mk_writer (w_capacity (fst e)) (w_data (fst e) ++ d) /\ P d /\ room (snd x) /\
    (snd e = true -> snd (snd x) = true).

Definition adds (P : list Z -> Prop) (m : st enc ls_result_t) : Prop := forall e, room e -> grows P e (m e).

Section Adds.
Context {P : list Z -> Prop} `{!Appendable P}.

Lemma grows_ret e r : room e -> grows P e (r, e).
Proof.
  intros He. exists []. rewrite app_nil_r. split; [by destruct e as [[]]|]. split; [apply appendable_nil|]. by split.
Qed.

Lemma grows_mark e x : grows P (mark_truncated e) x -> grows P e x.
Proof. intros (d & H1 & H2 & H3 & H4). exists d. split_and!; auto. Qed.

Lemma grows_trans e r e1 x : grows P e (r, e1) -> grows P e1 x -> grows P e x.
Proof.
  intros (d & H1 & H2 & H3 & H4) (d' & K1 & K2 & K3 & K4). cbn [fst snd] in *. exists (d ++ d').
  rewrite K1, H1. cbn [w_capacity w_data]. rewrite app_assoc. split; [done|]. split; [by apply appendable_app|].
  split; [done|]. auto.
Qed.

Lemma grows_room e r e1 : grows P e (r, e1) -> room e1.
Proof. by intros (d & _ & _ & H & _). Qed.

Lemma adds_ret r : adds P (mret r).
Proof. intros e. by apply grows_ret. Qed.

Lemma adds_seq m k : adds P m -> adds P k -> adds P (m ;;? k).
Proof.
  intros Hm Hk e He. unfold and_then. pose proof (Hm e He) as H. destruct (m e) as [r e1].
  destruct (is_ok r); [|done]. eapply grows_trans; [exact H|]. apply Hk. by eapply grows_room.
Qed.

Lemma adds_all ms : Forall (adds P) ms -> adds P (put_all ms).
Proof. induction 1; [apply adds_ret|]. by apply adds_seq. Qed.

Lemma adds_when {A} (o : option A) f : (forall a, o = Some a -> adds P (f a)) -> adds P (when o f).
Proof. destruct o; intros H; [by apply H|apply adds_ret]. Qed.

(** A write of [d] that fits, or fails and changes nothing. *)
Lemma adds_write m : (forall w, exists d, P d /\
    (m w = (LS_ENOSPACE, w) \/ (m w = (LS_OK, mk_writer (w_capacity w) (w_data w ++ d)) /\ zlen (w_data w ++ d) <= w_capacity w))) ->
  adds P (on_writer m).
Proof.
  intros H [w t] He. unfold on_writer. cbn [fst snd]. destruct (H w) as (d & Hd & [->|[-> Hz]]); [by apply grows_ret|].
  exists d. split_and!; auto.
Qed.
End Adds.
#[export] Hint Resolve adds_ret adds_seq adds_all : enc.

Lemma write_n_cases w size (data : option (list Z)) : size = zlen (default [] data) ->
  ls_writer_write_n size data w = (LS_ENOSPACE, w) \/
  (ls_writer_write_n size data w = (LS_OK, mk_writer (w_capacity w) (w_data w ++ default [] data)) /\
   zlen (w_data w ++ default [] data) <= w_capacity w).
Proof.
  intros ->. unfold ls_writer_write_n. destruct (_ || _ || _) eqn:E; [by left|]. right. split; [done|].
  unfold w_length in *. rewrite zlen_app. blia.
Qed.

Lemma adds_bytes d : bytes_ok d -> adds bytes_ok (on_writer (ls_writer_write d)).
Proof. intros Hd. apply adds_write. intros w. exists d. split; [done|]. by apply (write_n_cases w (zlen d) (Some d)). Qed.

Lemma adds_field f : adds bytes_ok (on_writer (put_field f)).
Proof.
  destruct f; apply adds_bytes; try apply bytes_ok_le. apply List.Forall_cons; [apply u8_range|apply List.Forall_nil].
Qed.

Lemma adds_fields fs : adds bytes_ok (put_fields fs).
Proof. induction fs; [apply adds_ret|]. by apply adds_seq; [apply adds_field|]. Qed.
#[export] Hint Resolve adds_bytes adds_field adds_fields : enc.

(** ** Sections *)

Lemma adds_write_n n text : n = zlen (default [] text) -> bytes_ok (default [] text) ->
  adds bytes_ok (on_writer (ls_writer_write_n n text)).
Proof. intros Hn Hb. apply adds_write. intros w. exists (default [] text). split; [done|]. by apply write_n_cases. Qed.

Lemma adds_on_seq P `{!Appendable P} a b : adds P (on_writer a) -> adds P (on_writer b) -> adds P (on_writer (a ;;? b)).
Proof.
  intros Ha Hb e He. pose proof (adds_seq _ _ Ha Hb e He) as H. unfold and_then, on_writer in *.
  destruct (a (fst e)) as [r w]. destruct (is_ok r); [|done]. cbn [fst snd] in H. exact H.
Qed.

(** A string pointer that is null or points to bytes. *)
Definition text_ok (text : option (list Z)) : Prop := bytes_ok (default [] text).

Lemma adds_string field text limit : text_ok text -> 0 <= limit -> adds bytes_ok (put_string_field field text limit).
Proof.
  intros Ht Hl e He. unfold put_string_field.
  assert (ls_string_length text = zlen (default [] text)) as -> by (by destruct text).
  assert (forall n e, 0 <= n <= zlen (default [] text) -> room e -> grows bytes_ok e
    (on_writer (ls_writer_u8 field ;;? ls_writer_u8 n ;;? ls_writer_write_n n (take (Z.to_nat n) <$> text)) e)) as H.
  { intros n e' Hn He'. refine (adds_on_seq _ _ _ (adds_field (F8 field)) (adds_on_seq _ _ _ (adds_field (F8 n)) _) e' He').
    apply adds_write_n; destruct text as [t|]; cbn [fmap option_fmap option_map from_option id] in *.
    - unfold zlen in *. rewrite length_take. lia.
    - unfold zlen in *. simpl in *. lia.
    - by apply Forall_take.
    - constructor. }
  pose proof (zlen_nonneg (default [] text)).
  destruct (zlen (default [] text) >? 255) eqn:E1; destruct (_ >? limit) eqn:E2;
    rewrite ?Z.gtb_ltb in *; bool_prop; [do 2 apply grows_mark|apply grows_mark|apply grows_mark|];
    (apply H; [lia|exact He]).
Qed.

Lemma string_value_capacity_nonneg w : 0 <= string_value_capacity w.
Proof. unfold string_value_capacity. repeat case_if; rewrite ?Z.gtb_ltb in *; blia. Qed.

Lemma adds_stored_string field text : text_ok text -> adds bytes_ok (put_stored_string field text).
Proof. intros Ht e He. apply adds_string; [done|apply string_value_capacity_nonneg|done]. Qed.

(** One section on the wire. *)
Lemma writer_tlv_cases w t v : tlv_ok (t, v) ->
  ls_writer_tlv t v (u16 (zlen v)) w = (LS_ENOSPACE, w) \/
  (ls_writer_tlv t v (u16 (zlen v)) w = (LS_OK, mk_writer (w_capacity w) (w_data w ++ encode_tlv (t, v))) /\
   zlen (w_data w ++ encode_tlv (t, v)) <= w_capacity w).
Proof.
  intros (Ht & Hz & Hv). cbn [fst snd] in *. pose proof (zlen_nonneg v). unfold ls_writer_tlv.
  rewrite u16_id by (unfold is_u16; lia). unfold w_length. case_if; [by left|]. right.
  rewrite zlen_app, encode_tlv_zlen. cbn [snd]. bool_prop. split; [|lia].
  assert (forall d (w : ls_writer_t), zlen (w_data w) + zlen d <= w_capacity w ->
    ls_writer_write_n (zlen d) (Some d) w = (LS_OK, mk_writer (w_capacity w) (w_data w ++ d))) as Hw.
  { intros d w' Hd. unfold ls_writer_write_n, w_length. pose proof (zlen_nonneg d).
    destruct (_ || _ || _) eqn:E; [|done]. bool_prop. destruct E as [E|E]; [|blia]. bool_prop. destruct E; blia. }
  unfold and_then, ls_writer_u16, ls_writer_write. rewrite (Hw (le 2 t)) by (rewrite zlen_le; lia). cbn [is_ok].
  rewrite (Hw (le 2 (zlen v))) by (cbn [w_data w_capacity]; rewrite zlen_app, !zlen_le; lia). cbn [is_ok].
  assert (take (Z.to_nat (zlen v)) v = v) as -> by (apply take_ge; unfold zlen; lia).
  rewrite Hw by (cbn [w_data w_capacity]; rewrite !zlen_app, !zlen_le; lia). cbn [w_data w_capacity].
  unfold encode_tlv. cbn [fst snd]. by rewrite <- !app_assoc.
Qed.

Lemma adds_tlv t v : tlv_ok (t, v) -> adds tlvs (on_writer (ls_writer_tlv t v (u16 (zlen v)))).
Proof.
  intros H. apply adds_write. intros w. exists (encode_tlv (t, v)). split; [by apply tlvs_one|]. by apply writer_tlv_cases.
Qed.

Lemma adds_optional_tlv t v : tlv_ok (t, v) -> adds tlvs (put_optional_tlv t v (u16 (zlen v))).
Proof.
  intros H e He. pose proof (adds_tlv t v H e He) as Hg. unfold put_optional_tlv.
  destruct (on_writer _ e) as [r e1] eqn:E. assert (forall r', grows tlvs e (r', e1)) as Hr.
  { intros r'. exact Hg. }
  destruct r; try apply Hr. destruct Hg as (d & K1 & K2 & K3 & K4). by exists d.
Qed.

(** What a section is built in: its own buffer. *)
Definition section_ok (type capacity : Z) (body : st enc ls_result_t) : Prop :=
  0 < type < 2 ^ 16 /\ 0 <= capacity < 2 ^ 16 /\ adds bytes_ok body.

Lemma nested_ok type capacity body e : section_ok type capacity body ->
  exists r v t, nested capacity body e = ((r, v), (fst e, t)) /\ tlv_ok (type, v) /\ zlen v <= capacity /\
    (snd e = true -> t = true).
Proof.
  intros (Ht & Hc & Hb). unfold nested.
  destruct (Hb (mk_writer capacity [], snd e)) as (d & H1 & H2 & H3 & H4); [unfold room, w_length; simpl; unfold zlen; simpl; lia|].
  destruct (body _) as [r [w t]]. cbn [fst snd w_capacity w_data app] in *. subst w. exists r, d, t. cbn [w_data].
  unfold room, w_length in H3. cbn [fst w_data w_capacity] in H3. repeat split; cbn [fst snd]; try done; try lia.
Qed.

Lemma grows_nested P (e : enc) t x : (snd e = true -> t = true) -> grows P (fst e, t) x -> grows P e x.
Proof. intros Ht (d & H1 & H2 & H3 & H4). exists d. cbn [fst snd] in *. split_and!; auto. Qed.

Section Sections.
Context (type capacity : Z) (body : st enc ls_result_t) (ok : section_ok type capacity body).

Lemma adds_section : adds tlvs (put_section type capacity body).
Proof using ok.
  intros e He. unfold put_section. destruct (nested_ok type capacity body e ok) as (r & v & t & -> & Hv & _ & Ht).
  apply (grows_nested _ e t); [done|]. case_if; [by apply grows_ret|]. by apply adds_tlv.
Qed.

Lemma adds_optional_section : adds tlvs (put_optional_section type capacity body).
Proof using ok.
  intros e He. unfold put_optional_section. destruct (nested_ok type capacity body e ok) as (r & v & t & -> & Hv & _ & Ht).
  apply (grows_nested _ e t); [done|]. case_if; [by apply grows_ret|]. by apply adds_optional_tlv.
Qed.

Lemma adds_detail_section : adds tlvs (put_detail_section type capacity body).
Proof using ok.
  intros e He. unfold put_detail_section. destruct (nested_ok type capacity body e ok) as (r & v & t & -> & Hv & _ & Ht).
  apply (grows_nested _ e t); [done|].
  destruct r; try (by apply grows_ret); [by apply adds_optional_tlv|by apply grows_mark, grows_ret].
Qed.
End Sections.

Lemma adds_series {A} type capacity (body : A -> st enc ls_result_t) l :
  Forall (fun a => section_ok type capacity (body a)) l -> adds tlvs (put_series type capacity body l).
Proof.
  induction 1 as [|a l Ha Hl IH]; intros e He; [by apply grows_ret|]. cbn [put_series].
  destruct (nested_ok type capacity (body a) e Ha) as (r & v & t & -> & Hv & _ & Ht).
  apply (grows_nested _ e t); [done|]. destruct r; try (by apply grows_ret); [|by apply grows_mark, grows_ret].
  by apply adds_seq; [apply adds_optional_tlv| |].
Qed.

Lemma adds_if P `{!Appendable P} (b : bool) m k : adds P m -> adds P k -> adds P (if b then m else k).
Proof. by destruct b. Qed.

(** The bounds of a section are constants. *)
Ltac section := split; [vm_compute; split; reflexivity|split; [vm_compute; split; [discriminate|reflexivity]|]].

Ltac fields :=
  repeat first [ apply adds_fields | apply (adds_stored_string _ (Some _)) | apply adds_stored_string
               | apply (adds_seq (P := bytes_ok)) ].

(** ** The payload *)

(** What the state and the event give is bytes: strings of the integrator and of the
    tables, and the memory of the device. *)
Record env_ok (env : encode_env) (event : lep_event) : Prop := {
  eok_identity : Forall text_ok (identity_fields env);
  eok_breadcrumbs : Forall (fun r => bytes_ok (br_category r) /\ bytes_ok (br_message r))
                      (r_slots (t_breadcrumbs (sv_telemetry (env_services env))));
  eok_metrics : Forall (fun m => bytes_ok (m_name m)) (t_metrics (sv_telemetry (env_services env)));
  eok_mission : let m := sv_mission (env_services env) in
    bytes_ok (mi_mission_id m) /\ bytes_ok (mi_dive_id m) /\ bytes_ok (mi_node_id m) /\ bytes_ok (mi_vehicle_mode m);
  eok_assertion a : le_assertion event = Some a ->
    text_ok (as_expression a) /\ text_ok (as_file a) /\ text_ok (as_message a);
  eok_read address length_ : bytes_ok (env_read env address length_)
}.

Lemma adds_identity_fields l : Forall text_ok l -> forall i, adds bytes_ok (put_identity_fields i l).
Proof.
  induction 1 as [|text l Ht Hl IH]; intros i e He; [by apply grows_ret|]. cbn [put_identity_fields].
  destruct (_ <? _) eqn:E; [by apply grows_ret|]. bool_prop. apply adds_seq; [|apply IH|done].
  apply adds_string; [done|lia].
Qed.

Lemma adds_identity env event : env_ok env event -> adds tlvs (put_identity env).
Proof.
  intros [Hi _ _ _ _ _] e He. unfold put_identity. set (n := writer_remaining (fst e)).
  destruct (_ <? _) eqn:E; [by apply grows_ret|]. bool_prop. apply adds_section; [|done].
  split; [vm_compute; split; reflexivity|]. split; [|by apply adds_identity_fields].
  destruct (n - 4 >? 512) eqn:E2; rewrite Z.gtb_ltb in E2; blia.
Qed.

Lemma adds_reset env event : adds tlvs (put_reset env event).
Proof. apply adds_section. section. fields. Qed.

Lemma adds_event event : adds tlvs (put_event event).
Proof. apply adds_section. section. fields. Qed.

Lemma adds_cpu64 c b : adds tlvs (put_cpu64 c b).
Proof. apply adds_section. section. fields. Qed.

Lemma adds_cpu cpu riscv64 : adds tlvs (put_cpu cpu riscv64).
Proof.
  intros e He. unfold put_cpu. destruct cpu as [cpu|]; [|by apply grows_ret]. cbv zeta.
  set (full := _ && _ && _). clearbody full. apply adds_seq; [| |done].
  - intros e' He'. case_if; [|by apply grows_ret]. pose proof (adds_cpu64 riscv64 full e' He') as H.
    destruct (put_cpu64 riscv64 full e') as [r e1]. destruct (negb (is_ok r)); [exact H|].
    eapply grows_trans; [exact H|]. apply grows_room in H. destruct full; [by apply grows_ret|by apply grows_mark, grows_ret].
  - apply adds_seq; apply adds_section; section; fields.
Qed.

Lemma ring_list_forall {A} (Q : A -> Prop) cap d (r : ring A) : Q d -> Forall Q (r_slots r) -> Forall Q (ring_list cap d r).
Proof.
  intros Hd Hr. unfold ring_list. apply Forall_map, Forall_forall. intros i _.
  destruct (nth_in_or_default (Z.to_nat (ring_index cap r (Z.of_nat i))) (r_slots r) d) as [H|H].
  - rewrite Forall_forall in Hr. apply Hr. by apply list_elem_of_In.
  - simpl. by rewrite H.
Qed.

Lemma adds_breadcrumbs env event : env_ok env event -> adds tlvs (put_breadcrumbs (sv_telemetry (env_services env))).
Proof.
  intros H. apply adds_series. eapply Forall_impl; [apply ring_list_forall, (eok_breadcrumbs _ _ H)|].
  - split; apply List.Forall_nil.
  - intros r (Hc & Hm). section. unfold breadcrumb_body. fields; done.
Qed.

Lemma adds_metrics env event : env_ok env event -> adds tlvs (put_metrics (sv_telemetry (env_services env))).
Proof.
  intros H. apply adds_series. eapply Forall_impl; [exact (eok_metrics _ _ H)|].
  intros m Hm. section. unfold metric_body. fields; done.
Qed.

Lemma adds_power_health t : adds tlvs (put_power_health t).
Proof.
  apply adds_seq.
  - apply adds_all, Forall_map, Forall_true. intros s. apply adds_optional_section. section. fields.
  - apply adds_optional_section. section. fields.
Qed.

Lemma adds_blackbox t : adds tlvs (put_blackbox t).
Proof.
  unfold put_blackbox. destruct (ls_blackbox_get_stats _) as [stats b]. generalize (Z.to_nat
    (if bs_count stats <? LS_BLACKBOX_ENVELOPE_MAX then bs_count stats else LS_BLACKBOX_ENVELOPE_MAX)). intros n.
  revert b. induction n as [|n IH]; intros b e He; [by apply grows_ret|]. cbn [blackbox_loop].
  destruct (ls_blackbox_get_recent _ b) as [[record|err] b1].
  - destruct (has_bits _ _); [by apply IH|].
    pose proof (adds_optional_section LS_TLV_BLACKBOX 32 (put_fields (blackbox_fields record)) ltac:(section; fields) e He) as H.
    destruct (put_optional_section _ _ _ e) as [r e1]. destruct (negb (is_ok r)); [exact H|].
    eapply grows_trans; [exact H|]. apply grows_room in H. destruct (snd e1); [by apply grows_ret|by apply IH].
  - destruct err; try (by apply grows_ret). by apply IH.
Qed.

(** The services and the details: optional sections of constant size. *)
Ltac optional := intros e He; repeat case_match; try (by apply grows_ret);
  (apply adds_optional_section; [section; fields|exact He]).

Lemma adds_mission env event : env_ok env event -> adds tlvs (put_mission (env_now env) (sv_mission (env_services env))).
Proof.
  intros [_ _ _ (H1 & H2 & H3 & H4) _ _] e He. unfold put_mission. destruct (_ && _); [by apply grows_ret|].
  apply adds_optional_section; [section; fields; done|exact He].
Qed.

Lemma adds_services env s p q :
  adds tlvs (put_time_sync (sv_time_sync s)) /\ adds tlvs (put_provisioning p) /\
  adds tlvs (put_supervisor (ls_supervisor_get_status s)) /\ adds tlvs (put_environment s) /\
  adds tlvs (put_powerfail_seal q) /\ adds tlvs (put_optional_section LS_TLV_HEAP 20 (put_fields (heap_fields env))).
Proof.
  unfold put_time_sync, put_provisioning, put_supervisor, put_environment, put_powerfail_seal. split_and!; optional.
Qed.

Lemma adds_details env event : env_ok env event -> adds tlvs (put_details event).
Proof.
  intros H. unfold put_details. apply adds_seq; [|apply adds_seq]; apply adds_when; intros a Ha.
  - destruct (eok_assertion _ _ H a Ha) as (H1 & H2 & H3). apply adds_detail_section. section. fields; done.
  - apply adds_detail_section. section. fields.
  - apply adds_detail_section. section. fields.
Qed.

Lemma adds_zeros fuel n : adds bytes_ok (put_zeros fuel n).
Proof.
  revert n. induction fuel as [|fuel IH]; intros n e He; [by apply grows_ret|]. cbn [put_zeros].
  destruct (negb _); [|by apply grows_ret]. apply adds_seq; [|apply IH|done]. apply adds_bytes, bytes_ok_fill.
  unfold is_u8. lia.
Qed.

Lemma adds_region_body env event region n mode : env_ok env event -> adds bytes_ok (region_body env region n mode).
Proof.
  intros H. unfold region_body. apply adds_seq; [apply adds_fields|].
  destruct mode as [[]|]; (apply adds_zeros || apply adds_fields || apply adds_bytes, (eok_read _ _ H)).
Qed.

Lemma adds_regions env event t l rest : env_ok env event -> adds tlvs rest -> adds tlvs (put_regions env t l rest).
Proof.
  intros H Hrest. induction l as [|region l IH]; intros e He; [by apply Hrest|]. cbn [put_regions].
  destruct (_ =? 0); [by apply IH|].
  assert (forall e n, room e -> grows tlvs e
    (let mode := ls_redaction_for (dr_address region) n t in
     match mode with
     | Some LS_REDACT_EXCLUDE => put_regions env t l rest (mark_truncated e)
     | _ =>
         let '((result, value), e) := nested (LS_DUMP_REGION_MAX_BYTES + 48) (region_body env region n mode) e in
         match result with
         | LS_ENOSPACE => (LS_OK, mark_truncated e)
         | LS_OK => (put_optional_tlv LS_TLV_MEMORY value (u16 (zlen value)) ;;? put_regions env t l rest) e
         | _ => (result, e)
         end
     end)) as Hr.
  { clear e He. intros e n He. cbv zeta. generalize (ls_redaction_for (dr_address region) n t). intros mode.
    assert (section_ok LS_TLV_MEMORY (LS_DUMP_REGION_MAX_BYTES + 48) (region_body env region n mode)) as Hs.
    { section. eapply adds_region_body. exact H. }
    destruct (nested_ok _ _ _ e Hs) as (r & v & tr & E & Hv & _ & Ht).
    destruct mode as [[]|]; try (apply grows_mark; by apply IH);
      rewrite E; (apply (grows_nested _ e tr); [done|]); (destruct r; try (by apply grows_ret); [|by apply grows_mark, grows_ret]);
      (by apply adds_seq; [apply adds_optional_tlv| |]). }
  destruct (dr_length region >? _); [apply grows_mark|]; by apply Hr.
Qed.

Lemma adds_stack env event t : env_ok env event -> adds tlvs (put_stack env t event).
Proof.
  intros H e He. unfold put_stack. destruct (le_cpu event) as [cpu|]; [|by apply grows_ret].
  destruct (t_stack t) as [[lower upper]|]; [|by apply grows_ret].
  destruct (_ <=? _); [|by apply grows_ret]. cbv zeta. set (sp := if negb _ then _ else _).
  destruct (_ && _); [|by apply grows_ret].
  assert (forall n, adds tlvs (put_detail_section LS_TLV_STACK (LS_STACK_SNAPSHOT_MAX + 8)
    (put_fields [F32 (u32 sp); F32 (u32 n)] ;;? on_writer (ls_writer_write (env_read env sp n))))) as Hs.
  { intros n. apply adds_detail_section. section. apply adds_seq; [apply adds_fields|]. apply adds_bytes, (eok_read _ _ H). }
  destruct (_ >? _); [apply grows_mark|]; by apply Hs.
Qed.

(** The sections after the first three. *)
Definition put_rest (env : encode_env) (event : lep_event) : st enc ls_result_t :=
  let s := env_services env in
  let t := sv_telemetry s in
  put_cpu (le_cpu event) (le_riscv64 event) ;;?
  put_breadcrumbs t ;;?
  put_metrics t ;;?
  put_power_health t ;;?
  put_blackbox t ;;?
  put_mission (env_now env) (sv_mission s) ;;?
  put_time_sync (sv_time_sync s) ;;?
  put_provisioning (env_provisioning env) ;;?
  put_supervisor (ls_supervisor_get_status s) ;;?
  put_environment s ;;?
  put_powerfail_seal (env_powerfail env) ;;?
  put_details event ;;?
  put_memory env event.

Lemma put_payload_split env event :
  put_payload env event = (put_identity env ;;? put_reset env event ;;? put_event event ;;? put_rest env event).
Proof. reflexivity. Qed.

Lemma rest_adds env event : env_ok env event -> adds tlvs (put_rest env event).
Proof.
  intros H. destruct (adds_services (t_heap_stats (sv_telemetry (env_services env))) (env_services env)
    (env_provisioning env) (env_powerfail env)) as (A1 & A2 & A3 & A4 & A5 & A6).
  unfold put_rest. cbv zeta. apply adds_seq; [exact (adds_cpu _ _)|].
  apply adds_seq; [exact (adds_breadcrumbs env event H)|]. apply adds_seq; [exact (adds_metrics env event H)|].
  apply adds_seq; [exact (adds_power_health _)|]. apply adds_seq; [exact (adds_blackbox _)|].
  apply adds_seq; [exact (adds_mission env event H)|]. apply adds_seq; [exact A1|]. apply adds_seq; [exact A2|].
  apply adds_seq; [exact A3|]. apply adds_seq; [exact A4|]. apply adds_seq; [exact A5|].
  apply adds_seq; [exact (adds_details env event H)|].
  unfold put_memory. cbv zeta. set (rest := put_stack _ _ _ ;;? _).
  assert (adds tlvs rest) as Hr by (apply adds_seq; [by eapply adds_stack|exact A6]).
  case_if; [by eapply adds_regions|exact Hr].
Qed.

(** The fields of a payload. *)
Lemma payload_adds env event : env_ok env event -> adds tlvs (put_payload env event).
Proof.
  intros H. rewrite put_payload_split.
  apply adds_seq; [exact (adds_identity env event H)|]. apply adds_seq; [exact (adds_reset env event)|].
  apply adds_seq; [exact (adds_event event)|]. exact (rest_adds env event H).
Qed.

(** ** The mandatory sections *)

Definition field_bytes (f : field) : list Z :=
  match f with F8 v => [u8 v] | F16 v => le 2 v | F32 v => le 4 v | F64 v => le 8 v end.
Definition fields_bytes (fs : list field) : list Z := mjoin (map field_bytes fs).

Lemma put_fields_exact fs : forall w t, zlen (w_data w ++ fields_bytes fs) <= w_capacity w ->
  put_fields fs (w, t) = (LS_OK, (mk_writer (w_capacity w) (w_data w ++ fields_bytes fs), t)).
Proof.
  induction fs as [|f fs IH]; intros w t Hz.
  - unfold fields_bytes. simpl. rewrite app_nil_r. by destruct w.
  - change (fields_bytes (f :: fs)) with (field_bytes f ++ fields_bytes fs) in *. rewrite app_assoc in *.
    cbn [put_fields]. unfold and_then, on_writer. cbn [fst snd].
    assert (put_field f w = (LS_OK, mk_writer (w_capacity w) (w_data w ++ field_bytes f))) as ->.
    { pose proof (zlen_nonneg (fields_bytes fs)). rewrite !zlen_app in Hz.
      assert (put_field f w = ls_writer_write_n (zlen (field_bytes f)) (Some (field_bytes f)) w) as -> by (by destruct f).
      unfold ls_writer_write_n, w_length. cbn [from_option default].
      pose proof (zlen_nonneg (field_bytes f)). destruct (_ || _) eqn:E; [|done]. bool_prop.
      destruct E as [E|E]; [bool_prop; destruct E; blia|blia]. }
    cbn [is_ok]. apply IH. exact Hz.
Qed.

Lemma section_inv type capacity body e e' : section_ok type capacity body -> put_section type capacity body e = (LS_OK, e') ->
  exists v, tlv_ok (type, v) /\ fst e' = mk_writer (w_capacity (fst e)) (w_data (fst e) ++ encode_tlv (type, v)) /\
    exists w, body (mk_writer capacity [], snd e) = (LS_OK, (w, snd e')) /\ v = w_data w.
Proof.
  intros Hs H. unfold put_section in H. pose proof (nested_ok type capacity body e Hs) as (r & v & t & E & Hv & _ & _).
  rewrite E in H. exists v. split; [exact Hv|]. destruct (is_ok r) eqn:Er; cbn [negb] in H.
  - apply is_ok_true in Er. subst r. unfold on_writer in H. cbn [fst snd] in H.
    destruct (writer_tlv_cases (fst e) type v Hv) as [Hw|[Hw _]]; rewrite Hw in H; [done|].
    injection H as <-. split; [done|]. unfold nested in E. destruct (body _) as [r1 [w1 t1]]. injection E as -> <- ->. by exists w1.
  - injection H as -> _. done.
Qed.

(** A section of integers that fits its buffer is complete. *)
Lemma fields_section_inv type capacity fs e e' : 0 < type < 2 ^ 16 -> 0 <= capacity < 2 ^ 16 -> zlen (fields_bytes fs) <= capacity ->
  put_section type capacity (put_fields fs) e = (LS_OK, e') ->
  tlv_ok (type, fields_bytes fs) /\ snd e' = snd e /\
  fst e' = mk_writer (w_capacity (fst e)) (w_data (fst e) ++ encode_tlv (type, fields_bytes fs)).
Proof.
  intros Ht Hc Hz H. apply section_inv in H as (v & Hv & E & w & Hw & ->); [|by split; [|split; [|apply adds_fields]]].
  rewrite put_fields_exact in Hw by exact Hz. injection Hw as <- <-. by split.
Qed.

(** ** The sections of a payload

    What the encoder writes when it has room for everything. *)

(** A string field: number, length and bytes. *)
Definition string_bytes (field : Z) (text : list Z) : list Z := [u8 field; u8 (zlen text)] ++ text.

Fixpoint identity_bytes (index : Z) (texts : list (list Z)) : list Z :=
  match texts with
  | [] => []
  | text :: texts => string_bytes (index + 1) text ++ identity_bytes (index + 1) texts
  end.

Definition text_bytes (text : option (list Z)) : list Z := default [] text.

Definition cpu_sections (cpu : option ls_arch_context_t) (riscv64 : option ls_riscv64_context_t) : list (Z * list Z) :=
  match cpu with
  | None => []
  | Some cpu =>
      match riscv64 with
      | Some c => if ac_architecture cpu =? LS_ARCH_RISCV64 then
                    [(LS_TLV_CPU64, fields_bytes ([F8 1; F8 1; F8 LS_ARCH_RISCV64; F8 8] ++ map F64 (take 32 (rv_x c)) ++
                                                  [F64 (rv_mstatus c); F64 (rv_mcause c); F64 (rv_mtval c); F64 (rv_mepc c)]))]
                  else []
      | None => []
      end ++ [(LS_TLV_CPU, fields_bytes (cpu_fields cpu)); (LS_TLV_FAULT, fields_bytes (fault_fields cpu))]
  end.

Definition breadcrumb_bytes (r : ls_breadcrumb_record_t) : list Z :=
  fields_bytes [F32 (br_at_ms r); F16 (br_message_id r); F8 (br_severity r); F32 (br_category_hash r); F32 (br_message_hash r)] ++
  string_bytes 1 (br_category r) ++ string_bytes 2 (br_message r) ++
  fields_bytes (F8 (br_value_count r) ::
    concat (map (fun kv => [F16 (kv_key_id kv); F8 (kv_type kv); F32 (kv_u32 kv)])
              (take (Z.to_nat (br_value_count r)) (br_values r)))).

Definition metric_bytes (m : ls_metric_record_t) : list Z :=
  fields_bytes [F32 (m_name_hash m)] ++ string_bytes 1 (m_name m) ++
  fields_bytes ([F8 (m_type m); F32 (u32 (m_value m)); F32 (u32 (m_previous m)); F32 (u32 (m_minimum m));
                 F32 (u32 (m_maximum m)); F64 (u64 (m_sum m)); F32 (m_count m); F8 (m_window_count m)] ++
                map (fun v => F32 (u32 v)) (take (Z.to_nat (m_window_count m)) (m_window m))).

Definition telemetry_sections (t : telemetry) : list (Z * list Z) :=
  map (fun r => (LS_TLV_BREADCRUMB, breadcrumb_bytes r)) (ring_list LS_BREADCRUMB_CAPACITY zero_breadcrumb (t_breadcrumbs t)) ++
  map (fun m => (LS_TLV_METRIC, metric_bytes m)) (t_metrics t) ++
  map (fun s => (LS_TLV_POWER, fields_bytes (power_fields s))) (power_list t) ++
  [(LS_TLV_HEALTH, fields_bytes [F32 (t_watchdog_last_feed t); F16 (t_watchdog_checkpoint t);
                                 F32 (ls_hash_string (Some (t_active_task t)))])].

(** The record of an age, unless there is none or it is sensitive. *)
Definition blackbox_section (b : ls_blackbox_retained_t) (age : nat) : option (Z * list Z) :=
  match fst (ls_blackbox_get_recent (Z.of_nat age) b) with
  | Ok r => if has_bits (bb_flags r) LS_BLACKBOX_SENSITIVE then None else Some (LS_TLV_BLACKBOX, fields_bytes (blackbox_fields r))
  | Err _ => None
  end.

(** At most [LS_BLACKBOX_ENVELOPE_MAX] records, the oldest first. *)
Definition blackbox_sections (t : telemetry) : list (Z * list Z) :=
  let count := bs_count (fst (ls_blackbox_get_stats (t_blackbox t))) in
  omap (blackbox_section (t_blackbox t)) (rev (List.seq 0 (Z.to_nat (Z.min count LS_BLACKBOX_ENVELOPE_MAX)))).

Definition mission_sections (now : Z) (m : ls_mission_context_t) : list (Z * list Z) :=
  if (match mi_mission_id m with [] => true | _ => false end) && negb (mi_incident_active m) then []
  else [(LS_TLV_MISSION,
    fields_bytes [F8 1; F32 (ls_hash_string (Some (mi_mission_id m))); F32 (ls_hash_string (Some (mi_dive_id m)));
                  F32 (ls_hash_string (Some (mi_node_id m))); F32 (ls_hash_string (Some (mi_vehicle_mode m)));
                  F32 (mi_phase m); F32 (u32 (mi_depth_cm m)); F32 (ls_mission_elapsed_ms now m);
                  F64 (mi_incident_hi m); F64 (mi_incident_lo m); F8 (of_bool (mi_incident_active m))] ++
    string_bytes 1 (mi_mission_id m) ++ string_bytes 2 (mi_dive_id m) ++ string_bytes 3 (mi_node_id m) ++
    string_bytes 4 (mi_vehicle_mode m))].

(** A section of integers, where a condition holds. *)
Definition fields_section (present : bool) (type : Z) (fs : list field) : list (Z * list Z) :=
  if present then [(type, fields_bytes fs)] else [].

Definition service_sections (s : services) (p : ls_provisioning_state_t) (seal : option ls_powerfail_seal_info_t) : list (Z * list Z) :=
  let t := sv_time_sync s in
  let x := ls_supervisor_get_status s in
  let v := sv_environment s in
  let l := ev_last v in
  fields_section (ts_synchronized t) LS_TLV_TIME_SYNC
    [F8 1; F8 (ts_source t); F64 (ts_utc_ms_at_sync t); F32 (ts_monotonic_ms_at_sync t); F32 (ts_uncertainty_ms t); F32 (ts_generation t)] ++
  fields_section (negb ((ps_state p =? LS_PROVISIONING_UNPROVISIONED) && (ps_generation p =? 0))) LS_TLV_PROVISIONING
    [F8 1; F8 (ps_state p); F32 (ps_key_id p); F32 (ps_pending_key_id p); F32 (ps_generation p); F32 (ps_monotonic_counter p)] ++
  fields_section (ss_configured x) LS_TLV_SUPERVISOR
    [F8 1; F32 (ss_active_alarms x); F32 (ss_previous_alarms x); F32 (ss_transitions x); F32 (ss_last_change_ms x)] ++
  fields_section (negb (ev_sample_count v =? 0)) LS_TLV_ENVIRONMENT
    [F8 1; F32 (es_timestamp_ms l); F32 (es_pressure_pa l); F32 (u32 (es_depth_cm l)); F16 (u16 (es_internal_temperature_c l));
     F16 (es_humidity_permyriad l); F16 (es_vibration_mg_rms l); F16 (es_flags l); F32 (ev_sample_count v); F32 (ev_leak_events v)] ++
  match seal with
  | None => []
  | Some i => fields_section (pi_sealed_ok i && (pi_reason i <=? LS_POWERFAIL_PVD)) LS_TLV_POWERFAIL_SEAL
                [F8 1; F8 (pi_reason i); F8 (pi_tier i); F16 (pi_vcap_mv i); F32 (pi_boot_id i); F32 (pi_fault i)]
  end.

Definition detail_sections (event : lep_event) : list (Z * list Z) :=
  match le_assertion event with
  | Some a => [(LS_TLV_ASSERT,
      fields_bytes [F32 (u32 (as_line a)); F32 (ls_hash_string (as_expression a)); F32 (ls_hash_string (as_file a))] ++
      string_bytes 1 (text_bytes (as_expression a)) ++ string_bytes 2 (text_bytes (as_file a)) ++
      string_bytes 3 (text_bytes (as_message a)))]
  | None => []
  end ++
  match le_peripheral event with
  | Some p => fields_section true LS_TLV_PERIPHERAL
      ([F8 (pf_domain p); F16 (pf_fault p); F16 (pf_instance p); F32 (pf_status p); F32 (pf_address p); F32 (pf_reg p);
        F32 (pf_timeout_ms p)] ++ map F32 (take 4 (pf_auxiliary p)))
  | None => []
  end ++
  match le_log event with
  | Some l => fields_section true LS_TLV_LOG
      ([F16 (lg_message_id l); F16 (lg_format_id l); F8 (lg_argument_count l)] ++
       map F32 (take (Z.to_nat (lg_argument_count l)) (lg_arguments l)))
  | None => []
  end.

(** [length] bytes of a region, as its redaction lets them out; an excluded one is not
    written at all. *)
Definition region_bytes (env : encode_env) (t : telemetry) (r : ls_dump_region_t) (length : Z) : list Z :=
  fields_bytes [F32 (ls_hash_string (dr_name r)); F32 (u32 (dr_address r)); F32 (u32 (dr_length r)); F32 (dr_flags r)] ++
  match ls_redaction_for (dr_address r) length t with
  | Some LS_REDACT_HASH => le 4 (ls_crc32 (env_read env (dr_address r) length))
  | Some LS_REDACT_ZERO => fill length 0
  | Some LS_REDACT_EXCLUDE => []
  | None => env_read env (dr_address r) length
  end.

Definition safe_region (r : ls_dump_region_t) : bool := negb (Z.land (dr_flags r) LS_DUMP_SAFE =? 0).

Definition region_section (env : encode_env) (t : telemetry) (r : ls_dump_region_t) : Z * list Z :=
  (LS_TLV_MEMORY, region_bytes env t r (dr_length r)).

Definition memory_sections (env : encode_env) (event : lep_event) : list (Z * list Z) :=
  let t := sv_telemetry (env_services env) in
  (if LS_CAPTURE_SELECTIVE <=? le_capture_level event
   then map (region_section env t) (List.filter safe_region (t_dump_regions t))
   else []) ++
  match le_cpu event, t_stack t with
  | Some cpu, Some (lower, upper) =>
      let sp := if negb (ac_psp cpu =? 0) then ac_psp cpu else ac_msp cpu in
      if (LS_CAPTURE_STACK <=? le_capture_level event) && ((lower <=? sp) && (sp <? upper))
      then [(LS_TLV_STACK, fields_bytes [F32 (u32 sp); F32 (u32 (upper - sp))] ++ env_read env sp (upper - sp))] else []
  | _, _ => []
  end ++
  [(LS_TLV_HEAP, fields_bytes (heap_fields (t_heap_stats t)))].

Definition payload_sections (env : encode_env) (event : lep_event) : list (Z * list Z) :=
  let s := env_services env in
  let t := sv_telemetry s in
  [(LS_TLV_IDENTITY, identity_bytes 0 (map text_bytes (identity_fields env)));
   (LS_TLV_RESET, fields_bytes (reset_fields env event));
   (LS_TLV_EVENT, fields_bytes (event_fields event))] ++
  cpu_sections (le_cpu event) (le_riscv64 event) ++
  telemetry_sections t ++
  blackbox_sections t ++
  mission_sections (env_now env) (sv_mission s) ++
  service_sections s (env_provisioning env) (env_powerfail env) ++
  detail_sections event ++
  memory_sections env event.

(** ** Exactly those sections are written *)

(** What is written is a list of bytes, or a list of well-formed sections. *)
Class Wire (A : Type) : Type := {
  wire : list A -> list Z;
  fine : list A -> Prop;
  wire_nil : wire [] = [];
  wire_app a b : wire (a ++ b) = wire a ++ wire b;
  fine_nil : fine [];
  fine_app a b : fine a -> fine b -> fine (a ++ b)
}.

#[export] Instance wire_bytes : Wire Z.
Proof. refine {| wire := id; fine := fun _ => True |}; done. Defined.

#[export] Instance wire_sections : Wire (Z * list Z).
Proof.
  refine {| wire := encode_tlvs; fine := Forall tlv_ok |}; [done|exact encode_tlvs_app|constructor|].
  intros. by apply Forall_app.
Defined.

Section Wrote.
Context {A : Type} `{!Wire A}.

(** [x] is an outcome that, unless it is an error or marked truncated, has appended [d]. *)
Definition wrote (d : list A) (e : enc) (x : ls_result_t * enc) : Prop :=
  fst x = LS_OK -> snd (snd x) = false ->
  snd e = false /\ fst (snd x) = mk_writer (w_capacity (fst e)) (w_data (fst e) ++ wire d) /\ fine d.

Definition writes (d : list A) (m : st enc ls_result_t) : Prop := forall e, wrote d e (m e).

Lemma wrote_ret e : wrote [] e (LS_OK, e).
Proof. intros _ H. split; [exact H|]. rewrite wire_nil, app_nil_r. split; [by destruct e as [[]]|apply fine_nil]. Qed.

Lemma wrote_error d e r e' : r <> LS_OK -> wrote d e (r, e').
Proof. by intros H ?. Qed.

Lemma wrote_marked d e r e' : snd e' = true -> wrote d e (r, e').
Proof. intros H _ H'. cbn [snd] in H'. congruence. Qed.

Lemma wrote_mark d d' e x : wrote d (mark_truncated e) x -> wrote d' e x.
Proof. intros H H1 H2. by destruct (H H1 H2) as [? _]. Qed.

Lemma wrote_trans d d' e r e1 x : wrote d e (r, e1) -> r = LS_OK -> wrote d' e1 x -> wrote (d ++ d') e x.
Proof.
  intros H Hr H' K1 K2. destruct (H' K1 K2) as (L1 & -> & F'). destruct (H Hr L1) as (M1 & M2 & F). cbn [fst snd] in M2.
  split; [exact M1|]. rewrite M2, wire_app. cbn [w_capacity w_data]. rewrite app_assoc. split; [done|by apply fine_app].
Qed.

Lemma writes_ret : writes [] (mret LS_OK).
Proof. intros e. apply wrote_ret. Qed.

Lemma writes_seq d d' m k : writes d m -> writes d' k -> writes (d ++ d') (m ;;? k).
Proof.
  intros Hm Hk e. unfold and_then. pose proof (Hm e) as H. destruct (m e) as [r e1]. destruct (is_ok r) eqn:Er.
  - apply is_ok_true in Er. by eapply wrote_trans.
  - apply is_ok_false in Er. by apply wrote_error.
Qed.

Lemma writes_eq d d' m : writes d m -> d = d' -> writes d' m.
Proof. by intros H <-. Qed.

Lemma writes_ext d m m' : writes d m -> (forall e, m e = m' e) -> writes d m'.
Proof. intros H E e. rewrite <- E. apply H. Qed.
End Wrote.

Lemma writes_on_writer (d : list Z) m : (forall w, m w = (LS_ENOSPACE, w) \/
    (m w = (LS_OK, mk_writer (w_capacity w) (w_data w ++ d)) /\ zlen (w_data w ++ d) <= w_capacity w)) ->
  writes d (on_writer m).
Proof.
  intros H [w t]. unfold on_writer. cbn [fst snd]. destruct (H w) as [->|[-> _]]; [by apply wrote_error|].
  intros _ Ht. by split.
Qed.

Lemma writes_bytes d : writes d (on_writer (ls_writer_write d)).
Proof. apply writes_on_writer. intros w. exact (write_n_cases w (zlen d) (Some d) eq_refl). Qed.

Lemma writes_field f : writes (field_bytes f) (on_writer (put_field f)).
Proof. destruct f; apply writes_bytes. Qed.

Lemma writes_fields fs : writes (fields_bytes fs) (put_fields fs).
Proof.
  induction fs as [|f fs IH]; [apply writes_ret|]. change (fields_bytes (f :: fs)) with (field_bytes f ++ fields_bytes fs).
  apply writes_seq; [apply writes_field|exact IH].
Qed.

Lemma writer_seq_ok (a b : st ls_writer_t ls_result_t) w w' d : (a ;;? b) w = (LS_OK, w') ->
  a w = (LS_ENOSPACE, w) \/ (a w = (LS_OK, mk_writer (w_capacity w) (w_data w ++ d)) /\ zlen (w_data w ++ d) <= w_capacity w) ->
  b (mk_writer (w_capacity w) (w_data w ++ d)) = (LS_OK, w').
Proof. unfold and_then. intros H [E|[E _]]; rewrite E in H; [done|exact H]. Qed.

(** A string field that was written holds the bytes given. *)
Lemma string_written field text w w' :
  (ls_writer_u8 field ;;? ls_writer_u8 (zlen (text_bytes text)) ;;? ls_writer_write_n (zlen (text_bytes text)) text) w = (LS_OK, w') ->
  w' = mk_writer (w_capacity w) (w_data w ++ string_bytes field (text_bytes text)).
Proof.
  intros H. apply (writer_seq_ok _ _ _ _ [u8 field]) in H; [|exact (write_n_cases w 1 (Some [u8 field]) eq_refl)].
  eapply (writer_seq_ok _ _ _ _ [u8 (zlen (text_bytes text))]) in H;
    [|exact (write_n_cases _ 1 (Some [u8 (zlen (text_bytes text))]) eq_refl)].
  cbn [w_capacity w_data] in H. destruct (write_n_cases (mk_writer (w_capacity w) ((w_data w ++ [u8 field]) ++ [u8 (zlen (text_bytes text))]))
    (zlen (text_bytes text)) text eq_refl) as [E|[E _]]; rewrite E in H; [done|].
  injection H as <-. cbn [w_capacity w_data]. unfold string_bytes, text_bytes. by rewrite <- !app_assoc.
Qed.

(** It holds the whole text, or a prefix of it where that is marked. *)
Lemma put_string_cut field text limit e e' : 0 <= limit -> put_string_field field text limit e = (LS_OK, e') ->
  exists cut, cut `prefix_of` text_bytes text /\
    fst e' = mk_writer (w_capacity (fst e)) (w_data (fst e) ++ string_bytes field cut) /\
    (snd e' = false -> snd e = false /\ cut = text_bytes text).
Proof.
  intros Hl. unfold put_string_field. assert (ls_string_length text = zlen (text_bytes text)) as -> by (by destruct text).
  pose proof (zlen_nonneg (text_bytes text)) as Hz.
  assert (forall n (e0 : enc), 0 <= n <= zlen (text_bytes text) -> fst e0 = fst e ->
    (snd e0 = false -> snd e = false /\ n = zlen (text_bytes text)) ->
    on_writer (ls_writer_u8 field ;;? ls_writer_u8 n ;;? ls_writer_write_n n (take (Z.to_nat n) <$> text)) e0 = (LS_OK, e') ->
    exists cut, cut `prefix_of` text_bytes text /\
      fst e' = mk_writer (w_capacity (fst e)) (w_data (fst e) ++ string_bytes field cut) /\
      (snd e' = false -> snd e = false /\ cut = text_bytes text)) as H.
  { intros n e0 Hn Ef Ht E. exists (take (Z.to_nat n) (text_bytes text)). split; [by eexists; rewrite take_drop|].
    assert (text_bytes (take (Z.to_nat n) <$> text) = take (Z.to_nat n) (text_bytes text)) as Ec
      by (unfold text_bytes; destruct text; cbn; by rewrite ?take_nil).
    assert (zlen (text_bytes (take (Z.to_nat n) <$> text)) = n) as Zc by (rewrite Ec; unfold zlen in *; rewrite length_take; lia).
    unfold on_writer in E. rewrite <- Zc in E at 1 2.
    match type of E with (let '(_, _) := ?x in _) = _ => destruct x as [r w] eqn:Ew end. injection E as -> <-. apply string_written in Ew. rewrite Ec, Ef in Ew.
    split; [exact Ew|]. cbn [snd]. intros Hs. destruct (Ht Hs) as [K En]. split; [exact K|]. apply take_ge. unfold zlen in *. lia. }
  destruct (zlen (text_bytes text) >? 255) eqn:E1; destruct (_ >? limit) eqn:E2; rewrite ?Z.gtb_ltb in *; bool_prop;
    (apply H; [lia|done|intros; by split || done]).
Qed.

Lemma writes_stored_string field text : writes (string_bytes field (text_bytes text)) (put_stored_string field text).
Proof.
  intros e Hr Ht. unfold put_stored_string in *. destruct (put_string_field _ _ _ e) as [r e'] eqn:E. cbn [fst snd] in *. subst r.
  apply put_string_cut in E as (cut & _ & Hw & Hc); [|apply string_value_capacity_nonneg].
  destruct (Hc Ht) as [K ->]. by split.
Qed.

(** The identity: each field holds its text or a prefix of it. *)
Lemma identity_cut texts : forall index e e', put_identity_fields index texts e = (LS_OK, e') ->
  exists cuts, Forall2 (fun cut text => cut `prefix_of` text_bytes text) cuts texts /\
    fst e' = mk_writer (w_capacity (fst e)) (w_data (fst e) ++ identity_bytes index cuts) /\
    (snd e' = false -> snd e = false /\ cuts = map text_bytes texts).
Proof.
  induction texts as [|text texts IH]; intros index e e' H.
  { injection H as <-. exists []. split; [constructor|]. cbn [identity_bytes]. rewrite app_nil_r. split; [by destruct e as [[]]|]. by split. }
  cbn [put_identity_fields] in H. destruct (_ <? _) eqn:E; [done|]. bool_prop.
  apply and_then_inv in H as [[_ ?]|(e1 & H1 & H)]; [done|].
  apply put_string_cut in H1 as (cut & P1 & W1 & C1); [|lia].
  apply IH in H as (cuts & P2 & W2 & C2). exists (cut :: cuts). split; [by constructor|]. cbn [identity_bytes].
  split; [by rewrite W2, W1; cbn [w_capacity w_data]; rewrite app_assoc|].
  intros Ht. destruct (C2 Ht) as [K ->]. destruct (C1 K) as [? ->]. by split.
Qed.

Lemma wire_one (f : Z * list Z) : wire [f] = encode_tlv f.
Proof. exact (app_nil_r (encode_tlv f)). Qed.

Section Written.
Context (type capacity : Z) (body : st enc ls_result_t) (ok : section_ok type capacity body).
Context (d : list Z) (writes_body : writes d body).

Lemma nested_writes e : exists r v t, nested capacity body e = ((r, v), (fst e, t)) /\ tlv_ok (type, v) /\
  (r = LS_OK -> t = false -> snd e = false /\ v = d).
Proof using ok writes_body.
  destruct (nested_ok type capacity body e ok) as (r & v & t & E & Hv & _). exists r, v, t. split; [exact E|]. split; [exact Hv|].
  unfold nested in E. pose proof (writes_body (mk_writer capacity [], snd e)) as H.
  destruct (body _) as [r0 [w t0]]. injection E as -> <- ->. intros Hr Ht. destruct (H Hr Ht) as (K & Hw & _). cbn [fst snd] in Hw. by rewrite Hw.
Qed.

Lemma wrote_tlv (e : enc) v t : tlv_ok (type, v) -> (t = false -> snd e = false /\ v = d) ->
  wrote [(type, d)] e (on_writer (ls_writer_tlv type v (u16 (zlen v))) (fst e, t)).
Proof.
  intros Hv Ht. unfold on_writer. cbn [fst snd]. destruct (writer_tlv_cases (fst e) type v Hv) as [->|[-> _]]; [by apply wrote_error|].
  intros _ H. cbn [fst snd] in *. destruct (Ht H) as [K ->]. split; [exact K|]. rewrite wire_one. split; [done|by apply List.Forall_cons].
Qed.

Lemma wrote_optional_tlv (e : enc) v t : tlv_ok (type, v) -> (t = false -> snd e = false /\ v = d) ->
  wrote [(type, d)] e (put_optional_tlv type v (u16 (zlen v)) (fst e, t)).
Proof.
  intros Hv Ht. pose proof (wrote_tlv e v t Hv Ht) as H. unfold put_optional_tlv.
  destruct (on_writer _ _) as [r e1]. destruct r; first [exact H|by apply wrote_marked].
Qed.

Lemma writes_section : writes [(type, d)] (put_section type capacity body).
Proof using ok writes_body.
  intros e. unfold put_section. destruct (nested_writes e) as (r & v & t & -> & Hv & H).
  destruct (is_ok r) eqn:Er; cbn [negb]; [|apply is_ok_false in Er; by apply wrote_error].
  apply is_ok_true in Er. apply wrote_tlv; auto.
Qed.

Lemma writes_optional_section : writes [(type, d)] (put_optional_section type capacity body).
Proof using ok writes_body.
  intros e. unfold put_optional_section. destruct (nested_writes e) as (r & v & t & -> & Hv & H).
  destruct (is_ok r) eqn:Er; cbn [negb]; [|apply is_ok_false in Er; by apply wrote_error].
  apply is_ok_true in Er. apply wrote_optional_tlv; auto.
Qed.

Lemma writes_detail_section : writes [(type, d)] (put_detail_section type capacity body).
Proof using ok writes_body.
  intros e. unfold put_detail_section. destruct (nested_writes e) as (r & v & t & -> & Hv & H).
  destruct r; try (by apply wrote_error); [apply wrote_optional_tlv; auto|by apply wrote_marked].
Qed.
End Written.

Lemma writes_series {A} type capacity (body : A -> st enc ls_result_t) (value : A -> list Z) l :
  Forall (fun a => section_ok type capacity (body a)) l -> (forall a, writes (value a) (body a)) ->
  writes (map (fun a => (type, value a)) l) (put_series type capacity body l).
Proof.
  intros Hl Hv. induction Hl as [|a l Ha Hl IH]; [apply writes_ret|]. intros e. cbn [put_series map].
  destruct (nested_writes type capacity (body a) Ha (value a) (Hv a) e) as (r & v & t & -> & Hok & H).
  destruct r; try (by apply wrote_error); [|by apply wrote_marked].
  unfold and_then. pose proof (wrote_optional_tlv type (value a) e v t Hok (H eq_refl)) as Hw.
  destruct (put_optional_tlv _ _ _ _) as [r e1]. destruct (is_ok r) eqn:Er; [|apply is_ok_false in Er; by apply wrote_error].
  apply is_ok_true in Er. change ((type, value a) :: map (fun a => (type, value a)) l) with ([(type, value a)] ++ map (fun a => (type, value a)) l).
  eapply wrote_trans; [|exact Er|apply IH].
  exact Hw.
Qed.

(** The bodies made of integers and strings. *)
Ltac written :=
  repeat first [ apply writes_fields | apply (writes_stored_string _ (Some _)) | apply writes_stored_string | eapply writes_seq ].

Lemma writes_cpu64 c : writes [(LS_TLV_CPU64, fields_bytes ([F8 1; F8 1; F8 LS_ARCH_RISCV64; F8 8] ++
    map F64 (take 32 (rv_x c)) ++ [F64 (rv_mstatus c); F64 (rv_mcause c); F64 (rv_mtval c); F64 (rv_mepc c)]))]
  (put_cpu64 (Some c) true).
Proof. apply writes_section; [section; fields|apply writes_fields]. Qed.

Lemma cpu_written cpu riscv64 : writes (cpu_sections cpu riscv64) (put_cpu cpu riscv64).
Proof.
  destruct cpu as [cpu|]; [|apply writes_ret]. intros e. unfold put_cpu. cbv zeta.
  set (full := _ && _ && _). assert (full = true -> is_Some riscv64 /\ (ac_architecture cpu =? LS_ARCH_RISCV64) = true) as Hfull.
  { unfold full. intros H. apply andb_true_iff in H as [H _]. apply andb_true_iff in H as [H1 H2]. destruct riscv64; by split. }
  clearbody full. revert e. apply writes_seq.
  - intros e. destruct (ac_architecture cpu =? LS_ARCH_RISCV64) eqn:Ea; [|destruct riscv64; apply wrote_ret].
    destruct full.
    + destruct (Hfull eq_refl) as [[c ->] _]. pose proof (writes_cpu64 c e) as H.
      destruct (put_cpu64 (Some c) true e) as [r e1]. destruct (is_ok r) eqn:Er; cbn [negb]; [|apply is_ok_false in Er; by apply wrote_error].
      apply is_ok_true in Er. subst r. exact H.
    + destruct (put_cpu64 riscv64 false e) as [r e1]. destruct (is_ok r) eqn:Er; cbn [negb]; [by apply wrote_marked|].
      apply is_ok_false in Er. by apply wrote_error.
  - apply (writes_seq [_] [_]); (apply writes_section; [section; fields|apply writes_fields]).
Qed.

Lemma telemetry_written env event fs k : env_ok env event -> writes fs k -> let t := sv_telemetry (env_services env) in
  writes (telemetry_sections t ++ fs) (put_breadcrumbs t ;;? put_metrics t ;;? put_power_health t ;;? k).
Proof.
  intros H Hk t. unfold telemetry_sections. rewrite <- !app_assoc. apply writes_seq; [|apply writes_seq].
  - apply writes_series.
    + eapply Forall_impl; [apply ring_list_forall, (eok_breadcrumbs _ _ H)|].
      * split; apply List.Forall_nil.
      * intros r (Hc & Hm). section. unfold breadcrumb_body. fields; done.
    + intros r. unfold breadcrumb_body, breadcrumb_bytes. written.
  - apply writes_series.
    + eapply Forall_impl; [exact (eok_metrics _ _ H)|]. intros m Hm. section. unfold metric_body. fields; done.
    + intros m. unfold metric_body, metric_bytes. written.
  - rewrite app_assoc. apply writes_seq; [|exact Hk]. apply writes_seq.
    + induction (power_list t) as [|s l IH]; [apply writes_ret|]. cbn [map put_all]. apply (writes_seq [_]); [|exact IH].
      apply writes_optional_section; [section; fields|apply writes_fields].
    + apply writes_optional_section; [section; fields|apply writes_fields].
Qed.

(** The black box. *)
Lemma ensure_init_twice b : ensure_init (ensure_init b) = ensure_init b.
Proof.
  assert (bb_magic (ensure_init b) = LS_BLACKBOX_MAGIC) as Hm.
  { unfold ensure_init. destruct (bb_magic b =? LS_BLACKBOX_MAGIC) eqn:E; cbn [negb]; [by apply Z.eqb_eq|].
    unfold ls_blackbox_init. by rewrite E. }
  unfold ensure_init at 1. by rewrite Hm.
Qed.

Lemma get_recent_ensured age b : fst (ls_blackbox_get_recent age (ensure_init b)) = fst (ls_blackbox_get_recent age b) /\
  snd (ls_blackbox_get_recent age b) = ensure_init b.
Proof.
  unfold ls_blackbox_get_recent. rewrite ensure_init_twice. split; [done|].
  destruct (scan _) as [n v]. case_if; [done|]. by destruct (find_sequence _ _).
Qed.

Lemma get_recent_error age b r : fst (ls_blackbox_get_recent age b) = Err r -> r = LS_EAGAIN.
Proof.
  unfold ls_blackbox_get_recent. destruct (scan _) as [n v]. case_if; [by intros [= <-]|].
  destruct (find_sequence _ _); [done|by intros [= <-]].
Qed.

Lemma blackbox_loop_written n : forall b, writes (omap (blackbox_section b) (rev (List.seq 0 n))) (blackbox_loop n b).
Proof.
  induction n as [|n IH]; intros b; [apply writes_ret|]. intros e. cbn [blackbox_loop].
  rewrite seq_S, rev_app_distr. cbn [rev app omap list_omap Nat.add]. destruct (get_recent_ensured (Z.of_nat n) b) as [_ Hb].
  assert (forall b', omap (blackbox_section (ensure_init b')) (rev (List.seq 0 n)) = omap (blackbox_section b') (rev (List.seq 0 n))) as Hs.
  { intros b'. apply list_omap_ext, Forall_Forall2_diag, Forall_true. intros age. unfold blackbox_section.
    by rewrite (proj1 (get_recent_ensured _ b')). }
  destruct (ls_blackbox_get_recent _ b) as [r b1] eqn:E. cbn [snd] in Hb. subst b1.
  assert (fst (ls_blackbox_get_recent (Z.of_nat n) b) = r) as Er by (by rewrite E).
  unfold blackbox_section at 1. rewrite Er. destruct r as [record|err].
  - destruct (has_bits _ _); [rewrite <- Hs; apply IH|].
    pose proof (writes_optional_section LS_TLV_BLACKBOX 32 (put_fields (blackbox_fields record)) ltac:(section; fields) _ (writes_fields _) e) as H.
    destruct (put_optional_section _ _ _ e) as [r e1]. destruct (is_ok r) eqn:Eo; cbn [negb]; [|apply is_ok_false in Eo; by apply wrote_error].
    apply is_ok_true in Eo. destruct (snd e1) eqn:Et; [by apply wrote_marked|]. rewrite <- Hs.
    change (?a :: ?l) with ([a] ++ l). eapply wrote_trans; [|exact Eo|apply IH].
    exact H.
  - apply get_recent_error in Er as ->. rewrite <- Hs. apply IH.
Qed.

Lemma blackbox_written t : writes (blackbox_sections t) (put_blackbox t).
Proof.
  unfold blackbox_sections, put_blackbox, ls_blackbox_get_stats. cbn [fst]. set (count := bs_count _).
  assert ((if count <? LS_BLACKBOX_ENVELOPE_MAX then count else LS_BLACKBOX_ENVELOPE_MAX) = Z.min count LS_BLACKBOX_ENVELOPE_MAX) as ->
    by (case_if; blia).
  eapply writes_eq; [apply blackbox_loop_written|]. apply list_omap_ext, Forall_Forall2_diag, Forall_true.
  intros age. unfold blackbox_section. by rewrite (proj1 (get_recent_ensured _ _)).
Qed.

(** Freezing the black box changes nothing that is read from it. *)
Lemma blackbox_freeze_same t : forall v, (forall b, v b = set_frozen 1 b) ->
  bb_magic (t_blackbox t) = LS_BLACKBOX_MAGIC -> forall age,
  blackbox_section (v (t_blackbox t)) age = blackbox_section (t_blackbox t) age /\
  bs_count (fst (ls_blackbox_get_stats (v (t_blackbox t)))) = bs_count (fst (ls_blackbox_get_stats (t_blackbox t))).
Proof.
  intros v Hv Hm age. rewrite Hv. set (b := t_blackbox t) in *. clearbody b.
  assert (ensure_init b = b) as E1 by (unfold ensure_init; by rewrite Hm).
  assert (ensure_init (set_frozen 1 b) = set_frozen 1 b) as E2 by (unfold ensure_init, set_frozen; cbn [bb_magic]; by rewrite Hm).
  split.
  - unfold blackbox_section, ls_blackbox_get_recent. rewrite E1, E2. change (scan (set_frozen 1 b)) with (scan b).
    destruct (scan b) as [n k]. case_if; [reflexivity|].
    assert (forall q, find_sequence q (set_frozen 1 b) = find_sequence q b) as Hf by (intros q; reflexivity).
    rewrite Hf. by destruct (find_sequence _ b).
  - unfold ls_blackbox_get_stats. by rewrite E1, E2.
Qed.

(** *** Services *)

Lemma mission_written env event : env_ok env event -> let m := sv_mission (env_services env) in
  writes (mission_sections (env_now env) m) (put_mission (env_now env) m).
Proof.
  intros [_ _ _ (H1 & H2 & H3 & H4) _ _] m. unfold mission_sections, put_mission. fold m in H1, H2, H3, H4. clearbody m. intros e.
  destruct (_ && _); [apply wrote_ret|]. revert e. apply writes_optional_section; [section; fields; done|]. written.
Qed.

(** A section of integers, where it is present. *)
Lemma optional_written (present : bool) type capacity fs : 0 < type < 2 ^ 16 -> 0 <= capacity < 2 ^ 16 ->
  writes (fields_section present type fs)
    (fun e => if present then put_optional_section type capacity (put_fields fs) e else (LS_OK, e)).
Proof.
  intros Ht Hc e. destruct present; [|apply wrote_ret]. revert e. apply writes_optional_section; [|apply writes_fields].
  split; [done|]. split; [done|]. apply adds_fields.
Qed.

Lemma sections_absent (b : bool) type fs capacity (m : st enc ls_result_t) : 0 < type < 2 ^ 16 -> 0 <= capacity < 2 ^ 16 ->
  (forall e, m e = if b then (LS_OK, e) else put_optional_section type capacity (put_fields fs) e) ->
  writes (fields_section (negb b) type fs) m.
Proof. intros Ht Hc Hm. eapply writes_ext; [by apply (optional_written (negb b) type capacity)|]. intros e. rewrite Hm. by destruct b. Qed.

Lemma services_written s p q fs k : writes fs k -> writes (service_sections s p q ++ fs)
  (put_time_sync (sv_time_sync s) ;;? put_provisioning p ;;? put_supervisor (ls_supervisor_get_status s) ;;?
   put_environment s ;;? put_powerfail_seal q ;;? k).
Proof.
  intros Hk. unfold service_sections. cbv zeta. rewrite <- !app_assoc.
  apply writes_seq; [|apply writes_seq; [|apply writes_seq; [|apply writes_seq; [|apply writes_seq; [|exact Hk]]]]].
  - rewrite <- (negb_involutive (ts_synchronized _)). by apply (sections_absent _ _ _ 32).
  - by apply (sections_absent _ _ _ 32).
  - rewrite <- (negb_involutive (ss_configured _)). by apply (sections_absent _ _ _ 24).
  - by apply (sections_absent _ _ _ 40).
  - destruct q as [i|]; [|apply writes_ret]. rewrite <- (negb_involutive (_ && _)). apply (sections_absent _ _ _ 16); try done.
    intros e. unfold put_powerfail_seal. destruct (pi_sealed_ok i); cbn [negb andb]; [|done]. rewrite Z.gtb_ltb, Z.ltb_antisym. done.
Qed.

(** *** Details and memory *)

Lemma details_written env event : env_ok env event -> writes (detail_sections event) (put_details event).
Proof.
  intros H. unfold detail_sections, put_details. apply writes_seq; [|apply writes_seq].
  - destruct (le_assertion event) as [a|] eqn:Ha; [|apply writes_ret]. destruct (eok_assertion _ _ H a Ha) as (H1 & H2 & H3).
    apply writes_detail_section; [section; fields; done|]. written.
  - destruct (le_peripheral event) as [p|]; [|apply writes_ret]. apply writes_detail_section; [section; fields|]. written.
  - destruct (le_log event) as [l|]; [|apply writes_ret]. apply writes_detail_section; [section; fields|]. written.
Qed.

Lemma zeros_written fuel : forall n, n <= Z.of_nat fuel -> writes (fill n 0) (put_zeros fuel n).
Proof.
  induction fuel as [|fuel IH]; intros n Hn e.
  - assert (fill n 0 = []) as -> by (unfold fill; by rewrite (proj2 (Z2Nat.inj_iff n 0 _ _)) || (replace (Z.to_nat n) with 0%nat by lia)).
    apply wrote_ret.
  - cbn [put_zeros]. destruct (n =? 0) eqn:E; cbn [negb]; bool_prop; [subst n; apply wrote_ret|].
    set (chunk := if n >? 32 then 32 else n).
    assert (chunk <= n /\ (0 < n -> 0 < chunk)) as [Hc Hp] by (unfold chunk; rewrite Z.gtb_ltb; case_if; blia).
    assert (fill n 0 = fill chunk 0 ++ fill (n - chunk) 0) as ->.
    { unfold fill. rewrite <- replicate_add. f_equal. unfold chunk. rewrite Z.gtb_ltb. case_if; blia. }
    revert e. apply writes_seq; [apply writes_bytes|]. apply IH. destruct (Z.lt_ge_cases 0 n); [specialize (Hp ltac:(done)); lia|].
    unfold chunk. rewrite Z.gtb_ltb. case_if; blia.
Qed.

Lemma region_written env t region n : ls_redaction_for (dr_address region) n t <> Some LS_REDACT_EXCLUDE ->
  writes (region_bytes env t region n) (region_body env region n (ls_redaction_for (dr_address region) n t)).
Proof.
  intros Hm. unfold region_bytes, region_body. apply writes_seq; [apply writes_fields|].
  destruct (ls_redaction_for _ _ t) as [[]|]; try done.
  all: first [apply zeros_written; lia|apply writes_bytes|idtac].
  eapply writes_eq; [apply writes_fields|]. unfold fields_bytes. cbn [map field_bytes mjoin list_join]. apply app_nil_r.
Qed.

Lemma regions_written env event t l fs rest : env_ok env event -> writes fs rest ->
  writes (map (region_section env t) (List.filter safe_region l) ++ fs) (put_regions env t l rest).
Proof.
  intros H Hrest. induction l as [|region l IH]; [exact Hrest|]. intros e. cbn [put_regions List.filter]. unfold safe_region at 1.
  destruct (_ =? 0); cbn [negb]; [apply IH|]. cbn [map app]. set (gs := map _ _ ++ fs) in *. clearbody gs.
  assert (forall n e, wrote ((LS_TLV_MEMORY, region_bytes env t region n) :: gs) e
    (let mode := ls_redaction_for (dr_address region) n t in
     match mode with
     | Some LS_REDACT_EXCLUDE => put_regions env t l rest (mark_truncated e)
     | _ =>
         let '((result, value), e) := nested (LS_DUMP_REGION_MAX_BYTES + 48) (region_body env region n mode) e in
         match result with
         | LS_ENOSPACE => (LS_OK, mark_truncated e)
         | LS_OK => (put_optional_tlv LS_TLV_MEMORY value (u16 (zlen value)) ;;? put_regions env t l rest) e
         | _ => (result, e)
         end
     end)) as Hstep.
  { clear e. intros n e. cbv zeta.
    assert (section_ok LS_TLV_MEMORY (LS_DUMP_REGION_MAX_BYTES + 48) (region_body env region n (ls_redaction_for (dr_address region) n t))) as Hs.
    { section. eapply adds_region_body. exact H. }
    pose proof (fun Hm => nested_writes _ _ _ Hs _ (region_written env t region n Hm) e) as Hn. clear Hs.
    remember (ls_redaction_for (dr_address region) n t) as mode eqn:Em.
    assert (mode = Some LS_REDACT_EXCLUDE \/ mode <> Some LS_REDACT_EXCLUDE) as [->|Hm] by (destruct mode as [[]|]; (by left) || (by right)); [eapply wrote_mark; apply IH|].
    destruct (Hn Hm) as (r & v & tr & E & Hv & Hw).
    assert (wrote ((LS_TLV_MEMORY, region_bytes env t region n) :: gs) e
      match r with
      | LS_ENOSPACE => (LS_OK, mark_truncated (fst e, tr))
      | LS_OK => (put_optional_tlv LS_TLV_MEMORY v (u16 (zlen v)) ;;? put_regions env t l rest) (fst e, tr)
      | _ => (r, (fst e, tr))
      end) as Hx; [|destruct mode as [[]|]; try done; rewrite E; exact Hx].
    destruct r; try (by apply wrote_error); [|by apply wrote_marked].
    unfold and_then. pose proof (wrote_optional_tlv LS_TLV_MEMORY (region_bytes env t region n) e v tr Hv (Hw eq_refl)) as Hx.
    destruct (put_optional_tlv _ _ _ _) as [r e1]. destruct (is_ok r) eqn:Er; [|apply is_ok_false in Er; by apply wrote_error].
    apply is_ok_true in Er. change (?a :: gs) with ([a] ++ gs). eapply wrote_trans; [|exact Er|apply IH].
    exact Hx. }
  destruct (dr_length region >? _); [eapply wrote_mark|]; apply Hstep.
Qed.

Lemma stack_written env event t : env_ok env event -> writes
  (match le_cpu event, t_stack t with
   | Some cpu, Some (lower, upper) =>
       let sp := if negb (ac_psp cpu =? 0) then ac_psp cpu else ac_msp cpu in
       if (LS_CAPTURE_STACK <=? le_capture_level event) && ((lower <=? sp) && (sp <? upper))
       then [(LS_TLV_STACK, fields_bytes [F32 (u32 sp); F32 (u32 (upper - sp))] ++ env_read env sp (upper - sp))] else []
   | _, _ => []
   end) (put_stack env t event).
Proof.
  intros H e. unfold put_stack. destruct (le_cpu event) as [cpu|]; [|apply wrote_ret].
  destruct (t_stack t) as [[lower upper]|]; [|apply wrote_ret]. cbv zeta. set (sp := if negb _ then _ else _).
  destruct (LS_CAPTURE_STACK <=? _); cbn [andb]; [|apply wrote_ret]. destruct (_ && _); [|apply wrote_ret].
  assert (forall n, writes [(LS_TLV_STACK, fields_bytes [F32 (u32 sp); F32 (u32 n)] ++ env_read env sp n)]
    (put_detail_section LS_TLV_STACK (LS_STACK_SNAPSHOT_MAX + 8)
      (put_fields [F32 (u32 sp); F32 (u32 n)] ;;? on_writer (ls_writer_write (env_read env sp n))))) as Hs.
  { intros n. apply writes_detail_section.
    - section. apply adds_seq; [apply adds_fields|]. apply adds_bytes, (eok_read _ _ H).
    - apply writes_seq; [apply writes_fields|apply writes_bytes]. }
  destruct (_ >? _); [eapply wrote_mark|]; apply Hs.
Qed.

Lemma memory_written env event : env_ok env event -> writes (memory_sections env event) (put_memory env event).
Proof.
  intros H. unfold memory_sections, put_memory. cbv zeta. set (t := sv_telemetry _).
  assert (writes [(LS_TLV_HEAP, fields_bytes (heap_fields (t_heap_stats t)))]
    (put_optional_section LS_TLV_HEAP 20 (put_fields (heap_fields (t_heap_stats t))))) as Hheap
    by (apply writes_optional_section; [section; fields|apply writes_fields]).
  pose proof (writes_seq _ _ _ _ (stack_written env event t H) Hheap) as Hrest. cbv zeta in Hrest.
  destruct (LS_CAPTURE_SELECTIVE <=? _); [by eapply regions_written|exact Hrest].
Qed.

Lemma rest_written env event : env_ok env event -> writes (drop 3 (payload_sections env event)) (put_rest env event).
Proof.
  intros H. unfold payload_sections, put_rest. cbv zeta. cbn [drop app].
  apply writes_seq; [apply cpu_written|]. eapply telemetry_written; [exact H|].
  apply writes_seq; [apply blackbox_written|]. apply writes_seq; [exact (mission_written env event H)|].
  apply services_written. apply writes_seq; [exact (details_written env event H)|]. by apply memory_written.
Qed.

(** ** The payload as a whole

    A payload that could be written starts with the identity of the device, whose fields
    are cut only where it does not fit, the complete reset and the complete event; unless
    it is marked truncated it holds every section, each of them complete. *)
Definition payload_fields (env : encode_env) (event : lep_event) (truncated : bool) (fs : list (Z * list Z)) : Prop :=
  exists cuts rest,
    Forall2 (fun cut text => cut `prefix_of` text_bytes text) cuts (identity_fields env) /\
    fs = (LS_TLV_IDENTITY, identity_bytes 0 cuts) :: (LS_TLV_RESET, fields_bytes (reset_fields env event)) ::
         (LS_TLV_EVENT, fields_bytes (event_fields event)) :: rest /\
    (truncated = false -> fs = payload_sections env event).

Lemma identity_head env event e e1 : env_ok env event -> put_identity env e = (LS_OK, e1) ->
  exists cuts, let v := identity_bytes 0 cuts in
    Forall2 (fun cut text => cut `prefix_of` text_bytes text) cuts (identity_fields env) /\ tlv_ok (LS_TLV_IDENTITY, v) /\
    fst e1 = mk_writer (w_capacity (fst e)) (w_data (fst e) ++ encode_tlv (LS_TLV_IDENTITY, v)) /\
    (snd e1 = false -> snd e = false /\ cuts = map text_bytes (identity_fields env)).
Proof.
  intros Hok H. unfold put_identity in H. set (n := writer_remaining _) in H. destruct (_ <? _) eqn:E; [done|]. bool_prop.
  apply section_inv in H as (v & Hv & E1 & w & Hw & ->).
  - apply identity_cut in Hw as (cuts & Hp & Hd & Hc). cbn [fst snd w_data w_capacity app] in Hd. subst w. cbn [w_data] in *.
    exists cuts. cbv zeta. by split_and!.
  - split; [vm_compute; split; reflexivity|]. split; [|by apply adds_identity_fields, (eok_identity _ _ Hok)].
    destruct (n - 4 >? 512) eqn:E2; rewrite Z.gtb_ltb in E2; blia.
Qed.

Lemma payload_head env event capacity e' : env_ok env event -> 0 <= capacity ->
  put_payload env event (mk_writer capacity [], false) = (LS_OK, e') ->
  exists fs, payload_fields env event (snd e') fs /\ Forall tlv_ok fs /\ w_data (fst e') = encode_tlvs fs /\
    zlen (encode_tlvs fs) <= capacity.
Proof.
  intros Hok Hc H. rewrite put_payload_split in H.
  apply and_then_inv in H as [[_ ?]|(e1 & H1 & H)]; [done|].
  assert (room e1) as R1.
  { eapply grows_room. rewrite <- H1. apply (adds_identity env event Hok). unfold room, w_length. cbn [fst w_data w_capacity]. by rewrite zlen_nil. }
  apply (identity_head env event) in H1 as (cuts & P1 & T1 & E1 & C1); [|exact Hok].
  pose proof (adds_reset env event e1 R1) as R2. pose proof (adds_event event) as R3.
  pose proof (rest_adds env event Hok) as R4. pose proof (rest_written env event Hok) as W4.
  apply and_then_inv in H as [[_ ?]|(e2 & H2 & H)]; [done|]. rewrite H2 in R2. apply grows_room in R2.
  apply and_then_inv in H as [[_ ?]|(e3 & H3 & H)]; [done|]. specialize (R3 e2 R2). rewrite H3 in R3. apply grows_room in R3.
  specialize (R4 e3 R3). specialize (W4 e3). rewrite H in R4, W4.
  apply fields_section_inv in H2 as (T2 & S2 & E2); [|done|done|vm_compute; discriminate].
  apply fields_section_inv in H3 as (T3 & S3 & E3); [|done|done|vm_compute; discriminate].
  destruct R4 as (d & Hd & (rest & Hr & ->) & Hroom & _). specialize (W4 eq_refl). cbn [fst snd] in Hd, W4.
  unfold room, w_length in Hroom. cbn [fst snd] in Hroom.
  assert (exists rest', encode_tlvs rest = encode_tlvs rest' /\ Forall tlv_ok rest' /\
    (snd e' = false -> cuts = map text_bytes (identity_fields env) /\ rest' = drop 3 (payload_sections env event))) as (rest' & Hrest & Hr' & Hfull).
  { destruct (snd e') eqn:Ht; [by exists rest|]. destruct (W4 eq_refl) as (K & Hw & Hf). exists (drop 3 (payload_sections env event)).
    rewrite Hd in Hw. injection Hw as Hw. apply app_inv_head in Hw. split_and!; try done. intros _. split; [|done]. apply C1. congruence. }
  clear W4 C1. rewrite Hd, Hrest, E3, E2, E1 in Hroom |- *. cbn [w_data w_capacity app] in *.
  exists ((LS_TLV_IDENTITY, identity_bytes 0 cuts) :: (LS_TLV_RESET, fields_bytes (reset_fields env event)) ::
          (LS_TLV_EVENT, fields_bytes (event_fields event)) :: rest').
  assert (forall f fs, encode_tlvs (f :: fs) = encode_tlv f ++ encode_tlvs fs) as Hcons by reflexivity.
  rewrite !Hcons, !app_assoc. split; [|split; [by repeat apply List.Forall_cons|done]].
  exists cuts, rest'. split; [exact P1|]. split; [done|]. intros Ht. by destruct (Hfull Ht) as [-> ->].
Qed.
