(* ===== verification/EncodeFacts.v ===== *)
(** * What the envelope encoder produces ([src/envelope/lep.c])

    Whatever the event, the state of the services and the room left, an envelope that is
    returned is one the validator accepts; it reads back as the sections that were written
    ([Payload]); and a failed attempt leaves nothing of them in the caller's buffer. *)

From S2P Require Import Prelude Util Poly1305 Chacha Sha256 Aead Envelope Security FaultInjection Storage FlashLayer Transport Spool Boot Provisioning Blackbox Telemetry Services Policy Encode Payload.

Lemma hash_string_u32 text : is_u32 (ls_hash_string text).
Proof.
  destruct text as [l|]; [|done]. unfold ls_hash_string.
  assert (forall h, is_u32 h -> is_u32 (foldl fnv_byte h l)) as H; [|by apply H].
  induction l as [|b l IH]; intros h Hh; [done|]. simpl. apply IH, u32_range.
Qed.

(** ** Envelopes that are returned *)

#[local] Opaque seal open ls_hkdf_sha256 ls_hmac_sha256.

Section Encode.
Context {X : Type}.
Implicit Type s : security_runtime X.

(** What the random source and an integrator's provider are relied on for. *)
Record provider_ok (p : ls_crypto_provider_t X) : Prop := {
  po_seals encrypt key nonce aad pt ct tag x x' : cp_encrypt p = Some encrypt -> bytes_ok aad -> bytes_ok pt ->
    encrypt key nonce aad pt x = (Ok (ct, tag), x') -> zlen ct = zlen pt /\ bytes_ok ct /\ zlen tag = 16 /\ bytes_ok tag;
  po_complete : is_Some (cp_decrypt p);
  po_opens encrypt decrypt key nonce aad pt ct tag x x' y : cp_encrypt p = Some encrypt -> cp_decrypt p = Some decrypt ->
    bytes_ok aad -> bytes_ok pt -> encrypt key nonce aad pt x = (Ok (ct, tag), x') ->
    fst (decrypt key nonce aad ct SET tag y) = Ok pt;
  po_derives hkdf salt ikm info n x d y : cp_hkdf_sha256 p = Some hkdf -> fst (hkdf salt ikm info n x) = Ok d ->
    fst (hkdf salt ikm info n y) = Ok d;
  po_derive_errors hkdf salt ikm info n x : cp_hkdf_sha256 p = Some hkdf -> fst (hkdf salt ikm info n x) <> Err LS_OK;
  po_seal_errors encrypt key nonce aad pt x : cp_encrypt p = Some encrypt -> fst (encrypt key nonce aad pt x) <> Err LS_OK
}.

Record security_ok (s : security_runtime X) : Prop := {
  so_random random n x r x' : s_random s = Some random -> 0 <= n -> random n x = (r, x') ->
    match r with Ok bytes => zlen bytes = n /\ bytes_ok bytes | Err e => e <> LS_OK end;
  so_provider p : s_provider s = Some p -> provider_ok p;
  so_key_id : is_u32 (sp_key_id (s_policy s))
}.

(** The key material and the provider, which no operation below changes. *)
Definition same_keys (s s' : security_runtime X) : Prop :=
  s_key s' = s_key s /\ s_key_length s' = s_key_length s /\ s_policy s' = s_policy s /\ s_provider s' = s_provider s.

Lemma security_random_ok s n nonce s' : security_ok s -> 0 <= n -> ls_security_random n s = ((LS_OK, nonce), s') ->
  zlen nonce = n /\ bytes_ok nonce /\ same_keys s s'.
Proof.
  intros [Hr _ _] Hn H. unfold ls_security_random, on_world in H. destruct (s_random s) as [random|] eqn:E; [|done].
  destruct (random n (s_world s)) as [r x] eqn:Er. specialize (Hr random n (s_world s) r x eq_refl Hn Er).
  destruct r as [bytes|e]; injection H as H; subst; [|done]. destruct Hr. by split_and!.
Qed.

(** Sealing under a state, and opening under any state with the same provider. *)
Lemma crypto_seals s key nonce aad pt ct tag s' : security_ok s -> bytes_ok aad -> bytes_ok pt ->
  ls_crypto_xchacha20_poly1305_encrypt key nonce aad pt s = (Ok (ct, tag), s') ->
  zlen ct = zlen pt /\ bytes_ok ct /\ zlen tag = 16 /\ bytes_ok tag /\ same_keys s s' /\
  (forall t, s_provider t = s_provider s ->
     fst (ls_crypto_xchacha20_poly1305_decrypt key nonce aad ct SET tag t) = Ok pt).
Proof.
  intros [_ Hp _] Ha Hpt H. unfold ls_crypto_xchacha20_poly1305_encrypt, ls_crypto_xchacha20_poly1305_decrypt in *.
  cbn [require_provider_if_configured ls_security_crypto_provider_ready LS_REQUIRE_EXTERNAL_CRYPTO_PROVIDER is_ok negb] in *.
  destruct (s_provider s) as [p|] eqn:Ep.
  - destruct (cp_encrypt p) as [encrypt|] eqn:Ee; [|done]. unfold on_world in H.
    destruct (encrypt key nonce aad pt (s_world s)) as [r x] eqn:E. injection H as -> <-.
    destruct (po_seals p (Hp p eq_refl) encrypt _ _ _ _ _ _ _ _ Ee Ha Hpt E) as (H1 & H2 & H3 & H4). split_and!; try done.
    intros t ->. destruct (po_complete p (Hp p eq_refl)) as [decrypt Ed]. rewrite Ed. unfold on_world.
    pose proof (po_opens p (Hp p eq_refl) encrypt decrypt _ _ _ _ _ _ _ _ (s_world t) Ee Ed Ha Hpt E) as Ho.
    by destruct (decrypt key nonce aad ct SET tag (s_world t)) as [r' x'].
  - apply pair_equal_spec in H as [H <-]. destruct (aead_shape _ _ _ _ _ _ Ha Hpt H) as (H1 & H2 & H3 & H4). split_and!; try done.
    intros t ->. cbn [fst]. by eapply aead_opens.
Qed.

Lemma crypto_derives s salt ikm info n d s' : security_ok s -> ls_crypto_hkdf_sha256 salt ikm info n s = (Ok d, s') ->
  same_keys s s' /\
  (forall t, s_provider t = s_provider s -> fst (ls_crypto_hkdf_sha256 salt ikm info n t) = Ok d /\
     s_provider (snd (ls_crypto_hkdf_sha256 salt ikm info n t)) = s_provider s).
Proof.
  intros [_ Hp _] H. unfold ls_crypto_hkdf_sha256 in *.
  cbn [require_provider_if_configured ls_security_crypto_provider_ready LS_REQUIRE_EXTERNAL_CRYPTO_PROVIDER is_ok negb] in *.
  destruct (s_provider s) as [p|] eqn:Ep.
  - destruct (cp_hkdf_sha256 p) as [hkdf|] eqn:Ee; [|done]. unfold on_world in *.
    destruct (hkdf salt ikm info n (s_world s)) as [r x] eqn:E. injection H as -> <-. split; [done|].
    intros t Ht. rewrite Ht, Ee.
    pose proof (po_derives p (Hp p eq_refl) hkdf salt ikm info n (s_world s) d (s_world t) Ee) as Ho. rewrite E in Ho.
    specialize (Ho eq_refl). by destruct (hkdf salt ikm info n (s_world t)) as [r' x'].
  - apply pair_equal_spec in H as [H <-]. split; [done|]. intros t Ht. rewrite Ht. cbn [fst snd]. by rewrite H.
Qed.

(** *** The two ways to finish an envelope *)

Lemma encode_plain_bytes s header payload c0 a0 r : zlen header = 24 -> zlen c0 = 4 ->
  zlen a0 = (if s_key_length s =? 0 then 0 else 32) -> is_aead s = false ->
  let signed := header ++ payload ++ le 4 (ls_crc32 payload) in
  let auth := if s_key_length s =? 0 then [] else ls_hmac_sha256 (slice 0 (s_key_length s) (s_key s)) signed in
  encode_plain (zlen payload) (header ++ payload ++ c0 ++ a0 ++ r) s =
    (24 + zlen payload + 4 + zlen a0, signed ++ auth ++ r).
Proof.
  intros Hh Hc Ha Hs signed auth. unfold encode_plain, encode_authentication_size, LS_LEP_HEADER_SIZE. rewrite Hs.
  rewrite (slice_middle header payload) by done.
  rewrite (app_assoc header payload), (splice_replace (header ++ payload) c0) by (rewrite ?zlen_app, ?zlen_le; lia).
  subst auth. destruct (s_key_length s =? 0) eqn:E; cbn [negb].
  - apply nil_of_zlen in Ha as ->. change (negb (0 =? 0)) with false. cbv iota. rewrite zlen_nil, Z.add_0_r. f_equal.
    unfold signed. by rewrite <- !app_assoc.
  - rewrite Ha. change (negb (LS_HMAC_SHA256_SIZE =? 0)) with true. cbv iota. f_equal.
    assert ((header ++ payload) ++ le 4 (ls_crc32 payload) ++ a0 ++ r = signed ++ a0 ++ r) as ->
      by (unfold signed; by rewrite <- !app_assoc).
    assert (24 + zlen payload + 4 = zlen signed) as -> by (unfold signed; rewrite !zlen_app, zlen_le; lia).
    rewrite (slice_prefix signed) by done. apply splice_replace; [done|].
    rewrite hmac_correct. by rewrite (proj1 (hmac_shape _ _)).
Qed.

(** What the AEAD branch leaves, and that any state with the same keys opens it. *)
Definition sealed_as s (header payload meta ct tag : list Z) (seq eid : Z) : Prop :=
  let key_id := sp_key_id (s_policy s) in
  exists nonce derived, meta = nonce ++ le 4 key_id /\ zlen nonce = 24 /\ bytes_ok meta /\
    zlen ct = zlen payload /\ bytes_ok ct /\ zlen tag = 16 /\ bytes_ok tag /\
    (forall t, same_keys s t ->
       let run := ls_crypto_hkdf_sha256 (envelope_salt key_id seq eid) (slice 0 (s_key_length s) (s_key s)) envelope_label 32 t in
       fst run = Ok derived /\ s_provider (snd run) = s_provider s) /\
    (forall t, s_provider t = s_provider s ->
       fst (ls_crypto_xchacha20_poly1305_decrypt derived nonce (header ++ meta) ct SET tag t) = Ok payload).

Lemma same_keys_trans s1 s2 s3 : same_keys s1 s2 -> same_keys s2 s3 -> same_keys s1 s3.
Proof. intros (?&?&?&?) (?&?&?&?). split_and!; congruence. Qed.

Lemma security_ok_after s s' : security_ok s -> same_keys s s' -> s_random s' = s_random s -> security_ok s'.
Proof.
  intros [H1 H2 H3] (_ & _ & Hc & Hp) Hr. split; [| |by rewrite Hc].
  - intros random n x r x' H. rewrite Hr in H. by eapply H1.
  - intros p H. rewrite Hp in H. by apply H2.
Qed.

Lemma random_keeps n s r s' : ls_security_random n s = (r, s') -> s_random s' = s_random s.
Proof.
  unfold ls_security_random, on_world. destruct (s_random s) as [random|] eqn:E; [|by intros [= _ <-]].
  destruct (random n (s_world s)) as [[bytes|e] x]; intros [= _ <-]; done.
Qed.

Lemma hkdf_keeps salt ikm info n s r s' : ls_crypto_hkdf_sha256 salt ikm info n s = (r, s') -> s_random s' = s_random s.
Proof.
  unfold ls_crypto_hkdf_sha256, on_world.
  cbn [require_provider_if_configured ls_security_crypto_provider_ready LS_REQUIRE_EXTERNAL_CRYPTO_PROVIDER is_ok negb].
  destruct (s_provider s) as [p|]; [|by intros [_ <-]%pair_equal_spec].
  destruct (cp_hkdf_sha256 p) as [h|]; [|by intros [= _ <-]]. destruct (h _ _ _ _ _). by intros [= _ <-].
Qed.

Lemma encode_aead_bytes s header m0 payload c0 a0 r seq eid total out s' : security_ok s ->
  zlen header = 24 -> bytes_ok header -> zlen m0 = 28 -> bytes_ok payload -> zlen c0 = 4 -> zlen a0 = 16 ->
  encode_aead seq eid (zlen payload) (header ++ m0 ++ payload ++ c0 ++ a0 ++ r) s = ((Ok total, out), s') ->
  same_keys s s' /\ total = 24 + 28 + zlen payload + 4 + 16 /\
  exists meta ct tag, sealed_as s header payload meta ct tag seq eid /\
    out = header ++ meta ++ ct ++ le 4 (ls_crc32 (meta ++ ct)) ++ tag ++ r.
Proof.
  intros Hok Hh Bh Hm Bp Hc Ha H. unfold encode_aead in H. cbv zeta in H.
  change (LS_LEP_HEADER_SIZE + LS_ENVELOPE_SECURITY_METADATA_SIZE) with 52 in H.
  destruct (ls_security_random _ s) as [[r1 nonce] s1] eqn:Er.
  destruct (is_ok r1) eqn:Eo; cbn [negb] in H; [|done]. apply is_ok_true in Eo. subst r1.
  pose proof (security_random_ok s LS_XCHACHA20_NONCE_SIZE _ _ Hok ltac:(done) Er) as (Zn & Bn & K1). apply random_keeps in Er.
  pose proof (security_ok_after _ _ Hok K1 Er) as Hok1. destruct K1 as (K1a & K1b & K1c & K1d).
  destruct (_ && _); [done|]. rewrite K1c in H. set (key_id := sp_key_id (s_policy s)) in *.
  set (meta := nonce ++ le 4 key_id) in *.
  assert (zlen meta = 28) as Zm by (unfold meta; rewrite zlen_app, zlen_le; unfold LS_XCHACHA20_NONCE_SIZE in Zn; lia).
  assert (bytes_ok meta) as Bm by (apply bytes_ok_app; split; [done|apply bytes_ok_le]).
  unfold LS_LEP_HEADER_SIZE in H. rewrite (splice_replace header m0 meta) in H by lia.
  destruct (ls_crypto_hkdf_sha256 _ _ _ _ s1) as [[derived|] s2] eqn:Ed; [|done].
  pose proof (crypto_derives _ _ _ _ _ _ _ Hok1 Ed) as (K2 & Hd). apply hkdf_keeps in Ed.
  pose proof (security_ok_after _ _ Hok1 K2 Ed) as Hok2.
  assert (slice 0 52 (header ++ meta ++ payload ++ c0 ++ a0 ++ r) = header ++ meta) as Es.
  { rewrite (app_assoc header). apply slice_prefix. rewrite zlen_app. lia. }
  assert (slice 52 (zlen payload) (header ++ meta ++ payload ++ c0 ++ a0 ++ r) = payload) as Ep.
  { rewrite (app_assoc header). apply slice_middle; rewrite ?zlen_app; lia. }
  rewrite Es, Ep in H.
  destruct (ls_crypto_xchacha20_poly1305_encrypt _ _ _ _ s2) as [[[ct tag]|] s3] eqn:Ee; [|done].
  assert (bytes_ok (header ++ meta)) as Bhm by (apply bytes_ok_app; split; [exact Bh|exact Bm]).
  pose proof (crypto_seals _ _ _ _ _ _ _ _ Hok2 Bhm Bp Ee) as (Zc & Bc & Zt & Bt & K3 & Ho).
  apply pair_equal_spec in H as [H <-]. apply pair_equal_spec in H as [H <-]. injection H as <-.
  assert (same_keys s s2) as K by (eapply same_keys_trans; [|exact K2]; by split_and!).
  split; [|split; [done|]].
  { destruct (same_keys_trans _ _ _ K K3) as (?&?&?&?). by split_and!. }
  exists meta, ct, tag. split.
  - exists nonce, derived. split_and!; try done.
    + intros t (T1 & T2 & T3 & T4). fold key_id. rewrite <- K1a, <- K1b. rewrite <- K1d. apply Hd. congruence.
    + intros t Ht. apply Ho. destruct K as (_ & _ & _ & K). congruence.
  - rewrite (app_assoc header meta), (splice_replace (header ++ meta) payload ct) by (rewrite ?zlen_app; lia).
    rewrite (app_assoc (header ++ meta) ct), (app_assoc ((header ++ meta) ++ ct)).
    rewrite (splice_replace (((header ++ meta) ++ ct) ++ c0) a0 tag) by (rewrite ?zlen_app; lia).
    assert ((((header ++ meta) ++ ct) ++ c0) ++ tag ++ r = header ++ (meta ++ ct) ++ c0 ++ tag ++ r) as E by (by rewrite <- !app_assoc).
    rewrite E, (slice_middle header (meta ++ ct)) by (rewrite ?zlen_app; unfold LS_ENVELOPE_SECURITY_METADATA_SIZE; lia).
    rewrite (app_assoc header (meta ++ ct)), (splice_replace (header ++ meta ++ ct) c0) by (rewrite ?zlen_app, ?zlen_le; lia).
    by rewrite <- !app_assoc.
Qed.

(** *** The envelope *)

Lemma encode_flags_facts s t : let f := encode_flags s t in
  is_u8 f /\ flags_valid f = true /\ has_flag f LS_ENVELOPE_ENCRYPTED = is_aead s /\ has_flag f LS_ENVELOPE_AEAD = is_aead s /\
  has_flag f LS_ENVELOPE_AUTHENTICATED = ls_security_enabled s /\ has_flag f LS_ENVELOPE_TRUNCATED = t /\
  metadata_size f = encode_metadata_size s /\ authentication_size f = encode_authentication_size s.
Proof.
  unfold encode_flags, encode_metadata_size, encode_authentication_size, is_aead, ls_security_enabled.
  destruct (s_key_length s =? 0), (sp_algorithm (s_policy s) =? LS_SECURITY_XCHACHA20_POLY1305), t;
    vm_compute; split_and!; congruence.
Qed.

Definition header_of (i : ls_envelope_info_t) : list Z := envelope_header i ++ le 4 (ls_crc32 (envelope_header i)).

(** [envelope_bytes i body auth] is the envelope of [event] that carries [fs]. *)
Record encoded s (env : encode_env) (event : lep_event) (seq : Z) (fs : list (Z * list Z))
    (i : ls_envelope_info_t) (body auth : list Z) : Prop := {
  en_ok : envelope_ok i body auth;
  en_sequence : sequence i = seq;
  en_type : type i = u8 (le_type event);
  en_encrypted : has_flag (flags i) LS_ENVELOPE_ENCRYPTED = is_aead s /\ has_flag (flags i) LS_ENVELOPE_AEAD = is_aead s;
  en_authenticated : has_flag (flags i) LS_ENVELOPE_AUTHENTICATED = ls_security_enabled s;
  en_fields : payload_fields env event (has_flag (flags i) LS_ENVELOPE_TRUNCATED) fs /\ Forall tlv_ok fs;
  en_payload : payload_length i = zlen (encode_tlvs fs);
  en_body : if is_aead s
    then exists meta ct, body = meta ++ ct /\ sealed_as s (header_of i) (encode_tlvs fs) meta ct auth seq (event_id i)
    else body = encode_tlvs fs /\
         auth = if s_key_length s =? 0 then []
                else ls_hmac_sha256 (slice 0 (s_key_length s) (s_key s)) (header_of i ++ body ++ le 4 (ls_crc32 body))
}.

(** The header of an envelope being written. *)
Record drafted s (env : encode_env) (event : lep_event) (seq : Z) (fs : list (Z * list Z)) (i : ls_envelope_info_t) : Prop := {
  dr_info : exists truncated arch eid, is_u32 eid /\ i = {| version := 1; type := u8 (le_type event); architecture := u8 arch;
    flags := encode_flags s truncated; sequence := seq; event_id := eid; payload_length := zlen (encode_tlvs fs) |};
  dr_sequence : is_u32 seq;
  dr_fields : payload_fields env event (has_flag (flags i) LS_ENVELOPE_TRUNCATED) fs /\ Forall tlv_ok fs;
  dr_size : zlen (encode_tlvs fs) <= UINT32_MAX
}.

Lemma header_of_shape i : zlen (header_of i) = 24.
Proof. reflexivity. Qed.

Lemma header_of_ok i : version i = 1 -> is_u8 (type i) -> is_u8 (architecture i) -> is_u8 (flags i) -> bytes_ok (header_of i).
Proof.
  intros H1 H2 H3 H4. unfold header_of, envelope_header. repeat (apply bytes_ok_app; split); try apply bytes_ok_le.
  rewrite H1. repeat (apply List.Forall_cons || apply List.Forall_nil); try done; unfold is_u8; lia.
Qed.

Lemma envelope_bytes_header i body auth : envelope_bytes i body auth = header_of i ++ body ++ le 4 (ls_crc32 body) ++ auth.
Proof. unfold envelope_bytes, header_of. by rewrite <- !app_assoc. Qed.

Lemma drafted_encoded s env event seq fs i body auth : drafted s env event seq fs i ->
  bytes_ok body /\ zlen body = encode_metadata_size s + zlen (encode_tlvs fs) ->
  bytes_ok auth /\ zlen auth = encode_authentication_size s ->
  (if is_aead s
   then exists meta ct, body = meta ++ ct /\ sealed_as s (header_of i) (encode_tlvs fs) meta ct auth seq (event_id i)
   else body = encode_tlvs fs /\
        auth = if s_key_length s =? 0 then []
               else ls_hmac_sha256 (slice 0 (s_key_length s) (s_key s)) (header_of i ++ body ++ le 4 (ls_crc32 body))) ->
  encoded s env event seq fs i body auth.
Proof.
  intros [(t & arch & eid & He & ->) Hs Hf Hz] Hb Ha Hfin. pose proof (encode_flags_facts s t) as F. cbv zeta in F.
  destruct F as (F1 & F2 & F3 & F4 & F5 & F6 & F7 & F8). pose proof (zlen_nonneg (encode_tlvs fs)).
  split; cbn [version type architecture flags sequence event_id payload_length]; try done.
  split; cbn [version type architecture flags sequence event_id payload_length];
    try done; try apply u8_range; [by unfold UINT32_MAX, is_u32 in *; lia|by rewrite F7|by rewrite F8|].
  intros E. rewrite F3 in E. rewrite E in Hfin. destruct Hfin as [-> _]. exists fs. by destruct Hf.
Qed.

Lemma finish_plain s env event seq fs i c0 a0 r : drafted s env event seq fs i -> is_aead s = false ->
  zlen c0 = 4 -> zlen a0 = encode_authentication_size s ->
  exists body auth, encoded s env event seq fs i body auth /\
    encode_plain (zlen (encode_tlvs fs)) (header_of i ++ encode_tlvs fs ++ c0 ++ a0 ++ r) s =
      (zlen (envelope_bytes i body auth), envelope_bytes i body auth ++ r).
Proof.
  intros Hd Hs Hc Ha. set (p := encode_tlvs fs) in *.
  assert (encode_authentication_size s = if s_key_length s =? 0 then 0 else 32) as Eas.
  { unfold encode_authentication_size. rewrite Hs. by destruct (s_key_length s =? 0). }
  rewrite Eas in Ha. rewrite encode_plain_bytes by (exact Hs || exact Hc || exact Ha || exact (header_of_shape i)). cbv zeta.
  set (auth := if s_key_length s =? 0 then [] else _).
  assert (bytes_ok auth /\ zlen auth = zlen a0) as [Ba Za].
  { unfold auth. rewrite Ha. destruct (s_key_length s =? 0); [by split; [constructor|]|].
    rewrite hmac_correct. destruct (hmac_shape (slice 0 (s_key_length s) (s_key s)) (header_of i ++ p ++ le 4 (ls_crc32 p))). done. }
  exists p, auth. split.
  - eapply drafted_encoded; [exact Hd| | |].
    + unfold encode_metadata_size. rewrite Hs. split; [|done]. apply tlvs_bytes. exists fs. by destruct Hd as [_ _ [_ ?] _].
    + split; [exact Ba|]. rewrite Eas, Za. exact Ha.
    + rewrite Hs. by split.
  - rewrite envelope_bytes_header, !zlen_app, header_of_shape, zlen_le, Za. f_equal; [lia|]. by rewrite <- !app_assoc.
Qed.

Lemma finish_aead s env event seq fs i m0 c0 a0 r total out s' : security_ok s -> drafted s env event seq fs i ->
  is_aead s = true -> zlen m0 = 28 -> zlen c0 = 4 -> zlen a0 = 16 ->
  encode_aead seq (event_id i) (zlen (encode_tlvs fs)) (header_of i ++ m0 ++ encode_tlvs fs ++ c0 ++ a0 ++ r) s = ((Ok total, out), s') ->
  same_keys s s' /\
  exists body auth, encoded s env event seq fs i body auth /\
    total = zlen (envelope_bytes i body auth) /\ out = envelope_bytes i body auth ++ r.
Proof.
  intros Hok Hd Hs Hm Hc Ha H.
  assert (bytes_ok (header_of i)) as Bh.
  { destruct Hd as [(t & arch & eid & He & ->) _ _ _]. apply header_of_ok; [done|apply u8_range..|].
    cbn [flags]. by destruct (encode_flags_facts s t). }
  assert (bytes_ok (encode_tlvs fs)) as Bp by (apply tlvs_bytes; exists fs; by destruct Hd as [_ _ [_ ?] _]).
  pose proof (encode_aead_bytes s (header_of i) m0 (encode_tlvs fs) c0 a0 r seq (event_id i) total out s' Hok
    (header_of_shape i) Bh Hm Bp Hc Ha H) as (HK & -> & meta & ct & tag & Hsealed & ->).
  split; [exact HK|]. exists (meta ++ ct), tag.
  pose proof Hsealed as (nonce & derived & -> & Zn & Bm & Zc & Bc & Zt & Bt & _).
  set (meta := nonce ++ le 4 (sp_key_id (s_policy s))) in *.
  assert (zlen meta = 28) as Zm by (unfold meta; rewrite zlen_app, zlen_le; lia). split; [|split].
  - eapply drafted_encoded; [exact Hd| | |].
    + unfold encode_metadata_size. rewrite Hs, zlen_app, Zm, Zc. split; [by apply bytes_ok_app|done].
    + split; [exact Bt|]. unfold encode_authentication_size. rewrite Hs, Zt.
      unfold is_aead in Hs. by destruct (s_key_length s =? 0).
    + rewrite Hs. exists meta, ct. by split.
  - rewrite envelope_bytes_header, !zlen_app, header_of_shape, zlen_le, Zm, Zc, Zt. lia.
  - rewrite envelope_bytes_header. by rewrite <- !app_assoc.
Qed.

#[local] Opaque put_payload encode_aead encode_plain.

Lemma encode_inv env event s last out seq total out' s' last' :
  env_ok env event -> security_ok s -> is_u32 seq ->
  ls_envelope_encode env (Some event) (Some out) (zlen out) seq SET (s, last) = ((Ok total, out'), (s', last')) ->
  exists fs i body auth, encoded s env event seq fs i body auth /\
    total = zlen (envelope_bytes i body auth) /\ total <= zlen out /\
    out' = envelope_bytes i body auth ++ drop (Z.to_nat total) out /\ same_keys s s' /\ last' = seq.
Proof.
  intros Henv Hok Hseq H. unfold ls_envelope_encode in H. cbv zeta in H.
  destruct (negb SET || _) eqn:Ecap; [done|]. apply orb_false_iff in Ecap as [_ Ecap]. apply Z.ltb_ge in Ecap.
  set (ms := encode_metadata_size s) in *. set (asz := encode_authentication_size s) in *.
  assert (0 <= ms /\ 0 <= asz) as [Hms Hasz].
  { unfold ms, asz, encode_metadata_size, encode_authentication_size. repeat case_if; split; done. }
  unfold LS_LEP_HEADER_SIZE in *. set (cap := zlen out - (24 + ms) - 4 - asz) in *.
  destruct (put_payload env event _) as [result [payload truncated]] eqn:Ep.
  destruct (is_ok result) eqn:Er; cbn [negb] in H; [|done]. apply is_ok_true in Er. subst result.
  pose proof (payload_head env event cap _ Henv ltac:(unfold cap; lia) Ep) as (fs & Hfs & Tfs & Ed & Hz). cbn [fst] in Ed.
  unfold w_length in H. rewrite Ed in H. set (p := encode_tlvs fs) in *. pose proof (zlen_nonneg p).
  destruct (zlen p >? UINT32_MAX) eqn:Eo; [done|]. rewrite Z.gtb_ltb in Eo. apply Z.ltb_ge in Eo.
  destruct (buffer_parts 24 ms (zlen p) 4 asz out) as (h0 & m0 & b0 & c0 & a0 & r & Hout & Zh & Zm & Zb & Zc & Za);
    [lia..|unfold cap in Hz; lia|].
  assert (splice (24 + ms) p out = h0 ++ m0 ++ p ++ c0 ++ a0 ++ r) as Es.
  { rewrite Hout, (app_assoc h0 m0), (splice_replace (h0 ++ m0) b0) by (rewrite ?zlen_app; lia). by rewrite <- !app_assoc. }
  rewrite Es in H. set (eid := Z.lxor (Z.lxor (ls_crc32 _) seq) _) in H.
  set (arch := match le_cpu event with Some _ => _ | None => _ end) in H.
  set (i := {| version := 1; type := u8 (le_type event); architecture := u8 arch; flags := encode_flags s truncated;
               sequence := seq; event_id := eid; payload_length := zlen p |}).
  change (write_header _ _ _ seq eid (zlen p)) with (header_of i) in H.
  assert (forall q, splice 0 (header_of i) (h0 ++ q) = header_of i ++ q) as Hsp
    by (intros q; apply (splice_replace []); [done|exact Zh]).
  rewrite Hsp in H.
  assert (drafted s env event seq fs i) as Hd.
  { split; [exists truncated, arch, eid; split; [|done]|done| |done].
    2: { cbn [flags i]. rewrite (proj1 (proj2 (proj2 (proj2 (proj2 (proj2 (encode_flags_facts s truncated))))))). by split. }
    unfold eid. apply lxor_bound; [lia| |apply hash_string_u32]. apply lxor_bound; [lia|apply crc32_range|done]. }
  assert (forall n, n = 24 + ms + zlen p + 4 + asz -> drop (Z.to_nat n) out = r /\ n <= zlen out) as Hdrop.
  { intros n ->. split; [|unfold cap in Hz; lia]. rewrite Hout, !app_assoc, drop_app_length'; [done|].
    unfold zlen in *. rewrite !length_app. lia. }
  assert (forall body auth, encoded s env event seq fs i body auth -> zlen (envelope_bytes i body auth) = 24 + ms + zlen p + 4 + asz) as Hlen.
  { intros body auth He. destruct (en_ok _ _ _ _ _ _ _ _ He) as [_ _ _ _ _ _ _ [_ O8] [_ O9] _]. pose proof (encode_flags_facts s truncated) as F.
    cbv zeta in F. destruct F as (_ & _ & _ & _ & _ & _ & F7 & F8). cbn [flags payload_length i] in O8, O9. rewrite F7 in O8. rewrite F8 in O9.
    rewrite envelope_bytes_header, !zlen_app, header_of_shape, zlen_le. fold ms in O8. fold asz in O9. lia. }
  exists fs, i. destruct (is_aead s) eqn:Ea.
  - destruct (encode_aead _ _ _ _ s) as [[r1 out1] s1] eqn:E.
    assert (r1 = Ok total /\ out1 = out' /\ s1 = s' /\ last' = seq) as (-> & -> & -> & ->) by (destruct r1; split_and!; congruence).
    assert (ms = 28 /\ asz = 16) as [Ems Eas].
    { unfold ms, asz, encode_metadata_size, encode_authentication_size. rewrite Ea. unfold is_aead in Ea.
      by destruct (s_key_length s =? 0). }
    rewrite Ems in Zm. rewrite Eas in Za.
    pose proof (finish_aead s env event seq fs i m0 c0 a0 r total out' s' Hok Hd Ea Zm Zc Za E) as (HK & body & auth & He & Ht & Ho).
    exists body, auth. destruct (Hdrop total) as [Hr Hle]; [rewrite Ht; by apply Hlen|]. rewrite Hr. by split_and!.
  - assert (ms = 0) as Ems by (unfold ms, encode_metadata_size; by rewrite Ea). rewrite Ems in Zm. apply nil_of_zlen in Zm as ->.
    cbn [app] in H. destruct (finish_plain s env event seq fs i c0 a0 r Hd Ea Zc Za) as (body & auth & He & E).
    fold p in E. rewrite E in H. apply pair_equal_spec in H as [H1 H2]. apply pair_equal_spec in H1 as [H1 <-].
    injection H1 as <-. injection H2 as <- <-. exists body, auth.
    destruct (Hdrop (zlen (envelope_bytes i body auth))) as [Hr Hle]; [by apply Hlen|]. rewrite Hr. by split_and!.
Qed.

(** ** Reading an envelope back *)

Lemma encoded_validates s env event seq fs i body auth : encoded s env event seq fs i body auth ->
  ls_envelope_validate (Some (envelope_bytes i body auth)) = Ok i.
Proof. intros H. apply envelope_accepts. exact (en_ok _ _ _ _ _ _ _ _ H). Qed.

Lemma slice_body i body auth n : n = zlen body -> slice 24 n (envelope_bytes i body auth) = body.
Proof. intros. rewrite envelope_bytes_header. by apply slice_middle. Qed.

Lemma encoded_decrypts s env event seq fs i body auth t ws size : security_ok s -> encoded s env event seq fs i body auth -> is_aead s = true ->
  same_keys s t -> payload_length i <= size ->
  fst (ls_envelope_decrypt_payload (Some (envelope_bytes i body auth)) (Some ws) size SET t) =
    (Ok (payload_length i), Some (splice 0 (encode_tlvs fs) ws)).
Proof.
  intros Hok He Ha HK Hsz. unfold ls_envelope_decrypt_payload. cbn [negb SET]. rewrite (encoded_validates _ _ _ _ _ _ _ _ He).
  destruct (en_encrypted _ _ _ _ _ _ _ _ He) as [-> ->]. rewrite Ha. cbn [negb orb default from_option andb]. pose proof HK as (K1 & K2 & K3 & K4).
  pose proof (en_body _ _ _ _ _ _ _ _ He) as Hb. rewrite Ha in Hb. destruct Hb as (meta & ct & -> & Hsealed).
  destruct Hsealed as (nonce & derived & -> & Zn & Bm & Zc & Bc & Zt & Bt & Hd & Ho).
  set (key_id := sp_key_id (s_policy s)) in *. set (meta := nonce ++ le 4 key_id) in *.
  assert (zlen meta = 28) as Zm by (unfold meta; rewrite zlen_app, zlen_le; lia).
  assert ((s_key_length t =? 0) = false) as ->.
  { rewrite K2. unfold is_aead in Ha. by destruct (s_key_length s =? 0). }
  assert ((size <? payload_length i) = false) as -> by (by apply Z.ltb_ge).
  cbn [andb negb SET]. unfold LS_LEP_HEADER_SIZE, LS_ENVELOPE_SECURITY_METADATA_SIZE. change (24 + 28) with 52.
  set (data := envelope_bytes i (meta ++ ct) auth). change (id data) with data.
  assert (data = header_of i ++ nonce ++ le 4 key_id ++ ct ++ le 4 (ls_crc32 (meta ++ ct)) ++ auth) as Ed.
  { unfold data, meta. rewrite envelope_bytes_header. by rewrite <- !app_assoc. }
  pose proof (header_of_shape i) as Zh. rewrite (en_payload _ _ _ _ _ _ _ _ He).
  assert (slice 24 24 data = nonce) as -> by (rewrite Ed; apply slice_middle; done).
  pose proof (so_key_id s Hok : is_u32 key_id) as Hkey.
  assert (read_u32 data (24 + 24) = key_id) as ->.
  { unfold read_u32. rewrite Ed, (app_assoc (header_of i)), (slice_middle (header_of i ++ nonce) (le 4 key_id))
      by (rewrite ?zlen_app, ?zlen_le; lia). by apply le_get_le4. }
  rewrite K3. fold key_id. rewrite Z.eqb_refl. cbn [negb].
  assert (slice 0 52 data = header_of i ++ meta) as ->.
  { rewrite Ed. unfold meta. rewrite (app_assoc nonce), (app_assoc (header_of i)). apply slice_prefix.
    rewrite !zlen_app, zlen_le. lia. }
  assert (slice 52 (zlen (encode_tlvs fs)) data = ct) as ->.
  { rewrite Ed, (app_assoc nonce), (app_assoc (header_of i)). apply slice_middle; rewrite ?zlen_app, ?zlen_le; lia. }
  assert (slice (52 + zlen (encode_tlvs fs) + 4) 16 data = auth) as ->.
  { rewrite Ed, !app_assoc. rewrite <- (app_nil_r (_ ++ auth)), <- app_assoc.
    apply slice_middle; rewrite ?zlen_app, ?zlen_le; lia. }
  rewrite (en_sequence _ _ _ _ _ _ _ _ He), K1, K2.
  destruct (Hd t HK) as [Hd1 Hd2].
  destruct (ls_crypto_hkdf_sha256 _ _ _ _ t) as [d t1]. cbn [fst snd] in Hd1, Hd2. subst d.
  specialize (Ho t1 Hd2). destruct (ls_crypto_xchacha20_poly1305_decrypt _ _ _ _ _ _ t1) as [r t2]. cbn [fst] in Ho. by subst r.
Qed.

Lemma encoded_authentic s env event seq fs i body auth t : encoded s env event seq fs i body auth -> is_aead s = false ->
  same_keys s t -> (ls_security_enabled s = true -> sp_allow_legacy_hmac (s_policy s) = true) ->
  plain_allowed i (Some (envelope_bytes i body auth)) t = (LS_OK, t).
Proof.
  intros He Ha (K1 & K2 & K3 & K4) Hl. unfold plain_allowed. rewrite (en_authenticated _ _ _ _ _ _ _ _ He).
  assert (ls_security_enabled t = ls_security_enabled s) as -> by (unfold ls_security_enabled; by rewrite K2).
  destruct (ls_security_enabled s) eqn:Es; cbn [andb]; [|done]. unfold ls_envelope_verify_auth.
  rewrite (encoded_validates _ _ _ _ _ _ _ _ He), (en_authenticated _ _ _ _ _ _ _ _ He), Es.
  destruct (en_encrypted _ _ _ _ _ _ _ _ He) as [_ ->]. rewrite Ha, K3, (Hl eq_refl), K1, K2. cbn [negb orb].
  unfold ls_security_enabled in Es. pose proof (en_body _ _ _ _ _ _ _ _ He) as Hb. rewrite Ha in Hb. destruct Hb as [-> Hauth].
  destruct (s_key_length s =? 0) eqn:E0; [done|]. cbv zeta. set (data := envelope_bytes i _ auth).
  change (default [] (Some data)) with data.
  assert (data = (header_of i ++ encode_tlvs fs ++ le 4 (ls_crc32 (encode_tlvs fs))) ++ auth ++ []) as ->.
  { unfold data. rewrite envelope_bytes_header, app_nil_r. by rewrite <- !app_assoc. }
  set (signed := header_of i ++ encode_tlvs fs ++ _) in *. rewrite hmac_correct in *.
  destruct (hmac_shape (slice 0 (s_key_length s) (s_key s)) signed) as [Zh Bh]. rewrite <- Hauth in *.
  assert (zlen (signed ++ auth ++ []) - LS_HMAC_SHA256_SIZE = zlen signed) as ->.
  { rewrite !zlen_app, Zh, zlen_nil. unfold LS_HMAC_SHA256_SIZE. lia. }
  rewrite slice_prefix, (slice_middle signed auth) by done. rewrite <- Hauth.
  rewrite constant_time_equal_exact by done. by rewrite bool_decide_true.
Qed.

Lemma wipe_spec n (out1 out : list Z) : 0 <= n -> drop (Z.to_nat n) out1 = drop (Z.to_nat n) out ->
  wipe n out1 = fill n 0 ++ drop (Z.to_nat n) out.
Proof.
  intros Hn Hd. unfold wipe, splice. rewrite take_0. cbn [app Nat.add]. f_equal.
  unfold fill. by rewrite length_replicate.
Qed.

(** Visiting what was encoded is running the visitor over its fields; the workspace keeps
    no plaintext. *)
Lemma encoded_visits {C} (visitor : Z -> list Z -> Prelude.st C ls_result_t) s env event seq fs i body auth t ws c :
  security_ok s -> encoded s env event seq fs i body auth -> same_keys s t -> payload_length i <= zlen ws ->
  (is_aead s = false -> ls_security_enabled s = true -> sp_allow_legacy_hmac (s_policy s) = true) ->
  let run := ls_envelope_visit_secure visitor (Some (envelope_bytes i body auth)) ws (zlen ws) (t, c) in
  (fst (fst run), snd (snd run)) = run_visitor visitor fs c /\
  snd (fst run) = if is_aead s then wipe (payload_length i) ws else ws.
Proof.
  intros Hok He HK Hsz Hl. unfold ls_envelope_visit_secure. cbv zeta. rewrite (encoded_validates _ _ _ _ _ _ _ _ He).
  destruct (en_encrypted _ _ _ _ _ _ _ _ He) as [-> _]. destruct (en_fields _ _ _ _ _ _ _ _ He) as [_ Hfs].
  assert (visit_payload visitor (encode_tlvs fs) c = run_visitor visitor fs c) as Hv by (by apply visit_fields_run).
  pose proof (zlen_nonneg (encode_tlvs fs)) as Hz. pose proof (en_payload _ _ _ _ _ _ _ _ He) as Hpl.
  destruct (is_aead s) eqn:Ha; cbn [negb].
  - pose proof (encoded_decrypts s env event seq fs i body auth t ws (zlen ws) Hok He Ha HK Hsz) as Hd.
    destruct (ls_envelope_decrypt_payload _ _ _ _ t) as [r t1]. cbn [fst] in Hd. subst r. cbn [default from_option].
    unfold id. rewrite Hpl, slice_splice_same, Hv by lia. destruct (run_visitor visitor fs c) as [r c']. cbn [fst snd]. split; [done|].
    rewrite !(wipe_spec _ _ ws) by (lia || done || (apply drop_splice; lia)). done.
  - rewrite (encoded_authentic s env event seq fs i body auth t He Ha HK (Hl eq_refl)). cbn [is_ok negb].
    pose proof (en_body _ _ _ _ _ _ _ _ He) as Hb. rewrite Ha in Hb. destruct Hb as [-> _].
    rewrite Hpl. change (default [] (Some ?d)) with d. rewrite slice_body by done. rewrite Hv.
    by destruct (run_visitor visitor fs c).
Qed.

(** ** A failed attempt *)

(** Only the state behind the callbacks changed. *)
Definition world_only s s' : Prop :=
  exists x, s' = mk_security (s_key s) (s_key_length s) (s_policy s) (s_random s) (s_provider s) (s_last_nonce s)
    (s_has_last_nonce s) (s_replay_highest s) (s_replay_bitmap s) x.

Lemma world_only_refl s : world_only s s.
Proof. exists (s_world s). by destruct s. Qed.

Lemma world_only_trans s1 s2 s3 : world_only s1 s2 -> world_only s2 s3 -> world_only s1 s3.
Proof. intros [x ->] [y ->]. by exists y. Qed.

Lemma on_world_only {A} (f : Prelude.st X A) s : world_only s (snd (on_world f s)).
Proof. unfold on_world. destruct (f (s_world s)) as [a x]. by exists x. Qed.

Lemma random_world n s : world_only s (snd (ls_security_random n s)).
Proof.
  unfold ls_security_random. destruct (s_random s) as [random|]; [|apply world_only_refl].
  pose proof (on_world_only (random n) s) as H. destruct (on_world _ s) as [[] s1]; exact H.
Qed.

Lemma hkdf_world salt ikm info n s : world_only s (snd (ls_crypto_hkdf_sha256 salt ikm info n s)).
Proof.
  unfold ls_crypto_hkdf_sha256.
  cbn [require_provider_if_configured ls_security_crypto_provider_ready LS_REQUIRE_EXTERNAL_CRYPTO_PROVIDER is_ok negb].
  destruct (s_provider s) as [p|]; [|apply world_only_refl]. destruct (cp_hkdf_sha256 p); [|apply world_only_refl].
  apply on_world_only.
Qed.

Lemma encrypt_world key nonce aad pt s : world_only s (snd (ls_crypto_xchacha20_poly1305_encrypt key nonce aad pt s)).
Proof.
  unfold ls_crypto_xchacha20_poly1305_encrypt.
  cbn [require_provider_if_configured ls_security_crypto_provider_ready LS_REQUIRE_EXTERNAL_CRYPTO_PROVIDER is_ok negb].
  destruct (s_provider s) as [p|]; [|apply world_only_refl]. destruct (cp_encrypt p); [|apply world_only_refl].
  apply on_world_only.
Qed.

#[local] Transparent encode_aead.

Lemma encode_aead_fails s seq eid plen out e out' s' : security_ok s -> 0 <= plen -> 52 + plen + 4 + 16 <= zlen out ->
  encode_aead seq eid plen out s = ((Err e, out'), s') ->
  world_only s s' /\ exists n, 52 + plen <= n <= zlen out /\ out' = fill n 0 ++ drop (Z.to_nat n) out.
Proof.
  intros Hok Hp Hz H. unfold encode_aead in H. cbv zeta in H. unfold LS_LEP_HEADER_SIZE, LS_AEAD_TAG_SIZE in H.
  change (24 + LS_ENVELOPE_SECURITY_METADATA_SIZE) with 52 in H.
  pose proof (random_world LS_XCHACHA20_NONCE_SIZE s) as W1. destruct (ls_security_random _ s) as [[r1 nonce] s1] eqn:Er.
  cbn [snd] in W1.
  assert (forall n, 0 <= n -> wipe n out = fill n 0 ++ drop (Z.to_nat n) out) as Hw by (intros; by apply wipe_spec).
  destruct (is_ok r1) eqn:Eo; cbn [negb] in H.
  2: { apply pair_equal_spec in H as [H <-]. apply pair_equal_spec in H as [_ <-]. split; [done|].
       exists (52 + plen). split; [lia|]. apply Hw. lia. }
  apply is_ok_true in Eo. subst r1. destruct (security_random_ok s LS_XCHACHA20_NONCE_SIZE _ _ Hok ltac:(done) Er) as (Zn & _ & _).
  destruct (_ && _).
  { apply pair_equal_spec in H as [H <-]. apply pair_equal_spec in H as [_ <-]. split; [done|].
    exists (52 + plen). split; [lia|]. apply Hw. lia. }
  set (key_id := sp_key_id (s_policy s1)) in *.
  assert (forall n, 52 <= n -> wipe n (splice 24 (nonce ++ le 4 key_id) out) = fill n 0 ++ drop (Z.to_nat n) out) as Hw1.
  { intros n Hn. unfold LS_XCHACHA20_NONCE_SIZE in Zn. apply wipe_spec; [lia|]. apply drop_splice; rewrite ?zlen_app, ?zlen_le; lia. }
  pose proof (hkdf_world (envelope_salt key_id seq eid) (slice 0 (s_key_length s1) (s_key s1)) envelope_label 32 s1) as W2.
  destruct (ls_crypto_hkdf_sha256 _ _ _ _ s1) as [[derived|e2] s2].
  2: { apply pair_equal_spec in H as [H <-]. apply pair_equal_spec in H as [_ <-]. split; [exact (world_only_trans _ _ _ W1 W2)|].
       exists (52 + plen). split; [lia|]. apply Hw1. lia. }
  match type of H with context [ls_crypto_xchacha20_poly1305_encrypt ?k ?n ?a ?p s2] =>
    pose proof (encrypt_world k n a p s2) as W3; destruct (ls_crypto_xchacha20_poly1305_encrypt k n a p s2) as [[[ct tag]|e3] s3] end;
    [done|].
  apply pair_equal_spec in H as [H <-]. apply pair_equal_spec in H as [_ <-].
  split; [exact (world_only_trans _ _ _ W1 (world_only_trans _ _ _ W2 W3))|].
  exists (52 + plen + 4 + 16). split; [lia|]. apply Hw1. lia.
Qed.

(** An error is never reported as [LS_OK]. *)
Lemma derive_error salt ikm info n s e s' : security_ok s -> ls_crypto_hkdf_sha256 salt ikm info n s = (Err e, s') -> e <> LS_OK.
Proof.
  intros [_ Hp _] H. unfold ls_crypto_hkdf_sha256, on_world in H. cbv zeta in H.
  destruct (is_ok (require_provider_if_configured s)) eqn:Eg; cbn [negb] in H.
  2: { apply pair_equal_spec in H as [[= <-] _]. intros E. by rewrite E in Eg. }
  destruct (s_provider s) as [p|].
  - destruct (cp_hkdf_sha256 p) as [hkdf|] eqn:Ep; [|apply pair_equal_spec in H as [[= <-] _]; done].
    pose proof (po_derive_errors p (Hp p eq_refl) hkdf salt ikm info n (s_world s) Ep) as He.
    destruct (hkdf salt ikm info n (s_world s)) as [r x]. apply pair_equal_spec in H as [-> _]. cbn [fst] in He. congruence.
  - apply pair_equal_spec in H as [H _]. intros ->. by apply hkdf_no_ok in H.
Qed.

Lemma seal_error key nonce aad pt s e s' : security_ok s -> ls_crypto_xchacha20_poly1305_encrypt key nonce aad pt s = (Err e, s') -> e <> LS_OK.
Proof.
  intros [_ Hp _] H. unfold ls_crypto_xchacha20_poly1305_encrypt, on_world in H. cbv zeta in H.
  destruct (is_ok (require_provider_if_configured s)) eqn:Eg; cbn [negb] in H.
  2: { apply pair_equal_spec in H as [[= <-] _]. intros E. by rewrite E in Eg. }
  destruct (s_provider s) as [p|].
  - destruct (cp_encrypt p) as [encrypt|] eqn:Ep; [|apply pair_equal_spec in H as [[= <-] _]; done].
    pose proof (po_seal_errors p (Hp p eq_refl) encrypt key nonce aad pt (s_world s) Ep) as He.
    destruct (encrypt key nonce aad pt (s_world s)) as [r x]. apply pair_equal_spec in H as [-> _]. cbn [fst] in He. congruence.
  - apply pair_equal_spec in H as [H _]. intros ->. by apply seal_no_ok in H.
Qed.

Lemma security_ok_world s s' : security_ok s -> world_only s s' -> security_ok s'.
Proof. intros [H1 H2 H3] [x ->]. split; [exact H1|exact H2|exact H3]. Qed.

Lemma encode_aead_error s seq eid plen out e out' s' : security_ok s -> encode_aead seq eid plen out s = ((Err e, out'), s') -> e <> LS_OK.
Proof.
  intros Hok H. unfold encode_aead in H. cbv zeta in H. pose proof (random_world LS_XCHACHA20_NONCE_SIZE s) as W1.
  destruct (ls_security_random _ s) as [[r1 nonce] s1]. apply (security_ok_world _ _ Hok) in W1. cbn [snd] in W1.
  destruct (is_ok r1) eqn:Eo; cbn [negb] in H.
  2: { apply pair_equal_spec in H as [H _]. apply pair_equal_spec in H as [[= <-] _]. intros E. by rewrite E in Eo. }
  destruct (_ && _). { apply pair_equal_spec in H as [H _]. apply pair_equal_spec in H as [[= <-] _]. done. }
  pose proof (hkdf_world (envelope_salt (sp_key_id (s_policy s1)) seq eid) (slice 0 (s_key_length s1) (s_key s1)) envelope_label 32 s1) as W2.
  destruct (ls_crypto_hkdf_sha256 _ _ _ _ s1) as [[derived|e2] s2] eqn:Eh; apply (security_ok_world _ _ W1) in W2; cbn [snd] in W2.
  2: { apply pair_equal_spec in H as [H _]. apply pair_equal_spec in H as [[= <-] _]. exact (derive_error _ _ _ _ _ _ _ W1 Eh). }
  match type of H with context [ls_crypto_xchacha20_poly1305_encrypt ?k ?n ?a ?p s2] =>
    destruct (ls_crypto_xchacha20_poly1305_encrypt k n a p s2) as [[[ct tag]|e3] s3] eqn:E3 end; [done|].
  apply pair_equal_spec in H as [H _]. apply pair_equal_spec in H as [[= <-] _]. exact (seal_error _ _ _ _ _ _ _ W2 E3).
Qed.

#[local] Opaque encode_aead.

Lemma encode_error env event s last out seq e out' st' : security_ok s ->
  ls_envelope_encode env (Some event) (Some out) (zlen out) seq SET (s, last) = ((Err e, out'), st') -> e <> LS_OK.
Proof.
  intros Hok H. unfold ls_envelope_encode in H. cbv zeta in H.
  destruct (negb SET || _). { apply pair_equal_spec in H as [H _]. apply pair_equal_spec in H as [[= <-] _]. done. }
  destruct (put_payload env event _) as [result [payload truncated]]. destruct (is_ok result) eqn:Eo; cbn [negb] in H.
  2: { apply pair_equal_spec in H as [H _]. apply pair_equal_spec in H as [[= <-] _]. intros E. by rewrite E in Eo. }
  destruct (_ >? UINT32_MAX). { apply pair_equal_spec in H as [H _]. apply pair_equal_spec in H as [[= <-] _]. done. }
  destruct (is_aead s).
  - match type of H with context [encode_aead ?a ?b ?c ?o s] => destruct (encode_aead a b c o s) as [[r1 out2] s1] eqn:E end.
    apply pair_equal_spec in H as [H _]. apply pair_equal_spec in H as [-> _]. exact (encode_aead_error _ _ _ _ _ _ _ _ Hok E).
  - destruct (encode_plain _ _ s) as [total out2]. done.
Qed.

Lemma encode_fails env event s last out seq e out' s' last' : env_ok env event -> security_ok s -> is_u32 seq ->
  ls_envelope_encode env (Some event) (Some out) (zlen out) seq SET (s, last) = ((Err e, out'), (s', last')) ->
  world_only s s' /\ last' = last /\ exists n, 0 <= n <= zlen out /\ out' = fill n 0 ++ drop (Z.to_nat n) out.
Proof.
  intros Henv Hok Hseq H. unfold ls_envelope_encode in H. cbv zeta in H.
  destruct (negb SET || _) eqn:Ecap.
  { apply pair_equal_spec in H as [H Hs]. apply pair_equal_spec in H as [_ <-]. apply pair_equal_spec in Hs as [<- <-].
    split; [apply world_only_refl|]. split; [done|]. exists 0. split; [pose proof (zlen_nonneg out); lia|done]. }
  apply orb_false_iff in Ecap as [_ Ecap]. apply Z.ltb_ge in Ecap.
  set (ms := encode_metadata_size s) in *. set (asz := encode_authentication_size s) in *.
  assert (0 <= ms /\ 0 <= asz) as [Hms Hasz].
  { unfold ms, asz, encode_metadata_size, encode_authentication_size. repeat case_if; split; done. }
  unfold LS_LEP_HEADER_SIZE in *. set (cap := zlen out - (24 + ms) - 4 - asz) in *.
  assert (room (mk_writer cap [], false)) as Hroom by (unfold room, w_length; cbn [fst w_data w_capacity]; rewrite zlen_nil; unfold cap; lia).
  pose proof (payload_adds env event Henv _ Hroom) as (d & Hd & _ & Hrd & _).
  destruct (put_payload env event _) as [result [payload truncated]] eqn:Ep. cbn [fst snd w_capacity w_data app] in Hd.
  unfold room, w_length in Hrd. cbn [fst snd] in Hrd. subst payload. unfold w_length in H. cbn [w_data w_capacity] in *.
  pose proof (zlen_nonneg d). set (n := 24 + ms + zlen d) in *.
  assert (n <= zlen out) as Hn by (unfold n, cap in *; lia).
  assert (wipe n (splice (24 + ms) d out) = fill n 0 ++ drop (Z.to_nat n) out) as Hw.
  { apply wipe_spec; [lia|]. apply drop_splice; lia. }
  assert (forall x, ((Err (A := Z) x, wipe n (splice (24 + ms) d out)), (s, last)) = ((Err e, out'), (s', last')) ->
    world_only s s' /\ last' = last /\ exists n, 0 <= n <= zlen out /\ out' = fill n 0 ++ drop (Z.to_nat n) out) as Hdone.
  { intros x Hx. apply pair_equal_spec in Hx as [Hx Hs]. apply pair_equal_spec in Hx as [_ <-]. apply pair_equal_spec in Hs as [<- <-].
    split; [apply world_only_refl|]. split; [done|]. exists n. split; [lia|exact Hw]. }
  destruct (negb (is_ok result)); [exact (Hdone _ H)|]. destruct (_ >? UINT32_MAX); [exact (Hdone _ H)|].
  destruct (is_aead s) eqn:Ea.
  - match type of H with context [encode_aead ?a ?b ?c ?o s] => set (out1 := o) in *; set (eid := b) in * end.
    assert (ms = 28 /\ asz = 16) as [Ems Eas].
    { unfold ms, asz, encode_metadata_size, encode_authentication_size. rewrite Ea. unfold is_aead in Ea.
      by destruct (s_key_length s =? 0). }
    assert (forall k, n <= k -> zlen out1 = zlen out /\ drop (Z.to_nat k) out1 = drop (Z.to_nat k) out) as Ho1.
    { intros k Hk. unfold out1. assert (zlen (splice (24 + ms) d out) = zlen out) as Zs by (apply zlen_splice; lia).
      match goal with |- context [splice 0 ?h _] => assert (zlen h = 24) as Zh by reflexivity end.
      rewrite zlen_splice, Zs by (rewrite ?Zs; lia). split; [done|].
      rewrite drop_splice by (rewrite ?Zs; lia). apply drop_splice; lia. }
    destruct (encode_aead seq eid (zlen d) out1 s) as [[r1 out2] s1] eqn:E.
    apply pair_equal_spec in H as [H Hs]. apply pair_equal_spec in H as [-> <-]. apply pair_equal_spec in Hs as [<- <-].
    pose proof (Ho1 n ltac:(lia)) as [Zo _].
    apply encode_aead_fails in E as (W & k & Hk & ->); [|done|done|rewrite Zo; unfold cap in *; lia].
    split; [done|]. split; [done|]. exists k. rewrite Zo in Hk. split; [lia|]. f_equal. apply Ho1. lia.
  - destruct (encode_plain _ _ s) as [total out2]. done.
Qed.
End Encode.

Lemma demo_seq_ok : is_u32 9.
Proof. unfold is_u32. lia. Qed.

Lemma text_cons text l : text_ok text -> Forall text_ok l -> Forall text_ok (text :: l).
Proof. by constructor. Qed.

(** A device with a key, an assertion to report and a region of memory to dump. *)
Definition demo_telemetry : telemetry :=
  mk_telemetry true (mk_ring (replicate 32 zero_breadcrumb) 0 0) 0 0 [] (mk_ring (replicate 16 zero_sample) 0 0) [] (str "pilot")
    5 6 [{| dr_name := Some (str "calib"); dr_address := 0x20000000; dr_length := 8; dr_flags := LS_DUMP_SAFE |}] []
    None (mk_heap 100 90 80 0 0) (ls_blackbox_init demo_garbage) [].

Definition demo_services : services :=
  mk_services demo_telemetry empty_mission (mk_time 0 0 0 0 0 false)
    {| ev_last := {| es_timestamp_ms := 0; es_pressure_pa := 0; es_depth_cm := 0; es_internal_temperature_c := 0;
         es_humidity_permyriad := 0; es_vibration_mg_rms := 0; es_flags := 0 |};
       ev_sample_count := 0; ev_maximum_pressure_pa := 0; ev_maximum_depth_cm := 0; ev_maximum_temperature_c := 0;
       ev_maximum_humidity_permyriad := 0; ev_maximum_vibration_mg_rms := 0; ev_leak_events := 0 |}
    {| sc_watchdog_max_stale_ms := 0; sc_minimum_vdd_mv := 0; sc_minimum_battery_mv := 0; sc_maximum_temperature_c := 0;
       sc_minimum_heap_free_bytes := 0; sc_maximum_spool_percent := 0; sc_maximum_vibration_mg_rms := 0; sc_anomaly_hold_ms := 0 |}
    {| ss_active_alarms := 0; ss_previous_alarms := 0; ss_transitions := 0; ss_last_change_ms := 0; ss_configured := false |} [].

Definition demo_env : encode_env := {|
  env_identity := {| id_project_id := Some (str "auv"); id_device_id := Some (str "unit-7"); id_product := None;
    id_hardware_revision := None; id_bom_revision := None; id_manufacturing_batch := None; id_firmware_version := Some (str "1.2.0");
    id_firmware_build_id := None; id_bootloader_version := None; id_git_commit := None; id_variant := None; id_architecture := None;
    id_rtos := None; id_region := None; id_device_group := None |};
  env_config_rtos := None; env_config_region := None; env_config_device_group := None; env_config_architecture := 2;
  env_build_id := str "b1"; env_reset_reason := 1; env_raw_reason := 0; env_boot_count := 4; env_previous_uptime_ms := 9;
  env_reset_expected := false; env_previous_crashed := true; env_boot_loop := false; env_services := demo_services;
  env_provisioning := {| ps_state := 0; ps_key_id := 0; ps_pending_key_id := 0; ps_generation := 0; ps_monotonic_counter := 0 |};
  env_powerfail := None; env_now := 50; env_read := fun _ n => fill n 0xa5 |}.

Definition demo_event : lep_event := {|
  le_base := {| e_priority := 3; e_timestamp_ms := 50; e_fingerprint := 77; e_domain := Some (str "nav"); e_code := -5;
    e_message := Some (str "lost"); e_repeat_count := 1; e_first_seen_ms := 50; e_last_seen_ms := 50 |};
  le_type := 4; le_severity := 3; le_cpu := None; le_riscv64 := None;
  le_assertion := Some {| as_expression := Some (str "x > 0"); as_file := Some (str "nav.c"); as_message := None; as_line := 12 |};
  le_peripheral := None; le_log := None; le_capture_level := 3 |}.

Lemma demo_env_ok : env_ok demo_env demo_event.
Proof.
  split.
  - repeat (apply text_cons; [(apply bytes_ok_str || apply List.Forall_nil)|]). apply List.Forall_nil.
  - apply (Forall_replicate _ 32 zero_breadcrumb). split; apply List.Forall_nil.
  - apply List.Forall_nil.
  - cbn -[str]. split_and!; apply List.Forall_nil.
  - intros a [= <-]. split_and!; (apply bytes_ok_str || apply List.Forall_nil).
  - intros. apply bytes_ok_fill. unfold is_u8. lia.
Qed.

Lemma demo_security_ok : security_ok demo_security.
Proof.
  split; [|done|by vm_compute].
  intros random n x r x' [= <-] Hn [= <- _]. split.
  - unfold zlen. rewrite length_map, length_seq. lia.
  - apply Forall_map, Forall_true. intros i. apply u8_range.
Qed.

Definition demo_encoded : res Z * list Z * (security_runtime Z * Z) :=
  ls_envelope_encode demo_env (Some demo_event) (Some (fill 400 0)) (zlen (fill 400 0)) 9 SET (demo_security, 8).

(** C13: Whatever is encoded is well-typed. Whenever [ls_envelope_encode] succeeds, for
    any event and state of the services, with or without key and encryption, the bytes
    it reports are an envelope that the validator accepts, with the sequence number and
    event type given and with flags that tell how it is protected; it fits the buffer,
    of which nothing else changes; and the sequence number is remembered. *)
Theorem encode_well_typed {X} env event (s : security_runtime X) last out seq total out' s' last' :
  env_ok env event -> security_ok s -> is_u32 seq ->
  ls_envelope_encode env (Some event) (Some out) (zlen out) seq SET (s, last) = ((Ok total, out'), (s', last')) ->
  exists i, ls_envelope_validate (Some (slice 0 total out')) = Ok i /\ sequence i = seq /\ type i = u8 (le_type event) /\
    has_flag (flags i) LS_ENVELOPE_AUTHENTICATED = ls_security_enabled s /\
    has_flag (flags i) LS_ENVELOPE_ENCRYPTED = is_aead s /\
    0 <= total <= zlen out /\ out' = slice 0 total out' ++ drop (Z.to_nat total) out /\
    same_keys s s' /\ last' = seq.
Proof.
  intros Henv Hok Hseq H. destruct (encode_inv _ _ _ _ _ _ _ _ _ _ Henv Hok Hseq H) as (fs & i & body & auth & He & -> & Hle & -> & HK & ->).
  exists i. rewrite slice_prefix by done. pose proof (zlen_nonneg (envelope_bytes i body auth)). split_and!; try done.
  - exact (encoded_validates _ _ _ _ _ _ _ _ He).
  - exact (en_sequence _ _ _ _ _ _ _ _ He).
  - exact (en_type _ _ _ _ _ _ _ _ He).
  - exact (en_authenticated _ _ _ _ _ _ _ _ He).
  - by destruct (en_encrypted _ _ _ _ _ _ _ _ He).
Qed.

Lemma demo_run : exists out' s', demo_encoded = ((Ok 279, out'), (s', 9)).
Proof. do 2 eexists. vm_compute. reflexivity. Qed.

Lemma encode_well_typed_witness :
  let out' := snd (fst demo_encoded) in
  exists i, ls_envelope_validate (Some (slice 0 279 out')) = Ok i /\ sequence i = 9 /\ type i = 4.
Proof.
  intros out'. destruct demo_run as (o & s' & E). unfold demo_encoded in E.
  destruct (encode_well_typed demo_env demo_event demo_security 8 (fill 400 0) 9 279 o s' 9
    demo_env_ok demo_security_ok demo_seq_ok E) as (i & H1 & H2 & H3 & _).
  exists i. unfold out', demo_encoded. rewrite E. split; [exact H1|]. split; [exact H2|exact H3].
Defined.

(** C15: What is encoded reads back. A reader with the same key, policy and provider that
    visits an envelope the encoder returned - in the clear, with a keyed hash, or encrypted
    - calls its visitor on exactly the sections that were written, in order and with
    their bytes, gets the visitor's result, and is left with a workspace that holds no
    plaintext. Unless the envelope's flags mark it truncated, the sections are all of
    [payload_sections]: identity, reset, event, processor state, breadcrumbs, metrics,
    power, health, black box, mission, clock, provisioning, supervisor, environment,
    power-fail seal, details and memory, each complete. When it is marked, the reset and
    the event are complete still, and each identity field is a prefix of its text. *)
Theorem encode_read_back {X C} (visitor : Z -> list Z -> Prelude.st C ls_result_t) env event
    (s : security_runtime X) last out seq total out' s' last' (t : security_runtime X) ws c :
  env_ok env event -> security_ok s -> is_u32 seq -> same_keys s t -> zlen out <= zlen ws ->
  (is_aead s = false -> ls_security_enabled s = true -> sp_allow_legacy_hmac (s_policy s) = true) ->
  ls_envelope_encode env (Some event) (Some out) (zlen out) seq SET (s, last) = ((Ok total, out'), (s', last')) ->
  exists i fs, ls_envelope_validate (Some (slice 0 total out')) = Ok i /\
    payload_fields env event (has_flag (flags i) LS_ENVELOPE_TRUNCATED) fs /\ Forall tlv_ok fs /\
    let run := ls_envelope_visit_secure visitor (Some (slice 0 total out')) ws (zlen ws) (t, c) in
    (fst (fst run), snd (snd run)) = run_visitor visitor fs c /\
    snd (fst run) = if is_aead s then wipe (payload_length i) ws else ws.
Proof.
  intros Henv Hok Hseq HK Hws Hl H.
  destruct (encode_inv _ _ _ _ _ _ _ _ _ _ Henv Hok Hseq H) as (fs & i & body & auth & He & Ht & Hle & -> & _).
  exists i, fs. destruct (en_fields _ _ _ _ _ _ _ _ He) as [H1 H2]. rewrite slice_prefix by done.
  split; [exact (encoded_validates _ _ _ _ _ _ _ _ He)|]. split; [done|]. split; [done|].
  apply (encoded_visits visitor s env event seq); try done.
  destruct (en_ok _ _ _ _ _ _ _ _ He) as [_ _ _ _ _ _ _ [_ O8] _ _]. destruct (metadata_size_range (flags i)).
  pose proof (zlen_nonneg auth). rewrite Ht, envelope_bytes_header, !zlen_app, header_of_shape, zlen_le in Hle. lia.
Qed.

(** The types of the sections in the demonstration: identity, reset, event, health, the
    assertion, the region of memory and the heap. *)
Definition demo_types : list Z := [1; 2; 3; 9; 10; 13; 15].

Lemma demo_complete i : ls_envelope_validate (Some (slice 0 279 (snd (fst demo_encoded)))) = Ok i ->
  has_flag (flags i) LS_ENVELOPE_TRUNCATED = false.
Proof.
  assert (match ls_envelope_validate (Some (slice 0 279 (snd (fst demo_encoded)))) with
          | Ok i => has_flag (flags i) LS_ENVELOPE_TRUNCATED | Err _ => true end = false) as H by (vm_compute; reflexivity).
  intros E. by rewrite E in H.
Qed.

Definition collect (t : Z) (v : list Z) (c : list Z) : ls_result_t * list Z := (LS_OK, t :: c).

Lemma encode_read_back_witness :
  let run := ls_envelope_visit_secure collect (Some (slice 0 279 (snd (fst demo_encoded)))) (fill 400 1) (zlen (fill 400 1))
               (demo_security, []) in
  fst (fst run) = LS_OK /\ snd (snd run) = rev demo_types.
Proof.
  destruct demo_run as (o & s' & E). pose proof (demo_complete) as Ht. unfold demo_encoded in *.
  destruct (encode_read_back collect demo_env demo_event demo_security 8 (fill 400 0) 9 279 o s' 9
    demo_security (fill 400 1) [] demo_env_ok demo_security_ok demo_seq_ok ltac:(by split_and!) ltac:(done) ltac:(discriminate) E)
    as (i & fs & Hv & (_ & _ & _ & _ & H1) & _ & H2 & _).
  rewrite E in *. cbn [fst snd] in *. rewrite (H1 (Ht i Hv)) in H2.
  assert (run_visitor collect (payload_sections demo_env demo_event) [] = (LS_OK, rev demo_types)) as Hr by (vm_compute; reflexivity).
  rewrite Hr in H2. apply pair_equal_spec in H2. exact H2.
Defined.

(** C27: A failed encoding leaves nothing behind. On any error - no room, no randomness, a
    repeated nonce, a provider that refuses - the caller's buffer is what it was, but for
    a prefix of zeros: no plaintext, header or key identifier remains in it; and no
    sequence number or nonce is used up. *)
Theorem encode_failure_wiped {X} env event (s : security_runtime X) last out seq e out' s' last' :
  env_ok env event -> security_ok s -> is_u32 seq ->
  ls_envelope_encode env (Some event) (Some out) (zlen out) seq SET (s, last) = ((Err e, out'), (s', last')) ->
  (exists n, 0 <= n <= zlen out /\ out' = fill n 0 ++ drop (Z.to_nat n) out) /\
  last' = last /\ s_last_nonce s' = s_last_nonce s /\ s_has_last_nonce s' = s_has_last_nonce s /\ same_keys s s'.
Proof.
  intros Henv Hok Hseq H. destruct (encode_fails _ _ _ _ _ _ _ _ _ _ Henv Hok Hseq H) as ([x ->] & -> & Hn).
  split; [exact Hn|]. by split_and!.
Qed.

(** A source that repeats the nonce that was used last. *)
Definition demo_stuck : security_runtime Z :=
  with_nonce (fill 24 0x5a) (with_random (Some (fun n x => (Ok (fill n 0x5a), x))) demo_security).

Lemma demo_stuck_ok : security_ok demo_stuck.
Proof.
  split; [|done|by vm_compute]. intros random n x r x' [= <-] Hn [= <- _]. split; [by apply zlen_fill|].
  apply bytes_ok_fill. unfold is_u8. lia.
Qed.

Lemma encode_failure_wiped_witness :
  let run := ls_envelope_encode demo_env (Some demo_event) (Some (fill 400 7)) (zlen (fill 400 7)) 9 SET (demo_stuck, 8) in
  fst (fst run) = Err LS_EAUTH /\ exists n, 0 <= n <= zlen (fill 400 7) /\ snd (fst run) = fill n 0 ++ drop (Z.to_nat n) (fill 400 7).
Proof.
  intros run. assert (exists out' s', run = ((Err LS_EAUTH, out'), (s', 8))) as (o & s' & E)
    by (do 2 eexists; vm_compute; reflexivity).
  destruct (encode_failure_wiped demo_env demo_event demo_stuck 8 (fill 400 7) 9 LS_EAUTH o s' 8
    demo_env_ok demo_stuck_ok demo_seq_ok E) as ((n & H1 & H2) & _).
  rewrite E. split; [reflexivity|]. exists n. split; [exact H1|exact H2].
Defined.
