(* ===== verification/Retained.v ===== *)
(** * Memory that survives a reset ([src/capture/capture.c], [src/core/powerfail.c])

    The minimal crash snapshot, its 64-bit companion and the power-fail seal are written
    from fault context and found again by the next boot. A writer is the list of its
    stores, in order, so that a reset in the middle of it is a prefix of the list. *)

From S2P Require Import Prelude Util Envelope Encode.

Definition LS_MINIMAL_MAGIC : Z := 0x4d534c53.
Definition LS_WIDE_CONTEXT_MAGIC : Z := 0x3656534c.
Definition LS_MINIMAL_SNAPSHOT_VERSION : Z := 3.
Definition LS_WIDE_CONTEXT_SNAPSHOT_VERSION : Z := 1.
Definition LS_MINIMAL_SNAPSHOT_FPU_FRAME : Z := 8.
Definition LS_MINIMAL_SNAPSHOT_FPU_LAZY : Z := 16.
Definition LS_MINIMAL_SNAPSHOT_WIDE_CONTEXT_VALID : Z := 512.
Definition LS_FAULT_UNKNOWN : Z := 0.
Definition LS_FAULT_TRAP : Z := 10.
Definition LS_ARCH_UNKNOWN : Z := 0.
Definition LS_POWERFAIL_MAGIC : Z := 0x46575250.
Definition LS_POWERFAIL_BACKUP_MAGIC : Z := 0x42575250.
Definition LS_POWERFAIL_VERSION : Z := 1.
Definition LS_POWERFAIL_NONE : Z := 0.
Definition LS_POWERFAIL_TIER_RAM : Z := 0.
Definition LS_POWERFAIL_TIER_BACKUP_RAM : Z := 1.

(** ** Records *)

Record ls_minimal_snapshot_t : Type := mk_minimal {
  mn_magic : Z; mn_version : Z; mn_pc : Z; mn_lr : Z; mn_msp : Z; mn_psp : Z; mn_cfsr : Z; mn_hfsr : Z;
  mn_build_hash : Z; mn_crc : Z; mn_fault : Z; mn_flags : Z; mn_exc_return : Z; mn_xpsr : Z; mn_fpscr : Z;
  mn_emergency_stack_used : Z; mn_fault_sequence : Z; mn_extension_crc : Z; mn_architecture : Z;
  mn_registers : list Z;           (* registers[16] *)
  mn_ps : Z; mn_sar : Z; mn_exccause : Z; mn_excvaddr : Z; mn_context_crc : Z
}.

Definition minimal_words (s : ls_minimal_snapshot_t) : list Z :=
  [mn_magic s; mn_version s; mn_pc s; mn_lr s; mn_msp s; mn_psp s; mn_cfsr s; mn_hfsr s; mn_build_hash s; mn_crc s;
   mn_fault s; mn_flags s; mn_exc_return s; mn_xpsr s; mn_fpscr s; mn_emergency_stack_used s; mn_fault_sequence s;
   mn_extension_crc s; mn_architecture s] ++ mn_registers s ++
  [mn_ps s; mn_sar s; mn_exccause s; mn_excvaddr s; mn_context_crc s].

Definition minimal_size : Z := 160.
Definition offset_fault : Z := 40.
Definition offset_architecture : Z := 72.
Definition offset_crc : Z := 36.
Definition offset_extension_crc : Z := 68.
Definition offset_context_crc : Z := 156.

Definition minimal_of_bytes (m : list Z) : ls_minimal_snapshot_t :=
  let w i := read_u32 m (4 * i) in
  mk_minimal (w 0) (w 1) (w 2) (w 3) (w 4) (w 5) (w 6) (w 7) (w 8) (w 9) (w 10) (w 11) (w 12) (w 13) (w 14) (w 15) (w 16)
    (w 17) (w 18) (map (fun i => w (19 + Z.of_nat i)) (List.seq 0 16)) (w 35) (w 36) (w 37) (w 38) (w 39).

(** [ls_wide_context_snapshot_t]: six words, the 64-bit registers and a checksum, padded
    to eight bytes. *)
Definition wide_size : Z := 320.
Definition offset_wide_crc : Z := 312.

Record ls_wide_context_snapshot_t : Type := {
  wd_magic : Z; wd_version : Z; wd_architecture : Z; wd_fault : Z; wd_build_hash : Z; wd_fault_sequence : Z;
  wd_context : ls_riscv64_context_t; wd_crc : Z
}.

Definition read_u64 (m : list Z) (off : Z) : Z := le_get (slice off 8 m).

Definition wide_of_bytes (m : list Z) : ls_wide_context_snapshot_t :=
  let x i := read_u64 m (24 + 8 * i) in
  {| wd_magic := read_u32 m 0; wd_version := read_u32 m 4; wd_architecture := read_u32 m 8; wd_fault := read_u32 m 12;
     wd_build_hash := read_u32 m 16; wd_fault_sequence := read_u32 m 20;
     wd_context := {| rv_x := map (fun i => x (Z.of_nat i)) (List.seq 0 32); rv_mstatus := x 32; rv_mcause := x 33;
                      rv_mtval := x 34; rv_mepc := x 35 |};
     wd_crc := read_u32 m offset_wide_crc |}.

(** [ls_powerfail_sealed_t]. *)
Record ls_powerfail_sealed_t : Type := {
  sl_magic : Z; sl_version : Z; sl_reason : Z; sl_vcap_mv : Z; sl_tier : Z; sl_boot_id : Z; sl_fault : Z; sl_pc : Z;
  sl_lr : Z; sl_msp : Z; sl_psp : Z; sl_cfsr : Z; sl_hfsr : Z; sl_sequence : Z; sl_crc : Z
}.

Definition sealed_size : Z := 60.
Definition offset_sealed_crc : Z := 56.

Definition sealed_words (s : ls_powerfail_sealed_t) : list Z :=
  [sl_magic s; sl_version s; sl_reason s; sl_vcap_mv s; sl_tier s; sl_boot_id s; sl_fault s; sl_pc s; sl_lr s; sl_msp s;
   sl_psp s; sl_cfsr s; sl_hfsr s; sl_sequence s; sl_crc s].

Definition sealed_of_bytes (m : list Z) : ls_powerfail_sealed_t :=
  let w i := read_u32 m (4 * i) in
  {| sl_magic := w 0; sl_version := w 1; sl_reason := w 2; sl_vcap_mv := w 3; sl_tier := w 4; sl_boot_id := w 5;
     sl_fault := w 6; sl_pc := w 7; sl_lr := w 8; sl_msp := w 9; sl_psp := w 10; sl_cfsr := w 11; sl_hfsr := w 12;
     sl_sequence := w 13; sl_crc := w 14 |}.

Definition words_bytes (l : list Z) : list Z := mjoin (map (le 4) l).

(** ** State

    The retained records as memory, the backup window when one is installed, and the
    static variables, which a reset clears. *)
Record retained : Type := mk_retained {
  rm_minimal : list Z;
  rm_wide : list Z;
  rm_sealed : list Z;
  rm_backup : option (list Z);
  rm_build_hash : Z;               (* minimal_build_hash *)
  rm_riscv64_sequence : Z;         (* riscv64_fault_capture_sequence *)
  rm_seal_sequence : Z             (* seal_sequence *)
}.

Definition set_minimal (v : list Z) (m : retained) : retained :=
  mk_retained v (rm_wide m) (rm_sealed m) (rm_backup m) (rm_build_hash m) (rm_riscv64_sequence m) (rm_seal_sequence m).
Definition set_wide (v : list Z) (m : retained) : retained :=
  mk_retained (rm_minimal m) v (rm_sealed m) (rm_backup m) (rm_build_hash m) (rm_riscv64_sequence m) (rm_seal_sequence m).
Definition set_sealed (v : list Z) (m : retained) : retained :=
  mk_retained (rm_minimal m) (rm_wide m) v (rm_backup m) (rm_build_hash m) (rm_riscv64_sequence m) (rm_seal_sequence m).
Definition set_backup (v : option (list Z)) (m : retained) : retained :=
  mk_retained (rm_minimal m) (rm_wide m) (rm_sealed m) v (rm_build_hash m) (rm_riscv64_sequence m) (rm_seal_sequence m).
Definition set_statics (hash rv seal : Z) (m : retained) : retained :=
  mk_retained (rm_minimal m) (rm_wide m) (rm_sealed m) (rm_backup m) hash rv seal.

(** One store; a program is its stores in order. *)
Definition store : Type := retained -> retained.
Definition run (l : list store) (m : retained) : retained := foldl (fun m f => f m) m l.

(** [minimal_snapshot.field = value], where the value may depend on the memory. *)
Definition to_minimal (off : Z) (v : retained -> Z) : store := fun m => set_minimal (splice off (le 4 (v m)) (rm_minimal m)) m.
Definition to_wide (n : nat) (off : Z) (v : retained -> Z) : store := fun m => set_wide (splice off (le n (v m)) (rm_wide m)) m.
Definition to_sealed (off : Z) (bytes : list Z) : store := fun m => set_sealed (splice off bytes (rm_sealed m)) m.
Definition to_backup (off : Z) (bytes : list Z) : store := fun m => set_backup (splice off bytes <$> rm_backup m) m.

(** Consecutive stores of values of [step] bytes. *)
Fixpoint in_order (put : Z -> Z -> store) (step off : Z) (l : list Z) : list store :=
  match l with
  | [] => []
  | w :: l => put off w :: in_order put step (off + step) l
  end.

(** ** Checksums computed in fault context *)

Definition minimal_crc32_update (crc : Z) (data : list Z) : Z := foldl crc_byte crc data.

Definition snapshot_fault_crc (magic : Z) (snapshot : list Z) (length_ : Z) : Z :=
  if length_ <? 4 then 0
  else
    let crc := 0xffffffff in
    let crc := minimal_crc32_update crc (le 4 magic) in
    let crc := minimal_crc32_update crc (slice 4 (length_ - 4) snapshot) in
    u32 (Z.lnot crc).

Definition minimal_snapshot_fault_crc : list Z -> Z -> Z := snapshot_fault_crc LS_MINIMAL_MAGIC.
Definition wide_snapshot_fault_crc : list Z -> Z -> Z := snapshot_fault_crc LS_WIDE_CONTEXT_MAGIC.

(** ** The minimal snapshot *)

Definition minimal_put : Z -> Z -> store := fun off w => to_minimal off (fun _ => w).

(** The stores of [minimal_snapshot_store]: the words of [s] in order, with a zero magic
    and zero checksums, then the checksums and the magic. *)
Definition minimal_stores (s : ls_minimal_snapshot_t) : list store :=
  in_order minimal_put 4 0 (minimal_words s) ++
  [to_minimal offset_crc (fun m => minimal_snapshot_fault_crc (rm_minimal m) offset_crc);
   to_minimal offset_extension_crc (fun m => minimal_snapshot_fault_crc (rm_minimal m) offset_extension_crc);
   to_minimal offset_context_crc (fun m => minimal_snapshot_fault_crc (rm_minimal m) offset_context_crc);
   to_minimal 0 (fun _ => LS_MINIMAL_MAGIC)].

Definition minimal_record (pc lr msp psp cfsr hfsr build_hash fault exc_return xpsr fpscr flags emergency_stack_used
    fault_sequence architecture : Z) (registers : list Z) (ps sar exccause excvaddr : Z) : ls_minimal_snapshot_t :=
  mk_minimal 0 LS_MINIMAL_SNAPSHOT_VERSION pc lr msp psp cfsr hfsr build_hash 0 fault flags exc_return xpsr fpscr
    emergency_stack_used fault_sequence 0 architecture registers ps sar exccause excvaddr 0.

(** [minimal_snapshot_store]; the caller freezes the black box first. *)
Definition minimal_snapshot_store (build_hash pc lr msp psp cfsr hfsr fault exc_return xpsr fpscr flags emergency_stack_used
    fault_sequence : Z) (context : option ls_arch_context_t) : list store :=
  minimal_stores
    match context with
    | Some c => minimal_record pc lr msp psp cfsr hfsr build_hash fault exc_return xpsr fpscr flags emergency_stack_used
                  fault_sequence (ac_architecture c) (take 16 (ac_registers c)) (ac_ps c) (ac_sar c) (ac_exccause c)
                  (ac_excvaddr c)
    | None => minimal_record pc lr msp psp cfsr hfsr build_hash fault exc_return xpsr fpscr flags emergency_stack_used
                fault_sequence LS_ARCH_UNKNOWN (replicate 16 0) 0 0 0 0
    end.

Section Wide.
(** [LS_ENABLE_WIDE_CONTEXT]. *)
Context (wide : bool).

Definition wide_snapshot_clear : list store := if wide then [to_wide 4 0 (fun _ => 0)] else [].

(** The stores, and whether there are any. [registers] is [None] for a null pointer. *)
Definition wide_snapshot_store (registers : option (list Z)) (mstatus mcause mtval mepc build_hash fault_sequence : Z)
  : bool * list store :=
  if negb wide then (false, [])
  else
    match registers with
    | None => (false, [to_wide 4 0 (fun _ => 0)])
    | Some x =>
        (true,
         in_order (fun off w => to_wide 4 off (fun _ => w)) 4 0
           [0; LS_WIDE_CONTEXT_SNAPSHOT_VERSION; LS_ARCH_RISCV64; LS_FAULT_TRAP; build_hash; fault_sequence] ++
         in_order (fun off w => to_wide 8 off (fun _ => w)) 8 24 (take 32 x ++ [mstatus; mcause; mtval; mepc]) ++
         [to_wide 4 offset_wide_crc (fun m => wide_snapshot_fault_crc (rm_wide m) offset_wide_crc);
          to_wide 4 0 (fun _ => LS_WIDE_CONTEXT_MAGIC)])
    end.

Definition riscv64_fault_sequence_next (m : retained) : Z :=
  let sequence := inc32 (rm_riscv64_sequence m) in if sequence =? 0 then 1 else sequence.

Definition ls_capture_minimal_prepare (build_id : list Z) (m : retained) : retained :=
  set_statics (ls_hash_string (Some build_id)) 0 (rm_seal_sequence m) m.

Definition ls_capture_minimal_fault (pc lr msp psp cfsr hfsr fault exc_return xpsr fpscr flags emergency_stack_used
    fault_sequence : Z) (m : retained) : list store :=
  wide_snapshot_clear ++
  minimal_snapshot_store (rm_build_hash m) pc lr msp psp cfsr hfsr fault exc_return xpsr fpscr flags emergency_stack_used
    fault_sequence None.

Definition context_flags (c : ls_arch_context_t) : Z :=
  let flags := if ac_has_fpu c then LS_MINIMAL_SNAPSHOT_FPU_FRAME else 0 in
  if ac_fpu_lazy c then Z.lor flags LS_MINIMAL_SNAPSHOT_FPU_LAZY else flags.

Definition ls_capture_minimal_context_fault (context : option ls_arch_context_t) (m : retained) : list store :=
  match context with
  | None => []
  | Some c =>
      wide_snapshot_clear ++
      minimal_snapshot_store (rm_build_hash m) (ac_pc c) (ac_lr c) (ac_msp c) (ac_psp c) (ac_cfsr c) (ac_hfsr c) (ac_fault c)
        (ac_exc_return c) (ac_xpsr c) (ac_fpscr c) (context_flags c) 0 0 (Some c)
  end.

Definition ls_capture_minimal (context : option ls_arch_context_t) (m : retained) : ls_result_t * list store :=
  match context with
  | None => (LS_EINVAL, [])
  | Some _ => (LS_OK, ls_capture_minimal_context_fault context m)
  end.

Definition ls_capture_minimal_riscv64_fault (registers : option (list Z)) (mstatus mcause mtval mepc : Z) (m : retained)
  : list store :=
  match registers with
  | None => []
  | Some x =>
      let fault_sequence := riscv64_fault_sequence_next m in
      let '(stored, stores) := wide_snapshot_store registers mstatus mcause mtval mepc (rm_build_hash m) fault_sequence in
      (fun m => set_statics (rm_build_hash m) fault_sequence (rm_seal_sequence m) m) ::
      stores ++
      minimal_stores (minimal_record (u32 mepc) (u32 (nth 1 x 0)) (u32 (nth 2 x 0)) 0 0 0 (rm_build_hash m) LS_FAULT_TRAP 0 0 0
        (if stored then LS_MINIMAL_SNAPSHOT_WIDE_CONTEXT_VALID else 0) 0 fault_sequence LS_ARCH_RISCV64
        (map u32 (take 16 x)) 0 0 0 (u32 mtval))
  end.

(** *** Reading *)

(** The copy as the function leaves it, or [None] when it is not valid. *)
Definition ls_minimal_snapshot_validate (copy : list Z) : option (list Z) :=
  if negb (read_u32 copy 0 =? LS_MINIMAL_MAGIC) then None
  else
    let prefix_crc := ls_crc32 (slice 0 offset_crc copy) in
    let version := read_u32 copy 4 in
    if version =? 1 then
      if negb (read_u32 copy offset_crc =? prefix_crc) then None
      else Some (splice offset_fault (fill (minimal_size - offset_fault) 0) copy)
    else if version =? 2 then
      let extension_crc := ls_crc32 (slice 0 offset_extension_crc copy) in
      if negb (read_u32 copy offset_crc =? prefix_crc) || negb (read_u32 copy offset_extension_crc =? extension_crc) then None
      else Some (splice offset_architecture (fill (minimal_size - offset_architecture) 0) copy)
    else if version =? LS_MINIMAL_SNAPSHOT_VERSION then
      let extension_crc := ls_crc32 (slice 0 offset_extension_crc copy) in
      let context_crc := ls_crc32 (slice 0 offset_context_crc copy) in
      if negb (read_u32 copy offset_crc =? prefix_crc) || negb (read_u32 copy offset_extension_crc =? extension_crc) ||
         negb (read_u32 copy offset_context_crc =? context_crc) then None
      else Some copy
    else None.

Definition ls_minimal_snapshot_read (m : retained) : option ls_minimal_snapshot_t :=
  minimal_of_bytes <$> ls_minimal_snapshot_validate (rm_minimal m).

Definition ls_wide_context_snapshot_read (m : retained) : option ls_wide_context_snapshot_t :=
  if negb wide then None
  else
    let copy := wide_of_bytes (rm_wide m) in
    if negb (wd_magic copy =? LS_WIDE_CONTEXT_MAGIC) || negb (wd_version copy =? LS_WIDE_CONTEXT_SNAPSHOT_VERSION) ||
       negb (wd_architecture copy =? LS_ARCH_RISCV64) || negb (wd_fault copy =? LS_FAULT_TRAP) ||
       negb (wd_crc copy =? ls_crc32 (slice 0 offset_wide_crc (rm_wide m)))
    then None else Some copy.

Definition ls_minimal_snapshot_clear (m : retained) : retained :=
  run (to_minimal 0 (fun _ => 0) :: wide_snapshot_clear) m.

Definition wide_snapshot_matches_minimal (w : ls_wide_context_snapshot_t) (s : ls_minimal_snapshot_t) : bool :=
  (wd_architecture w =? mn_architecture s) && (wd_fault w =? mn_fault s) && (wd_build_hash w =? mn_build_hash s) &&
  (wd_fault_sequence w =? mn_fault_sequence s) &&
  (u32 (nth 1 (rv_x (wd_context w)) 0) =? mn_lr s) && (u32 (nth 2 (rv_x (wd_context w)) 0) =? mn_msp s) &&
  (u32 (rv_mtval (wd_context w)) =? mn_excvaddr s) && (u32 (rv_mepc (wd_context w)) =? mn_pc s).
End Wide.

(** ** The power-fail seal *)

Definition seal_crc_update (crc : Z) (data : list Z) : Z := foldl crc_byte crc data.

Definition backup_usable (m : retained) : bool :=
  match rm_backup m with Some window => sealed_size <=? zlen window | None => false end.

Definition sealed_validate_copy (copy : list Z) : bool :=
  let s := sealed_of_bytes copy in
  if negb (sl_magic s =? LS_POWERFAIL_MAGIC) || negb (sl_version s =? LS_POWERFAIL_VERSION) then false
  else if (sl_reason s >? LS_POWERFAIL_PVD) || (sl_tier s >? LS_POWERFAIL_TIER_BACKUP_RAM) then false
  else u32 (Z.lnot (seal_crc_update (seal_crc_update 0xffffffff (le 4 LS_POWERFAIL_MAGIC))
                     (slice 4 (offset_sealed_crc - 4) copy))) =? sl_crc s.

Definition with_magic (magic : Z) (copy : list Z) : list Z := splice 0 (le 4 magic) copy.

Definition sealed_read_retained (m : retained) : option (list Z) :=
  let copy := rm_sealed m in
  if sealed_validate_copy copy then Some copy
  else if backup_usable m then
    let backup_copy := slice 0 sealed_size (default [] (rm_backup m)) in
    let magic := read_u32 backup_copy 0 in
    if (magic =? LS_POWERFAIL_MAGIC) || (magic =? LS_POWERFAIL_BACKUP_MAGIC) then
      let backup_copy := with_magic LS_POWERFAIL_MAGIC backup_copy in
      if sealed_validate_copy backup_copy then Some backup_copy else None
    else None
  else None.

Definition ls_powerfail_install_backup (window : option (list Z)) (m : retained) : retained :=
  set_backup (match window with Some w => if sealed_size <=? zlen w then window else None | None => None end) m.

(** The record [ls_powerfail_seal] commits, before its checksum and its magic;
    [boot_count] is [ls_runtime.boot_count]. *)
Definition seal_record (reason vcap_mv boot_count sequence : Z) (m : retained) : ls_powerfail_sealed_t :=
  let minimal := ls_minimal_snapshot_read m in
  let word f := match minimal with Some s => f s | None => 0 end in
  {| sl_magic := 0; sl_version := LS_POWERFAIL_VERSION; sl_reason := u32 reason; sl_vcap_mv := vcap_mv;
     sl_tier := if backup_usable m then LS_POWERFAIL_TIER_BACKUP_RAM else LS_POWERFAIL_TIER_RAM;
     sl_boot_id := boot_count; sl_fault := match minimal with Some s => mn_fault s | None => LS_FAULT_UNKNOWN end;
     sl_pc := word mn_pc; sl_lr := word mn_lr; sl_msp := word mn_msp; sl_psp := word mn_psp; sl_cfsr := word mn_cfsr;
     sl_hfsr := word mn_hfsr; sl_sequence := sequence; sl_crc := 0 |}.

Definition seal_snapshot (reason vcap_mv boot_count sequence : Z) (m : retained) : list Z :=
  let snapshot := words_bytes (sealed_words (seal_record reason vcap_mv boot_count sequence m)) in
  let crc := seal_crc_update (seal_crc_update 0xffffffff (le 4 LS_POWERFAIL_MAGIC))
               (slice 4 (offset_sealed_crc - 4) snapshot) in
  splice offset_sealed_crc (le 4 (u32 (Z.lnot crc))) snapshot.

Definition next_seal_sequence (m : retained) : Z :=
  let sequence := inc32 (rm_seal_sequence m) in if sequence =? 0 then 1 else sequence.

(** The stores of one seal: the tail of the retained record, the copy in the backup
    window, the magic of the record, and the magic of the copy. *)
Definition seal_stores (snapshot : list Z) (backup : bool) : list store :=
  in_order (fun off b => to_sealed off [b]) 1 4 (drop 4 snapshot) ++
  (if backup then in_order (fun off b => to_backup off [b]) 1 0 snapshot else []) ++
  [to_sealed 0 (le 4 LS_POWERFAIL_MAGIC)] ++
  (if backup then in_order (fun off b => to_backup off [b]) 1 0 (le 4 LS_POWERFAIL_MAGIC) else []).

Definition ls_powerfail_seal (reason vcap_mv boot_count : Z) (m : retained) : list store :=
  if reason =? LS_POWERFAIL_NONE then []
  else if read_u32 (rm_sealed m) 0 =? LS_POWERFAIL_MAGIC then []
  else
    let sequence := next_seal_sequence m in
    (fun m => set_statics (rm_build_hash m) (rm_riscv64_sequence m) sequence m) ::
    seal_stores (seal_snapshot reason vcap_mv boot_count sequence m) (backup_usable m).

Definition seal_info (s : ls_powerfail_sealed_t) : ls_powerfail_seal_info_t :=
  {| pi_reason := sl_reason s; pi_tier := sl_tier s; pi_vcap_mv := u16 (sl_vcap_mv s); pi_boot_id := sl_boot_id s;
     pi_fault := sl_fault s; pi_sealed_ok := true |}.

Definition ls_powerfail_sealed_read (out : ptr) (m : retained) : option ls_powerfail_seal_info_t :=
  if negb out then None else (fun b => seal_info (sealed_of_bytes b)) <$> sealed_read_retained m.

Definition ls_powerfail_sealed_clear (m : retained) : retained :=
  run (to_sealed 0 (le 4 0) :: (if backup_usable m then [to_backup 0 [0]] else [])) m.

(** ** Programs of stores *)

Lemma run_app a b m : run (a ++ b) m = run b (run a m).
Proof. apply foldl_app. Qed.

Lemma take_in_order put step l : forall off k, take k (in_order put step off l) = in_order put step off (take k l).
Proof. induction l as [|w l IH]; intros off [|k]; simpl; try done. by rewrite IH. Qed.

Lemma length_in_order put step l : forall off, length (in_order put step off l) = length l.
Proof. induction l as [|w l IH]; intros off; simpl; [done|]. by rewrite IH. Qed.

(** Stores into one region of the memory. *)
Section Region.
Context (put : Z -> Z -> store) (get : retained -> option (list Z)) (set : list Z -> retained -> retained)
  (code_ : Z -> list Z) (step : Z) (step_nonneg : 0 <= step) (code_size : forall v, zlen (code_ v) = step)
  (put_spec : forall off v m l, get m = Some l -> put off v m = set (splice off (code_ v) l) m)
  (get_set : forall v m, is_Some (get m) -> get (set v m) = Some v)
  (set_set : forall v w m, set v (set w m) = set v m)
  (set_get : forall m l, get m = Some l -> set l m = m).

(** Together they are one large store. *)
Lemma run_in_order l : forall off m old, get m = Some old -> 0 <= off -> off + step * zlen l <= zlen old ->
  run (in_order put step off l) m = set (splice off (mjoin (map code_ l)) old) m.
Proof using All.
  induction l as [|w l IH]; intros off m old Hg Ho Hz.
  - simpl. rewrite splice_nil by (rewrite zlen_nil in Hz; lia). symmetry. by apply set_get.
  - rewrite zlen_cons in Hz. pose proof (zlen_nonneg l).
    assert (zlen (mjoin (map code_ l)) = step * zlen l) as Zj.
    { clear -code_size. induction l as [|x l IH]; [rewrite Z.mul_0_r; done|].
      change (mjoin (map code_ (x :: l))) with (code_ x ++ mjoin (map code_ l)). rewrite zlen_app, zlen_cons, code_size, IH. lia. }
    change (run (in_order put step off (w :: l)) m) with (run (in_order put step (off + step) l) (put off w m)).
    rewrite (put_spec off w m old Hg).
    assert (zlen (splice off (code_ w) old) = zlen old) as Zs by (apply zlen_splice; rewrite ?code_size; nia).
    rewrite (IH (off + step) _ (splice off (code_ w) old)); [|by apply get_set|lia|rewrite Zs; nia].
    rewrite set_set. f_equal. change (mjoin (map code_ (w :: l))) with (code_ w ++ mjoin (map code_ l)).
    rewrite <- (code_size w) at 1. apply splice_app; rewrite ?code_size, ?Zj; nia.
Qed.
End Region.

Lemma words_bytes_app a b : words_bytes (a ++ b) = words_bytes a ++ words_bytes b.
Proof. unfold words_bytes. by rewrite map_app, join_app. Qed.

Lemma zlen_words_bytes l : zlen (words_bytes l) = 4 * zlen l.
Proof.
  induction l as [|w l IH]; [done|]. change (words_bytes (w :: l)) with (le 4 w ++ words_bytes l).
  rewrite zlen_app, zlen_le, IH, zlen_cons. lia.
Qed.

Lemma bytes_ok_words l : bytes_ok (words_bytes l).
Proof.
  induction l as [|w l IH]; [constructor|]. change (words_bytes (w :: l)) with (le 4 w ++ words_bytes l).
  apply bytes_ok_app. split; [apply bytes_ok_le|done].
Qed.

Lemma read_word l i w rest : l !! i = Some w -> is_u32 w -> read_u32 (words_bytes l ++ rest) (4 * Z.of_nat i) = w.
Proof.
  intros Hl Hw. apply take_drop_middle in Hl. rewrite <- Hl. rewrite words_bytes_app.
  change (words_bytes (w :: drop (S i) l)) with (le 4 w ++ words_bytes (drop (S i) l)). unfold read_u32.
  rewrite <- !app_assoc, slice_middle; [by apply le_get_le4| |done].
  rewrite zlen_words_bytes. unfold zlen. apply (f_equal length) in Hl.
  rewrite length_app, length_take in Hl. simpl in Hl. rewrite length_drop in Hl. rewrite length_take. lia.
Qed.

Lemma minimal_crc_eq : minimal_crc32_update = crc_update.
Proof. reflexivity. Qed.

Lemma fault_crc_spec magic m n : 4 <= n -> snapshot_fault_crc magic m n = ls_crc32 (le 4 magic ++ slice 4 (n - 4) m).
Proof.
  intros Hn. rewrite ls_crc32_eq, crc_update_app. unfold snapshot_fault_crc.
  rewrite (proj2 (Z.ltb_ge n 4) Hn). cbv zeta. rewrite minimal_crc_eq. reflexivity.
Qed.

(** *** The minimal snapshot *)

Lemma run_minimal l off m : 0 <= off -> off + 4 * zlen l <= zlen (rm_minimal m) ->
  run (in_order minimal_put 4 off l) m = set_minimal (splice off (words_bytes l) (rm_minimal m)) m.
Proof.
  intros. apply (run_in_order minimal_put (fun m => Some (rm_minimal m)) set_minimal (le 4)); try done.
  - intros ?? m0 ? [= <-]. done.
  - by intros [] ? [= <-].
Qed.

(** What a snapshot says of the fault: all its fields but the magic and the checksums. *)
Definition evidence (s : ls_minimal_snapshot_t) : list Z :=
  [mn_version s; mn_pc s; mn_lr s; mn_msp s; mn_psp s; mn_cfsr s; mn_hfsr s; mn_build_hash s; mn_fault s; mn_flags s;
   mn_exc_return s; mn_xpsr s; mn_fpscr s; mn_emergency_stack_used s; mn_fault_sequence s; mn_architecture s] ++
  mn_registers s ++ [mn_ps s; mn_sar s; mn_exccause s; mn_excvaddr s].

(** A record as the writers build it. *)
Record snapshot_ok (s : ls_minimal_snapshot_t) : Prop := {
  sn_magic : mn_magic s = 0;
  sn_version : mn_version s = LS_MINIMAL_SNAPSHOT_VERSION;
  sn_registers : length (mn_registers s) = 16%nat;
  sn_words : Forall is_u32 (minimal_words s)
}.

Definition with_checksums (magic c1 c2 c3 : Z) (s : ls_minimal_snapshot_t) : ls_minimal_snapshot_t :=
  mk_minimal magic (mn_version s) (mn_pc s) (mn_lr s) (mn_msp s) (mn_psp s) (mn_cfsr s) (mn_hfsr s) (mn_build_hash s) c1
    (mn_fault s) (mn_flags s) (mn_exc_return s) (mn_xpsr s) (mn_fpscr s) (mn_emergency_stack_used s) (mn_fault_sequence s) c2
    (mn_architecture s) (mn_registers s) (mn_ps s) (mn_sar s) (mn_exccause s) (mn_excvaddr s) c3.

Lemma evidence_checksums magic c1 c2 c3 s : evidence (with_checksums magic c1 c2 c3 s) = evidence s.
Proof. reflexivity. Qed.

Lemma minimal_of_words s rest : length (mn_registers s) = 16%nat -> Forall is_u32 (minimal_words s) ->
  minimal_of_bytes (words_bytes (minimal_words s) ++ rest) = s.
Proof.
  intros Hr Hw. destruct s as [? ? ? ? ? ? ? ? ? ? ? ? ? ? ? ? ? ? ? r ? ? ? ? ?]. cbn [mn_registers] in Hr.
  do 16 (destruct r as [|? r]; [done|]). destruct r; [|done].
  set (ws := minimal_words _) in *. set (data := words_bytes ws ++ rest).
  assert (forall i w, ws !! i = Some w -> read_u32 data (4 * Z.of_nat i) = w) as H
    by (intros i w Hi; apply read_word; [exact Hi|eapply Forall_lookup_1; [exact Hw|exact Hi]]).
  clearbody data. unfold minimal_of_bytes. cbn [map List.seq].
  repeat match goal with |- context [read_u32 data (4 * ?z)] => rewrite (H (Z.to_nat z) _ eq_refl : read_u32 data (4 * z) = _) end.
  reflexivity.
Qed.

(** The words between the magic and the checksums. *)
Definition part_a (s : ls_minimal_snapshot_t) : list Z :=
  words_bytes [mn_version s; mn_pc s; mn_lr s; mn_msp s; mn_psp s; mn_cfsr s; mn_hfsr s; mn_build_hash s].
Definition part_b (s : ls_minimal_snapshot_t) : list Z :=
  words_bytes [mn_fault s; mn_flags s; mn_exc_return s; mn_xpsr s; mn_fpscr s; mn_emergency_stack_used s; mn_fault_sequence s].
Definition part_c (s : ls_minimal_snapshot_t) : list Z :=
  words_bytes ([mn_architecture s] ++ mn_registers s ++ [mn_ps s; mn_sar s; mn_exccause s; mn_excvaddr s]).

Definition minimal_image (magic c1 c2 c3 : Z) (s : ls_minimal_snapshot_t) : list Z :=
  le 4 magic ++ part_a s ++ le 4 c1 ++ part_b s ++ le 4 c2 ++ part_c s ++ le 4 c3.

Lemma words_one v : words_bytes [v] = le 4 v.
Proof. exact (app_nil_r (le 4 v)). Qed.

Lemma minimal_image_words magic c1 c2 c3 s :
  words_bytes (minimal_words (with_checksums magic c1 c2 c3 s)) = minimal_image magic c1 c2 c3 s.
Proof.
  unfold minimal_image, part_a, part_b, part_c.
  rewrite <- !words_one.
  rewrite <- !words_bytes_app. f_equal. unfold minimal_words. cbn [with_checksums mn_registers]. rewrite <- !app_assoc. reflexivity.
Qed.

Lemma part_sizes s : length (mn_registers s) = 16%nat -> zlen (part_a s) = 32 /\ zlen (part_b s) = 28 /\ zlen (part_c s) = 84.
Proof.
  intros Hr. unfold part_a, part_b, part_c. rewrite !zlen_words_bytes. split; [done|]. split; [done|].
  unfold zlen. rewrite !length_app, Hr. done.
Qed.

(** A store of a checksum or of the magic into the image. *)
Lemma to_minimal_part off v m p a r : rm_minimal m = p ++ a ++ r -> off = zlen p -> zlen a = 4 ->
  to_minimal off v m = set_minimal (p ++ le 4 (v m) ++ r) m.
Proof. intros Hm Ho Ha. unfold to_minimal. f_equal. rewrite Hm. by apply splice_replace. Qed.

Definition checksum_1 s : Z := ls_crc32 (le 4 LS_MINIMAL_MAGIC ++ part_a s).
Definition checksum_2 s : Z := ls_crc32 (le 4 LS_MINIMAL_MAGIC ++ part_a s ++ le 4 (checksum_1 s) ++ part_b s).
Definition checksum_3 s : Z :=
  ls_crc32 (le 4 LS_MINIMAL_MAGIC ++ part_a s ++ le 4 (checksum_1 s) ++ part_b s ++ le 4 (checksum_2 s) ++ part_c s).

Section Committed.
Context (s : ls_minimal_snapshot_t) (ok : snapshot_ok s) (m : retained) (size : zlen (rm_minimal m) = minimal_size).

Local Abbreviation image magic c1 c2 c3 := (set_minimal (minimal_image magic c1 c2 c3 s) m).

Lemma stored_words : run (in_order minimal_put 4 0 (minimal_words s)) m = image 0 (mn_crc s) (mn_extension_crc s) (mn_context_crc s).
Proof using ok size.
  assert (zlen (minimal_words s) = 40) as Hz.
  { unfold minimal_words, zlen. rewrite !length_app, (sn_registers s ok). done. }
  unfold minimal_size in size. rewrite run_minimal by (rewrite ?Hz, ?size; lia). f_equal.
  rewrite splice_full by (rewrite zlen_words_bytes, Hz, size; done).
  rewrite <- minimal_image_words. do 2 f_equal. destruct ok as [Hm _ _ _]. destruct s. cbn in Hm. subst. reflexivity.
Qed.

(** The checksum stored at [off] over the image before it. *)
Lemma crc_store off magic p a r : 4 <= off -> off = 4 + zlen p -> zlen a = 4 ->
  to_minimal off (fun m => minimal_snapshot_fault_crc (rm_minimal m) off) (set_minimal (le 4 magic ++ p ++ a ++ r) m) =
  set_minimal (le 4 magic ++ p ++ le 4 (ls_crc32 (le 4 LS_MINIMAL_MAGIC ++ p)) ++ r) m.
Proof using Type.
  intros H4 Ho Ha. rewrite (to_minimal_part off _ _ (le 4 magic ++ p) a r); [|cbn [rm_minimal set_minimal]; by rewrite <- !app_assoc|rewrite zlen_app, zlen_le; lia|done].
  unfold set_minimal at 1. cbn [rm_minimal set_minimal rm_wide rm_sealed rm_backup rm_build_hash rm_riscv64_sequence rm_seal_sequence].
  unfold minimal_snapshot_fault_crc. rewrite fault_crc_spec by done.
  rewrite (slice_middle (le 4 magic) p) by (rewrite ?zlen_le; lia). unfold set_minimal. by rewrite <- !app_assoc.
Qed.

Lemma after_crc_1 : to_minimal offset_crc (fun m => minimal_snapshot_fault_crc (rm_minimal m) offset_crc)
    (image 0 (mn_crc s) (mn_extension_crc s) (mn_context_crc s)) = image 0 (checksum_1 s) (mn_extension_crc s) (mn_context_crc s).
Proof using ok.
  destruct (part_sizes s (sn_registers s ok)) as (Za & _). unfold minimal_image. apply crc_store; [done| |done]. by rewrite Za.
Qed.

Lemma after_crc_2 c3 : to_minimal offset_extension_crc (fun m => minimal_snapshot_fault_crc (rm_minimal m) offset_extension_crc)
    (image 0 (checksum_1 s) (mn_extension_crc s) c3) = image 0 (checksum_1 s) (checksum_2 s) c3.
Proof using ok.
  destruct (part_sizes s (sn_registers s ok)) as (Za & Zb & _). unfold minimal_image, checksum_2.
  generalize (checksum_1 s). intros c1. rewrite (app_assoc _ (le 4 c1)), (app_assoc _ (part_b s)).
  rewrite crc_store by (done || rewrite !zlen_app, zlen_le; lia). by rewrite <- !app_assoc.
Qed.

Lemma after_crc_3 : to_minimal offset_context_crc (fun m => minimal_snapshot_fault_crc (rm_minimal m) offset_context_crc)
    (image 0 (checksum_1 s) (checksum_2 s) (mn_context_crc s)) = image 0 (checksum_1 s) (checksum_2 s) (checksum_3 s).
Proof using ok.
  destruct (part_sizes s (sn_registers s ok)) as (Za & Zb & Zc). unfold minimal_image, checksum_3.
  generalize (checksum_1 s) (checksum_2 s). intros c1 c2.
  rewrite (app_assoc _ (le 4 c1)), (app_assoc _ (part_b s)), (app_assoc _ (le 4 c2)), (app_assoc _ (part_c s)).
  rewrite <- (app_nil_r (le 4 (mn_context_crc s))).
  rewrite crc_store by (done || (rewrite !zlen_app; repeat rewrite zlen_le; unfold offset_context_crc; lia)). rewrite app_nil_r. by rewrite <- !app_assoc.
Qed.

Lemma after_magic c1 c2 c3 : to_minimal 0 (fun _ => LS_MINIMAL_MAGIC) (image 0 c1 c2 c3) = image LS_MINIMAL_MAGIC c1 c2 c3.
Proof using Type. unfold minimal_image. by rewrite (to_minimal_part 0 _ _ [] (le 4 0) (part_a s ++ le 4 c1 ++ part_b s ++ le 4 c2 ++ part_c s ++ le 4 c3)). Qed.

Lemma stored_snapshot : run (minimal_stores s) m = image LS_MINIMAL_MAGIC (checksum_1 s) (checksum_2 s) (checksum_3 s).
Proof using ok size.
  unfold minimal_stores. rewrite run_app, stored_words. cbn [run foldl].
  rewrite after_crc_1, after_crc_2, after_crc_3. apply after_magic.
Qed.

(** What was stored completely is accepted, and is what was to be stored. *)
Lemma snapshot_reads : ls_minimal_snapshot_read (run (minimal_stores s) m) =
  Some (with_checksums LS_MINIMAL_MAGIC (checksum_1 s) (checksum_2 s) (checksum_3 s) s).
Proof using ok size.
  rewrite stored_snapshot. unfold ls_minimal_snapshot_read. cbn [rm_minimal set_minimal].
  destruct (part_sizes s (sn_registers s ok)) as (Za & Zb & Zc).
  set (data := minimal_image _ _ _ _ s).
  assert (forall a b w, data = a ++ le 4 w ++ b -> is_u32 w -> read_u32 data (zlen a) = w) as Hread.
  { intros a b w -> Hw. unfold read_u32. rewrite slice_middle by (rewrite ?zlen_le; done). by apply le_get_le4. }
  assert (ls_minimal_snapshot_validate data = Some data) as ->.
  { unfold ls_minimal_snapshot_validate.
    assert (read_u32 data 0 = LS_MINIMAL_MAGIC) as -> by (by eapply (Hread [])).
    assert (read_u32 data 4 = mn_version s) as ->.
    { eapply (Hread (le 4 LS_MINIMAL_MAGIC)); [unfold data, minimal_image, part_a; reflexivity|].
      eapply (Forall_lookup_1 is_u32 (minimal_words s) 1); [apply (sn_words s ok)|done]. }
    rewrite (sn_version s ok). change (negb (LS_MINIMAL_MAGIC =? LS_MINIMAL_MAGIC)) with false.
    change (LS_MINIMAL_SNAPSHOT_VERSION =? 1) with false. change (LS_MINIMAL_SNAPSHOT_VERSION =? 2) with false.
    change (LS_MINIMAL_SNAPSHOT_VERSION =? LS_MINIMAL_SNAPSHOT_VERSION) with true. cbv iota zeta.
    assert (forall p r, data = p ++ r -> slice 0 (zlen p) data = p) as Hpre by (intros p r ->; by apply slice_prefix).
    set (c1 := checksum_1 s) in *. set (c2 := checksum_2 s) in *. set (c3 := checksum_3 s) in *.
    assert (data = (le 4 LS_MINIMAL_MAGIC ++ part_a s) ++ le 4 c1 ++ part_b s ++ le 4 c2 ++ part_c s ++ le 4 c3) as E1
      by (unfold data, minimal_image; by rewrite <- !app_assoc).
    assert (data = (le 4 LS_MINIMAL_MAGIC ++ part_a s ++ le 4 c1 ++ part_b s) ++ le 4 c2 ++ part_c s ++ le 4 c3) as E2
      by (unfold data, minimal_image; by rewrite <- !app_assoc).
    assert (data = (le 4 LS_MINIMAL_MAGIC ++ part_a s ++ le 4 c1 ++ part_b s ++ le 4 c2 ++ part_c s) ++ le 4 c3 ++ []) as E3
      by (unfold data, minimal_image; by rewrite app_nil_r, <- !app_assoc).
    assert (offset_crc = zlen (le 4 LS_MINIMAL_MAGIC ++ part_a s)) as O1 by (rewrite zlen_app, zlen_le, Za; done).
    assert (offset_extension_crc = zlen (le 4 LS_MINIMAL_MAGIC ++ part_a s ++ le 4 c1 ++ part_b s)) as O2
      by (rewrite !zlen_app; repeat rewrite zlen_le; rewrite Za, Zb; done).
    assert (offset_context_crc = zlen (le 4 LS_MINIMAL_MAGIC ++ part_a s ++ le 4 c1 ++ part_b s ++ le 4 c2 ++ part_c s)) as O3
      by (rewrite !zlen_app; repeat rewrite zlen_le; rewrite Za, Zb, Zc; done).
    rewrite O1, (Hpre _ _ E1), (Hread _ _ _ E1) by apply crc32_range.
    rewrite O2, (Hpre _ _ E2), (Hread _ _ _ E2) by apply crc32_range.
    rewrite O3, (Hpre _ _ E3), (Hread _ _ _ E3) by apply crc32_range.
    fold (checksum_1 s) (checksum_2 s) (checksum_3 s). unfold c1, c2, c3. rewrite !Z.eqb_refl. reflexivity. }
  simpl. f_equal. unfold data. rewrite <- minimal_image_words, <- (app_nil_r (words_bytes _)).
  apply minimal_of_words; [exact (sn_registers s ok)|].
  pose proof (sn_words s ok) as Hw. unfold minimal_words in Hw |- *. cbn [with_checksums mn_registers mn_magic mn_version mn_pc mn_lr mn_msp
    mn_psp mn_cfsr mn_hfsr mn_build_hash mn_crc mn_fault mn_flags mn_exc_return mn_xpsr mn_fpscr mn_emergency_stack_used
    mn_fault_sequence mn_extension_crc mn_architecture mn_ps mn_sar mn_exccause mn_excvaddr mn_context_crc].
  rewrite !Forall_app, !Forall_cons in *.
  assert (is_u32 LS_MINIMAL_MAGIC) by (vm_compute; split; [discriminate|reflexivity]).
  pose proof (crc32_range (le 4 LS_MINIMAL_MAGIC ++ part_a s) : is_u32 (checksum_1 s)).
  assert (is_u32 (checksum_2 s)) by apply crc32_range. assert (is_u32 (checksum_3 s)) by apply crc32_range.
  tauto.
Qed.
End Committed.

(** Stores behind the magic leave it alone. *)
Definition behind_magic (f : store) : Prop := exists off v, 4 <= off <= minimal_size - 4 /\ f = to_minimal off v.

Lemma run_behind_magic l m : Forall behind_magic l -> zlen (rm_minimal m) = minimal_size ->
  slice 0 4 (rm_minimal (run l m)) = slice 0 4 (rm_minimal m) /\ zlen (rm_minimal (run l m)) = minimal_size.
Proof.
  intros Hl. revert m. induction Hl as [|f l (off & v & Ho & ->) _ IH]; intros m Hz; [done|].
  change (run (to_minimal off v :: l) m) with (run l (to_minimal off v m)). unfold minimal_size in *.
  assert (zlen (rm_minimal (to_minimal off v m)) = 160) as Hz' by (cbn [to_minimal set_minimal rm_minimal]; rewrite zlen_splice; rewrite ?zlen_le; lia).
  destruct (IH _ Hz') as [-> ->]. split; [|done]. cbn [to_minimal set_minimal rm_minimal].
  apply slice_splice_disjoint; rewrite ?zlen_le; lia.
Qed.

Lemma behind_in_order l : forall off, 4 <= off -> off + 4 * zlen l <= minimal_size -> Forall behind_magic (in_order minimal_put 4 off l).
Proof.
  induction l as [|w l IH]; intros off Ho Hz; simpl; [constructor|]. rewrite zlen_cons in Hz. pose proof (zlen_nonneg l).
  constructor; [exists off, (fun _ => w); split; [lia|done]|]. apply IH; lia.
Qed.

(** All the stores between the first, which clears the magic, and the last. *)
Lemma minimal_stores_shape s : snapshot_ok s -> exists mid, minimal_stores s = to_minimal 0 (fun _ => 0) :: mid ++ [to_minimal 0 (fun _ => LS_MINIMAL_MAGIC)] /\
  length mid = 42%nat /\ Forall behind_magic mid.
Proof.
  intros [Hm _ Hr _].
  exists (in_order minimal_put 4 4 (drop 1 (minimal_words s)) ++
    [to_minimal offset_crc (fun m => minimal_snapshot_fault_crc (rm_minimal m) offset_crc);
     to_minimal offset_extension_crc (fun m => minimal_snapshot_fault_crc (rm_minimal m) offset_extension_crc);
     to_minimal offset_context_crc (fun m => minimal_snapshot_fault_crc (rm_minimal m) offset_context_crc)]).
  assert (length (drop 1 (minimal_words s)) = 39%nat) as Hlen.
  { rewrite length_drop. unfold minimal_words. rewrite !length_app, Hr. done. }
  split_and!.
  - unfold minimal_stores, minimal_words. rewrite Hm, <- app_assoc. reflexivity.
  - by rewrite length_app, length_in_order, Hlen.
  - apply Forall_app. split; [apply behind_in_order; unfold zlen; rewrite ?Hlen; unfold minimal_size; lia|].
    unfold behind_magic, minimal_size, offset_crc, offset_extension_crc, offset_context_crc.
    repeat (apply List.Forall_cons; [eexists _, _; split; [|reflexivity]; lia|]). constructor.
Qed.

Lemma snapshot_not_read m : slice 0 4 (rm_minimal m) = le 4 0 -> ls_minimal_snapshot_read m = None.
Proof.
  intros H. unfold ls_minimal_snapshot_read, ls_minimal_snapshot_validate.
  change (read_u32 (rm_minimal m) 0) with (le_get (slice 0 4 (rm_minimal m))). by rewrite H.
Qed.

(** Clearing. *)
Lemma cleared_not_read wide m : zlen (rm_minimal m) = minimal_size ->
  ls_minimal_snapshot_read (ls_minimal_snapshot_clear wide m) = None.
Proof.
  intros Hz. apply snapshot_not_read. unfold minimal_size in Hz. unfold ls_minimal_snapshot_clear, wide_snapshot_clear.
  assert (slice 0 4 (splice 0 (le 4 0) (rm_minimal m)) = le 4 0) as H by (apply (slice_splice_same 0 (le 4 0)); rewrite ?zlen_le; lia).
  destruct wide; exact H.
Qed.

(** The stores of a fault with its context, completed. *)
Definition context_record (hash : Z) (c : ls_arch_context_t) : ls_minimal_snapshot_t :=
  minimal_record (ac_pc c) (ac_lr c) (ac_msp c) (ac_psp c) (ac_cfsr c) (ac_hfsr c) hash (ac_fault c) (ac_exc_return c)
    (ac_xpsr c) (ac_fpscr c) (context_flags c) 0 0 (ac_architecture c) (take 16 (ac_registers c)) (ac_ps c) (ac_sar c)
    (ac_exccause c) (ac_excvaddr c).

Lemma context_fault_read wide c m : snapshot_ok (context_record (rm_build_hash m) c) -> zlen (rm_minimal m) = minimal_size ->
  exists s, ls_minimal_snapshot_read (run (ls_capture_minimal_context_fault wide (Some c) m) m) = Some s /\
    evidence s = evidence (context_record (rm_build_hash m) c).
Proof.
  intros Hs Hz. unfold ls_capture_minimal_context_fault, minimal_snapshot_store. fold (context_record (rm_build_hash m) c).
  rewrite run_app. set (m1 := run (wide_snapshot_clear wide) m).
  assert (zlen (rm_minimal m1) = minimal_size) as Hz1 by (unfold m1; by destruct wide).
  eexists. split; [exact (snapshot_reads _ Hs m1 Hz1)|apply evidence_checksums].
Qed.

(** C3: the snapshot a fault handler writes is all or nothing over a reset at any
    point: before its first store the memory is untouched, from then until the last one
    no snapshot is found, whatever the memory held, and after the last one the snapshot
    is read back with every word of the evidence. *)
Theorem minimal_snapshot_atomic (s : ls_minimal_snapshot_t) (ok : snapshot_ok s) (m : retained)
    (size : zlen (rm_minimal m) = minimal_size) (k : nat) :
  let m' := run (take k (minimal_stores s)) m in
  (k = 0%nat -> m' = m) /\
  (0 < k < length (minimal_stores s) -> ls_minimal_snapshot_read m' = None)%nat /\
  (length (minimal_stores s) <= k ->
   exists found, ls_minimal_snapshot_read m' = Some found /\ evidence found = evidence s)%nat.
Proof.
  split_and!; intros Hk.
  - by subst.
  - destruct (minimal_stores_shape s ok) as (mid & E & Hl & Hb). rewrite E in *. cbn [length] in Hk. rewrite length_app in Hk. cbn in Hk.
    destruct k as [|k]; [lia|]. rewrite firstn_cons, take_app_le by lia.
    change (run (to_minimal 0 (fun _ => 0) :: take k mid) m) with (run (take k mid) (to_minimal 0 (fun _ => 0) m)).
    unfold minimal_size in size. assert (zlen (splice 0 (le 4 0) (rm_minimal m)) = 160) as Hz by (by rewrite zlen_splice by (rewrite ?zlen_le; lia)).
    apply snapshot_not_read. destruct (run_behind_magic (take k mid) (to_minimal 0 (fun _ => 0) m)) as [-> _]; [by apply Forall_take|exact Hz|].
    cbn [to_minimal set_minimal rm_minimal]. change 4 with (zlen (le 4 0)). apply slice_splice_same; rewrite ?zlen_le; lia.
  - rewrite take_ge by done. eexists. split; [by apply snapshot_reads|]. apply evidence_checksums.
Qed.

Definition demo_snapshot : ls_minimal_snapshot_t :=
  minimal_record 0x08001234 0x08000fed 0x20004000 0 0x82 0x40000000 0xdeadbeef 1 0xfffffff9 0x61000000 0 0 0 0 1
    (map Z.of_nat (List.seq 1 16)) 0 0 0 0.

Definition demo_retained : retained := mk_retained (fill 160 165) (fill 320 165) (fill 60 165) (Some (fill 64 165)) 0 0 0.

Lemma demo_snapshot_ok : snapshot_ok demo_snapshot.
Proof. split; [reflexivity..|]. repeat (apply List.Forall_cons; [split; vm_compute; [discriminate|reflexivity]|]). constructor. Qed.

(** Cut short after twenty stores there is no snapshot; carried through there is one. *)
Lemma minimal_snapshot_atomic_witness :
  ls_minimal_snapshot_read (run (take 20 (minimal_stores demo_snapshot)) demo_retained) = None /\
  exists found, ls_minimal_snapshot_read (run (take 44 (minimal_stores demo_snapshot)) demo_retained) = Some found /\
    evidence found = evidence demo_snapshot.
Proof.
  split.
  - apply (minimal_snapshot_atomic demo_snapshot demo_snapshot_ok demo_retained eq_refl 20). change (length _) with 44%nat. lia.
  - apply (minimal_snapshot_atomic demo_snapshot demo_snapshot_ok demo_retained eq_refl 44). change (length _) with 44%nat. lia.
Defined.

(** *** The power-fail seal *)

Lemma mjoin_singletons (l : list Z) : mjoin (map (fun v => [v]) l) = l.
Proof. induction l as [|v l IH]; [done|]. change (v :: mjoin (map (fun v => [v]) l) = v :: l). by rewrite IH. Qed.

Lemma run_sealed l off m : 0 <= off -> off + zlen l <= zlen (rm_sealed m) ->
  run (in_order (fun off b => to_sealed off [b]) 1 off l) m = set_sealed (splice off l (rm_sealed m)) m.
Proof.
  intros. rewrite (run_in_order (fun off b => to_sealed off [b]) (fun m => Some (rm_sealed m)) set_sealed (fun v => [v]) 1)
    with (old := rm_sealed m); [by rewrite mjoin_singletons|done|done| |done|done| |done|done|lia].
  - by intros ?? m0 ? [= <-].
  - by intros [] ? [= <-].
Qed.

Lemma run_backup l off m b : rm_backup m = Some b -> 0 <= off -> off + zlen l <= zlen b ->
  run (in_order (fun off b => to_backup off [b]) 1 off l) m = set_backup (Some (splice off l b)) m.
Proof.
  intros. rewrite (run_in_order (fun off b => to_backup off [b]) rm_backup (fun v => set_backup (Some v)) (fun v => [v]) 1)
    with (old := b); [by rewrite mjoin_singletons|done|done| |done|done| |done|done|lia].
  - intros ??? l0 Hl. unfold to_backup. by rewrite Hl.
  - intros [] l0 Hl. cbn in Hl |- *. by rewrite <- Hl.
Qed.

(** Words read back from the bytes they were stored as. *)
Lemma sealed_of_words s rest : Forall is_u32 (sealed_words s) -> sealed_of_bytes (words_bytes (sealed_words s) ++ rest) = s.
Proof.
  intros Hw. destruct s. set (ws := sealed_words _) in *. set (data := words_bytes ws ++ rest).
  assert (forall i w, ws !! i = Some w -> read_u32 data (4 * Z.of_nat i) = w) as H
    by (intros i w Hi; apply read_word; [exact Hi|eapply Forall_lookup_1; [exact Hw|exact Hi]]).
  clearbody data. unfold sealed_of_bytes.
  repeat match goal with |- context [read_u32 data (4 * ?z)] => rewrite (H (Z.to_nat z) _ eq_refl : read_u32 data (4 * z) = _) end.
  reflexivity.
Qed.

(** The record as it is committed. *)
Definition sealed_with (magic crc : Z) (s : ls_powerfail_sealed_t) : ls_powerfail_sealed_t :=
  {| sl_magic := magic; sl_version := sl_version s; sl_reason := sl_reason s; sl_vcap_mv := sl_vcap_mv s; sl_tier := sl_tier s;
     sl_boot_id := sl_boot_id s; sl_fault := sl_fault s; sl_pc := sl_pc s; sl_lr := sl_lr s; sl_msp := sl_msp s;
     sl_psp := sl_psp s; sl_cfsr := sl_cfsr s; sl_hfsr := sl_hfsr s; sl_sequence := sl_sequence s; sl_crc := crc |}.

Definition sealed_body (s : ls_powerfail_sealed_t) : list Z := words_bytes (removelast (drop 1 (sealed_words s))).

Definition sealed_image (magic crc : Z) (s : ls_powerfail_sealed_t) : list Z := le 4 magic ++ sealed_body s ++ le 4 crc.

Lemma sealed_image_words magic crc s : words_bytes (sealed_words (sealed_with magic crc s)) = sealed_image magic crc s.
Proof.
  unfold sealed_image, sealed_body. rewrite <- !words_one. rewrite <- !words_bytes_app. f_equal.
Qed.

Lemma zlen_sealed_body s : zlen (sealed_body s) = 52.
Proof. unfold sealed_body. by rewrite zlen_words_bytes. Qed.

Definition seal_checksum (s : ls_powerfail_sealed_t) : Z := ls_crc32 (le 4 LS_POWERFAIL_MAGIC ++ sealed_body s).

Lemma seal_crc_spec body : u32 (Z.lnot (seal_crc_update (seal_crc_update 0xffffffff (le 4 LS_POWERFAIL_MAGIC)) body)) =
  ls_crc32 (le 4 LS_POWERFAIL_MAGIC ++ body).
Proof. rewrite ls_crc32_eq, crc_update_app. reflexivity. Qed.

Lemma slice_sealed_body magic crc s : slice 4 (offset_sealed_crc - 4) (sealed_image magic crc s) = sealed_body s.
Proof. unfold sealed_image. apply slice_middle; by rewrite ?zlen_sealed_body. Qed.

Lemma seal_snapshot_image reason vcap boot sequence m :
  let s := seal_record reason vcap boot sequence m in seal_snapshot reason vcap boot sequence m = sealed_image 0 (seal_checksum s) s.
Proof.
  intros s. unfold seal_snapshot. fold s. cbv zeta. rewrite seal_crc_spec.
  assert (words_bytes (sealed_words s) = sealed_image 0 0 s) as -> by (rewrite <- sealed_image_words; reflexivity).
  rewrite slice_sealed_body. fold (seal_checksum s).
  assert (sealed_image 0 0 s = (le 4 0 ++ sealed_body s) ++ le 4 0 ++ []) as -> by (unfold sealed_image; by rewrite app_nil_r, <- app_assoc).
  rewrite (splice_replace (le 4 0 ++ sealed_body s)) by (rewrite ?zlen_app; repeat rewrite zlen_le; rewrite ?zlen_sealed_body; done).
  unfold sealed_image. by rewrite app_nil_r, <- app_assoc.
Qed.

Lemma with_magic_image magic' magic crc s : with_magic magic' (sealed_image magic crc s) = sealed_image magic' crc s.
Proof. unfold with_magic, sealed_image. apply (splice_replace []); by rewrite ?zlen_le. Qed.

(** The retained words as the program keeps them. *)
Record retained_ok (m : retained) : Prop := {
  ro_minimal : zlen (rm_minimal m) = minimal_size /\ bytes_ok (rm_minimal m);
  ro_sealed : zlen (rm_sealed m) = sealed_size;
  ro_sequence : is_u32 (rm_seal_sequence m)
}.

Lemma minimal_words_range m : zlen (rm_minimal m) = minimal_size -> bytes_ok (rm_minimal m) ->
  forall s, ls_minimal_snapshot_read m = Some s -> Forall is_u32 (minimal_words s).
Proof.
  intros Hz Hb s. unfold ls_minimal_snapshot_read. destruct (ls_minimal_snapshot_validate _) as [c|] eqn:E; [|done].
  intros [= <-]. assert (bytes_ok c /\ zlen c = 160) as [Hc Zc].
  { unfold minimal_size in Hz. unfold ls_minimal_snapshot_validate in E. repeat (case_match; try discriminate).
    - apply (inj Some) in E as <-. split; [apply bytes_ok_splice; [by apply bytes_ok_fill|done]|].
      rewrite zlen_splice; rewrite ?zlen_fill; unfold offset_fault, minimal_size; lia.
    - apply (inj Some) in E as <-. split; [apply bytes_ok_splice; [by apply bytes_ok_fill|done]|].
      rewrite zlen_splice; rewrite ?zlen_fill; unfold offset_architecture, minimal_size; lia.
    - apply (inj Some) in E as <-. done. }
  unfold minimal_of_bytes, minimal_words. cbn [map List.seq mn_registers app].
  repeat (apply List.Forall_cons; [apply read_u32_range; [exact Hc|done|rewrite Zc; done]|]). constructor.
Qed.

Lemma sealed_words_range reason vcap boot m : retained_ok m -> is_u16 vcap -> is_u32 boot ->
  Forall is_u32 (sealed_words (seal_record reason vcap boot (next_seal_sequence m) m)).
Proof.
  intros [[Hz Hb] _ Hs] Hv Hboot. pose proof (minimal_words_range m Hz Hb) as Hw.
  assert (is_u32 (next_seal_sequence m)) as Hq.
  { unfold next_seal_sequence. cbv zeta. destruct (inc32 _ =? 0); [split; [done|reflexivity]|apply u32_range]. }
  assert (is_u32 0) as H0 by done. assert (is_u32 1) as H1 by done. pose proof (u32_range reason) as Hr.
  assert (is_u32 vcap) as Hv' by blia.
  unfold sealed_words, seal_record. destruct (backup_usable m), (ls_minimal_snapshot_read m) as [s|];
    try (specialize (Hw s eq_refl); unfold minimal_words in Hw; cbn [app] in Hw; rewrite !Forall_cons in Hw; destruct_and! Hw);
    repeat (apply List.Forall_cons; [assumption|]); constructor.
Qed.

Lemma sealed_of_image magic crc s : Forall is_u32 (sealed_words s) -> is_u32 magic -> is_u32 crc ->
  sealed_of_bytes (sealed_image magic crc s) = sealed_with magic crc s.
Proof.
  intros Hw Hm Hc. rewrite <- sealed_image_words, <- (app_nil_r (words_bytes _)). apply sealed_of_words.
  unfold sealed_words in *. rewrite !Forall_cons in *. cbn [sealed_with sl_magic sl_version sl_reason sl_vcap_mv sl_tier sl_boot_id
    sl_fault sl_pc sl_lr sl_msp sl_psp sl_cfsr sl_hfsr sl_sequence sl_crc]. tauto.
Qed.

Lemma powerfail_magic_range : is_u32 LS_POWERFAIL_MAGIC.
Proof. split; vm_compute; [discriminate|reflexivity]. Qed.

(** A complete record passes the check of the reader. *)
Lemma sealed_valid s : Forall is_u32 (sealed_words s) -> sl_version s = LS_POWERFAIL_VERSION -> sl_reason s <= LS_POWERFAIL_PVD ->
  sl_tier s <= LS_POWERFAIL_TIER_BACKUP_RAM -> sealed_validate_copy (sealed_image LS_POWERFAIL_MAGIC (seal_checksum s) s) = true.
Proof.
  intros Hw Hv Hr Ht. unfold sealed_validate_copy. rewrite sealed_of_image by (exact Hw || exact powerfail_magic_range || apply crc32_range).
  cbn [sealed_with sl_magic sl_version sl_reason sl_tier sl_crc]. rewrite seal_crc_spec, slice_sealed_body. fold (seal_checksum s).
  rewrite Hv, (Z.eqb_refl LS_POWERFAIL_MAGIC), (Z.eqb_refl LS_POWERFAIL_VERSION), (Z.eqb_refl (seal_checksum s)). cbn [negb orb].
  destruct (_ || _) eqn:E; [|done]. blia.
Qed.

Lemma invalid_magic copy : read_u32 copy 0 <> LS_POWERFAIL_MAGIC -> sealed_validate_copy copy = false.
Proof.
  intros H. unfold sealed_validate_copy. destruct (negb _ || _) eqn:E; [done|].
  apply orb_false_iff in E as [E _]. apply negb_false_iff, Z.eqb_eq in E. by destruct H.
Qed.

Lemma magic_of l : bytes_ok l -> 4 <= zlen l -> byte_at l 0 = read_u32 l 0 mod 256.
Proof.
  intros Hb Hz. destruct l as [|b0 [|b1 [|b2 [|b3 l]]]]; try (by destruct Hz).
  apply Forall_cons in Hb as [Hb0 Hb].
  change (read_u32 (b0 :: b1 :: b2 :: b3 :: l) 0) with (le_get [b0; b1; b2; b3]). rewrite le_get_cons by done.
  change (byte_at (b0 :: b1 :: b2 :: b3 :: l) 0) with b0. rewrite Z.mul_comm, Z_mod_plus_full. symmetry. apply Z.mod_small. blia.
Qed.

Lemma seal_cleared_not_read m : zlen (rm_sealed m) = sealed_size -> (forall b, rm_backup m = Some b -> bytes_ok b) ->
  sealed_read_retained (ls_powerfail_sealed_clear m) = None.
Proof.
  intros Hz Hw. unfold sealed_read_retained. cbv zeta. unfold sealed_size in Hz.
  assert (rm_sealed (ls_powerfail_sealed_clear m) = splice 0 (le 4 0) (rm_sealed m)) as ->
    by (unfold ls_powerfail_sealed_clear; by destruct (backup_usable m)).
  rewrite (invalid_magic (splice _ _ _)) by (unfold read_u32; rewrite (slice_splice_same 0 (le 4 0)) by (rewrite ?zlen_le; lia); vm_compute; discriminate).
  unfold ls_powerfail_sealed_clear. destruct (backup_usable m) eqn:Eu.
  2: { assert (backup_usable (run [to_sealed 0 (le 4 0)] m) = false) as -> by exact Eu. done. }
  unfold backup_usable in Eu. destruct (rm_backup m) as [b|] eqn:Eb; [|done]. bool_prop. specialize (Hw b eq_refl).
  cbn [run foldl to_sealed to_backup set_sealed set_backup rm_backup]. rewrite Eb. cbn [fmap option_fmap option_map default]. unfold id.
  destruct (backup_usable _); [|done]. set (c := slice 0 sealed_size (splice 0 [0] b)). unfold sealed_size in *.
  assert (zlen (splice 0 [0] b) = zlen b) as Zs by (apply zlen_splice; change (zlen [0]) with 1; lia).
  assert (zlen c = 60) as Zc by (unfold c; rewrite zlen_slice; lia).
  assert (bytes_ok c) as Hc by (apply bytes_ok_slice, bytes_ok_splice; [repeat constructor; done|done]).
  assert (read_u32 c 0 mod 256 = 0) as H0 by (rewrite <- magic_of by (done || lia); unfold c, splice; reflexivity).
  assert (read_u32 c 0 <> LS_POWERFAIL_MAGIC) by (intros E; by rewrite E in H0).
  assert (read_u32 c 0 <> LS_POWERFAIL_BACKUP_MAGIC) by (intros E; by rewrite E in H0).
  by rewrite (proj2 (Z.eqb_neq _ _)), (proj2 (Z.eqb_neq _ _)).
Qed.

Section Sealed.
Context (reason vcap boot : Z) (m : retained) (ok : retained_ok m)
  (cause : LS_POWERFAIL_NONE < reason <= LS_POWERFAIL_PVD) (volts : is_u16 vcap) (boots : is_u32 boot)
  (open_ : read_u32 (rm_sealed m) 0 <> LS_POWERFAIL_MAGIC)
  (window : forall b, rm_backup m = Some b -> bytes_ok b).

Local Abbreviation s := (seal_record reason vcap boot (next_seal_sequence m) m).
Local Abbreviation image magic := (sealed_image magic (seal_checksum s) s).
Local Abbreviation started := (set_statics (rm_build_hash m) (rm_riscv64_sequence m) (next_seal_sequence m) m).

Lemma image_valid : sealed_validate_copy (image LS_POWERFAIL_MAGIC) = true.
Proof using ok cause volts boots.
  apply sealed_valid; [by apply sealed_words_range|reflexivity| |].
  - unfold seal_record. cbn [sl_reason]. rewrite u32_id; [lia|]. unfold is_u32, LS_POWERFAIL_NONE, LS_POWERFAIL_PVD in *. lia.
  - unfold seal_record. cbn [sl_tier]. by destruct (backup_usable m).
Qed.

Lemma zlen_image magic : zlen (image magic) = 60.
Proof using Type. unfold sealed_image. rewrite !zlen_app, zlen_sealed_body. repeat rewrite zlen_le. done. Qed.

Lemma image_tail : drop 4 (image 0) = sealed_body s ++ le 4 (seal_checksum s).
Proof using Type. reflexivity. Qed.

(** The stores of the retained record but its magic. *)
Lemma tail_stored j : run (take j (in_order (fun off b => to_sealed off [b]) 1 4 (drop 4 (image 0)))) started =
  set_sealed (splice 4 (take j (drop 4 (image 0))) (rm_sealed m)) started.
Proof using ok.
  rewrite take_in_order. pose proof (ro_sealed m ok) as Hz. unfold sealed_size in Hz.
  assert (zlen (drop 4 (image 0)) = 56) as Ht by (rewrite image_tail, zlen_app, zlen_sealed_body, zlen_le; done).
  rewrite run_sealed; [done|done|]. change (rm_sealed started) with (rm_sealed m). rewrite Hz. unfold zlen in *. rewrite length_take. lia.
Qed.

Lemma tail_complete : splice 4 (drop 4 (image 0)) (rm_sealed m) = slice 0 4 (rm_sealed m) ++ drop 4 (image 0).
Proof using ok.
  pose proof (ro_sealed m ok) as Hz. unfold sealed_size in Hz. unfold splice. rewrite (drop_ge (rm_sealed m)); [by rewrite app_nil_r|].
  assert (length (drop 4 (image 0)) = 56%nat) as -> by (pose proof (zlen_image 0); unfold zlen in *; rewrite length_drop; lia).
  unfold zlen in Hz. lia.
Qed.

(** Until the magic of the record is stored only the backup window can be read. *)
Lemma tail_read (x : list Z) m' : rm_sealed m' = splice 4 x (rm_sealed m) -> zlen x <= 56 -> sealed_validate_copy (rm_sealed m') = false.
Proof using ok open_.
  intros -> Hx. apply invalid_magic. pose proof (ro_sealed m ok) as Hz. unfold sealed_size in Hz.
  unfold read_u32. by rewrite slice_splice_disjoint by lia.
Qed.

(** Nor can the window be once its first byte is stored, until it is complete. *)
Lemma copy_unread m' b j : rm_backup m = Some b -> sealed_size <= zlen b -> (0 < j <= 60)%nat ->
  sealed_validate_copy (rm_sealed m') = false -> rm_backup m' = Some (splice 0 (take j (image 0)) b) ->
  sealed_read_retained m' = None.
Proof using window.
  intros Hb Hz Hj Hs Hb'. unfold sealed_read_retained. cbv zeta. rewrite Hs, Hb'. cbn [default]. unfold sealed_size in *.
  assert (zlen (take j (image 0)) <= 60) as Zj by (unfold zlen; rewrite length_take; lia).
  destruct (backup_usable m'); [|done].
  set (c := slice 0 60 (splice 0 (take j (image 0)) b)).
  assert (zlen (splice 0 (take j (image 0)) b) = zlen b) as Zs by (apply zlen_splice; lia).
  assert (bytes_ok c) as Hc.
  { apply bytes_ok_slice, bytes_ok_splice; [|by apply window]. apply Forall_take. unfold sealed_image.
    rewrite !bytes_ok_app. split_and!; [apply bytes_ok_le|apply bytes_ok_words|apply bytes_ok_le]. }
  assert (zlen c = 60) as Zc by (unfold c; rewrite zlen_slice; lia).
  assert (read_u32 c 0 mod 256 = 0) as H0.
  { rewrite <- magic_of by (done || lia). destruct j as [|j]; [lia|]. unfold c, splice. reflexivity. }
  assert (read_u32 c 0 <> LS_POWERFAIL_MAGIC) by (intros E; by rewrite E in H0).
  assert (read_u32 c 0 <> LS_POWERFAIL_BACKUP_MAGIC) by (intros E; by rewrite E in H0).
  by rewrite (proj2 (Z.eqb_neq _ _)), (proj2 (Z.eqb_neq _ _)).
Qed.

Lemma record_read m' : rm_sealed m' = image LS_POWERFAIL_MAGIC -> sealed_read_retained m' = Some (image LS_POWERFAIL_MAGIC).
Proof using ok cause volts boots. intros H. unfold sealed_read_retained. cbv zeta. rewrite H. by rewrite image_valid. Qed.

(** The window alone gives the record. *)
Lemma copy_read m' b : sealed_validate_copy (rm_sealed m') = false -> sealed_size <= zlen b ->
  rm_backup m' = Some (splice 0 (image LS_POWERFAIL_MAGIC) b) -> sealed_read_retained m' = Some (image LS_POWERFAIL_MAGIC).
Proof using ok cause volts boots.
  intros Hs Hz Hb. unfold sealed_size in Hz. pose proof (zlen_image LS_POWERFAIL_MAGIC) as Zi.
  unfold sealed_read_retained, backup_usable. cbv zeta. rewrite Hs, Hb.
  change (default [] (Some (splice 0 (image LS_POWERFAIL_MAGIC) b))) with (splice 0 (image LS_POWERFAIL_MAGIC) b).
  rewrite zlen_splice by lia. rewrite (proj2 (Z.leb_le sealed_size (zlen b))) by done.
  assert (slice 0 sealed_size (splice 0 (image LS_POWERFAIL_MAGIC) b) = image LS_POWERFAIL_MAGIC) as E.
  { unfold sealed_size. rewrite <- Zi. apply slice_splice_same; lia. }
  rewrite E. assert (read_u32 (image LS_POWERFAIL_MAGIC) 0 = LS_POWERFAIL_MAGIC) as -> by reflexivity.
  rewrite (Z.eqb_refl LS_POWERFAIL_MAGIC). cbn [orb]. rewrite with_magic_image, image_valid. reflexivity.
Qed.

Local Abbreviation tail_program := (in_order (fun off b => to_sealed off [b]) 1 4 (drop 4 (image 0))).
Local Abbreviation copy_program l := (if backup_usable m then in_order (fun off b => to_backup off [b]) 1 0 l else []).

Lemma seal_program : ls_powerfail_seal reason vcap boot m =
  (fun m0 => set_statics (rm_build_hash m0) (rm_riscv64_sequence m0) (next_seal_sequence m) m0) ::
  tail_program ++ copy_program (image 0) ++ [to_sealed 0 (le 4 LS_POWERFAIL_MAGIC)] ++ copy_program (le 4 LS_POWERFAIL_MAGIC).
Proof using cause open_.
  unfold ls_powerfail_seal. rewrite (proj2 (Z.eqb_neq reason LS_POWERFAIL_NONE)) by lia.
  rewrite (proj2 (Z.eqb_neq (read_u32 (rm_sealed m) 0) LS_POWERFAIL_MAGIC)) by done.
  cbv zeta. unfold seal_stores. by rewrite seal_snapshot_image.
Qed.

Lemma length_tail : length tail_program = 56%nat.
Proof using Type. rewrite length_in_order. pose proof (zlen_image 0). unfold zlen in *. rewrite length_drop. lia. Qed.

Lemma usable_window : backup_usable m = true -> exists b, rm_backup m = Some b /\ sealed_size <= zlen b.
Proof using Type. clear window. unfold backup_usable. destruct (rm_backup m) as [b|]; [|done]. intros H. exists b. split; [done|blia]. Qed.

(** The copy in the window, of which [j] bytes are stored. *)
Lemma copy_stored j m' : rm_backup m' = rm_backup m -> forall b, rm_backup m = Some b -> sealed_size <= zlen b ->
  run (take j (in_order (fun off b => to_backup off [b]) 1 0 (image 0))) m' = set_backup (Some (splice 0 (take j (image 0)) b)) m'.
Proof using Type.
  intros Hm b Hb Hz. rewrite take_in_order. pose proof (zlen_image 0) as Zi. unfold sealed_size, zlen in *.
  apply run_backup; [by rewrite Hm|done|]. unfold zlen. rewrite length_take. lia.
Qed.

(** After the tail and the copy the last stores commit the record. *)
Lemma commit_programmed l m' : rm_sealed m' = slice 0 4 (rm_sealed m) ++ drop 4 (image 0) ->
  rm_sealed (run (to_sealed 0 (le 4 LS_POWERFAIL_MAGIC) :: in_order (fun off b => to_backup off [b]) 1 0 l) m') = image LS_POWERFAIL_MAGIC.
Proof using ok.
  intros Hm. pose proof (ro_sealed m ok) as Hz. unfold sealed_size in Hz.
  assert (rm_sealed (to_sealed 0 (le 4 LS_POWERFAIL_MAGIC) m') = image LS_POWERFAIL_MAGIC) as <-.
  { cbn [to_sealed set_sealed rm_sealed]. rewrite Hm. apply (splice_replace [] (slice 0 4 (rm_sealed m))); [done|].
    by rewrite zlen_slice by lia. }
  match goal with |- context [run (?f :: ?l) m'] => change (run (f :: l) m') with (run l (f m')) end.
  generalize (to_sealed 0 (le 4 LS_POWERFAIL_MAGIC) m'). generalize 0 at 1. intros off m0. revert off m0. induction l as [|w l IH]; intros off m0; [done|].
  change (rm_sealed (run (in_order (fun off b => to_backup off [b]) 1 (off + 1) l) (to_backup off [w] m0)) = rm_sealed m0).
  by rewrite IH.
Qed.

(** Stores of the seal up to and with the one that commits it. *)
Definition seal_commit : nat := if backup_usable m then 118 else 58.

Lemma seal_committed k : (seal_commit <= k)%nat ->
  rm_sealed (run (take k (ls_powerfail_seal reason vcap boot m)) m) = image LS_POWERFAIL_MAGIC.
Proof using ok cause open_.
  intros Hk. rewrite seal_program. unfold seal_commit in Hk. destruct k as [|k]; [case_match; lia|]. cbn [take].
  match goal with |- context [run (?f :: ?l) m] => change (run (f :: l) m) with (run l started) end.
  rewrite take_app_ge by (rewrite length_tail; case_match; lia). rewrite length_tail, run_app.
  pose proof (tail_stored 56) as Ht. rewrite !take_ge in Ht by (rewrite ?length_tail; pose proof (zlen_image 0); unfold zlen in *; rewrite ?length_drop; lia).
  rewrite Ht, tail_complete. destruct (backup_usable m) eqn:Eu.
  - destruct (usable_window Eu) as (b & Hb & Hz).
    rewrite take_app_ge by (rewrite length_in_order; pose proof (zlen_image 0); unfold zlen in *; lia).
    rewrite run_app, length_in_order. pose proof (copy_stored 60) as Hc.
    rewrite (take_ge (in_order _ _ _ _)) in Hc by (rewrite length_in_order; pose proof (zlen_image 0); unfold zlen in *; lia).
    rewrite (Hc (set_sealed (slice 0 4 (rm_sealed m) ++ drop 4 (image 0)) started) eq_refl b Hb Hz).
    assert (k - 56 - length (image 0) = S (k - 117))%nat as -> by (pose proof (zlen_image 0); unfold zlen in *; lia).
    cbn [app]. rewrite firstn_cons, take_in_order. by apply commit_programmed.
  - cbn [app]. destruct (k - 56)%nat as [|j] eqn:Ej; [lia|]. rewrite firstn_cons, take_nil.
    by apply (commit_programmed []).
Qed.

Lemma seal_unfinished k : (k < seal_commit)%nat ->
  let m' := run (take k (ls_powerfail_seal reason vcap boot m)) m in
  sealed_read_retained m' = sealed_read_retained m \/ sealed_read_retained m' = None.
Proof using ok cause open_ window.
  intros Hk. rewrite seal_program. unfold seal_commit in Hk. destruct k as [|k]; [by left|]. cbn [take].
  match goal with |- context [run (?f :: ?l) m] => change (run (f :: l) m) with (run l started) end. cbv zeta.
  destruct (decide (k <= 56)%nat) as [Hs|Hs].
  - left. rewrite take_app_le by (by rewrite length_tail). rewrite tail_stored.
    assert (sealed_validate_copy (splice 4 (take k (drop 4 (image 0))) (rm_sealed m)) = false) as E.
    { apply (tail_read (take k (drop 4 (image 0))) (set_sealed (splice 4 (take k (drop 4 (image 0))) (rm_sealed m)) m)); [done|].
      pose proof (zlen_image 0). unfold zlen in *. rewrite length_take, length_drop. lia. }
    unfold sealed_read_retained. cbn [rm_sealed set_sealed]. cbv zeta. rewrite E, (invalid_magic (rm_sealed m)) by done. reflexivity.
  - right. destruct (backup_usable m) eqn:Eu; [|lia]. destruct (usable_window Eu) as (b & Hb & Hz).
    rewrite take_app_ge by (rewrite length_tail; lia). rewrite length_tail, run_app.
    pose proof (tail_stored 56) as Ht. rewrite !take_ge in Ht by (rewrite ?length_tail; pose proof (zlen_image 0); unfold zlen in *; rewrite ?length_drop; lia).
    rewrite Ht. rewrite take_app_le by (rewrite length_in_order; pose proof (zlen_image 0); unfold zlen in *; lia).
    rewrite (copy_stored (k - 56) (set_sealed (splice 4 (drop 4 (image 0)) (rm_sealed m)) started) eq_refl b Hb Hz).
    apply (copy_unread _ b (k - 56)); [done|done|lia| |done].
    eapply tail_read; [reflexivity|]. pose proof (zlen_image 0). unfold zlen in *. rewrite length_drop. lia.
Qed.

(** At the end the window holds the record with its magic. *)
Lemma seal_window b : rm_backup m = Some b -> sealed_size <= zlen b ->
  rm_backup (run (ls_powerfail_seal reason vcap boot m) m) = Some (splice 0 (image LS_POWERFAIL_MAGIC) b).
Proof using ok cause open_.
  intros Hb Hz. rewrite seal_program. assert (backup_usable m = true) as -> by (unfold backup_usable; rewrite Hb; blia).
  match goal with |- context [run (?f :: ?l) m] => change (run (f :: l) m) with (run l started) end.
  rewrite !run_app. pose proof (tail_stored 56) as Ht.
  rewrite !take_ge in Ht by (rewrite ?length_tail; pose proof (zlen_image 0); unfold zlen in *; rewrite ?length_drop; lia).
  rewrite Ht. pose proof (zlen_image 0) as Zi. unfold sealed_size in Hz.
  rewrite (run_backup (image 0) 0 (set_sealed (splice 4 (drop 4 (image 0)) (rm_sealed m)) started) b Hb) by lia.
  match goal with |- context [run (in_order _ _ _ (le 4 LS_POWERFAIL_MAGIC)) ?x] => generalize (eq_refl : rm_backup x = Some (splice 0 (image 0) b)); generalize x end.
  intros x Hx. rewrite (run_backup (le 4 LS_POWERFAIL_MAGIC) 0 x (splice 0 (image 0) b) Hx)
    by (rewrite ?(zlen_splice 0 (image 0)) by lia; rewrite ?zlen_le; lia).
  cbn [rm_backup set_backup]. reflexivity.
Qed.
End Sealed.

(** What the next boot knows of a power failure: the record without its checksum. *)
Definition seal_found (reason vcap boot : Z) (m m' : retained) : Prop :=
  exists crc, sealed_of_bytes <$> sealed_read_retained m' =
    Some (sealed_with LS_POWERFAIL_MAGIC crc (seal_record reason vcap boot (next_seal_sequence m) m)).

(** C17: the seal is all or nothing over a loss of power at any point: before the store
    that commits it the next boot finds what it would have found without the seal, or
    nothing, and from that store on it finds the reason, the voltage, the boot and the
    registers of the crash that was being reported. A second power failure changes
    nothing, and once the stores are done the backup window alone gives the record,
    whatever became of the retained word. *)
Theorem powerfail_seal_atomic (reason vcap boot : Z) (m : retained) (ok : retained_ok m)
    (cause : LS_POWERFAIL_NONE < reason <= LS_POWERFAIL_PVD) (volts : is_u16 vcap) (boots : is_u32 boot)
    (unsealed : read_u32 (rm_sealed m) 0 <> LS_POWERFAIL_MAGIC)
    (window : forall b, rm_backup m = Some b -> bytes_ok b) :
  let stores := ls_powerfail_seal reason vcap boot m in
  (forall k, (k < seal_commit m)%nat ->
     sealed_read_retained (run (take k stores) m) = sealed_read_retained m \/ sealed_read_retained (run (take k stores) m) = None) /\
  (forall k, (seal_commit m <= k)%nat ->
     seal_found reason vcap boot m (run (take k stores) m) /\
     (forall reason' vcap' boot', ls_powerfail_seal reason' vcap' boot' (run (take k stores) m) = [])) /\
  (forall lost, backup_usable m = true -> sealed_validate_copy lost = false ->
     seal_found reason vcap boot m (set_sealed lost (run stores m))).
Proof.
  cbv zeta. set (s := seal_record reason vcap boot (next_seal_sequence m) m).
  assert (sealed_of_bytes (sealed_image LS_POWERFAIL_MAGIC (seal_checksum s) s) = sealed_with LS_POWERFAIL_MAGIC (seal_checksum s) s) as Hs
    by (apply sealed_of_image; [by apply sealed_words_range|apply powerfail_magic_range|apply crc32_range]).
  split_and!.
  - intros k Hk. by apply (seal_unfinished reason vcap boot m ok cause unsealed window k Hk).
  - intros k Hk. pose proof (seal_committed reason vcap boot m ok cause unsealed k Hk) as H. fold s in H. split.
    + exists (seal_checksum s). rewrite (record_read reason vcap boot m ok cause volts boots _ H). fold s. cbn [fmap option_fmap option_map].
      by rewrite Hs.
    + intros r' v' b'. unfold ls_powerfail_seal at 1. rewrite H. by destruct (r' =? LS_POWERFAIL_NONE).
  - intros lost Hu Hl. destruct (usable_window m Hu) as (b & Hb & Hz). exists (seal_checksum s).
    rewrite (copy_read reason vcap boot m ok cause volts boots
      (set_sealed lost (run (ls_powerfail_seal reason vcap boot m) m)) b Hl Hz); [fold s; cbn [fmap option_fmap option_map]; by rewrite Hs|].
    exact (seal_window reason vcap boot m ok cause unsealed b Hb Hz).
Qed.

(** A failure in the middle of the copy, one after the commit, and one after which the
    retained memory is gone. *)
Lemma powerfail_seal_atomic_witness :
  (sealed_read_retained (run (take 70 (ls_powerfail_seal 1 2750 7 demo_retained)) demo_retained) = sealed_read_retained demo_retained \/
   sealed_read_retained (run (take 70 (ls_powerfail_seal 1 2750 7 demo_retained)) demo_retained) = None) /\
  seal_found 1 2750 7 demo_retained (run (take 118 (ls_powerfail_seal 1 2750 7 demo_retained)) demo_retained) /\
  seal_found 1 2750 7 demo_retained (set_sealed (fill 60 0) (run (ls_powerfail_seal 1 2750 7 demo_retained) demo_retained)).
Proof.
  assert (retained_ok demo_retained) as Hok.
  { split; [split; [reflexivity|by apply bytes_ok_fill]|reflexivity|split; [discriminate|reflexivity]]. }
  assert (read_u32 (rm_sealed demo_retained) 0 <> LS_POWERFAIL_MAGIC) as Hm by (vm_compute; discriminate).
  assert (forall b, rm_backup demo_retained = Some b -> bytes_ok b) as Hb by (intros b [= <-]; by apply bytes_ok_fill).
  assert (seal_commit demo_retained = 118%nat) as Hc by reflexivity.
  assert (LS_POWERFAIL_NONE < 1 <= LS_POWERFAIL_PVD) as H1 by (split; [reflexivity|discriminate]).
  assert (is_u16 2750) as H2 by (split; [discriminate|reflexivity]). assert (is_u32 7) as H3 by (split; [discriminate|reflexivity]).
  destruct (powerfail_seal_atomic 1 2750 7 demo_retained Hok H1 H2 H3 Hm Hb) as (Ha & Hd & Hw).
  rewrite Hc in Ha, Hd. split_and!; [apply Ha; lia|apply Hd; lia|apply Hw; vm_compute; reflexivity].
Defined.

(** A retained word with the magic but not the rest is neither read nor ever replaced:
    the seal of the next power failure is refused. *)
Lemma seal_refused_by_magic (reason vcap boot : Z) (m : retained) :
  read_u32 (rm_sealed m) 0 = LS_POWERFAIL_MAGIC -> ls_powerfail_seal reason vcap boot m = [].
Proof. intros H. unfold ls_powerfail_seal. rewrite H. by destruct (reason =? LS_POWERFAIL_NONE). Qed.

Lemma seal_refused_unread :
  let m := mk_retained (fill 160 0) (fill 320 0) (le 4 LS_POWERFAIL_MAGIC ++ fill 56 0) None 0 0 0 in
  sealed_read_retained m = None /\ ls_powerfail_seal 1 2750 7 m = [].
Proof. split; vm_compute; reflexivity. Qed.
