(* ===== verification/Runtime.v ===== *)
(** * Capturing events ([src/core/runtime.c], [src/capture/capture.c], and their callers)

    The runtime as a whole: an event is filtered by the policies, encoded and appended to
    the spool under one sequence number. Crashes found in retained memory after a reset
    are captured before the memory is cleared. *)

From S2P Require Import Prelude Util Envelope Security FaultInjection Storage FlashLayer Transport Spool Boot Provisioning Ota Blackbox Telemetry Services Policy Encode Payload EncodeFacts Retained.

#[local] Abbreviation st := Prelude.st.

Definition LS_EVENT_ERROR : Z := 2.
Definition LS_EVENT_RESET : Z := 5.
Definition LS_EVENT_LOG : Z := 6.
Definition LS_EVENT_PERIPHERAL : Z := 7.
Definition LS_SEVERITY_DEBUG : Z := 0.
Definition LS_SEVERITY_FATAL : Z := 4.
Definition LS_CAPTURE_METADATA : Z := 0.
Definition LS_CAPTURE_SNAPSHOT : Z := 1.
Definition LS_CAPTURE_FULL : Z := 4.
Definition LS_LOG_ARG_MAX : Z := 4.
Definition LS_SELFTEST_CAPACITY : Z := 16.
Definition LS_BUILD_ID_MAX : Z := 64.
Definition LS_ASSERT_CONTINUE : Z := 0.
Definition LS_ASSERT_RESET : Z := 1.
Definition LS_ASSERT_HALT : Z := 2.
Definition LS_ASSERT_BREAKPOINT : Z := 3.
Definition LS_ASSERT_CALLBACK : Z := 4.
Definition LS_PERIPHERAL_I2C : Z := 0.
Definition LS_PERIPHERAL_SPI : Z := 1.
Definition LS_PERIPHERAL_UART : Z := 2.
Definition LS_PERIPHERAL_CAN : Z := 3.
Definition LS_PERIPHERAL_USB : Z := 4.
Definition LS_PERIPHERAL_STORAGE : Z := 5.
Definition LS_PERIPHERAL_NETWORK : Z := 6.

(** [ls_event_fingerprint] is in [Services]; [build_id] is the string of [ls_build_id()]. *)
Definition ls_crash_fingerprint (build_id : list Z) (context : option ls_arch_context_t) : Z :=
  match context with
  | None => 0
  | Some c =>
      let value := foldl (fun v x => Z.lxor v (mix x)) (mix (ac_architecture c))
        [ac_fault c; ac_pc c; ac_lr c; u32 (ac_fault_address c); ac_cfsr c; ac_hfsr c; ac_mcause c; ac_mtval c;
         ac_exccause c; ac_excvaddr c; ls_hash_string (Some build_id)] in
      let value := mix value in
      if negb (value =? 0) then value else 1
  end.

(** [ls_build_id_validate]: 8 to 64 characters out of letters, digits and [._-:]. *)
Definition build_id_char (c : Z) : bool :=
  ((97 <=? c) && (c <=? 122)) || ((65 <=? c) && (c <=? 90)) || ((48 <=? c) && (c <=? 57)) ||
  (c =? 46) || (c =? 95) || (c =? 45) || (c =? 58).

Definition ls_build_id_validate (build_id : option (list Z)) : bool :=
  let length := ls_string_length build_id in
  if (length <? 8) || (LS_BUILD_ID_MAX <? length) then false
  else forallb build_id_char (slice 0 length (default [] build_id)).

Definition reset_reason_code (r : ls_reset_reason_t) : Z :=
  match r with
  | LS_RESET_UNKNOWN => 0 | LS_RESET_POWER_ON => 1 | LS_RESET_PIN => 2 | LS_RESET_SOFTWARE => 3 | LS_RESET_WATCHDOG => 4
  | LS_RESET_INDEPENDENT_WATCHDOG => 5 | LS_RESET_WINDOW_WATCHDOG => 6 | LS_RESET_BROWNOUT => 7
  | LS_RESET_LOW_POWER_WAKE => 8 | LS_RESET_LOCKUP => 9 | LS_RESET_SECURITY => 10 | LS_RESET_BOOTLOADER => 11
  | LS_RESET_FIRMWARE_UPDATE => 12 | LS_RESET_CLOCK_FAILURE => 13
  end.

(** [ls_config_t], with callbacks over the state [W] of the integrator. *)
Record ls_config_t (W : Type) : Type := {
  cf_identity : ls_identity_t;
  cf_architecture : Z;
  cf_rtos : option (list Z);
  cf_region : option (list Z);
  cf_device_group : option (list Z);
  cf_timestamp_ms : option (st W Z);
  cf_reset : option (st W unit);
  cf_reset_info : option (st W ls_reset_info_t)
}.
Arguments cf_identity {W} _.
Arguments cf_architecture {W} _.
Arguments cf_rtos {W} _.
Arguments cf_region {W} _.
Arguments cf_device_group {W} _.
Arguments cf_timestamp_ms {W} _.
Arguments cf_reset {W} _.
Arguments cf_reset_info {W} _.

Record ls_selftest_case_t (W : Type) : Type := {
  ts_id : Z;
  ts_name : option (list Z);
  ts_run : option (st W ls_result_t);
  ts_required : bool
}.
Arguments ts_id {W} _.
Arguments ts_name {W} _.
Arguments ts_run {W} _.
Arguments ts_required {W} _.

(** The fields of [ls_runtime] that are not in [boot_runtime], and the memory that
    survives a reset. [co_callback] is the assertion callback. *)
Record core (W X : Type) : Type := mk_core {
  co_initialized : bool;
  co_capturing : bool;
  co_policies : policy_runtime;
  co_services : services;
  co_security : security_runtime X;
  co_last_seal : ls_powerfail_seal_info_t;       (* powerfail_last *)
  co_assert_policy : Z;
  co_callback : option (option (list Z) -> option (list Z) -> Z -> st W unit);
  co_log_stream : option (list Z -> st W unit);
  co_log_min_level : Z;
  co_selftests : list (ls_selftest_case_t W);
  co_retained : retained
}.
Arguments mk_core {W X} _ _ _ _ _ _ _ _ _ _ _ _.
Arguments co_initialized {W X} _.
Arguments co_capturing {W X} _.
Arguments co_policies {W X} _.
Arguments co_services {W X} _.
Arguments co_security {W X} _.
Arguments co_last_seal {W X} _.
Arguments co_assert_policy {W X} _.
Arguments co_callback {W X} _.
Arguments co_log_stream {W X} _.
Arguments co_log_min_level {W X} _.
Arguments co_selftests {W X} _.
Arguments co_retained {W X} _.

Section Updates.
Context {W X : Type}.
Local Abbreviation rt := (core W X).

Definition with_capturing (v : bool) (c : rt) : rt :=
  mk_core (co_initialized c) v (co_policies c) (co_services c) (co_security c) (co_last_seal c) (co_assert_policy c)
    (co_callback c) (co_log_stream c) (co_log_min_level c) (co_selftests c) (co_retained c).
Definition with_policy_tables (v : policy_runtime) (c : rt) : rt :=
  mk_core (co_initialized c) (co_capturing c) v (co_services c) (co_security c) (co_last_seal c) (co_assert_policy c)
    (co_callback c) (co_log_stream c) (co_log_min_level c) (co_selftests c) (co_retained c).
Definition with_services (v : services) (c : rt) : rt :=
  mk_core (co_initialized c) (co_capturing c) (co_policies c) v (co_security c) (co_last_seal c) (co_assert_policy c)
    (co_callback c) (co_log_stream c) (co_log_min_level c) (co_selftests c) (co_retained c).
Definition with_security (v : security_runtime X) (c : rt) : rt :=
  mk_core (co_initialized c) (co_capturing c) (co_policies c) (co_services c) v (co_last_seal c) (co_assert_policy c)
    (co_callback c) (co_log_stream c) (co_log_min_level c) (co_selftests c) (co_retained c).
Definition with_last_seal (v : ls_powerfail_seal_info_t) (c : rt) : rt :=
  mk_core (co_initialized c) (co_capturing c) (co_policies c) (co_services c) (co_security c) v (co_assert_policy c)
    (co_callback c) (co_log_stream c) (co_log_min_level c) (co_selftests c) (co_retained c).
Definition with_assert (policy : Z) (callback : option (option (list Z) -> option (list Z) -> Z -> st W unit)) (c : rt) : rt :=
  mk_core (co_initialized c) (co_capturing c) (co_policies c) (co_services c) (co_security c) (co_last_seal c) policy
    callback (co_log_stream c) (co_log_min_level c) (co_selftests c) (co_retained c).
Definition with_log (stream : option (list Z -> st W unit)) (level : Z) (c : rt) : rt :=
  mk_core (co_initialized c) (co_capturing c) (co_policies c) (co_services c) (co_security c) (co_last_seal c)
    (co_assert_policy c) (co_callback c) stream level (co_selftests c) (co_retained c).
Definition with_selftests (v : list (ls_selftest_case_t W)) (c : rt) : rt :=
  mk_core (co_initialized c) (co_capturing c) (co_policies c) (co_services c) (co_security c) (co_last_seal c)
    (co_assert_policy c) (co_callback c) (co_log_stream c) (co_log_min_level c) v (co_retained c).
Definition with_retained (v : retained) (c : rt) : rt :=
  mk_core (co_initialized c) (co_capturing c) (co_policies c) (co_services c) (co_security c) (co_last_seal c)
    (co_assert_policy c) (co_callback c) (co_log_stream c) (co_log_min_level c) (co_selftests c) v.
End Updates.

(** *** The state [ls_init] leaves *)

Definition zero_telemetry (b : ls_blackbox_retained_t) : telemetry :=
  mk_telemetry true (mk_ring (replicate 32 zero_breadcrumb) 0 0) LS_SEVERITY_DEBUG LS_BREADCRUMB_DROP_OLDEST []
    (mk_ring (replicate 16 zero_sample) 0 0) [] [] 0 0 [] [] None
    {| hs_free_bytes := 0; hs_minimum_free_bytes := 0; hs_largest_block := 0; hs_allocation_failures := 0;
       hs_pool_exhaustions := 0 |} b [].

Definition zero_services (b : ls_blackbox_retained_t) : services :=
  mk_services (zero_telemetry b) empty_mission (mk_time 0 0 0 0 0 false)
    {| ev_last := {| es_timestamp_ms := 0; es_pressure_pa := 0; es_depth_cm := 0; es_internal_temperature_c := 0;
         es_humidity_permyriad := 0; es_vibration_mg_rms := 0; es_flags := 0 |};
       ev_sample_count := 0; ev_maximum_pressure_pa := 0; ev_maximum_depth_cm := 0; ev_maximum_temperature_c := 0;
       ev_maximum_humidity_permyriad := 0; ev_maximum_vibration_mg_rms := 0; ev_leak_events := 0 |}
    {| sc_watchdog_max_stale_ms := 0; sc_minimum_vdd_mv := 0; sc_minimum_battery_mv := 0; sc_maximum_temperature_c := 0;
       sc_minimum_heap_free_bytes := 0; sc_maximum_spool_percent := 0; sc_maximum_vibration_mg_rms := 0;
       sc_anomaly_hold_ms := 0 |}
    {| ss_active_alarms := 0; ss_previous_alarms := 0; ss_transitions := 0; ss_last_change_ms := 0; ss_configured := false |}
    [].

Definition zero_security {X} (x : X) : security_runtime X :=
  mk_security (fill 32 0) 0
    {| sp_algorithm := LS_SECURITY_XCHACHA20_POLY1305; sp_key_id := 1; sp_reject_plaintext := true; sp_allow_legacy_hmac := false |}
    None None (fill 24 0) false 0 0 x.

Definition no_seal : ls_powerfail_seal_info_t :=
  {| pi_reason := 0; pi_tier := 0; pi_vcap_mv := 0; pi_boot_id := 0; pi_fault := 0; pi_sealed_ok := false |}.

(** [build] is the build identifier in use; the black box and the retained records are
    outside [ls_runtime]. *)
Definition fresh_core {W X} (build : list Z) (identity : ls_identity_t) (c : core W X) : core W X :=
  mk_core true false
    {| policies := []; dedup := []; dedup_next := 0;
       random_state := Z.lxor (Z.lxor (ls_hash_string (Some build)) (ls_hash_string (id_device_id identity))) 0x9e3779b9 |}
    (zero_services (ls_blackbox_init (t_blackbox (sv_telemetry (co_services c)))))
    (zero_security (s_world (co_security c))) no_seal LS_ASSERT_CONTINUE None None LS_SEVERITY_DEBUG [] (co_retained c).

Definition fresh_boot {E W} (m : boot_runtime E W) : boot_runtime E W :=
  {| persistent := zero_persistent;
     spool_rt := {| rt_sequence := 0; spool_high_watermark := 0; spool_dropped_records := 0; spool_corrupt_records := 0;
                    spool_transport_failures := 0; spool_retry_saturated := 0;
                    network := {| busy_transports := busy_transports (network (spool_rt m)); transports := [];
                                  ext := ext (network (spool_rt m)) |} |};
     boot_started_ms := 0; b_boot_count := 0;
     reset_info := {| reason := LS_RESET_UNKNOWN; raw_reason := 0; ri_boot_count := 0; ri_previous_uptime_ms := 0;
                      ri_expected := false; ri_crash_pending := false; ri_boot_loop := false |};
     previous_crashed := false; boot_loop := false; safe_mode := false; powerfail_last_valid := false; world := world m |}.

Section Runtime.
Context {E W D X : Type}.
Local Abbreviation rt := (boot_runtime E W).

Definition state : Type := platform ((rt * core W X) * D).

(** The build identifier, the configuration given to [ls_init], [ls_runtime.storage], the
    device's memory, [LS_ENABLE_WIDE_CONTEXT], and what the buffer of [ls_capture_event]
    holds before the event with a sequence number is encoded. *)
Context (build_id : list Z) (config : ls_config_t W) (storage : option (ls_storage_backend_t (platform D)))
  (memory : Z -> Z -> list Z) (wide : bool) (stack : Z -> list Z).

Definition boot_of_state (p : state) : rt := fst (ram p).
Definition core_of (p : state) : core W X := snd (ram p).
(** [ls_init]; [config_given] tells whether there is a configuration with an identity. *)
Definition ls_init (config_given : bool) : st state ls_result_t := fun p =>
  if negb config_given then (LS_EINVAL, p)
  else
    let build := default build_id (id_firmware_build_id (cf_identity config)) in
    if negb (ls_build_id_validate (Some build)) then (LS_EINVAL, p)
    else (LS_OK, {| faults := no_faults;
                    dev := ((fresh_boot (boot_of_state p), fresh_core build (cf_identity config) (core_of p)), snd (dev p)) |}).

Definition set_core (f : core W X -> core W X) (p : state) : state :=
  {| faults := faults p; dev := ((boot_of_state p, f (core_of p)), snd (dev p)) |}.
Definition set_boot (f : rt -> rt) (p : state) : state :=
  {| faults := faults p; dev := ((f (boot_of_state p), core_of p), snd (dev p)) |}.

(** [ls_uptime_ms()]. *)
Definition uptime : st state Z := on_boot (ls_uptime_ms (cf_timestamp_ms config)).

(** A callback of the integrator. *)
Definition on_world {A} (f : st W A) : st state A := fun p =>
  let '(a, w) := f (world (boot_of_state p)) in (a, set_boot (with_world w) p).

Definition freeze (c : core W X) : core W X := with_services (on_blackbox ls_blackbox_freeze (co_services c)) c.

Definition set_sequence (v : Z) : state -> state := set_boot (fun m => with_spool (with_sequence v (spool_rt m)) m).

Definition with_base (b : ls_event_t) (e : lep_event) : lep_event :=
  {| le_base := b; le_type := le_type e; le_severity := le_severity e; le_cpu := le_cpu e; le_riscv64 := le_riscv64 e;
     le_assertion := le_assertion e; le_peripheral := le_peripheral e; le_log := le_log e;
     le_capture_level := le_capture_level e |}.

(** What the encoder reads of the runtime; [now] is the clock. *)
Definition env_of (now : Z) (p : state) : encode_env :=
  let m := boot_of_state p in
  let c := core_of p in
  let v := pb_provision (persistent m) in
  {| env_identity := cf_identity config; env_config_rtos := cf_rtos config; env_config_region := cf_region config;
     env_config_device_group := cf_device_group config; env_config_architecture := cf_architecture config;
     env_build_id := build_id; env_reset_reason := reset_reason_code (reason (reset_info m));
     env_raw_reason := raw_reason (reset_info m); env_boot_count := b_boot_count m;
     env_previous_uptime_ms := ri_previous_uptime_ms (reset_info m); env_reset_expected := ri_expected (reset_info m);
     env_previous_crashed := previous_crashed m; env_boot_loop := boot_loop m; env_services := co_services c;
     env_provisioning := {| ps_state := provision_state v; ps_key_id := provision_key_id v;
       ps_pending_key_id := provision_pending_key_id v; ps_generation := provision_generation v;
       ps_monotonic_counter := provision_monotonic_counter v |};
     env_powerfail := if powerfail_last_valid m then Some (co_last_seal c) else None;
     env_now := now; env_read := memory |}.

(** The clock the encoder reads, in a mission only. *)
Definition mission_now : st state Z := fun p =>
  match mi_mission_id (sv_mission (co_services (core_of p))) with
  | [] => (0, p)
  | _ => uptime p
  end.

(** [ls_envelope_encode] into the buffer of [ls_capture_event]. *)
Definition encode_event (event : lep_event) (sequence : Z) : st state (res (list Z)) := fun p =>
  let '(now, p) := mission_now p in
  let '((r, out), (s, last)) :=
    ls_envelope_encode (env_of now p) (Some event) (Some (stack sequence)) LS_MAX_EVENT_SIZE sequence SET
      (co_security (core_of p), last_sequence (pb_boot (persistent (boot_of_state p)))) in
  let p := set_core (with_security s) p in
  let p := set_boot (with_persistent (with_boot (fun b => set_saved (previous_uptime_ms b) last b))) p in
  (match r with Ok length => Ok (slice 0 length out) | Err e => Err e end, p).

Definition append (data : list Z) (priority : Z) : st state ls_result_t :=
  on_boot (on_spool (ls_spool_append storage (Some data) priority)).

(** The event once the sequence number is taken. *)
Definition capture_filtered (event : lep_event) (sequence : Z) : st state ls_result_t := fun p =>
  let '((kept, base), tables) := ls_policy_apply (le_base event) (co_policies (core_of p)) in
  let p := set_core (with_policy_tables tables) p in
  if negb kept then (LS_OK, p)
  else
    let '(r, p) := encode_event (with_base base event) sequence p in
    match r with
    | Err e => (e, p)
    | Ok data => append data (e_priority base) p
    end.

Definition ls_capture_event (event : option lep_event) : st state ls_result_t := fun p =>
  match event with
  | None => (LS_EINVAL, p)
  | Some event =>
      if co_capturing (core_of p) then (LS_EAGAIN, p)
      else
        let p := set_core (with_capturing true) p in
        let sequence := inc32 (rt_sequence (spool_rt (boot_of_state p))) in
        let p := set_sequence sequence p in
        let p := if le_type event =? LS_EVENT_CRASH then set_core freeze p else p in
        let '(result, p) := capture_filtered event sequence p in
        (result, set_core (with_capturing false) p)
  end.

(** ** Callers *)

(** [(void)ls_capture_event(&event)]. *)
Definition capture (event : lep_event) : st state unit := fun p =>
  let '(_, p) := ls_capture_event (Some event) p in (tt, p).

(** An event with the members the callers set; the others are zero. *)
Definition event_of (type prio now fingerprint : Z) (domain : option (list Z)) (code_ severity : Z)
    (message : option (list Z)) (level : Z) : lep_event :=
  {| le_base := {| e_priority := prio; e_timestamp_ms := now; e_fingerprint := fingerprint; e_domain := domain;
       e_code := code_; e_message := message; e_repeat_count := 0; e_first_seen_ms := 0; e_last_seen_ms := 0 |};
     le_type := type; le_severity := severity; le_cpu := None; le_riscv64 := None; le_assertion := None;
     le_peripheral := None; le_log := None; le_capture_level := level |}.

Definition ls_capture_error (error : option ls_error_t) : st state unit := fun p =>
  match error with
  | None => (tt, p)
  | Some e =>
      let '(now, p) := uptime p in
      capture (event_of LS_EVENT_ERROR
        (if LS_SEVERITY_ERROR <=? er_severity e then LS_PRIORITY_ERROR else LS_PRIORITY_WARNING) now 0 (Some (er_domain e))
        (er_code e) (er_severity e) (er_message e) LS_CAPTURE_SNAPSHOT) p
  end.

Definition ls_capture_message (message : option (list Z)) (severity : Z) : st state unit :=
  ls_capture_error (Some {| er_domain := str "message"; er_code := 0; er_severity := severity; er_message := message |}).

Definition ls_capture_coredump (level : Z) : st state ls_result_t := fun p =>
  if (level <? LS_CAPTURE_METADATA) || (LS_CAPTURE_FULL <? level) then (LS_EINVAL, p)
  else
    let '(now, p) := uptime p in
    ls_capture_event (Some (event_of LS_EVENT_COREDUMP
      (if level =? LS_CAPTURE_FULL then LS_PRIORITY_ERROR else LS_PRIORITY_DIAGNOSTIC) now 0 (Some (str "coredump")) level
      LS_SEVERITY_INFO (Some (str "manual_coredump")) level)) p.

(** *** Logs ([src/core/log.c]) *)

Definition ls_log_set_stream (callback : option (list Z -> st W unit)) (p : state) : state :=
  set_core (fun c => with_log callback (co_log_min_level c) c) p.
Definition ls_log_set_min_level (level : Z) (p : state) : state := set_core (fun c => with_log (co_log_stream c) level c) p.

Definition log_info (message_id format_id : Z) (arguments : option (list Z)) (argument_count : Z) : ls_log_info_t :=
  let count := if argument_count >? LS_LOG_ARG_MAX then LS_LOG_ARG_MAX else argument_count in
  {| lg_message_id := message_id; lg_format_id := format_id; lg_argument_count := count;
     lg_arguments := match arguments with
                     | Some a => take (Z.to_nat count) a ++ replicate (4 - Z.to_nat count) 0
                     | None => replicate 4 0
                     end |}.

(** The compact record of the stream; it always fits its buffer. *)
Definition log_compact (level : Z) (log : ls_log_info_t) : list Z :=
  le 1 level ++ le 2 (lg_message_id log) ++ le 1 (lg_argument_count log) ++
  mjoin (map (le 4) (take (Z.to_nat (lg_argument_count log)) (lg_arguments log))).

Definition with_log_info (log : ls_log_info_t) (e : lep_event) : lep_event :=
  {| le_base := le_base e; le_type := le_type e; le_severity := le_severity e; le_cpu := le_cpu e; le_riscv64 := le_riscv64 e;
     le_assertion := le_assertion e; le_peripheral := le_peripheral e; le_log := Some log;
     le_capture_level := le_capture_level e |}.

Definition ls_log_binary (level message_id format_id : Z) (arguments : option (list Z)) (argument_count : Z) : st state unit := fun p =>
  if (level <? LS_COMPILED_MIN_LEVEL) || (level <? co_log_min_level (core_of p)) then (tt, p)
  else
    let log := log_info message_id format_id arguments argument_count in
    let '(_, p) :=
      match co_log_stream (core_of p) with
      | Some stream => on_world (stream (log_compact level log)) p
      | None => (tt, p)
      end in
    let '(now, p) := uptime p in
    capture (with_log_info log (event_of LS_EVENT_LOG
      (if LS_SEVERITY_ERROR <=? level then LS_PRIORITY_ERROR else LS_PRIORITY_DIAGNOSTIC) now 0 (Some (str "log")) message_id
      level None LS_CAPTURE_METADATA)) p.

(** *** Peripherals ([src/core/peripheral.c]) *)

Definition peripheral_domains : list (list Z) :=
  [str "i2c"; str "spi"; str "uart"; str "can"; str "usb"; str "storage"; str "network"].

Definition with_peripheral (f : ls_peripheral_fault_t) (e : lep_event) : lep_event :=
  {| le_base := le_base e; le_type := le_type e; le_severity := le_severity e; le_cpu := le_cpu e; le_riscv64 := le_riscv64 e;
     le_assertion := le_assertion e; le_peripheral := Some f; le_log := le_log e; le_capture_level := le_capture_level e |}.

Definition ls_peripheral_fault (fault : option ls_peripheral_fault_t) : st state unit := fun p =>
  match fault with
  | None => (tt, p)
  | Some f =>
      let domain := if pf_domain f <=? LS_PERIPHERAL_NETWORK then nth (Z.to_nat (pf_domain f)) peripheral_domains []
                    else str "peripheral" in
      let '(now, p) := uptime p in
      let p := set_core (fun c => with_services (note now LS_BLACKBOX_BUS (u16 (pf_domain f)) LS_BLACKBOX_IMPORTANT_OR_ERROR
                 (s32 (pf_fault f)) (s32 (pf_status f)) (s32 (pf_address f)) (s32 (nth 0 (pf_auxiliary f) 0)) (co_services c)) c) p in
      let '(now, p) := uptime p in
      let p := set_core (fun c => with_services (on_blackbox (ls_blackbox_anomaly_begin now 30000) (co_services c)) c) p in
      let '(now, p) := uptime p in
      capture (with_peripheral f (event_of LS_EVENT_PERIPHERAL LS_PRIORITY_ERROR now 0 (Some domain) (pf_fault f)
        LS_SEVERITY_ERROR (Some (str "peripheral_fault")) LS_CAPTURE_SNAPSHOT)) p
  end.

Definition peripheral_detail (domain fault instance status address reg : Z) (auxiliary : list Z) : ls_peripheral_fault_t :=
  {| pf_domain := domain; pf_fault := u16 fault; pf_instance := instance; pf_status := status; pf_address := address;
     pf_reg := reg; pf_timeout_ms := 0; pf_auxiliary := auxiliary |}.

Definition ls_i2c_fault (fault address reg : Z) : st state unit :=
  ls_peripheral_fault (Some (peripheral_detail LS_PERIPHERAL_I2C fault 0 0 address reg [0; 0; 0; 0])).
Definition ls_spi_fault (fault : Z) : st state unit :=
  ls_peripheral_fault (Some (peripheral_detail LS_PERIPHERAL_SPI fault 0 0 0 0 [0; 0; 0; 0])).
Definition ls_uart_fault (fault : Z) : st state unit :=
  ls_peripheral_fault (Some (peripheral_detail LS_PERIPHERAL_UART fault 0 0 0 0 [0; 0; 0; 0])).
Definition ls_can_fault (fault tec rec status : Z) : st state unit :=
  ls_peripheral_fault (Some (peripheral_detail LS_PERIPHERAL_CAN fault 0 status 0 0 [tec; rec; 0; 0])).
Definition ls_usb_fault (fault endpoint status : Z) : st state unit :=
  ls_peripheral_fault (Some (peripheral_detail LS_PERIPHERAL_USB fault endpoint status 0 0 [0; 0; 0; 0])).
Definition ls_storage_fault (fault address status : Z) : st state unit :=
  ls_peripheral_fault (Some (peripheral_detail LS_PERIPHERAL_STORAGE fault 0 status address 0 [0; 0; 0; 0])).
Definition ls_network_fault (fault status : Z) : st state unit :=
  ls_peripheral_fault (Some (peripheral_detail LS_PERIPHERAL_NETWORK fault 0 status 0 0 [0; 0; 0; 0])).

(** *** Assertions ([src/core/assert.c]) *)

(** How [ls_assert_failed] ends: it returns, it never does, or it traps. *)
Inductive assert_outcome : Type := Returned | Halted | Trapped.

Definition ls_assert_set_policy (policy : Z) (callback : option (option (list Z) -> option (list Z) -> Z -> st W unit))
  (p : state) : state := set_core (with_assert policy callback) p.

Definition with_assertion (a : ls_assert_info_t) (e : lep_event) : lep_event :=
  {| le_base := le_base e; le_type := le_type e; le_severity := le_severity e; le_cpu := le_cpu e; le_riscv64 := le_riscv64 e;
     le_assertion := Some a; le_peripheral := le_peripheral e; le_log := le_log e; le_capture_level := le_capture_level e |}.

Definition reset_device : st state unit := fun p =>
  match cf_reset config with Some reset => on_world reset p | None => (tt, p) end.

Definition ls_assert_failed (expression file : option (list Z)) (line : Z) (message : option (list Z)) : st state assert_outcome :=
  fun p =>
  let '(now, p) := uptime p in
  let assertion := {| as_expression := expression; as_file := file; as_message := message; as_line := line |} in
  let '(_, p) := capture (with_assertion assertion (event_of LS_EVENT_ERROR LS_PRIORITY_CRITICAL now 0 (Some (str "assert"))
    line LS_SEVERITY_FATAL (or_else message expression) LS_CAPTURE_SNAPSHOT)) p in
  let policy := co_assert_policy (core_of p) in
  if policy =? LS_ASSERT_RESET then
    let '(_, p) := on_boot (ls_reset_mark_expected (cf_timestamp_ms config) storage false) p in
    let '(_, p) := reset_device p in (Returned, p)
  else if policy =? LS_ASSERT_HALT then (Halted, p)
  else if policy =? LS_ASSERT_BREAKPOINT then (Trapped, p)
  else if policy =? LS_ASSERT_CALLBACK then
    match co_callback (core_of p) with
    | Some callback => let '(_, p) := on_world (callback expression file line) p in (Returned, p)
    | None => (Returned, p)
    end
  else (Returned, p).

(** *** Self-tests ([src/core/selftest.c]) *)

Record ls_selftest_report_t : Type := { rp_registered : Z; rp_passed : Z; rp_failed : Z; rp_failed_required_mask : Z }.

Fixpoint replace_test (t : ls_selftest_case_t W) (l : list (ls_selftest_case_t W)) : option (list (ls_selftest_case_t W)) :=
  match l with
  | [] => None
  | u :: l => if ts_id u =? ts_id t then Some (t :: l) else (cons u) <$> replace_test t l
  end.

Definition ls_selftest_register (test : option (ls_selftest_case_t W)) : st state ls_result_t := fun p =>
  match test with
  | None => (LS_EINVAL, p)
  | Some t =>
      match ts_run t, ts_name t with
      | Some _, Some _ =>
          if ts_id t =? 0 then (LS_EINVAL, p)
          else
            let tests := co_selftests (core_of p) in
            match replace_test t tests with
            | Some tests => (LS_OK, set_core (with_selftests tests) p)
            | None =>
                if LS_SELFTEST_CAPACITY <=? zlen tests then (LS_ENOSPACE, p)
                else (LS_OK, set_core (with_selftests (tests ++ [t])) p)
            end
      | _, _ => (LS_EINVAL, p)
      end
  end.

Definition state_note (source flags v0 v1 : Z) : st state unit := fun p =>
  let '(now, p) := uptime p in
  (tt, set_core (fun c => with_services (note now LS_BLACKBOX_STATE source flags v0 v1 0 0 (co_services c)) c) p).

(** The loop from [index] on. *)
Fixpoint selftest_loop (tests : list (ls_selftest_case_t W)) (index : Z) (report : ls_selftest_report_t) (overall : ls_result_t)
  : st state (ls_result_t * ls_selftest_report_t) := fun p =>
  match tests with
  | [] => ((overall, report), p)
  | t :: tests =>
      let '(result, p) := match ts_run t with Some run => on_world run p | None => (LS_OK, p) end in
      if is_ok result then
        let '(_, p) := state_note (ts_id t) 0 1 0 p in
        selftest_loop tests (index + 1)
          {| rp_registered := rp_registered report; rp_passed := rp_passed report + 1; rp_failed := rp_failed report;
             rp_failed_required_mask := rp_failed_required_mask report |} overall p
      else
        let mask := if ts_required t && (index <? 32) then Z.lor (rp_failed_required_mask report) (Z.shiftl 1 index)
                    else rp_failed_required_mask report in
        let '(_, p) := state_note (ts_id t) BLACKBOX_ERROR_FLAG (Ota.result_code result) (if ts_required t then 1 else 0) p in
        let '(_, p) := ls_capture_error (Some {| er_domain := str "selftest"; er_code := s32 (ts_id t);
          er_severity := if ts_required t then LS_SEVERITY_ERROR else LS_SEVERITY_WARNING; er_message := ts_name t |}) p in
        selftest_loop tests (index + 1)
          {| rp_registered := rp_registered report; rp_passed := rp_passed report; rp_failed := rp_failed report + 1;
             rp_failed_required_mask := mask |} LS_EIO p
  end.

(** The tests are not changed while they run. *)
Definition ls_selftest_run (report : ptr) : st state (ls_result_t * option ls_selftest_report_t) := fun p =>
  if negb report then ((LS_EINVAL, None), p)
  else
    let tests := co_selftests (core_of p) in
    let '((overall, report), p) := selftest_loop tests 0
      {| rp_registered := zlen tests; rp_passed := 0; rp_failed := 0; rp_failed_required_mask := 0 |} LS_OK p in
    ((overall, Some report), p).

Definition ls_selftest_clear (p : state) : state := set_core (with_selftests []) p.

(** ** Faults ([src/capture/capture.c], [src/core/powerfail.c]) *)

(** The stores of a fault handler, without a reset on the way. *)
Definition run_stores (l : retained -> list store) (p : state) : state :=
  set_core (fun c => with_retained (run (l (co_retained c)) (co_retained c)) c) p.

(** [minimal_snapshot_store] freezes the black box first. *)
Definition capture_minimal (context : option ls_arch_context_t) : st state ls_result_t := fun p =>
  match context with
  | None => (LS_EINVAL, p)
  | Some _ => (LS_OK, run_stores (ls_capture_minimal_context_fault wide context) (set_core freeze p))
  end.

Definition zero_context : ls_arch_context_t :=
  {| ac_architecture := 0; ac_fault := 0; ac_registers := replicate 32 0; ac_lr := 0; ac_pc := 0; ac_xpsr := 0; ac_msp := 0;
     ac_psp := 0; ac_control := 0; ac_primask := 0; ac_basepri := 0; ac_faultmask := 0; ac_exc_return := 0; ac_cfsr := 0;
     ac_hfsr := 0; ac_dfsr := 0; ac_afsr := 0; ac_mmfar := 0; ac_bfar := 0; ac_shcsr := 0; ac_icsr := 0; ac_vtor := 0;
     ac_sfsr := 0; ac_sfar := 0; ac_s := replicate 16 0; ac_fpscr := 0; ac_mcause := 0; ac_mtval := 0; ac_mstatus := 0;
     ac_mepc := 0; ac_exccause := 0; ac_excvaddr := 0; ac_ps := 0; ac_sar := 0; ac_fault_address := 0;
     ac_signal_number := 0; ac_has_fpu := false; ac_fpu_lazy := false |}.

(** [uintptr_t] has 32 bits. *)
Definition riscv64_context_to_arch (source : ls_riscv64_context_t) (fault : Z) : ls_arch_context_t :=
  {| ac_architecture := LS_ARCH_RISCV64; ac_fault := fault; ac_registers := map u32 (rv_x source);
     ac_lr := u32 (nth 1 (rv_x source) 0); ac_pc := u32 (rv_mepc source); ac_xpsr := 0; ac_msp := u32 (nth 2 (rv_x source) 0);
     ac_psp := 0; ac_control := 0; ac_primask := 0; ac_basepri := 0; ac_faultmask := 0; ac_exc_return := 0; ac_cfsr := 0;
     ac_hfsr := 0; ac_dfsr := 0; ac_afsr := 0; ac_mmfar := 0; ac_bfar := 0; ac_shcsr := 0; ac_icsr := 0; ac_vtor := 0;
     ac_sfsr := 0; ac_sfar := 0; ac_s := replicate 16 0; ac_fpscr := 0; ac_mcause := u32 (rv_mcause source);
     ac_mtval := u32 (rv_mtval source); ac_mstatus := u32 (rv_mstatus source); ac_mepc := u32 (rv_mepc source);
     ac_exccause := 0; ac_excvaddr := 0; ac_ps := 0; ac_sar := 0; ac_fault_address := u32 (rv_mtval source);
     ac_signal_number := 0; ac_has_fpu := false; ac_fpu_lazy := false |}.

Definition has_snapshot_flag (s : ls_minimal_snapshot_t) (flag : Z) : bool := negb (Z.land (mn_flags s) flag =? 0).

(** The context a snapshot gives when there is no matching wide one. *)
Definition snapshot_context (s : ls_minimal_snapshot_t) : ls_arch_context_t :=
  {| ac_architecture := if (LS_ARCH_UNKNOWN <? mn_architecture s) && (mn_architecture s <=? LS_ARCH_RISCV64)
                        then mn_architecture s else cf_architecture config;
     ac_fault := mn_fault s; ac_registers := mn_registers s ++ replicate 16 0; ac_lr := mn_lr s; ac_pc := mn_pc s;
     ac_xpsr := mn_xpsr s; ac_msp := mn_msp s; ac_psp := mn_psp s; ac_control := 0; ac_primask := 0; ac_basepri := 0;
     ac_faultmask := 0; ac_exc_return := mn_exc_return s; ac_cfsr := mn_cfsr s; ac_hfsr := mn_hfsr s; ac_dfsr := 0;
     ac_afsr := 0; ac_mmfar := 0; ac_bfar := 0; ac_shcsr := 0; ac_icsr := 0; ac_vtor := 0; ac_sfsr := 0; ac_sfar := 0;
     ac_s := replicate 16 0; ac_fpscr := mn_fpscr s; ac_mcause := 0; ac_mtval := 0; ac_mstatus := 0; ac_mepc := 0;
     ac_exccause := mn_exccause s; ac_excvaddr := mn_excvaddr s; ac_ps := mn_ps s; ac_sar := mn_sar s;
     ac_fault_address := mn_excvaddr s; ac_signal_number := 0;
     ac_has_fpu := has_snapshot_flag s LS_MINIMAL_SNAPSHOT_FPU_FRAME;
     ac_fpu_lazy := has_snapshot_flag s LS_MINIMAL_SNAPSHOT_FPU_LAZY |}.

Definition recovered_context (s : ls_minimal_snapshot_t) (m : retained) : ls_arch_context_t * option ls_riscv64_context_t :=
  if has_snapshot_flag s LS_MINIMAL_SNAPSHOT_WIDE_CONTEXT_VALID then
    match ls_wide_context_snapshot_read wide m with
    | Some w => if wide_snapshot_matches_minimal w s
                then (riscv64_context_to_arch (wd_context w) (mn_fault s), Some (wd_context w))
                else (snapshot_context s, None)
    | None => (snapshot_context s, None)
    end
  else (snapshot_context s, None).

Definition with_cpu (cpu : ls_arch_context_t) (riscv64 : option ls_riscv64_context_t) (e : lep_event) : lep_event :=
  {| le_base := le_base e; le_type := le_type e; le_severity := le_severity e; le_cpu := Some cpu; le_riscv64 := riscv64;
     le_assertion := le_assertion e; le_peripheral := le_peripheral e; le_log := le_log e;
     le_capture_level := le_capture_level e |}.

Definition recovered_event (now : Z) (s : ls_minimal_snapshot_t) (m : retained) : lep_event :=
  let '(context, riscv64) := recovered_context s m in
  with_cpu context riscv64 (event_of LS_EVENT_CRASH LS_PRIORITY_EMERGENCY now (ls_crash_fingerprint build_id (Some context))
    (Some (str "fault")) (s32 (mn_fault s)) LS_SEVERITY_FATAL (Some (str "retained_fault")) LS_CAPTURE_SNAPSHOT).

Definition ls_capture_minimal_recover : st state ls_result_t := fun p =>
  let m := co_retained (core_of p) in
  match ls_minimal_snapshot_read m with
  | None => (LS_OK, p)
  | Some s =>
      match storage with
      | None => (LS_EAGAIN, p)
      | Some _ =>
          let '(now, p) := uptime p in
          let '(result, p) := ls_capture_event (Some (recovered_event now s m)) p in
          (result,
           if is_ok result then set_core (fun c => with_retained (ls_minimal_snapshot_clear wide (co_retained c)) c) p else p)
      end
  end.

Definition set_previous_crashed (m : rt) : rt :=
  {| persistent := persistent m; spool_rt := spool_rt m; boot_started_ms := boot_started_ms m;
     b_boot_count := b_boot_count m; reset_info := reset_info m; previous_crashed := true; boot_loop := boot_loop m;
     safe_mode := safe_mode m; powerfail_last_valid := powerfail_last_valid m; world := world m |}.

Definition set_last_valid (v : bool) (m : rt) : rt :=
  {| persistent := persistent m; spool_rt := spool_rt m; boot_started_ms := boot_started_ms m;
     b_boot_count := b_boot_count m; reset_info := reset_info m; previous_crashed := previous_crashed m;
     boot_loop := boot_loop m; safe_mode := safe_mode m; powerfail_last_valid := v; world := world m |}.

(** [capture_cpu_context]. *)
Definition capture_cpu_context (context : option ls_arch_context_t) (riscv64 : option ls_riscv64_context_t)
  : st state ls_result_t := fun p =>
  match context with
  | None => (LS_EINVAL, p)
  | Some c =>
      if co_capturing (core_of p) then
        match riscv64 with
        | Some r => (LS_OK, run_stores (ls_capture_minimal_riscv64_fault wide (Some (rv_x r)) (rv_mstatus r) (rv_mcause r)
                              (rv_mtval r) (rv_mepc r)) p)
        | None => capture_minimal context p
        end
      else
        let breadcrumb := {| b_category := Some (str "cpu"); b_level := LS_SEVERITY_FATAL; b_message_id := 1;
                             b_message := Some (str "cpu_fault"); b_values := None; b_value_count := 0 |} in
        let '(now, p) := if breadcrumb_dropped breadcrumb (sv_telemetry (co_services (core_of p))) then (0, p) else uptime p in
        let p := set_core (fun k => with_services
                   (set_telemetry (ls_breadcrumb_event now (Some breadcrumb) (sv_telemetry (co_services k))) (co_services k)) k) p in
        let fingerprint := ls_crash_fingerprint build_id context in
        let '(now, p) := uptime p in
        let event := with_cpu c riscv64 (event_of LS_EVENT_CRASH LS_PRIORITY_EMERGENCY now fingerprint (Some (str "cpu"))
                       (s32 (ac_fault c)) LS_SEVERITY_FATAL (Some (str "exception")) LS_CAPTURE_STACK) in
        let p := set_boot set_previous_crashed p in
        let '(_, p) := on_boot (ls_boot_state_mark_crash (cf_timestamp_ms config) storage fingerprint) p in
        let '(result, p) := ls_capture_event (Some event) p in
        let p := if is_ok result then p else snd (capture_minimal context p) in
        let '(_, p) := reset_device p in
        (result, p)
  end.

Definition ls_capture_cpu_context (context : option ls_arch_context_t) : st state ls_result_t := capture_cpu_context context None.

Definition ls_capture_riscv64_context (context : option ls_riscv64_context_t) : st state ls_result_t := fun p =>
  match context with
  | None => (LS_EINVAL, p)
  | Some r => capture_cpu_context (Some (riscv64_context_to_arch r LS_FAULT_TRAP)) context p
  end.

(** *** The power-fail seal *)

Definition ls_powerfail_last_seal (p : state) : ls_powerfail_seal_info_t :=
  if powerfail_last_valid (boot_of_state p) then co_last_seal (core_of p)
  else no_seal.

Definition sealed_context (s : ls_powerfail_sealed_t) : ls_arch_context_t :=
  {| ac_architecture := cf_architecture config; ac_fault := sl_fault s; ac_registers := replicate 32 0; ac_lr := sl_lr s;
     ac_pc := sl_pc s; ac_xpsr := 0; ac_msp := sl_msp s; ac_psp := sl_psp s; ac_control := 0; ac_primask := 0; ac_basepri := 0;
     ac_faultmask := 0; ac_exc_return := 0; ac_cfsr := sl_cfsr s; ac_hfsr := sl_hfsr s; ac_dfsr := 0; ac_afsr := 0;
     ac_mmfar := 0; ac_bfar := 0; ac_shcsr := 0; ac_icsr := 0; ac_vtor := 0; ac_sfsr := 0; ac_sfar := 0;
     ac_s := replicate 16 0; ac_fpscr := 0; ac_mcause := 0; ac_mtval := 0; ac_mstatus := 0; ac_mepc := 0; ac_exccause := 0;
     ac_excvaddr := 0; ac_ps := 0; ac_sar := 0; ac_fault_address := sl_cfsr s; ac_signal_number := 0; ac_has_fpu := false;
     ac_fpu_lazy := false |}.

Definition sealed_event (now : Z) (s : ls_powerfail_sealed_t) : lep_event :=
  with_cpu (sealed_context s) None (event_of LS_EVENT_RESET LS_PRIORITY_EMERGENCY now
    (Z.lxor (Z.lxor (sl_reason s) (u32 (Z.shiftl (sl_vcap_mv s) 8))) (sl_sequence s)) (Some (str "powerfail")) (s32 (sl_reason s))
    LS_SEVERITY_FATAL (Some (str "brownout_seal")) LS_CAPTURE_SNAPSHOT).

Definition ls_powerfail_recover : st state ls_result_t := fun p =>
  match sealed_read_retained (co_retained (core_of p)) with
  | None => (LS_OK, p)
  | Some bytes =>
      let s := sealed_of_bytes bytes in
      let p := set_boot set_previous_crashed p in
      match storage with
      | None => (LS_EAGAIN, p)
      | Some _ =>
          let p := set_boot (set_last_valid true) (set_core (with_last_seal (seal_info s)) p) in
          let '(now, p) := uptime p in
          let '(result, p) := ls_capture_event (Some (sealed_event now s)) p in
          (result,
           if is_ok result then set_core (fun c => with_retained (ls_powerfail_sealed_clear (co_retained c)) c) p
           else set_boot (set_last_valid false) p)
      end
  end.

(** *** Starting *)

(** [ls_boot] with its recovery of retained faults. *)
Definition boot : st state ls_result_t := fun p =>
  let retained_fault := match ls_minimal_snapshot_read (co_retained (core_of p)) with Some _ => true | None => false end in
  let '(r, p) := on_boot (ls_boot (cf_timestamp_ms config) storage (co_initialized (core_of p)) (cf_reset_info config)
                            retained_fault (fun q => (tt, q))) p in
  if negb (is_ok r) then (r, p)
  else
    let '(_, p) := ls_powerfail_recover p in
    let '(_, p) := if retained_fault then ls_capture_minimal_recover p else (LS_OK, p) in
    (LS_OK, p).
End Runtime.
