(* ===== verification/RuntimeFacts.v ===== *)
(** * Captured events reach the spool, and faults are not lost

    The composition of the policies, the encoder and the spool in [ls_capture_event], and
    of the retained records with it in the recovery functions. *)

From S2P Require Import Prelude Util Envelope Security FaultInjection Storage FlashLayer Transport Spool Boot Provisioning Ota Blackbox Telemetry Services Policy Encode Payload EncodeFacts Retained Runtime.

#[local] Opaque ls_envelope_encode ls_spool_append ls_policy_apply ls_envelope_validate.

Lemma bytes_ok_copied size src : text_ok src -> bytes_ok (copied size src).
Proof.
  unfold text_ok, copied, ls_copy_string. intros H. destruct (_ || _); [constructor|].
  destruct src as [src|]; [|vm_compute; constructor]. apply Forall_take, bytes_ok_app.
  split; [by apply Forall_take|repeat constructor; done].
Qed.

(** A breadcrumb with legal text leaves legal text, and no metric changes. *)
Lemma breadcrumb_keeps now b t :
  Forall (fun r => bytes_ok (br_category r) /\ bytes_ok (br_message r)) (r_slots (t_breadcrumbs t)) ->
  text_ok (b_category b) -> text_ok (b_message b) ->
  Forall (fun r => bytes_ok (br_category r) /\ bytes_ok (br_message r))
    (r_slots (t_breadcrumbs (ls_breadcrumb_event now (Some b) t))) /\
  t_metrics (ls_breadcrumb_event now (Some b) t) = t_metrics t.
Proof.
  intros H Hc Hm. cbn [ls_breadcrumb_event]. case_if; [done|]. split; [|done].
  cbn [set_breadcrumbs t_breadcrumbs ring_push r_slots]. apply Forall_insert; [exact H|].
  split; by apply bytes_ok_copied.
Qed.

Section Facts.
Context {E W D X : Type} (build_id : list Z) (config : ls_config_t W) (raw : ls_storage_backend_t (platform D))
  `{OK : !StorageOk raw} (memory : Z -> Z -> list Z) (wide : bool) (stack : Z -> list Z).
Context (Hcap : ls_spool_storage_size <= capacity raw) (Hstack : forall n, zlen (stack n) = LS_MAX_EVENT_SIZE).

Local Abbreviation state := (@state E W D X).
Implicit Types p q : state.
Local Abbreviation env_of := (env_of build_id config memory).
Local Abbreviation capture_event := (ls_capture_event build_id config (Some raw) memory stack).

(** The spool's view of the runtime. *)
Definition spool_state p : @sstate E D := {| faults := faults p; dev := (spool_rt (boot_of_state p), snd (dev p)) |}.

(** The clock and the encoder change the integrator's state, the crypto state and the
    remembered sequence number only. *)
Definition encodes p q : Prop :=
  exists g s, (forall m, spool_rt (g m) = spool_rt m) /\ same_keys (co_security (core_of p)) s /\
    q = set_boot g (set_core (with_security s) p).

Lemma uptime_encodes p v p' : uptime config p = (v, p') -> exists w, p' = set_boot (with_world w) p.
Proof.
  unfold uptime, on_boot, ls_uptime_ms, ls_timestamp. destruct p as [f [[m c] d]].
  destruct (cf_timestamp_ms config) as [clock|].
  - cbn. destruct (clock _) as [t w]. intros [= _ <-]. by exists w.
  - intros [= _ <-]. exists (world m). by destruct m.
Qed.

Lemma mission_now_encodes p v p' : mission_now config p = (v, p') -> exists w, p' = set_boot (with_world w) p.
Proof.
  unfold mission_now. destruct (mi_mission_id _); [|apply uptime_encodes]. intros [= _ <-].
  exists (world (boot_of_state p)). destruct p as [f [[m c] d]]. by destruct m.
Qed.

Lemma append_inv data prio p r p' : append (Some raw) data prio p = (r, p') ->
  ls_spool_append (Some raw) (Some data) prio (spool_state p) = (r, spool_state p') /\ core_of p' = core_of p.
Proof.
  unfold append, on_boot, on_spool. destruct p as [f [[m c] d]].
  change (ls_spool_append (Some raw) (Some data) prio _) with (ls_spool_append (Some raw) (Some data) prio (spool_state (Build_platform f (m, c, d)))).
  destruct (ls_spool_append _ _ _ _) as [r0 [f' [s d']]]. by intros [= <- <-].
Qed.

(** What [env_ok] looks at. *)
Lemma env_ok_of now q p e e' : co_services (core_of q) = co_services (core_of p) \/
    co_services (core_of q) = on_blackbox ls_blackbox_freeze (co_services (core_of p)) ->
  le_assertion e' = le_assertion e -> env_ok (env_of 0 p) e -> env_ok (env_of now q) e'.
Proof.
  intros Hs Ha [H1 H2 H3 H4 H5 H6].
  assert (t_breadcrumbs (sv_telemetry (co_services (core_of q))) = t_breadcrumbs (sv_telemetry (co_services (core_of p))) /\
    t_metrics (sv_telemetry (co_services (core_of q))) = t_metrics (sv_telemetry (co_services (core_of p))) /\
    sv_mission (co_services (core_of q)) = sv_mission (co_services (core_of p))) as (E1 & E2 & E3).
  { destruct Hs as [->| ->]; [done|]. by split_and!. }
  split; cbn [env_of env_services] in *; rewrite ?E1, ?E2, ?E3, ?Ha; try done.
Qed.

(** What a reader with the keys of [s] visits in an envelope. *)
Definition reads_as (s : security_runtime X) (data : list Z) (fs : list (Z * list Z)) : Prop :=
  forall (C : Type) (visitor : Z -> list Z -> Prelude.st C ls_result_t) t workspace c, same_keys s t ->
  zlen workspace = LS_MAX_EVENT_SIZE ->
  (is_aead s = false -> ls_security_enabled s = true -> sp_allow_legacy_hmac (s_policy s) = true) ->
  let run := ls_envelope_visit_secure visitor (Some data) workspace LS_MAX_EVENT_SIZE (t, c) in
  (fst (fst run), snd (snd run)) = run_visitor visitor fs c.

Lemma encoded_reads_as (s : security_runtime X) env event seq fs i body auth : security_ok s -> encoded s env event seq fs i body auth ->
  zlen (envelope_bytes i body auth) <= LS_MAX_EVENT_SIZE -> reads_as s (envelope_bytes i body auth) fs.
Proof.
  intros Hok He Hle C visitor t ws c HK Hws Hl. rewrite <- Hws. refine (proj1 (encoded_visits visitor s env event seq _ _ _ _ _ _ _ Hok He HK _ Hl)).
  destruct (en_ok _ _ _ _ _ _ _ _ He) as [_ _ _ _ _ _ _ [_ O8] _ _]. destruct (metadata_size_range (flags i)).
  pose proof (zlen_nonneg auth). rewrite envelope_bytes_header, !zlen_app, header_of_shape, zlen_le in Hle. lia.
Qed.

(** What a finished encoding is. *)
Definition encodes_as p (event : lep_event) (seq : Z) (data : list Z) (i : ls_envelope_info_t) : Prop :=
  exists now fs, payload_fields (env_of now p) event (has_flag (flags i) LS_ENVELOPE_TRUNCATED) fs /\ Forall tlv_ok fs /\
    ls_envelope_validate (Some data) = Ok i /\ sequence i = seq /\ type i = u8 (le_type event) /\ bytes_ok data /\
    reads_as (co_security (core_of p)) data fs.

Lemma freeze_sections now p event :
  payload_sections (env_of now (set_core freeze p)) event = payload_sections (env_of now p) event.
Proof.
  set (t := sv_telemetry (co_services (core_of p))).
  assert (blackbox_sections (sv_telemetry (env_services (env_of now (set_core freeze p)))) = blackbox_sections t) as Hb.
  { change (sv_telemetry _) with (sv_telemetry (on_blackbox ls_blackbox_freeze (co_services (core_of p)))).
    unfold blackbox_sections. change (t_blackbox (sv_telemetry _)) with (ls_blackbox_freeze (t_blackbox t)).
    unfold ls_blackbox_freeze. destruct (bb_magic (t_blackbox t) =? LS_BLACKBOX_MAGIC) eqn:Em; [|done]. apply Z.eqb_eq in Em.
    pose proof (blackbox_freeze_same t (set_frozen 1) (fun _ => eq_refl) Em) as H. cbv zeta.
    rewrite (proj2 (H 0%nat)). apply list_omap_ext, Forall_Forall2_diag, Forall_true. intros age. apply H. }
  unfold payload_sections at 1. cbv zeta. rewrite Hb. reflexivity.
Qed.

Lemma freeze_fields now p event truncated fs : payload_fields (env_of now (set_core freeze p)) event truncated fs ->
  payload_fields (env_of now p) event truncated fs.
Proof. intros (cuts & rest & H1 & H2 & H3). exists cuts, rest. split_and!; try done. intros Ht. rewrite <- freeze_sections. by apply H3. Qed.

Lemma encode_event_spec event seq p r p' : env_ok (env_of 0 p) event -> security_ok (co_security (core_of p)) -> is_u32 seq ->
  encode_event build_id config memory stack event seq p = (r, p') ->
  encodes p p' /\ match r with Ok data => exists i, encodes_as p event seq data i | Err e => e <> LS_OK end.
Proof.
  intros Henv Hok Hseq H. unfold encode_event in H. destruct (mission_now config p) as [now p1] eqn:E1.
  apply mission_now_encodes in E1 as [w ->]. cbv zeta in H.
  set (p1 := set_boot _ p) in H. assert (core_of p1 = core_of p) as Ec by done. rewrite Ec in H.
  assert (env_ok (env_of now p1) event) as Henv1 by (eapply env_ok_of; [by left|done|exact Henv]).
  destruct (ls_envelope_encode _ _ _ _ _ _ _) as [[r0 out] [s last]] eqn:Ee. rewrite <- (Hstack seq) in Ee.
  apply pair_equal_spec in H as [<- <-].
  assert (same_keys (co_security (core_of p)) s) as HK.
  { destruct r0 as [total|e].
    - by apply encode_inv in Ee as (fs & i & body & auth & _ & _ & _ & _ & HK & _).
    - apply encode_fails in Ee as ([x ->] & _); [by split_and!|done..]. }
  split.
  - exists (fun m => with_persistent (with_boot (fun b => set_saved (previous_uptime_ms b) last b)) (with_world w m)), s.
    split; [done|]. split; [done|]. done.
  - destruct r0 as [total|e]; [|by eapply encode_error].
    apply encode_inv in Ee as (fs & i & body & auth & He & -> & Hle & -> & _); [|done..].
    rewrite Hstack in Hle. rewrite slice_prefix by done. exists i, now, fs.
    destruct (en_fields _ _ _ _ _ _ _ _ He) as [F1 F2]. split_and!.
    + exact F1.
    + exact F2.
    + exact (encoded_validates _ _ _ _ _ _ _ _ He).
    + exact (en_sequence _ _ _ _ _ _ _ _ He).
    + exact (en_type _ _ _ _ _ _ _ _ He).
    + apply bytes_ok_envelope. exact (en_ok _ _ _ _ _ _ _ _ He).
    + by eapply encoded_reads_as.
Qed.

(** What is stored of an event: the policies keep it as [base], and a slot that was free
    and that its priority may use holds its envelope. *)
Definition stores p p' (event : lep_event) (seq : Z) : Prop :=
  exists base t' s data i, ls_policy_apply (le_base event) (co_policies (core_of p)) = ((true, base), t') /\
    encodes_as p (with_base base event) seq data i /\
    0 <= s < slot_limit_for_priority (e_priority (le_base event)) /\ slot_free (medium raw (spool_state p)) s /\
    entry_in (medium raw (spool_state p')) s = Some (stored_record data (e_priority (le_base event)) i, data) /\
    forall j, in_range j -> j <> s ->
      entry_in (medium raw (spool_state p')) j = entry_in (medium raw (spool_state p)) j.

(** The policies drop the event. *)
Definition dropped p (event : lep_event) : Prop :=
  exists base t', ls_policy_apply (le_base event) (co_policies (core_of p)) = ((false, base), t').

Definition nothing_stored p p' : Prop :=
  forall j, in_range j -> entry_in (medium raw (spool_state p')) j = entry_in (medium raw (spool_state p)) j.

(** What a capture needs of the state and the event. *)
Record capturable p (event : lep_event) : Prop := {
  ca_env : env_ok (env_of 0 p) event;
  ca_security : security_ok (co_security (core_of p));
  ca_tables : tables_ok (co_policies (core_of p));
  ca_storage : inv (snd (dev p));
  ca_type : LS_EVENT_CRASH <= le_type event <= LS_EVENT_COREDUMP;
  ca_priority : 0 <= e_priority (le_base event)
}.

Lemma capture_filtered_spec event seq p r p' : capturable p event -> is_u32 seq ->
  capture_filtered build_id config (Some raw) memory stack event seq p = (r, p') ->
  inv (snd (dev p')) /\
  (nothing_stored p p' /\ (r = LS_OK -> dropped p event /\ LS_PRIORITY_CRITICAL < e_priority (le_base event)) \/
   stores p p' event seq).
Proof.
  intros [Henv Hok Ht Hi Hty Hpr] Hseq H. unfold capture_filtered in H.
  destruct (ls_policy_apply _ _) as [[kept base] t'] eqn:Ep. pose proof (apply_keeps _ _ _ _ _ Ht Ep) as (_ & Hb & Hc).
  cbv zeta in H. set (p1 := set_core (with_policy_tables t') p) in H. destruct kept; cbn [negb] in H.
  2: { apply pair_equal_spec in H as [<- <-]. split; [done|]. left. split; [done|]. intros _. split; [by exists base, t'|].
       destruct (Z.le_gt_cases (e_priority (le_base event)) LS_PRIORITY_CRITICAL) as [Hle|]; [by specialize (Hc Hle)|lia]. }
  destruct (encode_event _ _ _ _ _ _ p1) as [r1 p2] eqn:Ee.
  assert (env_ok (env_of 0 p1) (with_base base event)) as Henv1 by (apply (env_ok_of 0 p1 p event); [by left|done|exact Henv]).
  apply encode_event_spec in Ee as [(g & s & Hg & HK & Hp2) Hr1]; [|done..].
  assert (snd (dev p2) = snd (dev p)) as Ed by (by rewrite Hp2).
  destruct r1 as [data|e].
  2: { apply pair_equal_spec in H as [<- <-]. split; [by rewrite Ed|]. left. split; [|done].
       intros j _. unfold medium, spool_state. cbn [dev snd]. by rewrite Ed. }
  destruct Hr1 as (i & He). destruct He as (now & fs & F1 & F2 & Hv & Hsq & Htp & Hby & Hrd).
  apply append_inv in H as [H _]. rewrite Hb in H.
  assert (type i = le_type event) as Hty1.
  { rewrite Htp. cbn [with_base le_type]. unfold u8. apply Z.mod_small. unfold LS_EVENT_CRASH, LS_EVENT_COREDUMP in Hty. lia. }
  eapply (append_outcome raw) in H as (Hi' & Ho); [|exact Hcap|cbn [spool_state dev snd]; by rewrite Ed|exact Hby|exact Hpr|exact Hv|by rewrite Hty1].
  cbn [spool_state dev snd] in Hi'. split; [exact Hi'|].
  assert (medium raw (spool_state p2) = medium raw (spool_state p)) as Em by (unfold medium, spool_state; cbn [dev snd]; by rewrite Ed).
  rewrite Em in Ho. destruct Ho as [[Hr Ho]|(s0 & H1 & H2 & H3 & H4)].
  - left. split; [exact Ho|done].
  - right. exists base, t', s0, data, i. split; [done|]. split; [exists now, fs; split_and!; done|].
    split; [exact H1|]. split; [exact H2|]. split; [exact H3|exact H4].
Qed.

Lemma capture_spec event p r p' : capturable p event -> co_capturing (core_of p) = false ->
  capture_event (Some event) p = (r, p') ->
  inv (snd (dev p')) /\ co_capturing (core_of p') = false /\
  (nothing_stored p p' /\ (r = LS_OK -> dropped p event /\ LS_PRIORITY_CRITICAL < e_priority (le_base event)) \/
   stores p p' event (inc32 (rt_sequence (spool_rt (boot_of_state p))))).
Proof.
  intros Hca Hc H. unfold ls_capture_event in H. rewrite Hc in H. cbv zeta in H.
  set (seq := inc32 _) in *. change (inc32 _) with seq in H.
  set (p1 := if le_type event =? LS_EVENT_CRASH then _ else _) in H.
  destruct (capture_filtered _ _ _ _ _ _ _ p1) as [r1 p2] eqn:Ef. apply pair_equal_spec in H as [<- <-].
  assert (capturable p1 event) as Hca1.
  { destruct Hca as [C1 C2 C3 C4 C5 C6]. subst p1. split; try done.
    - apply (env_ok_of 0 _ p event); [|reflexivity|exact C1]. case_if; [by right|by left].
    - by case_if. - by case_if. - by case_if. }
  apply capture_filtered_spec in Ef as [Hi Ho]; [|done|apply u32_range].
  split; [exact Hi|]. split; [done|].
  assert (spool_state p1 = {| faults := faults p; dev := (with_sequence seq (spool_rt (boot_of_state p)), snd (dev p)) |}) as Es
    by (subst p1; by case_if).
  assert (medium raw (spool_state p1) = medium raw (spool_state p)) as Em by (by rewrite Es).
  assert (co_policies (core_of p1) = co_policies (core_of p)) as Et by (subst p1; by case_if).
  assert (co_security (core_of p1) = co_security (core_of p)) as Ek by (subst p1; by case_if).
  destruct Ho as [[Ho Hr]|(base & t' & s0 & data & i & H1 & H2 & H3 & H4 & H5 & H6)].
  - left. split; [unfold nothing_stored in *; by rewrite Em in Ho|]. unfold dropped in *. by rewrite Et in Hr.
  - right. rewrite Et in H1. rewrite Em in H4, H6. exists base, t', s0, data, i. split; [done|].
    split; [|split; [exact H3|]; split; [exact H4|]; split; [exact H5|exact H6]]. destruct H2 as (now & fs & F1 & F2 & F3 & F4 & F5 & F6 & F7).
    exists now, fs. rewrite Ek in F7. split_and!; try done. subst p1. destruct (le_type event =? LS_EVENT_CRASH); [by apply freeze_fields|done].
Qed.

(** *** The state between events *)

(** The part of [capturable] that is about the runtime. *)
Record runtime_ok p : Prop := {
  rt_identity : Forall text_ok (identity_fields (env_of 0 p));
  rt_breadcrumbs : Forall (fun r => bytes_ok (br_category r) /\ bytes_ok (br_message r))
                     (r_slots (t_breadcrumbs (sv_telemetry (co_services (core_of p)))));
  rt_metrics : Forall (fun m => bytes_ok (m_name m)) (t_metrics (sv_telemetry (co_services (core_of p))));
  rt_mission : let m := sv_mission (co_services (core_of p)) in
    bytes_ok (mi_mission_id m) /\ bytes_ok (mi_dive_id m) /\ bytes_ok (mi_node_id m) /\ bytes_ok (mi_vehicle_mode m);
  rt_memory address length_ : bytes_ok (memory address length_);
  rt_security : security_ok (co_security (core_of p));
  rt_tables : tables_ok (co_policies (core_of p));
  rt_storage : inv (snd (dev p))
}.

Lemma runtime_capturable p event : runtime_ok p -> le_assertion event = None ->
  LS_EVENT_CRASH <= le_type event <= LS_EVENT_COREDUMP -> 0 <= e_priority (le_base event) -> capturable p event.
Proof. intros [] Ha ??. split; try done. split; try done. by rewrite Ha. Qed.

Lemma event_type_ok t : bool_decide (LS_EVENT_CRASH <= t <= LS_EVENT_COREDUMP) = true -> LS_EVENT_CRASH <= t <= LS_EVENT_COREDUMP.
Proof. apply bool_decide_eq_true_1. Qed.

(** The clock and the boot record do not matter to it. *)
Lemma runtime_ok_boot g p : runtime_ok p -> runtime_ok (set_boot g p).
Proof. intros []. by split. Qed.

(** An event the policies may not drop is stored, or the capture fails. *)
Lemma capture_important event p r p' : runtime_ok p -> le_assertion event = None ->
  LS_EVENT_CRASH <= le_type event <= LS_EVENT_COREDUMP -> 0 <= e_priority (le_base event) <= LS_PRIORITY_CRITICAL ->
  co_capturing (core_of p) = false -> capture_event (Some event) p = (r, p') ->
  inv (snd (dev p')) /\ (r = LS_OK -> stores p p' event (inc32 (rt_sequence (spool_rt (boot_of_state p))))).
Proof.
  intros Hp Ha Ht [Hp1 Hp2] Hc H. apply capture_spec in H as (Hi & _ & Ho); [|by apply runtime_capturable|done].
  split; [exact Hi|]. intros Hr. destruct Ho as [[_ Ho]|Ho]; [|exact Ho]. destruct (Ho Hr). lia.
Qed.

(** The part of the state a capture does not touch. *)
Lemma encode_event_retained event seq p r p' : encode_event build_id config memory stack event seq p = (r, p') ->
  co_retained (core_of p') = co_retained (core_of p).
Proof.
  unfold encode_event. destruct (mission_now config p) as [now p1] eqn:E1. apply mission_now_encodes in E1 as [w ->].
  destruct (ls_envelope_encode _ _ _ _ _ _ _) as [[r0 out] [s last]]. cbv zeta. by intros [_ <-]%pair_equal_spec.
Qed.

Lemma capture_retained event p r p' : capture_event event p = (r, p') ->
  co_retained (core_of p') = co_retained (core_of p).
Proof.
  unfold ls_capture_event. destruct event as [event|]; [|by intros [_ <-]%pair_equal_spec].
  destruct (co_capturing _); [by intros [_ <-]%pair_equal_spec|]. cbv zeta.
  match goal with |- context [capture_filtered _ _ _ _ _ _ _ ?q] => set (p1 := q) end.
  assert (co_retained (core_of p1) = co_retained (core_of p)) as E1 by (subst p1; by case_if).
  destruct (capture_filtered _ _ _ _ _ _ _ p1) as [r2 p2] eqn:Ef. intros [_ <-]%pair_equal_spec.
  rewrite <- E1. change (co_retained (core_of p2) = co_retained (core_of p1)). clear E1.
  unfold capture_filtered in Ef. destruct (ls_policy_apply _ _) as [[kept base] t']. cbv zeta in Ef.
  destruct kept; cbn [negb] in Ef; [|by apply pair_equal_spec in Ef as [_ <-]].
  destruct (encode_event _ _ _ _ _ _ _) as [r3 p3] eqn:Ee. apply encode_event_retained in Ee.
  transitivity (co_retained (core_of p3)); [|exact Ee]. destruct r3 as [data|e].
  - apply append_inv in Ef as [_ Ec]. by rewrite Ec.
  - by apply pair_equal_spec in Ef as [_ <-].
Qed.

(** *** Recovery *)

Lemma stores_clock w p p' event seq : stores (set_boot (with_world w) p) p' event seq -> stores p p' event seq.
Proof. exact id. Qed.

(** [stores] sees the spool of the state after only. *)
Lemma stores_core f p p' event seq : stores p p' event seq -> stores p (set_core f p') event seq.
Proof. exact id. Qed.

Lemma recovered_event_shape now s m : let e := recovered_event build_id config wide now s m in
  le_assertion e = None /\ le_type e = LS_EVENT_CRASH /\ e_priority (le_base e) = LS_PRIORITY_EMERGENCY.
Proof. unfold recovered_event. by destruct (recovered_context _ _ _ _). Qed.

Lemma minimal_recover_spec s p r p' : runtime_ok p -> co_capturing (core_of p) = false ->
  zlen (rm_minimal (co_retained (core_of p))) = minimal_size ->
  ls_minimal_snapshot_read (co_retained (core_of p)) = Some s ->
  ls_capture_minimal_recover build_id config (Some raw) memory wide stack p = (r, p') ->
  inv (snd (dev p')) /\
  if is_ok r
  then ls_minimal_snapshot_read (co_retained (core_of p')) = None /\
       exists now, stores p p' (recovered_event build_id config wide now s (co_retained (core_of p)))
         (inc32 (rt_sequence (spool_rt (boot_of_state p))))
  else co_retained (core_of p') = co_retained (core_of p).
Proof.
  intros Hp Hc Hz Hs H. unfold ls_capture_minimal_recover in H. cbv zeta in H. rewrite Hs in H.
  destruct (uptime config p) as [now p1] eqn:E1. apply uptime_encodes in E1 as [w ->].
  destruct (recovered_event_shape now s (co_retained (core_of p))) as (Ha & Ht & Hpr).
  destruct (ls_capture_event _ _ _ _ _ _ _) as [r2 p2] eqn:E2. apply pair_equal_spec in H as [-> <-].
  pose proof (capture_retained _ _ _ _ E2) as Hret.
  apply capture_important in E2 as [Hi Ho]; [|by apply runtime_ok_boot|done|by rewrite Ht|by rewrite Hpr|done].
  destruct (is_ok r) eqn:Er; [|by split].
  apply is_ok_true in Er. split; [exact Hi|]. split.
  - change (ls_minimal_snapshot_read (ls_minimal_snapshot_clear wide (co_retained (core_of p2))) = None).
    rewrite Hret. by apply cleared_not_read.
  - exists now. apply stores_core, (stores_clock w). exact (Ho Er).
Qed.

(** The seal is looked at by whoever reads the state while its event is captured. *)
Definition sealed_view (s : ls_powerfail_sealed_t) p : state :=
  set_boot (set_last_valid true) (set_core (with_last_seal (seal_info s)) (set_boot set_previous_crashed p)).

Lemma powerfail_recover_spec bytes p r p' : runtime_ok p -> co_capturing (core_of p) = false ->
  zlen (rm_sealed (co_retained (core_of p))) = sealed_size ->
  (forall b, rm_backup (co_retained (core_of p)) = Some b -> bytes_ok b) ->
  sealed_read_retained (co_retained (core_of p)) = Some bytes ->
  ls_powerfail_recover build_id config (Some raw) memory stack p = (r, p') ->
  inv (snd (dev p')) /\
  if is_ok r
  then sealed_read_retained (co_retained (core_of p')) = None /\
       exists now, stores (sealed_view (sealed_of_bytes bytes) p) p' (sealed_event config now (sealed_of_bytes bytes))
         (inc32 (rt_sequence (spool_rt (boot_of_state p))))
  else co_retained (core_of p') = co_retained (core_of p) /\ powerfail_last_valid (boot_of_state p') = false.
Proof.
  intros Hp Hc Hz Hw Hs H. unfold ls_powerfail_recover in H. cbv zeta in H. rewrite Hs in H. set (s := sealed_of_bytes bytes) in *.
  fold (sealed_view s p) in H. set (q := sealed_view s p) in *.
  assert (runtime_ok q) as Hq by (destruct Hp; by split).
  destruct (uptime config q) as [now p1] eqn:E1. apply uptime_encodes in E1 as [w ->].
  destruct (ls_capture_event _ _ _ _ _ _ _) as [r2 p2] eqn:E2. apply pair_equal_spec in H as [-> <-].
  pose proof (capture_retained _ _ _ _ E2) as Hret.
  apply capture_important in E2 as [Hi Ho]; [|by apply runtime_ok_boot|done|done|done|done].
  destruct (is_ok r) eqn:Er; [|by split]. apply is_ok_true in Er. split; [exact Hi|]. split.
  - change (sealed_read_retained (ls_powerfail_sealed_clear (co_retained (core_of p2))) = None).
    rewrite Hret. by apply seal_cleared_not_read.
  - exists now. apply stores_core, (stores_clock w). exact (Ho Er).
Qed.

(** *** Faults *)

(** Two states with the same records in the spool. *)
Definition spool_same p q : Prop := forall i, in_range i ->
  entry_in (medium raw (spool_state q)) i = entry_in (medium raw (spool_state p)) i /\
  (slot_free (medium raw (spool_state p)) i <-> slot_free (medium raw (spool_state q)) i).

Lemma mark_crash_same f p p' : inv (snd (dev p)) ->
  on_boot (ls_boot_state_mark_crash (cf_timestamp_ms config) (Some raw) f) p = (tt, p') ->
  inv (snd (dev p')) /\ spool_same p p' /\ core_of p' = core_of p /\ spool_rt (boot_of_state p') = spool_rt (boot_of_state p).
Proof.
  intros Hi H. apply on_boot_inv in H as [H Hc]. apply (mark_crash_frame raw) in H as (I & O & S); [|exact Hi].
  split; [exact I|]. split; [|by split]. intros i Hr. by apply (entry_in_before _ _ i boot_state_size).
Qed.

(** A breadcrumb keeps the state fit for encoding. *)
Lemma breadcrumb_ok now b p : runtime_ok p -> text_ok (b_category b) -> text_ok (b_message b) ->
  runtime_ok (set_core (fun k => with_services
    (set_telemetry (ls_breadcrumb_event now (Some b) (sv_telemetry (co_services k))) (co_services k)) k) p).
Proof.
  intros [R1 R2 R3 R4 R5 R6 R7 R8] Hc Hm. destruct (breadcrumb_keeps now b _ R2 Hc Hm) as [B1 B2]. split; try done.
  cbn [core_of set_core with_services co_services set_telemetry sv_telemetry ram dev fst snd]. by rewrite B2.
Qed.

(** The event of a fault. *)
Definition cpu_event (now : Z) (c : ls_arch_context_t) (riscv64 : option ls_riscv64_context_t) : lep_event :=
  with_cpu c riscv64 (event_of LS_EVENT_CRASH LS_PRIORITY_EMERGENCY now (ls_crash_fingerprint build_id (Some c)) (Some (str "cpu"))
    (s32 (ac_fault c)) LS_SEVERITY_FATAL (Some (str "exception")) LS_CAPTURE_STACK).

Lemma capture_cpu_spec c p r p' : runtime_ok p -> co_capturing (core_of p) = false ->
  snapshot_ok (context_record (rm_build_hash (co_retained (core_of p))) c) ->
  zlen (rm_minimal (co_retained (core_of p))) = minimal_size ->
  ls_capture_cpu_context build_id config (Some raw) memory wide stack (Some c) p = (r, p') ->
  inv (snd (dev p')) /\
  if is_ok r
  then exists q now, spool_same p q /\ co_security (core_of q) = co_security (core_of p) /\
         stores q p' (cpu_event now c None) (inc32 (rt_sequence (spool_rt (boot_of_state p))))
  else exists s, ls_minimal_snapshot_read (co_retained (core_of p')) = Some s /\
         evidence s = evidence (context_record (rm_build_hash (co_retained (core_of p))) c).
Proof.
  intros Hp Hc Hs Hz H. unfold ls_capture_cpu_context, capture_cpu_context in H. rewrite Hc in H.
  cbv zeta in H.
  match type of H with context [if ?b then (0, p) else uptime config p] =>
    destruct (if b then (0, p) else uptime config p) as [t1 p1] eqn:E1 end.
  assert (exists w, p1 = set_boot (with_world w) p) as [w1 ->].
  { destruct (breadcrumb_dropped _ _); [|by apply uptime_encodes in E1]. injection E1 as <- <-.
    exists (world (boot_of_state p)). destruct p as [f [[m k] d]]. by destruct m. }
  match type of H with context [uptime config ?x] => set (p2 := x) in H end.
  assert (runtime_ok p2) as Hp2 by (apply breadcrumb_ok; [by apply runtime_ok_boot|apply bytes_ok_str..]).
  destruct (uptime config p2) as [now p3] eqn:E3. apply uptime_encodes in E3 as [w3 ->]. fold (cpu_event now c None) in H.
  match type of H with context [on_boot _ ?x] => set (p4 := x) in H end.
  assert (runtime_ok p4) as Hp4 by by apply runtime_ok_boot, runtime_ok_boot.
  destruct (on_boot _ p4) as [[] p5] eqn:E5. apply mark_crash_same in E5 as (Hi5 & Hsame & Hc5 & Hseq); [|exact (rt_storage _ Hp4)].
  assert (runtime_ok p5) as Hp5.
  { destruct Hp4. split; rewrite ?Hc5; try done. }
  destruct (ls_capture_event _ _ _ _ _ _ p5) as [r6 p6] eqn:E6. pose proof (capture_retained _ _ _ _ E6) as Hret.
  rewrite Hc5 in Hret.
  apply capture_important in E6 as [Hi6 Ho]; [|exact Hp5|done|done|done|by rewrite Hc5]. rewrite Hseq in Ho.
  match type of H with context [reset_device _ ?x] => set (p7 := x) in H end.
  assert (exists w8, p' = set_boot (with_world w8) p7 /\ r = r6) as (w8 & -> & ->).
  { unfold reset_device in H. destruct (cf_reset config) as [reset|].
    - unfold on_world in H. destruct (reset _) as [[] w]. apply pair_equal_spec in H as [<- <-]. by exists w.
    - apply pair_equal_spec in H as [<- <-]. exists (world (boot_of_state p7)). split; [|done].
      destruct p7 as [f [[m k] d]]. by destruct m. }
  subst p7. destruct (is_ok r6) eqn:Er.
  - split; [exact Hi6|]. apply is_ok_true in Er. exists p5, now. split; [exact Hsame|]. split; [by rewrite Hc5|exact (Ho Er)].
  - split; [exact Hi6|].
    destruct (context_fault_read wide c (co_retained (core_of p)) Hs Hz) as (s & Hread & Hev). exists s. split; [|exact Hev].
    cbn [capture_minimal snd]. 
    change (ls_minimal_snapshot_read (run (ls_capture_minimal_context_fault wide (Some c) (co_retained (core_of p6))) (co_retained (core_of p6))) = Some s).
    rewrite Hret. exact Hread.
Qed.

(** ** Properties *)

(** C25: An event is stored once and whole, or not at all. Whatever fails - the encoder,
    the random source, the storage at any byte - [ls_capture_event] leaves the committed
    records as they were, and then reports success only when the policies drop the event,
    which they never do to a critical one; or it adds to them exactly one, in a slot that
    was free and that the priority may use: a valid envelope with the next sequence
    number and the event's type, which a reader with the keys visits section by section.
    Either way the guard against nested captures is released. *)
Theorem capture_stores_event event p r p' : capturable p event -> co_capturing (core_of p) = false ->
  ls_capture_event build_id config (Some raw) memory stack (Some event) p = (r, p') ->
  inv (snd (dev p')) /\ co_capturing (core_of p') = false /\
  (nothing_stored p p' /\ (r = LS_OK -> dropped p event /\ LS_PRIORITY_CRITICAL < e_priority (le_base event)) \/
   stores p p' event (inc32 (rt_sequence (spool_rt (boot_of_state p))))).
Proof. exact (capture_spec event p r p'). Qed.

(** C26: A crash leaves evidence. When the processor faults outside a capture,
    [ls_capture_cpu_context] either reports success, and then the crash event with the
    registers is in the spool, as a new record beside all the old ones; or it reports an
    error, and then, whatever failed on the way - the boot record, the encoder, the spool -
    the retained memory holds a snapshot that the next boot reads, with the program
    counter, the fault status and the registers of the fault. *)
Theorem crash_leaves_evidence c p r p' : runtime_ok p -> co_capturing (core_of p) = false ->
  snapshot_ok (context_record (rm_build_hash (co_retained (core_of p))) c) ->
  zlen (rm_minimal (co_retained (core_of p))) = minimal_size ->
  ls_capture_cpu_context build_id config (Some raw) memory wide stack (Some c) p = (r, p') ->
  inv (snd (dev p')) /\
  if is_ok r
  then exists q now, spool_same p q /\ co_security (core_of q) = co_security (core_of p) /\
         stores q p' (cpu_event now c None) (inc32 (rt_sequence (spool_rt (boot_of_state p))))
  else exists s, ls_minimal_snapshot_read (co_retained (core_of p')) = Some s /\
         evidence s = evidence (context_record (rm_build_hash (co_retained (core_of p))) c).
Proof. exact (capture_cpu_spec c p r p'). Qed.

(** C37: A retained snapshot is given up only for its event. When
    [ls_capture_minimal_recover] succeeds, the snapshot is cleared and a crash event built
    from it is a new committed record of the spool; on any error the retained memory is
    unchanged, so that the next boot tries again. An error may come from the storage after
    the record was committed, and the next boot stores the event a second time then. *)
Theorem snapshot_recovered s p r p' : runtime_ok p -> co_capturing (core_of p) = false ->
  zlen (rm_minimal (co_retained (core_of p))) = minimal_size ->
  ls_minimal_snapshot_read (co_retained (core_of p)) = Some s ->
  ls_capture_minimal_recover build_id config (Some raw) memory wide stack p = (r, p') ->
  inv (snd (dev p')) /\
  if is_ok r
  then ls_minimal_snapshot_read (co_retained (core_of p')) = None /\
       exists now, stores p p' (recovered_event build_id config wide now s (co_retained (core_of p)))
         (inc32 (rt_sequence (spool_rt (boot_of_state p))))
  else co_retained (core_of p') = co_retained (core_of p).
Proof. exact (minimal_recover_spec s p r p'). Qed.

(** C29: So is the power-fail seal. When [ls_powerfail_recover] succeeds, the record and the
    copy in the backup window are cleared and a reset event built from it is a new
    committed record of the spool; on any error both stay as they are, and the seal is not
    reported as recovered. As with the snapshot, an error that comes after the record was
    committed makes the next boot store it again. *)
Theorem seal_recovered bytes p r p' : runtime_ok p -> co_capturing (core_of p) = false ->
  zlen (rm_sealed (co_retained (core_of p))) = sealed_size ->
  (forall b, rm_backup (co_retained (core_of p)) = Some b -> bytes_ok b) ->
  sealed_read_retained (co_retained (core_of p)) = Some bytes ->
  ls_powerfail_recover build_id config (Some raw) memory stack p = (r, p') ->
  inv (snd (dev p')) /\
  if is_ok r
  then sealed_read_retained (co_retained (core_of p')) = None /\
       exists now, stores (sealed_view (sealed_of_bytes bytes) p) p' (sealed_event config now (sealed_of_bytes bytes))
         (inc32 (rt_sequence (spool_rt (boot_of_state p))))
  else co_retained (core_of p') = co_retained (core_of p) /\ powerfail_last_valid (boot_of_state p') = false.
Proof. exact (powerfail_recover_spec bytes p r p'). Qed.
End Facts.

(** *** A device *)

Definition demo_config : ls_config_t Z := {|
  cf_identity := env_identity demo_env; cf_architecture := 2; cf_rtos := None; cf_region := None; cf_device_group := None;
  cf_timestamp_ms := demo_clock; cf_reset := None; cf_reset_info := None |}.

Definition demo_core (m : retained) : core Z Z :=
  mk_core true false demo_tables demo_services demo_security no_seal LS_ASSERT_CONTINUE None None LS_SEVERITY_DEBUG [] m.

Definition demo_state (m : retained) : @state (list (list Z)) Z ls_memory_storage_t Z :=
  {| faults := no_faults; dev := ((demo_runtime zero_persistent, demo_core m), demo_blank) |}.

Definition demo_memory (address length_ : Z) : list Z := fill length_ 0xa5.
Definition demo_stack (sequence : Z) : list Z := fill LS_MAX_EVENT_SIZE 0.

Lemma demo_capacity : ls_spool_storage_size <= capacity demo_boot_storage.
Proof. vm_compute. discriminate. Qed.

Lemma demo_stack_size n : zlen (demo_stack n) = LS_MAX_EVENT_SIZE.
Proof. by vm_compute. Qed.

Lemma demo_state_ok m : runtime_ok (str "b1") demo_config demo_boot_storage demo_memory (demo_state m).
Proof.
  destruct demo_env_ok as [E1 E2 E3 E4 E5 E6]. split; try done.
  - exact demo_security_ok.
  - exact demo_blank_inv.
Qed.

Definition demo_capture := ls_capture_event (str "b1") demo_config (Some demo_boot_storage) demo_memory demo_stack
  (Some (event_of LS_EVENT_ERROR LS_PRIORITY_CRITICAL 5 0 (Some (str "nav")) 3 LS_SEVERITY_ERROR None LS_CAPTURE_METADATA))
  (demo_state demo_retained).

Lemma capture_stores_event_witness :
  fst demo_capture = LS_OK /\ co_capturing (core_of (snd demo_capture)) = false /\
  exists s e, 0 <= s < slot_limit_for_priority LS_PRIORITY_CRITICAL /\ entry_in (medium demo_boot_storage (spool_state (snd demo_capture))) s = Some e.
Proof.
  pose proof (capture_stores_event (str "b1") demo_config demo_boot_storage demo_memory demo_stack demo_capacity demo_stack_size
    (event_of LS_EVENT_ERROR LS_PRIORITY_CRITICAL 5 0 (Some (str "nav")) 3 LS_SEVERITY_ERROR None LS_CAPTURE_METADATA)
    (demo_state demo_retained) (fst demo_capture) (snd demo_capture)) as H.
  destruct H as (_ & H2 & H3).
  - apply runtime_capturable; [exact (demo_state_ok demo_retained)|reflexivity|split; discriminate|discriminate].
  - reflexivity.
  - apply surjective_pairing.
  - assert (fst demo_capture = LS_OK) as Hr by (vm_compute; reflexivity). split; [exact Hr|]. split; [exact H2|].
    destruct H3 as [[_ H3]|(base & t' & s & data & i & _ & _ & H4 & _ & H5 & _)].
    + destruct (H3 Hr) as [_ Hp]. exfalso. revert Hp. vm_compute. discriminate.
    + exists s. eexists. split; [exact H4|exact H5].
Defined.

(** A fault of that device, with its storage working. *)
Definition demo_context : ls_arch_context_t := riscv64_context_to_arch
  {| rv_x := map Z.of_nat (List.seq 100 32); rv_mstatus := 1; rv_mcause := 2; rv_mtval := 3; rv_mepc := 0x20001000 |} LS_FAULT_TRAP.

Definition demo_crash := ls_capture_cpu_context (str "b1") demo_config (Some demo_boot_storage) demo_memory true demo_stack
  (Some demo_context) (demo_state demo_retained).

Lemma demo_context_ok : snapshot_ok (context_record (rm_build_hash demo_retained) demo_context).
Proof.
  split; try reflexivity.
  unfold minimal_words. cbn -[is_u32]. repeat (apply List.Forall_cons; [vm_compute; split; [discriminate|reflexivity]|]).
  apply List.Forall_nil.
Qed.

Lemma crash_leaves_evidence_witness : fst demo_crash = LS_OK /\
  exists s e, 0 <= s < slot_limit_for_priority LS_PRIORITY_EMERGENCY /\ entry_in (medium demo_boot_storage (spool_state (snd demo_crash))) s = Some e.
Proof.
  pose proof (crash_leaves_evidence (str "b1") demo_config demo_boot_storage demo_memory true demo_stack demo_capacity demo_stack_size
    demo_context (demo_state demo_retained) (fst demo_crash) (snd demo_crash)) as H.
  destruct H as (_ & H).
  - exact (demo_state_ok demo_retained).
  - reflexivity.
  - exact demo_context_ok.
  - reflexivity.
  - unfold demo_crash. apply surjective_pairing.
  - assert (fst demo_crash = LS_OK) as Hr by (vm_compute; reflexivity). split; [exact Hr|].
    rewrite Hr in H. destruct H as (q & now & _ & _ & base & t' & s & data & i & _ & _ & H4 & _ & H5 & _).
    exists s. eexists. split; [exact H4|exact H5].
Defined.

(** The next boot, when a snapshot was retained instead. *)
Definition demo_kept : retained :=
  run (ls_capture_minimal_context_fault true (Some demo_context) demo_retained) demo_retained.

Definition demo_recover := ls_capture_minimal_recover (str "b1") demo_config (Some demo_boot_storage) demo_memory true demo_stack
  (demo_state demo_kept).

Lemma snapshot_recovered_witness : fst demo_recover = LS_OK /\
  ls_minimal_snapshot_read (co_retained (core_of (snd demo_recover))) = None /\
  exists s e, 0 <= s < slot_limit_for_priority LS_PRIORITY_EMERGENCY /\ entry_in (medium demo_boot_storage (spool_state (snd demo_recover))) s = Some e.
Proof.
  destruct (context_fault_read true demo_context demo_retained demo_context_ok eq_refl) as (found & Hf & _).
  pose proof (snapshot_recovered (str "b1") demo_config demo_boot_storage demo_memory true demo_stack demo_capacity demo_stack_size
    found (demo_state demo_kept) (fst demo_recover) (snd demo_recover)) as H.
  destruct H as (_ & H).
  - exact (demo_state_ok demo_kept).
  - reflexivity.
  - vm_compute. reflexivity.
  - exact Hf.
  - unfold demo_recover. apply surjective_pairing.
  - assert (fst demo_recover = LS_OK) as Hr by (vm_compute; reflexivity). split; [exact Hr|].
    rewrite Hr in H. destruct H as (H1 & now & base & t' & s & data & i & _ & _ & H4 & _ & H5 & _). split; [exact H1|].
    rewrite (proj2 (proj2 (recovered_event_shape (str "b1") demo_config true now found (co_retained (core_of (demo_state demo_kept)))))) in H4.
    exists s. eexists. split; [exact H4|exact H5].
Defined.

(** And after a brown-out. *)
Definition demo_sealed : retained := run (ls_powerfail_seal 2 2900 7 demo_retained) demo_retained.

Definition demo_unseal := ls_powerfail_recover (str "b1") demo_config (Some demo_boot_storage) demo_memory demo_stack
  (demo_state demo_sealed).

Lemma demo_sealed_window : forall b, rm_backup demo_sealed = Some b -> bytes_ok b.
Proof.
  intros b [= <-]. assert (forallb (fun v => (0 <=? v) && (v <? 256)) (default [] (rm_backup demo_sealed)) = true) as H by (vm_compute; reflexivity).
  apply List.Forall_forall. intros v Hv. apply (proj1 (List.forallb_forall _ _) H) in Hv. unfold is_u8. blia.
Qed.

Lemma seal_recovered_witness : fst demo_unseal = LS_OK /\
  sealed_read_retained (co_retained (core_of (snd demo_unseal))) = None /\
  exists s e, 0 <= s < slot_limit_for_priority LS_PRIORITY_EMERGENCY /\ entry_in (medium demo_boot_storage (spool_state (snd demo_unseal))) s = Some e.
Proof.
  assert (exists bytes, sealed_read_retained demo_sealed = Some bytes) as [bytes Hb] by (eexists; vm_compute; reflexivity).
  pose proof (seal_recovered (str "b1") demo_config demo_boot_storage demo_memory demo_stack demo_capacity demo_stack_size
    bytes (demo_state demo_sealed) (fst demo_unseal) (snd demo_unseal)) as H.
  destruct H as (_ & H).
  - exact (demo_state_ok demo_sealed).
  - reflexivity.
  - vm_compute. reflexivity.
  - exact demo_sealed_window.
  - exact Hb.
  - unfold demo_unseal. apply surjective_pairing.
  - assert (fst demo_unseal = LS_OK) as Hr by (vm_compute; reflexivity). split; [exact Hr|].
    rewrite Hr in H. destruct H as (H1 & now & base & t' & s & data & i & _ & _ & H4 & _ & H5 & _). split; [exact H1|].
    exists s. eexists. split; [exact H4|exact H5].
Defined.
