(* ===== verification/SecureStorage.v ===== *)
(** * Encrypted storage ([src/storage/secure_storage.c])

    One logical image kept encrypted and authenticated in a raw backend, read and written
    through a workspace that is wiped after each operation. *)

From S2P Require Import Prelude Util Sha256 Aead Envelope Security FaultInjection Storage FlashLayer Encode Payload EncodeFacts.

Definition SECURE_STORAGE_MAGIC : Z := 0x5353534c.
Definition SECURE_STORAGE_VERSION : Z := 1.

(** [sizeof(secure_header_t)], and the offsets of its members. *)
Definition secure_header_size : Z := 48.
Definition offset_key_id : Z := 8.
Definition offset_generation : Z := 12.
Definition offset_length : Z := 16.
Definition offset_nonce : Z := 20.
Definition offset_header_crc : Z := 44.

Definition ls_secure_storage_sealed_size (logical_capacity : Z) : Z :=
  let overhead := secure_header_size + 4 + LS_AEAD_TAG_SIZE in
  if SIZE_MAX - overhead <? logical_capacity then 0 else overhead + logical_capacity.

(** The structure. [ss_ready] tells whether the callbacks of [backend] are set, and
    [ss_attached] whether [storage] is; the workspace is [None] while its pointer is not
    set, and its length is [workspace_size]. *)
Record ls_secure_storage_t (X : Type) : Type := mk_secure {
  ss_ready : bool;
  ss_attached : bool;
  ss_workspace : option (list Z);
  ss_logical_capacity : Z;
  ss_sealed_size : Z;
  ss_key : list Z;
  ss_last_nonce : list Z;
  ss_key_id : Z;
  ss_generation : Z;
  ss_has_last_nonce : bool;
  ss_random : option (Z -> st X (res (list Z)))
}.
Arguments mk_secure {X} _ _ _ _ _ _ _ _ _ _ _.
Arguments ss_ready {X} _.
Arguments ss_attached {X} _.
Arguments ss_workspace {X} _.
Arguments ss_logical_capacity {X} _.
Arguments ss_sealed_size {X} _.
Arguments ss_key {X} _.
Arguments ss_last_nonce {X} _.
Arguments ss_key_id {X} _.
Arguments ss_generation {X} _.
Arguments ss_has_last_nonce {X} _.
Arguments ss_random {X} _.

Section Secure.
Context {X D : Type} (raw : ls_storage_backend_t (platform D)).
Local Abbreviation secure_t := (ls_secure_storage_t X).

Definition with_ready (v : bool) (s : secure_t) : secure_t :=
  mk_secure v (ss_attached s) (ss_workspace s) (ss_logical_capacity s) (ss_sealed_size s) (ss_key s) (ss_last_nonce s)
    (ss_key_id s) (ss_generation s) (ss_has_last_nonce s) (ss_random s).
Definition with_workspace (v : list Z) (s : secure_t) : secure_t :=
  mk_secure (ss_ready s) (ss_attached s) (Some v) (ss_logical_capacity s) (ss_sealed_size s) (ss_key s) (ss_last_nonce s)
    (ss_key_id s) (ss_generation s) (ss_has_last_nonce s) (ss_random s).
Definition with_key (key : list Z) (key_id : Z) (s : secure_t) : secure_t :=
  mk_secure (ss_ready s) (ss_attached s) (ss_workspace s) (ss_logical_capacity s) (ss_sealed_size s) key (ss_last_nonce s)
    key_id (ss_generation s) (ss_has_last_nonce s) (ss_random s).
Definition with_generation (generation : Z) (nonce : list Z) (has : bool) (s : secure_t) : secure_t :=
  mk_secure (ss_ready s) (ss_attached s) (ss_workspace s) (ss_logical_capacity s) (ss_sealed_size s) (ss_key s) nonce
    (ss_key_id s) generation has (ss_random s).

(** The structure in RAM beside the crypto runtime, over the raw device. *)
Definition sstate : Type := platform ((secure_t * security_runtime X) * D).

Definition secure_of (p : sstate) : secure_t := fst (ram p).
Definition crypto_of (p : sstate) : security_runtime X := snd (ram p).
Definition workspace (p : sstate) : list Z := default [] (ss_workspace (secure_of p)).

Definition set_secure (f : secure_t -> secure_t) (p : sstate) : sstate :=
  set_dev ((f (secure_of p), crypto_of p), snd (dev p)) p.
Definition on_crypto {A} (f : st (security_runtime X) A) : st sstate A := fun p =>
  let '(a, s) := f (crypto_of p) in (a, set_dev ((secure_of p, s), snd (dev p)) p).

Definition set_workspace (v : list Z) : sstate -> sstate := set_secure (with_workspace v).
(** [ls_secure_zero] of the workspace, and of [n] bytes at [off] in it. *)
Definition wipe_workspace (p : sstate) : sstate := set_workspace (fill (zlen (workspace p)) 0) p.
Definition wipe_part (off n : Z) (p : sstate) : sstate := set_workspace (splice off (fill n 0) (workspace p)) p.

(** ** Headers *)

Definition header_fields (key_id generation length_ : Z) (nonce : list Z) : list Z :=
  le 4 SECURE_STORAGE_MAGIC ++ le 4 SECURE_STORAGE_VERSION ++ le 4 key_id ++ le 4 generation ++ le 4 length_ ++ nonce.

Definition header_crc (header : list Z) : Z := ls_crc32 (slice 0 offset_header_crc header).

(** The header with its checksum. *)
Definition secure_header (key_id generation length_ : Z) (nonce : list Z) : list Z :=
  let fields := header_fields key_id generation length_ nonce in fields ++ le 4 (header_crc fields).

Definition storage_label : list Z := str "laststate/latch/storage/v1".

Definition derive_key (key : list Z) (key_id generation : Z) : st (security_runtime X) (res (list Z)) :=
  ls_crypto_hkdf_sha256 (le 4 key_id ++ le 4 generation) key storage_label 32.

(** [load_image]; the sealed image is decrypted in place in the workspace. *)
Definition load_image : st sstate ls_result_t := fun p =>
  let s := secure_of p in
  let '(r, p) := raw_read raw 0 (ss_sealed_size s) p in
  match r with
  | Err e => (e, p)
  | Ok image =>
      let p := set_workspace (splice 0 image (workspace p)) p in
      let header := slice 0 secure_header_size image in
      if negb (read_u32 header 0 =? SECURE_STORAGE_MAGIC) || negb (read_u32 header 4 =? SECURE_STORAGE_VERSION) ||
         negb (read_u32 header offset_key_id =? ss_key_id s) ||
         negb (read_u32 header offset_length =? ss_logical_capacity s) ||
         negb (read_u32 header offset_header_crc =? header_crc header)
      then (LS_ECORRUPT, p)
      else
        let ciphertext := slice secure_header_size (ss_logical_capacity s) image in
        let at_crc := secure_header_size + ss_logical_capacity s in
        if negb (read_u32 image at_crc =? ls_crc32 ciphertext) then (LS_ECORRUPT, p)
        else
          let generation := read_u32 header offset_generation in
          let nonce := slice offset_nonce 24 header in
          let failed e p := (e, wipe_part secure_header_size (ss_logical_capacity s) p) in
          let '(derived, p) := on_crypto (derive_key (ss_key s) (ss_key_id s) generation) p in
          match derived with
          | Err e => failed e p
          | Ok derived =>
              let '(r, p) := on_crypto (ls_crypto_xchacha20_poly1305_decrypt derived nonce header ciphertext SET
                                          (slice (at_crc + 4) LS_AEAD_TAG_SIZE image)) p in
              match r with
              | Err e => failed e p
              | Ok plaintext =>
                  let p := set_workspace (splice secure_header_size plaintext (workspace p)) p in
                  (LS_OK, set_secure (with_generation generation nonce true) p)
              end
          end
  end.

(** [seal_image]: encrypts the plaintext in the workspace and stores the image. *)
Definition seal_image : st sstate ls_result_t := fun p =>
  let s := secure_of p in
  let generation := inc32 (ss_generation s) in
  let '(r, p) := match ss_random s with
                 | Some random => on_crypto (on_world (random LS_XCHACHA20_NONCE_SIZE)) p
                 | None => (Err LS_ENOTSUP, p)
                 end in
  match r with
  | Err e => (e, wipe_workspace p)
  | Ok nonce =>
      if ss_has_last_nonce s && ls_constant_time_equal nonce (ss_last_nonce s) then (LS_EAUTH, wipe_workspace p)
      else
        let header := secure_header (ss_key_id s) generation (ss_logical_capacity s) nonce in
        let p := set_workspace (splice 0 header (workspace p)) p in
        let plaintext := slice secure_header_size (ss_logical_capacity s) (workspace p) in
        let '(derived, p) := on_crypto (derive_key (ss_key s) (ss_key_id s) generation) p in
        match derived with
        | Err e => (e, wipe_workspace p)
        | Ok derived =>
            let '(sealed, p) := on_crypto (ls_crypto_xchacha20_poly1305_encrypt derived nonce header plaintext) p in
            match sealed with
            | Err e => (e, wipe_workspace p)
            | Ok (ciphertext, tag) =>
                let p := set_workspace (splice secure_header_size (ciphertext ++ le 4 (ls_crc32 ciphertext) ++ tag)
                                          (workspace p)) p in
                let '(r, p) := (on_raw (write raw 0 (slice 0 (ss_sealed_size s) (workspace p))) ;;? raw_sync raw) p in
                let p := if is_ok r then set_secure (with_generation generation nonce true) p else p in
                (r, wipe_workspace p)
            end
        end
  end.

(** ** The backend's callbacks *)

Definition out_of_bounds (s : secure_t) (offset length_ : Z) : bool :=
  (ss_logical_capacity s <? offset) || (ss_logical_capacity s - offset <? length_).

Definition secure_read (offset length_ : Z) : st sstate (res (list Z)) := fun p =>
  if out_of_bounds (secure_of p) offset length_ then (Err LS_EINVAL, p)
  else
    let '(r, p) := load_image p in
    let bytes := slice (secure_header_size + offset) length_ (workspace p) in
    (if is_ok r then Ok bytes else Err r, wipe_workspace p).

(** [source] is [None] to erase. *)
Definition secure_update (offset length_ : Z) (source : option (list Z)) : st sstate ls_result_t := fun p =>
  if out_of_bounds (secure_of p) offset length_ then (LS_EINVAL, p)
  else
    let '(r, p) := load_image p in
    if negb (is_ok r) then (r, wipe_workspace p)
    else
      let bytes := match source with Some data => data | None => fill length_ 0xff end in
      seal_image (set_workspace (splice (secure_header_size + offset) bytes (workspace p)) p).

Definition secure_write (offset : Z) (data : list Z) : st sstate ls_result_t := secure_update offset (zlen data) (Some data).
Definition secure_erase (offset length_ : Z) : st sstate ls_result_t := secure_update offset length_ None.
Definition secure_sync : st sstate ls_result_t := fun p =>
  if negb (ss_attached (secure_of p)) then (LS_EINVAL, p) else raw_sync raw p.

Definition secure_backend (logical_capacity : Z) : ls_storage_backend_t sstate :=
  Build_ls_storage_backend_t logical_capacity 1 1 secure_read secure_write (Some secure_erase) (Some secure_sync).

(** ** Initialisation, destruction and rotation *)

(** [ls_secure_storage_init]; [secure] and [storage] tell whether these pointers are set. *)
Definition ls_secure_storage_init (secure storage : ptr) (work : option (list Z)) (logical_capacity : Z)
    (key : option (list Z)) (key_id : Z) (random : option (Z -> st X (res (list Z)))) : st sstate ls_result_t := fun p =>
  match work, key, random with
  | Some work, Some key, Some _ =>
      if negb secure || negb storage || (logical_capacity =? 0) || (logical_capacity >? UINT32_MAX) || (key_id =? 0)
      then (LS_EINVAL, p)
      else
        let sealed_size := ls_secure_storage_sealed_size logical_capacity in
        if sealed_size =? 0 then (LS_EOVERFLOW, p)
        else if (zlen work <? sealed_size) || (capacity raw <? sealed_size) then (LS_ENOSPACE, p)
        else
          let p := set_secure (fun _ => mk_secure false true (Some work) logical_capacity sealed_size key (fill 24 0) key_id 0
                                 false random) p in
          let '(r, p) := raw_read raw 0 secure_header_size p in
          match r with
          | Err e => (e, p)
          | Ok header =>
              if read_u32 header 0 =? SECURE_STORAGE_MAGIC then
                let '(r, p) := load_image p in
                let p := wipe_workspace p in
                (r, if is_ok r then set_secure (with_ready true) p else p)
              else if negb (forallb (fun v => v =? 0xff) header)
              then (LS_ECORRUPT, set_secure (with_key (fill 32 0) key_id) p)
              else
                let p := set_workspace (splice 0 (fill secure_header_size 0 ++ fill logical_capacity 0xff) (workspace p)) p in
                let '(r, p) := seal_image p in
                (r, if is_ok r then set_secure (with_ready true) p else p)
          end
  | _, _, _ => (LS_EINVAL, p)
  end.

Definition ls_secure_storage_destroy (secure : ptr) : sstate -> sstate := fun p =>
  if negb secure then p
  else
    let p := set_secure (fun s => with_key (fill LS_SECURITY_KEY_SIZE 0) (ss_key_id s) s) p in
    let p := match ss_workspace (secure_of p) with Some _ => wipe_workspace p | None => p end in
    set_secure (with_ready false) p.

Definition ls_secure_storage_rotate_key (secure : ptr) (new_key : option (list Z)) (new_key_id : Z) : st sstate ls_result_t :=
  fun p =>
  match new_key, ss_workspace (secure_of p) with
  | Some new_key, Some _ =>
      if negb secure || (new_key_id =? 0) || (new_key_id =? ss_key_id (secure_of p)) || negb (ss_attached (secure_of p))
      then (LS_EINVAL, p)
      else
        let '(r, p) := load_image p in
        if negb (is_ok r) then (r, wipe_workspace p)
        else
          let old := secure_of p in
          let '(r, p) := seal_image (set_secure (with_key new_key new_key_id) p) in
          (r, if is_ok r then p
              else set_secure (fun s => with_generation (ss_generation old) (ss_last_nonce old) (ss_has_last_nonce old)
                                          (with_key (ss_key old) (ss_key_id old) s)) p)
  | _, _ => (LS_EINVAL, p)
  end.
End Secure.

(** ** The built-in primitives *)

Section Builtin.
Context {X : Type} (s : security_runtime X) (none : s_provider s = None).

Lemma builtin_derives salt ikm info n :
  ls_crypto_hkdf_sha256 salt ikm info n s =
    (ls_hkdf_sha256 (Some salt) (zlen salt) (Some ikm) (zlen ikm) (Some info) (zlen info) SET n, s).
Proof using none.
  unfold ls_crypto_hkdf_sha256.
  cbn [require_provider_if_configured ls_security_crypto_provider_ready LS_REQUIRE_EXTERNAL_CRYPTO_PROVIDER is_ok negb].
  by rewrite none.
Qed.

Lemma builtin_opens key nonce aad ct out tag :
  ls_crypto_xchacha20_poly1305_decrypt key nonce aad ct out tag s = (open key nonce aad ct out tag, s).
Proof using none.
  unfold ls_crypto_xchacha20_poly1305_decrypt.
  cbn [require_provider_if_configured ls_security_crypto_provider_ready LS_REQUIRE_EXTERNAL_CRYPTO_PROVIDER is_ok negb].
  by rewrite none.
Qed.
End Builtin.

(** What opens was sealed. *)
Lemma open_sealed key nonce aad ct tag pt : bytes_ok aad -> bytes_ok ct -> bytes_ok tag -> zlen tag = 16 ->
  open key nonce aad ct SET tag = Ok pt -> seal key nonce aad pt = Ok (ct, tag) /\ zlen pt = zlen ct /\ bytes_ok pt.
Proof.
  intros Ha Hc Ht Hz H. rewrite open_spec in H by done. case_bool_decide as Et; [|done]. injection H as <-.
  assert (bytes_ok (xchacha_stream key nonce ct)) as Hb by by apply stream_bytes.
  rewrite Aead.seal_spec, stream_involutive, <- Et by done. split; [done|]. split; [apply stream_zlen|done].
Qed.

Lemma open_no_ok key nonce aad ct out tag : open key nonce aad ct out tag <> Err LS_OK.
Proof.
  unfold open, ls_xchacha20_poly1305_decrypt, ls_chacha20_poly1305_decrypt. cbv zeta. repeat (case_match; try discriminate).
Qed.

#[local] Opaque seal open ls_hkdf_sha256.
#[local] Opaque ls_crypto_hkdf_sha256 ls_crypto_xchacha20_poly1305_encrypt ls_crypto_xchacha20_poly1305_decrypt.

(** ** Sealed images *)

Lemma decrypt_world {X} key nonce aad ct out tag (s : security_runtime X) :
  world_only s (snd (ls_crypto_xchacha20_poly1305_decrypt key nonce aad ct out tag s)).
Proof.
  with_strategy transparent [ls_crypto_xchacha20_poly1305_decrypt] unfold ls_crypto_xchacha20_poly1305_decrypt.
  cbn [require_provider_if_configured ls_security_crypto_provider_ready LS_REQUIRE_EXTERNAL_CRYPTO_PROVIDER is_ok negb].
  destruct (s_provider s) as [p|]; [|apply world_only_refl]. destruct (cp_decrypt p); [|apply world_only_refl].
  apply on_world_only.
Qed.

Lemma secure_header_zlen key_id generation n nonce : zlen nonce = 24 -> zlen (secure_header key_id generation n nonce) = 48.
Proof. intros Hn. unfold secure_header, header_fields. rewrite !zlen_app. repeat rewrite zlen_le. lia. Qed.

Lemma secure_header_bytes key_id generation n nonce : bytes_ok nonce -> bytes_ok (secure_header key_id generation n nonce).
Proof. intros Hn. unfold secure_header, header_fields. rewrite !bytes_ok_app. split_and!; done || apply bytes_ok_le. Qed.

(** A header is recognised, and its members read back. *)
Lemma secure_header_reads key_id generation n nonce : is_u32 key_id -> is_u32 generation -> is_u32 n -> zlen nonce = 24 ->
  let h := secure_header key_id generation n nonce in
  read_u32 h 0 = SECURE_STORAGE_MAGIC /\ read_u32 h 4 = SECURE_STORAGE_VERSION /\ read_u32 h offset_key_id = key_id /\
  read_u32 h offset_generation = generation /\ read_u32 h offset_length = n /\ slice offset_nonce 24 h = nonce /\
  read_u32 h offset_header_crc = header_crc h.
Proof.
  intros Hk Hg Hl Hn h. unfold h, secure_header. cbv zeta. set (f := header_fields key_id generation n nonce).
  assert (zlen f = 44) as Zf by (unfold f, header_fields; rewrite !zlen_app; repeat rewrite zlen_le; lia).
  assert (is_u32 SECURE_STORAGE_MAGIC /\ is_u32 SECURE_STORAGE_VERSION) as [Hm Hv] by (split; vm_compute; (split; [discriminate|reflexivity])).
  assert (header_crc (f ++ le 4 (header_crc f)) = header_crc f) as Ec.
  { unfold header_crc, offset_header_crc. f_equal. rewrite slice_prefix by done.
    pose proof (slice_prefix f [] 44 ltac:(lia)) as E. by rewrite app_nil_r in E. }
  rewrite Ec. set (c := header_crc f) in *. unfold offset_key_id, offset_generation, offset_length, offset_nonce, offset_header_crc.
  assert (is_u32 c) as Hc by apply crc32_range.
  assert (f ++ le 4 c = [] ++ le 4 SECURE_STORAGE_MAGIC ++ (le 4 SECURE_STORAGE_VERSION ++ le 4 key_id ++ le 4 generation ++ le 4 n ++ nonce) ++ le 4 c)
    as E0 by (unfold f, header_fields; by rewrite <- !app_assoc).
  assert (f ++ le 4 c = le 4 SECURE_STORAGE_MAGIC ++ le 4 SECURE_STORAGE_VERSION ++ (le 4 key_id ++ le 4 generation ++ le 4 n ++ nonce) ++ le 4 c)
    as E1 by (unfold f, header_fields; by rewrite <- !app_assoc).
  assert (f ++ le 4 c = (le 4 SECURE_STORAGE_MAGIC ++ le 4 SECURE_STORAGE_VERSION) ++ le 4 key_id ++ (le 4 generation ++ le 4 n ++ nonce) ++ le 4 c)
    as E2 by (unfold f, header_fields; by rewrite <- !app_assoc).
  assert (f ++ le 4 c = (le 4 SECURE_STORAGE_MAGIC ++ le 4 SECURE_STORAGE_VERSION ++ le 4 key_id) ++ le 4 generation ++ (le 4 n ++ nonce) ++ le 4 c)
    as E3 by (unfold f, header_fields; by rewrite <- !app_assoc).
  assert (f ++ le 4 c = (le 4 SECURE_STORAGE_MAGIC ++ le 4 SECURE_STORAGE_VERSION ++ le 4 key_id ++ le 4 generation) ++ le 4 n ++ nonce ++ le 4 c)
    as E4 by (unfold f, header_fields; by rewrite <- !app_assoc).
  assert (f ++ le 4 c = (le 4 SECURE_STORAGE_MAGIC ++ le 4 SECURE_STORAGE_VERSION ++ le 4 key_id ++ le 4 generation ++ le 4 n) ++ nonce ++ le 4 c)
    as E5 by (unfold f, header_fields; by rewrite <- !app_assoc).
  assert (f ++ le 4 c = f ++ le 4 c ++ []) as E6 by (by rewrite app_nil_r).
  split_and!;
    [rewrite E0|rewrite E1|rewrite E2|rewrite E3|rewrite E4|rewrite E5|rewrite E6];
    (apply read_u32_at || apply slice_middle); try done; rewrite ?zlen_app; repeat rewrite zlen_le; lia.
Qed.

(** [c] holds the image of [pt]: whoever has the key and a provider of the same kind
    decrypts it to [pt]. *)
Definition image_of {X} (provider : option (ls_crypto_provider_t X)) (key : list Z) (key_id generation : Z) (nonce ct tag pt : list Z) : Prop :=
  is_u32 generation /\ zlen nonce = 24 /\ bytes_ok nonce /\ zlen ct = zlen pt /\ bytes_ok ct /\ zlen tag = 16 /\ bytes_ok tag /\
  exists derived,
    (forall t : security_runtime X, s_provider t = provider -> fst (derive_key key key_id generation t) = Ok derived) /\
    (forall t : security_runtime X, s_provider t = provider ->
       fst (ls_crypto_xchacha20_poly1305_decrypt derived nonce (secure_header key_id generation (zlen pt) nonce) ct SET tag t) = Ok pt).

Definition image_bytes (key_id generation : Z) (nonce ct tag : list Z) : list Z :=
  secure_header key_id generation (zlen ct) nonce ++ ct ++ le 4 (ls_crc32 ct) ++ tag.

Lemma image_bytes_zlen key_id generation nonce ct tag : zlen nonce = 24 -> zlen tag = 16 ->
  zlen (image_bytes key_id generation nonce ct tag) = 68 + zlen ct.
Proof. intros Hn Ht. unfold image_bytes. rewrite !zlen_app, secure_header_zlen, zlen_le by done. lia. Qed.

Lemma image_bytes_ok key_id generation nonce ct tag : bytes_ok nonce -> bytes_ok ct -> bytes_ok tag ->
  bytes_ok (image_bytes key_id generation nonce ct tag).
Proof.
  intros. unfold image_bytes. rewrite !bytes_ok_app. split_and!; try done; [by apply secure_header_bytes|apply bytes_ok_le].
Qed.

(** What [load_image] looks at in an image. *)
Lemma image_reads key_id generation nonce ct tag : is_u32 key_id -> is_u32 generation -> is_u32 (zlen ct) -> zlen nonce = 24 ->
  zlen tag = 16 ->
  let img := image_bytes key_id generation nonce ct tag in
  slice 0 secure_header_size img = secure_header key_id generation (zlen ct) nonce /\
  slice secure_header_size (zlen ct) img = ct /\
  read_u32 img (secure_header_size + zlen ct) = ls_crc32 ct /\
  slice (secure_header_size + zlen ct + 4) LS_AEAD_TAG_SIZE img = tag.
Proof.
  intros Hk Hg Hc Zn Ztag img. change secure_header_size with 48. set (h := secure_header key_id generation (zlen ct) nonce).
  assert (zlen h = 48) as Zh by by apply secure_header_zlen.
  assert (img = h ++ ct ++ le 4 (ls_crc32 ct) ++ tag) as Ei by done. split_and!.
  - rewrite Ei. by apply slice_prefix.
  - rewrite Ei. apply slice_middle; lia.
  - rewrite Ei, (app_assoc _ ct). apply read_u32_at; [rewrite zlen_app; lia|apply crc32_range].
  - assert (img = (h ++ ct ++ le 4 (ls_crc32 ct)) ++ tag ++ []) as -> by (rewrite Ei; by rewrite app_nil_r, <- !app_assoc).
    apply slice_middle; rewrite ?zlen_app, ?zlen_le; unfold LS_AEAD_TAG_SIZE; lia.
Qed.

Lemma slice_word l o : bytes_ok l -> 0 <= o -> o + 4 <= zlen l -> slice o 4 l = le 4 (read_u32 l o).
Proof.
  intros Hb Ho Hz. unfold read_u32. rewrite <- (le_le_get (slice o 4 l)) at 1 by by apply bytes_ok_slice. f_equal.
  rewrite length_slice by lia. done.
Qed.

(** A header that passes the checks is the one that was written. *)
Lemma secure_header_parse h : bytes_ok h -> zlen h = 48 -> read_u32 h 0 = SECURE_STORAGE_MAGIC ->
  read_u32 h 4 = SECURE_STORAGE_VERSION -> read_u32 h offset_header_crc = header_crc h ->
  h = secure_header (read_u32 h offset_key_id) (read_u32 h offset_generation) (read_u32 h offset_length) (slice offset_nonce 24 h).
Proof.
  intros Hb Hz Hm Hv Hc. unfold secure_header. cbv zeta. set (f := header_fields _ _ _ _).
  assert (slice 0 44 h = f) as Hf.
  { unfold f, header_fields, offset_key_id, offset_generation, offset_length, offset_nonce. rewrite <- Hm, <- Hv.
    rewrite <- !slice_word by (done || lia). do 5 (rewrite <- slice_split by lia; cbn [Z.add Pos.add Pos.succ Pos.add_carry]). done. }
  assert (header_crc f = header_crc h) as -> by (unfold header_crc, offset_header_crc; rewrite <- Hf, slice_slice by lia; done).
  rewrite <- Hc, <- Hf, <- slice_word by (done || (unfold offset_header_crc; lia)). unfold offset_header_crc.
  change 44 with (0 + 44) at 2. rewrite <- slice_split by lia. change (44 + 4) with 48. rewrite <- Hz. symmetry. apply slice_full.
Qed.

(** So is an image. *)
Lemma image_parse img n tag ct : bytes_ok img -> zlen img = 68 + n -> 0 <= n ->
  let h := slice 0 48 img in ct = slice 48 n img -> tag = slice (48 + n + 4) 16 img ->
  read_u32 h 0 = SECURE_STORAGE_MAGIC -> read_u32 h 4 = SECURE_STORAGE_VERSION -> read_u32 h offset_header_crc = header_crc h ->
  read_u32 h offset_length = n -> read_u32 img (48 + n) = ls_crc32 ct ->
  img = image_bytes (read_u32 h offset_key_id) (read_u32 h offset_generation) (slice offset_nonce 24 h) ct tag.
Proof.
  intros Hb Hz Hn h Hct Htag Hm Hv Hc Hl Hcrc. assert (zlen ct = n) as Zct by (rewrite Hct; apply zlen_slice; lia).
  assert (zlen h = 48) as Zh by (apply zlen_slice; lia). assert (bytes_ok h) as Bh by by apply bytes_ok_slice.
  unfold image_bytes. rewrite Zct, <- Hl, <- secure_header_parse by done. rewrite <- Hcrc, <- slice_word by (done || lia).
  rewrite Hct, Htag. unfold h. rewrite <- (slice_split (48 + n)) by lia.
  rewrite <- (slice_split 48) by lia. rewrite <- (slice_split 0) by lia. rewrite <- (slice_full img) at 1. f_equal. lia.
Qed.

Section Facts.
Context {X D : Type} (raw : ls_storage_backend_t (platform D)) `{OK : !StorageOk raw}.
Implicit Types p q : @sstate X D.
Local Abbreviation medium := (medium raw).

Record random_ok (random : Z -> Prelude.st X (res (list Z))) : Prop := {
  ra_spec n x r x' : 0 <= n -> random n x = (r, x') ->
    match r with Ok bytes => zlen bytes = n /\ bytes_ok bytes | Err e => e <> LS_OK end
}.

(** What initialisation establishes and every operation keeps. *)
Record secure_ok p : Prop := {
  sk_storage : inv (snd (dev p));
  sk_capacity : 0 < ss_logical_capacity (secure_of p) <= UINT32_MAX;
  sk_sealed : ss_sealed_size (secure_of p) = 68 + ss_logical_capacity (secure_of p);
  sk_fits : ss_sealed_size (secure_of p) <= capacity raw;
  sk_workspace : exists w, ss_workspace (secure_of p) = Some w /\ bytes_ok w /\ ss_sealed_size (secure_of p) <= zlen w;
  sk_key_id : is_u32 (ss_key_id (secure_of p));
  sk_generation : is_u32 (ss_generation (secure_of p));
  sk_random random : ss_random (secure_of p) = Some random -> random_ok random;
  sk_crypto : security_ok (crypto_of p);
  sk_attached : ss_attached (secure_of p) = true
}.

(** The medium holds [pt], sealed under the structure's key. *)
Definition protects p (pt : list Z) : Prop :=
  zlen pt = ss_logical_capacity (secure_of p) /\ bytes_ok pt /\
  exists generation nonce ct tag,
    image_of (s_provider (crypto_of p)) (ss_key (secure_of p)) (ss_key_id (secure_of p)) generation nonce ct tag pt /\
    slice 0 (ss_sealed_size (secure_of p)) (medium p) = image_bytes (ss_key_id (secure_of p)) generation nonce ct tag.

(** The members no access changes. *)
Definition same_secure p q : Prop :=
  ss_logical_capacity (secure_of q) = ss_logical_capacity (secure_of p) /\
  ss_sealed_size (secure_of q) = ss_sealed_size (secure_of p) /\
  ss_key (secure_of q) = ss_key (secure_of p) /\ ss_key_id (secure_of q) = ss_key_id (secure_of p) /\
  ss_random (secure_of q) = ss_random (secure_of p) /\ ss_attached (secure_of q) = ss_attached (secure_of p) /\
  ss_ready (secure_of q) = ss_ready (secure_of p) /\
  s_provider (crypto_of q) = s_provider (crypto_of p) /\ zlen (workspace q) = zlen (workspace p).

Lemma same_secure_refl p : same_secure p p.
Proof. by split_and!. Qed.

Lemma same_secure_trans p q q' : same_secure p q -> same_secure q q' -> same_secure p q'.
Proof. intros (?&?&?&?&?&?&?&?&?) (?&?&?&?&?&?&?&?&?). split_and!; congruence. Qed.

Lemma protects_same p q pt : same_secure p q -> medium q = medium p -> protects p pt -> protects q pt.
Proof.
  intros (E1&E2&E3&E4&_&_&_&E5&_) Em (Hz & Hb & g & n & ct & tag & Hi & Hs). split; [by rewrite E1|]. split; [done|].
  exists g, n, ct, tag. by rewrite E2, E3, E4, E5, Em.
Qed.

Lemma secure_ok_same p q : secure_ok p -> same_secure p q -> inv (snd (dev q)) -> is_u32 (ss_generation (secure_of q)) ->
  security_ok (crypto_of q) -> (exists w, ss_workspace (secure_of q) = Some w /\ bytes_ok w) -> secure_ok q.
Proof.
  intros [S1 S2 S3 S4 (w & Ew & Bw & Zw) S6 S7 S8 S9 S10] (E1&E2&E3&E4&E5&E6&_&_&E7) Hi Hg Hc (w' & Ew' & Bw').
  assert (zlen w' = zlen w) as Ez by (unfold workspace in E7; rewrite Ew, Ew' in E7; exact E7).
  split; rewrite ?E1, ?E2, ?E4, ?E5, ?E6; try done; try congruence. exists w'. split_and!; [done|done|lia].
Qed.

(** A call of the crypto runtime. *)
Lemma on_crypto_inv {A} (f : Prelude.st (security_runtime X) A) p a p' : on_crypto f p = (a, p') ->
  f (crypto_of p) = (a, crypto_of p') /\ secure_of p' = secure_of p /\ snd (dev p') = snd (dev p) /\ faults p' = faults p.
Proof.
  unfold on_crypto. destruct p as [fl [[s c] d]]. cbn. destruct (f c) as [a0 c0]. intros [= <- <-]. done.
Qed.

Lemma world_only_provider (s s' : security_runtime X) : world_only s s' -> s_provider s' = s_provider s.
Proof. by intros [x ->]. Qed.

(** [wipe_workspace] at the end of an operation. *)
Lemma secure_wipe_spec p : (exists w, ss_workspace (secure_of p) = Some w) ->
  workspace (wipe_workspace p) = fill (zlen (workspace p)) 0 /\ same_secure p (wipe_workspace p) /\
  medium (wipe_workspace p) = medium p /\ (secure_ok p -> secure_ok (wipe_workspace p)).
Proof.
  intros [w Ew]. assert (same_secure p (wipe_workspace p)) as Hs.
  { split_and!; try done. unfold wipe_workspace, set_workspace, workspace at 1. cbn. rewrite zlen_fill; [done|apply zlen_nonneg]. }
  split_and!; try done. intros Hok. eapply secure_ok_same; [exact Hok|exact Hs|exact (sk_storage _ Hok)|exact (sk_generation _ Hok)|exact (sk_crypto _ Hok)|].
  eexists. split; [reflexivity|]. by apply bytes_ok_fill.
Qed.

Lemma set_workspace_ok v p : secure_ok p -> bytes_ok v -> zlen v = zlen (workspace p) ->
  secure_ok (set_workspace v p) /\ same_secure p (set_workspace v p) /\ workspace (set_workspace v p) = v.
Proof.
  intros Hok Hv Hz. assert (same_secure p (set_workspace v p)) as Hs by (split_and!; try done).
  split; [|split; [exact Hs|done]].
  eapply secure_ok_same; [exact Hok|exact Hs|exact (sk_storage _ Hok)|exact (sk_generation _ Hok)|exact (sk_crypto _ Hok)|].
  exists v. by split.
Qed.

Lemma workspace_fits p : secure_ok p -> 68 + ss_logical_capacity (secure_of p) <= zlen (workspace p) /\ bytes_ok (workspace p).
Proof. intros [_ _ S3 _ (w & Ew & Bw & Zw) _ _ _ _ _]. unfold workspace. rewrite Ew. change (default [] (Some w)) with w. split; [lia|done]. Qed.

Lemma crypto_call_ok {A} (f : Prelude.st (security_runtime X) A) p a p' : secure_ok p -> on_crypto f p = (a, p') ->
  world_only (crypto_of p) (snd (f (crypto_of p))) ->
  secure_ok p' /\ same_secure p p' /\ medium p' = medium p /\ workspace p' = workspace p /\ raw_of p' = raw_of p.
Proof.
  intros Hok H W. apply on_crypto_inv in H as (H & Es & Ed & Ef). rewrite H in W. cbn [snd] in W.
  assert (same_secure p p') as Hs.
  { unfold same_secure, workspace. rewrite !Es. by rewrite (world_only_provider _ _ W). }
  assert (workspace p' = workspace p) as Ew by (unfold workspace; by rewrite Es).
  destruct (sk_workspace _ Hok) as (w & Hw & Bw & _).
  split; [|split; [exact Hs|]].
  - eapply secure_ok_same; [exact Hok|exact Hs|rewrite Ed; exact (sk_storage _ Hok)|rewrite Es; exact (sk_generation _ Hok)| |].
    + exact (security_ok_world _ _ (sk_crypto _ Hok) W).
    + exists w. rewrite Es. by split.
  - unfold FlashLayer.medium, raw_of. rewrite Ed, Ef. done.
Qed.

Lemma set_generation_ok g n has p : secure_ok p -> is_u32 g ->
  secure_ok (set_secure (with_generation g n has) p) /\ same_secure p (set_secure (with_generation g n has) p).
Proof.
  intros Hok Hg. assert (same_secure p (set_secure (with_generation g n has) p)) as Hs by (split_and!; done). split; [|exact Hs].
  destruct (sk_workspace _ Hok) as (w & Hw & Bw & _).
  eapply secure_ok_same; [exact Hok|exact Hs|exact (sk_storage _ Hok)|exact Hg|exact (sk_crypto _ Hok)|]. by exists w.
Qed.

(** An image that was sealed is accepted, and its plaintext is in the workspace. *)
Lemma load_spec p pt r p' : secure_ok p -> protects p pt -> load_image raw p = (r, p') ->
  secure_ok p' /\ same_secure p p' /\ medium p' = medium p /\
  (r = LS_OK -> slice secure_header_size (ss_logical_capacity (secure_of p)) (workspace p') = pt) /\
  (live (raw_of p) -> r = LS_OK /\ live (raw_of p')).
Proof.
  intros Hok (Zpt & Bpt & g & n & ct & tag & (Hg & Zn & Bn & Zct & Bct & Ztag & Btag & derived & Hd & Ho) & Himg) H.
  unfold load_image in H. pose proof (sk_capacity _ Hok) as Hcap. pose proof (sk_sealed _ Hok) as Hse. pose proof (sk_fits _ Hok) as Hf.
  destruct (raw_read _ _ _ p) as [r1 p1] eqn:Er.
  apply (raw_read_spec raw) in Er as (Rr & Ri & Rm & Rb & Rne & Rl); [|exact (sk_storage _ Hok)|lia|lia|lia].
  assert (secure_of p1 = secure_of p /\ crypto_of p1 = crypto_of p) as [Es1 Ec1] by (unfold secure_of, crypto_of; by rewrite Rr).
  assert (same_secure p p1) as Hs1 by (unfold same_secure, workspace; rewrite !Es1, Ec1; by split_and!).
  assert (secure_ok p1) as Hok1.
  { destruct (sk_workspace _ Hok) as (w & Hw & Bw & _).
    eapply secure_ok_same; [exact Hok|exact Hs1|exact Ri|rewrite Es1; exact (sk_generation _ Hok)|rewrite Ec1; exact (sk_crypto _ Hok)|].
    exists w. rewrite Es1. by split. }
  destruct r1 as [image|e].
  2: { injection H as <- <-. split; [exact Hok1|]. split; [exact Hs1|]. split; [exact Rm|]. split; [congruence|].
       intros Hl. destruct (Rl Hl) as (_ & bs & [=]). }
  specialize (Rb image eq_refl). rewrite Himg in Rb. subst image. rewrite Zpt in Zct. rename Zct into Zc.
  set (img := image_bytes _ _ _ _ _) in *.
  set (s := secure_of p) in *. assert (zlen img = 68 + ss_logical_capacity s) as Zi by (unfold img; rewrite image_bytes_zlen, Zc; done).
  assert (bytes_ok img) as Bi by by apply image_bytes_ok.
  pose proof (workspace_fits _ Hok1) as [Zw Bw]. rewrite Es1 in Zw. fold s in Zw.
  set (w1 := splice 0 img (workspace p1)) in *.
  assert (zlen w1 = zlen (workspace p1)) as Zw1 by (apply zlen_splice; lia).
  assert (bytes_ok w1) as Bw1 by by apply bytes_ok_splice.
  destruct (set_workspace_ok w1 p1 Hok1 Bw1 Zw1) as (Hok2 & Hs2 & Ew2). set (p2 := set_workspace w1 p1) in *.
  assert (is_u32 (zlen ct)) as Hzc by (rewrite Zc; unfold is_u32, UINT32_MAX in *; lia).
  destruct (image_reads (ss_key_id s) g n ct tag (sk_key_id _ Hok) Hg Hzc Zn Ztag) as (I1 & I2 & I3 & I4). fold img in I1, I2, I3, I4.
  destruct (secure_header_reads (ss_key_id s) g (zlen ct) n (sk_key_id _ Hok) Hg Hzc Zn) as (F1 & F2 & F3 & F4 & F5 & F6 & F7).
  set (h := secure_header (ss_key_id s) g (zlen ct) n) in *. rewrite I1, F1, F2, F3, F4, F5, F6, F7, <- Zc, I2, I3, I4, !Z.eqb_refl in H.
  cbn [negb orb] in H. cbv zeta in H. rewrite Zc in *. change secure_header_size with 48 in *.
  destruct (on_crypto (derive_key _ _ _) p2) as [rd p3] eqn:Ed.
  pose proof (crypto_call_ok _ _ _ _ Hok2 Ed (hkdf_world _ _ _ _ _)) as (Hok3 & Hs3 & Em3 & Ew3 & Er3).
  pose proof (same_secure_trans _ _ _ Hs1 (same_secure_trans _ _ _ Hs2 Hs3)) as Hs13.
  assert (s_provider (crypto_of p2) = s_provider (crypto_of p)) as Ep2 by apply (same_secure_trans _ _ _ Hs1 Hs2).
  apply on_crypto_inv in Ed as (Ed & _). specialize (Hd _ Ep2). fold s in Hd. rewrite Ed in Hd. cbn [fst] in Hd. subst rd.
  destruct (on_crypto (ls_crypto_xchacha20_poly1305_decrypt _ _ _ _ _ _) p3) as [ro p4] eqn:Eo.
  pose proof (crypto_call_ok _ _ _ _ Hok3 Eo (decrypt_world _ _ _ _ _ _ _)) as (Hok4 & Hs4 & Em4 & Ew4 & Er4).
  pose proof (same_secure_trans _ _ _ Hs13 Hs4) as Hs14.
  assert (s_provider (crypto_of p3) = s_provider (crypto_of p)) as Ep3 by apply Hs13.
  apply on_crypto_inv in Eo as (Eo & _). specialize (Ho _ Ep3). fold s in Ho. rewrite Zpt, <- Zc in Ho. fold h in Ho. rewrite Eo in Ho. cbn [fst] in Ho. subst ro.
  assert (workspace p4 = w1) as Ew14 by (rewrite Ew4, Ew3; exact Ew2).
  rewrite Ew14 in H. set (w5 := splice 48 pt w1) in *.
  assert (zlen w5 = zlen (workspace p4)) as Zw5 by (rewrite Ew14; apply zlen_splice; lia).
  destruct (set_workspace_ok w5 p4 Hok4 ltac:(by apply bytes_ok_splice) Zw5) as (Hok5 & Hs5 & Ew5).
  destruct (set_generation_ok g n true (set_workspace w5 p4) Hok5 Hg) as (Hok6 & Hs6). injection H as <- <-.
  split; [exact Hok6|]. split; [exact (same_secure_trans _ _ _ Hs14 (same_secure_trans _ _ _ Hs5 Hs6))|].
  assert (medium (set_secure (with_generation g n true) (set_workspace w5 p4)) = medium p) as Em6.
  { change (medium p4 = medium p). rewrite Em4, Em3. exact Rm. }
  split; [exact Em6|]. split.
  - intros _. change (slice 48 (ss_logical_capacity s) w5 = pt). rewrite <- Zpt. apply slice_splice_same; lia.
  - intros Hl. split; [done|]. change (live (raw_of p4)). rewrite Er4, Er3. change (live (raw_of p1)). apply Rl, Hl.
Qed.

(** The medium, when sealing [pt] fails: as it was, or torn while the image was written. *)
Definition unsealed p p' (pt : list Z) : Prop :=
  medium p' = medium p \/
  exists generation nonce ct tag,
    image_of (s_provider (crypto_of p)) (ss_key (secure_of p)) (ss_key_id (secure_of p)) generation nonce ct tag pt /\
    torn 0 (image_bytes (ss_key_id (secure_of p)) generation nonce ct tag) (medium p) (medium p').

(** The end of an operation, with its workspace wiped. *)
Lemma finish_spec p q : secure_ok q -> same_secure p q ->
  secure_ok (wipe_workspace q) /\ same_secure p (wipe_workspace q) /\ medium (wipe_workspace q) = medium q /\
  workspace (wipe_workspace q) = fill (zlen (workspace p)) 0.
Proof.
  intros Hok Hs. destruct (sk_workspace _ Hok) as (w & Hw & _). destruct (secure_wipe_spec q (ex_intro _ w Hw)) as (W1 & W2 & W3 & W4).
  split; [by apply W4|]. split; [exact (same_secure_trans _ _ _ Hs W2)|]. split; [exact W3|].
  rewrite W1. destruct Hs as (_&_&_&_&_&_&_&_&->). done.
Qed.

(** Writing an image. *)
Lemma store_image_spec img q r q' : secure_ok q -> bytes_ok img -> zlen img = ss_sealed_size (secure_of q) ->
  (on_raw (write raw 0 img) ;;? raw_sync raw) q = (r, q') ->
  secure_ok q' /\ same_secure q q' /\ torn 0 img (medium q) (medium q') /\ (r = LS_OK -> medium q' = splice 0 img (medium q)).
Proof.
  intros Hok Bi Zi H. pose proof (sk_fits _ Hok) as Hf.
  assert (forall q1 e, on_raw (write raw 0 img) q = (e, q1) -> ram q1 = ram q /\ inv (snd (dev q1)) /\
    torn 0 img (medium q) (medium q1) /\ (e = LS_OK -> medium q1 = splice 0 img (medium q))) as Hw.
  { intros q1 e Hq. apply on_raw_inv in Hq as [Hq Hram]. split; [exact Hram|].
    apply (write_spec 0 img) in Hq as (I & T & S & _); [|exact (sk_storage _ Hok)|exact Bi|lia|lia]. by split_and!. }
  assert (ram q' = ram q /\ inv (snd (dev q')) /\ torn 0 img (medium q) (medium q') /\
    (r = LS_OK -> medium q' = splice 0 img (medium q))) as (Hr & Hi & Ht & Hm).
  { apply and_then_inv in H as [[H _]|(q1 & E1 & E2)]; [by apply Hw|].
    apply Hw in E1 as (W1 & W2 & W3 & W4). apply (raw_sync_same raw) in E2 as (R1 & R2 & R3); [|exact W2].
    split; [congruence|]. split; [done|]. rewrite R3. split; [done|]. intros _. by apply W4. }
  assert (secure_of q' = secure_of q /\ crypto_of q' = crypto_of q) as [Es Ec] by (unfold secure_of, crypto_of; by rewrite Hr).
  assert (same_secure q q') as Hs by (unfold same_secure, workspace; rewrite !Es, Ec; by split_and!). split_and!; try done.
  eapply secure_ok_same; [exact Hok|exact Hs|exact Hi|rewrite Es; exact (sk_generation _ Hok)|rewrite Ec; exact (sk_crypto _ Hok)|].
  destruct (sk_workspace _ Hok) as (w & Hww & Bw' & _). exists w. rewrite Es. by split.
Qed.

Lemma draw_spec p rn p1 : secure_ok p ->
  match ss_random (secure_of p) with
  | Some random => on_crypto (on_world (random LS_XCHACHA20_NONCE_SIZE)) p
  | None => (Err LS_ENOTSUP, p)
  end = (rn, p1) ->
  secure_ok p1 /\ same_secure p p1 /\ medium p1 = medium p /\ workspace p1 = workspace p /\
  match rn with Ok nonce => zlen nonce = 24 /\ bytes_ok nonce | Err e => e <> LS_OK end.
Proof.
  intros Hok H. destruct (ss_random _) as [random|] eqn:Er; [|injection H as <- <-; split_and!; done].
  pose proof (crypto_call_ok _ _ _ _ Hok H (on_world_only _ _)) as (H1 & H2 & H3 & H4 & _). split_and!; try done.
  apply on_crypto_inv in H as (H & _). unfold on_world in H. destruct (random _ _) as [r0 x] eqn:Ex. injection H as <- _.
  eapply (ra_spec _ (sk_random _ Hok random Er)); [|exact Ex]. done.
Qed.

Lemma secure_seal_spec p r p' : secure_ok p -> seal_image raw p = (r, p') ->
  let pt := slice secure_header_size (ss_logical_capacity (secure_of p)) (workspace p) in
  secure_ok p' /\ same_secure p p' /\ workspace p' = fill (zlen (workspace p)) 0 /\
  (r = LS_OK -> protects p' pt) /\ (r <> LS_OK -> unsealed p p' pt).
Proof.
  intros Hok H pt. unfold seal_image in H. cbv zeta in H. set (s := secure_of p) in *.
  assert (forall e q, secure_ok q -> same_secure p q -> medium q = medium p -> e <> LS_OK ->
    (e, wipe_workspace q) = (r, p') ->
    secure_ok p' /\ same_secure p p' /\ workspace p' = fill (zlen (workspace p)) 0 /\
    (r = LS_OK -> protects p' pt) /\ (r <> LS_OK -> unsealed p p' pt)) as Hfail.
  { intros e q Hq Hsq Hm He [<- <-]%pair_equal_spec. destruct (finish_spec p q Hq Hsq) as (W1 & W2 & W3 & W4).
    split_and!; try done. intros _. left. by rewrite W3. }
  assert (is_u32 (inc32 (ss_generation s))) as Hg by apply u32_range. set (g := inc32 _) in *.
  destruct (match ss_random s with Some random => _ | None => _ end) as [rn p1] eqn:En.
  destruct (draw_spec _ _ _ Hok En) as (Hok1 & Hs1 & Hm1 & Ew1 & Hn).
  destruct rn as [nonce|e]; [|exact (Hfail e p1 Hok1 Hs1 Hm1 Hn H)]. destruct Hn as [Zn Bn].
  destruct (_ && _); [exact (Hfail LS_EAUTH p1 Hok1 Hs1 Hm1 ltac:(done) H)|].
  change secure_header_size with 48 in *.
  set (h := secure_header (ss_key_id s) g (ss_logical_capacity s) nonce) in *.
  assert (zlen h = 48) as Zh by by apply secure_header_zlen. assert (bytes_ok h) as Bh by by apply secure_header_bytes.
  pose proof (workspace_fits _ Hok) as [Zw Bw]. fold s in Zw. pose proof (sk_capacity _ Hok) as Hcap. fold s in Hcap.
  rewrite Ew1 in H. set (w1 := splice 0 h (workspace p)) in *.
  assert (zlen w1 = zlen (workspace p)) as Zw1 by (apply zlen_splice; lia).
  assert (bytes_ok w1) as Bw1 by by apply bytes_ok_splice.
  destruct (set_workspace_ok w1 p1 Hok1 Bw1 ltac:(by rewrite Ew1)) as (Hok2 & Hs2 & Ew2). set (p2 := set_workspace w1 p1) in *.
  pose proof (same_secure_trans _ _ _ Hs1 Hs2) as Hs12. rewrite Ew2 in H.
  assert (slice 48 (ss_logical_capacity s) w1 = pt) as Ept.
  { unfold w1, pt. apply slice_splice_disjoint; lia. }
  rewrite Ept in H. assert (zlen pt = ss_logical_capacity s) as Zpt by (unfold pt; apply zlen_slice; lia).
  assert (bytes_ok pt) as Bpt by by apply bytes_ok_slice.
  destruct (on_crypto (derive_key _ _ _) p2) as [rd p3] eqn:Ed.
  pose proof (crypto_call_ok _ _ _ _ Hok2 Ed (hkdf_world _ _ _ _ _)) as (Hok3 & Hs3 & Em3 & Ew3 & _).
  pose proof (same_secure_trans _ _ _ Hs12 Hs3) as Hs13. apply on_crypto_inv in Ed as (Ed & _).
  assert (medium p3 = medium p) as Em13 by (rewrite Em3; exact Hm1).
  destruct rd as [derived|e]; [|exact (Hfail e p3 Hok3 Hs13 Em13 (derive_error _ _ _ _ _ _ _ (sk_crypto _ Hok2) Ed) H)].
  destruct (crypto_derives _ _ _ _ _ _ _ (sk_crypto _ Hok2) Ed) as [_ Hd].
  destruct (on_crypto (ls_crypto_xchacha20_poly1305_encrypt _ _ _ _) p3) as [re p4] eqn:Ee.
  pose proof (crypto_call_ok _ _ _ _ Hok3 Ee (encrypt_world _ _ _ _ _)) as (Hok4 & Hs4 & Em4 & Ew4 & _).
  pose proof (same_secure_trans _ _ _ Hs13 Hs4) as Hs14. apply on_crypto_inv in Ee as (Ee & _).
  assert (medium p4 = medium p) as Em14 by congruence.
  destruct re as [[ct tag]|e]; [|exact (Hfail e p4 Hok4 Hs14 Em14 (seal_error _ _ _ _ _ _ _ (sk_crypto _ Hok3) Ee) H)].
  destruct (crypto_seals _ _ _ _ _ _ _ _ (sk_crypto _ Hok3) Bh Bpt Ee) as (Zct & Bct & Ztag & Btag & _ & Ho).
  set (body := ct ++ le 4 (ls_crc32 ct) ++ tag) in *. assert (bytes_ok body) as Bb
    by (unfold body; rewrite !bytes_ok_app; split_and!; try done; apply bytes_ok_le).
  assert (zlen body = zlen ct + 20) as Zb by (unfold body; rewrite !zlen_app, zlen_le; lia).
  assert (workspace p4 = w1) as Ew14 by (rewrite Ew4, Ew3; exact Ew2). rewrite Ew14 in H.
  set (w5 := splice 48 body w1) in *.
  assert (w5 = splice 0 (h ++ body) (workspace p)) as Ew5 by (unfold w5, w1; rewrite <- Zh; apply (splice_app 0); lia).
  assert (zlen w5 = zlen (workspace p4)) as Zw5 by (rewrite Ew14; apply zlen_splice; lia).
  destruct (set_workspace_ok w5 p4 Hok4 ltac:(by apply bytes_ok_splice) Zw5) as (Hok5 & Hs5 & Ew5').
  set (p5 := set_workspace w5 p4) in *. pose proof (same_secure_trans _ _ _ Hs14 Hs5) as Hs15.
  set (img := image_bytes (ss_key_id s) g nonce ct tag).
  assert (img = h ++ body) as Ei by (unfold img, image_bytes, h, body; by rewrite Zct, Zpt).
  assert (zlen img = ss_sealed_size s) as Zi by (rewrite Ei, zlen_app, Zh, Zb; pose proof (sk_sealed _ Hok) as E; fold s in E; lia).
  assert (slice 0 (ss_sealed_size s) w5 = img) as Eimg.
  { rewrite Ew5, <- Ei, <- Zi. apply slice_splice_same; [lia|]. rewrite Zi. pose proof (sk_sealed _ Hok) as E; fold s in E; lia. }
  rewrite Ew5', Eimg in H.
  assert (image_of (s_provider (crypto_of p)) (ss_key s) (ss_key_id s) g nonce ct tag pt) as Himg.
  { split; [exact Hg|]. split; [exact Zn|]. split; [exact Bn|]. split; [exact Zct|]. split; [exact Bct|]. split; [exact Ztag|].
    split; [exact Btag|]. exists derived. split.
    - intros t Ht. apply Hd. rewrite Ht. symmetry. apply Hs12.
    - intros t Ht. rewrite Zpt. apply Ho. rewrite Ht. symmetry. apply Hs13. }
  destruct ((on_raw _ ;;? raw_sync raw) p5) as [rw p6] eqn:Ew.
  apply store_image_spec in Ew as (Hok6 & Hs56 & Ht6 & Hm6); [|exact Hok5|by apply image_bytes_ok|rewrite Zi; symmetry; apply Hs15].
  assert (medium p5 = medium p) as Em15 by exact Em14. rewrite Em15 in Ht6, Hm6.
  pose proof (same_secure_trans _ _ _ Hs15 Hs56) as Hs16.
  apply pair_equal_spec in H as [<- <-]. set (p7 := if is_ok rw then _ else _).
  assert (secure_ok p7 /\ same_secure p p7 /\ medium p7 = medium p6) as (Hok7 & Hs17 & Em7).
  { unfold p7. destruct (is_ok rw); [|by split_and!]. destruct (set_generation_ok g nonce true p6 Hok6 Hg) as [G1 G2].
    split; [exact G1|]. split; [exact (same_secure_trans _ _ _ Hs16 G2)|done]. }
  destruct (finish_spec p p7 Hok7 Hs17) as (W1 & W2 & W3 & W4). split; [exact W1|]. split; [exact W2|]. split; [exact W4|]. split.
  - intros Hr. apply (protects_same p7); [|exact W3|].
    { destruct (secure_wipe_spec p7) as (_ & W & _); [|exact W]. destruct (sk_workspace _ Hok7) as (w & Hw & _). by exists w. }
    destruct Hs17 as (T1&T2&T3&T4&_&_&_&T8&_). split; [by rewrite T1|]. split; [exact Bpt|]. exists g, nonce, ct, tag.
    rewrite T2, T3, T4, T8, Em7. split; [exact Himg|]. fold s. rewrite (Hm6 Hr), <- Zi. apply slice_splice_same; [lia|].
    pose proof (medium_zlen raw p (sk_storage _ Hok)). pose proof (sk_fits _ Hok) as E. fold s in E. change (0 + zlen img <= zlen (medium p)). lia.
  - intros _. right. exists g, nonce, ct, tag. split; [exact Himg|]. rewrite W3, Em7. exact Ht6.
Qed.

#[local] Opaque load_image seal_image.

Definition wiped p p' : Prop := workspace p' = fill (zlen (workspace p)) 0.

Lemma bounds_spec p off n : out_of_bounds (secure_of p) off n = false -> 0 <= n -> off + n <= ss_logical_capacity (secure_of p).
Proof. unfold out_of_bounds. intros H Hn. blia. Qed.

Lemma read_image_spec off n pt p r p' : secure_ok p -> protects p pt -> 0 <= off -> 0 <= n ->
  off + n <= ss_logical_capacity (secure_of p) -> secure_read raw off n p = (r, p') ->
  secure_ok p' /\ same_secure p p' /\ medium p' = medium p /\ wiped p p' /\
  match r with Ok bytes => bytes = slice off n pt | Err e => e <> LS_OK end /\
  (live (raw_of p) -> live (raw_of p') /\ exists bytes, r = Ok bytes).
Proof.
  intros Hok Hp Ho Hn Hb H. unfold secure_read in H. destruct (out_of_bounds _ _ _) eqn:E; [unfold out_of_bounds in E; blia|].
  destruct (load_image raw p) as [r1 p1] eqn:El. destruct (load_spec _ _ _ _ Hok Hp El) as (Hok1 & Hs1 & Hm1 & Hpt & Hl).
  destruct (finish_spec p p1 Hok1 Hs1) as (W1 & W2 & W3 & W4). cbv zeta in H. apply pair_equal_spec in H as [<- <-].
  split; [exact W1|]. split; [exact W2|]. split; [by rewrite W3|]. split; [exact W4|]. split.
  - destruct (is_ok r1) eqn:Er; [|by apply is_ok_false in Er]. apply is_ok_true in Er. rewrite <- (Hpt Er).
    symmetry. apply slice_slice; unfold secure_header_size; lia.
  - intros Hlv. destruct (Hl Hlv) as [-> Hl']. split; [exact Hl'|]. by eexists.
Qed.

(** The image after an update. *)
Definition updated (off n : Z) (source : option (list Z)) (pt : list Z) : list Z :=
  splice off (match source with Some data => data | None => fill n 0xff end) pt.

Lemma secure_update_spec off n source pt p r p' : secure_ok p -> protects p pt -> 0 <= off -> 0 <= n ->
  (forall data, source = Some data -> bytes_ok data /\ zlen data = n) -> secure_update raw off n source p = (r, p') ->
  secure_ok p' /\ same_secure p p' /\
  ((r = LS_EINVAL /\ p' = p /\ ss_logical_capacity (secure_of p) < off + n) \/
   (off + n <= ss_logical_capacity (secure_of p) /\ wiped p p' /\ (r = LS_OK -> protects p' (updated off n source pt)) /\
    (r <> LS_OK -> unsealed p p' (updated off n source pt)))).
Proof.
  intros Hok Hp Ho Hn Hd H. unfold secure_update in H. destruct (out_of_bounds _ _ _) eqn:E.
  { injection H as <- <-. split; [exact Hok|]. split; [apply same_secure_refl|]. left. split; [done|]. split; [done|].
    unfold out_of_bounds in E. blia. }
  apply bounds_spec in E; [|exact Hn]. destruct (load_image raw p) as [r1 p1] eqn:El.
  destruct (load_spec _ _ _ _ Hok Hp El) as (Hok1 & Hs1 & Hm1 & Hpt & _). destruct (finish_spec p p1 Hok1 Hs1) as (W1 & W2 & W3 & W4).
  destruct (is_ok r1) eqn:Er; cbn [negb] in H; cbv zeta in H.
  2: { injection H as <- <-. split; [exact W1|]. split; [exact W2|]. right. split; [exact E|]. split; [exact W4|].
       apply is_ok_false in Er. split; [done|]. intros _. left. by rewrite W3. }
  apply is_ok_true in Er. specialize (Hpt Er). unfold updated. set (data := match source with Some d => d | None => _ end) in *.
  assert (bytes_ok data /\ zlen data = n) as [Bd Zd].
  { unfold data. destruct source as [d|]; [by apply Hd|]. split; [by apply bytes_ok_fill|by apply zlen_fill]. }
  pose proof (workspace_fits _ Hok1) as [Zw Bw]. assert (ss_logical_capacity (secure_of p1) = ss_logical_capacity (secure_of p)) as Ec by apply Hs1.
  rewrite Ec in Zw. change secure_header_size with 48 in *. set (w2 := splice (48 + off) data (workspace p1)) in *.
  assert (zlen w2 = zlen (workspace p1)) as Zw2 by (apply zlen_splice; lia).
  destruct (set_workspace_ok w2 p1 Hok1 ltac:(by apply bytes_ok_splice) Zw2) as (Hok2 & Hs2 & Ew2).
  destruct (secure_seal_spec _ _ _ Hok2 H) as (Hok3 & Hs3 & Hw3 & Hp3 & Hu3). change secure_header_size with 48 in *.
  pose proof (same_secure_trans _ _ _ Hs1 Hs2) as Hs12. rewrite Ew2 in Hp3, Hu3, Hw3.
  assert (slice 48 (ss_logical_capacity (secure_of (set_workspace w2 p1))) w2 = splice off data pt) as Ept.
  { change (ss_logical_capacity (secure_of (set_workspace w2 p1))) with (ss_logical_capacity (secure_of p1)). rewrite Ec, <- Hpt.
    unfold w2. rewrite slice_splice_inside by lia. f_equal. lia. }
  rewrite Ept in Hp3, Hu3. split; [exact Hok3|]. split; [exact (same_secure_trans _ _ _ Hs12 Hs3)|]. right. split; [exact E|]. split.
  { unfold wiped. rewrite Hw3, Zw2. by destruct Hs1 as (_&_&_&_&_&_&_&_&->). }
  split; [exact Hp3|]. intros Hr. destruct Hs12 as (_&_&T3&T4&_&_&_&T8&_). specialize (Hu3 Hr). unfold unsealed in *.
  rewrite T3, T4, T8 in Hu3. change (medium (set_workspace w2 p1)) with (medium p1) in Hu3. by rewrite Hm1 in Hu3.
Qed.

#[local] Transparent load_image.

(** With the built-in primitives, what is accepted is what sealing under the key writes. *)
Definition sealed_by (key : list Z) (key_id : Z) (pt img : list Z) : Prop :=
  exists generation nonce derived ct tag,
    (forall s : security_runtime X, s_provider s = None -> fst (derive_key key key_id generation s) = Ok derived) /\
    seal derived nonce (secure_header key_id generation (zlen pt) nonce) pt = Ok (ct, tag) /\
    img = image_bytes key_id generation nonce ct tag.

Lemma load_accepts p p' : secure_ok p -> s_provider (crypto_of p) = None -> load_image raw p = (LS_OK, p') ->
  exists pt, zlen pt = ss_logical_capacity (secure_of p) /\ slice secure_header_size (zlen pt) (workspace p') = pt /\
    sealed_by (ss_key (secure_of p)) (ss_key_id (secure_of p)) pt (slice 0 (ss_sealed_size (secure_of p)) (medium p)).
Proof.
  intros Hok Hnone H. unfold load_image in H. cbv zeta in H. set (s := secure_of p) in *. pose proof (sk_capacity _ Hok) as Hcap.
  pose proof (sk_sealed _ Hok) as Hse. pose proof (sk_fits _ Hok) as Hf. fold s in Hcap, Hse, Hf.
  destruct (raw_read _ _ _ p) as [r1 p1] eqn:Er.
  apply (raw_read_spec raw) in Er as (Rr & _ & _ & Rb & Rne & _); [|exact (sk_storage _ Hok)|lia|lia|lia].
  assert (secure_of p1 = s /\ crypto_of p1 = crypto_of p) as [Es1 Ec1] by (unfold secure_of, crypto_of; by rewrite Rr).
  destruct r1 as [img|e]; [|apply pair_equal_spec in H as [-> _]; done]. specialize (Rb img eq_refl). 
  assert (bytes_ok img /\ zlen img = 68 + ss_logical_capacity s) as [Bi Zi].
  { rewrite Rb. split; [apply bytes_ok_slice, (contents_bytes (b:=raw)), (sk_storage _ Hok)|]. rewrite Hse.
    apply zlen_slice; [lia|lia|]. rewrite (medium_zlen raw p (sk_storage _ Hok)). lia. }
  rewrite <- Rb. clear Rb. set (h := slice 0 secure_header_size img) in *.
  destruct (_ || _) eqn:Eh in H; [done|].
  repeat match type of Eh with (_ || _) = false => apply orb_false_iff in Eh as [Eh ?] end.
  repeat match goal with He : negb _ = false |- _ => apply negb_false_iff, Z.eqb_eq in He end.
  destruct (negb (read_u32 img _ =? _)) eqn:Ecrc in H; [done|]. apply negb_false_iff, Z.eqb_eq in Ecrc.
  set (ct := slice secure_header_size (ss_logical_capacity s) img) in *.
  set (tag := slice (secure_header_size + ss_logical_capacity s + 4) LS_AEAD_TAG_SIZE img) in *.
  change secure_header_size with 48 in *. change LS_AEAD_TAG_SIZE with 16 in *.
  assert (zlen h = 48) as Zh by (apply zlen_slice; lia). assert (bytes_ok h) as Bh by by apply bytes_ok_slice.
  assert (zlen ct = ss_logical_capacity s) as Zc by (apply zlen_slice; lia). assert (bytes_ok ct) as Bc by by apply bytes_ok_slice.
  assert (zlen tag = 16) as Zt by (apply zlen_slice; lia). assert (bytes_ok tag) as Bt by by apply bytes_ok_slice.
  assert (h = secure_header (read_u32 h offset_key_id) (read_u32 h offset_generation) (read_u32 h offset_length) (slice offset_nonce 24 h))
    as Ehd by by apply secure_header_parse.
  assert (img = image_bytes (read_u32 h offset_key_id) (read_u32 h offset_generation) (slice offset_nonce 24 h) ct tag) as Eimg
    by (apply (image_parse img (ss_logical_capacity s) tag ct); done || lia).
  assert (read_u32 h offset_key_id = ss_key_id s) as Hk by done. assert (read_u32 h offset_length = ss_logical_capacity s) as Hl by done.
  rewrite Hk, Hl in Ehd. rewrite Hk in Eimg. set (nonce := slice offset_nonce 24 h) in *. set (g := read_u32 h offset_generation) in *.
  set (p2 := set_workspace _ p1) in H. assert (s_provider (crypto_of p2) = None) as Hn2 by (change (crypto_of p2) with (crypto_of p1); by rewrite Ec1).
  unfold derive_key, on_crypto in H. rewrite (builtin_derives _ Hn2) in H.
  destruct (ls_hkdf_sha256 _ _ _ _ _ _ _ _) as [derived|e] eqn:Ed.
  2: { apply pair_equal_spec in H as [-> _]. by apply hkdf_no_ok in Ed. }
  match type of H with context [set_dev ?d p2] => set (p3 := set_dev d p2) in H end.
  assert (s_provider (crypto_of p3) = None) as Hn3 by exact Hn2. rewrite (builtin_opens _ Hn3) in H.
  destruct (open _ _ _ _ _ _) as [pt|e] eqn:Eo; [|apply pair_equal_spec in H as [-> _]; by apply open_no_ok in Eo].
  apply open_sealed in Eo as (Hseal & Zpt & Bpt); [|done..].
  apply pair_equal_spec in H as [_ <-]. exists pt. split; [by rewrite Zpt|]. split.
  - change (slice 48 (zlen pt) (splice 48 pt (splice 0 img (workspace p1))) = pt).
    pose proof (workspace_fits _ Hok) as [Zw _]. fold s in Zw.
    assert (workspace p1 = workspace p) as -> by (unfold workspace; by rewrite Es1).
    apply slice_splice_same; [lia|]. rewrite zlen_splice by lia. lia.
  - exists g, nonce, derived, ct, tag. split.
    + intros t Ht. unfold derive_key. rewrite (builtin_derives _ Ht). exact Ed.
    + split; [|exact Eimg]. rewrite Zpt, Zc, <- Ehd. exact Hseal.
Qed.

#[local] Opaque load_image.

(** *** Initialisation *)

Record init_ok q (work : list Z) (n key_id : Z) (random : Z -> Prelude.st X (res (list Z))) : Prop := {
  io_storage : inv (snd (dev q));
  io_capacity : 0 < n <= UINT32_MAX;
  io_fits : 68 + n <= capacity raw;
  io_work : bytes_ok work /\ 68 + n <= zlen work;
  io_key_id : is_u32 key_id /\ key_id <> 0;
  io_random : random_ok random;
  io_crypto : security_ok (crypto_of q)
}.

Lemma sealed_size_value n : 0 < n -> 68 + n <= capacity raw -> ls_secure_storage_sealed_size n = 68 + n.
Proof.
  intros Hn Hf. unfold ls_secure_storage_sealed_size. pose proof (capacity_range (b:=raw)).
  change (secure_header_size + 4 + LS_AEAD_TAG_SIZE) with 68. case_if; blia.
Qed.

(** The structure after its members are set, and after the header was read. *)
Lemma init_start q work n key key_id random p1 r1 : init_ok q work n key_id random ->
  let p0 := set_secure (fun _ => mk_secure false true (Some work) n (68 + n) key (fill 24 0) key_id 0 false (Some random)) q in
  raw_read raw 0 secure_header_size p0 = (r1, p1) ->
  secure_ok p1 /\ medium p1 = medium q /\ secure_of p1 = secure_of p0 /\ crypto_of p1 = crypto_of q /\
  (forall h, r1 = Ok h -> h = slice 0 secure_header_size (medium q)) /\ r1 <> Err LS_OK /\
  (live (raw_of q) -> live (raw_of p1) /\ exists h, r1 = Ok h).
Proof.
  intros [I1 I2 I3 [I4 I4'] [I5 I5'] I6 I7] p0 H. change secure_header_size with 48 in *.
  apply (raw_read_spec raw) in H as (Rr & Ri & Rm & Rb & Rne & Rl); [|exact I1|lia|lia|lia].
  assert (secure_of p1 = secure_of p0 /\ crypto_of p1 = crypto_of q) as [Es Ec] by (unfold secure_of, crypto_of; by rewrite Rr).
  split_and!; try done. split; rewrite ?Es, ?Ec; try done.
  - exists work. by split_and!.
  - intros random' [= <-]. exact I6.
Qed.

Lemma init_existing q work n key key_id random pt r q1 : init_ok q work n key_id random ->
  zlen pt = n -> bytes_ok pt ->
  (exists generation nonce ct tag, image_of (s_provider (crypto_of q)) key key_id generation nonce ct tag pt /\
     slice 0 (68 + n) (medium q) = image_bytes key_id generation nonce ct tag) ->
  ls_secure_storage_init raw SET SET (Some work) n (Some key) key_id (Some random) q = (r, q1) ->
  secure_ok q1 /\ protects q1 pt /\ medium q1 = medium q /\
  ss_logical_capacity (secure_of q1) = n /\ (live (raw_of q) -> r = LS_OK /\ live (raw_of q1)).
Proof.
  intros Hio Zpt Bpt (g & nonce & ct & tag & Himg & Hm) H. pose proof Hio as [I1 I2 I3 I4 [I5 I5'] I6 I7].
  unfold ls_secure_storage_init in H. cbn [SET negb orb] in H. rewrite sealed_size_value in H by lia.
  destruct ((n =? 0) || _ || _) eqn:E1 in H; [blia|]. destruct (68 + n =? 0) eqn:E2 in H; [blia|].
  destruct (_ || _) eqn:E3 in H; [destruct I4; blia|].
  set (p0 := set_secure _ q) in H. destruct (raw_read _ _ _ p0) as [r1 p1] eqn:Er.
  apply (init_start q work n key key_id random) in Er as (Hok1 & Hm1 & Es1 & Ec1 & Rb & Rne & Rl); [|exact Hio].
  change (secure_of p0) with (mk_secure (X:=X) false true (Some work) n (68 + n) key (fill 24 0) key_id 0 false (Some random)) in Es1.
  assert (protects p1 pt) as Hp1.
  { unfold protects. rewrite Es1, Ec1, Hm1. split; [exact Zpt|]. split; [exact Bpt|]. by exists g, nonce, ct, tag. }
  destruct r1 as [h|e].
  2: { apply pair_equal_spec in H as [<- <-]. split; [exact Hok1|]. split; [exact Hp1|]. split; [exact Hm1|]. split; [by rewrite Es1|].
       intros Hl. destruct (Rl Hl) as (_ & h & [=]). }
  specialize (Rb h eq_refl). destruct Himg as (Hg & Zn & Bn & Zct & Bct & Ztag & Btag & _).
  assert (read_u32 h 0 = SECURE_STORAGE_MAGIC) as Hmagic.
  { assert (slice 0 48 (medium q) = slice 0 48 (slice 0 (68 + n) (medium q))) as E by (symmetry; apply slice_slice; lia).
    change secure_header_size with 48 in Rb. rewrite Rb, E, Hm.
    assert (is_u32 (zlen ct)) as Hz by (rewrite Zct, Zpt; unfold is_u32, UINT32_MAX in *; lia).
    destruct (image_reads key_id g nonce ct tag I5 Hg Hz Zn Ztag) as (Eh & _). change secure_header_size with 48 in Eh. rewrite Eh.
    by destruct (secure_header_reads key_id g (zlen ct) nonce I5 Hg Hz Zn) as (-> & _). }
  rewrite Hmagic, Z.eqb_refl in H. destruct (load_image raw p1) as [r2 p2] eqn:El.
  destruct (load_spec _ _ _ _ Hok1 Hp1 El) as (Hok2 & Hs2 & Hm2 & _ & Hl2). destruct (finish_spec p1 p2 Hok2 Hs2) as (W1 & W2 & W3 & _).
  assert (protects (wipe_workspace p2) pt) as Hp3 by (apply (protects_same p1); [exact W2|by rewrite W3|exact Hp1]).
  cbv zeta in H. apply pair_equal_spec in H as [<- <-]. set (p4 := if is_ok r2 then _ else _).
  assert (secure_ok p4 /\ protects p4 pt /\ medium p4 = medium q /\ ss_logical_capacity (secure_of p4) = n /\ raw_of p4 = raw_of p2) as (T1 & T2 & T3 & T4 & T5).
  { assert (ss_logical_capacity (secure_of (wipe_workspace p2)) = n) as Ec by (destruct W2 as [-> _]; by rewrite Es1).
    assert (medium (wipe_workspace p2) = medium q) as Em by (rewrite W3, Hm2; exact Hm1).
    unfold p4. destruct (is_ok r2); [|by split_and!]. split; [|by split_and!]. destruct W1. by split. }
  split; [exact T1|]. split; [exact T2|]. split; [exact T3|]. split; [exact T4|].
  intros Hl. destruct (Rl Hl) as [Hl1 _], (Hl2 Hl1) as [-> Hl2']. by rewrite T5.
Qed.

Lemma init_blank q work n key key_id random r q1 : init_ok q work n key_id random ->
  slice 0 secure_header_size (medium q) = fill secure_header_size 0xff ->
  ls_secure_storage_init raw SET SET (Some work) n (Some key) key_id (Some random) q = (r, q1) ->
  secure_ok q1 /\ ss_logical_capacity (secure_of q1) = n /\ (r = LS_OK -> protects q1 (fill n 0xff)).
Proof.
  intros Hio Hblank H. pose proof Hio as [I1 I2 I3 I4 [I5 I5'] I6 I7].
  unfold ls_secure_storage_init in H. cbn [SET negb orb] in H. rewrite sealed_size_value in H by lia.
  destruct ((n =? 0) || _ || _) eqn:E1 in H; [blia|]. destruct (68 + n =? 0) eqn:E2 in H; [blia|].
  destruct (_ || _) eqn:E3 in H; [destruct I4; blia|].
  set (p0 := set_secure _ q) in H. destruct (raw_read _ _ _ p0) as [r1 p1] eqn:Er.
  apply (init_start q work n key key_id random) in Er as (Hok1 & _ & Es1 & _ & Rb & Rne & _); [|exact Hio].
  assert (ss_logical_capacity (secure_of p1) = n) as Ec1 by (rewrite Es1; done).
  destruct r1 as [h|e]; [|apply pair_equal_spec in H as [<- <-]; split; [exact Hok1|]; split; [exact Ec1|congruence]].
  rewrite (Rb h eq_refl), Hblank in H.
  change (read_u32 _ 0 =? _) with false in H. change (negb _) with false in H. cbv iota in H.
  assert (workspace p1 = work) as Ew by (unfold workspace; rewrite Es1; done). rewrite Ew in H.
  set (blank := fill secure_header_size 0 ++ fill n 0xff) in H. change secure_header_size with 48 in *.
  assert (bytes_ok blank) as Bb by (unfold blank; rewrite bytes_ok_app; split; by apply bytes_ok_fill).
  assert (zlen blank = 48 + n) as Zb by (unfold blank; rewrite zlen_app, !zlen_fill by lia; lia).
  destruct I4 as [Bw Zw]. assert (zlen (splice 0 blank work) = zlen work) as Zs by (apply zlen_splice; lia).
  destruct (set_workspace_ok (splice 0 blank work) p1 Hok1 ltac:(by apply bytes_ok_splice) ltac:(by rewrite Ew)) as (Hok2 & Hs2 & Ew2).
  destruct (seal_image raw _) as [r2 p2] eqn:Es. destruct (secure_seal_spec _ _ _ Hok2 Es) as (Hok3 & Hs3 & _ & Hp3 & _).
  pose proof (same_secure_trans _ _ _ Hs2 Hs3) as [Ec3 _]. rewrite Ec1 in Ec3.
  rewrite Ew2 in Hp3. change (ss_logical_capacity (secure_of (set_workspace _ p1))) with (ss_logical_capacity (secure_of p1)) in Hp3.
  rewrite Ec1 in Hp3. change secure_header_size with 48 in Hp3.
  assert (slice 48 n (splice 0 blank work) = fill n 0xff) as Ept.
  { unfold splice. change (take (Z.to_nat 0) work) with (@nil Z). rewrite app_nil_l. generalize (drop (Z.to_nat 0 + length blank) work).
    intros rest. unfold blank. rewrite <- app_assoc. apply slice_middle; by rewrite zlen_fill by lia. }
  rewrite Ept in Hp3. apply pair_equal_spec in H as [<- <-]. set (p4 := if is_ok r2 then _ else _).
  assert (secure_ok p4 /\ ss_logical_capacity (secure_of p4) = n /\ (protects p2 (fill n 0xff) -> protects p4 (fill n 0xff))) as (T1 & T2 & T3).
  { unfold p4. destruct (is_ok r2); [|by split_and!]. split; [destruct Hok3; by split|]. by split. }
  split; [exact T1|]. split; [exact T2|]. intros Hr. by apply T3, Hp3.
Qed.

(** *** Rotation *)

(** A rotation that succeeds leaves the same data under the new key; one that fails keeps
    the old key, and the medium unless the write itself was torn. *)
Lemma rotate_spec p pt new_key new_key_id r p' : secure_ok p -> protects p pt -> is_u32 new_key_id ->
  ls_secure_storage_rotate_key raw SET (Some new_key) new_key_id p = (r, p') ->
  if is_ok r
  then ss_key (secure_of p') = new_key /\ ss_key_id (secure_of p') = new_key_id /\ protects p' pt /\ wiped p p'
  else ss_key (secure_of p') = ss_key (secure_of p) /\ ss_key_id (secure_of p') = ss_key_id (secure_of p) /\
    (medium p' = medium p \/ exists g nonce ct tag,
       image_of (s_provider (crypto_of p)) new_key new_key_id g nonce ct tag pt /\
       torn 0 (image_bytes new_key_id g nonce ct tag) (medium p) (medium p')).
Proof.
  intros Hok Hp Hid H. unfold ls_secure_storage_rotate_key in H. destruct (ss_workspace (secure_of p)) as [w|] eqn:Ew.
  2: { destruct (sk_workspace _ Hok) as (w & Hw & _). congruence. }
  destruct (_ || _); [apply pair_equal_spec in H as [<- <-]; cbn [is_ok]; split_and!; try done; by left|].
  destruct (load_image raw p) as [r1 p1] eqn:El. destruct (load_spec _ _ _ _ Hok Hp El) as (Hok1 & Hs1 & Hm1 & Hpt & _).
  pose proof Hs1 as (T1&T2&T3&T4&T5&T6&T7&T8&T9).
  destruct (is_ok r1) eqn:Er; cbn [negb] in H; cbv zeta in H.
  2: { apply pair_equal_spec in H as [<- <-]. rewrite Er. split; [exact T3|]. split; [exact T4|]. left. exact Hm1. }
  apply is_ok_true in Er. specialize (Hpt Er). set (p2 := set_secure (with_key new_key new_key_id) p1) in *.
  assert (secure_ok p2) as Hok2 by (destruct Hok1; by split).
  destruct (seal_image raw p2) as [r2 p3] eqn:Es. destruct (secure_seal_spec _ _ _ Hok2 Es) as (Hok3 & Hs3 & Hw3 & Hp3 & Hu3).
  assert (slice secure_header_size (ss_logical_capacity (secure_of p2)) (workspace p2) = pt) as Ept.
  { change (workspace p2) with (workspace p1). change (ss_logical_capacity (secure_of p2)) with (ss_logical_capacity (secure_of p1)).
    by rewrite T1. }
  rewrite Ept in Hp3, Hu3. apply pair_equal_spec in H as [<- <-]. destruct (is_ok r2) eqn:Er2.
  - apply is_ok_true in Er2. destruct Hs3 as (_&_&U3&U4&_). split; [exact U3|]. split; [exact U4|]. split; [by apply Hp3|].
    unfold wiped. rewrite Hw3. change (workspace p2) with (workspace p1). by rewrite T9.
  - apply is_ok_false in Er2. split; [exact T3|]. split; [exact T4|]. destruct (Hu3 Er2) as [Hu|(g & nonce & ct & tag & Hi & Ht)].
    + left. change (medium p3 = medium p). rewrite Hu. exact Hm1.
    + right. exists g, nonce, ct, tag. change (s_provider (crypto_of p2)) with (s_provider (crypto_of p1)) in Hi. rewrite T8 in Hi.
      split; [exact Hi|]. change (torn 0 (image_bytes new_key_id g nonce ct tag) (medium p1) (medium p3)) in Ht. by rewrite Hm1 in Ht.
Qed.

(** ** Properties *)

(** C22: What is written is read after a restart. When a write to the encrypted storage
    succeeds, then on the same medium a new initialisation with the key, working storage
    and any workspace that is large enough succeeds, and every read within the capacity
    returns the bytes of the updated image; each operation leaves the workspace wiped, so
    that no plaintext stays behind. *)
Theorem secure_storage_survives p pt off data p1 q work random r q1 :
  secure_ok p -> protects p pt -> 0 <= off -> off + zlen data <= ss_logical_capacity (secure_of p) -> bytes_ok data ->
  secure_write raw off data p = (LS_OK, p1) ->
  medium q = medium p1 -> live (raw_of q) -> s_provider (crypto_of q) = s_provider (crypto_of p) ->
  init_ok q work (ss_logical_capacity (secure_of p)) (ss_key_id (secure_of p)) random ->
  ls_secure_storage_init raw SET SET (Some work) (ss_logical_capacity (secure_of p)) (Some (ss_key (secure_of p)))
    (ss_key_id (secure_of p)) (Some random) q = (r, q1) ->
  r = LS_OK /\ wiped p p1 /\
  forall o n, 0 <= o -> 0 <= n -> o + n <= ss_logical_capacity (secure_of p) ->
    let read := secure_read raw o n q1 in fst read = Ok (slice o n (splice off data pt)) /\ wiped q1 (snd read).
Proof.
  intros Hok Hp Ho Hb Bd H Hm Hl Hprov Hio Hinit. pose proof (zlen_nonneg data) as Hz.
  apply (secure_update_spec off (zlen data) (Some data) pt) in H as (Hok1 & Hs1 & [(_ & _ & ?)|(_ & Hw & Hp1 & _)]); try done; [lia| |intros d [= <-]; by split].
  specialize (Hp1 eq_refl). cbn [updated] in Hp1. set (pt1 := splice off data pt) in *.
  destruct Hp1 as (Z1 & B1 & g & nonce & ct & tag & Hi & Himg). destruct Hs1 as (T1&T2&T3&T4&_&_&_&T8&_).
  rewrite T3, T4, T8 in Hi. rewrite T2, T4, (sk_sealed _ Hok), <- Hm in Himg. rewrite T1 in Z1.
  apply (init_existing q work _ _ _ random pt1) in Hinit as (Hok2 & Hp2 & _ & Hc2 & Hl2); [|exact Hio|exact Z1|exact B1|].
  2: { exists g, nonce, ct, tag. rewrite Hprov. by split. }
  destruct (Hl2 Hl) as [-> Hl3]. split; [done|]. split; [exact Hw|]. intros o n Hoo Hn Hon. cbv zeta.
  destruct (secure_read raw o n q1) as [rd q2] eqn:Erd.
  apply (read_image_spec o n pt1) in Erd as (_ & _ & _ & Hw2 & Hrd & Hlv); [|done|done|done|done|by rewrite Hc2].
  destruct (Hlv Hl3) as (_ & bytes & ->). cbn [fst snd]. split; [by rewrite Hrd|exact Hw2].
Qed.

(** C28: Nothing else is ever read. With the built-in primitives, a read that returns bytes
    proves that the image on the medium is, byte for byte, what sealing some plaintext of
    the full capacity under the structure's key and key identifier writes - header,
    nonce, ciphertext, checksum and tag - and the bytes are that plaintext's: a changed,
    truncated or foreign image is refused, and no byte of it is released. *)
Theorem secure_read_authentic p off n bytes p' : secure_ok p -> s_provider (crypto_of p) = None -> 0 <= off -> 0 <= n ->
  secure_read raw off n p = (Ok bytes, p') ->
  off + n <= ss_logical_capacity (secure_of p) /\
  exists pt, zlen pt = ss_logical_capacity (secure_of p) /\ bytes = slice off n pt /\
    sealed_by (ss_key (secure_of p)) (ss_key_id (secure_of p)) pt (slice 0 (ss_sealed_size (secure_of p)) (medium p)).
Proof.
  intros Hok Hnone Ho Hn H. unfold secure_read in H. destruct (out_of_bounds _ _ _) eqn:E; [done|].
  apply bounds_spec in E; [|exact Hn]. split; [exact E|]. destruct (load_image raw p) as [r1 p1] eqn:El. cbv zeta in H.
  apply pair_equal_spec in H as [H _]. destruct (is_ok r1) eqn:Er; [|done]. apply is_ok_true in Er. subst r1.
  apply load_accepts in El as (pt & Zpt & Hpt & Hs); [|done..]. exists pt. split; [exact Zpt|]. split; [|exact Hs].
  injection H as <-. rewrite <- Hpt. symmetry. apply slice_slice; unfold secure_header_size; lia.
Qed.
End Facts.

(** *** A small storage *)

Definition demo_secure_storage := memory_backend 128 64 1.

#[export] Instance demo_secure_ok : StorageOk demo_secure_storage.
Proof. apply memory_ok; vm_compute; [split; discriminate|discriminate]. Defined.

Definition demo_random (n : Z) (x : Z) : res (list Z) * Z := (Ok (map (fun i => u8 (x + Z.of_nat i)) (List.seq 0 (Z.to_nat n))), x + 1).

Definition demo_device (c : list Z) : @sstate Z ls_memory_storage_t :=
  {| faults := no_faults; dev := ((mk_secure false false None 0 0 [] [] 0 0 false None, demo_security), c) |}.

Definition demo_init (c : list Z) := ls_secure_storage_init demo_secure_storage SET SET (Some (fill 90 0)) 16 (Some (fill 32 0x5a)) 7
  (Some demo_random) (demo_device c).

Definition demo_opened := snd (demo_init (fill 128 0xff)).
Definition demo_written := secure_write demo_secure_storage 3 [1; 2; 3] demo_opened.

Definition demo_restarted := demo_init (snd (dev (snd demo_written))).

Lemma demo_random_ok : random_ok demo_random.
Proof.
  split. intros n x r x' Hn [<- <-]%pair_equal_spec. split.
  - unfold zlen. rewrite length_map, length_seq. lia.
  - apply List.Forall_forall. intros b (i & <- & _)%in_map_iff. apply u8_range.
Qed.

Lemma demo_init_ok c : mem_inv 128 c -> init_ok demo_secure_storage (demo_device c) (fill 90 0) 16 7 demo_random.
Proof.
  intros Hc. split.
  - exact Hc.
  - vm_compute. split; [done|discriminate].
  - vm_compute. discriminate.
  - split; [by apply bytes_ok_fill|]. vm_compute. discriminate.
  - split; [split; vm_compute; [discriminate|done]|discriminate].
  - exact demo_random_ok.
  - exact demo_security_ok.
Qed.

Lemma demo_opened_ok : secure_ok demo_secure_storage demo_opened /\ protects demo_secure_storage demo_opened (fill 16 0xff).
Proof.
  assert (mem_inv 128 (fill 128 0xff)) as Hc by (split; [reflexivity|by apply bytes_ok_fill]).
  destruct (init_blank demo_secure_storage (demo_device (fill 128 0xff)) (fill 90 0) 16 (fill 32 0x5a) 7 demo_random
    (fst (demo_init (fill 128 0xff))) demo_opened (demo_init_ok _ Hc)) as (H1 & _ & H2).
  - reflexivity.
  - unfold demo_opened, demo_init. apply surjective_pairing.
  - split; [exact H1|]. apply H2. vm_compute. reflexivity.
Qed.

Lemma run_result {A B} (x : A * B) a : fst x = a -> x = (a, snd x).
Proof. destruct x. by intros <-. Qed.

Lemma demo_written_eq : demo_written = (LS_OK, snd demo_written).
Proof. apply run_result. vm_compute. reflexivity. Qed.

Lemma demo_data_bytes : bytes_ok [1; 2; 3].
Proof. repeat (apply List.Forall_cons; [split; [discriminate|reflexivity]|]). apply List.Forall_nil. Qed.

Lemma demo_written_ok : secure_ok demo_secure_storage (snd demo_written).
Proof.
  destruct demo_opened_ok as [Hok Hp].
  apply (secure_update_spec demo_secure_storage 3 3 (Some [1; 2; 3]) (fill 16 0xff) demo_opened LS_OK (snd demo_written) Hok Hp);
    [lia|lia|intros d [= <-]; split; [exact demo_data_bytes|done]|exact demo_written_eq].
Qed.

(** A restart keeps the medium and nothing else. *)
Lemma demo_device_medium (p : @sstate Z ls_memory_storage_t) :
  medium demo_secure_storage (demo_device (snd (dev p))) = medium demo_secure_storage p /\
  live (b := demo_secure_storage) (raw_of (demo_device (snd (dev p)))).
Proof. by split. Qed.

Lemma secure_storage_survives_witness :
  let read := secure_read demo_secure_storage 2 4 (snd demo_restarted) in
  fst demo_restarted = LS_OK /\ fst read = Ok (slice 2 4 (splice 3 [1; 2; 3] (fill 16 0xff))).
Proof.
  intros read. destruct demo_opened_ok as [Hok Hp].
  assert (mem_inv 128 (snd (dev (snd demo_written)))) as Hc.
  { exact (sk_storage _ _ demo_written_ok). }
  assert (ss_logical_capacity (secure_of demo_opened) = 16 /\ ss_key (secure_of demo_opened) = fill 32 0x5a /\
    ss_key_id (secure_of demo_opened) = 7 /\ s_provider (crypto_of demo_opened) = None) as (Ec & Ek & Ei & En)
    by (split_and!; vm_compute; reflexivity).
  pose proof (secure_storage_survives demo_secure_storage demo_opened (fill 16 0xff) 3 [1; 2; 3] (snd demo_written)
    (demo_device (snd (dev (snd demo_written)))) (fill 90 0) demo_random (fst demo_restarted) (snd demo_restarted) Hok Hp) as T.
  rewrite Ec, Ek, Ei, En in T. destruct T as (H1 & _ & H2).
  - lia.
  - vm_compute. discriminate.
  - exact demo_data_bytes.
  - exact demo_written_eq.
  - exact (proj1 (demo_device_medium (snd demo_written))).
  - exact (proj2 (demo_device_medium (snd demo_written))).
  - reflexivity.
  - exact (demo_init_ok _ Hc).
  - unfold demo_restarted, demo_init. apply surjective_pairing.
  - split; [exact H1|]. destruct (H2 2 4) as [H3 _]; [lia|lia|vm_compute; discriminate|]. exact H3.
Defined.

Lemma secure_read_authentic_witness :
  exists pt, zlen pt = ss_logical_capacity (secure_of demo_opened) /\
    fst (secure_read demo_secure_storage 2 4 demo_opened) = Ok (slice 2 4 pt).
Proof.
  destruct (secure_read_authentic demo_secure_storage demo_opened 2 4 (fill 4 0xff)
    (snd (secure_read demo_secure_storage 2 4 demo_opened)) (proj1 demo_opened_ok)) as (_ & pt & H1 & H2 & _).
  - vm_compute. reflexivity.
  - lia.
  - lia.
  - apply run_result. vm_compute. reflexivity.
  - exists pt. split; [exact H1|]. rewrite <- H2. vm_compute. reflexivity.
Defined.
