(* ===== verification/Network.v ===== *)
(** * Network transports and the incident beacon ([src/transport/network.c])

    The adapters that post or publish one envelope, and the 32-byte beacon for links that
    cannot carry one. The network is a callback over an external state [E]. *)

From S2P Require Import Prelude Util Envelope Spool Payload EncodeFacts.

(** [ls_http_transport_t]; [hp_post] is given the endpoint, the content type and the body,
    and returns its result with the status it stored. *)
Record ls_http_transport_t (E : Type) : Type := mk_http {
  hp_endpoint : option (list Z);
  hp_post : option (list Z -> list Z -> list Z -> st E (ls_result_t * Z));
  hp_maximum_payload : Z
}.
Arguments mk_http {E} _ _ _.
Arguments hp_endpoint {E} _.
Arguments hp_post {E} _.
Arguments hp_maximum_payload {E} _.

Record ls_mqtt_transport_t (E : Type) : Type := mk_mqtt {
  mq_topic : option (list Z);
  mq_publish : option (list Z -> list Z -> Z -> bool -> st E ls_result_t);
  mq_maximum_payload : Z;
  mq_qos : Z
}.
Arguments mk_mqtt {E} _ _ _ _.
Arguments mq_topic {E} _.
Arguments mq_publish {E} _.
Arguments mq_maximum_payload {E} _.
Arguments mq_qos {E} _.

Definition BEACON_MAGIC : Z := 0x4249534c.
Definition BEACON_SIZE : Z := 32.
Definition content_type : list Z := str "application/vnd.laststate.lep".

Section Network.
Context {E : Type}.

Definition ls_http_transport_max_payload (http : option (ls_http_transport_t E)) : Z :=
  match http with
  | Some h => if hp_maximum_payload h =? 0 then LS_MAX_EVENT_SIZE else hp_maximum_payload h
  | None => LS_MAX_EVENT_SIZE
  end.

(** What a status code says about the delivery. *)
Definition http_status (status : Z) : ls_result_t :=
  if (200 <=? status) && (status <? 300) then LS_OK
  else if (status =? 408) || (status =? 425) || (status =? 429) || (500 <=? status) then LS_EAGAIN
  else LS_EIO.

Definition ls_http_transport_send (http : option (ls_http_transport_t E)) (data : option (list Z)) : st E ls_result_t := fun e =>
  match http, data with
  | Some h, Some data =>
      match hp_post h, hp_endpoint h with
      | Some post, Some endpoint =>
          if zlen data =? 0 then (LS_EINVAL, e)
          else if ls_http_transport_max_payload (Some h) <? zlen data then (LS_ENOSPACE, e)
          else
            match ls_envelope_validate (Some data) with
            | Err r => (r, e)
            | Ok _ =>
                let '(r, status, e) := post endpoint content_type data e in
                (if is_ok r then http_status status else r, e)
            end
      | _, _ => (LS_EINVAL, e)
      end
  | _, _ => (LS_EINVAL, e)
  end.

Definition ls_mqtt_transport_max_payload (mqtt : option (ls_mqtt_transport_t E)) : Z :=
  match mqtt with
  | Some m => if mq_maximum_payload m =? 0 then LS_MAX_EVENT_SIZE else mq_maximum_payload m
  | None => LS_MAX_EVENT_SIZE
  end.

Definition ls_mqtt_transport_send (mqtt : option (ls_mqtt_transport_t E)) (data : option (list Z)) : st E ls_result_t := fun e =>
  match mqtt, data with
  | Some m, Some data =>
      match mq_publish m, mq_topic m with
      | Some publish, Some topic =>
          if (zlen data =? 0) || (2 <? mq_qos m) then (LS_EINVAL, e)
          else if ls_mqtt_transport_max_payload (Some m) <? zlen data then (LS_ENOSPACE, e)
          else
            match ls_envelope_validate (Some data) with
            | Err r => (r, e)
            | Ok _ => publish topic data (mq_qos m) false e
            end
      | _, _ => (LS_EINVAL, e)
      end
  | _, _ => (LS_EINVAL, e)
  end.
End Network.

(** [ls_incident_beacon_encode]; [build] is [ls_build_id()], and [output] and [written]
    tell whether these pointers are set. The result is what the writer put there. *)
Definition beacon_fields (i : ls_envelope_info_t) (device_hash battery_mv temperature_c : Z) (build : list Z) : st ls_writer_t ls_result_t :=
  ls_writer_u32 BEACON_MAGIC ;;?
  ls_writer_u8 1 ;;?
  ls_writer_u8 (type i) ;;?
  ls_writer_u8 (architecture i) ;;?
  ls_writer_u8 (flags i) ;;?
  ls_writer_u32 (event_id i) ;;?
  ls_writer_u32 device_hash ;;?
  ls_writer_u32 (ls_hash_string (Some build)) ;;?
  ls_writer_u16 battery_mv ;;?
  ls_writer_u16 (u16 temperature_c) ;;?
  ls_writer_u32 (sequence i) ;;?
  (fun w => ls_writer_u32 (ls_crc32 (w_data w)) w).

Definition ls_incident_beacon_encode (envelope : option (list Z)) (device_hash battery_mv temperature_c : Z) (build : list Z)
    (output written : ptr) (capacity : Z) : res (list Z) :=
  match envelope with
  | None => Err LS_EINVAL
  | Some envelope =>
      if negb output || negb written || (capacity <? BEACON_SIZE) then Err LS_EINVAL
      else
        match ls_envelope_validate (Some envelope) with
        | Err r => Err r
        | Ok i =>
            let '(r, w) := beacon_fields i device_hash battery_mv temperature_c build (mk_writer capacity []) in
            if is_ok r then Ok (w_data w) else Err r
        end
  end.

(** ** Sending *)

Section Send.
Context {E : Type}.

(** What both adapters require before they hand an envelope to the network. *)
Definition sendable (maximum : Z) (data : list Z) : Prop :=
  0 < zlen data <= maximum /\ exists i, ls_envelope_validate (Some data) = Ok i.

Lemma validate_refuses data r : ls_envelope_validate data = Err r -> r <> LS_OK.
Proof.
  unfold ls_envelope_validate. destruct data as [d|]; [|by intros [= <-]]. cbv zeta.
  repeat case_match; try by intros [= <-]. intros [= <-] Hr.
  match goal with H : negb (is_ok _) = true |- _ => rewrite Hr in H end. done.
Qed.

(** One posting, of the very bytes given, if they are a valid envelope within the limit;
    its status decides between success, a retry later and a permanent failure. *)
Theorem http_posts_once (h : ls_http_transport_t E) data e r e' :
  ls_http_transport_send (Some h) (Some data) e = (r, e') ->
  (e' = e /\ r <> LS_OK) \/
  exists post endpoint status r0,
    hp_post h = Some post /\ hp_endpoint h = Some endpoint /\ sendable (ls_http_transport_max_payload (Some h)) data /\
    post endpoint content_type data e = (r0, status, e') /\
    (r = LS_OK <-> r0 = LS_OK /\ 200 <= status < 300) /\
    (r0 = LS_OK -> r = LS_EAGAIN <-> status = 408 \/ status = 425 \/ status = 429 \/ 500 <= status).
Proof.
  unfold ls_http_transport_send. destruct (hp_post h) as [post|] eqn:Hp; [|intros [= <- <-]; by left].
  destruct (hp_endpoint h) as [endpoint|]; [|intros [= <- <-]; by left]. pose proof (zlen_nonneg data) as Hz.
  destruct (zlen data =? 0) eqn:E1; [intros [= <- <-]; by left|]. destruct (_ <? zlen data) eqn:E2; [intros [= <- <-]; by left|].
  destruct (ls_envelope_validate (Some data)) as [i|r1] eqn:Ev.
  2: { intros [= <- <-]. left. split; [done|]. exact (validate_refuses _ _ Ev). }
  destruct (post endpoint content_type data e) as [[r0 status] e1] eqn:Eq. intros [= <- <-]. right.
  exists post, endpoint, status, r0. split; [done|]. split; [done|]. split; [split; [blia|by exists i]|]. split; [done|].
  unfold http_status. destruct (is_ok r0) eqn:Er.
  - apply is_ok_true in Er. subst r0. repeat case_match; bool_prop; split; intros; (split; [intros|intros]); try done; blia.
  - apply is_ok_false in Er. split; [|done]. split; [intros ->; done|intros [-> _]; done].
Qed.

Theorem mqtt_publishes_once (m : ls_mqtt_transport_t E) data e r e' :
  ls_mqtt_transport_send (Some m) (Some data) e = (r, e') ->
  (e' = e /\ r <> LS_OK) \/
  exists publish topic,
    mq_publish m = Some publish /\ mq_topic m = Some topic /\ sendable (ls_mqtt_transport_max_payload (Some m)) data /\
    mq_qos m <= 2 /\ publish topic data (mq_qos m) false e = (r, e').
Proof.
  unfold ls_mqtt_transport_send. destruct (mq_publish m) as [publish|] eqn:Hp; [|intros [= <- <-]; by left].
  destruct (mq_topic m) as [topic|]; [|intros [= <- <-]; by left]. pose proof (zlen_nonneg data) as Hz.
  destruct (_ || _) eqn:E1; [intros [= <- <-]; by left|]. destruct (_ <? zlen data) eqn:E2; [intros [= <- <-]; by left|].
  destruct (ls_envelope_validate (Some data)) as [i|r1] eqn:Ev.
  2: { intros [= <- <-]. left. split; [done|]. exact (validate_refuses _ _ Ev). }
  intros H. right. exists publish, topic. split; [done|]. split; [done|]. split; [split; [blia|by exists i]|]. split; [blia|done].
Qed.
End Send.

(** ** The beacon *)

Definition beacon_body (i : ls_envelope_info_t) (device_hash battery_mv temperature_c build_hash : Z) : list Z :=
  le 4 BEACON_MAGIC ++ [1; type i; architecture i; flags i] ++ le 4 (event_id i) ++ le 4 device_hash ++ le 4 build_hash ++
  le 2 battery_mv ++ le 2 (u16 temperature_c) ++ le 4 (sequence i).

Lemma beacon_body_zlen i d b t h : zlen (beacon_body i d b t h) = 28.
Proof. unfold beacon_body. by rewrite !zlen_app, !zlen_le. Qed.

Lemma write_fits d c l : zlen l + zlen d <= c -> ls_writer_write d (mk_writer c l) = (LS_OK, mk_writer c (l ++ d)).
Proof.
  intros H. pose proof (zlen_nonneg d). unfold ls_writer_write, ls_writer_write_n, w_length. cbn [w_capacity w_data orb].
  destruct (_ || _) eqn:Eb; [blia|done].
Qed.

Lemma write_then d k c l : zlen l + zlen d <= c ->
  (ls_writer_write d ;;? k) (mk_writer c l) = k (mk_writer c (l ++ d)).
Proof. intros H. unfold and_then. by rewrite write_fits. Qed.

Lemma beacon_fields_run i d b t build c : 32 <= c -> is_u8 (type i) -> is_u8 (architecture i) -> is_u8 (flags i) ->
  let body := beacon_body i d b t (ls_hash_string (Some build)) in
  beacon_fields i d b t build (mk_writer c []) = (LS_OK, mk_writer c (body ++ le 4 (ls_crc32 body))).
Proof.
  intros Hc T1 T2 T3 body. unfold beacon_fields, ls_writer_u32, ls_writer_u16, ls_writer_u8.
  do 11 (rewrite write_then by (rewrite ?zlen_app, ?zlen_le; unfold zlen; simpl; lia)).
  cbn [w_data]. rewrite !(u8_id _ T1), !(u8_id _ T2), !(u8_id _ T3). change (u8 1) with 1.
  match goal with |- context [ls_crc32 ?l] => assert (l = body) as -> by (unfold body, beacon_body; by rewrite <- !app_assoc) end.
  apply write_fits. unfold body. rewrite beacon_body_zlen, zlen_le. lia.
Qed.

Lemma read_u32_skip (a l : list Z) o : zlen a <= o -> read_u32 (a ++ l) o = read_u32 l (o - zlen a).
Proof. intros H. pose proof (zlen_nonneg a). unfold read_u32. by rewrite slice_app_r. Qed.

Lemma read_u16_skip (a l : list Z) o : zlen a <= o -> read_u16 (a ++ l) o = read_u16 l (o - zlen a).
Proof. intros H. pose proof (zlen_nonneg a). unfold read_u16. by rewrite slice_app_r. Qed.

Ltac word_size := rewrite ?zlen_le; unfold zlen; simpl; lia.
Ltac skip_words :=
  repeat ((rewrite read_u32_skip by word_size) || (rewrite read_u16_skip by word_size));
  (apply (read_u32_at []) || apply (read_u16_at []) || (rewrite <- (app_nil_r (le 4 _)); apply (read_u32_at [])));
  [word_size|try done].

(** A beacon is refused with no output unless the envelope is valid and 32 bytes are free;
    then it is 32 bytes that say what the envelope's header says. *)
Theorem beacon_tells_envelope envelope d b t build capacity : bytes_ok envelope -> is_u32 d -> is_u16 b ->
  match ls_incident_beacon_encode (Some envelope) d b t build SET SET capacity with
  | Ok out =>
      exists i, ls_envelope_validate (Some envelope) = Ok i /\ BEACON_SIZE <= capacity /\ zlen out = BEACON_SIZE /\
        read_u32 out 0 = BEACON_MAGIC /\ byte_at out 5 = type i /\ byte_at out 6 = architecture i /\ byte_at out 7 = flags i /\
        read_u32 out 8 = event_id i /\ read_u32 out 12 = d /\ read_u32 out 16 = ls_hash_string (Some build) /\
        read_u16 out 20 = b /\ read_u16 out 22 = u16 t /\ read_u32 out 24 = sequence i /\
        read_u32 out 28 = ls_crc32 (slice 0 28 out)
  | Err r => (capacity < BEACON_SIZE /\ r = LS_EINVAL) \/ ls_envelope_validate (Some envelope) = Err r
  end.
Proof.
  intros Hb Hd Hv. unfold ls_incident_beacon_encode. cbn [SET negb orb]. destruct (capacity <? BEACON_SIZE) eqn:Ec; [left; split; [blia|done]|].
  destruct (ls_envelope_validate (Some envelope)) as [i|r] eqn:Ev; [|by right].
  destruct (envelope_decodes envelope i Hb Ev) as (body & auth & Ho & _). destruct Ho as [_ T1 T2 T3 T4 T5 _ _ _ _].
  unfold BEACON_SIZE in *. rewrite beacon_fields_run by (done || blia). cbn [is_ok w_data].
  set (h := ls_hash_string (Some build)). assert (is_u32 h) as Hh by apply hash_string_u32.
  set (bd := beacon_body i d b t h). exists i. split; [done|]. split; [blia|].
  assert (zlen bd = 28) as Zb by apply beacon_body_zlen.
  split; [rewrite zlen_app, zlen_le, Zb; done|].
  assert (slice 0 28 (bd ++ le 4 (ls_crc32 bd)) = bd) as Es by (rewrite <- Zb; rewrite slice_app_l by lia; apply slice_full).
  rewrite Es.
  assert (is_u32 (ls_crc32 bd)) as Hk by apply crc32_range. generalize dependent (ls_crc32 bd). intros k _ Hk. unfold bd, beacon_body. fold h. set (m := le 4 BEACON_MAGIC). rewrite <- !app_assoc.
  split; [by apply (read_u32_at [])|].
  split; [by apply (byte_at_at (m ++ [1]))|]. split; [by apply (byte_at_at (m ++ [1; type i]))|].
  split; [by apply (byte_at_at (m ++ [1; type i; architecture i]))|].
  subst m. split; [by skip_words|]. split; [by skip_words|]. split; [by skip_words|]. split; [by skip_words|].
  split; [skip_words; apply u16_range|]. split; by skip_words.
Qed.
