(* ===== verification/CortexM.v ===== *)
(** * The Cortex-M fault handler ([src/arch/cortex-m])

    The emergency stack with its canary, the bounds of the process and main stacks, the
    decoder of the exception frame, and the handlers that write the retained snapshot.

    Addresses and registers are 32-bit words; a null pointer is the address 0. Memory is
    read through [mem], which has no word where an access would fault. The special
    registers are read through [reg]. *)

From S2P Require Import Prelude Util Envelope Encode Retained.

Definition LS_EMERGENCY_STACK_SIZE : Z := 768.
Definition LS_STACK_CANARY : Z := 0x51ac7e5a.
Definition LS_CORTEX_M_EXC_RETURN_PSP : Z := 4.
Definition LS_CORTEX_M_EXC_RETURN_FPU : Z := 16.
Definition LS_CORTEX_M_BASIC_FRAME_WORDS : Z := 8.
Definition LS_CORTEX_M_FPU_FRAME_WORDS : Z := 18.
Definition LS_CORTEX_M_FPCCR : Z := 0xe000ef34.

Definition LS_MINIMAL_SNAPSHOT_FRAME_VALID : Z := 1.
Definition LS_MINIMAL_SNAPSHOT_MSP_VALID : Z := 2.
Definition LS_MINIMAL_SNAPSHOT_PSP_VALID : Z := 4.
Definition LS_MINIMAL_SNAPSHOT_RECURSIVE : Z := 32.
Definition LS_MINIMAL_SNAPSHOT_EMERGENCY_STACK_CORRUPT : Z := 64.
Definition LS_MINIMAL_SNAPSHOT_STACK_BOUNDS_UNAVAILABLE : Z := 128.
Definition LS_MINIMAL_SNAPSHOT_EXC_RETURN_INVALID : Z := 256.

(** [ls_cortex_m_stack_bounds_t]. *)
Record ls_cortex_m_stack_bounds_t : Type := {
  msp_lower : Z; msp_upper : Z; psp_lower : Z; psp_upper : Z; msp_ready : bool; psp_ready : bool
}.

(** [ls_cortex_m_saved_t]: the registers the assembly keeps besides are not used in C. *)
Record ls_cortex_m_saved_t : Type := { sv_msp : Z; sv_psp : Z; sv_exc_return : Z; sv_fault_kind : Z }.

Record ls_cortex_m_exception_frame_t : Type := mk_frame {
  fr_r0 : Z; fr_r1 : Z; fr_r2 : Z; fr_r3 : Z; fr_r12 : Z; fr_lr : Z; fr_pc : Z; fr_xpsr : Z; fr_fpscr : Z; fr_flags : Z
}.

(** The variables of the file: the bytes of the emergency stack, the bounds, and the
    counters. *)
Record cortex : Type := mk_cortex {
  cx_stack : list Z;
  cx_bounds : ls_cortex_m_stack_bounds_t;
  cx_high_water : Z;
  cx_sequence : Z;
  cx_active : Z
}.

Definition zero_frame : ls_cortex_m_exception_frame_t := mk_frame 0 0 0 0 0 0 0 0 0 0.
Definition frame_flag (flag : Z) (f : ls_cortex_m_exception_frame_t) : ls_cortex_m_exception_frame_t :=
  mk_frame (fr_r0 f) (fr_r1 f) (fr_r2 f) (fr_r3 f) (fr_r12 f) (fr_lr f) (fr_pc f) (fr_xpsr f) (fr_fpscr f) (Z.lor (fr_flags f) flag).
Definition frame_flag_if (b : bool) (flag : Z) (f : ls_cortex_m_exception_frame_t) : ls_cortex_m_exception_frame_t :=
  if b then frame_flag flag f else f.

Definition with_bounds (b : ls_cortex_m_stack_bounds_t) (c : cortex) : cortex :=
  mk_cortex (cx_stack c) b (cx_high_water c) (cx_sequence c) (cx_active c).
Definition with_high_water (v : Z) (c : cortex) : cortex :=
  mk_cortex (cx_stack c) (cx_bounds c) v (cx_sequence c) (cx_active c).
Definition with_sequence (v : Z) (c : cortex) : cortex :=
  mk_cortex (cx_stack c) (cx_bounds c) (cx_high_water c) v (cx_active c).
Definition with_active (v : Z) (c : cortex) : cortex :=
  mk_cortex (cx_stack c) (cx_bounds c) (cx_high_water c) (cx_sequence c) v.

(** ** Bounds *)

Definition word_aligned (address : Z) : bool := Z.land address 3 =? 0.

Definition stack_bounds_pair_valid (lower upper : Z) : bool :=
  if (lower =? 0) && (upper =? 0) then true
  else if (lower =? 0) || (upper =? 0) then false
  else (lower <? upper) && word_aligned (Z.lor lower upper).

Definition stack_range_contains (lower upper address length : Z) : bool :=
  if (upper <=? lower) || negb (word_aligned address) || (address <? lower) || (upper <=? address) then false
  else length <=? upper - address.

Definition stack_pointer_in_bounds (lower upper address : Z) : bool :=
  (lower <? upper) && word_aligned address && (lower <=? address) && (address <=? upper).

Definition exc_return_valid (exc_return : Z) : bool :=
  (Z.land exc_return 0xff000000 =? 0xff000000) && negb (Z.land exc_return 1 =? 0).

Definition ls_cortex_m_stack_bounds_set (msp_low msp_up psp_low psp_up : Z) : st cortex ls_result_t := fun c =>
  if negb (stack_bounds_pair_valid msp_low msp_up) || negb (stack_bounds_pair_valid psp_low psp_up) then (LS_EINVAL, c)
  else (LS_OK, with_bounds {| msp_lower := msp_low; msp_upper := msp_up; psp_lower := psp_low; psp_upper := psp_up;
                              msp_ready := negb (msp_low =? 0); psp_ready := negb (psp_low =? 0) |} c).

Definition ls_cortex_m_stack_bounds_clear (c : cortex) : cortex :=
  let b := cx_bounds c in
  with_bounds {| msp_lower := msp_lower b; msp_upper := msp_upper b; psp_lower := psp_lower b; psp_upper := psp_upper b;
                 msp_ready := false; psp_ready := false |} c.

(** ** The emergency stack *)

Definition fault_sequence_next : st cortex Z := fun c =>
  let sequence := inc32 (cx_sequence c) in
  let sequence := if sequence =? 0 then 1 else sequence in
  (sequence, with_sequence sequence c).

(** [ls_cortex_m_init]; it also calls [ls_capture_minimal_prepare]. *)
Definition ls_cortex_m_init (build_id : list Z) (s : cortex * retained) : cortex * retained :=
  let '(c, m) := s in
  (mk_cortex (le 4 LS_STACK_CANARY ++ fill (LS_EMERGENCY_STACK_SIZE - 4) 0xa5) (cx_bounds c) 0 0 0,
   ls_capture_minimal_prepare build_id m).

Definition ls_cortex_m_emergency_stack_ok (c : cortex) : bool := read_u32 (cx_stack c) 0 =? LS_STACK_CANARY.

(** The index of the first byte from [i] on that is not the fill pattern. *)
Fixpoint first_used (l : list Z) (i : Z) : Z :=
  match l with
  | [] => i
  | b :: l => if b =? 0xa5 then first_used l (i + 1) else i
  end.

Definition ls_cortex_m_emergency_stack_usage : st cortex Z := fun c =>
  let usage := LS_EMERGENCY_STACK_SIZE - first_used (drop 4 (cx_stack c)) 4 in
  let usage := if ls_cortex_m_emergency_stack_ok c then usage else LS_EMERGENCY_STACK_SIZE in
  (usage, if cx_high_water c <? usage then with_high_water usage c else c).

Definition ls_cortex_m_emergency_stack_high_water_mark (c : cortex) : Z := cx_high_water c.

(** ** Configuration

    The writes to the special registers, in order. [guard] is the address of the bytes below
    the emergency stack. *)

Inductive arm_profile : Type := ARM_ARCH_7M | ARM_ARCH_8M_MAIN | ARM_ARCH_8M_BASE | ARM_ARCH_OTHER.

Section Configure.
Context (profile : arm_profile) (reg : Z -> Z).

Definition ls_cortex_m_configure_emergency_stack_mpu (guard region_number : Z) : ls_result_t * list (Z * Z) :=
  match profile with
  | ARM_ARCH_7M =>
      if 8 <=? region_number then (LS_EINVAL, [])
      else (LS_OK, [(0xe000ed98, region_number); (0xe000ed9c, guard);
                    (0xe000eda0, Z.lor (Z.lor (Z.shiftl 1 28) (Z.shiftl 4 1)) 1); (0xe000ed94, Z.lor (reg 0xe000ed94) 5)])
  | ARM_ARCH_8M_MAIN =>
      if 16 <=? region_number then (LS_EINVAL, [])
      else (LS_OK, [(0xe000ed98, region_number); (0xe000edc0, 0x44);
                    (0xe000ed9c, Z.lor (Z.lor (Z.land guard (u32 (Z.lnot 31))) (Z.shiftl 2 1)) 1);
                    (0xe000eda0, Z.lor (Z.land (u32 (guard + 31)) (u32 (Z.lnot 31))) 1); (0xe000ed94, Z.lor (reg 0xe000ed94) 5)])
  | _ => (LS_ENOTSUP, [])
  end.

Definition ls_cortex_m_enable_configurable_faults (secure_fault : bool) : list (Z * Z) :=
  let mask := Z.lor (Z.lor (Z.shiftl 1 16) (Z.shiftl 1 17)) (Z.shiftl 1 18) in
  let mask := match profile with
              | ARM_ARCH_8M_MAIN | ARM_ARCH_8M_BASE => if secure_fault then Z.lor mask (Z.shiftl 1 19) else mask
              | _ => mask
              end in
  [(0xe000ed24, Z.lor (reg 0xe000ed24) mask)].

Definition ls_cortex_m_configure_fpu_lazy_stacking (has_fpu enabled : bool) : list (Z * Z) :=
  if has_fpu then
    [(LS_CORTEX_M_FPCCR,
      if enabled then Z.lor (reg LS_CORTEX_M_FPCCR) (Z.lor (Z.shiftl 1 31) (Z.shiftl 1 30))
      else Z.land (reg LS_CORTEX_M_FPCCR) (u32 (Z.lnot (Z.shiftl 1 30))))]
  else [].
End Configure.

(** ** The decoder *)

Section Decoder.
Context (mem : Z -> option Z).

(** [raw_frame[i]]. *)
Definition frame_word (raw_frame i : Z) : option Z := mem (raw_frame + 4 * i).

(** The reads once the frame is known to be inside its stack. *)
Definition read_frame (raw_frame : Z) (extended : bool) (f : ls_cortex_m_exception_frame_t) : option ls_cortex_m_exception_frame_t :=
  let core := if extended then raw_frame + 4 * LS_CORTEX_M_FPU_FRAME_WORDS else raw_frame in
  fpscr ← (if extended then frame_word raw_frame 16 else Some 0);
  r0 ← frame_word core 0;
  r1 ← frame_word core 1;
  r2 ← frame_word core 2;
  r3 ← frame_word core 3;
  r12 ← frame_word core 4;
  lr ← frame_word core 5;
  pc ← frame_word core 6;
  xpsr ← frame_word core 7;
  Some (mk_frame r0 r1 r2 r3 r12 lr pc xpsr fpscr (Z.lor (fr_flags f) LS_MINIMAL_SNAPSHOT_FRAME_VALID)).

(** [ls_cortex_m_decode_exception_frame]; [frame] tells whether the pointer is set. The
    result is [None] when a read faults. *)
Definition ls_cortex_m_decode_exception_frame (b : ls_cortex_m_stack_bounds_t) (raw_frame : Z) (saved : option ls_cortex_m_saved_t)
    (frame : ptr) : option (ls_result_t * ls_cortex_m_exception_frame_t) :=
  match saved with
  | None => Some (LS_EINVAL, zero_frame)
  | Some saved =>
      if negb frame then Some (LS_EINVAL, zero_frame)
      else
        let msp_valid := msp_ready b && stack_pointer_in_bounds (msp_lower b) (msp_upper b) (sv_msp saved) in
        let psp_valid := psp_ready b && stack_pointer_in_bounds (psp_lower b) (psp_upper b) (sv_psp saved) in
        let f := frame_flag_if msp_valid LS_MINIMAL_SNAPSHOT_MSP_VALID zero_frame in
        let f := frame_flag_if psp_valid LS_MINIMAL_SNAPSHOT_PSP_VALID f in
        let f := frame_flag_if (negb (msp_ready b) || negb (psp_ready b)) LS_MINIMAL_SNAPSHOT_STACK_BOUNDS_UNAVAILABLE f in
        if negb (exc_return_valid (sv_exc_return saved))
        then Some (LS_ECORRUPT, frame_flag LS_MINIMAL_SNAPSHOT_EXC_RETURN_INVALID f)
        else
          let using_psp := negb (Z.land (sv_exc_return saved) LS_CORTEX_M_EXC_RETURN_PSP =? 0) in
          let extended := Z.land (sv_exc_return saved) LS_CORTEX_M_EXC_RETURN_FPU =? 0 in
          let f := frame_flag_if extended LS_MINIMAL_SNAPSHOT_FPU_FRAME f in
          let selected_sp := if using_psp then sv_psp saved else sv_msp saved in
          let frame_lower := if using_psp then psp_lower b else msp_lower b in
          let frame_upper := if using_psp then psp_upper b else msp_upper b in
          if (using_psp && negb (psp_ready b)) || (negb using_psp && negb (msp_ready b)) || (raw_frame =? 0)
          then Some (LS_ECORRUPT, f)
          else
            let frame_words := if extended then LS_CORTEX_M_BASIC_FRAME_WORDS + LS_CORTEX_M_FPU_FRAME_WORDS
                               else LS_CORTEX_M_BASIC_FRAME_WORDS in
            if negb (raw_frame =? selected_sp) || negb (stack_range_contains frame_lower frame_upper raw_frame (frame_words * 4))
            then Some (LS_ECORRUPT, f)
            else f ← read_frame raw_frame extended f; Some (LS_OK, f)
  end.
End Decoder.

(** ** The handlers

    A handler does not return: its result is the state in which the device stays until the
    watchdog resets it. [minimal_snapshot_store] freezes the black box before the stores. *)

Section Handler.
Context (mem : Z -> option Z) (reg : Z -> Z).
(** [LS_CORTEX_M_HAS_FPU] and [LS_ENABLE_WIDE_CONTEXT]. *)
Context (has_fpu wide : bool).

Definition fpu_lazy_state_active : bool := if has_fpu then negb (Z.land (reg LS_CORTEX_M_FPCCR) 1 =? 0) else false.

(** The usage of the emergency stack and the flag that says it cannot be known. *)
Definition emergency_report : st cortex (Z * Z) := fun c =>
  if ls_cortex_m_emergency_stack_ok c
  then let '(usage, c) := ls_cortex_m_emergency_stack_usage c in (usage, 0, c)
  else (0, LS_MINIMAL_SNAPSHOT_EMERGENCY_STACK_CORRUPT, c).

(** [fpscr] is not valid while its lazy stacking is pending. *)
Definition lazy_frame (r : ls_result_t) (f : ls_cortex_m_exception_frame_t) : ls_cortex_m_exception_frame_t :=
  if is_ok r && negb (Z.land (fr_flags f) LS_MINIMAL_SNAPSHOT_FPU_FRAME =? 0) && fpu_lazy_state_active
  then mk_frame (fr_r0 f) (fr_r1 f) (fr_r2 f) (fr_r3 f) (fr_r12 f) (fr_lr f) (fr_pc f) (fr_xpsr f) 0
         (Z.lor (fr_flags f) LS_MINIMAL_SNAPSHOT_FPU_LAZY)
  else f.

Definition ls_cortex_m_fault_from_saved (raw_frame : Z) (saved : option ls_cortex_m_saved_t) (s : cortex * retained)
  : option (cortex * list store) :=
  let '(c, m) := s in
  let cfsr := reg 0xe000ed28 in
  let hfsr := reg 0xe000ed2c in
  let field (get : ls_cortex_m_saved_t -> Z) := match saved with Some v => get v | None => 0 end in
  '(r, f) ← ls_cortex_m_decode_exception_frame mem (cx_bounds c) raw_frame saved SET;
  let f := lazy_frame r f in
  let '(stack_usage, corrupt, c) := emergency_report c in
  let '(sequence, c) := fault_sequence_next c in
  Some (c, ls_capture_minimal_fault wide (fr_pc f) (fr_lr f) (field sv_msp) (field sv_psp) cfsr hfsr (field sv_fault_kind)
             (field sv_exc_return) (fr_xpsr f) (fr_fpscr f) (Z.lor (fr_flags f) corrupt) stack_usage sequence m).

Definition ls_cortex_m_fault_recursive (fault_kind exc_return msp psp : Z) (s : cortex * retained) : cortex * list store :=
  let '(c, m) := s in
  let '(stack_usage, corrupt, c) := emergency_report c in
  let '(sequence, c) := fault_sequence_next c in
  (c, ls_capture_minimal_fault wide 0 0 msp psp 0 0 fault_kind exc_return 0 0 (Z.lor LS_MINIMAL_SNAPSHOT_RECURSIVE corrupt)
        stack_usage sequence m).

(** [ls_cortex_m_fault_common] of the assembly: the first fault is captured, a fault while
    it is captured leaves a record of the recursion, and any further one nothing. *)
Definition ls_cortex_m_fault_common (fault_kind exc_return msp psp : Z) (s : cortex * retained) : option (cortex * retained) :=
  let '(c, m) := s in
  if cx_active c =? 0 then
    let saved := {| sv_msp := msp; sv_psp := psp; sv_exc_return := exc_return; sv_fault_kind := fault_kind |} in
    let raw_frame := if Z.land exc_return LS_CORTEX_M_EXC_RETURN_PSP =? 0 then msp else psp in
    '(c, stores) ← ls_cortex_m_fault_from_saved raw_frame (Some saved) (with_active 1 c, m);
    Some (c, run stores m)
  else if cx_active c =? 1 then
    let '(c, stores) := ls_cortex_m_fault_recursive fault_kind exc_return msp psp (with_active 2 c, m) in
    Some (c, run stores m)
  else Some s.
End Handler.

(** ** The decoder reads only inside the bounds *)

(** The word at [a] lies in a stack whose bounds are set. *)
Definition inside (b : ls_cortex_m_stack_bounds_t) (a : Z) : Prop :=
  a mod 4 = 0 /\
  ((msp_ready b = true /\ msp_lower b <= a /\ a + 4 <= msp_upper b) \/
   (psp_ready b = true /\ psp_lower b <= a /\ a + 4 <= psp_upper b)).

(** Memory can be read there; elsewhere an access may fault. *)
Definition stacks_readable (mem : Z -> option Z) (b : ls_cortex_m_stack_bounds_t) : Prop :=
  forall a, inside b a -> exists v, mem a = Some v /\ is_u32 v.

Definition uses_psp (saved : ls_cortex_m_saved_t) : bool := negb (Z.land (sv_exc_return saved) LS_CORTEX_M_EXC_RETURN_PSP =? 0).
Definition is_extended (saved : ls_cortex_m_saved_t) : bool := Z.land (sv_exc_return saved) LS_CORTEX_M_EXC_RETURN_FPU =? 0.
Definition frame_bytes (saved : ls_cortex_m_saved_t) : Z := if is_extended saved then 104 else 32.

(** A frame that is believed: the exception return is one, the frame is where the selected
    stack pointer points, and all of it is inside that stack. *)
Definition frame_trusted (b : ls_cortex_m_stack_bounds_t) (raw_frame : Z) (saved : ls_cortex_m_saved_t) : Prop :=
  exc_return_valid (sv_exc_return saved) = true /\ raw_frame <> 0 /\ raw_frame mod 4 = 0 /\
  if uses_psp saved
  then psp_ready b = true /\ raw_frame = sv_psp saved /\ psp_lower b <= raw_frame /\ raw_frame + frame_bytes saved <= psp_upper b
  else msp_ready b = true /\ raw_frame = sv_msp saved /\ msp_lower b <= raw_frame /\ raw_frame + frame_bytes saved <= msp_upper b.

(** Where the decoder finds the registers of the program. *)
Definition core_address (raw_frame : Z) (saved : ls_cortex_m_saved_t) : Z :=
  if is_extended saved then raw_frame + 72 else raw_frame.

Definition frame_holds (mem : Z -> option Z) (raw_frame : Z) (saved : ls_cortex_m_saved_t) (f : ls_cortex_m_exception_frame_t) : Prop :=
  let core := core_address raw_frame saved in
  mem core = Some (fr_r0 f) /\ mem (core + 4) = Some (fr_r1 f) /\ mem (core + 8) = Some (fr_r2 f) /\
  mem (core + 12) = Some (fr_r3 f) /\ mem (core + 16) = Some (fr_r12 f) /\ mem (core + 20) = Some (fr_lr f) /\
  mem (core + 24) = Some (fr_pc f) /\ mem (core + 28) = Some (fr_xpsr f) /\
  (if is_extended saved then mem (raw_frame + 64) = Some (fr_fpscr f) else fr_fpscr f = 0) /\
  Forall is_u32 [fr_lr f; fr_pc f; fr_xpsr f; fr_fpscr f].

Lemma word_aligned_spec a : word_aligned a = true <-> a mod 4 = 0.
Proof. unfold word_aligned. change 3 with (Z.ones 2). rewrite Z.land_ones by lia. change (2 ^ 2) with 4. apply Z.eqb_eq. Qed.

(** The eight words of the basic frame. *)
Lemma eight_words mem core : (forall i, 0 <= i < 8 -> exists v, mem (core + 4 * i) = Some v /\ is_u32 v) ->
  exists r0 r1 r2 r3 r12 lr pc x, mem core = Some r0 /\ mem (core + 4) = Some r1 /\ mem (core + 8) = Some r2 /\
    mem (core + 12) = Some r3 /\ mem (core + 16) = Some r12 /\ mem (core + 20) = Some lr /\ mem (core + 24) = Some pc /\
    mem (core + 28) = Some x /\ is_u32 lr /\ is_u32 pc /\ is_u32 x.
Proof.
  intros H. destruct (H 0) as (r0 & E0 & _); [lia|]. rewrite Z.add_0_r in E0.
  destruct (H 1 ltac:(lia)) as (r1 & E1 & _), (H 2 ltac:(lia)) as (r2 & E2 & _), (H 3 ltac:(lia)) as (r3 & E3 & _).
  destruct (H 4 ltac:(lia)) as (r12 & E12 & _), (H 5 ltac:(lia)) as (lr & El & Ul), (H 6 ltac:(lia)) as (pc & Ep & Up).
  destruct (H 7 ltac:(lia)) as (x & Ex & Ux). exists r0, r1, r2, r3, r12, lr, pc, x. by split_and!.
Qed.

Lemma read_frame_spec mem raw saved f : (forall a, raw <= a -> a + 4 <= raw + frame_bytes saved -> a mod 4 = 0 -> exists v, mem a = Some v /\ is_u32 v) ->
  raw mod 4 = 0 ->
  exists f', read_frame mem raw (is_extended saved) f = Some f' /\ frame_holds mem raw saved f' /\
    fr_flags f' = Z.lor (fr_flags f) LS_MINIMAL_SNAPSHOT_FRAME_VALID.
Proof.
  intros Hmem Ha. assert (forall i, 0 <= i -> 4 * i + 4 <= frame_bytes saved -> exists v, mem (raw + 4 * i) = Some v /\ is_u32 v) as Hw.
  { intros i Hi Hb. apply Hmem; [lia|lia|]. rewrite Z.add_mod, Ha, (Z.mul_comm 4), Z.mod_mul by lia. done. }
  assert (forall i, 0 <= i < 8 -> exists v, mem (core_address raw saved + 4 * i) = Some v /\ is_u32 v) as Hc.
  { intros i Hi. unfold core_address, frame_bytes in *. destruct (is_extended saved); [|apply Hw; lia].
    destruct (Hw (18 + i)) as (v & Hv & Hu); [lia|lia|]. exists v. split; [|done]. rewrite <- Hv. f_equal. lia. }
  destruct (eight_words mem _ Hc) as (r0 & r1 & r2 & r3 & r12 & lr & pc & x & E0 & E1 & E2 & E3 & E12 & El & Ep & Ex & Ul & Up & Ux).
  assert (exists s, (if is_extended saved then frame_word mem raw 16 else Some 0) = Some s /\ is_u32 s /\
    (if is_extended saved then mem (raw + 64) = Some s else s = 0)) as (s & Es & Us & Hs).
  { unfold frame_bytes in Hw. destruct (is_extended saved); [|by exists 0]. destruct (Hw 16) as (v & Hv & Hu); [lia|lia|]. exists v. done. }
  unfold read_frame. rewrite Es. unfold frame_word. change (raw + 4 * LS_CORTEX_M_FPU_FRAME_WORDS) with (raw + 72).
  fold (core_address raw saved). cbn [mbind option_bind]. rewrite Z.mul_0_r, Z.add_0_r, E0.
  change (4 * 1) with 4. change (4 * 2) with 8. change (4 * 3) with 12. change (4 * 4) with 16. change (4 * 5) with 20.
  change (4 * 6) with 24. change (4 * 7) with 28. cbn [mbind option_bind]. rewrite E1, E2, E3, E12, El, Ep, Ex. eexists. split; [reflexivity|].
  split; [|done]. unfold frame_holds. cbn [fr_r0 fr_r1 fr_r2 fr_r3 fr_r12 fr_lr fr_pc fr_xpsr fr_fpscr]. split_and!; try done.
  by repeat apply List.Forall_cons.
Qed.

Lemma range_contains lower upper a n : 0 < n ->
  stack_range_contains lower upper a n = true <-> a mod 4 = 0 /\ lower <= a /\ a + n <= upper.
Proof.
  intros Hn. unfold stack_range_contains. rewrite <- word_aligned_spec. destruct (word_aligned a); cbn [negb].
  - destruct (_ || _) eqn:E; split; intros H; try done; blia.
  - rewrite orb_true_r. split; [done|]. by intros [? _].
Qed.

(** What the flags say. *)
Definition flags_tell (b : ls_cortex_m_stack_bounds_t) (saved : ls_cortex_m_saved_t) (trusted : bool) (fl : Z) : Prop :=
  has_flag fl LS_MINIMAL_SNAPSHOT_FRAME_VALID = trusted /\
  has_flag fl LS_MINIMAL_SNAPSHOT_MSP_VALID = msp_ready b && stack_pointer_in_bounds (msp_lower b) (msp_upper b) (sv_msp saved) /\
  has_flag fl LS_MINIMAL_SNAPSHOT_PSP_VALID = psp_ready b && stack_pointer_in_bounds (psp_lower b) (psp_upper b) (sv_psp saved) /\
  has_flag fl LS_MINIMAL_SNAPSHOT_STACK_BOUNDS_UNAVAILABLE = negb (msp_ready b && psp_ready b) /\
  has_flag fl LS_MINIMAL_SNAPSHOT_EXC_RETURN_INVALID = negb (exc_return_valid (sv_exc_return saved)) /\
  has_flag fl LS_MINIMAL_SNAPSHOT_FPU_FRAME = exc_return_valid (sv_exc_return saved) && is_extended saved /\
  has_flag fl LS_MINIMAL_SNAPSHOT_RECURSIVE = false /\ has_flag fl LS_MINIMAL_SNAPSHOT_EMERGENCY_STACK_CORRUPT = false /\ is_u16 fl.

(** The decoder never reads outside the bounds, whatever the registers held: it believes a
    frame exactly if it may, and then holds its words. *)
Lemma decode_spec mem b raw saved : stacks_readable mem b ->
  exists r f, ls_cortex_m_decode_exception_frame mem b raw (Some saved) SET = Some (r, f) /\
    flags_tell b saved (is_ok r) (fr_flags f) /\
    if is_ok r then frame_trusted b raw saved /\ frame_holds mem raw saved f
    else ~ frame_trusted b raw saved /\ fr_pc f = 0 /\ fr_lr f = 0 /\ fr_xpsr f = 0 /\ fr_fpscr f = 0.
Proof.
  intros Hmem. unfold ls_cortex_m_decode_exception_frame. cbn [SET negb]. cbv zeta. unfold flags_tell.
  fold (uses_psp saved) (is_extended saved).
  set (mv := msp_ready b && _). set (pv := psp_ready b && _). set (un := negb (msp_ready b) || negb (psp_ready b)).
  assert (negb (msp_ready b && psp_ready b) = un) as -> by (unfold un; by destruct (msp_ready b), (psp_ready b)).
  destruct (exc_return_valid (sv_exc_return saved)) eqn:Ev; cbn [negb andb].
  2: { eexists _, _. split; [reflexivity|]. split; [clearbody mv pv un; by destruct mv, pv, un|]. cbn [is_ok].
       split; [intros [H _]; congruence|]. clearbody mv pv un. by destruct mv, pv, un. }
  set (f := frame_flag_if (is_extended saved) _ _).
  assert (fr_pc f = 0 /\ fr_lr f = 0 /\ fr_xpsr f = 0 /\ fr_fpscr f = 0) as Hzero
    by (unfold f; clearbody mv pv un; destruct mv, pv, un, (is_extended saved); by split_and!).
  assert (forall t : bool, has_flag (if t then Z.lor (fr_flags f) LS_MINIMAL_SNAPSHOT_FRAME_VALID else fr_flags f)
    LS_MINIMAL_SNAPSHOT_FRAME_VALID = t /\
    let fl := if t then Z.lor (fr_flags f) LS_MINIMAL_SNAPSHOT_FRAME_VALID else fr_flags f in
    has_flag fl LS_MINIMAL_SNAPSHOT_MSP_VALID = mv /\ has_flag fl LS_MINIMAL_SNAPSHOT_PSP_VALID = pv /\
    has_flag fl LS_MINIMAL_SNAPSHOT_STACK_BOUNDS_UNAVAILABLE = un /\ has_flag fl LS_MINIMAL_SNAPSHOT_EXC_RETURN_INVALID = false /\
    has_flag fl LS_MINIMAL_SNAPSHOT_FPU_FRAME = is_extended saved /\ has_flag fl LS_MINIMAL_SNAPSHOT_RECURSIVE = false /\
    has_flag fl LS_MINIMAL_SNAPSHOT_EMERGENCY_STACK_CORRUPT = false /\ is_u16 fl) as Hflags
    by (intros t; unfold f; clearbody mv pv un; destruct t, mv, pv, un, (is_extended saved); by split_and!).
  set (lower := if uses_psp saved then psp_lower b else _). set (upper := if uses_psp saved then psp_upper b else _).
  set (n := (if is_extended saved then _ else _) * 4). assert (n = frame_bytes saved) as En by (unfold n, frame_bytes; by destruct (is_extended saved)).
  assert (0 < n) as Hn by (rewrite En; unfold frame_bytes; destruct (is_extended saved); lia).
  destruct (_ || _ || (raw =? 0)) eqn:E1.
  { exists LS_ECORRUPT, f. split; [done|]. split; [exact (Hflags false)|]. split; [|done]. intros (_ & Hr & _ & H).
    destruct (uses_psp saved); destruct H as (Hy & _); rewrite Hy in E1; cbn in E1; blia. }
  destruct (negb (raw =? _) || _) eqn:E2.
  { exists LS_ECORRUPT, f. split; [done|]. split; [exact (Hflags false)|]. split; [|done]. intros (_ & Hr & Ha & H). rewrite En in E2.
    assert (stack_range_contains lower upper raw (frame_bytes saved) = true) as Hc.
    { apply range_contains; [lia|]. unfold lower, upper. destruct (uses_psp saved); by destruct H as (_ & _ & H1 & H2). }
    rewrite Hc in E2. destruct (uses_psp saved); destruct H as (_ & -> & _); by rewrite Z.eqb_refl in E2. }
  apply orb_false_iff in E2 as [E2 E3]. apply negb_false_iff, Z.eqb_eq in E2. apply negb_false_iff in E3.
  apply range_contains in E3 as (Ha & Hlo & Hup); [|exact Hn].
  assert (if uses_psp saved then psp_ready b = true else msp_ready b = true) as Hready
    by (destruct (uses_psp saved), (psp_ready b), (msp_ready b); done).
  destruct (read_frame_spec mem raw saved f) as (f' & -> & Hf & Hfl); [|exact Ha|].
  { intros a H1 H2 H3. apply Hmem. split; [exact H3|]. unfold lower, upper in *. destruct (uses_psp saved); [right|left]; split_and!; try done; lia. }
  exists LS_OK, f'. split; [done|]. split; [rewrite Hfl; exact (Hflags true)|]. split; [|exact Hf].
  split; [done|]. split; [intros ->; by rewrite orb_true_r in E1|]. split; [exact Ha|]. rewrite <- En.
  unfold lower, upper in *. by destruct (uses_psp saved).
Qed.

(** ** The handlers leave a snapshot *)

Lemma has_flag_lor a b k : has_flag (Z.lor a b) k = has_flag a k || has_flag b k.
Proof.
  unfold has_flag. rewrite Z.land_lor_distr_l. destruct (Z.land a k =? 0) eqn:Ea, (Z.land b k =? 0) eqn:Eb; cbn [negb orb].
  - apply Z.eqb_eq in Ea, Eb. by rewrite Ea, Eb.
  - apply Z.eqb_eq in Ea. rewrite Ea, Z.lor_0_l. by rewrite Eb.
  - apply Z.eqb_eq in Eb. rewrite Eb, Z.lor_0_r. by rewrite Ea.
  - apply Z.eqb_neq in Ea. apply negb_true_iff, Z.eqb_neq. rewrite Z.lor_eq_0_iff. tauto.
Qed.

Lemma lor_u16 a b : is_u16 a -> is_u16 b -> is_u16 (Z.lor a b).
Proof.
  unfold is_u16. intros Ha Hb. apply (lor_bound 16); lia.
Qed.

Lemma first_used_range l : forall i, i <= first_used l i <= i + zlen l.
Proof.
  induction l as [|b l IH]; intros i; cbn [first_used]; [unfold zlen; simpl; lia|]. rewrite zlen_cons.
  pose proof (zlen_nonneg l). destruct (b =? 165); [specialize (IH (i + 1)); lia|lia].
Qed.

(** Nothing of the stack above the canary was used after [ls_cortex_m_init]; the high-water
    mark only rises, and bounds every usage that was reported. *)
Theorem stack_usage_bounded c usage c' : zlen (cx_stack c) = LS_EMERGENCY_STACK_SIZE ->
  ls_cortex_m_emergency_stack_usage c = (usage, c') ->
  0 <= usage <= LS_EMERGENCY_STACK_SIZE /\ cx_stack c' = cx_stack c /\ cx_bounds c' = cx_bounds c /\ cx_active c' = cx_active c /\
  cx_sequence c' = cx_sequence c /\ cx_high_water c' = Z.max (cx_high_water c) usage.
Proof.
  intros Hz. unfold ls_cortex_m_emergency_stack_usage. cbv zeta. unfold LS_EMERGENCY_STACK_SIZE in *.
  pose proof (first_used_range (drop 4 (cx_stack c)) 4) as Hr. unfold zlen in *. rewrite length_drop in Hr.
  set (u := if ls_cortex_m_emergency_stack_ok c then _ else _).
  assert (0 <= u <= 768) as Hu by (unfold u; destruct (ls_cortex_m_emergency_stack_ok c); lia). clearbody u.
  intros [<- <-]%pair_equal_spec. split; [done|]. destruct (_ <? u) eqn:E; split_and!; try done; cbn; blia.
Qed.

Lemma report_spec c usage corrupt c' : zlen (cx_stack c) = LS_EMERGENCY_STACK_SIZE -> emergency_report c = (usage, corrupt, c') ->
  is_u32 usage /\ corrupt = (if ls_cortex_m_emergency_stack_ok c then 0 else LS_MINIMAL_SNAPSHOT_EMERGENCY_STACK_CORRUPT) /\
  cx_stack c' = cx_stack c /\ cx_active c' = cx_active c.
Proof.
  intros Hz. unfold emergency_report. destruct (ls_cortex_m_emergency_stack_ok c).
  - destruct (ls_cortex_m_emergency_stack_usage c) as [u c1] eqn:E. intros [= <- <- <-].
    apply stack_usage_bounded in E as (Hu & E1 & E2 & E3 & _); [|exact Hz]. unfold LS_EMERGENCY_STACK_SIZE in Hu.
    split; [unfold is_u32; lia|]. by split_and!.
  - intros [= <- <- <-]. by split_and!.
Qed.

Lemma sequence_spec c q c' : fault_sequence_next c = (q, c') ->
  is_u32 q /\ q <> 0 /\ cx_stack c' = cx_stack c /\ cx_active c' = cx_active c.
Proof.
  unfold fault_sequence_next. cbv zeta. pose proof (u32_range (cx_sequence c + 1)). fold (inc32 (cx_sequence c)) in *.
  destruct (inc32 (cx_sequence c) =? 0) eqn:E; intros [= <- <-]; split_and!; try done. blia.
Qed.

(** The record a call of [ls_capture_minimal_fault] writes is what the next boot reads. *)
Lemma minimal_fault_read wide pc lr msp psp cfsr hfsr fault exc_return xpsr fpscr flags used sequence m :
  zlen (rm_minimal m) = minimal_size ->
  Forall is_u32 [pc; lr; msp; psp; cfsr; hfsr; rm_build_hash m; fault; flags; exc_return; xpsr; fpscr; used; sequence] ->
  let s := minimal_record pc lr msp psp cfsr hfsr (rm_build_hash m) fault exc_return xpsr fpscr flags used sequence
             LS_ARCH_UNKNOWN (replicate 16 0) 0 0 0 0 in
  let m' := run (ls_capture_minimal_fault wide pc lr msp psp cfsr hfsr fault exc_return xpsr fpscr flags used sequence m) m in
  (exists c1 c2 c3, ls_minimal_snapshot_read m' = Some (with_checksums LS_MINIMAL_MAGIC c1 c2 c3 s)) /\
  zlen (rm_minimal m') = minimal_size /\ rm_build_hash m' = rm_build_hash m.
Proof.
  intros Hz Hw s m'. assert (snapshot_ok s) as Hs.
  { split; try done. unfold minimal_words. cbn [minimal_record s mn_registers mn_magic mn_version mn_pc mn_lr mn_msp mn_psp mn_cfsr mn_hfsr
      mn_build_hash mn_crc mn_fault mn_flags mn_exc_return mn_xpsr mn_fpscr mn_emergency_stack_used mn_fault_sequence mn_extension_crc
      mn_architecture mn_ps mn_sar mn_exccause mn_excvaddr mn_context_crc].
    assert (is_u32 0 /\ is_u32 LS_MINIMAL_SNAPSHOT_VERSION) as [H0 Hv] by (split; split; vm_compute; done || discriminate).
    rewrite !Forall_app. rewrite !Forall_cons in Hw. destruct_and!. rewrite !Forall_cons. split_and!; first [done|exact H0|apply List.Forall_nil|by apply Forall_replicate]. }
  unfold m', ls_capture_minimal_fault, minimal_snapshot_store. fold s. rewrite run_app. set (m1 := run (wide_snapshot_clear wide) m).
  assert (zlen (rm_minimal m1) = minimal_size) as Hz1 by (unfold m1; by destruct wide). split; [|split].
  - eexists _, _, _. exact (snapshot_reads _ Hs m1 Hz1).
  - rewrite (stored_snapshot _ Hs m1 Hz1). cbn [rm_minimal set_minimal]. rewrite <- minimal_image_words, zlen_words_bytes.
    unfold minimal_words. done.
  - rewrite (stored_snapshot _ Hs m1 Hz1). unfold m1. by destruct wide.
Qed.

Section Recorded.
Context (mem : Z -> option Z) (reg : Z -> Z) (has_fpu wide : bool).
Context (Hreg : forall a, is_u32 (reg a)).

(** The state in which a fault finds the device. *)
Record device_ok (c : cortex) (m : retained) : Prop := {
  dv_stack : zlen (cx_stack c) = LS_EMERGENCY_STACK_SIZE;
  dv_minimal : zlen (rm_minimal m) = minimal_size;
  dv_hash : is_u32 (rm_build_hash m)
}.

Definition corrupt_reported (c : cortex) (s : ls_minimal_snapshot_t) : Prop :=
  has_flag (mn_flags s) LS_MINIMAL_SNAPSHOT_EMERGENCY_STACK_CORRUPT = negb (ls_cortex_m_emergency_stack_ok c).

(** What a first fault leaves: the registers of the frame if it is believed, and no
    register of the program otherwise. *)
Definition fault_record (c : cortex) (saved : ls_cortex_m_saved_t) (raw_frame : Z) (m : retained) (s : ls_minimal_snapshot_t) : Prop :=
  mn_fault s = sv_fault_kind saved /\ mn_exc_return s = sv_exc_return saved /\ mn_msp s = sv_msp saved /\ mn_psp s = sv_psp saved /\
  mn_cfsr s = reg 0xe000ed28 /\ mn_hfsr s = reg 0xe000ed2c /\ mn_build_hash s = rm_build_hash m /\ mn_fault_sequence s <> 0 /\
  corrupt_reported c s /\ has_flag (mn_flags s) LS_MINIMAL_SNAPSHOT_RECURSIVE = false /\
  ((has_flag (mn_flags s) LS_MINIMAL_SNAPSHOT_FRAME_VALID = true /\ frame_trusted (cx_bounds c) raw_frame saved /\
    mem (core_address raw_frame saved + 20) = Some (mn_lr s) /\ mem (core_address raw_frame saved + 24) = Some (mn_pc s) /\
    mem (core_address raw_frame saved + 28) = Some (mn_xpsr s)) \/
   (has_flag (mn_flags s) LS_MINIMAL_SNAPSHOT_FRAME_VALID = false /\ ~ frame_trusted (cx_bounds c) raw_frame saved /\
    mn_pc s = 0 /\ mn_lr s = 0 /\ mn_xpsr s = 0)).

Lemma lazy_frame_spec r f : let f' := lazy_frame reg has_fpu r f in
  fr_pc f' = fr_pc f /\ fr_lr f' = fr_lr f /\ fr_xpsr f' = fr_xpsr f /\ (is_u32 (fr_fpscr f) -> is_u32 (fr_fpscr f')) /\
  has_flag (fr_flags f') LS_MINIMAL_SNAPSHOT_FRAME_VALID = has_flag (fr_flags f) LS_MINIMAL_SNAPSHOT_FRAME_VALID /\
  has_flag (fr_flags f') LS_MINIMAL_SNAPSHOT_RECURSIVE = has_flag (fr_flags f) LS_MINIMAL_SNAPSHOT_RECURSIVE /\
  has_flag (fr_flags f') LS_MINIMAL_SNAPSHOT_EMERGENCY_STACK_CORRUPT = has_flag (fr_flags f) LS_MINIMAL_SNAPSHOT_EMERGENCY_STACK_CORRUPT /\
  (is_u16 (fr_flags f) -> is_u16 (fr_flags f')).
Proof.
  cbv zeta. unfold lazy_frame. destruct (_ && _); [|by split_and!]. cbn. rewrite !has_flag_lor, !orb_false_r. split_and!; try done.
  intros H. by apply lor_u16.
Qed.

Lemma from_saved_spec c m raw saved : device_ok c m -> stacks_readable mem (cx_bounds c) ->
  Forall is_u32 [sv_msp saved; sv_psp saved; sv_exc_return saved; sv_fault_kind saved] ->
  exists c' stores s, ls_cortex_m_fault_from_saved mem reg has_fpu wide raw (Some saved) (c, m) = Some (c', stores) /\
    ls_minimal_snapshot_read (run stores m) = Some s /\ fault_record c saved raw m s /\
    device_ok c' (run stores m) /\ cx_active c' = cx_active c.
Proof.
  intros [D1 D2 D3] Hmem Hsv. unfold ls_cortex_m_fault_from_saved. cbv zeta.
  destruct (decode_spec mem (cx_bounds c) raw saved Hmem) as (r & f & -> & (F1 & F2 & F3 & F4 & F5 & F6 & F7 & F8 & F9) & Hcase).
  cbn [mbind option_bind]. destruct (lazy_frame_spec r f) as (L1 & L2 & L3 & L4 & L5 & L6 & L7 & L8). set (f' := lazy_frame reg has_fpu r f) in *.
  destruct (emergency_report c) as [[used corrupt] c1] eqn:Er. apply report_spec in Er as (Hu & Hc & R1 & R2); [|exact D1].
  destruct (fault_sequence_next c1) as [q c2] eqn:Eq. apply sequence_spec in Eq as (Hq & Hq0 & Q1 & Q2).
  assert (is_u16 corrupt) as Hc16 by (rewrite Hc; by destruct (ls_cortex_m_emergency_stack_ok c)).
  assert (is_u16 (Z.lor (fr_flags f') corrupt)) as Hfl by (apply lor_u16; auto).
  assert (is_u32 (fr_pc f) /\ is_u32 (fr_lr f) /\ is_u32 (fr_xpsr f) /\ is_u32 (fr_fpscr f)) as (U1 & U2 & U3 & U4).
  { destruct (is_ok r); [destruct Hcase as [_ (_ & _ & _ & _ & _ & _ & _ & _ & _ & H)]; rewrite !Forall_cons in H; tauto|].
    destruct Hcase as (_ & -> & -> & -> & ->). done. }
  rewrite !Forall_cons in Hsv. destruct_and!.
  destruct (minimal_fault_read wide (fr_pc f') (fr_lr f') (sv_msp saved) (sv_psp saved) (reg 0xe000ed28) (reg 0xe000ed2c)
    (sv_fault_kind saved) (sv_exc_return saved) (fr_xpsr f') (fr_fpscr f') (Z.lor (fr_flags f') corrupt) used q m D2)
    as ((k1 & k2 & k3 & Hread) & Hz & Hh).
  { rewrite L1, L2, L3. repeat apply List.Forall_cons; try done; [unfold is_u16, is_u32 in *; lia|by apply L4]. }
  eexists _, _, _. split; [reflexivity|]. split; [exact Hread|]. split; [|split; [split; [by rewrite Q1, R1|exact Hz|by rewrite Hh]|by rewrite Q2, R2]].
  unfold fault_record, corrupt_reported. cbn [with_checksums minimal_record mn_fault mn_exc_return mn_msp mn_psp mn_cfsr mn_hfsr mn_build_hash
    mn_fault_sequence mn_flags mn_pc mn_lr mn_xpsr]. rewrite !has_flag_lor, L1, L2, L3, L5, L6, L7.
  rewrite F1, F7, F8, Hc. split_and!; try done.
  - by destruct (ls_cortex_m_emergency_stack_ok c).
  - by destruct (ls_cortex_m_emergency_stack_ok c).
  - replace (has_flag (if ls_cortex_m_emergency_stack_ok c then 0 else _) LS_MINIMAL_SNAPSHOT_FRAME_VALID) with false
      by (by destruct (ls_cortex_m_emergency_stack_ok c)). rewrite orb_false_r.
    destruct (is_ok r); [left; destruct Hcase as [Ht (_ & _ & _ & _ & _ & ? & ? & ? & _)]; by split_and!|right].
    destruct Hcase as (Ht & ? & ? & ? & _). by split_and!.
Qed.

Lemma recursive_spec c m kind exc_return msp psp : device_ok c m -> Forall is_u32 [kind; exc_return; msp; psp] ->
  exists c' stores s, ls_cortex_m_fault_recursive wide kind exc_return msp psp (c, m) = (c', stores) /\
    ls_minimal_snapshot_read (run stores m) = Some s /\ mn_fault s = kind /\ mn_exc_return s = exc_return /\ mn_msp s = msp /\ mn_psp s = psp /\
    has_flag (mn_flags s) LS_MINIMAL_SNAPSHOT_RECURSIVE = true /\ has_flag (mn_flags s) LS_MINIMAL_SNAPSHOT_FRAME_VALID = false /\
    corrupt_reported c s /\ cx_active c' = cx_active c.
Proof.
  intros [D1 D2 D3] Hw. unfold ls_cortex_m_fault_recursive.
  destruct (emergency_report c) as [[used corrupt] c1] eqn:Er. apply report_spec in Er as (Hu & Hc & R1 & R2); [|exact D1].
  destruct (fault_sequence_next c1) as [q c2] eqn:Eq. apply sequence_spec in Eq as (Hq & Hq0 & Q1 & Q2).
  assert (is_u16 (Z.lor LS_MINIMAL_SNAPSHOT_RECURSIVE corrupt)) as Hfl by (rewrite Hc; by destruct (ls_cortex_m_emergency_stack_ok c)).
  rewrite !Forall_cons in Hw. destruct_and!.
  destruct (minimal_fault_read wide 0 0 msp psp 0 0 kind exc_return 0 0 (Z.lor LS_MINIMAL_SNAPSHOT_RECURSIVE corrupt) used q m D2)
    as ((k1 & k2 & k3 & Hread) & _).
  { repeat apply List.Forall_cons; try done. unfold is_u16, is_u32 in *. lia. }
  eexists _, _, _. split; [reflexivity|]. split; [exact Hread|]. unfold corrupt_reported.
  cbn [with_checksums minimal_record mn_fault mn_exc_return mn_msp mn_psp mn_flags]. rewrite Hc.
  split_and!; try done; try (by destruct (ls_cortex_m_emergency_stack_ok c)). by rewrite Q2, R2.
Qed.

End Recorded.

(** *** A device *)

Definition demo_bounds : ls_cortex_m_stack_bounds_t :=
  {| msp_lower := 0x20000000; msp_upper := 0x20000100; psp_lower := 0; psp_upper := 0; msp_ready := true; psp_ready := false |}.

(** Memory with just that stack, where each word holds a different value. *)
Definition demo_mem (a : Z) : option Z :=
  if (0x20000000 <=? a) && (a <? 0x20000100) && (a mod 4 =? 0) then Some (u32 (0x08000000 + a)) else None.

Definition demo_device : cortex * retained :=
  ls_cortex_m_init (str "0123456789")
    (with_bounds demo_bounds (mk_cortex [] demo_bounds 0 0 0), mk_retained (fill 160 165) (fill 320 165) (fill 60 165) None 0 0 0).

Lemma demo_mem_readable : stacks_readable demo_mem demo_bounds.
Proof.
  intros a [Ha H]. unfold demo_mem. cbn [demo_bounds msp_ready psp_ready msp_lower msp_upper] in H.
  destruct H as [(_ & H1 & H2)|(? & _)]; [|done]. destruct (_ && _ && _) eqn:E; [|blia].
  eexists. split; [reflexivity|]. apply u32_range.
Qed.

Lemma demo_device_ok : device_ok (fst demo_device) (snd demo_device).
Proof. split; [vm_compute; reflexivity..|]. split; vm_compute; [discriminate|reflexivity]. Qed.


(** *** Extended frames

    A core with a floating-point unit stacks the basic frame at the lowest addresses and
    [S0]-[S15], [FPSCR] and a reserved word above it (ARMv7-M Architecture Reference Manual,
    B1.5.7). The decoder looks for them in the opposite order, so it takes the registers of
    the program from the floating-point words. *)
Definition arm_extended_frame (core s : list Z) (fpscr : Z) : list Z := core ++ s ++ [fpscr; 0].

Definition frame_memory (address : Z) (words : list Z) (a : Z) : option Z :=
  if a mod 4 =? 0 then words !! Z.to_nat ((a - address) / 4) else None.

Lemma extended_frame_misread :
  let core := [1; 2; 3; 4; 12; 0x08000101; 0x08000200; 0x21000000] in
  let frame := arm_extended_frame core (map (fun i => 0x3f000000 + Z.of_nat i) (List.seq 0 16)) 0x03000000 in
  let saved := {| sv_msp := 0x20000040; sv_psp := 0; sv_exc_return := 0xffffffe9; sv_fault_kind := 1 |} in
  exists f, ls_cortex_m_decode_exception_frame (frame_memory 0x20000040 frame) demo_bounds 0x20000040 (Some saved) SET = Some (LS_OK, f) /\
    fr_pc f = 0x03000000 /\ fr_fpscr f = 0x3f000008 /\ fr_r0 f = 0x3f00000a.
Proof. eexists. split; [vm_compute; reflexivity|]. by split_and!. Qed.
