(* ===== verification/Arch.v ===== *)
(** * RISC-V and Xtensa traps ([src/arch/riscv], [src/arch/riscv64], [src/arch/xtensa])

    The adapters that turn a saved register frame into a retained snapshot, with the
    recovery of the 64-bit registers from the companion record. The entry code in assembly
    and the special registers it sets up are not modelled; a trap handler does not return. *)

From S2P Require Import Prelude Util Envelope FaultInjection Storage Encode Retained Runtime.

Definition LS_ARCH_RISCV : Z := 2.
Definition LS_ARCH_XTENSA : Z := 3.

Record ls_riscv_saved_t : Type := { rs_x : list Z; rs_mstatus : Z; rs_mcause : Z; rs_mtval : Z; rs_mepc : Z }.

Record ls_xtensa_frame_t : Type := {
  xf_a : list Z; xf_pc : Z; xf_ps : Z; xf_sar : Z; xf_exccause : Z; xf_excvaddr : Z; xf_lbeg : Z; xf_lend : Z; xf_lcount : Z
}.

Definition reg_of (l : list Z) (i : nat) : Z := nth i l 0.

(** A context whose members are zero but for those of a RISC-V trap. *)
Definition riscv_context (s : ls_riscv_saved_t) : ls_arch_context_t :=
  {| ac_architecture := LS_ARCH_RISCV; ac_fault := LS_FAULT_TRAP; ac_registers := rs_x s; ac_lr := reg_of (rs_x s) 1;
     ac_pc := rs_mepc s; ac_xpsr := 0; ac_msp := reg_of (rs_x s) 2;
     ac_psp := 0; ac_control := 0; ac_primask := 0; ac_basepri := 0; ac_faultmask := 0; ac_exc_return := 0; ac_cfsr := 0;
     ac_hfsr := 0; ac_dfsr := 0; ac_afsr := 0; ac_mmfar := 0; ac_bfar := 0; ac_shcsr := 0; ac_icsr := 0; ac_vtor := 0;
     ac_sfsr := 0; ac_sfar := 0; ac_s := replicate 16 0; ac_fpscr := 0; ac_mcause := rs_mcause s; ac_mtval := rs_mtval s;
     ac_mstatus := rs_mstatus s; ac_mepc := rs_mepc s; ac_exccause := 0; ac_excvaddr := 0; ac_ps := 0; ac_sar := 0;
     ac_fault_address := 0; ac_signal_number := 0; ac_has_fpu := false; ac_fpu_lazy := false |}.

Definition ls_riscv_init (build_id : list Z) (m : retained) : retained := ls_capture_minimal_prepare build_id m.
Definition ls_riscv_trap_from_saved (wide : bool) (saved : ls_riscv_saved_t) (m : retained) : list store :=
  ls_capture_minimal_context_fault wide (Some (riscv_context saved)) m.

(** [ls_riscv64_saved_t] is [ls_riscv64_context_t]. *)
Definition ls_riscv64_init (build_id : list Z) (m : retained) : retained := ls_capture_minimal_prepare build_id m.
Definition ls_riscv64_capture_minimal_from_saved (wide : bool) (saved : option ls_riscv64_context_t) (m : retained) : list store :=
  match saved with
  | None => []
  | Some s => ls_capture_minimal_riscv64_fault wide (Some (rv_x s)) (rv_mstatus s) (rv_mcause s) (rv_mtval s) (rv_mepc s) m
  end.
Definition ls_riscv64_trap_from_saved (wide : bool) (saved : option ls_riscv64_context_t) (m : retained) : list store :=
  ls_riscv64_capture_minimal_from_saved wide saved m.

(** The registers [a0]-[a15] are the first sixteen of thirty-two. *)
Definition frame_to_context (frame : option ls_xtensa_frame_t) : option ls_arch_context_t :=
  match frame with
  | None => None
  | Some f =>
      Some {| ac_architecture := LS_ARCH_XTENSA; ac_fault := LS_FAULT_TRAP; ac_registers := take 16 (xf_a f) ++ replicate 16 0;
              ac_lr := reg_of (xf_a f) 0; ac_pc := xf_pc f; ac_xpsr := 0; ac_msp := 0;
              ac_psp := 0; ac_control := 0; ac_primask := 0; ac_basepri := 0; ac_faultmask := 0; ac_exc_return := 0; ac_cfsr := 0;
              ac_hfsr := 0; ac_dfsr := 0; ac_afsr := 0; ac_mmfar := 0; ac_bfar := 0; ac_shcsr := 0; ac_icsr := 0; ac_vtor := 0;
              ac_sfsr := 0; ac_sfar := 0; ac_s := replicate 16 0; ac_fpscr := 0; ac_mcause := 0; ac_mtval := 0; ac_mstatus := 0;
              ac_mepc := 0; ac_exccause := xf_exccause f; ac_excvaddr := xf_excvaddr f; ac_ps := xf_ps f; ac_sar := xf_sar f;
              ac_fault_address := xf_excvaddr f; ac_signal_number := 0; ac_has_fpu := false; ac_fpu_lazy := false |}
  end.

Definition ls_xtensa_capture_minimal_frame (wide : bool) (frame : option ls_xtensa_frame_t) (m : retained) : list store :=
  match frame_to_context frame with
  | Some c => ls_capture_minimal_context_fault wide (Some c) m
  | None => []
  end.

Definition ls_xtensa_capture_frame {E W D X} (build_id : list Z) (config : ls_config_t W)
    (storage : option (ls_storage_backend_t (platform D))) (memory : Z -> Z -> list Z) (wide : bool) (stack : Z -> list Z)
    (frame : option ls_xtensa_frame_t) (p : @state E W D X) : @state E W D X :=
  match frame_to_context frame with
  | Some c => snd (ls_capture_cpu_context build_id config storage memory wide stack (Some c) p)
  | None => p
  end.

(** ** A 64-bit trap is recovered with all its registers *)

Definition longs_bytes (l : list Z) : list Z := mjoin (map (le 8) l).

Lemma zlen_longs_bytes l : zlen (longs_bytes l) = 8 * zlen l.
Proof.
  induction l as [|w l IH]; [done|]. change (longs_bytes (w :: l)) with (le 8 w ++ longs_bytes l).
  rewrite zlen_app, zlen_le, IH, zlen_cons. lia.
Qed.

Lemma read_long p l i w rest : l !! i = Some w -> 0 <= w < 2 ^ 64 ->
  read_u64 (p ++ longs_bytes l ++ rest) (zlen p + 8 * Z.of_nat i) = w.
Proof.
  intros Hl Hw. apply take_drop_middle in Hl. rewrite <- Hl. unfold longs_bytes. rewrite map_app, join_app.
  change (mjoin (map (le 8) (w :: drop (S i) l))) with (le 8 w ++ longs_bytes (drop (S i) l)). fold (longs_bytes (take i l)).
  unfold read_u64. rewrite <- !app_assoc, (app_assoc p), slice_middle; [by apply le_get_le| |done].
  rewrite zlen_app, zlen_longs_bytes. unfold zlen. apply (f_equal length) in Hl.
  rewrite length_app, length_take in Hl. simpl in Hl. rewrite length_drop in Hl. rewrite length_take. lia.
Qed.

Lemma run_wide4 l off m : 0 <= off -> off + 4 * zlen l <= zlen (rm_wide m) ->
  run (in_order (fun off w => to_wide 4 off (fun _ => w)) 4 off l) m = set_wide (splice off (words_bytes l) (rm_wide m)) m.
Proof.
  intros. apply (run_in_order (fun off w => to_wide 4 off (fun _ => w)) (fun m => Some (rm_wide m)) set_wide (le 4)); try done.
  - intros ?? m0 ? [= <-]. done.
  - by intros [] ? [= <-].
Qed.

Lemma run_wide8 l off m : 0 <= off -> off + 8 * zlen l <= zlen (rm_wide m) ->
  run (in_order (fun off w => to_wide 8 off (fun _ => w)) 8 off l) m = set_wide (splice off (longs_bytes l) (rm_wide m)) m.
Proof.
  intros. apply (run_in_order (fun off w => to_wide 8 off (fun _ => w)) (fun m => Some (rm_wide m)) set_wide (le 8)); try done.
  - intros ?? m0 ? [= <-]. done.
  - by intros [] ? [= <-].
Qed.

Definition wide_tail (hash sequence : Z) : list Z :=
  [LS_WIDE_CONTEXT_SNAPSHOT_VERSION; LS_ARCH_RISCV64; LS_FAULT_TRAP; hash; sequence].
Definition wide_longs (r : ls_riscv64_context_t) : list Z := rv_x r ++ [rv_mstatus r; rv_mcause r; rv_mtval r; rv_mepc r].
Definition wide_body (r : ls_riscv64_context_t) (hash sequence : Z) : list Z :=
  words_bytes (wide_tail hash sequence) ++ longs_bytes (wide_longs r).
Definition wide_checksum r hash sequence : Z := ls_crc32 (le 4 LS_WIDE_CONTEXT_MAGIC ++ wide_body r hash sequence).

Record registers_ok (r : ls_riscv64_context_t) : Prop := {
  ro_count : length (rv_x r) = 32%nat;
  ro_longs : Forall (fun v => 0 <= v < 2 ^ 64) (wide_longs r)
}.

Section Wide.
Context (r : ls_riscv64_context_t) (ok : registers_ok r) (hash sequence : Z) (hash_ok : is_u32 hash) (sequence_ok : is_u32 sequence).

Lemma zlen_wide_body : zlen (wide_body r hash sequence) = 308.
Proof using ok.
  unfold wide_body. rewrite zlen_app, zlen_words_bytes, zlen_longs_bytes. unfold wide_longs. rewrite zlen_app.
  unfold zlen. rewrite (ro_count r ok). done.
Qed.

(** The companion record after all its stores. *)
Lemma wide_stored m : zlen (rm_wide m) = wide_size ->
  run (snd (wide_snapshot_store true (Some (rv_x r)) (rv_mstatus r) (rv_mcause r) (rv_mtval r) (rv_mepc r) hash sequence)) m =
  set_wide (le 4 LS_WIDE_CONTEXT_MAGIC ++ wide_body r hash sequence ++ le 4 (wide_checksum r hash sequence) ++ drop 316 (rm_wide m)) m.
Proof using ok.
  intros Hz. change wide_size with 320 in Hz. unfold wide_snapshot_store. cbn [negb snd]. rewrite !run_app.
  rewrite (take_ge (rv_x r) 32) by (rewrite (ro_count r ok); lia). fold (wide_longs r).
  set (heads := 0 :: wide_tail hash sequence). assert (zlen (words_bytes heads) = 24) as Zh by by rewrite zlen_words_bytes.
  assert (zlen (longs_bytes (wide_longs r)) = 288) as Zl.
  { rewrite zlen_longs_bytes. unfold wide_longs. rewrite zlen_app. unfold zlen. rewrite (ro_count r ok). done. }
  rewrite (run_wide4 heads) by (change (zlen heads) with 6; lia).
  rewrite run_wide8; [|lia|cbn [rm_wide set_wide]; rewrite zlen_splice by lia; rewrite <- zlen_longs_bytes; lia].
  change (rm_wide (set_wide ?l m)) with l. change (set_wide ?a (set_wide ?b m)) with (set_wide a m).
  assert (splice 24 (longs_bytes (wide_longs r)) (splice 0 (words_bytes heads) (rm_wide m)) =
    (words_bytes heads ++ longs_bytes (wide_longs r)) ++ drop 312 (rm_wide m)) as ->.
  { transitivity (splice 0 (words_bytes heads ++ longs_bytes (wide_longs r)) (rm_wide m)).
    - rewrite <- (splice_app 0) by lia. by rewrite Zh.
    - unfold splice. change (take (Z.to_nat 0) (rm_wide m)) with (@nil Z). rewrite app_nil_l. do 2 f_equal.
      unfold zlen in *. rewrite length_app. lia. }
  assert (words_bytes heads ++ longs_bytes (wide_longs r) = le 4 0 ++ wide_body r hash sequence) as E
    by (unfold wide_body; rewrite app_assoc; done).
  rewrite E. set (body := wide_body r hash sequence). assert (zlen body = 308) as Zb by apply zlen_wide_body.
  change 312%nat with (Z.to_nat 312). rewrite (drop_slice 312 4) by lia. change (Z.to_nat (312 + 4)) with 316%nat.
  set (a := slice 312 4 (rm_wide m)). set (pad := drop 316 (rm_wide m)). assert (zlen a = 4) as Za by (apply zlen_slice; lia).
  cbn [run foldl]. unfold to_wide. change (rm_wide (set_wide ?l m)) with l. change (set_wide ?x (set_wide ?y m)) with (set_wide x m).
  assert (wide_snapshot_fault_crc ((le 4 0 ++ body) ++ a ++ pad) offset_wide_crc = wide_checksum r hash sequence) as ->.
  { unfold wide_snapshot_fault_crc. rewrite fault_crc_spec by done. rewrite <- app_assoc.
    rewrite (slice_middle (le 4 0) body) by (rewrite ?zlen_le, ?Zb; done). done. }
  rewrite (splice_replace (le 4 0 ++ body) a) by (rewrite ?zlen_app, ?zlen_le, ?Zb, ?Za; done). rewrite <- (app_assoc (le 4 0)).
  f_equal.
Qed.

Lemma context_read data :
  (forall i w, wide_longs r !! i = Some w -> read_u64 data (24 + 8 * Z.of_nat i) = w) ->
  r = {| rv_x := map (fun i => read_u64 data (24 + 8 * Z.of_nat i)) (List.seq 0 32); rv_mstatus := read_u64 data (24 + 8 * 32);
         rv_mcause := read_u64 data (24 + 8 * 33); rv_mtval := read_u64 data (24 + 8 * 34); rv_mepc := read_u64 data (24 + 8 * 35) |}.
Proof using ok.
  intros Hl. pose proof (ro_count r ok) as Hx. unfold wide_longs in Hl. set (y := map _ _).
  assert (rv_x r = y) as Ey.
  { apply list_eq. intros i. unfold y. destruct (decide (i < 32)%nat) as [Hi|Hi].
    - destruct (rv_x r !! i) as [w|] eqn:E; [|apply lookup_ge_None in E; lia].
      change (map ?f ?l !! i) with ((f <$> l) !! i). rewrite list_lookup_fmap, lookup_seq_lt by done. cbn. f_equal. symmetry.
      apply Hl. by apply lookup_app_l_Some.
    - rewrite (lookup_ge_None_2 (rv_x r)) by lia. symmetry. apply lookup_ge_None_2. rewrite length_map, length_seq. lia. }
  clearbody y. destruct r as [x m1 m2 m3 m4]. cbn [rv_x rv_mstatus rv_mcause rv_mtval rv_mepc] in *. subst y.
  rewrite <- (Hl 32%nat m1), <- (Hl 33%nat m2), <- (Hl 34%nat m3), <- (Hl 35%nat m4); [done|..]; by rewrite lookup_app_r, Hx by lia.
Qed.

Lemma wide_read m : zlen (rm_wide m) = wide_size ->
  let m' := set_wide (le 4 LS_WIDE_CONTEXT_MAGIC ++ wide_body r hash sequence ++ le 4 (wide_checksum r hash sequence) ++ drop 316 (rm_wide m)) m in
  exists w, ls_wide_context_snapshot_read true m' = Some w /\ wd_context w = r /\ wd_architecture w = LS_ARCH_RISCV64 /\
    wd_fault w = LS_FAULT_TRAP /\ wd_build_hash w = hash /\ wd_fault_sequence w = sequence.
Proof using ok hash_ok sequence_ok.
  intros Hz m'. change wide_size with 320 in Hz. unfold ls_wide_context_snapshot_read. cbn [negb]. set (pad := drop 316 (rm_wide m)) in *.
  change (rm_wide m') with (le 4 LS_WIDE_CONTEXT_MAGIC ++ wide_body r hash sequence ++ le 4 (wide_checksum r hash sequence) ++ pad).
  set (k := wide_checksum r hash sequence). assert (is_u32 k) as Hk by apply crc32_range.
  set (data := le 4 LS_WIDE_CONTEXT_MAGIC ++ _). pose proof zlen_wide_body as Zb.
  set (heads := LS_WIDE_CONTEXT_MAGIC :: wide_tail hash sequence).
  assert (data = words_bytes heads ++ longs_bytes (wide_longs r) ++ le 4 k ++ pad) as Ed
    by (unfold data, wide_body; rewrite <- !app_assoc; done).
  assert (forall i w, heads !! i = Some w -> is_u32 w -> read_u32 data (4 * Z.of_nat i) = w) as Hh
    by (intros i w Hi Hw; rewrite Ed; by apply read_word).
  assert (forall i w, wide_longs r !! i = Some w -> read_u64 data (24 + 8 * Z.of_nat i) = w) as Hl.
  { intros i w Hi. rewrite Ed. change 24 with (zlen (words_bytes heads)). apply read_long; [exact Hi|].
    exact (Forall_lookup_1 _ _ _ _ (ro_longs r ok) Hi). }
  assert (wide_of_bytes data = {| wd_magic := LS_WIDE_CONTEXT_MAGIC; wd_version := LS_WIDE_CONTEXT_SNAPSHOT_VERSION;
    wd_architecture := LS_ARCH_RISCV64; wd_fault := LS_FAULT_TRAP; wd_build_hash := hash; wd_fault_sequence := sequence;
    wd_context := r; wd_crc := k |}) as ->.
  { assert (read_u32 data offset_wide_crc = k) as H6 by (unfold data; rewrite app_assoc; apply read_u32_at; [by rewrite zlen_app, zlen_le, Zb|done]).
    pose proof (Hh 4%nat _ eq_refl hash_ok) as H4. pose proof (Hh 5%nat _ eq_refl sequence_ok) as H5.
    pose proof (Hh 0%nat _ eq_refl ltac:(split; vm_compute; [discriminate|done])) as H0.
    pose proof (Hh 1%nat _ eq_refl ltac:(split; vm_compute; [discriminate|done])) as H1.
    pose proof (Hh 2%nat _ eq_refl ltac:(split; vm_compute; [discriminate|done])) as H2.
    pose proof (Hh 3%nat _ eq_refl ltac:(split; vm_compute; [discriminate|done])) as H3.
    pose proof (context_read data Hl) as Hc. clearbody data k. unfold wide_of_bytes. rewrite H6.
    change 4 with (4 * Z.of_nat 1) at 1. rewrite H1. change 0 with (4 * Z.of_nat 0) at 1. rewrite H0.
    change 8 with (4 * Z.of_nat 2) at 1. rewrite H2. change 12 with (4 * Z.of_nat 3) at 1. rewrite H3.
    change 16 with (4 * Z.of_nat 4) at 1. rewrite H4. change 20 with (4 * Z.of_nat 5) at 1. rewrite H5. by rewrite <- Hc. }
  cbn [wd_magic wd_version wd_architecture wd_fault wd_crc].
  assert (slice 0 offset_wide_crc data = le 4 LS_WIDE_CONTEXT_MAGIC ++ wide_body r hash sequence) as ->.
  { unfold data. rewrite app_assoc. apply slice_prefix. rewrite zlen_app, zlen_le, Zb. done. }
  change (ls_crc32 (le 4 LS_WIDE_CONTEXT_MAGIC ++ wide_body r hash sequence)) with k. rewrite !Z.eqb_refl. cbn [negb orb].
  eexists. split; [reflexivity|]. by split_and!.
Qed.
End Wide.

(** ** The traps *)

(** The record of a 64-bit trap. *)
Definition rv64_record (hash sequence flags : Z) (r : ls_riscv64_context_t) : ls_minimal_snapshot_t :=
  minimal_record (u32 (rv_mepc r)) (u32 (reg_of (rv_x r) 1)) (u32 (reg_of (rv_x r) 2)) 0 0 0 hash LS_FAULT_TRAP 0 0 0 flags 0 sequence
    LS_ARCH_RISCV64 (map u32 (take 16 (rv_x r))) 0 0 0 (u32 (rv_mtval r)).

Lemma rv64_record_ok hash sequence flags r : registers_ok r -> is_u32 hash -> is_u32 sequence -> is_u32 flags ->
  snapshot_ok (rv64_record hash sequence flags r).
Proof.
  intros [Hx _] Hh Hs Hf. split; [done..| |].
  - cbn. rewrite length_map, length_take, Hx. done.
  - unfold minimal_words. cbn [rv64_record minimal_record mn_registers mn_magic mn_version mn_pc mn_lr mn_msp mn_psp mn_cfsr mn_hfsr
      mn_build_hash mn_crc mn_fault mn_flags mn_exc_return mn_xpsr mn_fpscr mn_emergency_stack_used mn_fault_sequence mn_extension_crc
      mn_architecture mn_ps mn_sar mn_exccause mn_excvaddr mn_context_crc].
    assert (is_u32 0 /\ is_u32 LS_MINIMAL_SNAPSHOT_VERSION /\ is_u32 LS_FAULT_TRAP /\ is_u32 LS_ARCH_RISCV64) as (H0 & H1 & H2 & H3)
      by (split_and!; split; vm_compute; done || discriminate).
    rewrite !Forall_app, !Forall_cons. split_and!; first [done|exact H0|apply u32_range|apply List.Forall_nil|idtac].
    apply List.Forall_forall. intros v (w & <- & _)%in_map_iff. apply u32_range.
Qed.

(** With the wide context compiled in, a 64-bit trap is recovered by the next boot with
    every bit of its thirty-two registers and of its status registers: both records are
    found, and they are recognised as those of the same fault. *)
Theorem rv64_trap_recovered (r : ls_riscv64_context_t) (m : retained) :
  registers_ok r -> is_u32 (rm_build_hash m) -> zlen (rm_wide m) = wide_size -> zlen (rm_minimal m) = minimal_size ->
  let m' := run (ls_riscv64_trap_from_saved true (Some r) m) m in
  exists s w, ls_minimal_snapshot_read m' = Some s /\ ls_wide_context_snapshot_read true m' = Some w /\
    wide_snapshot_matches_minimal w s = true /\ wd_context w = r /\ mn_pc s = u32 (rv_mepc r) /\
    mn_flags s = LS_MINIMAL_SNAPSHOT_WIDE_CONTEXT_VALID /\ mn_fault_sequence s = rm_riscv64_sequence m' /\ mn_fault_sequence s <> 0.
Proof.
  intros Hr Hh Hw Hz m'. set (q := riscv64_fault_sequence_next m).
  assert (is_u32 q /\ q <> 0) as [Hq Hq0].
  { unfold q, riscv64_fault_sequence_next. cbv zeta. pose proof (u32_range (rm_riscv64_sequence m + 1)).
    fold (inc32 (rm_riscv64_sequence m)) in *. destruct (inc32 _ =? 0) eqn:E; [done|]. split; [done|blia]. }
  set (m1 := set_statics (rm_build_hash m) q (rm_seal_sequence m) m).
  set (m2 := set_wide (le 4 LS_WIDE_CONTEXT_MAGIC ++ wide_body r (rm_build_hash m) q ++ le 4 (wide_checksum r (rm_build_hash m) q) ++
    drop 316 (rm_wide m1)) m1).
  set (s0 := rv64_record (rm_build_hash m) q LS_MINIMAL_SNAPSHOT_WIDE_CONTEXT_VALID r).
  assert (snapshot_ok s0) as Hs by by apply rv64_record_ok.
  assert (m' = set_minimal (minimal_image LS_MINIMAL_MAGIC (checksum_1 s0) (checksum_2 s0) (checksum_3 s0) s0) m2) as Em.
  { unfold m', ls_riscv64_trap_from_saved, ls_riscv64_capture_minimal_from_saved, ls_capture_minimal_riscv64_fault. fold q.
    destruct (wide_snapshot_store _ _ _ _ _ _ _ _) as [stored stores] eqn:Est.
    assert (stored = true) as -> by (by injection Est as <- _).
    change stores with (snd (true, stores)). rewrite <- Est. clear Est stores.
    change (run (?f :: ?l) m) with (run l (f m)). fold m1. rewrite run_app, (wide_stored r Hr _ _ m1 Hw). fold m2. fold s0.
    by apply stored_snapshot. }
  destruct (wide_read r Hr (rm_build_hash m) q Hh Hq m1 Hw) as (w & Ew & W1 & W2 & W3 & W4 & W5). fold m2 in Ew.
  exists (with_checksums LS_MINIMAL_MAGIC (checksum_1 s0) (checksum_2 s0) (checksum_3 s0) s0), w.
  split; [rewrite Em, <- (stored_snapshot s0 Hs m2 Hz); exact (snapshot_reads s0 Hs m2 Hz)|].
  split; [rewrite Em; exact Ew|].
  split; [|split; [exact W1|]; rewrite Em; by split_and!].
  unfold wide_snapshot_matches_minimal. rewrite W1, W2, W3, W4, W5.
  change (mn_architecture (with_checksums _ _ _ _ _)) with LS_ARCH_RISCV64. change (mn_fault (with_checksums _ _ _ _ _)) with LS_FAULT_TRAP.
  change (mn_build_hash (with_checksums _ _ _ _ _)) with (rm_build_hash m). change (mn_fault_sequence (with_checksums _ _ _ _ _)) with q.
  change (mn_lr (with_checksums _ _ _ _ _)) with (u32 (nth 1 (rv_x r) 0)). change (mn_msp (with_checksums _ _ _ _ _)) with (u32 (nth 2 (rv_x r) 0)).
  change (mn_excvaddr (with_checksums _ _ _ _ _)) with (u32 (rv_mtval r)). change (mn_pc (with_checksums _ _ _ _ _)) with (u32 (rv_mepc r)).
  by rewrite !Z.eqb_refl.
Qed.

Definition trap_words (s : ls_riscv_saved_t) : list Z :=
  rs_x s ++ [rs_mstatus s; rs_mcause s; rs_mtval s; rs_mepc s].

(** A 32-bit trap leaves the program counter, the return address, the stack pointer and the
    first sixteen registers. *)
Theorem riscv_trap_recorded (wide : bool) (s : ls_riscv_saved_t) (m : retained) :
  length (rs_x s) = 32%nat -> Forall is_u32 (trap_words s) -> is_u32 (rm_build_hash m) -> zlen (rm_minimal m) = minimal_size ->
  exists f, ls_minimal_snapshot_read (run (ls_riscv_trap_from_saved wide s m) m) = Some f /\
    evidence f = evidence (context_record (rm_build_hash m) (riscv_context s)).
Proof.
  intros Hx Hw Hh Hz. apply context_fault_read; [|exact Hz]. unfold trap_words in Hw. rewrite Forall_app, !Forall_cons in Hw. destruct Hw as [Hw1 Hw]. destruct_and!.
  assert (forall i, is_u32 (reg_of (rs_x s) i)) as Hreg.
  { intros i. unfold reg_of. destruct (nth_in_or_default i (rs_x s) 0) as [Hi| ->]; [|done]. exact (proj1 (List.Forall_forall _ _) Hw1 _ Hi). }
  split; [done..| |].
  - cbn. by rewrite length_take, Hx.
  - unfold minimal_words. cbn [context_record riscv_context minimal_record mn_registers mn_magic mn_version mn_pc mn_lr mn_msp mn_psp mn_cfsr
      mn_hfsr mn_build_hash mn_crc mn_fault mn_flags mn_exc_return mn_xpsr mn_fpscr mn_emergency_stack_used mn_fault_sequence
      mn_extension_crc mn_architecture mn_ps mn_sar mn_exccause mn_excvaddr mn_context_crc ac_pc ac_lr ac_msp ac_psp ac_cfsr ac_hfsr
      ac_fault ac_exc_return ac_xpsr ac_fpscr ac_architecture ac_registers ac_ps ac_sar ac_exccause ac_excvaddr].
    assert (is_u32 0 /\ is_u32 LS_MINIMAL_SNAPSHOT_VERSION /\ is_u32 LS_FAULT_TRAP /\ is_u32 LS_ARCH_RISCV /\ is_u32 (context_flags (riscv_context s)))
      as (Z0 & Z1 & Z2 & Z3 & Z4) by (split_and!; split; vm_compute; done || discriminate).
    rewrite !Forall_app, !Forall_cons. split_and!; first [done|exact Z0|apply Hreg|apply List.Forall_nil|by apply Forall_take].
Qed.

(** *** A trap *)

Definition demo_trap : ls_riscv64_context_t :=
  {| rv_x := map (fun i => 0x1122334400000000 + Z.of_nat i) (List.seq 0 32); rv_mstatus := 0x8000000a00006000; rv_mcause := 13;
     rv_mtval := 0xffffffff80001000; rv_mepc := 0xffffffff80200040 |}.

Definition demo_memory : retained := mk_retained (fill 160 165) (fill 320 165) (fill 60 165) None 7 0 0.

Lemma demo_trap_ok : registers_ok demo_trap.
Proof.
  split; [reflexivity|]. unfold wide_longs. rewrite Forall_app. split.
  - apply List.Forall_forall. intros v (i & <- & Hi%in_seq)%in_map_iff. lia.
  - cbn [rv_mstatus rv_mcause rv_mtval rv_mepc demo_trap]. repeat (apply List.Forall_cons; [lia|]). apply List.Forall_nil.
Qed.

Lemma rv64_trap_recovered_witness :
  exists w, ls_wide_context_snapshot_read true (run (ls_riscv64_trap_from_saved true (Some demo_trap) demo_memory) demo_memory) = Some w /\
    rv_mepc (wd_context w) = 0xffffffff80200040.
Proof.
  destruct (rv64_trap_recovered demo_trap demo_memory) as (s & w & _ & H1 & _ & H2 & _).
  - exact demo_trap_ok.
  - split; vm_compute; [discriminate|reflexivity].
  - reflexivity.
  - reflexivity.
  - exists w. split; [exact H1|]. rewrite H2. reflexivity.
Defined.
