(* ===== verification/Linux.v ===== *)
(** * Fatal signals on Linux ([src/arch/linux])

    The handler that writes one raw record to a pipe, the check of such a record, and the
    installation of the handler. The registers of the interrupted program, the system calls
    and the constants of the system's headers are parameters. *)

From stdpp Require Import sets.
From S2P Require Import Prelude Util.

Definition LS_LINUX_SIGNAL_RECORD_MAGIC : Z := 0x4c535247.
Definition LS_LINUX_SIGNAL_RECORD_VERSION : Z := 1.
Definition LS_LINUX_SIGNAL_RECORD_COMMIT : Z := 0x4c53434d.
Definition LS_LINUX_SIGNAL_RECORD_REGISTER_CAPACITY : Z := 32.
Definition LS_LINUX_RAW_ARCH_UNKNOWN : Z := 0.
Definition LS_LINUX_RAW_ARCH_X86_64 : Z := 1.
Definition LS_LINUX_RAW_ARCH_AARCH64 : Z := 2.

(** The slots of the registers are their positions here. *)
Inductive ls_linux_x86_64_register_t : Type :=
| R8 | R9 | R10 | R11 | R12 | R13 | R14 | R15 | RDI | RSI | RBP | RBX | RDX | RAX | RCX | RSP | RIP | EFLAGS
| CSGSFS | ERR | TRAPNO | OLDMASK | CR2.
Definition x86_64_registers : list ls_linux_x86_64_register_t :=
  [R8; R9; R10; R11; R12; R13; R14; R15; RDI; RSI; RBP; RBX; RDX; RAX; RCX; RSP; RIP; EFLAGS; CSGSFS; ERR; TRAPNO; OLDMASK; CR2].

(** ** The record *)

Record ls_linux_signal_record_t : Type := {
  lr_magic : Z; lr_version : Z; lr_size : Z; lr_architecture : Z; lr_signal_number : Z; lr_signal_code : Z;
  lr_register_count : Z; lr_fault_address : Z; lr_pc : Z; lr_sp : Z; lr_fp : Z; lr_handler_stack_pointer : Z;
  lr_registers : list Z; lr_crc32 : Z; lr_commit : Z
}.

Definition record_size : Z := 328.

(** The bytes before [crc32]; the two signed fields are stored in two's complement. *)
Definition record_body (r : ls_linux_signal_record_t) : list Z :=
  le 4 (lr_magic r) ++ le 2 (lr_version r) ++ le 2 (lr_size r) ++ le 4 (lr_architecture r) ++ le 4 (u32 (lr_signal_number r)) ++
  le 4 (u32 (lr_signal_code r)) ++ le 4 (lr_register_count r) ++ le 8 (lr_fault_address r) ++ le 8 (lr_pc r) ++ le 8 (lr_sp r) ++
  le 8 (lr_fp r) ++ le 8 (lr_handler_stack_pointer r) ++ mjoin (map (le 8) (lr_registers r)).
Definition record_bytes (r : ls_linux_signal_record_t) : list Z := record_body r ++ le 4 (lr_crc32 r) ++ le 4 (lr_commit r).

(** The checksum of this port is a loop of its own. *)
Definition signal_crc_bit (crc : Z) : Z :=
  Z.lxor (Z.shiftr crc 1) (Z.land 0xedb88320 (u32 (0 - Z.land crc 1))).
Definition signal_record_crc32 (data : list Z) : Z :=
  u32 (Z.lnot (foldl (fun crc b => Nat.iter 8 signal_crc_bit (Z.lxor crc b)) 0xffffffff data)).

(** [ls_linux_signal_record_validate] of the bytes at a pointer. *)
Definition ls_linux_signal_record_validate (record : option (list Z)) : bool :=
  match record with
  | None => false
  | Some d =>
      if negb (le_get (slice 0 4 d) =? LS_LINUX_SIGNAL_RECORD_MAGIC) || negb (le_get (slice 4 2 d) =? LS_LINUX_SIGNAL_RECORD_VERSION) ||
         negb (le_get (slice 6 2 d) =? record_size) || negb (le_get (slice 324 4 d) =? LS_LINUX_SIGNAL_RECORD_COMMIT) ||
         (LS_LINUX_SIGNAL_RECORD_REGISTER_CAPACITY <? le_get (slice 20 4 d))
      then false
      else le_get (slice 320 4 d) =? signal_record_crc32 (slice 0 320 d)
  end.

(** ** The handler *)

(** The machine context of the interrupted program. *)
Inductive machine : Type :=
| X86_64 (gregs : ls_linux_x86_64_register_t -> Z)
| AARCH64 (regs : Z -> Z) (pstate pc sp : Z)
| OtherMachine.

Record siginfo : Type := { si_code : Z; si_addr : Z }.

(** [signal_record_zero]; [stack_pointer] is the address of the record. *)
Definition signal_record_zero (stack_pointer : Z) : ls_linux_signal_record_t :=
  {| lr_magic := LS_LINUX_SIGNAL_RECORD_MAGIC; lr_version := LS_LINUX_SIGNAL_RECORD_VERSION; lr_size := record_size;
     lr_architecture := LS_LINUX_RAW_ARCH_UNKNOWN; lr_signal_number := 0; lr_signal_code := 0; lr_register_count := 0;
     lr_fault_address := 0; lr_pc := 0; lr_sp := 0; lr_fp := 0; lr_handler_stack_pointer := u64 stack_pointer;
     lr_registers := fill LS_LINUX_SIGNAL_RECORD_REGISTER_CAPACITY 0; lr_crc32 := 0; lr_commit := 0 |}.

Definition with_machine (architecture count pc sp fp : Z) (registers : list Z) (r : ls_linux_signal_record_t) : ls_linux_signal_record_t :=
  {| lr_magic := lr_magic r; lr_version := lr_version r; lr_size := lr_size r; lr_architecture := architecture;
     lr_signal_number := lr_signal_number r; lr_signal_code := lr_signal_code r; lr_register_count := count;
     lr_fault_address := lr_fault_address r; lr_pc := pc; lr_sp := sp; lr_fp := fp;
     lr_handler_stack_pointer := lr_handler_stack_pointer r; lr_registers := registers; lr_crc32 := lr_crc32 r; lr_commit := lr_commit r |}.

Definition signal_record_x86_64 (gregs : ls_linux_x86_64_register_t -> Z) (r : ls_linux_signal_record_t) : ls_linux_signal_record_t :=
  let registers := map (fun g => u64 (gregs g)) x86_64_registers in
  with_machine LS_LINUX_RAW_ARCH_X86_64 23 (u64 (gregs RIP)) (u64 (gregs RSP)) (u64 (gregs RBP))
    (registers ++ drop (length registers) (lr_registers r)) r.

Definition signal_record_aarch64 (regs : Z -> Z) (pstate pc sp : Z) (r : ls_linux_signal_record_t) : ls_linux_signal_record_t :=
  let registers := map (fun i => u64 (regs (Z.of_nat i))) (List.seq 0 31) ++ [u64 pstate] in
  with_machine LS_LINUX_RAW_ARCH_AARCH64 32 (u64 pc) (u64 sp) (u64 (regs 29))
    (registers ++ drop (length registers) (lr_registers r)) r.

Section Handler.
(** [SIGSEGV], [SIGBUS], [SIGILL], [SIGFPE] and [SIGABRT]. *)
Context (SIGSEGV SIGBUS SIGILL SIGFPE SIGABRT : Z).

Definition handled_signals : list Z := [SIGSEGV; SIGBUS; SIGILL; SIGFPE; SIGABRT].

Definition with_signal (number : Z) (info : option siginfo) (r : ls_linux_signal_record_t) : ls_linux_signal_record_t :=
  let has_address := (number =? SIGSEGV) || (number =? SIGBUS) || (number =? SIGILL) || (number =? SIGFPE) in
  {| lr_magic := lr_magic r; lr_version := lr_version r; lr_size := lr_size r; lr_architecture := lr_architecture r;
     lr_signal_number := number; lr_signal_code := match info with Some i => si_code i | None => 0 end;
     lr_register_count := lr_register_count r;
     lr_fault_address := match info with Some i => if has_address then u64 (si_addr i) else lr_fault_address r | None => lr_fault_address r end;
     lr_pc := lr_pc r; lr_sp := lr_sp r; lr_fp := lr_fp r; lr_handler_stack_pointer := lr_handler_stack_pointer r;
     lr_registers := lr_registers r; lr_crc32 := lr_crc32 r; lr_commit := lr_commit r |}.

(** The checksum is stored before the marker. *)
Definition with_crc (r : ls_linux_signal_record_t) : ls_linux_signal_record_t :=
  {| lr_magic := lr_magic r; lr_version := lr_version r; lr_size := lr_size r; lr_architecture := lr_architecture r;
     lr_signal_number := lr_signal_number r; lr_signal_code := lr_signal_code r; lr_register_count := lr_register_count r;
     lr_fault_address := lr_fault_address r; lr_pc := lr_pc r; lr_sp := lr_sp r; lr_fp := lr_fp r;
     lr_handler_stack_pointer := lr_handler_stack_pointer r; lr_registers := lr_registers r;
     lr_crc32 := signal_record_crc32 (record_body r); lr_commit := lr_commit r |}.
Definition with_commit (r : ls_linux_signal_record_t) : ls_linux_signal_record_t :=
  {| lr_magic := lr_magic r; lr_version := lr_version r; lr_size := lr_size r; lr_architecture := lr_architecture r;
     lr_signal_number := lr_signal_number r; lr_signal_code := lr_signal_code r; lr_register_count := lr_register_count r;
     lr_fault_address := lr_fault_address r; lr_pc := lr_pc r; lr_sp := lr_sp r; lr_fp := lr_fp r;
     lr_handler_stack_pointer := lr_handler_stack_pointer r; lr_registers := lr_registers r;
     lr_crc32 := lr_crc32 r; lr_commit := LS_LINUX_SIGNAL_RECORD_COMMIT |}.

Definition signal_record (stack_pointer number : Z) (info : option siginfo) (opaque : option machine) : ls_linux_signal_record_t :=
  let r := with_signal number info (signal_record_zero stack_pointer) in
  let r := match opaque with
           | Some (X86_64 gregs) => signal_record_x86_64 gregs r
           | Some (AARCH64 regs pstate pc sp) => signal_record_aarch64 regs pstate pc sp r
           | Some OtherMachine | None => r
           end in
  with_commit (with_crc r).

(** [signal_handler]: what it writes, to which descriptor, and the status the process
    exits with. *)
Definition signal_handler (descriptor stack_pointer number : Z) (info : option siginfo) (opaque : option machine)
  : list (Z * list Z) * Z :=
  (if 0 <=? descriptor then [(descriptor, record_bytes (signal_record stack_pointer number info opaque))] else [], 128 + number).

(** ** What the handler writes is a valid record *)

(** The port's checksum is that of the runtime. *)
Lemma signal_crc_bits n crc : Nat.iter n signal_crc_bit crc = Nat.iter n crc_shift crc.
Proof.
  induction n as [|n IH]; [reflexivity|]. cbn [Nat.iter nat_rect]. unfold Nat.iter in IH. rewrite IH.
  unfold signal_crc_bit, crc_shift. by rewrite Z.sub_0_l.
Qed.

Lemma signal_crc_loop data crc : foldl (fun crc b => Nat.iter 8 signal_crc_bit (Z.lxor crc b)) crc data = crc_update crc data.
Proof.
  unfold crc_update. revert crc. induction data as [|b data IH]; intros crc; [by cbn [foldl]|].
  cbn [foldl]. rewrite signal_crc_bits, IH. unfold crc_byte. reflexivity.
Qed.

Lemma signal_crc_is_crc32 data : signal_record_crc32 data = ls_crc32 data.
Proof. unfold signal_record_crc32. by rewrite signal_crc_loop, ls_crc32_eq. Qed.

(** Finding a field at a constant offset. *)
Lemma slice_skip n v o len (r : list Z) : 0 <= len -> Z.of_nat n <= o -> slice o len (le n v ++ r) = slice (o - Z.of_nat n) len r.
Proof. intros. by rewrite slice_app_r, zlen_le by (rewrite ?zlen_le; lia). Qed.

Lemma read_field n v o len r : o = 0 -> len = Z.of_nat n -> fits n v -> le_get (slice o len (le n v ++ r)) = v.
Proof.
  intros -> -> Hv. rewrite slice_app_l by (rewrite ?zlen_le; lia). rewrite <- (zlen_le n v), slice_full. by apply le_get_le.
Qed.

Ltac skip_fields := repeat (rewrite slice_skip by (vm_compute; discriminate)).
Ltac at_field := skip_fields; apply read_field; [reflexivity|reflexivity|].

Record record_ok (r : ls_linux_signal_record_t) : Prop := {
  rk_magic : lr_magic r = LS_LINUX_SIGNAL_RECORD_MAGIC;
  rk_version : lr_version r = LS_LINUX_SIGNAL_RECORD_VERSION;
  rk_size : lr_size r = record_size;
  rk_count : 0 <= lr_register_count r <= LS_LINUX_SIGNAL_RECORD_REGISTER_CAPACITY;
  rk_words : is_u32 (lr_architecture r) /\ is_u32 (lr_crc32 r) /\ is_u32 (lr_commit r);
  rk_longs : Forall is_u64 [lr_fault_address r; lr_pc r; lr_sp r; lr_fp r; lr_handler_stack_pointer r];
  rk_registers : length (lr_registers r) = 32%nat /\ Forall is_u64 (lr_registers r)
}.

Lemma zlen_registers l : zlen (mjoin (map (le 8) l)) = 8 * zlen l.
Proof. induction l as [|v l IH]; [done|]. change (mjoin (map (le 8) (v :: l))) with (le 8 v ++ mjoin (map (le 8) l)).
  rewrite zlen_app, zlen_le, zlen_cons, IH. lia.
Qed.

Lemma zlen_record_body r : record_ok r -> zlen (record_body r) = 320.
Proof.
  intros [_ _ _ _ _ _ [Hr _]]. unfold record_body. rewrite !zlen_app, !zlen_le, zlen_registers. unfold zlen. lia.
Qed.

(** What a collector reads back from the bytes of a record. *)
Definition read_registers (d : list Z) : list Z := unpack (replicate 32 8%nat) (slice 64 256 d).

Lemma pack_registers n l : length l = n -> mjoin (map (le 8) l) = pack (replicate n 8%nat) l.
Proof. intros <-. induction l as [|v l IH]; [done|]. cbn [map mjoin list_join length replicate pack]. f_equal. exact IH. Qed.

Lemma record_reads r : record_ok r -> let d := record_bytes r in
  zlen d = record_size /\ le_get (slice 0 4 d) = lr_magic r /\ le_get (slice 4 2 d) = lr_version r /\ le_get (slice 6 2 d) = lr_size r /\
  le_get (slice 8 4 d) = lr_architecture r /\ le_get (slice 12 4 d) = u32 (lr_signal_number r) /\
  le_get (slice 16 4 d) = u32 (lr_signal_code r) /\ le_get (slice 20 4 d) = lr_register_count r /\
  le_get (slice 24 8 d) = lr_fault_address r /\ le_get (slice 32 8 d) = lr_pc r /\ le_get (slice 40 8 d) = lr_sp r /\
  le_get (slice 48 8 d) = lr_fp r /\ read_registers d = lr_registers r /\
  slice 0 320 d = record_body r /\ le_get (slice 320 4 d) = lr_crc32 r /\ le_get (slice 324 4 d) = lr_commit r.
Proof.
  intros Hok d. pose proof (zlen_record_body r Hok) as Hz.
  destruct Hok as [Hm Hv Hs [Hc1 Hc2] (Ha & Hcrc & Hcm) Hl [Hr Hru]].
  repeat (apply Forall_cons in Hl as [? Hl]). unfold LS_LINUX_SIGNAL_RECORD_REGISTER_CAPACITY in *.
  assert (zlen (mjoin (map (le 8) (lr_registers r))) = 256) as Hzr by (rewrite zlen_registers; unfold zlen; lia).
  assert (forall z, is_u32 (u32 z)) as Hu by (intros; apply u32_range).
  assert (slice 0 320 d = record_body r) as Hb.
  { unfold d, record_bytes. rewrite <- Hz. rewrite slice_app_l, slice_full by lia. done. }
  split; [unfold d, record_bytes; rewrite !zlen_app, !zlen_le, Hz; done|].
  assert (le_get (slice 320 4 d) = lr_crc32 r /\ le_get (slice 324 4 d) = lr_commit r) as Ht.
  { unfold d, record_bytes. rewrite !(slice_app_r _ _ (record_body r)), !Hz by lia. rewrite <- (app_nil_r (le 4 (lr_commit r))). split; at_field; done. }
  rewrite Hb. unfold d, record_bytes. unfold record_body at 1 2 3 4 5 6 7 8 9 10 11 12. rewrite <- !app_assoc. clear Hz.
  split; [at_field; rewrite Hm; done|]. split; [at_field; rewrite Hv; done|]. split; [at_field; rewrite Hs; done|].
  split; [at_field; done|]. split; [at_field; apply Hu|]. split; [at_field; apply Hu|].
  split; [at_field; unfold fits; lia|]. do 4 (split; [at_field; done|]).
  split; [|split; [reflexivity|exact Ht]].
  unfold read_registers. skip_fields.
  rewrite slice_app_l by lia. rewrite <- Hzr. match goal with |- context [slice ?o _ _] => change o with 0 end.
  rewrite slice_full, (pack_registers 32) by done. rewrite <- (app_nil_r (pack _ _)). apply unpack_pack.
  rewrite <- Hr. clear -Hru. induction Hru as [|v l Hv Hl IH]; [by apply Forall2_nil|]. cbn [length replicate]. by apply Forall2_cons.
Qed.

Lemma validate_record r : record_ok r -> lr_crc32 r = signal_record_crc32 (record_body r) ->
  ls_linux_signal_record_validate (Some (record_bytes r)) = (lr_commit r =? LS_LINUX_SIGNAL_RECORD_COMMIT).
Proof.
  intros Hok Hcrc. destruct (record_reads r Hok) as (_ & E1 & E2 & E3 & _ & _ & _ & E4 & _ & _ & _ & _ & _ & E5 & E6 & E7).
  unfold ls_linux_signal_record_validate. rewrite E1, E2, E3, E4, E5, E6, E7. destruct Hok as [-> -> -> [_ Hc] _ _ _].
  rewrite !Z.eqb_refl, Hcrc, Z.eqb_refl. destruct (Z.ltb_spec LS_LINUX_SIGNAL_RECORD_REGISTER_CAPACITY (lr_register_count r)); [lia|].
  cbn [negb orb]. rewrite orb_false_r. by destruct (lr_commit r =? _).
Qed.

(** The registers that a record of this machine holds. *)
Definition machine_registers (m : machine) : list Z :=
  match m with
  | X86_64 gregs => map (fun g => u64 (gregs g)) x86_64_registers ++ fill 9 0
  | AARCH64 regs pstate _ _ => map (fun i => u64 (regs (Z.of_nat i))) (List.seq 0 31) ++ [u64 pstate]
  | OtherMachine => fill 32 0
  end.
Definition machine_pc (m : machine) : Z :=
  match m with X86_64 gregs => u64 (gregs RIP) | AARCH64 _ _ pc _ => u64 pc | OtherMachine => 0 end.
Definition machine_sp (m : machine) : Z :=
  match m with X86_64 gregs => u64 (gregs RSP) | AARCH64 _ _ _ sp => u64 sp | OtherMachine => 0 end.
Definition machine_fp (m : machine) : Z :=
  match m with X86_64 gregs => u64 (gregs RBP) | AARCH64 regs _ _ _ => u64 (regs 29) | OtherMachine => 0 end.

Lemma machine_registers_ok m : length (machine_registers m) = 32%nat /\ Forall is_u64 (machine_registers m).
Proof.
  assert (forall n, Forall is_u64 (fill n 0)) as Hz by (intros; by apply Forall_replicate).
  assert (forall A (f : A -> Z) l, Forall is_u64 (map (fun x => u64 (f x)) l)) as Hm
    by (intros A f l; induction l; [by apply Forall_nil|by apply Forall_cons; split; [apply u64_range|]]).
  destruct m; (split; [reflexivity|]); cbn [machine_registers].
  - apply Forall_app. split; [exact (Hm _ gregs _)|apply Hz].
  - apply Forall_app. split; [exact (Hm _ (fun i => regs (Z.of_nat i)) _)|]. apply Forall_cons. split; [apply u64_range|by apply Forall_nil].
  - apply Hz.
Qed.

(** What the handler puts into the record, with or without a machine context. *)
Lemma signal_record_fields stack_pointer number info opaque :
  let r := signal_record stack_pointer number info opaque in let m := default OtherMachine opaque in
  lr_signal_number r = number /\ lr_signal_code r = from_option si_code 0 info /\
  lr_registers r = machine_registers m /\ lr_pc r = machine_pc m /\ lr_sp r = machine_sp m /\ lr_fp r = machine_fp m /\
  lr_handler_stack_pointer r = u64 stack_pointer /\ lr_commit r = LS_LINUX_SIGNAL_RECORD_COMMIT /\
  lr_crc32 r = signal_record_crc32 (record_body r) /\ record_ok r.
Proof.
  assert (forall v, is_u64 (u64 v)) as Hu by (intros; apply u64_range). assert (is_u64 0) as H0 by done.
  assert (forall l, is_u32 (signal_record_crc32 l)) as Hcrc by (intros; apply u32_range).
  intros r m.
  assert (lr_registers r = machine_registers m) as Er by (unfold r, m; destruct opaque as [[]|]; reflexivity).
  destruct (machine_registers_ok m) as [Hl Hall].
  split; [unfold r; destruct opaque as [[]|]; reflexivity|]. split; [unfold r; destruct opaque as [[]|], info; reflexivity|].
  split; [exact Er|]. do 3 (split; [unfold r, m; destruct opaque as [[]|]; reflexivity|]).
  split; [unfold r; destruct opaque as [[]|]; reflexivity|]. split; [reflexivity|]. split; [reflexivity|].
  split; [unfold r; destruct opaque as [[]|]; reflexivity..| | | |by rewrite Er].
  - unfold r, LS_LINUX_SIGNAL_RECORD_REGISTER_CAPACITY. destruct opaque as [[]|]; split; discriminate.
  - unfold r. split; [|split; [apply Hcrc|done]]. destruct opaque as [[]|]; done.
  - unfold r. destruct opaque as [[]|], info as [i|]; cbn -[u64]; repeat (apply List.Forall_cons); try apply List.Forall_nil;
      try apply Hu; try exact H0; by destruct (_ || _).
Qed.

(** Whatever interrupts the program, the handler makes one write of 328 bytes, which
    the check of the collector accepts, and which read back as the signal, its code, and the
    registers of the interrupted program; before the commit marker is stored the record
    is not accepted. *)
Theorem signal_record_valid descriptor stack_pointer number code address opaque :
  0 <= descriptor -> - 2 ^ 31 <= number < 2 ^ 31 -> - 2 ^ 31 <= code < 2 ^ 31 ->
  let m := default OtherMachine opaque in
  exists d, signal_handler descriptor stack_pointer number (Some {| si_code := code; si_addr := address |}) opaque =
              ([(descriptor, d)], 128 + number) /\
    zlen d = record_size /\ ls_linux_signal_record_validate (Some d) = true /\
    s32 (le_get (slice 12 4 d)) = number /\ s32 (le_get (slice 16 4 d)) = code /\
    read_registers d = machine_registers m /\ le_get (slice 32 8 d) = machine_pc m /\ le_get (slice 40 8 d) = machine_sp m /\
    le_get (slice 48 8 d) = machine_fp m /\
    ls_linux_signal_record_validate (Some (take 324 d ++ le 4 0)) = false.
Proof.
  intros Hd Hn Hc m. set (info := Some {| si_code := code; si_addr := address |}).
  destruct (signal_record_fields stack_pointer number info opaque) as (F1 & F2 & F3 & F4 & F5 & F6 & _ & F7 & F8 & Hok).
  set (r := signal_record stack_pointer number info opaque) in *.
  destruct (record_reads r Hok) as (R1 & _ & _ & _ & _ & R2 & R3 & _ & _ & R4 & R5 & R6 & R7 & _).
  exists (record_bytes r). unfold signal_handler. fold info. fold r. destruct (Z.leb_spec 0 descriptor); [|lia].
  clearbody r. fold m in F3, F4, F5, F6. cbn [from_option si_code info] in F2.
  split; [done|]. split; [exact R1|]. split; [by rewrite validate_record, F7|].
  rewrite R2, R3, R4, R5, R6, R7, F1, F2. split; [by apply s32_u32|]. split; [by apply s32_u32|]. do 4 (split; [done|]).
  set (r0 := {| lr_magic := lr_magic r; lr_version := lr_version r; lr_size := lr_size r; lr_architecture := lr_architecture r;
     lr_signal_number := lr_signal_number r; lr_signal_code := lr_signal_code r; lr_register_count := lr_register_count r;
     lr_fault_address := lr_fault_address r; lr_pc := lr_pc r; lr_sp := lr_sp r; lr_fp := lr_fp r;
     lr_handler_stack_pointer := lr_handler_stack_pointer r; lr_registers := lr_registers r;
     lr_crc32 := lr_crc32 r; lr_commit := 0 |}).
  assert (record_ok r0) as Hok0 by (destruct Hok as [? ? ? ? (? & ? & ?) ? ?]; by split).
  assert (take 324 (record_bytes r) ++ le 4 0 = record_bytes r0) as ->.
  { change (record_bytes r0) with (record_body r ++ le 4 (lr_crc32 r) ++ le 4 0). unfold record_bytes. rewrite !app_assoc. f_equal.
    apply take_app_length'. rewrite length_app, length_le. pose proof (zlen_record_body r Hok) as Hz. unfold zlen in Hz. lia. }
  by rewrite validate_record.
Qed.
End Handler.

(** ** Installing the handler

    The system calls over a state [O]; an action is of type [A]. *)

Record signal_os (O A : Type) : Type := {
  (** [fcntl(fd, F_GETFL)]: whether the descriptor is non-blocking; [None] is an error. *)
  os_getfl : Z -> st O (option bool);
  (** [fstat]: whether the descriptor is a pipe. *)
  os_is_fifo : Z -> st O (option bool);
  (** [sigaltstack]: set the stack; ask whether it is disabled, and its size. *)
  os_set_stack : Z -> Z -> st O bool;
  os_get_stack : st O (option (bool * Z));
  (** [sigfillset]. *)
  os_fill_mask : st O bool;
  (** [sigaction]: the action before, or [None] on an error. *)
  os_sigaction : Z -> A -> st O (option A)
}.
Arguments os_getfl {O A} _. Arguments os_is_fifo {O A} _. Arguments os_set_stack {O A} _. Arguments os_get_stack {O A} _.
Arguments os_fill_mask {O A} _. Arguments os_sigaction {O A} _.

Definition SIG_ATOMIC_MAX : Z := 2147483647.

Record ls_linux_signal_config_t : Type := { record_fd : Z; alternate_stack : Z; alternate_stack_size : Z }.

(** The variables of the file; [sl_previous] are the actions before the installation. *)
Record signal_state (A : Type) : Type := {
  sl_record_fd : Z; sl_installed : bool; sl_previous : list A
}.
Arguments sl_record_fd {A} _. Arguments sl_installed {A} _. Arguments sl_previous {A} _.

Section Install.
Context {O A : Type} (os : signal_os O A).
(** [MINSIGSTKSZ], [alignof(max_align_t)], the signals, and the action that runs the handler. *)
Context (MINSIGSTKSZ max_align : Z) (signals : list Z) (action : A).

Definition with_record_fd (fd : Z) (s : signal_state A) : signal_state A :=
  {| sl_record_fd := fd; sl_installed := sl_installed s; sl_previous := sl_previous s |}.
Definition with_installed (b : bool) (s : signal_state A) : signal_state A :=
  {| sl_record_fd := sl_record_fd s; sl_installed := b; sl_previous := sl_previous s |}.
Definition with_previous (l : list A) (s : signal_state A) : signal_state A :=
  {| sl_record_fd := sl_record_fd s; sl_installed := sl_installed s; sl_previous := l |}.

Definition alt_stack_size_valid (size : Z) : bool := (0 <? MINSIGSTKSZ) && (MINSIGSTKSZ <=? size).

(** A null pointer is the address 0. *)
Definition ls_linux_signal_register_alt_stack (stack size : Z) : st O ls_result_t := fun o =>
  if (stack =? 0) || negb (alt_stack_size_valid size) || negb (stack mod max_align =? 0) then (LS_EINVAL, o)
  else let '(set, o) := os_set_stack os stack size o in ((if set : bool then LS_OK else LS_EIO), o).

Definition ls_linux_signal_configure (config : option ls_linux_signal_config_t) : st (signal_state A * O) ls_result_t := fun '(s, o) =>
  let refused := (if sl_installed s then LS_EBUSY else LS_EINVAL, (s, o)) in
  match config with
  | None => refused
  | Some c =>
      if (record_fd c <? 0) || (SIG_ATOMIC_MAX <? record_fd c) || sl_installed s then refused
      else
        let '(nonblock, o) := os_getfl os (record_fd c) o in
        match nonblock with
        | None => (LS_EIO, (s, o))
        | Some false => (LS_EINVAL, (s, o))
        | Some true =>
            let '(fifo, o) := os_is_fifo os (record_fd c) o in
            match fifo with
            | Some true =>
                let '(r, o) := ls_linux_signal_register_alt_stack (alternate_stack c) (alternate_stack_size c) o in
                if negb (is_ok r) then (r, (s, o)) else (LS_OK, (with_record_fd (record_fd c) s, o))
            | _ => (LS_EINVAL, (s, o))
            end
        end
  end.

(** The [while] loop that undoes what was installed, from the last signal on; the results
    are not looked at. *)
Fixpoint restore (done : list (Z * A)) : O -> O := fun o =>
  match done with
  | [] => o
  | (sig, previous) :: done => let '(_, o) := os_sigaction os sig previous o in restore done o
  end.

(** The [for] loop; [done] are the signals installed so far with their actions, the last
    one first. On a failure [inl] has the actions that were read. *)
Fixpoint install_loop (sigs : list Z) (done : list (Z * A)) : st O (list (Z * A) + list (Z * A)) := fun o =>
  match sigs with
  | [] => (inr done, o)
  | sig :: sigs =>
      let '(previous, o) := os_sigaction os sig action o in
      match previous with
      | None => (inl done, restore done o)
      | Some previous => install_loop sigs ((sig, previous) :: done) o
      end
  end.

(** The first entries of [previous] take the actions that were read. *)
Definition stored (l : list (Z * A)) (s : signal_state A) : signal_state A :=
  let actions := rev (map snd l) in with_previous (actions ++ drop (length actions) (sl_previous s)) s.

Definition ls_linux_install_signal_handlers : st (signal_state A * O) ls_result_t := fun '(s, o) =>
  if sl_installed s then (LS_EBUSY, (s, o))
  else if sl_record_fd s <? 0 then (LS_EINVAL, (s, o))
  else
    let '(stack, o) := os_get_stack os o in
    match stack with
    | None => (LS_EINVAL, (s, o))
    | Some (disabled, size) =>
        if disabled || negb (alt_stack_size_valid size) then (LS_EINVAL, (s, o))
        else
          let '(filled, o) := os_fill_mask os o in
          if negb filled then (LS_EIO, (s, o))
          else
            let '(r, o) := install_loop signals [] o in
            match r with
            | inl l => (LS_EIO, (stored l s, o))
            | inr l => (LS_OK, (with_installed true (stored l s), o))
            end
    end.

Fixpoint uninstall_loop (sigs : list Z) (previous : list A) : O -> O := fun o =>
  match sigs, previous with
  | sig :: sigs, a :: previous => let '(_, o) := os_sigaction os sig a o in uninstall_loop sigs previous o
  | _, _ => o
  end.

Definition ls_linux_uninstall_signal_handlers (p : signal_state A * O) : signal_state A * O :=
  let '(s, o) := p in
  if negb (sl_installed s) then (s, o)
  else (with_installed false s, uninstall_loop signals (sl_previous s) o).

(** ** All or none of the handlers are installed

    [actions o] are the actions of the process. A call of [sigaction] fails or succeeds by
    the signal alone; the other calls leave the actions as they are. *)
Class SignalsOk (actions : O -> Z -> A) : Prop := {
  sigaction_sets : forall sig, (forall a o, os_sigaction os sig a o = (None, o)) \/
    (forall a o, exists o', os_sigaction os sig a o = (Some (actions o sig), o') /\
       forall other, actions o' other = if decide (other = sig) then a else actions o other);
  stack_keeps : forall o, actions (snd (os_get_stack os o)) = actions o;
  fill_keeps : forall o, actions (snd (os_fill_mask os o)) = actions o
}.

Section Facts.
Context (actions : O -> Z -> A) {OS : SignalsOk actions} (Hdup : NoDup signals).

(** A signal whose action can be set. *)
Definition settable (sig : Z) : Prop := forall a o, exists o', os_sigaction os sig a o = (Some (actions o sig), o') /\
  forall other, actions o' other = if decide (other = sig) then a else actions o other.

Definition restorable (base : Z -> A) (e : Z * A) : Prop := settable (fst e) /\ snd e = base (fst e).

Lemma restore_spec l o base : NoDup (map fst l) -> Forall (restorable base) l ->
  (forall sig, sig ∉ map fst l -> actions o sig = base sig) -> forall sig, actions (restore l o) sig = base sig.
Proof.
  intros Hn Hl. revert o. induction Hl as [|[sig a] l [Hs Ha] Hl IH]; intros o Ho; [intros sig; apply Ho; set_solver|].
  cbn [restore fst snd map] in *. apply NoDup_cons in Hn as [Hni Hn]. destruct (Hs a o) as (o' & -> & Ho'). apply IH; [done|].
  intros other Hother. rewrite Ho'. case_decide as E; [by subst|]. apply Ho. set_solver.
Qed.

(** The signals of [l] have the handler, and every other the action it had. *)
Definition handled_by (l : list Z) (base : Z -> A) (o : O) : Prop :=
  forall sig, actions o sig = if decide (sig ∈ l) then action else base sig.

Lemma install_loop_spec sigs l o base : NoDup (map fst l ++ sigs) -> Forall (restorable base) l -> handled_by (map fst l) base o ->
  let '(r, o') := install_loop sigs l o in
  match r with
  | inl _ => handled_by [] base o'
  | inr l' => handled_by (map fst l ++ sigs) base o' /\ rev l' = rev l ++ map (fun sig => (sig, base sig)) sigs /\ Forall settable sigs
  end.
Proof.
  revert l o. induction sigs as [|sig sigs IH]; intros l o Hn Hl Ho.
  { cbn [install_loop map]. by rewrite !app_nil_r. }
  cbn [install_loop]. apply NoDup_app in Hn as Hn'. destruct Hn' as (Hnl & Hdis & Hns). apply NoDup_cons in Hns as [Hni Hns].
  destruct (sigaction_sets (SignalsOk := OS) sig) as [Hfail|Hset].
  - rewrite Hfail. intros other. cbn. case_decide; [set_solver|]. apply restore_spec; [done|done|].
    intros s Hs. rewrite Ho. by rewrite decide_False.
  - destruct (Hset action o) as (o' & -> & Ho').
    assert (actions o sig = base sig) as Eb by (rewrite Ho, decide_False; [done|set_solver]).
    assert (handled_by (sig :: map fst l) base o') as Hh.
    { intros other. rewrite Ho'. case_decide as E; [subst; rewrite decide_True by set_solver; done|].
      rewrite Ho. repeat case_decide; try done; set_solver. }
    specialize (IH ((sig, actions o sig) :: l) o'). cbn [map fst] in IH.
    specialize (IH ltac:(apply NoDup_app; split; [apply NoDup_cons; split; [set_solver|done]|split; [set_solver|done]])).
    specialize (IH ltac:(apply Forall_cons; split; [split; [exact Hset|exact Eb]|exact Hl]) Hh).
    destruct (install_loop sigs _ o') as [[l'|l'] o2]; [exact IH|]. destruct IH as (H1 & H2 & H3).
    split; [|split].
    + intros other. rewrite H1. repeat case_decide; try done; set_solver.
    + rewrite H2. cbn [rev map]. by rewrite <- app_assoc, Eb.
    + by apply Forall_cons.
Qed.

Lemma uninstall_loop_spec sigs base rest o : NoDup sigs -> Forall settable sigs -> forall other,
  actions (uninstall_loop sigs (map base sigs ++ rest) o) other = if decide (other ∈ sigs) then base other else actions o other.
Proof.
  intros Hn Hs. revert o. induction Hs as [|sig sigs Hset Hs IH]; intros o other.
  { rewrite decide_False by set_solver. by destruct rest. }
  apply NoDup_cons in Hn as [Hni Hn]. cbn [uninstall_loop map app]. destruct (Hset (base sig) o) as (o' & -> & Ho').
  rewrite IH by done. rewrite Ho'. repeat case_decide; subst; try done; set_solver.
Qed.

(** Installing the handler is all or nothing: on success every handled signal has it and
    uninstalling, whenever it is done, gives each of them the action it had before and
    leaves the others alone; on any error, a failure at the third signal say, every
    signal of the process has the action it had. *)
Theorem install_all_or_nothing s o : let '(r, (s', o')) := ls_linux_install_signal_handlers (s, o) in
  (r = LS_OK /\ handled_by signals (actions o) o' /\ sl_installed s' = true /\
   forall o2, let '(s3, o3) := ls_linux_uninstall_signal_handlers (s', o2) in
     sl_installed s3 = false /\ forall sig, actions o3 sig = if decide (sig ∈ signals) then actions o sig else actions o2 sig) \/
  (r <> LS_OK /\ handled_by [] (actions o) o' /\ sl_installed s' = sl_installed s).
Proof using OS Hdup.
  assert (forall o1, actions o1 = actions o -> handled_by [] (actions o) o1) as Hsame by (intros o1 E sig; by rewrite E).
  unfold ls_linux_install_signal_handlers. destruct (sl_installed s) eqn:Ei; [right; auto|].
  destruct (sl_record_fd s <? 0); [right; auto|].
  pose proof (stack_keeps (SignalsOk := OS) o) as K1. destruct (os_get_stack os o) as [stack o1]. cbn [snd] in K1.
  destruct stack as [[disabled size]|]; [|right; auto]. destruct (disabled || _); [right; auto|].
  pose proof (fill_keeps (SignalsOk := OS) o1) as K2. destruct (os_fill_mask os o1) as [filled o2]. cbn [snd] in K2.
  assert (actions o2 = actions o) as K by congruence. destruct filled; cbn [negb]; [|right; auto].
  pose proof (install_loop_spec signals [] o2 (actions o)) as H. cbn [map app rev] in H.
  specialize (H Hdup (Forall_nil_2 _) (Hsame o2 K)). destruct (install_loop signals [] o2) as [[l|l] o3].
  { right. split; [done|]. split; [exact H|exact Ei]. }
  destruct H as (H1 & H2 & H3). left. split; [done|]. split; [exact H1|]. split; [done|]. intros o4.
  unfold ls_linux_uninstall_signal_handlers. cbn [with_installed sl_installed negb sl_previous stored with_previous].
  split; [done|]. intros sig. rewrite <- map_rev, H2, map_map. cbn [snd]. by apply uninstall_loop_spec.
Qed.
End Facts.
End Install.

(** ** A process

    Its state is the actions as an association list, and how many calls succeed. *)

Definition demo_signal_os : signal_os (list (Z * Z)) Z := {|
  os_getfl := fun _ o => (Some true, o);
  os_is_fifo := fun _ o => (Some true, o);
  os_set_stack := fun _ _ o => (true, o);
  os_get_stack := fun o => (Some (false, 8192), o);
  os_fill_mask := fun o => (true, o);
  os_sigaction := fun sig a o =>
    if sig =? 9 then (None, o)
    else (Some (default 0 (snd <$> List.find (fun e => fst e =? sig) o)), (sig, a) :: o)
|}.
Definition demo_actions (o : list (Z * Z)) (sig : Z) : Z := default 0 (snd <$> List.find (fun e => fst e =? sig) o).

#[export] Instance demo_signals_ok : SignalsOk demo_signal_os demo_actions.
Proof.
  split; [|done|done]. intros sig. cbn [demo_signal_os os_sigaction]. destruct (sig =? 9) eqn:E; [by left|right].
  intros a o. exists ((sig, a) :: o). split; [done|]. intros other. unfold demo_actions. cbn [List.find fst].
  destruct (Z.eqb_spec sig other) as [->|Hn]; [by rewrite decide_True|]. by rewrite decide_False by congruence.
Qed.

Lemma install_all_or_nothing_witness : let '(r, (s', o')) :=
    ls_linux_install_signal_handlers demo_signal_os 2048 [11; 7; 4; 8; 6] 1
      ({| sl_record_fd := 5; sl_installed := false; sl_previous := [0; 0; 0; 0; 0] |}, [(7, 3)]) in
  (r = LS_OK /\ handled_by 1 demo_actions [11; 7; 4; 8; 6] (demo_actions [(7, 3)]) o' /\ sl_installed s' = true /\
   forall o2, let '(s3, o3) := ls_linux_uninstall_signal_handlers demo_signal_os [11; 7; 4; 8; 6] (s', o2) in
     sl_installed s3 = false /\ forall sig, demo_actions o3 sig = if decide (sig ∈ [11; 7; 4; 8; 6]) then demo_actions [(7, 3)] sig else demo_actions o2 sig) \/
  (r <> LS_OK /\ handled_by 1 demo_actions [] (demo_actions [(7, 3)]) o' /\ sl_installed s' = false).
Proof.
  apply (install_all_or_nothing demo_signal_os 2048 [11; 7; 4; 8; 6] 1 demo_actions).
  repeat (apply NoDup_cons; split; [set_solver|]). by apply NoDup_nil.
Defined.

Lemma signal_record_valid_witness : let m := X86_64 (fun r => match r with RIP => 0x401000 | RSP => 0x7ffe0000 | _ => 7 end) in
  exists d, signal_handler 11 7 4 8 5 0x600000 11 (Some {| si_code := 1; si_addr := 0 |}) (Some m) = ([(5, d)], 139) /\
    zlen d = record_size /\ ls_linux_signal_record_validate (Some d) = true /\
    s32 (le_get (slice 12 4 d)) = 11 /\ s32 (le_get (slice 16 4 d)) = 1 /\
    read_registers d = machine_registers m /\ le_get (slice 32 8 d) = machine_pc m /\ le_get (slice 40 8 d) = machine_sp m /\
    le_get (slice 48 8 d) = machine_fp m /\ ls_linux_signal_record_validate (Some (take 324 d ++ le 4 0)) = false.
Proof.
  intros m. assert (- 2 ^ 31 <= 11 < 2 ^ 31) as H1 by lia. assert (- 2 ^ 31 <= 1 < 2 ^ 31) as H2 by lia. assert (0 <= 5) as H3 by lia.
  exact (signal_record_valid 11 7 4 8 5 0x600000 11 1 0 (Some m) H3 H1 H2).
Defined.
