(* ===== verification/FileBackend.v ===== *)
(** * The file backend of embedded Linux ([src/ports/embedded-linux/file_backend.c])

    Storage in a file and a transport that writes one file per event. The system calls are
    those of POSIX, parameters of the model over a state [O] of the operating system; a
    call that a signal interrupts is repeated. The loops run on fuel and give [None] when
    it is used up. *)

From S2P Require Import Prelude Util FaultInjection Storage Envelope.

Inductive errno : Type := EINTR | EINVAL | ENOSYS | EOPNOTSUPP | EOTHER.
Inductive open_flag : Type := O_RDONLY | O_RDWR | O_WRONLY | O_CREAT | O_TRUNC | O_CLOEXEC | O_NOFOLLOW | O_DIRECTORY.

Definition SSIZE_MAX : Z := Z.shiftr SIZE_MAX 1.
Definition INT64_MAX : Z := 2 ^ 63 - 1.
Definition LS_FILE_ERASE_CHUNK_SIZE : Z := 4096.

(** A call returns a value, or the error number; [sys_fstat] tells whether the descriptor
    is a regular file, and its size. *)
Record posix (O : Type) : Type := {
  sys_open : list Z -> list open_flag -> st O (Z + errno);
  sys_openat : Z -> list Z -> list open_flag -> st O (Z + errno);
  sys_ftruncate : Z -> Z -> st O (option errno);
  sys_fdatasync : Z -> st O (option errno);
  sys_fsync : Z -> st O (option errno);
  sys_fstat : Z -> st O (option (bool * Z));
  sys_pwrite : Z -> list Z -> Z -> st O (Z + errno);
  sys_pread : Z -> Z -> Z -> st O (list Z + errno);
  sys_fallocate : Z -> Z -> Z -> st O (option errno);
  sys_write : Z -> list Z -> st O (Z + errno);
  sys_close : Z -> st O bool
}.
Arguments sys_open {O} _.
Arguments sys_openat {O} _.
Arguments sys_ftruncate {O} _.
Arguments sys_fdatasync {O} _.
Arguments sys_fsync {O} _.
Arguments sys_fstat {O} _.
Arguments sys_pwrite {O} _.
Arguments sys_pread {O} _.
Arguments sys_fallocate {O} _.
Arguments sys_write {O} _.
Arguments sys_close {O} _.

Record ls_file_storage_t : Type := { fs_path : option (list Z); fs_size : Z; fs_fd : Z; fs_initialized : bool }.

Definition with_fd (fd : Z) (initialized : bool) (f : ls_file_storage_t) : ls_file_storage_t :=
  {| fs_path := fs_path f; fs_size := fs_size f; fs_fd := fd; fs_initialized := initialized |}.

Section File.
Context {O : Type} (os : posix O) (fuel : nat).

(** A computation that may run out of fuel. *)
Definition io (A : Type) : Type := O -> option (A * O).
Definition ret {A} (a : A) : io A := fun o => Some (a, o).
Definition call {A} (f : st O A) : io A := fun o => Some (f o).
Definition bind {A B} (m : io A) (k : A -> io B) : io B := fun o => '(a, o) ← m o; k a o.

Definition interrupted_sum {A} (r : A + errno) : bool := match r with inr EINTR => true | _ => false end.
Definition interrupted (r : option errno) : bool := match r with Some EINTR => true | _ => false end.

(** [do { result = call; } while (result < 0 && errno == EINTR);] *)
Fixpoint retry {A} (n : nat) (again : A -> bool) (f : st O A) : io A := fun o =>
  match n with
  | 0%nat => None
  | S n => let '(r, o) := f o in if again r then retry n again f o else Some (r, o)
  end.

Definition open_retry (path : list Z) (flags : list open_flag) : io (Z + errno) :=
  retry fuel interrupted_sum (sys_open os path flags).
Definition openat_retry (directory : Z) (path : list Z) (flags : list open_flag) : io (Z + errno) :=
  retry fuel interrupted_sum (sys_openat os directory path flags).
Definition truncate_retry (fd length_ : Z) : io (option errno) := retry fuel interrupted (sys_ftruncate os fd length_).
Definition sync_retry (fd : Z) (data_only : bool) : io (option errno) :=
  retry fuel interrupted (if data_only then sys_fdatasync os fd else sys_fsync os fd).

Definition sync_data (fd : Z) : io ls_result_t :=
  bind (sync_retry fd true) (fun r =>
    match r with
    | None => ret LS_OK
    | Some (EINVAL | ENOSYS | EOPNOTSUPP) =>
        bind (sync_retry fd false) (fun r => ret (match r with None => LS_OK | Some _ => LS_EIO end))
    | Some _ => ret LS_EIO
    end).

Definition storage_bounds (f : ls_file_storage_t) (offset length_ : Z) : ls_result_t :=
  match fs_path f with
  | None => LS_EINVAL
  | Some _ => if (fs_size f =? 0) || (fs_size f <? offset) || (fs_size f - offset <? length_) then LS_EINVAL else LS_OK
  end.

Definition size_to_offset (value : Z) : option Z := if INT64_MAX <? value then None else Some value.

Definition descriptor_is_regular_file (fd : Z) : io ls_result_t :=
  bind (call (sys_fstat os fd)) (fun r => ret (match r with Some (true, _) => LS_OK | _ => LS_EIO end)).

(** The number of bytes of the next transfer. *)
Definition transfer_count (remaining : Z) : Z := if SSIZE_MAX <? remaining then SSIZE_MAX else remaining.

Fixpoint write_loop (n : nat) (fd : Z) (source : list Z) (offset completed : Z) : io ls_result_t := fun o =>
  match n with
  | 0%nat => None
  | S n =>
      if zlen source <=? completed then Some (LS_OK, o)
      else
        let count := transfer_count (zlen source - completed) in
        if SIZE_MAX - completed <? offset then Some (LS_EOVERFLOW, o)
        else
          match size_to_offset (offset + completed) with
          | None => Some (LS_EOVERFLOW, o)
          | Some position =>
              let '(r, o) := sys_pwrite os fd (slice completed count source) position o in
              match r with
              | inr EINTR => write_loop n fd source offset completed o
              | inr _ => Some (LS_EIO, o)
              | inl written => if written =? 0 then Some (LS_EIO, o) else write_loop n fd source offset (completed + written) o
              end
          end
  end.
Definition write_all (fd : Z) (source : list Z) (offset : Z) : io ls_result_t := write_loop fuel fd source offset 0.

(** [read_all]; [got] is what was read so far. *)
Fixpoint read_loop (n : nat) (fd length_ offset : Z) (got : list Z) : io (res (list Z)) := fun o =>
  match n with
  | 0%nat => None
  | S n =>
      if length_ <=? zlen got then Some (Ok got, o)
      else
        let count := transfer_count (length_ - zlen got) in
        if SIZE_MAX - zlen got <? offset then Some (Err LS_EOVERFLOW, o)
        else
          match size_to_offset (offset + zlen got) with
          | None => Some (Err LS_EOVERFLOW, o)
          | Some position =>
              let '(r, o) := sys_pread os fd count position o in
              match r with
              | inr EINTR => read_loop n fd length_ offset got o
              | inr _ => Some (Err LS_EIO, o)
              | inl bytes => if zlen bytes =? 0 then Some (Err LS_EIO, o) else read_loop n fd length_ offset (got ++ bytes) o
              end
          end
  end.
Definition read_all (fd length_ offset : Z) : io (res (list Z)) := read_loop fuel fd length_ offset [].

Fixpoint erase_loop (n : nat) (fd offset length_ : Z) : io ls_result_t := fun o =>
  match n with
  | 0%nat => None
  | S n =>
      if length_ =? 0 then Some (LS_OK, o)
      else
        let count := if LS_FILE_ERASE_CHUNK_SIZE <? length_ then LS_FILE_ERASE_CHUNK_SIZE else length_ in
        '(r, o) ← write_all fd (fill count 0xff) offset o;
        if is_ok r then erase_loop n fd (offset + count) (length_ - count) o else Some (r, o)
  end.
Definition erase_range (fd offset length_ : Z) : io ls_result_t := erase_loop fuel fd offset length_.

Definition preallocate_erased (fd size : Z) : io ls_result_t :=
  match size_to_offset size with
  | None => ret LS_EOVERFLOW
  | Some length_ =>
      bind (retry fuel interrupted (sys_fallocate os fd 0 length_)) (fun allocation =>
        match allocation with
        | Some (EINTR | EOTHER) => ret LS_EIO
        | _ =>
            bind (truncate_retry fd length_) (fun r =>
              match r with
              | Some _ => ret LS_EIO
              | None => bind (erase_range fd 0 size) (fun r => if is_ok r then sync_data fd else ret r)
              end)
        end)
  end.

(** The size of the opened file decides: another size is refused, a short file is restarted
    as erased storage. *)
Definition check_file (f : ls_file_storage_t) (fd : Z) : io ls_result_t :=
  bind (descriptor_is_regular_file fd) (fun result =>
    if negb (is_ok result) then ret result
    else
      bind (call (sys_fstat os fd)) (fun status =>
        match status with
        | None => ret LS_EIO
        | Some (_, st_size) =>
            if st_size <? 0 then ret LS_EIO
            else if fs_size f <? st_size then ret LS_EINVAL
            else if st_size <? fs_size f then preallocate_erased fd (fs_size f)
            else ret LS_OK
        end)).

Definition ls_file_storage_init (f : ls_file_storage_t) : io (ls_result_t * ls_file_storage_t) :=
  match fs_path f with
  | None => ret (LS_EINVAL, f)
  | Some path =>
      if negb (is_ok (storage_bounds f 0 0)) then ret (LS_EINVAL, f)
      else if fs_initialized f then ret (if 0 <=? fs_fd f then LS_OK else LS_EIO, f)
      else
        let f := with_fd (-1) (fs_initialized f) f in
        bind (open_retry path [O_RDWR; O_CREAT; O_CLOEXEC; O_NOFOLLOW]) (fun descriptor =>
          match descriptor with
          | inr _ => ret (LS_EIO, f)
          | inl fd =>
              bind (check_file f fd) (fun result =>
                if negb (is_ok result) then bind (call (sys_close os fd)) (fun _ => ret (result, f))
                else ret (LS_OK, with_fd fd true f))
          end)
  end.

Definition ls_file_storage_close (f : ls_file_storage_t) : io (ls_result_t * ls_file_storage_t) :=
  if negb (fs_initialized f) then ret (LS_OK, with_fd (-1) false f)
  else
    let descriptor := fs_fd f in
    let f := with_fd (-1) false f in
    if descriptor <? 0 then ret (LS_EIO, f)
    else bind (sync_data descriptor) (fun result =>
           bind (call (sys_close os descriptor)) (fun closed =>
             ret (if negb closed && is_ok result then LS_EIO else result, f))).

(** The callbacks of a backend; [context] is the structure, and the buffers are given. *)
Definition ls_file_storage_read (f : ls_file_storage_t) (offset length_ : Z) : io (res (list Z) * ls_file_storage_t) :=
  if negb (is_ok (storage_bounds f offset length_)) then ret (Err LS_EINVAL, f)
  else bind (ls_file_storage_init f) (fun '(result, f) =>
         if negb (is_ok result) then ret (Err result, f)
         else if length_ =? 0 then ret (Ok [], f)
         else bind (read_all (fs_fd f) length_ offset) (fun r => ret (r, f))).

Definition ls_file_storage_write (f : ls_file_storage_t) (offset : Z) (src : list Z) : io (ls_result_t * ls_file_storage_t) :=
  if negb (is_ok (storage_bounds f offset (zlen src))) then ret (LS_EINVAL, f)
  else bind (ls_file_storage_init f) (fun '(result, f) =>
         if negb (is_ok result) || (zlen src =? 0) then ret (result, f)
         else bind (write_all (fs_fd f) src offset) (fun r => ret (r, f))).

Definition ls_file_storage_erase (f : ls_file_storage_t) (offset length_ : Z) : io (ls_result_t * ls_file_storage_t) :=
  if negb (is_ok (storage_bounds f offset length_)) then ret (LS_EINVAL, f)
  else bind (ls_file_storage_init f) (fun '(result, f) =>
         if negb (is_ok result) || (length_ =? 0) then ret (result, f)
         else bind (erase_range (fs_fd f) offset length_) (fun r => ret (r, f))).

Definition ls_file_storage_sync (f : ls_file_storage_t) : io (ls_result_t * ls_file_storage_t) :=
  if negb (is_ok (storage_bounds f 0 0)) then ret (LS_EINVAL, f)
  else bind (ls_file_storage_init f) (fun '(result, f) =>
         if negb (is_ok result) then ret (result, f) else bind (sync_data (fs_fd f)) (fun r => ret (r, f))).

(** ** The transport *)

Fixpoint stream_loop (n : nat) (fd : Z) (source : list Z) (completed : Z) : io ls_result_t := fun o =>
  match n with
  | 0%nat => None
  | S n =>
      if zlen source <=? completed then Some (LS_OK, o)
      else
        let count := transfer_count (zlen source - completed) in
        let '(r, o) := sys_write os fd (slice completed count source) o in
        match r with
        | inr EINTR => stream_loop n fd source completed o
        | inr _ => Some (LS_EIO, o)
        | inl written => if written =? 0 then Some (LS_EIO, o) else stream_loop n fd source (completed + written) o
        end
  end.
Definition write_stream_all (fd : Z) (source : list Z) : io ls_result_t := stream_loop fuel fd source 0.

Definition hex_char (digit : Z) : Z := if digit <? 10 then 48 + digit else 87 + digit.

(** Eight digits of the event identifier and ".lst". *)
Definition event_file_name (event_id : Z) : list Z :=
  map (fun i => hex_char (Z.land (Z.shiftr event_id ((7 - Z.of_nat i) * 4)) 0xf)) (List.seq 0 8) ++ str ".lst".

Definition fail_if (failed : bool) (result : ls_result_t) : ls_result_t := if failed && is_ok result then LS_EIO else result.

Definition ls_file_transport_send (directory : option (list Z)) (data : list Z) : io ls_result_t :=
  match directory, ls_envelope_validate (Some data) with
  | Some path, Ok info =>
      bind (open_retry path [O_RDONLY; O_DIRECTORY; O_CLOEXEC; O_NOFOLLOW]) (fun directory =>
        match directory with
        | inr _ => ret LS_EIO
        | inl directory =>
            bind (openat_retry directory (event_file_name (event_id info)) [O_WRONLY; O_CREAT; O_TRUNC; O_CLOEXEC; O_NOFOLLOW])
              (fun file =>
               match file with
               | inr _ => bind (call (sys_close os directory)) (fun _ => ret LS_EIO)
               | inl file =>
                   bind (descriptor_is_regular_file file) (fun result =>
                   bind (if is_ok result then write_stream_all file data else ret result) (fun result =>
                   bind (if is_ok result then sync_data file else ret result) (fun result =>
                   bind (call (sys_close os file)) (fun closed =>
                   let result := fail_if (negb closed) result in
                   bind (if is_ok result then bind (sync_retry directory false) (fun r => ret (match r with None => LS_OK | Some _ => LS_EIO end))
                         else ret result) (fun result =>
                   bind (call (sys_close os directory)) (fun closed =>
                   ret (fail_if (negb closed) result)))))))
               end)
        end)
  | _, _ => ret LS_EINVAL
  end.
End File.

(** ** What is relied on of the operating system

    [disk] is what the backing file holds, [opened] tells which descriptors refer to it, and
    [pending] bounds how many calls a signal will still interrupt: that number is finite.
    A call that fails may have torn the range it addressed, unless it was interrupted. *)

Section Posix.
Context {O : Type} (os : posix O) (path : list Z) (disk : O -> list Z) (opened : O -> Z -> Prop) (pending : O -> nat).

Definition later (o o' : O) : Prop := (forall fd, opened o fd -> opened o' fd) /\ (pending o' <= pending o)%nat.
Definition step (again : bool) (o o' : O) : Prop := later o o' /\ (again = true -> (pending o' < pending o)%nat).

Record posix_ok : Prop := {
  px_open flags o r o' : sys_open os path flags o = (r, o') ->
    step (interrupted_sum r) o o' /\ disk o' = disk o /\ (forall fd, r = inl fd -> 0 <= fd /\ opened o' fd);
  px_ftruncate fd n o r o' : opened o fd -> bytes_ok (disk o) -> 0 <= n -> sys_ftruncate os fd n o = (r, o') ->
    step (interrupted r) o o' /\ bytes_ok (disk o') /\ (r = None -> zlen (disk o') = n);
  px_fdatasync fd o r o' : opened o fd -> sys_fdatasync os fd o = (r, o') -> step (interrupted r) o o' /\ disk o' = disk o;
  px_fsync fd o r o' : opened o fd -> sys_fsync os fd o = (r, o') -> step (interrupted r) o o' /\ disk o' = disk o;
  px_fstat fd o r o' : opened o fd -> sys_fstat os fd o = (r, o') ->
    later o o' /\ disk o' = disk o /\ (forall regular size, r = Some (regular, size) -> size = zlen (disk o));
  px_pwrite fd data pos o r o' : opened o fd -> bytes_ok data -> 0 <= pos -> pos + zlen data <= zlen (disk o) ->
    sys_pwrite os fd data pos o = (r, o') ->
    step (interrupted_sum r) o o' /\
    match r with
    | inl n => 0 <= n <= zlen data /\ disk o' = splice pos (slice 0 n data) (disk o)
    | inr EINTR => disk o' = disk o
    | inr _ => torn pos data (disk o) (disk o')
    end;
  px_pread fd n pos o r o' : opened o fd -> 0 <= n -> 0 <= pos -> pos + n <= zlen (disk o) -> sys_pread os fd n pos o = (r, o') ->
    step (interrupted_sum r) o o' /\ disk o' = disk o /\
    (forall bytes, r = inl bytes -> zlen bytes <= n /\ bytes = slice pos (zlen bytes) (disk o));
  px_fallocate fd n o r o' : opened o fd -> bytes_ok (disk o) -> 0 <= n -> sys_fallocate os fd 0 n o = (r, o') ->
    step (interrupted r) o o' /\ bytes_ok (disk o');
  px_close fd o r o' : sys_close os fd o = (r, o') -> (pending o' <= pending o)%nat /\ disk o' = disk o
}.

Context (OS : posix_ok) (fuel : nat).

Lemma later_refl o : later o o.
Proof. by split. Qed.

Lemma later_trans o1 o2 o3 : later o1 o2 -> later o2 o3 -> later o1 o3.
Proof. intros [A1 B1] [A2 B2]. split; [auto|lia]. Qed.

(** An interrupted call is repeated until it was not. *)
Lemma retry_spec {A} (again : A -> bool) (f : st O A) (I : O -> Prop) (R : A -> O -> O -> Prop) :
  (forall o r o', I o -> f o = (r, o') -> step (again r) o o' /\ R r o o' /\ (again r = true -> I o')) ->
  (forall r0 r o1 o2 o3, again r0 = true -> R r0 o1 o2 -> R r o2 o3 -> R r o1 o3) ->
  forall n o, I o -> (pending o < n)%nat ->
  exists r o', retry n again f o = Some (r, o') /\ again r = false /\ later o o' /\ R r o o'.
Proof.
  intros Hf Htrans n. induction n as [|n IH]; intros o HI Hn; [lia|]. cbn [retry]. destruct (f o) as [r o'] eqn:E.
  destruct (Hf o r o' HI E) as ([Hl Hp] & HR & HI'). destruct (again r) eqn:Er; [|by exists r, o'].
  specialize (Hp eq_refl). destruct (IH o' (HI' eq_refl) ltac:(lia)) as (r2 & o2 & E2 & H1 & H2 & H3).
  exists r2, o2. split; [exact E2|]. split; [exact H1|]. split; [exact (later_trans _ _ _ Hl H2)|]. exact (Htrans _ _ _ _ _ Er HR H3).
Qed.

Lemma sync_retry_spec fd data_only o : opened o fd -> (pending o < fuel)%nat ->
  exists r o', sync_retry os fuel fd data_only o = Some (r, o') /\ later o o' /\ disk o' = disk o.
Proof using OS.
  intros Ho Hn. unfold sync_retry.
  destruct (retry_spec interrupted (if data_only then sys_fdatasync os fd else sys_fsync os fd) (fun o => opened o fd)
    (fun _ o o' => disk o' = disk o)) with (n := fuel) (o := o) as (r & o' & E & _ & Hl & Hd); try done.
  - intros o1 r o2 Ho1 E. assert (step (interrupted r) o1 o2 /\ disk o2 = disk o1) as [Hs Hd].
    { destruct data_only; [by eapply px_fdatasync|by eapply px_fsync]. }
    split; [exact Hs|]. split; [exact Hd|]. intros _. by apply Hs.
  - intros. congruence.
  - by exists r, o'.
Qed.

Lemma sync_data_spec fd o : opened o fd -> (pending o < fuel)%nat ->
  exists r o', sync_data os fuel fd o = Some (r, o') /\ later o o' /\ disk o' = disk o.
Proof using OS.
  intros Ho Hn. unfold sync_data, bind. destruct (sync_retry_spec fd true o Ho Hn) as (r1 & o1 & E1 & L1 & D1). rewrite E1.
  destruct (sync_retry_spec fd false o1) as (r2 & o2 & E2 & L2 & D2); [by apply L1|destruct L1; lia|].
  assert (later o o2 /\ disk o2 = disk o) as [L3 D3] by (split; [exact (later_trans _ _ _ L1 L2)|congruence]).
  cbn. destruct r1 as [[]|]; try (eexists _, o1; by split_and!); rewrite E2; eexists _, o2; by split_and!.
Qed.

Lemma transfer_range n : 0 < n -> 0 < transfer_count n <= n.
Proof. intros Hn. unfold transfer_count. change SSIZE_MAX with 2147483647. destruct (_ <? n) eqn:E; blia. Qed.

Lemma offset_fits pos : 0 <= pos <= SIZE_MAX -> size_to_offset pos = Some pos.
Proof. intros H. unfold size_to_offset, INT64_MAX, SIZE_MAX in *. destruct (_ <? pos) eqn:E; [blia|done]. Qed.

Lemma slice_parts n (b : list Z) : 0 <= n <= zlen b -> b = slice 0 n b ++ slice n (zlen b - n) b.
Proof.
  intros H. pose proof (slice_split 0 n (zlen b - n) b ltac:(lia) ltac:(lia) ltac:(lia)) as E. rewrite Z.add_0_l in E.
  rewrite <- E. replace (n + (zlen b - n)) with (zlen b) by lia. symmetry. apply slice_full.
Qed.

Lemma write_loop_spec fd off : 0 <= off -> forall n a b o, opened o fd -> bytes_ok b ->
  off + zlen a + zlen b <= zlen (disk o) -> zlen (disk o) <= SIZE_MAX -> (pending o + length b < n)%nat ->
  exists r o', write_loop os n fd (a ++ b) off (zlen a) o = Some (r, o') /\ later o o' /\
    torn (off + zlen a) b (disk o) (disk o') /\ (r = LS_OK -> disk o' = splice (off + zlen a) b (disk o)).
Proof using OS.
  intros Hoff n. induction n as [|n IH]; intros a b o Hop Hb Hz Hmax Hn; [lia|]. pose proof (zlen_nonneg a) as Za. pose proof (zlen_nonneg b) as Zb.
  cbn [write_loop]. rewrite zlen_app. destruct (zlen a + zlen b <=? zlen a) eqn:E1.
  { assert (b = []) as -> by (destruct b; [done|rewrite zlen_cons in E1; pose proof (zlen_nonneg b); blia]).
    exists LS_OK, o. split; [done|]. split; [apply later_refl|]. split; [apply torn_refl|]. intros _. rewrite splice_nil; [done|lia]. }
  replace (zlen a + zlen b - zlen a) with (zlen b) by lia. destruct (transfer_range (zlen b)) as [C1 C2]; [blia|].
  set (count := transfer_count (zlen b)) in *. destruct (SIZE_MAX - zlen a <? off) eqn:E2; [blia|]. rewrite offset_fits by lia.
  assert (slice (zlen a) count (a ++ b) = slice 0 count b) as -> by (rewrite slice_app_r by lia; f_equal; lia).
  set (chunk := slice 0 count b). assert (zlen chunk = count) as Zc by (apply zlen_slice; lia).
  assert (bytes_ok chunk) as Bc by by apply bytes_ok_slice.
  destruct (sys_pwrite os fd chunk (off + zlen a) o) as [r o1] eqn:Ew.
  assert (0 <= off + zlen a) as P1 by lia. assert (off + zlen a + zlen chunk <= zlen (disk o)) as P2 by lia.
  destruct (px_pwrite OS _ _ _ _ _ _ Hop Bc P1 P2 Ew) as ([Hl Hp] & Hr). destruct r as [written|e].
  - destruct Hr as [Hw Hd]. destruct (written =? 0) eqn:E3.
    { assert (written = 0) as -> by blia. change (slice 0 0 chunk) with (@nil Z) in Hd. rewrite splice_nil in Hd by lia.
      exists LS_EIO, o1. rewrite Hd. split; [done|]. split; [done|]. split; [apply torn_refl|done]. }
    unfold chunk in Hd. rewrite slice_slice in Hd by lia. change (0 + 0) with 0 in Hd.
    set (b1 := slice 0 written b) in *. set (b2 := slice written (zlen b - written) b).
    assert (b = b1 ++ b2) as Eb by (apply slice_parts; lia).
    assert (zlen b1 = written) as Z1 by (apply zlen_slice; lia). assert (zlen b2 = zlen b - written) as Z2 by (apply zlen_slice; lia).
    assert (zlen (disk o1) = zlen (disk o)) as Zd by (rewrite Hd; apply zlen_splice; lia).
    destruct (IH (a ++ b1) b2 o1) as (r & o2 & E & L & T & S); [by apply Hl|by apply bytes_ok_slice|rewrite zlen_app; lia|lia|unfold zlen in *; destruct Hl; lia|].
    exists r, o2. rewrite <- app_assoc, <- Eb, zlen_app, Z1 in E. split; [exact E|]. split; [exact (later_trans _ _ _ Hl L)|].
    rewrite zlen_app, Z.add_assoc in T, S. split.
    + eapply torn_trans; [|rewrite Eb; apply torn_app_r; [lia|exact T]]. rewrite Hd, Eb. apply torn_app_l, torn_splice; lia.
    + intros Hr. rewrite (S Hr), Hd, Eb. apply splice_app; lia.
  - destruct e; (specialize (Hp ltac:(done)) || clear Hp);
      try (exists LS_EIO, o1; split; [done|]; split; [exact Hl|]; split; [|done];
           assert (b = chunk ++ slice count (zlen b - count) b) as Eb2
             by (apply slice_parts; lia);
           rewrite Eb2; by apply torn_app_l).
    destruct (IH a b o1) as (r & o2 & E & L & T); [by apply Hl|done|by rewrite Hr|by rewrite Hr|lia|]. rewrite Hr in T.
    exists r, o2. split; [exact E|]. split; [exact (later_trans _ _ _ Hl L)|exact T].
Qed.

Lemma write_all_spec fd data off o : 0 <= off -> opened o fd -> bytes_ok data -> off + zlen data <= zlen (disk o) ->
  zlen (disk o) <= SIZE_MAX -> (pending o + length data < fuel)%nat ->
  exists r o', write_all os fuel fd data off o = Some (r, o') /\ later o o' /\
    torn off data (disk o) (disk o') /\ (r = LS_OK -> disk o' = splice off data (disk o)).
Proof using OS.
  intros H1 H2 H3 H4 H5 H6. destruct (write_loop_spec fd off H1 fuel [] data o H2 H3) as (r & o' & E & L & T & S); [by rewrite zlen_nil, Z.add_0_r|done|done|].
  rewrite zlen_nil, Z.add_0_r in T, S. by exists r, o'.
Qed.

Lemma read_loop_spec fd off len : 0 <= off -> forall n got o, opened o fd -> off + len <= zlen (disk o) -> zlen (disk o) <= SIZE_MAX ->
  zlen got <= len -> got = slice off (zlen got) (disk o) -> (pending o + Z.to_nat (len - zlen got) < n)%nat ->
  exists r o', read_loop os n fd len off got o = Some (r, o') /\ later o o' /\ disk o' = disk o /\
    r <> Err LS_OK /\ (forall bytes, r = Ok bytes -> bytes = slice off len (disk o)).
Proof using OS.
  intros Hoff n. induction n as [|n IH]; intros got o Hop Hz Hmax Hg Eg Hn; [lia|]. pose proof (zlen_nonneg got) as Zg.
  cbn [read_loop]. destruct (len <=? zlen got) eqn:E1.
  { exists (Ok got), o. split; [done|]. split; [apply later_refl|]. split; [done|]. split; [done|].
    intros bytes [= <-]. rewrite Eg. f_equal. blia. }
  destruct (transfer_range (len - zlen got)) as [C1 C2]; [blia|]. set (count := transfer_count (len - zlen got)) in *.
  destruct (SIZE_MAX - zlen got <? off) eqn:E2; [blia|]. rewrite offset_fits by lia.
  destruct (sys_pread os fd count (off + zlen got) o) as [r o1] eqn:Er.
  assert (0 <= count) as P0 by lia. assert (0 <= off + zlen got) as P1 by lia. assert (off + zlen got + count <= zlen (disk o)) as P2 by lia.
  destruct (px_pread OS _ _ _ _ _ _ Hop P0 P1 P2 Er) as ([Hl Hp] & Hd & Hb).
  assert (forall e, e <> LS_OK -> exists r o', Some (Err (A := list Z) e, o1) = Some (r, o') /\ later o o' /\ disk o' = disk o /\
    r <> Err LS_OK /\ (forall bytes, r = Ok bytes -> bytes = slice off len (disk o))) as Hfail
    by (intros e He; exists (Err e), o1; split_and!; try done; congruence).
  destruct r as [bytes|e].
  - destruct (Hb bytes eq_refl) as [Zb Eb]. pose proof (zlen_nonneg bytes) as Zn. destruct (zlen bytes =? 0) eqn:E3; [by apply Hfail|].
    destruct (IH (got ++ bytes) o1) as (r & o2 & E & L & D & R1 & R2); rewrite ?Hd, ?zlen_app; try done; try lia.
    + by apply Hl.
    + rewrite Eg at 1. rewrite Eb at 1. by rewrite <- slice_split by lia.
    + destruct Hl. lia.
    + exists r, o2. split; [exact E|]. split; [exact (later_trans _ _ _ Hl L)|]. rewrite Hd in *. done.
  - destruct e; try (by apply Hfail). specialize (Hp eq_refl).
    destruct (IH got o1) as (r & o2 & E & L & D & R1 & R2); rewrite ?Hd; try done; try lia; [by apply Hl|].
    exists r, o2. split; [exact E|]. split; [exact (later_trans _ _ _ Hl L)|]. rewrite Hd in *. done.
Qed.

Lemma erase_loop_spec fd : forall n off len o, 0 <= off -> 0 <= len -> opened o fd -> off + len <= zlen (disk o) ->
  zlen (disk o) <= SIZE_MAX -> (pending o + Z.to_nat len < fuel)%nat -> (Z.to_nat len < n)%nat ->
  exists r o', erase_loop os fuel n fd off len o = Some (r, o') /\ later o o' /\
    torn off (fill len 0xff) (disk o) (disk o') /\ (r = LS_OK -> disk o' = splice off (fill len 0xff) (disk o)).
Proof using OS.
  intros n. induction n as [|n IH]; intros off len o Hoff Hlen Hop Hz Hmax Hf Hn; [lia|]. cbn [erase_loop]. destruct (len =? 0) eqn:E0.
  { assert (len = 0) as -> by blia. exists LS_OK, o. change (fill 0 255) with (@nil Z). split; [done|]. split; [apply later_refl|].
    split; [apply torn_refl|]. intros _. by rewrite splice_nil by lia. }
  change LS_FILE_ERASE_CHUNK_SIZE with 4096. set (count := if 4096 <? len then 4096 else len).
  assert (0 < count <= len) as Hc by (unfold count; destruct (4096 <? len) eqn:E; blia). clearbody count.
  assert (zlen (fill count 255) = count) as Zc by (apply zlen_fill; lia).
  destruct (write_all_spec fd (fill count 255) off o) as (r & o1 & E & L & T & S); [done|done|by apply bytes_ok_fill|lia|done| |].
  { unfold zlen in Zc. lia. }
  rewrite E. cbn [mbind option_bind]. assert (fill len 255 = fill count 255 ++ fill (len - count) 255) as Ef.
  { unfold fill. rewrite <- replicate_add. f_equal. lia. }
  destruct (is_ok r) eqn:Er.
  - apply is_ok_true in Er. specialize (S Er). assert (zlen (disk o1) = zlen (disk o)) as Zd by (by eapply torn_zlen).
    destruct (IH (off + count) (len - count) o1) as (r2 & o2 & E2 & L2 & T2 & S2); try lia; [by apply L|destruct L; lia|].
    exists r2, o2. split; [exact E2|]. split; [exact (later_trans _ _ _ L L2)|]. rewrite Ef. split.
    + eapply torn_trans; [apply torn_app_l; exact T|]. apply torn_app_r; [lia|]. by rewrite Zc.
    + intros Hr. rewrite (S2 Hr), S, <- Zc at 1. apply splice_app; rewrite ?zlen_fill; lia.
  - apply is_ok_false in Er. exists r, o1. split; [done|]. split; [done|]. split; [|done]. rewrite Ef. by apply torn_app_l.
Qed.

Lemma preallocate_spec fd size o : opened o fd -> bytes_ok (disk o) -> 0 <= size <= SIZE_MAX -> (pending o + Z.to_nat size < fuel)%nat ->
  exists r o', preallocate_erased os fuel fd size o = Some (r, o') /\ later o o' /\ bytes_ok (disk o') /\
    (r = LS_OK -> disk o' = fill size 0xff).
Proof using OS.
  intros Hop Hb Hs Hf. unfold preallocate_erased, bind. rewrite offset_fits by done.
  destruct (retry_spec interrupted (sys_fallocate os fd 0 size) (fun o => opened o fd /\ bytes_ok (disk o)) (fun _ _ o' => bytes_ok (disk o')))
    with (n := fuel) (o := o) as (r1 & o1 & E1 & I1 & L1 & B1); try done; [|lia|].
  { intros x r y [Hx Bx] E. destruct (px_fallocate OS fd size x r y Hx Bx ltac:(lia) E) as [Hst By]. by split; [|split; [|split; [apply Hst|]]]. }
  rewrite E1. cbn [mbind option_bind]. pose proof L1 as [L1o L1p].
  assert (forall e, e <> LS_OK -> exists r o', ret e o1 = Some (r, o') /\ later o o' /\ bytes_ok (disk o') /\ (r = LS_OK -> disk o' = fill size 0xff)) as Hfail
    by (intros e He; by exists e, o1).
  assert (exists r o', (fun o => '(a, o0) ← truncate_retry os fuel fd size o;
     match a with
     | Some _ => ret LS_EIO
     | None => fun o => '(a, o0) ← erase_range os fuel fd 0 size o; (if is_ok a then sync_data os fuel fd else ret a) o0
     end o0) o1 = Some (r, o') /\ later o o' /\ bytes_ok (disk o') /\ (r = LS_OK -> disk o' = fill size 0xff)) as Hrest.
  { destruct (retry_spec interrupted (sys_ftruncate os fd size) (fun o => opened o fd /\ bytes_ok (disk o))
      (fun r _ o' => bytes_ok (disk o') /\ (r = None -> zlen (disk o') = size)))
      with (n := fuel) (o := o1) as (r2 & o2 & E2 & I2 & L2 & B2 & Z2); try done; [|by split; [apply L1o|]|lia|].
    { intros x r y [Hx Bx] E. destruct (px_ftruncate OS fd size x r y Hx Bx ltac:(lia) E) as (Hst & By & Zy).
      split; [done|]. split; [done|]. intros _. split; [by apply Hst|done]. }
    unfold truncate_retry. rewrite E2. cbn [mbind option_bind]. pose proof L2 as [L2o L2p].
    assert (later o o2) as L12 by exact (later_trans _ _ _ L1 L2).
    destruct r2 as [e|]; [by exists LS_EIO, o2|]. specialize (Z2 eq_refl).
    destruct (erase_loop_spec fd fuel 0 size o2) as (r3 & o3 & E3 & L3 & T3 & S3); try lia; [by apply L2o, L1o|].
    unfold erase_range. rewrite E3. cbn [mbind option_bind]. assert (later o o3) as L13 by exact (later_trans _ _ _ L12 L3).
    assert (bytes_ok (disk o3)) as B3 by (eapply bytes_ok_torn; [|exact B2|exact T3]; by apply bytes_ok_fill).
    destruct (is_ok r3) eqn:Er3; [|apply is_ok_false in Er3; by exists r3, o3]. apply is_ok_true in Er3.
    destruct (sync_data_spec fd o3) as (r4 & o4 & E4 & L4 & D4); [by apply L13|destruct L3; lia|].
    exists r4, o4. split; [exact E4|]. split; [exact (later_trans _ _ _ L13 L4)|]. rewrite D4. split; [done|]. intros _. rewrite (S3 Er3).
    apply splice_full. rewrite zlen_fill by lia. done. }
  destruct r1 as [[]|]; try exact Hrest; by apply Hfail.
Qed.

Lemma fstat_spec fd o : opened o fd -> exists r o', sys_fstat os fd o = (r, o') /\ later o o' /\ disk o' = disk o /\
  (forall regular size, r = Some (regular, size) -> size = zlen (disk o)).
Proof using OS. intros Ho. destruct (sys_fstat os fd o) as [r o'] eqn:E. exists r, o'. split; [done|]. by eapply px_fstat. Qed.

(** The size of the file decides. *)
Lemma check_file_spec f fd o : opened o fd -> bytes_ok (disk o) -> 0 < fs_size f <= SIZE_MAX ->
  (pending o + Z.to_nat (fs_size f) < fuel)%nat ->
  exists r o', check_file os fuel f fd o = Some (r, o') /\ later o o' /\ bytes_ok (disk o') /\
    (fs_size f <= zlen (disk o) -> disk o' = disk o) /\
    (r = LS_OK -> zlen (disk o) <= fs_size f /\ disk o' = if zlen (disk o) =? fs_size f then disk o else fill (fs_size f) 0xff).
Proof using OS.
  intros Hop Hb Hs Hf. unfold check_file, descriptor_is_regular_file, bind, call, ret.
  destruct (fstat_spec fd o Hop) as (r1 & o1 & E1 & L1 & D1 & _). rewrite E1. cbn [mbind option_bind]. pose proof L1 as [L1o L1p].
  destruct r1 as [[[] s1]|]; cbn [is_ok negb]; [|eexists LS_EIO, o1; rewrite D1; by split_and!..].
  destruct (fstat_spec fd o1) as (r2 & o2 & E2 & L2 & D2 & S2); [by apply L1o|]. rewrite E2. cbn [mbind option_bind].
  assert (later o o2) as L12 by exact (later_trans _ _ _ L1 L2). assert (disk o2 = disk o) as D12 by congruence.
  destruct r2 as [[regular size]|]; [|eexists LS_EIO, o2; rewrite D12; by split_and!].
  assert (size = zlen (disk o)) as -> by (rewrite (S2 _ _ eq_refl), D1; done). pose proof (zlen_nonneg (disk o)).
  destruct (_ <? 0) eqn:E3; [blia|]. destruct (fs_size f <? zlen (disk o)) eqn:E4; [eexists LS_EINVAL, o2; rewrite D12; by split_and!|].
  destruct (zlen (disk o) <? fs_size f) eqn:E5.
  - destruct (preallocate_spec fd (fs_size f) o2) as (r3 & o3 & E & L3 & B3 & S3); [by apply L12|by rewrite D12|lia|destruct L12; lia|].
    exists r3, o3. split; [exact E|]. split; [exact (later_trans _ _ _ L12 L3)|]. split; [done|]. split; [intros; blia|].
    intros Hr. split; [blia|]. rewrite (S3 Hr). destruct (_ =? _) eqn:E6; [blia|done].
  - exists LS_OK, o2. rewrite D12. split; [done|]. split; [done|]. split; [done|]. split; [done|]. intros _. split; [blia|].
    destruct (_ =? _) eqn:E6; [done|blia].
Qed.

(** ** The storage *)

(** The structure of the application with the operating system: once initialised, its
    descriptor refers to a file of the configured size. *)
Record file_ok (f : ls_file_storage_t) (o : O) : Prop := {
  fo_path : fs_path f = Some path;
  fo_size : 0 < fs_size f <= SIZE_MAX;
  fo_bytes : bytes_ok (disk o);
  fo_fd : fs_initialized f = true -> 0 <= fs_fd f /\ opened o (fs_fd f) /\ zlen (disk o) = fs_size f;
  fo_fuel : (pending o + Z.to_nat (fs_size f) < fuel)%nat
}.

Lemma file_ok_later f o o' : file_ok f o -> later o o' -> bytes_ok (disk o') -> zlen (disk o') = zlen (disk o) -> file_ok f o'.
Proof.
  intros [F1 F2 F3 F4 F5] [Lo Lp] Hb Hz. split; try done; [|lia]. intros Hi. destruct (F4 Hi) as (? & ? & ?). split_and!; [done|by apply Lo|congruence].
Qed.

Lemma bounds_within f o off len : file_ok f o -> 0 <= off -> 0 <= len ->
  is_ok (storage_bounds f off len) = (off + len <=? fs_size f).
Proof.
  intros [F1 F2 _ _ _] Ho Hl. unfold storage_bounds. rewrite F1. destruct (off + len <=? fs_size f) eqn:E.
  - destruct (_ || _) eqn:E1; [blia|done].
  - destruct (_ || _) eqn:E1; [done|blia].
Qed.

(** Initialisation keeps a file of the configured size, restarts a short one as erased
    storage, and refuses, untouched, a longer one. *)
Lemma init_spec f o : file_ok f o ->
  exists r f' o', ls_file_storage_init os fuel f o = Some ((r, f'), o') /\ file_ok f' o' /\ fs_size f' = fs_size f /\
    (fs_size f <= zlen (disk o) -> disk o' = disk o) /\
    (r = LS_OK -> fs_initialized f' = true /\ zlen (disk o) <= fs_size f /\ zlen (disk o') = fs_size f /\
       disk o' = if zlen (disk o) =? fs_size f then disk o else fill (fs_size f) 0xff).
Proof using OS.
  intros Hok. pose proof Hok as [F1 F2 F3 F4 F5]. unfold ls_file_storage_init. rewrite F1.
  rewrite (bounds_within f o 0 0 Hok) by lia. destruct (0 + 0 <=? fs_size f) eqn:E0; [|blia]. cbn [negb].
  destruct (fs_initialized f) eqn:Ei.
  { destruct (F4 eq_refl) as (Hfd & Hop & Hz). destruct (0 <=? fs_fd f) eqn:E1; [|blia]. exists LS_OK, f, o.
    split; [done|]. split; [done|]. split; [done|]. split; [done|]. intros _. rewrite Hz, Z.eqb_refl. split_and!; done || lia. }
  set (f0 := with_fd (-1) false f). unfold bind, call, ret.
  destruct (retry_spec interrupted_sum (sys_open os path [O_RDWR; O_CREAT; O_CLOEXEC; O_NOFOLLOW]) (fun _ => True)
    (fun r o o' => disk o' = disk o /\ forall fd, r = inl fd -> 0 <= fd /\ opened o' fd)) with (n := fuel) (o := o)
    as (r1 & o1 & E1 & _ & L1 & D1 & H1); try done; [..|lia|].
  { intros x r y _ E. destruct (px_open OS _ _ _ _ E) as (Hst & Hd & Hfd). by split_and!. }
  { intros r0 r x y z _ [Ha _] [Hb Hc]. split; [congruence|done]. }
  unfold open_retry. rewrite E1. cbn [mbind option_bind].
  assert (forall o2, disk o2 = disk o1 -> (pending o2 <= pending o1)%nat -> file_ok f0 o2) as Hf0.
  { intros o2 Hd Hp. destruct L1. split; try done; [by rewrite Hd, D1|]. cbn [f0 with_fd fs_size]. lia. }
  destruct r1 as [fd|e].
  2: { exists LS_EIO, f0, o1. split; [done|]. split; [by apply Hf0|]. by split. }
  destruct (H1 fd eq_refl) as [Hfd Hop].
  destruct (check_file_spec f0 fd o1) as (r2 & o2 & E2 & L2 & B2 & S2 & K2); [done|by rewrite D1|done|cbn; destruct L1; lia|].
  rewrite E2. cbn [mbind option_bind]. cbn [f0 with_fd fs_size] in S2, K2. rewrite D1 in S2, K2.
  destruct (is_ok r2) eqn:Er; cbn [negb].
  - apply is_ok_true in Er. destruct (K2 Er) as [Hle Hd]. exists LS_OK, (with_fd fd true f0), o2. split; [done|].
    assert (zlen (disk o2) = fs_size f) as Hz by (rewrite Hd; destruct (_ =? _) eqn:E; [blia|by apply zlen_fill; lia]).
    split; [|split; [done|split; [exact S2|intros _; by split_and!]]].
    split; try done; cbn; [intros _; split_and!; [done|by apply L2|done]|destruct L1, L2; lia].
  - apply is_ok_false in Er. destruct (sys_close os fd o2) as [c o3] eqn:Ec. destruct (px_close OS _ _ _ _ Ec) as [Hp Hd].
    exists r2, f0, o3. split; [done|]. split; [|split; [done|split; [intros; rewrite Hd; by apply S2|done]]].
    split; try done; [by rewrite Hd|]. cbn. destruct L1, L2. lia.
Qed.

Definition file_state : Type := ls_file_storage_t * O.

Record file_inv (size : Z) (d : file_state) : Prop := {
  fi_ok : file_ok (fst d) (snd d);
  fi_size : fs_size (fst d) = size;
  fi_disk : zlen (disk (snd d)) = size
}.

Lemma file_inv_later size f o o' : file_inv size (f, o) -> later o o' -> bytes_ok (disk o') -> zlen (disk o') = zlen (disk o) ->
  file_inv size (f, o').
Proof. intros [I1 I2 I3] L Hb Hz. cbn [fst snd] in *. split; cbn [fst snd]; [by eapply file_ok_later|done|congruence]. Qed.

(** The lazy initialisation at the start of every operation. *)
Lemma start_spec size f o : file_inv size (f, o) ->
  exists r f' o', ls_file_storage_init os fuel f o = Some ((r, f'), o') /\ file_inv size (f', o') /\ disk o' = disk o /\
    (r = LS_OK -> opened o' (fs_fd f')).
Proof using OS.
  intros [I1 I2 I3]. cbn [fst snd] in *. destruct (init_spec f o I1) as (r & f' & o' & E & K & Z & S & R). rewrite I2 in S.
  assert (disk o' = disk o) as Hd by (apply S; lia). exists r, f', o'. split; [done|]. split; [split; cbn [fst snd]; [done|congruence|by rewrite Hd]|].
  split; [done|]. intros Hr. destruct (R Hr) as (Hi & _). by apply (fo_fd _ _ K).
Qed.

Lemma file_read_spec size f o off len : file_inv size (f, o) -> 0 <= off -> 0 <= len -> off + len <= size ->
  exists r f' o', ls_file_storage_read os fuel f off len o = Some ((r, f'), o') /\ file_inv size (f', o') /\ disk o' = disk o /\
    r <> Err LS_OK /\ (forall bytes, r = Ok bytes -> bytes = slice off len (disk o)).
Proof using OS.
  intros Hinv Ho Hl Hb. pose proof Hinv as [I1 I2 I3]. cbn [fst snd] in *. unfold ls_file_storage_read, bind, ret.
  rewrite (bounds_within f o) by done. rewrite I2. destruct (off + len <=? size) eqn:E0; [|blia]. cbn [negb].
  destruct (start_spec size f o Hinv) as (r & f1 & o1 & E1 & J & D1 & R). rewrite E1. cbn [mbind option_bind].
  destruct (is_ok r) eqn:Er; cbn [negb].
  2: { apply is_ok_false in Er. exists (Err r), f1, o1. split_and!; try done. congruence. }
  apply is_ok_true in Er. specialize (R Er). destruct (len =? 0) eqn:E2.
  { exists (Ok []), f1, o1. split_and!; try done. intros bytes [= <-]. assert (len = 0) as -> by blia. done. }
  pose proof J as [[K1 K2 K3 K4 K5] J2 J3]. cbn [fst snd] in *.
  destruct (read_loop_spec (fs_fd f1) off len Ho fuel [] o1 R) as (r2 & o2 & E & L & D & R1 & R2); rewrite ?zlen_nil; try lia.
  { done. }
  unfold read_all. rewrite E. cbn [mbind option_bind]. exists r2, f1, o2. rewrite D, <- D1. split; [done|].
  split; [|split; [done|by split]]. by apply (file_inv_later size f1 o1 o2 J L); rewrite D.
Qed.

Lemma file_write_spec size f o off data : file_inv size (f, o) -> 0 <= off -> bytes_ok data -> off + zlen data <= size ->
  exists r f' o', ls_file_storage_write os fuel f off data o = Some ((r, f'), o') /\ file_inv size (f', o') /\
    torn off data (disk o) (disk o') /\ (r = LS_OK -> disk o' = splice off data (disk o)).
Proof using OS.
  intros Hinv Ho Hd Hb. pose proof Hinv as [I1 I2 I3]. pose proof (zlen_nonneg data) as Hz. cbn [fst snd] in *. unfold ls_file_storage_write, bind, ret.
  rewrite (bounds_within f o) by done. rewrite I2. destruct (off + zlen data <=? size) eqn:E0; [|blia]. cbn [negb].
  destruct (start_spec size f o Hinv) as (r & f1 & o1 & E1 & J & D1 & R). rewrite E1. cbn [mbind option_bind].
  destruct (is_ok r) eqn:Er; cbn [negb orb].
  2: { apply is_ok_false in Er. exists r, f1, o1. rewrite D1. split_and!; try done. apply torn_refl. }
  apply is_ok_true in Er. specialize (R Er). destruct (zlen data =? 0) eqn:E2.
  { exists r, f1, o1. rewrite D1. split; [done|]. split; [done|]. split; [apply torn_refl|]. intros _.
    assert (data = []) as -> by (destruct data; [done|rewrite zlen_cons in E2; pose proof (zlen_nonneg data); blia]). by rewrite splice_nil by lia. }
  pose proof J as [[K1 K2 K3 K4 K5] J2 J3]. cbn [fst snd] in *.
  destruct (write_all_spec (fs_fd f1) data off o1) as (r2 & o2 & E & L & T & S); try done; try lia; [unfold zlen in *; lia|].
  rewrite E. cbn [mbind option_bind]. exists r2, f1, o2. rewrite <- D1. split; [done|]. split; [|by split].
  apply (file_inv_later size f1 o1 o2 J L); [exact (bytes_ok_torn _ _ _ _ Hd K3 T)|by eapply torn_zlen].
Qed.

Lemma file_erase_spec size f o off len : file_inv size (f, o) -> 0 <= off -> 0 <= len -> off + len <= size ->
  exists r f' o', ls_file_storage_erase os fuel f off len o = Some ((r, f'), o') /\ file_inv size (f', o') /\
    torn off (fill len 0xff) (disk o) (disk o') /\ (r = LS_OK -> disk o' = splice off (fill len 0xff) (disk o)).
Proof using OS.
  intros Hinv Ho Hl Hb. pose proof Hinv as [I1 I2 I3]. cbn [fst snd] in *. unfold ls_file_storage_erase, bind, ret.
  rewrite (bounds_within f o) by done. rewrite I2. destruct (off + len <=? size) eqn:E0; [|blia]. cbn [negb].
  destruct (start_spec size f o Hinv) as (r & f1 & o1 & E1 & J & D1 & R). rewrite E1. cbn [mbind option_bind].
  destruct (is_ok r) eqn:Er; cbn [negb orb].
  2: { apply is_ok_false in Er. exists r, f1, o1. rewrite D1. split_and!; try done. apply torn_refl. }
  apply is_ok_true in Er. specialize (R Er). destruct (len =? 0) eqn:E2.
  { exists r, f1, o1. rewrite D1. split; [done|]. split; [done|]. split; [apply torn_refl|]. intros _.
    assert (len = 0) as -> by blia. change (fill 0 255) with (@nil Z). by rewrite splice_nil by lia. }
  pose proof J as [[K1 K2 K3 K4 K5] J2 J3]. cbn [fst snd] in *.
  destruct (erase_loop_spec (fs_fd f1) fuel off len o1) as (r2 & o2 & E & L & T & S); try done; try lia.
  unfold erase_range. rewrite E. cbn [mbind option_bind]. exists r2, f1, o2. rewrite <- D1. split; [done|]. split; [|by split].
  apply (file_inv_later size f1 o1 o2 J L); [eapply bytes_ok_torn; [|exact K3|exact T]; by apply bytes_ok_fill|by eapply torn_zlen].
Qed.

Lemma file_sync_spec size f o : file_inv size (f, o) ->
  exists r f' o', ls_file_storage_sync os fuel f o = Some ((r, f'), o') /\ file_inv size (f', o') /\ disk o' = disk o.
Proof using OS.
  intros Hinv. pose proof Hinv as [I1 I2 I3]. cbn [fst snd] in *. unfold ls_file_storage_sync, bind, ret.
  rewrite (bounds_within f o) by done. destruct (0 + 0 <=? fs_size f) eqn:E0; [|destruct I1; blia]. cbn [negb].
  destruct (start_spec size f o Hinv) as (r & f1 & o1 & E1 & J & D1 & R). rewrite E1. cbn [mbind option_bind].
  destruct (is_ok r) eqn:Er; cbn [negb]; [|by exists r, f1, o1].
  apply is_ok_true in Er. specialize (R Er). pose proof J as [[K1 K2 K3 K4 K5] J2 J3]. cbn [fst snd] in *.
  destruct (sync_data_spec (fs_fd f1) o1 R) as (r2 & o2 & E & L & D); [lia|]. rewrite E. cbn [mbind option_bind]. exists r2, f1, o2.
  split; [done|]. split; [|congruence]. by apply (file_inv_later size f1 o1 o2 J L); rewrite D.
Qed.

(** *** The interface of a storage backend

    Enough fuel never runs out, so the result for that case does not matter. An operating
    system does not promise that a call succeeds, so the backend is never [live]. *)
Definition run_io {A} (unused : A) (op : ls_file_storage_t -> io (O := O) (A * ls_file_storage_t)) : st (platform file_state) A := fun p =>
  match op (fst (dev p)) (snd (dev p)) with
  | Some (a, f, o) => (a, set_dev (f, o) p)
  | None => (unused, p)
  end.

Definition file_backend (size erase_size write_size : Z) : ls_storage_backend_t (platform file_state) :=
  Build_ls_storage_backend_t size erase_size write_size
    (fun off len => run_io (Err LS_EIO) (fun f => ls_file_storage_read os fuel f off len))
    (fun off data => run_io LS_EIO (fun f => ls_file_storage_write os fuel f off data))
    (Some (fun off len => run_io LS_EIO (fun f => ls_file_storage_erase os fuel f off len)))
    (Some (run_io LS_EIO (fun f => ls_file_storage_sync os fuel f))).

#[export] Instance file_storage_ok size es ws (Hs : 0 < size <= SIZE_MAX) (Hw : 0 <= ws) : StorageOk (file_backend size es ws).
Proof using OS.
  apply (Build_StorageOk _ (file_backend size es ws) (fun d => disk (snd d)) (file_inv size) (fun _ => False)); try done; try (cbn; lia).
  - by intros d [_ _ H].
  - by intros d [[_ _ H _ _] _ _].
  - intros off len p r p' Hi Ho Hl Hb H. cbn in Hb, H. unfold run_io in H. destruct (dev p) as [f o] eqn:Ed. cbn [fst snd] in *.
    destruct (file_read_spec size f o off len Hi Ho Hl Hb) as (r1 & f1 & o1 & E & J & D & R1 & R2). rewrite E in H. injection H as <- <-. by split_and!.
  - intros off data p r p' Hi Hd Ho Hb H. cbn in Hb, H. unfold run_io in H. destruct (dev p) as [f o] eqn:Ed. cbn [fst snd] in *.
    destruct (file_write_spec size f o off data Hi Ho Hd Hb) as (r1 & f1 & o1 & E & J & T & S). rewrite E in H. injection H as <- <-. by split_and!.
  - intros e off len p r p' [= <-] Hi Ho Hl Hb H. cbn in Hb. unfold run_io in H. destruct (dev p) as [f o] eqn:Ed. cbn [fst snd] in *.
    destruct (file_erase_spec size f o off len Hi Ho Hl Hb) as (r1 & f1 & o1 & E & J & T & S). rewrite E in H. injection H as <- <-. by split_and!.
  - intros sy p r p' [= <-] Hi H. unfold run_io in H. destruct (dev p) as [f o] eqn:Ed. cbn [fst snd] in *.
    destruct (file_sync_spec size f o Hi) as (r1 & f1 & o1 & E & J & D). rewrite E in H. injection H as <- <-. by split_and!.
Defined.

End Posix.

(** ** The name of an event's file *)

Lemma hex_char_inj a b : 0 <= a < 16 -> 0 <= b < 16 -> hex_char a = hex_char b -> a = b.
Proof. unfold hex_char. intros Ha Hb. destruct (a <? 10) eqn:E1, (b <? 10) eqn:E2; blia. Qed.

(** Two events have different files. *)
Theorem event_file_name_inj a b : is_u32 a -> is_u32 b -> event_file_name a = event_file_name b -> a = b.
Proof.
  intros Ha Hb H. apply (app_inv_tail (str ".lst")) in H.
  assert (forall i, (i < 8)%nat -> Z.land (Z.shiftr a ((7 - Z.of_nat i) * 4)) 0xf = Z.land (Z.shiftr b ((7 - Z.of_nat i) * 4)) 0xf) as Hd.
  { intros i Hi. assert (forall x, 0 <= Z.land x 0xf < 16) as Hr
      by (intros x; change 0xf with (Z.ones 4); rewrite Z.land_ones by lia; apply Z.mod_pos_bound; lia).
    apply hex_char_inj; [apply Hr..|]. apply (f_equal (fun l => nth i l 0)) in H.
    do 8 (destruct i as [|i]; [exact H|]). lia. }
  apply Z.bits_inj'. intros n Hn. destruct (Z.lt_ge_cases n 32) as [Hl|Hl].
  2: { rewrite !(testbit_above 32) by (done || lia). done. }
  pose proof (Z.div_mod n 4 ltac:(lia)) as Hdm. pose proof (Z.mod_pos_bound n 4 ltac:(lia)) as Hm.
  assert (0 <= n / 4 <= 7) as Hq by lia. set (q := n / 4) in *. set (d := n mod 4) in *. clearbody q d.
  specialize (Hd (Z.to_nat (7 - q))). rewrite Z2Nat.id in Hd by lia.
  specialize (Hd ltac:(lia)). apply (f_equal (fun z => Z.testbit z d)) in Hd.
  rewrite !Z.land_spec, !Z.shiftr_spec in Hd by lia. change 0xf with (Z.ones 4) in Hd.
  rewrite Z.ones_spec_low, !andb_true_r in Hd by lia. replace (d + (7 - (7 - q)) * 4) with n in Hd by lia. exact Hd.
Qed.

(** ** An operating system

    It moves a few bytes at a time, and a signal interrupts its first calls. *)

Definition demo_os_state : Type := list Z * nat.

Definition demo_call {A} (again : A) (f : list Z -> A * list Z) : st demo_os_state A := fun o =>
  match snd o with
  | S n => (again, (fst o, n))
  | 0%nat => let '(a, l) := f (fst o) in (a, (l, 0%nat))
  end.

Definition demo_posix : posix demo_os_state := {|
  sys_open := fun _ _ => demo_call (inr EINTR) (fun l => (inl 3, l));
  sys_openat := fun _ _ _ => demo_call (inr EINTR) (fun l => (inl 4, l));
  sys_ftruncate := fun _ n => demo_call (Some EINTR) (fun l => (None, slice 0 n (l ++ fill n 0)));
  sys_fdatasync := fun _ => demo_call (Some EINTR) (fun l => (None, l));
  sys_fsync := fun _ => demo_call (Some EINTR) (fun l => (None, l));
  sys_fstat := fun _ o => (Some (true, zlen (fst o)), o);
  sys_pwrite := fun _ data pos => demo_call (inr EINTR) (fun l => (inl (Z.min 3 (zlen data)), splice pos (slice 0 (Z.min 3 (zlen data)) data) l));
  sys_pread := fun _ n pos => demo_call (inr EINTR) (fun l => (inl (slice pos (Z.min 5 n) l), l));
  sys_fallocate := fun _ _ _ => demo_call (Some EINTR) (fun l => (Some EOPNOTSUPP, l));
  sys_write := fun _ data => demo_call (inr EINTR) (fun l => (inl (zlen data), l));
  sys_close := fun _ o => (true, o)
|}.

Definition demo_pending (o : demo_os_state) : nat := snd o.
Definition demo_opened (o : demo_os_state) (fd : Z) : Prop := fd = 3.

Lemma demo_step {A} (again : A) (test : A -> bool) f o r o' : test again = true -> (forall l, test (fst (f l)) = false) ->
  demo_call again f o = (r, o') -> step demo_opened demo_pending (test r) o o' /\
    ((r = again /\ fst o' = fst o) \/ (r = fst (f (fst o)) /\ fst o' = snd (f (fst o)))).
Proof.
  intros Ht Hf. unfold demo_call, step, later, demo_pending. destruct o as [l [|n]]; cbn [fst snd].
  - specialize (Hf l). destruct (f l) as [a l'] eqn:E. cbn [fst snd] in *. intros [= <- <-]. rewrite Hf.
    split; [split; [split; [done|cbn; lia]|done]|by right].
  - intros [= <- <-]. rewrite Ht. split; [split; [split; [done|cbn; lia]|intros _; cbn; lia]|by left].
Qed.

Lemma demo_posix_ok : posix_ok demo_posix (str "/event") fst demo_opened demo_pending.
Proof.
  split.
  - intros flags o r o' H. apply (demo_step _ interrupted_sum) in H as [Hs Hc]; [|done..]. split; [done|].
    destruct Hc as [[-> ->]|[-> ->]]; cbn; split; try done. by intros fd [= <-].
  - intros fd n o r o' _ Hb Hn H. apply (demo_step _ interrupted) in H as [Hs Hc]; [|done..]. split; [done|].
    destruct Hc as [[-> ->]|[-> ->]]; cbn; split; try done.
    + apply bytes_ok_slice, bytes_ok_app. split; [done|by apply bytes_ok_fill].
    + intros _. apply zlen_slice; [lia|lia|]. rewrite zlen_app, zlen_fill by lia. pose proof (zlen_nonneg (fst o)). lia.
  - intros fd o r o' _ H. apply (demo_step _ interrupted) in H as [Hs Hc]; [|done..]. split; [done|]. by destruct Hc as [[_ ->]|[_ ->]].
  - intros fd o r o' _ H. apply (demo_step _ interrupted) in H as [Hs Hc]; [|done..]. split; [done|]. by destruct Hc as [[_ ->]|[_ ->]].
  - intros fd o r o' _ [= <- <-]. split; [by split|]. split; [done|]. by intros regular size [= _ <-].
  - intros fd data pos o r o' _ Hd Hp Hz H. pose proof (zlen_nonneg data). apply (demo_step _ interrupted_sum) in H as [Hs Hc]; [|done..].
    split; [done|]. destruct Hc as [[-> ->]|[-> ->]]; cbn; [done|]. split; [lia|done].
  - intros fd n pos o r o' _ Hn Hp Hz H. apply (demo_step _ interrupted_sum) in H as [Hs Hc]; [|done..]. split; [done|].
    destruct Hc as [[-> ->]|[-> ->]]; cbn; (split; [done|]); [done|]. intros bytes [= <-]. rewrite zlen_slice by lia. split; [lia|done].
  - intros fd n o r o' _ Hb Hn H. apply (demo_step _ interrupted) in H as [Hs Hc]; [|done..]. split; [done|].
    by destruct Hc as [[_ ->]|[_ ->]].
  - intros fd o r o' [= <- <-]. by split.
Qed.

(** A file of five bytes configured for eight is restarted erased. *)
Definition demo_file : ls_file_storage_t := {| fs_path := Some (str "/event"); fs_size := 8; fs_fd := -1; fs_initialized := false |}.

