(* ===== verification/ResetReason.v ===== *)
(** * Reset reasons ([src/ports/common/reset_reason.c] and the vendor adapters)

    The reset status registers of the supported families, normalised to the portable
    vocabulary. A register is read through [regs], by its address, and clearing one is the
    list of the writes; a pointer is [None] when it is null. *)

From S2P Require Import Prelude Boot.

Record ls_reset_reason_masks_t : Type := {
  power_on_mask : Z; pin_mask : Z; software_mask : Z; watchdog_mask : Z; independent_watchdog_mask : Z;
  window_watchdog_mask : Z; brownout_mask : Z; low_power_mask : Z; lockup_mask : Z; security_mask : Z;
  bootloader_mask : Z; firmware_update_mask : Z; clock_failure_mask : Z
}.

Record ls_reset_mask_port_t : Type := {
  rp_status_register : option Z;
  rp_clear_register : option Z;
  rp_clear_mask : Z;
  rp_masks : ls_reset_reason_masks_t
}.

(** [{reason, raw, 0, 0, false, false, false}]. *)
Definition reset_info_of (r : ls_reset_reason_t) (raw : Z) : ls_reset_info_t :=
  {| reason := r; raw_reason := raw; ri_boot_count := 0; ri_previous_uptime_ms := 0; ri_expected := false;
     ri_crash_pending := false; ri_boot_loop := false |}.

Definition ls_reset_mask_matches (raw mask : Z) : bool := negb (mask =? 0) && negb (Z.land raw mask =? 0).

Definition reason_from_masks (raw : Z) (m : ls_reset_reason_masks_t) : ls_reset_reason_t :=
  if ls_reset_mask_matches raw (brownout_mask m) then LS_RESET_BROWNOUT
  else if ls_reset_mask_matches raw (independent_watchdog_mask m) then LS_RESET_INDEPENDENT_WATCHDOG
  else if ls_reset_mask_matches raw (window_watchdog_mask m) then LS_RESET_WINDOW_WATCHDOG
  else if ls_reset_mask_matches raw (watchdog_mask m) then LS_RESET_WATCHDOG
  else if ls_reset_mask_matches raw (lockup_mask m) then LS_RESET_LOCKUP
  else if ls_reset_mask_matches raw (security_mask m) then LS_RESET_SECURITY
  else if ls_reset_mask_matches raw (clock_failure_mask m) then LS_RESET_CLOCK_FAILURE
  else if ls_reset_mask_matches raw (software_mask m) then LS_RESET_SOFTWARE
  else if ls_reset_mask_matches raw (pin_mask m) then LS_RESET_PIN
  else if ls_reset_mask_matches raw (power_on_mask m) then LS_RESET_POWER_ON
  else if ls_reset_mask_matches raw (low_power_mask m) then LS_RESET_LOW_POWER_WAKE
  else if ls_reset_mask_matches raw (bootloader_mask m) then LS_RESET_BOOTLOADER
  else if ls_reset_mask_matches raw (firmware_update_mask m) then LS_RESET_FIRMWARE_UPDATE
  else LS_RESET_UNKNOWN.

Definition ls_reset_reason_from_masks (raw : Z) (masks : option ls_reset_reason_masks_t) : ls_reset_info_t :=
  match masks with
  | None => reset_info_of LS_RESET_UNKNOWN raw
  | Some m => reset_info_of (reason_from_masks raw m) raw
  end.

Definition ls_reset_mask_port_info (regs : Z -> Z) (port : option ls_reset_mask_port_t) : ls_reset_info_t :=
  match port with
  | Some p => match rp_status_register p with
              | Some r => ls_reset_reason_from_masks (regs r) (Some (rp_masks p))
              | None => ls_reset_reason_from_masks 0 None
              end
  | None => ls_reset_reason_from_masks 0 None
  end.

Definition ls_reset_mask_port_clear (port : option ls_reset_mask_port_t) : list (Z * Z) :=
  match port with
  | Some p => match rp_clear_register p with
              | Some r => if negb (rp_clear_mask p =? 0) then [(r, rp_clear_mask p)] else []
              | None => []
              end
  | None => []
  end.

(** ** Profiles *)

Definition bits (l : list Z) : Z := fold_right (fun n acc => Z.lor (Z.shiftl 1 n) acc) 0 l.

(** The masks of a register whose causes are the bits of these numbers. *)
Definition masks_of (power_on pin software watchdog independent_watchdog window_watchdog brownout low_power lockup security
    clock_failure : list Z) : ls_reset_reason_masks_t :=
  {| power_on_mask := bits power_on; pin_mask := bits pin; software_mask := bits software; watchdog_mask := bits watchdog;
     independent_watchdog_mask := bits independent_watchdog; window_watchdog_mask := bits window_watchdog;
     brownout_mask := bits brownout; low_power_mask := bits low_power; lockup_mask := bits lockup; security_mask := bits security;
     bootloader_mask := 0; firmware_update_mask := 0; clock_failure_mask := bits clock_failure |}.

Definition port_of (status clear : option Z) (clear_mask : Z) (m : ls_reset_reason_masks_t) : ls_reset_mask_port_t :=
  {| rp_status_register := status; rp_clear_register := clear; rp_clear_mask := clear_mask; rp_masks := m |}.

Definition ls_nrf_reset_profile_nrf52 (resetreas : option Z) : ls_reset_mask_port_t :=
  port_of resetreas resetreas (bits [0; 1; 2; 3; 16; 17]) (masks_of [] [0] [2] [1] [] [] [] [16; 17] [3] [] []).
Definition ls_nrf_reset_profile_nrf53 (resetreas : option Z) : ls_reset_mask_port_t :=
  port_of resetreas resetreas (bits [0; 1; 2; 3; 4; 16; 17; 18; 19; 20; 21; 22; 23; 24; 25; 26])
    (masks_of [] [0] [3; 19] [1; 21; 24] [] [] [] [16; 17; 18; 23; 25] [4; 20] [2; 26] []).

Definition ls_nxp_reset_port_init (status clear : option Z) (clear_mask : Z) (m : ls_reset_reason_masks_t) : ls_reset_mask_port_t :=
  port_of status clear clear_mask m.
Definition ls_nxp_imxrt105x_reset_profile (srsr : option Z) : ls_reset_mask_port_t :=
  port_of srsr srsr (bits [0; 1; 2; 3; 4; 5; 6; 7]) (masks_of [] [0; 3; 5] [6] [4; 7] [] [] [] [] [] [2] []).

(** Two 8-bit registers, packed. *)
Definition kinetis_masks : ls_reset_reason_masks_t := masks_of [7] [6] [10] [5] [] [] [1] [] [9] [] [2; 3].
Definition ls_nxp_kinetis_reset_info (regs : Z -> Z) (srs0 srs1 : option Z) : ls_reset_info_t :=
  let raw := match srs0 with Some r => u8 (regs r) | None => 0 end in
  let raw := match srs1 with Some r => Z.lor raw (Z.shiftl (u8 (regs r)) 8) | None => raw end in
  ls_reset_reason_from_masks raw (Some kinetis_masks).

Definition ls_silabs_efm32_series0_reset_profile (rstcause command : option Z) (clear_command : Z) : ls_reset_mask_port_t :=
  port_of rstcause command clear_command (masks_of [0] [3] [6] [4] [] [] [1; 2] [] [5] [] []).
Definition ls_silabs_series2_reset_profile (rstcause command : option Z) (clear_command : Z) : ls_reset_mask_port_t :=
  port_of rstcause command clear_command (masks_of [0] [1] [6] [3; 4] [] [] [7; 8; 9; 10; 11] [2] [5] [13; 14; 15] []).

(** The profile sets no register to clear. *)
Definition ls_ti_resc_profile (resc : option Z) : ls_reset_mask_port_t :=
  port_of resc None 0 (masks_of [1] [0] [4] [3; 5] [] [] [2] [6] [] [] [16]).

Definition ls_microchip_samd_reset_info (regs : Z -> Z) (rcause : option Z) : ls_reset_info_t :=
  match rcause with
  | None => reset_info_of LS_RESET_UNKNOWN 0
  | Some r =>
      let raw := u8 (regs r) in
      reset_info_of
        (if negb (Z.land raw (bits [1; 2]) =? 0) then LS_RESET_BROWNOUT
         else if negb (Z.land raw (bits [5]) =? 0) then LS_RESET_WATCHDOG
         else if negb (Z.land raw (bits [6]) =? 0) then LS_RESET_SOFTWARE
         else if negb (Z.land raw (bits [4]) =? 0) then LS_RESET_PIN
         else if negb (Z.land raw (bits [0]) =? 0) then LS_RESET_POWER_ON
         else if negb (Z.land raw (bits [7]) =? 0) then LS_RESET_LOW_POWER_WAKE
         else LS_RESET_UNKNOWN) raw
  end.

Record ls_microchip_sam_rsttyp_reset_port_t : Type := {
  rt_status_register : option Z; rt_type_mask : Z; rt_user_mask : Z; rt_type_shift : Z
}.
Definition ls_microchip_sam_rsttyp_reset_profile (status : option Z) : ls_microchip_sam_rsttyp_reset_port_t :=
  {| rt_status_register := status; rt_type_mask := Z.shiftl 7 8; rt_user_mask := bits [0]; rt_type_shift := 8 |}.
Definition ls_microchip_sam_rsttyp_reset_info (regs : Z -> Z) (port : option ls_microchip_sam_rsttyp_reset_port_t) : ls_reset_info_t :=
  match port with
  | None => reset_info_of LS_RESET_UNKNOWN 0
  | Some p =>
      match rt_status_register p with
      | None => reset_info_of LS_RESET_UNKNOWN 0
      | Some r =>
          let raw := regs r in
          if (rt_type_mask p =? 0) || (32 <=? rt_type_shift p) then reset_info_of LS_RESET_UNKNOWN raw
          else
            let reset_type := Z.shiftr (Z.land raw (rt_type_mask p)) (rt_type_shift p) in
            reset_info_of
              (if reset_type =? 1 then LS_RESET_LOW_POWER_WAKE
               else if reset_type =? 2 then LS_RESET_WATCHDOG
               else if reset_type =? 3 then LS_RESET_SOFTWARE
               else if reset_type =? 4 then LS_RESET_PIN
               else if (reset_type =? 0) && negb (Z.land raw (rt_user_mask p) =? 0) then LS_RESET_PIN
               else LS_RESET_UNKNOWN) raw
      end
  end.

Record ls_rp_reset_port_t : Type := {
  rr_register : option Z; rr_watchdog_mask : Z; rr_forced_mask : Z; rr_brownout_mask : Z; rr_power_on_mask : Z
}.
Definition ls_rp_reset_info (regs : Z -> Z) (port : option ls_rp_reset_port_t) : ls_reset_info_t :=
  match port with
  | None => reset_info_of LS_RESET_UNKNOWN 0
  | Some p =>
      match rr_register p with
      | None => reset_info_of LS_RESET_UNKNOWN 0
      | Some r =>
          let raw := regs r in
          reset_info_of
            (if negb (Z.land raw (rr_watchdog_mask p) =? 0) then LS_RESET_WATCHDOG
             else if negb (Z.land raw (rr_forced_mask p) =? 0) then LS_RESET_SOFTWARE
             else if negb (Z.land raw (rr_brownout_mask p) =? 0) then LS_RESET_BROWNOUT
             else if negb (Z.land raw (rr_power_on_mask p) =? 0) then LS_RESET_POWER_ON
             else LS_RESET_UNKNOWN) raw
      end
  end.

Record ls_stm32_reset_port_t : Type := {
  st_status : option Z; st_clear : option Z; st_clear_mask : Z; st_power_on_mask : Z; st_pin_mask : Z; st_software_mask : Z;
  st_watchdog_mask : Z; st_window_watchdog_mask : Z; st_brownout_mask : Z; st_low_power_mask : Z; st_clock_failure_mask : Z
}.
Definition ls_stm32_reset_info (regs : Z -> Z) (port : option ls_stm32_reset_port_t) : ls_reset_info_t :=
  match port with
  | None => reset_info_of LS_RESET_UNKNOWN 0
  | Some p =>
      match st_status p with
      | None => reset_info_of LS_RESET_UNKNOWN 0
      | Some r =>
          let raw := regs r in
          reset_info_of
            (if negb (Z.land raw (st_brownout_mask p) =? 0) then LS_RESET_BROWNOUT
             else if negb (Z.land raw (st_watchdog_mask p) =? 0) then LS_RESET_INDEPENDENT_WATCHDOG
             else if negb (Z.land raw (st_window_watchdog_mask p) =? 0) then LS_RESET_WINDOW_WATCHDOG
             else if negb (Z.land raw (st_software_mask p) =? 0) then LS_RESET_SOFTWARE
             else if negb (Z.land raw (st_pin_mask p) =? 0) then LS_RESET_PIN
             else if negb (Z.land raw (st_power_on_mask p) =? 0) then LS_RESET_POWER_ON
             else if negb (Z.land raw (st_low_power_mask p) =? 0) then LS_RESET_LOW_POWER_WAKE
             else if negb (Z.land raw (st_clock_failure_mask p) =? 0) then LS_RESET_CLOCK_FAILURE
             else LS_RESET_UNKNOWN) raw
      end
  end.
Definition ls_stm32_reset_clear (port : option ls_stm32_reset_port_t) : list (Z * Z) :=
  match port with
  | Some p => match st_clear p with Some r => [(r, st_clear_mask p)] | None => [] end
  | None => []
  end.
Definition ls_stm32_reset_profile_f4 (rcc_csr : option Z) : ls_stm32_reset_port_t :=
  {| st_status := rcc_csr; st_clear := rcc_csr; st_clear_mask := bits [24]; st_power_on_mask := bits [27]; st_pin_mask := bits [26];
     st_software_mask := bits [28]; st_watchdog_mask := bits [29]; st_window_watchdog_mask := bits [30];
     st_brownout_mask := bits [25]; st_low_power_mask := bits [31]; st_clock_failure_mask := 0 |}.

(** ** A failure is not hidden *)

(** The causes in the order in which they are looked for. *)
Definition by_priority (m : ls_reset_reason_masks_t) : list (Z * ls_reset_reason_t) :=
  [(brownout_mask m, LS_RESET_BROWNOUT); (independent_watchdog_mask m, LS_RESET_INDEPENDENT_WATCHDOG);
   (window_watchdog_mask m, LS_RESET_WINDOW_WATCHDOG); (watchdog_mask m, LS_RESET_WATCHDOG); (lockup_mask m, LS_RESET_LOCKUP);
   (security_mask m, LS_RESET_SECURITY); (clock_failure_mask m, LS_RESET_CLOCK_FAILURE); (software_mask m, LS_RESET_SOFTWARE);
   (pin_mask m, LS_RESET_PIN); (power_on_mask m, LS_RESET_POWER_ON); (low_power_mask m, LS_RESET_LOW_POWER_WAKE);
   (bootloader_mask m, LS_RESET_BOOTLOADER); (firmware_update_mask m, LS_RESET_FIRMWARE_UPDATE)].

(** The first cause whose mask the register touches. *)
Lemma reason_is_first raw m :
  reason_from_masks raw m =
    match find (fun c => negb (Z.land raw (fst c) =? 0)) (by_priority m) with Some c => snd c | None => LS_RESET_UNKNOWN end.
Proof.
  assert (forall k, ls_reset_mask_matches raw k = negb (Z.land raw k =? 0)) as E.
  { intros k. unfold ls_reset_mask_matches. destruct (k =? 0) eqn:Ek; [|done]. apply Z.eqb_eq in Ek. by rewrite Ek, Z.land_0_r. }
  unfold reason_from_masks, by_priority. rewrite !E. cbn [find fst snd]. repeat case_if; done.
Qed.

(** A register that shows a watchdog or a lockup, and no brownout, is a reset that counts as
    a failure for the detection of boot loops, whatever else it shows: a later software
    reset does not hide it. *)
Theorem failure_not_hidden raw m : Z.land raw (brownout_mask m) = 0 ->
  Z.land raw (Z.lor (independent_watchdog_mask m) (Z.lor (window_watchdog_mask m) (Z.lor (watchdog_mask m) (lockup_mask m)))) <> 0 ->
  reset_failure (reason (ls_reset_reason_from_masks raw (Some m))) = true.
Proof.
  intros Hb Hf. cbn [ls_reset_reason_from_masks reset_info_of reason]. rewrite reason_is_first. cbn [by_priority find fst snd].
  rewrite Hb. cbn [Z.eqb negb].
  destruct (Z.land raw (independent_watchdog_mask m) =? 0) eqn:E1; [|reflexivity].
  destruct (Z.land raw (window_watchdog_mask m) =? 0) eqn:E2; [|reflexivity].
  destruct (Z.land raw (watchdog_mask m) =? 0) eqn:E3; [|reflexivity].
  destruct (Z.land raw (lockup_mask m) =? 0) eqn:E4; [|reflexivity].
  apply Z.eqb_eq in E1, E2, E3, E4. destruct Hf. by rewrite !Z.land_lor_distr_r, E1, E2, E3, E4.
Qed.

(** No register is written to clear the causes of a TI device. *)
Lemma ti_reset_never_cleared resc : ls_reset_mask_port_clear (Some (ls_ti_resc_profile resc)) = [].
Proof. reflexivity. Qed.

(** The bits a profile maps are those it clears, where it clears any. *)
Definition mapped_bits (m : ls_reset_reason_masks_t) : Z := fold_right Z.lor 0 (map fst (by_priority m)).
Lemma profiles_clear_causes r :
  Forall (fun p => Z.land (mapped_bits (rp_masks p)) (Z.lnot (rp_clear_mask p)) = 0)
    [ls_nrf_reset_profile_nrf52 r; ls_nrf_reset_profile_nrf53 r; ls_nxp_imxrt105x_reset_profile r].
Proof. repeat (apply List.Forall_cons; [reflexivity|]). apply List.Forall_nil. Qed.
