(* ===== verification/PortTransports.v ===== *)
(** * Transports of the ports ([src/ports/zephyr], [src/ports/mbedtls])

    The backends that send an envelope over CAN, LoRaWAN, Bluetooth notifications, a TLS
    socket and an mbedTLS session. The drivers and libraries below them are parameters over
    a state [O]; a backend is a value of the type of [Transport], over the transport's
    structure and [O]. Negative results are error numbers. *)

From S2P Require Import Prelude Util FaultInjection Transport Spool.

Definition LS_TRANSPORT_SECURE : Z := 8.
Definition LS_TRANSPORT_EXPENSIVE : Z := 16.
Definition LS_TRANSPORT_LOW_POWER : Z := 32.

(** ** Numbered frames *)

Section Frames.
Context {F O : Type} (frame : Z -> Z -> list Z -> F) (put : F -> st O Z) (again : Z -> bool) (capacity : Z).

Definition frame_count (length_ : Z) : Z := u32 (length_ + capacity - 1) / capacity.

(** The part of [data] that frame [index] carries. *)
Definition frame_part (data : list Z) (index : Z) : list Z :=
  let offset := index * capacity in
  let take := zlen data - offset in
  slice offset (if capacity <? take then capacity else take) data.

(** The [for] loop over the frames [index .. count - 1], of which [n] are left. *)
Fixpoint frame_loop (n : nat) (index count : Z) (data : list Z) : st O ls_result_t := fun o =>
  match n with
  | 0%nat => (LS_OK, o)
  | S n =>
      let '(result, o) := put (frame index count (frame_part data index)) o in
      if again result then (LS_EAGAIN, o)
      else if result <? 0 then (LS_EIO, o)
      else frame_loop n (index + 1) count data o
  end.

Definition send_frames (data : list Z) : st O ls_result_t := fun o =>
  let count := frame_count (zlen data) in
  if 255 <? count then (LS_ENOSPACE, o) else frame_loop (Z.to_nat count) 0 count data o.
End Frames.

(** ** CAN *)

Record ls_zephyr_can_transport_t : Type := {
  cn_device : option Z; cn_arbitration_id : Z; cn_timeout_ms : Z; cn_can_fd : bool; cn_bitrate_switch : bool
}.

Record can_frame : Type := { cf_id : Z; cf_ide : bool; cf_fdf : bool; cf_brs : bool; cf_dlc : Z; cf_data : list Z }.

Definition transfer_id (data : list Z) : Z :=
  foldl (fun value b => Z.lxor (u8 (Z.lor (Z.shiftl value 1) (Z.shiftr value 7))) b) 0x5a data.

Section Can.
(** [device_is_ready], [can_send], [can_bytes_to_dlc] and the masks of identifiers. *)
Context {O : Type} (device_is_ready : Z -> st O bool) (can_send : Z -> can_frame -> Z -> st O Z) (can_bytes_to_dlc : Z -> Z).
Context (CAN_STD_ID_MASK CAN_EXT_ID_MASK EAGAIN : Z) (fd_mode : bool).

Definition can_available : st (ls_zephyr_can_transport_t * O) bool := fun '(t, o) =>
  match cn_device t with
  | None => (false, (t, o))
  | Some d => let '(b, o) := device_is_ready d o in (b, (t, o))
  end.
Definition can_maximum_payload : st (ls_zephyr_can_transport_t * O) Z := mret LS_MAX_EVENT_SIZE.

(** The data of a frame has room for 8 or 64 bytes, zero where nothing is stored. *)
Definition can_frame_of (t : ls_zephyr_can_transport_t) (id index count : Z) (part : list Z) : can_frame :=
  {| cf_id := cn_arbitration_id t; cf_ide := CAN_STD_ID_MASK <? cn_arbitration_id t; cf_fdf := cn_can_fd t;
     cf_brs := cn_can_fd t && cn_bitrate_switch t; cf_dlc := can_bytes_to_dlc (zlen part + 3);
     cf_data := id :: u8 index :: u8 count :: part |}.

Definition can_payload_capacity (t : ls_zephyr_can_transport_t) : Z := (if cn_can_fd t then 64 else 8) - 3.

Definition can_send_data (data : list Z) : st (ls_zephyr_can_transport_t * O) ls_result_t := fun s =>
  let '(b, (t, o)) := can_available s in
  match cn_device t with
  | Some d =>
      if negb b then (LS_EINVAL, (t, o))
      else
        let '(r, o) := send_frames (can_frame_of t (transfer_id data)) (fun f => can_send d f (cn_timeout_ms t))
                         (fun r => r =? - EAGAIN) (can_payload_capacity t) data o in
        (r, (t, o))
  | None => (LS_EINVAL, (t, o))
  end.

Definition ls_zephyr_can_transport_init (transport : ptr) (device : option Z) (arbitration_id : Z) (can_fd bitrate_switch : bool)
    (timeout_ms : Z) : res ls_zephyr_can_transport_t :=
  if negb transport || bool_decide (device = None) || (CAN_EXT_ID_MASK <? arbitration_id) then Err LS_EINVAL
  else if negb fd_mode && (can_fd || bitrate_switch) then Err LS_ENOTSUP
  else Ok {| cn_device := device; cn_arbitration_id := arbitration_id; cn_timeout_ms := timeout_ms; cn_can_fd := can_fd;
             cn_bitrate_switch := bitrate_switch |}.
End Can.

(** ** LoRaWAN *)

Record ls_zephyr_lorawan_transport_t : Type := { lw_port : Z; lw_payload_max : Z; lw_confirmed : bool; lw_joined : bool }.

Definition lorawan_checksum (data : list Z) : Z :=
  foldl (fun value b => Z.lxor (u16 (Z.lor (Z.shiftl value 5) (Z.shiftr value 11))) b) 0xffff data.

Definition lorawan_frame (crc index count : Z) (part : list Z) : list Z :=
  u8 crc :: u8 (Z.shiftr crc 8) :: u8 index :: u8 count :: part.

Section Lorawan.
(** [lorawan_send] on a port, of a frame, confirmed or not. *)
Context {O : Type} (lorawan_send : Z -> list Z -> bool -> st O Z) (EAGAIN EBUSY : Z).

Definition lorawan_send_data (data : list Z) : st (ls_zephyr_lorawan_transport_t * O) ls_result_t := fun '(t, o) =>
  if negb (lw_joined t) || (lw_payload_max t <=? 4) then (LS_EINVAL, (t, o))
  else
    let '(r, o) := send_frames (lorawan_frame (lorawan_checksum data)) (fun f => lorawan_send (lw_port t) f (lw_confirmed t))
                     (fun r => (r =? - EAGAIN) || (r =? - EBUSY)) (lw_payload_max t - 4) data o in
    (r, (t, o)).
End Lorawan.

Definition ls_zephyr_lorawan_transport_init (transport : ptr) (port payload_max : Z) (confirmed : bool) : res ls_zephyr_lorawan_transport_t :=
  if negb transport || (port =? 0) || (payload_max <=? 4) then Err LS_EINVAL
  else Ok {| lw_port := port; lw_payload_max := payload_max; lw_confirmed := confirmed; lw_joined := false |}.
Definition ls_zephyr_lorawan_set_joined (joined : bool) (t : ls_zephyr_lorawan_transport_t) : ls_zephyr_lorawan_transport_t :=
  {| lw_port := lw_port t; lw_payload_max := lw_payload_max t; lw_confirmed := lw_confirmed t; lw_joined := joined |}.

(** ** Bluetooth notifications *)

Record ls_zephyr_ble_transport_t : Type := { bl_connection : option Z; bl_notifications_enabled : bool }.

Section Ble.
Context {O : Type} (bt_gatt_get_mtu : Z -> st O Z) (bt_gatt_notify : Z -> list Z -> st O Z) (ENOMEM EAGAIN : Z).

Definition ble_available : st (ls_zephyr_ble_transport_t * O) bool := fun '(t, o) =>
  (bool_decide (bl_connection t <> None) && bl_notifications_enabled t, (t, o)).
Definition ble_maximum_payload : st (ls_zephyr_ble_transport_t * O) Z := fun '(t, o) =>
  let '(mtu, o) := match bl_connection t with Some c => bt_gatt_get_mtu c o | None => (23, o) end in
  (if 3 <? mtu then mtu - 3 else 0, (t, o)).

(** The [while] loop. Every round sends at least one byte if [chunk] is not 0, so the
    length of the data is enough fuel; with [chunk] 0 the C loop does not end. *)
Fixpoint ble_loop (n : nat) (c chunk : Z) (data : list Z) : O -> option (ls_result_t * O) := fun o =>
  match data with
  | [] => Some (LS_OK, o)
  | _ :: _ =>
      match n with
      | 0%nat => None
      | S n =>
          let take_ := if chunk <? zlen data then chunk else zlen data in
          let '(result, o) := bt_gatt_notify c (take (Z.to_nat take_) data) o in
          if (result =? - ENOMEM) || (result =? - EAGAIN) then Some (LS_EAGAIN, o)
          else if result <? 0 then Some (LS_EIO, o)
          else ble_loop n c chunk (drop (Z.to_nat take_) data) o
      end
  end.

Definition ble_send_data (data : list Z) (s : ls_zephyr_ble_transport_t * O)
  : option (ls_result_t * (ls_zephyr_ble_transport_t * O)) :=
  let '(b, (t, o)) := ble_available s in
  match bl_connection t with
  | Some c =>
      if negb b then Some (LS_EINVAL, (t, o))
      else
        let '(chunk, (t, o)) := ble_maximum_payload (t, o) in
        '(r, o) ← ble_loop (length data) c chunk data o; Some (r, (t, o))
  | None => Some (LS_EINVAL, (t, o))
  end.

Definition ccc_changed (enabled : bool) (t : ls_zephyr_ble_transport_t) : ls_zephyr_ble_transport_t :=
  {| bl_connection := bl_connection t; bl_notifications_enabled := enabled |}.
Definition ls_zephyr_ble_set_connection (connection : option Z) (t : ls_zephyr_ble_transport_t) : ls_zephyr_ble_transport_t :=
  {| bl_connection := connection; bl_notifications_enabled := match connection with Some _ => bl_notifications_enabled t | None => false end |}.
Definition ls_zephyr_ble_transport_init (transport : ptr) (connection : option Z) : res ls_zephyr_ble_transport_t :=
  if negb transport then Err LS_EINVAL else Ok {| bl_connection := connection; bl_notifications_enabled := false |}.

(** The backend that the initialisation registers; [send] is the function above. *)
Definition ble_backend (address_ : Z) (send_data : list Z -> st (ls_zephyr_ble_transport_t * O) ls_result_t)
  : ls_transport_backend_t (ls_zephyr_ble_transport_t * O) := {|
  address := address_; priority := 40; available := Some ble_available; send := Some send_data; send_fragment_v1 := None;
  max_payload := Some ble_maximum_payload;
  capabilities := Z.lor LS_TRANSPORT_FRAGMENT (Z.lor LS_TRANSPORT_SECURE LS_TRANSPORT_LOW_POWER);
  energy_cost := 0; monetary_cost := 0; send_fragment_v2 := None; retry := None; retry_limit := 0 |}.
End Ble.

(** ** A TLS socket *)

Record ls_zephyr_tls_socket_transport_t : Type := {
  tl_socket_fd : Z; tl_security_tag : Z; tl_maximum_payload : Z; tl_verify_peer : bool; tl_connected : bool
}.

Inductive tls_option : Type := TLS_SEC_TAG_LIST (tag : Z) | TLS_HOSTNAME (hostname : list Z) | TLS_PEER_VERIFY (required : bool).

(** The socket calls; [sk_send] fails with whether the error is [EAGAIN] or [EWOULDBLOCK]. *)
Record sockets (O : Type) : Type := {
  sk_getaddrinfo : list Z -> list Z -> st O bool;
  sk_socket : st O Z;
  sk_setsockopt : Z -> tls_option -> st O Z;
  sk_connect : Z -> st O Z;
  sk_close : Z -> st O unit;
  sk_send : Z -> list Z -> st O (Z + bool)
}.
Arguments sk_getaddrinfo {O} _. Arguments sk_socket {O} _. Arguments sk_setsockopt {O} _. Arguments sk_connect {O} _.
Arguments sk_close {O} _. Arguments sk_send {O} _.

Section Tls.
Context {O : Type} (net : sockets O).

Definition tls_available (t : ls_zephyr_tls_socket_transport_t) : bool := tl_connected t && (0 <=? tl_socket_fd t).
Definition with_connected (b : bool) (t : ls_zephyr_tls_socket_transport_t) : ls_zephyr_tls_socket_transport_t :=
  {| tl_socket_fd := tl_socket_fd t; tl_security_tag := tl_security_tag t; tl_maximum_payload := tl_maximum_payload t;
     tl_verify_peer := tl_verify_peer t; tl_connected := b |}.
Definition with_socket (fd : Z) (t : ls_zephyr_tls_socket_transport_t) : ls_zephyr_tls_socket_transport_t :=
  {| tl_socket_fd := fd; tl_security_tag := tl_security_tag t; tl_maximum_payload := tl_maximum_payload t;
     tl_verify_peer := tl_verify_peer t; tl_connected := tl_connected t |}.

(** The [while] loop; a round that goes on has sent a byte, so the length is enough fuel. *)
Fixpoint tls_loop (n : nat) (t : ls_zephyr_tls_socket_transport_t) (data : list Z)
  : O -> option (ls_result_t * (ls_zephyr_tls_socket_transport_t * O)) := fun o =>
  match data with
  | [] => Some (LS_OK, (t, o))
  | _ :: _ =>
      match n with
      | 0%nat => None
      | S n =>
          let '(result, o) := sk_send net (tl_socket_fd t) data o in
          match result with
          | inr true => Some (LS_EAGAIN, (t, o))
          | inr false => Some (LS_EIO, (with_connected false t, o))
          | inl sent => if sent <=? 0 then Some (LS_EIO, (with_connected false t, o)) else tls_loop n t (drop (Z.to_nat sent) data) o
          end
      end
  end.
Definition tls_send_data (data : list Z) (s : ls_zephyr_tls_socket_transport_t * O)
  : option (ls_result_t * (ls_zephyr_tls_socket_transport_t * O)) :=
  let '(t, o) := s in if negb (tls_available t) then Some (LS_EINVAL, (t, o)) else tls_loop (length data) t data o.

(** One option after the other, each if the result so far is 0. *)
Definition tls_options (fd security_tag : Z) (hostname : list Z) (verify_peer : bool) : st O Z := fun o =>
  let '(result, o) := sk_setsockopt net fd (TLS_SEC_TAG_LIST security_tag) o in
  let '(result, o) := if result =? 0 then sk_setsockopt net fd (TLS_HOSTNAME (hostname ++ [0])) o else (result, o) in
  let '(result, o) := if result =? 0 then sk_setsockopt net fd (TLS_PEER_VERIFY verify_peer) o else (result, o) in
  if result =? 0 then sk_connect net fd o else (result, o).

(** [ls_zephyr_tls_socket_connect]: the structure as it is left, where it was initialised,
    and the capabilities of the backend. *)
Definition ls_zephyr_tls_socket_connect (transport : ptr) (hostname port : option (list Z)) (security_tag : Z) (verify_peer : bool)
    (maximum_payload_size : Z) : st O (ls_result_t * option (ls_zephyr_tls_socket_transport_t * Z)) := fun o =>
  match hostname, port with
  | Some hostname, Some port =>
      if negb transport || (security_tag <? 0) || (maximum_payload_size =? 0) then ((LS_EINVAL, None), o)
      else
        let t := {| tl_socket_fd := -1; tl_security_tag := security_tag; tl_maximum_payload := maximum_payload_size;
                    tl_verify_peer := verify_peer; tl_connected := false |} in
        let '(found, o) := sk_getaddrinfo net hostname port o in
        if negb found then ((LS_EIO, Some (t, 0)), o)
        else
          let '(fd, o) := sk_socket net o in
          if fd <? 0 then ((LS_EIO, Some (with_socket fd t, 0)), o)
          else
            let '(result, o) := tls_options fd security_tag hostname verify_peer o in
            if result <? 0 then let '(_, o) := sk_close net fd o in ((LS_EIO, Some (with_socket (-1) t, 0)), o)
            else ((LS_OK, Some (with_connected true (with_socket fd t),
                                Z.lor (if verify_peer then LS_TRANSPORT_SECURE else 0) LS_TRANSPORT_EXPENSIVE)), o)
  | _, _ => ((LS_EINVAL, None), o)
  end.

Definition ls_zephyr_tls_socket_close (t : ls_zephyr_tls_socket_transport_t) (o : O) : ls_zephyr_tls_socket_transport_t * O :=
  let o := if 0 <=? tl_socket_fd t then snd (sk_close net (tl_socket_fd t) o) else o in
  (with_connected false (with_socket (-1) t), o).
End Tls.

(** ** An mbedTLS session *)

Record ls_mbedtls_transport_t : Type := {
  mt_configured_mtu : Z; mt_pending_length : Z; mt_pending_offset : Z; mt_pending_crc : Z; mt_require_verified_peer : bool
}.

Definition fingerprint_bit (crc : Z) : Z :=
  Z.lxor (Z.shiftr crc 1) (Z.land (u32 (- Z.land crc 1)) 0xedb88320).
Definition fingerprint (data : list Z) : Z :=
  u32 (Z.lnot (foldl (fun crc b => Nat.iter 8 fingerprint_bit (Z.lxor crc b)) 0xffffffff data)).

Section Mbedtls.
(** Whether a cipher suite was agreed, the result of verifying the peer, and
    [mbedtls_ssl_write]. *)
Context {O : Type} (has_ciphersuite : st O bool) (verify_result : st O Z) (ssl_write : list Z -> st O Z) (WANT_READ WANT_WRITE : Z).

Definition pend (length_ offset crc : Z) (t : ls_mbedtls_transport_t) : ls_mbedtls_transport_t :=
  {| mt_configured_mtu := mt_configured_mtu t; mt_pending_length := length_; mt_pending_offset := offset; mt_pending_crc := crc;
     mt_require_verified_peer := mt_require_verified_peer t |}.

Definition mbedtls_available (t : ls_mbedtls_transport_t) : st O bool := fun o =>
  let '(suite, o) := has_ciphersuite o in
  if negb suite then (false, o)
  else if negb (mt_require_verified_peer t) then (true, o)
  else let '(r, o) := verify_result o in (r =? 0, o).

(** The [while] loop from [pending_offset] on. *)
Fixpoint mbedtls_loop (n : nat) (data : list Z) (t : ls_mbedtls_transport_t) : O -> option (ls_result_t * (ls_mbedtls_transport_t * O)) := fun o =>
  if zlen data <=? mt_pending_offset t then Some (LS_OK, (pend 0 0 0 t, o))
  else
    match n with
    | 0%nat => None
    | S n =>
        let '(written, o) := ssl_write (drop (Z.to_nat (mt_pending_offset t)) data) o in
        if (written =? WANT_READ) || (written =? WANT_WRITE) then Some (LS_EAGAIN, (t, o))
        else if written <=? 0 then Some (LS_EIO, (pend 0 0 (mt_pending_crc t) t, o))
        else mbedtls_loop n data (pend (mt_pending_length t) (mt_pending_offset t + written) (mt_pending_crc t) t) o
    end.

Definition mbedtls_send_data (data : list Z) (s : ls_mbedtls_transport_t * O) : option (ls_result_t * (ls_mbedtls_transport_t * O)) :=
  let '(t, o) := s in
  if zlen data =? 0 then Some (LS_EINVAL, (t, o))
  else
    let '(b, o) := mbedtls_available t o in
    if negb b then Some (LS_EINVAL, (t, o))
    else
      let crc := fingerprint data in
      if negb (mt_pending_length t =? 0) then
        if negb (mt_pending_length t =? zlen data) || negb (mt_pending_crc t =? crc) then Some (LS_EBUSY, (t, o))
        else mbedtls_loop (length data) data t o
      else mbedtls_loop (length data) data (pend (zlen data) 0 crc t) o.

Definition ls_mbedtls_transport_init (transport ssl : ptr) (maximum_payload_size : Z) (require_verified_peer : bool) : res ls_mbedtls_transport_t :=
  if negb transport || negb ssl || (maximum_payload_size =? 0) then Err LS_EINVAL
  else Ok {| mt_configured_mtu := maximum_payload_size; mt_pending_length := 0; mt_pending_offset := 0; mt_pending_crc := 0;
             mt_require_verified_peer := require_verified_peer |}.
End Mbedtls.

(** ** Frames carry the data once and in order *)

(** The frames of an envelope. *)
Definition frames_of {F} (frame : Z -> Z -> list Z -> F) (capacity : Z) (data : list Z) : list F :=
  let count := frame_count capacity (zlen data) in
  map (fun i => frame (Z.of_nat i) count (frame_part capacity data (Z.of_nat i))) (List.seq 0 (Z.to_nat count)).

(** A call of a driver passes its frame on, and remembers it, exactly if it succeeds. *)
Definition driver_ok {F O} (put : F -> st O Z) (again : Z -> bool) (sent : O -> list F) : Prop :=
  forall f o, let '(r, o') := put f o in sent o' = if again r || (r <? 0) then sent o else sent o ++ [f].

Section FramesFacts.
Context {F O : Type} (frame : Z -> Z -> list Z -> F) (put : F -> st O Z) (again : Z -> bool) (sent : O -> list F).
Context (Hput : driver_ok put again sent) (capacity : Z) (Hcap : 0 < capacity).

Lemma frame_loop_spec n i count data o : let '(r, o') := frame_loop frame put again capacity n (Z.of_nat i) count data o in
  let all := map (fun i => frame (Z.of_nat i) count (frame_part capacity data (Z.of_nat i))) (List.seq i n) in
  exists k, sent o' = sent o ++ take k all /\ (r = LS_OK <-> k = n) /\ (k <= n)%nat.
Proof using Hput.
  revert i o. induction n as [|n IH]; intros i o; [exists 0%nat; by rewrite app_nil_r|]. cbn [frame_loop].
  pose proof (Hput (frame (Z.of_nat i) count (frame_part capacity data (Z.of_nat i))) o) as Hp.
  destruct (put _ o) as [r o1].
  destruct (again r); cbn [orb] in Hp; [exists 0%nat; rewrite app_nil_r; split; [done|]; split; [split; done|lia]|].
  destruct (r <? 0); [exists 0%nat; rewrite app_nil_r; split; [done|]; split; [split; done|lia]|].
  specialize (IH (S i) o1). replace (Z.of_nat (S i)) with (Z.of_nat i + 1) in IH by lia.
  destruct (frame_loop _ _ _ _ n _ count data o1) as [r' o']. destruct IH as (k & Hk & Hr & Hkn).
  exists (S k). cbn [List.seq map take]. rewrite Hk, Hp, <- app_assoc. split; [done|]. split; [rewrite Hr; lia|lia].
Qed.

(** The parts are the data cut into pieces of the capacity. *)
Lemma frame_parts_cover n data i : zlen data <= (i + Z.of_nat n) * capacity -> 0 <= i ->
  mjoin (map (fun j => frame_part capacity data (i + Z.of_nat j)) (List.seq 0 n)) = drop (Z.to_nat (i * capacity)) data.
Proof using Hcap.
  revert i. induction n as [|n IH]; intros i Hz Hi.
  { cbn [List.seq map]. rewrite drop_ge by (unfold zlen in Hz; nia). done. }
  change (frame_part capacity data (i + Z.of_nat 0) ++ mjoin (map (fun j => frame_part capacity data (i + Z.of_nat j)) (List.seq 1 n)) =
    drop (Z.to_nat (i * capacity)) data).
  rewrite <- List.seq_shift, map_map.
  assert (map (fun x => frame_part capacity data (i + Z.of_nat (S x))) (List.seq 0 n) =
          map (fun j => frame_part capacity data ((i + 1) + Z.of_nat j)) (List.seq 0 n)) as ->
    by (apply map_ext; intros j; f_equal; lia).
  rewrite IH by lia. rewrite Z.add_0_r. unfold frame_part.
  assert (0 <= i * capacity) as Hic by nia. replace ((i + 1) * capacity) with (i * capacity + capacity) by lia.
  unfold zlen in *. destruct (Z.ltb_spec capacity (Z.of_nat (length data) - i * capacity)).
  - symmetry. apply drop_slice; unfold zlen; lia.
  - rewrite (drop_ge data (Z.to_nat (i * capacity + capacity))) by lia. rewrite app_nil_r. unfold slice. apply take_ge. rewrite length_drop. lia.
Qed.

Lemma frame_count_spec n : 0 <= n -> n + capacity <= 2 ^ 32 ->
  0 <= frame_count capacity n /\ n <= frame_count capacity n * capacity /\ (frame_count capacity n - 1) * capacity <= n - 1.
Proof using Hcap.
  intros H0 Hn. unfold frame_count, u32. rewrite Z.mod_small by lia.
  pose proof (Z.div_mod (n + capacity - 1) capacity ltac:(lia)) as Hd.
  pose proof (Z.mod_pos_bound (n + capacity - 1) capacity Hcap) as Hm.
  assert (0 <= (n + capacity - 1) / capacity) by (apply Z.div_pos; lia). set (q := (n + capacity - 1) / capacity) in *. lia.
Qed.

(** The frames that the driver accepted are the first ones of the envelope, all of them
    exactly on success. *)
Lemma send_frames_spec data o : zlen data + capacity <= 2 ^ 32 ->
  let '(r, o') := send_frames frame put again capacity data o in
  (r = LS_ENOSPACE /\ o' = o /\ 255 * capacity < zlen data) \/
  (frame_count capacity (zlen data) <= 255 /\
   exists k, sent o' = sent o ++ take k (frames_of frame capacity data) /\
     (r = LS_OK <-> k = Z.to_nat (frame_count capacity (zlen data))) /\ (k <= Z.to_nat (frame_count capacity (zlen data)))%nat).
Proof using Hput Hcap.
  intros Hz. pose proof (frame_count_spec (zlen data) (zlen_nonneg data) Hz) as (H1 & H2 & H3). unfold send_frames.
  destruct (Z.ltb_spec 255 (frame_count capacity (zlen data))) as [Hc|Hc].
  - left. split; [done|]. split; [done|]. nia.
  - pose proof (frame_loop_spec (Z.to_nat (frame_count capacity (zlen data))) 0 (frame_count capacity (zlen data)) data o) as H.
    change (Z.of_nat 0) with 0 in H. destruct (frame_loop _ _ _ _ _ _ _ data o) as [r o']. destruct H as (k & Hk & Hr & Hkn).
    right. split; [done|]. exists k. split; [exact Hk|]. split; [exact Hr|exact Hkn].
Qed.

Lemma frames_of_cover data : zlen data + capacity <= 2 ^ 32 ->
  mjoin (map (fun i => frame_part capacity data (Z.of_nat i)) (List.seq 0 (Z.to_nat (frame_count capacity (zlen data))))) = data.
Proof using Hcap.
  intros Hz. pose proof (frame_count_spec (zlen data) (zlen_nonneg data) Hz) as (H1 & H2 & H3).
  pose proof (frame_parts_cover (Z.to_nat (frame_count capacity (zlen data))) data 0 ltac:(lia) ltac:(lia)) as H.
  rewrite Z.mul_0_l in H. exact H.
Qed.

Lemma frame_part_fits data i : 0 <= i -> zlen (frame_part capacity data i) <= capacity.
Proof using Hcap.
  intros Hi. unfold frame_part, slice, zlen. rewrite length_take. case_if; lia.
Qed.
End FramesFacts.

(** *** CAN *)

(** What a receiver makes of frames that arrive in order. *)
Definition can_payload (frames : list can_frame) : list Z := mjoin (map (fun f => drop 3 (cf_data f)) frames).

(** The frames of an envelope that fits are at most 255, each within the size of a CAN
    frame and numbered from 0 with their count and the identifier of the transfer, and
    their payloads put together are the envelope. Sending passes on the first of these frames, in
    order and each once: all of them on success, and not all of them on an error. *)
Theorem can_carries_envelope {O} device_is_ready can_send dlc std_mask EAGAIN (sent : O -> list can_frame) t data o :
  (forall d timeout, driver_ok (fun f => can_send d f timeout) (fun r => r =? - EAGAIN) sent) ->
  (forall d o, sent (snd (device_is_ready d o)) = sent o) -> 0 < zlen data <= LS_MAX_EVENT_SIZE ->
  let capacity := can_payload_capacity t in
  let all := frames_of (can_frame_of dlc std_mask t (transfer_id data)) capacity data in
  let '(r, (t', o')) := can_send_data device_is_ready can_send dlc std_mask EAGAIN data (t, o) in
  t' = t /\ can_payload all = data /\
  (forall i f, all !! i = Some f -> zlen (cf_data f) <= 3 + capacity /\
     (zlen all <= 255 -> take 3 (cf_data f) = [transfer_id data; Z.of_nat i; zlen all])) /\
  exists k, sent o' = sent o ++ take k all /\ (r = LS_OK -> zlen all <= 255 /\ k = length all) /\ (r <> LS_OK -> (k < length all)%nat).
Proof.
  intros Hput Hready Hz capacity all. unfold LS_MAX_EVENT_SIZE in Hz.
  assert (0 < capacity <= 61) as Hcap by (unfold capacity, can_payload_capacity; destruct (cn_can_fd t); lia).
  set (frame := can_frame_of dlc std_mask t (transfer_id data)) in all.
  pose proof (frame_count_spec capacity ltac:(lia) (zlen data) (zlen_nonneg data) ltac:(lia)) as (C1 & C2 & _).
  set (count := frame_count capacity (zlen data)) in *.
  assert (zlen all = count) as Hl by (unfold all, frames_of, zlen; rewrite length_map, length_seq; fold (zlen data); fold count; lia).
  assert (0 < length all)%nat as Hpos.
  { assert (count <> 0) by (intros E; rewrite E in C2; lia). clear -Hl H C1. unfold zlen in Hl. lia. }
  assert (can_payload all = data) as Hpay.
  { unfold can_payload, all, frames_of. rewrite map_map. cbn [cf_data frame can_frame_of drop]. apply frames_of_cover; lia. }
  assert (forall i f, all !! i = Some f -> zlen (cf_data f) <= 3 + capacity /\
     (zlen all <= 255 -> take 3 (cf_data f) = [transfer_id data; Z.of_nat i; zlen all])) as Hframes.
  { intros i f Hf. unfold all, frames_of in Hf. rewrite list_lookup_fmap in Hf. destruct (List.seq _ _ !! i) as [j|] eqn:Ej; [|done].
    apply lookup_seq in Ej as [-> Hj]. cbn [fmap option_fmap option_map Nat.add] in Hf. injection Hf as <-.
    cbn [cf_data can_frame_of frame take]. split.
    - pose proof (frame_part_fits capacity ltac:(lia) data (Z.of_nat i) ltac:(lia)). rewrite !zlen_cons. lia.
    - intros H255. rewrite Hl in *. fold count in Hj |- *. unfold u8. by rewrite !Z.mod_small by lia. }
  assert (forall r o1, sent o1 = sent o -> r <> LS_OK -> t = t /\ can_payload all = data /\
    (forall i f, all !! i = Some f -> zlen (cf_data f) <= 3 + capacity /\
     (zlen all <= 255 -> take 3 (cf_data f) = [transfer_id data; Z.of_nat i; zlen all])) /\
    exists k, sent o1 = sent o ++ take k all /\ (r = LS_OK -> zlen all <= 255 /\ k = length all) /\ (r <> LS_OK -> (k < length all)%nat)) as Hnone.
  { intros r o1 E Hr. split; [done|]. split; [done|]. split; [done|]. exists 0%nat. rewrite app_nil_r. split; [exact E|]. split; [done|]. intros _. exact Hpos. }
  unfold can_send_data, can_available. destruct (cn_device t) as [d|] eqn:Ed; [|cbv beta iota; rewrite Ed; by apply (Hnone LS_EINVAL o)].
  pose proof (Hready d o) as Hs. destruct (device_is_ready d o) as [b o1]. cbn [snd] in Hs. cbv beta iota. rewrite Ed.
  destruct b; cbn [negb]; [|by apply (Hnone LS_EINVAL o1)].
  pose proof (send_frames_spec frame _ _ sent (Hput d (cn_timeout_ms t)) capacity ltac:(lia) data o1 ltac:(lia)) as H.
  fold frame capacity. destruct (send_frames _ _ _ capacity data o1) as [r o2].
  destruct H as [(-> & -> & _)|(Hc & k & Hk & Hr & Hkn)]; [by apply (Hnone LS_ENOSPACE o1)|]. fold count in Hc, Hr, Hkn. fold all in Hk.
  split; [done|]. split; [done|]. split; [done|]. exists k. rewrite <- Hs. split; [exact Hk|]. unfold zlen in Hl.
  split; [intros E; apply Hr in E; unfold zlen; lia|]. intros E. assert (k <> Z.to_nat count) by (intros ->; by apply E, Hr). lia.
Qed.

(** *** LoRaWAN *)

(** On success the packets that were sent are at most 255, fit the payload of the network,
    and put together are the envelope. *)
Theorem lorawan_carries_envelope {O} lorawan_send EAGAIN EBUSY (sent : O -> list (list Z)) t data o :
  (forall port confirmed, driver_ok (fun f => lorawan_send port f confirmed) (fun r => (r =? - EAGAIN) || (r =? - EBUSY)) sent) ->
  zlen data <= LS_MAX_EVENT_SIZE -> lw_payload_max t <= 255 ->
  let '(r, (t', o')) := lorawan_send_data lorawan_send EAGAIN EBUSY data (t, o) in
  r = LS_OK -> exists frames, sent o' = sent o ++ frames /\ mjoin (map (drop 4) frames) = data /\ zlen frames <= 255 /\
    Forall (fun f => zlen f <= lw_payload_max t) frames.
Proof.
  intros Hput Hz Hmax. unfold LS_MAX_EVENT_SIZE in Hz. unfold lorawan_send_data.
  destruct (negb (lw_joined t) || _) eqn:Eg; [done|]. apply orb_false_iff in Eg as [_ Eg].
  set (frame := lorawan_frame (lorawan_checksum data)). set (capacity := lw_payload_max t - 4).
  pose proof (send_frames_spec frame _ _ sent (Hput (lw_port t) (lw_confirmed t)) capacity ltac:(blia) data o ltac:(blia)) as H.
  destruct (send_frames _ _ _ capacity data o) as [r o2]. intros ->. destruct H as [(H & _)|(Hc & k & Hk & Hr & _)]; [done|].
  exists (frames_of frame capacity data).
  pose proof (frame_count_spec capacity ltac:(blia) (zlen data) (zlen_nonneg data) ltac:(blia)) as (C1 & _).
  assert (zlen (frames_of frame capacity data) = frame_count capacity (zlen data)) as Hl
    by (unfold frames_of, zlen at 1; rewrite length_map, length_seq; lia).
  split; [rewrite Hk, take_ge; [done|rewrite (proj1 Hr eq_refl); unfold zlen at 1 in Hl; lia]|].
  split; [unfold frames_of; rewrite map_map; cbn [frame lorawan_frame drop]; apply frames_of_cover; blia|]. split; [lia|].
  unfold frames_of. apply List.Forall_map, List.Forall_forall. intros i _.
  pose proof (frame_part_fits capacity ltac:(blia) data (Z.of_nat i) ltac:(lia)). unfold frame, lorawan_frame. rewrite !zlen_cons. blia.
Qed.

(** *** Bluetooth *)

(** The backend asks to be given envelopes in fragments but has no function that sends one,
    so the common code refuses every envelope longer than one notification, and the loop
    over the notifications has one round at most. *)
Lemma ble_envelope_refused {O} (mtu : Z -> st O Z) address_ send_data c event_id data (p : nstate) o m o' :
  ext (dev p) = ({| bl_connection := Some c; bl_notifications_enabled := true |}, o) -> mtu c o = (m, o') ->
  3 < m -> m - 3 < zlen data <= UINT32_MAX ->
  fst (ls_transport_send (Some (ble_backend mtu address_ send_data)) event_id (Some data) p) = LS_ENOTSUP.
Proof.
  intros He Em Hm Hz. destruct data as [|b data]; [rewrite zlen_nil in Hz; lia|]. unfold ls_transport_send.
  destruct (Z.ltb_spec UINT32_MAX (zlen (b :: data))); [lia|]. unfold unavailable, transport_mtu, ble_backend, call.
  cbn [available max_payload]. rewrite He. unfold ble_available. cbn [fst snd bl_connection bl_notifications_enabled].
  rewrite bool_decide_true by done. cbn [andb negb set_dev dev ext]. unfold ble_maximum_payload. cbn [bl_connection]. rewrite Em.
  destruct (Z.ltb_spec 3 m); [|lia]. destruct (Z.eqb_spec (m - 3) 0); [lia|].
  destruct (Z.ltb_spec (m - 3) (zlen (b :: data))); [|lia]. reflexivity.
Qed.

(** *** The TLS socket *)

(** A call of the socket sends the first bytes of what it is given, or none. *)
Definition socket_ok {O} (net : sockets O) (wire : O -> list Z) : Prop :=
  forall fd data o, let '(r, o') := sk_send net fd data o in
    match r with
    | inl n => n <= zlen data /\ wire o' = wire o ++ take (Z.to_nat n) data
    | inr _ => wire o' = wire o
    end.

(** The loop ends, and what is on the wire is a prefix of the envelope, the whole of it
    exactly on success. *)
Lemma tls_loop_spec {O} (net : sockets O) wire : socket_ok net wire -> forall n t data o, (length data <= n)%nat ->
  exists r t' o' k, tls_loop net n t data o = Some (r, (t', o')) /\ wire o' = wire o ++ take k data /\ (k <= length data)%nat /\
    (r = LS_OK -> k = length data /\ t' = t).
Proof.
  intros Hnet n t. induction n as [|n IH]; intros [|b data] o Hl; try (simpl in Hl; lia);
    try (exists LS_OK, t, o, 0%nat; cbn [tls_loop take]; rewrite app_nil_r; split_and!; (done || simpl; lia)).
  cbn [tls_loop]. pose proof (Hnet (tl_socket_fd t) (b :: data) o) as Hs. destruct (sk_send net _ _ o) as [[sent|again] o1].
  - destruct Hs as [Hsz Hs]. destruct (Z.leb_spec sent 0) as [H0|H0].
    + exists LS_EIO, (with_connected false t), o1, 0%nat. rewrite Hs. replace (Z.to_nat sent) with 0%nat by lia.
      split; [done|]. split; [done|]. split; [lia|done].
    + destruct (IH (drop (Z.to_nat sent) (b :: data)) o1) as (r & t' & o' & k & E1 & E2 & E3 & E4).
      { rewrite length_drop. simpl in *. lia. }
      exists r, t', o', (Z.to_nat sent + k)%nat. rewrite length_drop in E3, E4. unfold zlen in Hsz. split; [exact E1|].
      split; [by rewrite E2, Hs, <- app_assoc, <- take_take_drop|]. split; [lia|]. intros Hr. destruct (E4 Hr). split; [lia|done].
  - exists (if again then LS_EAGAIN else LS_EIO), (if again then t else with_connected false t), o1, 0%nat. rewrite Hs, app_nil_r.
    destruct again; (split; [done|]; split; [done|]; split; [lia|done]).
Qed.

(** A peer that takes one byte, then none, and later all. *)
Definition demo_socket : sockets (list Z * list bool) := {|
  sk_getaddrinfo := fun _ _ o => (true, o); sk_socket := fun o => (3, o); sk_setsockopt := fun _ _ o => (0, o);
  sk_connect := fun _ o => (0, o); sk_close := fun _ o => (tt, o);
  sk_send := fun _ data '(wire, room) =>
    match room with
    | true :: room => (inl 1, (wire ++ take 1 data, room))
    | false :: room => (inr true, (wire, room))
    | [] => (inl (zlen data), (wire ++ data, []))
    end |}.

(** After [LS_EAGAIN] the next send starts again at the first byte: what the peer reads is
    not the envelope, although the send succeeds. *)
Lemma tls_repeats_bytes :
  let t := {| tl_socket_fd := 3; tl_security_tag := 1; tl_maximum_payload := 4096; tl_verify_peer := true; tl_connected := true |} in
  exists o, tls_send_data demo_socket [1; 2] (t, ([], [true; false])) = Some (LS_EAGAIN, (t, o)) /\
    tls_send_data demo_socket [1; 2] (t, o) = Some (LS_OK, (t, ([1; 1; 2], []))).
Proof. exists ([1], []). vm_compute. done. Qed.

(** A socket that is connected has the credentials, the name and the verification that were
    asked for, in that order, and the backend claims to be secure only if the peer is
    verified; on a failure the socket is closed again. *)
Theorem tls_connect_configured {O} (net : sockets O) (calls : O -> list (Z * (tls_option + bool))) hostname port tag verify maximum o :
  (forall fd opt o, let '(r, o') := sk_setsockopt net fd opt o in calls o' = calls o ++ [(fd, inl opt)] /\ r <= 0) ->
  (forall fd o, let '(r, o') := sk_connect net fd o in calls o' = calls o ++ [(fd, inr true)] /\ r <= 0) ->
  (forall fd o, calls (snd (sk_close net fd o)) = calls o ++ [(fd, inr false)]) ->
  (forall h p o, calls (snd (sk_getaddrinfo net h p o)) = calls o) -> (forall o, calls (snd (sk_socket net o)) = calls o) ->
  let '((r, t), o') := ls_zephyr_tls_socket_connect net SET (Some hostname) (Some port) tag verify maximum o in
  match r, t with
  | LS_OK, Some (t, capabilities) =>
      0 <= tl_socket_fd t /\ tl_connected t = true /\ tl_maximum_payload t = maximum /\
      calls o' = calls o ++ map (pair (tl_socket_fd t))
        [inl (TLS_SEC_TAG_LIST tag); inl (TLS_HOSTNAME (hostname ++ [0])); inl (TLS_PEER_VERIFY verify); inr true] /\
      (Z.land capabilities LS_TRANSPORT_SECURE = 0 <-> verify = false)
  | LS_OK, None => False
  | _, Some (t, _) => tl_socket_fd t < 0 /\ tl_connected t = false /\
      (calls o' = calls o \/ exists fd l, calls o' = calls o ++ l ++ [(fd, inr false)])
  | _, None => calls o' = calls o
  end.
Proof.
  intros Hopt Hconn Hclose Haddr Hsock. unfold ls_zephyr_tls_socket_connect. cbn [negb SET orb].
  destruct ((tag <? 0) || (maximum =? 0)); [done|].
  pose proof (Haddr hostname port o) as A. destruct (sk_getaddrinfo net hostname port o) as [found o1]. cbn [snd] in A.
  destruct found; cbn [negb]; [|split; [done|]; split; [done|by left]].
  pose proof (Hsock o1) as B. destruct (sk_socket net o1) as [fd o2]. cbn [snd] in B.
  destruct (Z.ltb_spec fd 0); [split; [done|]; split; [done|]; left; congruence|].
  assert (calls o2 = calls o) as Hc by congruence. clear A B.
  assert (let '(r, o3) := tls_options net fd tag hostname verify o2 in
    (r = 0 /\ calls o3 = calls o ++ map (pair fd)
        [inl (TLS_SEC_TAG_LIST tag); inl (TLS_HOSTNAME (hostname ++ [0])); inl (TLS_PEER_VERIFY verify); inr true]) \/
    (r < 0 /\ exists l, calls o3 = calls o ++ l)) as Hop.
  { unfold tls_options. pose proof (Hopt fd (TLS_SEC_TAG_LIST tag) o2) as H1. destruct (sk_setsockopt net fd _ o2) as [r1 o3].
    destruct H1 as [H1 L1]. destruct (Z.eqb_spec r1 0) as [->|N1].
    2: { destruct (Z.eqb_spec r1 0); [done|]. destruct (Z.eqb_spec r1 0); [done|]. right. split; [lia|]. eexists. rewrite H1, Hc. done. }
    pose proof (Hopt fd (TLS_HOSTNAME (hostname ++ [0])) o3) as H2. destruct (sk_setsockopt net fd _ o3) as [r2 o4].
    destruct H2 as [H2 L2]. destruct (Z.eqb_spec r2 0) as [->|N2].
    2: { destruct (Z.eqb_spec r2 0); [done|]. right. split; [lia|]. eexists. rewrite H2, H1, Hc, <- app_assoc. done. }
    pose proof (Hopt fd (TLS_PEER_VERIFY verify) o4) as H3. destruct (sk_setsockopt net fd _ o4) as [r3 o5].
    destruct H3 as [H3 L3]. destruct (Z.eqb_spec r3 0) as [->|N3].
    2: { right. split; [lia|]. eexists. rewrite H3, H2, H1, Hc, <- !app_assoc. done. }
    pose proof (Hconn fd o5) as H4. destruct (sk_connect net fd o5) as [r4 o6]. destruct H4 as [H4 L4].
    assert (calls o6 = calls o ++ map (pair fd)
        [inl (TLS_SEC_TAG_LIST tag); inl (TLS_HOSTNAME (hostname ++ [0])); inl (TLS_PEER_VERIFY verify); inr true]) as E
      by (rewrite H4, H3, H2, H1, Hc, <- !app_assoc; done).
    destruct (Z.eqb_spec r4 0) as [->|N4]; [left; done|]. right. split; [lia|]. by eexists. }
  destruct (tls_options net fd tag hostname verify o2) as [r o3]. destruct Hop as [[-> E]|[Hr (l & E)]].
  - cbn [Z.ltb Z.compare]. split; [done|]. split; [done|]. split; [done|]. split; [exact E|]. destruct verify; vm_compute; split; congruence.
  - destruct (Z.ltb_spec r 0); [|lia]. pose proof (Hclose fd o3) as Hcl. destruct (sk_close net fd o3) as [u o4]. cbn [snd] in Hcl.
    split; [done|]. split; [done|]. right. exists fd, l. by rewrite Hcl, E, <- app_assoc.
Qed.

(** *** The mbedTLS session *)

Lemma fingerprint_bits n crc : Nat.iter n fingerprint_bit crc = Nat.iter n crc_shift crc.
Proof.
  induction n as [|n IH]; [reflexivity|]. cbn [Nat.iter nat_rect]. unfold Nat.iter in IH. rewrite IH.
  unfold fingerprint_bit, crc_shift. by rewrite (Z.land_comm 0xedb88320).
Qed.

(** The fingerprint is the checksum of the runtime. *)
Lemma fingerprint_is_crc32 data : fingerprint data = ls_crc32 data.
Proof.
  unfold fingerprint. rewrite ls_crc32_eq. do 2 f_equal. unfold crc_update. generalize 0xffffffff. induction data as [|b data IH];
    intros crc; [by cbn [foldl]|]. cbn [foldl]. rewrite fingerprint_bits, IH. unfold crc_byte. reflexivity.
Qed.

Section Session.
Context {O : Type} (has_ciphersuite : st O bool) (verify_result : st O Z) (ssl_write : list Z -> st O Z) (WANT_READ WANT_WRITE : Z).
Context (wire : O -> list Z).
Local Abbreviation send := (mbedtls_send_data has_ciphersuite verify_result ssl_write WANT_READ WANT_WRITE).

(** The library takes the first bytes it is given, or none when it reports an error. *)
Class SessionOk : Prop := {
  wants_negative : WANT_READ < 0 /\ WANT_WRITE < 0;
  write_ok : forall data o, let '(n, o') := ssl_write data o in n <= zlen data /\ wire o' = wire o ++ take (Z.to_nat n) data;
  suite_silent : forall o, wire (snd (has_ciphersuite o)) = wire o;
  verify_silent : forall o, wire (snd (verify_result o)) = wire o
}.
Context {OK : SessionOk}.

(** The wire holds [base] and the first bytes of the envelope that is pending. *)
Definition sending (base data : list Z) (t : ls_mbedtls_transport_t) (o : O) : Prop :=
  exists k, (k <= length data)%nat /\ wire o = base ++ take k data /\
    if mt_pending_length t =? 0 then k = 0%nat
    else mt_pending_length t = zlen data /\ mt_pending_crc t = fingerprint data /\ mt_pending_offset t = Z.of_nat k.

Lemma mbedtls_loop_spec n base data t o : 0 < zlen data -> mt_pending_length t = zlen data -> mt_pending_crc t = fingerprint data ->
  0 <= mt_pending_offset t <= zlen data -> zlen data - mt_pending_offset t <= Z.of_nat n ->
  wire o = base ++ take (Z.to_nat (mt_pending_offset t)) data ->
  exists r t' o', mbedtls_loop ssl_write WANT_READ WANT_WRITE n data t o = Some (r, (t', o')) /\
    match r with
    | LS_OK => wire o' = base ++ data /\ mt_pending_length t' = 0
    | LS_EAGAIN => sending base data t' o' /\ mt_pending_length t' = zlen data
    | _ => r = LS_EIO /\ mt_pending_length t' = 0 /\ exists k, wire o' = base ++ take k data
    end.
Proof using OK.
  intros Hd Hl Hc. revert t o Hl Hc. induction n as [|n IH]; intros t o Hl Hc Ho Hn Hw; cbn [mbedtls_loop].
  - destruct (Z.leb_spec (zlen data) (mt_pending_offset t)); [|lia]. exists LS_OK, (pend 0 0 0 t), o. split; [done|].
    rewrite Hw, take_ge by (unfold zlen in *; lia). done.
  - destruct (Z.leb_spec (zlen data) (mt_pending_offset t)) as [Hge|Hlt].
    { exists LS_OK, (pend 0 0 0 t), o. split; [done|]. rewrite Hw, take_ge by (unfold zlen in *; lia). done. }
    pose proof (write_ok (drop (Z.to_nat (mt_pending_offset t)) data) o) as Hwr. destruct wants_negative as [W1 W2].
    destruct (ssl_write _ o) as [w o1]. destruct Hwr as [Hwl Hwr]. rewrite zlen_drop in Hwl by lia.
    destruct ((w =? WANT_READ) || (w =? WANT_WRITE)) eqn:Ew.
    + exists LS_EAGAIN, t, o1. assert (w < 0) by (bool_prop; destruct Ew; blia). split; [done|]. split; [|done].
      exists (Z.to_nat (mt_pending_offset t)). rewrite Hwr, Hw. replace (Z.to_nat w) with 0%nat by lia. cbn [take]. rewrite app_nil_r.
      unfold zlen in *. split; [lia|]. split; [done|]. destruct (Z.eqb_spec (mt_pending_length t) 0); [lia|]. split; [done|]. split; [done|lia].
    + destruct (Z.leb_spec w 0) as [Hw0|Hw0].
      * exists LS_EIO, (pend 0 0 (mt_pending_crc t) t), o1. split; [done|]. split; [done|]. split; [done|].
        exists (Z.to_nat (mt_pending_offset t)). rewrite Hwr, Hw. replace (Z.to_nat w) with 0%nat by lia. cbn [take]. by rewrite app_nil_r.
      * apply (IH (pend (mt_pending_length t) (mt_pending_offset t + w) (mt_pending_crc t) t) o1); try done; cbn [pend mt_pending_offset]; try lia.
        rewrite Hwr, Hw, <- app_assoc. f_equal.
        replace (Z.to_nat (mt_pending_offset t + w)) with (Z.to_nat (mt_pending_offset t) + Z.to_nat w)%nat by lia. apply take_take_drop.
Qed.

(** One send: from a session that is idle or holds the beginning of this envelope. *)
Lemma mbedtls_send_spec base data t o : sending base data t o -> 0 < zlen data ->
  exists r t' o', send data (t, o) = Some (r, (t', o')) /\
    match r with
    | LS_OK => wire o' = base ++ data /\ mt_pending_length t' = 0
    | LS_EAGAIN => sending base data t' o'
    | LS_EINVAL => sending base data t' o' /\ t' = t
    | _ => r = LS_EIO /\ mt_pending_length t' = 0 /\ exists k, wire o' = base ++ take k data
    end.
Proof using OK.
  intros Hs Hd. unfold mbedtls_send_data. destruct (Z.eqb_spec (zlen data) 0); [lia|].
  assert (exists b o1, mbedtls_available has_ciphersuite verify_result t o = (b, o1) /\ wire o1 = wire o) as (b & o1 & -> & Hw).
  { unfold mbedtls_available. pose proof (suite_silent o) as H1. destruct (has_ciphersuite o) as [suite o1]. cbn [snd] in H1.
    destruct suite; cbn [negb]; [|by exists false, o1]. destruct (mt_require_verified_peer t); cbn [negb]; [|by exists true, o1].
    pose proof (verify_silent o1) as H2. destruct (verify_result o1) as [v o2]. cbn [snd] in H2. exists (v =? 0), o2. split; [done|congruence]. }
  assert (sending base data t o1) as Hs1 by (destruct Hs as (k & H1 & H2 & H3); exists k; rewrite Hw; done).
  destruct b; cbn [negb]; [|by exists LS_EINVAL, t, o1].
  destruct Hs1 as (k & H1 & H2 & H3). destruct (Z.eqb_spec (mt_pending_length t) 0) as [Hidle|Hpend]; cbn [negb].
  - subst k. destruct (mbedtls_loop_spec (length data) base data (pend (zlen data) 0 (fingerprint data) t) o1) as (r & t' & o' & E & Hr);
      try done; cbn [pend mt_pending_offset]; try (unfold zlen in *; lia).
    exists r, t', o'. split; [exact E|]. destruct r; try done; try (by destruct Hr as [[=] _]). by destruct Hr.
  - destruct H3 as (H3 & H4 & H5). rewrite H3, Z.eqb_refl, H4, Z.eqb_refl. cbn [negb orb].
    destruct (mbedtls_loop_spec (length data) base data t o1) as (r & t' & o' & E & Hr); try done; try (unfold zlen in *; lia).
    { by rewrite H5, Nat2Z.id. }
    exists r, t', o'. split; [exact E|]. destruct r; try done; try (by destruct Hr as [[=] _]). by destruct Hr.
Qed.

(** Sending again for as long as the result says so, at most [n] times more. *)
Fixpoint send_again (n : nat) (data : list Z) (s : ls_mbedtls_transport_t * O) : option (ls_result_t * (ls_mbedtls_transport_t * O)) :=
  '(r, s) ← send data s;
  match n, r with
  | S n, LS_EAGAIN => send_again n data s
  | _, _ => Some (r, s)
  end.

Lemma send_again_spec n base data t o : sending base data t o -> 0 < zlen data ->
  exists r t' o', send_again n data (t, o) = Some (r, (t', o')) /\
    (r = LS_OK -> wire o' = base ++ data /\ mt_pending_length t' = 0) /\ (r = LS_EAGAIN -> sending base data t' o').
Proof using OK.
  intros Hs Hd. revert t o Hs. induction n as [|n IH]; intros t o Hs; cbn [send_again];
    destruct (mbedtls_send_spec base data t o Hs Hd) as (r & t' & o' & -> & Hr); cbn [mbind option_bind].
  - exists r, t', o'. split; [done|]. by destruct r.
  - destruct r; try (eexists _, t', o'; split; [reflexivity|]; by split; [|intros [=]]). by apply IH.
Qed.

(** However often a send over a TLS session is interrupted and repeated, no byte of the
    envelope is lost or repeated: on success the wire has exactly the envelope more than
    at the beginning. In between another envelope is refused and changes nothing. *)
Theorem mbedtls_resumes n data t o : mt_pending_length t = 0 -> 0 < zlen data ->
  exists r t' o', send_again n data (t, o) = Some (r, (t', o')) /\
    (r = LS_OK -> wire o' = wire o ++ data /\ mt_pending_length t' = 0) /\
    (r = LS_EAGAIN -> (exists k, wire o' = wire o ++ take k data) /\
       forall other, 0 < zlen other -> mt_pending_length t' <> 0 -> zlen other <> zlen data \/ ls_crc32 other <> ls_crc32 data ->
         exists r2 o2, send other (t', o') = Some (r2, (t', o2)) /\ (r2 = LS_EBUSY \/ r2 = LS_EINVAL) /\ wire o2 = wire o').
Proof using OK.
  intros Hidle Hd. assert (sending (wire o) data t o) as Hs.
  { exists 0%nat. rewrite Hidle. cbn [take]. rewrite app_nil_r. split; [lia|done]. }
  destruct (send_again_spec n (wire o) data t o Hs Hd) as (r & t' & o' & E & H1 & H2). exists r, t', o'. split; [exact E|].
  split; [exact H1|]. intros Er. destruct (H2 Er) as (k & _ & Hk & Hp). split; [by exists k|]. intros other Ho Hne Hdiff.
  unfold mbedtls_send_data. destruct (Z.eqb_spec (zlen other) 0); [lia|]. destruct (Z.eqb_spec (mt_pending_length t') 0); [done|].
  destruct Hp as (P1 & P2 & _). cbn [negb]. unfold mbedtls_available.
  pose proof (suite_silent o') as S1. destruct (has_ciphersuite o') as [suite o1]. cbn [snd] in S1.
  destruct suite; cbn [negb]; [|exists LS_EINVAL, o1; auto].
  assert (negb (mt_pending_length t' =? zlen other) || negb (mt_pending_crc t' =? fingerprint other) = true) as Hrefuse.
  { rewrite P1, P2, !fingerprint_is_crc32. destruct (Z.eqb_spec (zlen data) (zlen other)); [|done].
    destruct (Z.eqb_spec (ls_crc32 data) (ls_crc32 other)); [|done]. destruct Hdiff; congruence. }
  rewrite Hrefuse. destruct (mt_require_verified_peer t'); cbn [negb]; [|exists LS_EBUSY, o1; auto].
  pose proof (verify_silent o1) as S2. destruct (verify_result o1) as [v o2]. cbn [snd] in S2.
  destruct (v =? 0); cbn [negb]; [exists LS_EBUSY, o2|exists LS_EINVAL, o2]; (split; [done|]; split; [auto|congruence]).
Qed.
End Session.

(** ** Drivers *)

Definition demo_write (data : list Z) (o : list Z * list bool) : Z * (list Z * list bool) :=
  match snd o with
  | true :: room => (Z.min 1 (zlen data), (fst o ++ take 1 data, room))
  | false :: room => (-0x6880, (fst o, room))
  | [] => (zlen data, (fst o ++ data, []))
  end.

#[export] Instance demo_session_ok : SessionOk (fun o => (true, o)) (fun o => (0, o)) demo_write (-0x6900) (-0x6880) fst.
Proof.
  split; [lia| |done|done]. intros data [w [|[] room]]; unfold demo_write; cbn [fst snd].
  - split; [lia|]. unfold zlen. by rewrite Nat2Z.id, take_ge by lia.
  - split; [lia|]. destruct data as [|b data]; [done|]. rewrite zlen_cons. pose proof (zlen_nonneg data). by rewrite Z.min_l by lia.
  - split; [pose proof (zlen_nonneg data); lia|]. cbn. by rewrite app_nil_r.
Qed.

Lemma mbedtls_resumes_witness :
  let send := mbedtls_send_data (fun o => (true, o)) (fun o => (0, o)) demo_write (-0x6900) (-0x6880) in
  let t := {| mt_configured_mtu := 4096; mt_pending_length := 0; mt_pending_offset := 0; mt_pending_crc := 0; mt_require_verified_peer := true |} in
  let o := ([], [true; false; true; false]) in
  exists r t' o', send_again (fun o => (true, o)) (fun o => (0, o)) demo_write (-0x6900) (-0x6880) 5 [1; 2; 3] (t, o) = Some (r, (t', o')) /\
    (r = LS_OK -> fst o' = fst o ++ [1; 2; 3] /\ mt_pending_length t' = 0) /\
    (r = LS_EAGAIN -> (exists k, fst o' = fst o ++ take k [1; 2; 3]) /\
       forall other, 0 < zlen other -> mt_pending_length t' <> 0 -> zlen other <> zlen [1; 2; 3] \/ ls_crc32 other <> ls_crc32 [1; 2; 3] ->
         exists r2 o2, send other (t', o') = Some (r2, (t', o2)) /\ (r2 = LS_EBUSY \/ r2 = LS_EINVAL) /\ fst o2 = fst o').
Proof.
  intros send t o. exact (mbedtls_resumes (fun o => (true, o)) (fun o => (0, o)) demo_write (-0x6900) (-0x6880) fst 5 [1; 2; 3] t o eq_refl eq_refl).
Defined.

(** The interrupted sends do complete. *)
Example demo_session_completes :
  let t := {| mt_configured_mtu := 4096; mt_pending_length := 0; mt_pending_offset := 0; mt_pending_crc := 0; mt_require_verified_peer := true |} in
  option_map (fun s => (fst s, fst (snd (snd s)))) (send_again (fun o => (true, o)) (fun o => (0, o)) demo_write (-0x6900) (-0x6880) 5 [1; 2; 3]
    (t, ([], [true; false; true; false]))) = Some (LS_OK, [1; 2; 3]).
Proof. vm_compute. reflexivity. Qed.

(** A bus that records frames, and is busy once the number it takes is used up. *)
Definition demo_bus (d : Z) (f : can_frame) (timeout : Z) (o : list can_frame * nat) : Z * (list can_frame * nat) :=
  match snd o with S n => (0, (fst o ++ [f], n)) | 0%nat => (-11, o) end.

Lemma demo_bus_ok d timeout : driver_ok (fun f => demo_bus d f timeout) (fun r => r =? - 11) fst.
Proof. intros f [l [|n]]; reflexivity. Qed.

Lemma can_carries_envelope_witness : let data := [1; 2; 3; 4; 5; 6; 7] in
  let t := {| cn_device := Some 1; cn_arbitration_id := 0x321; cn_timeout_ms := 10; cn_can_fd := false; cn_bitrate_switch := false |} in
  let all := frames_of (can_frame_of id 0x7ff t (transfer_id data)) (can_payload_capacity t) data in
  let '(r, (t', o')) := can_send_data (fun _ o => (true, o)) demo_bus id 0x7ff 11 data (t, ([], 1%nat)) in
  t' = t /\ can_payload all = data /\
  (forall i f, all !! i = Some f -> zlen (cf_data f) <= 3 + can_payload_capacity t /\
     (zlen all <= 255 -> take 3 (cf_data f) = [transfer_id data; Z.of_nat i; zlen all])) /\
  exists k, fst o' = [] ++ take k all /\ (r = LS_OK -> zlen all <= 255 /\ k = length all) /\ (r <> LS_OK -> (k < length all)%nat).
Proof.
  intros data t. assert (0 < zlen data <= LS_MAX_EVENT_SIZE) as Hz by (split; [reflexivity|discriminate]).
  exact (can_carries_envelope (fun _ o => (true, o)) demo_bus id 0x7ff 11 fst t data ([], 1%nat) demo_bus_ok (fun _ _ => eq_refl) Hz).
Defined.
