(* ===== verification/Dump.v ===== *)
(** * The dump tool ([tools/latch_dump.c])

    The host program that prints a stored envelope as text or as JSON. A file is its
    bytes with whether reading it ends in an error, and what the program prints is a list
    of bytes. Messages on the error output are the cases of [diagnostic]: their wording,
    and the texts that the C library has for errors, are left out. *)

From S2P Require Import Prelude Util Spool Envelope Encode Arch.

(** ** Reading the input *)

Inductive diagnostic : Type :=
| NonHex (character : Z) | HexTooLong | OddDigits | BinaryTooLong | ReadError | CloseError | OpenError
| InvalidEnvelope (r : ls_result_t) | NoTlvText (r : ls_result_t) | NoTlvJson (r : ls_result_t)
| UnknownOption (arg : list Z) | Usage.

(** A file that is open for reading: the bytes up to its end, or up to where reading fails. *)
Record file : Type := { contents : list Z; read_fails : bool }.

Definition is_ascii_whitespace (c : Z) : bool :=
  (c =? 32) || (c =? 9) || (c =? 10) || (c =? 13) || (c =? 12) || (c =? 11).

Definition hex_digit (c : Z) : Z :=
  if (48 <=? c) && (c <=? 57) then c - 48
  else if (97 <=? c) && (c <=? 102) then c - 97 + 10
  else if (65 <=? c) && (c <=? 70) then c - 65 + 10
  else -1.

(** The loop of [read_hex] over the characters, with [high] and the bytes so far. *)
Fixpoint read_hex_loop (capacity : Z) (cs : list Z) (high : Z) (data : list Z) : diagnostic + (Z * list Z) :=
  match cs with
  | [] => inr (high, data)
  | c :: cs =>
      if is_ascii_whitespace c then read_hex_loop capacity cs high data
      else
        let digit := hex_digit c in
        if digit <? 0 then inl (NonHex c)
        else if high <? 0 then read_hex_loop capacity cs digit data
        else if capacity <=? zlen data then inl HexTooLong
        else read_hex_loop capacity cs (-1) (data ++ [u8 (Z.lor (Z.shiftl high 4) digit)])
  end.

Definition read_hex (f : file) (capacity : Z) : diagnostic + list Z :=
  match read_hex_loop capacity (contents f) (-1) [] with
  | inl d => inl d
  | inr (high, data) =>
      if read_fails f then inl ReadError else if 0 <=? high then inl OddDigits else inr data
  end.

(** The first [fread] asks for [capacity] bytes; when it gets them all, the next round
    finds no room and looks for one more character. *)
Definition read_binary (f : file) (capacity : Z) : diagnostic + list Z :=
  let data := take (Z.to_nat capacity) (contents f) in
  let at_end := if read_fails f then inl ReadError else inr data in
  if zlen data <? capacity then at_end
  else match drop (Z.to_nat capacity) (contents f) with [] => at_end | _ :: _ => inl BinaryTooLong end.

(** ** Names *)

Definition event_type_name (type : Z) : string :=
  if type =? 1 then "crash" else if type =? 2 then "error" else if type =? 3 then "message"
  else if type =? 4 then "health" else if type =? 5 then "reset" else if type =? 6 then "log"
  else if type =? 7 then "peripheral" else if type =? 8 then "coredump" else "unknown".

Definition architecture_name (architecture : Z) : string :=
  if architecture =? 0 then "unknown" else if architecture =? 1 then "cortex-m"
  else if architecture =? LS_ARCH_RISCV then "riscv" else if architecture =? LS_ARCH_XTENSA then "xtensa"
  else if architecture =? 4 then "linux" else if architecture =? LS_ARCH_RISCV64 then "riscv64" else "unknown".

Definition tlv_name (type : Z) : string :=
  if type =? LS_TLV_IDENTITY then "identity" else if type =? LS_TLV_RESET then "reset"
  else if type =? LS_TLV_EVENT then "event" else if type =? LS_TLV_CPU then "cpu"
  else if type =? LS_TLV_FAULT then "fault" else if type =? LS_TLV_BREADCRUMB then "breadcrumb"
  else if type =? LS_TLV_METRIC then "metric" else if type =? LS_TLV_POWER then "power"
  else if type =? LS_TLV_HEALTH then "health" else if type =? LS_TLV_ASSERT then "assert"
  else if type =? LS_TLV_PERIPHERAL then "peripheral" else if type =? LS_TLV_LOG then "log"
  else if type =? LS_TLV_MEMORY then "memory" else if type =? LS_TLV_STACK then "stack"
  else if type =? LS_TLV_HEAP then "heap" else if type =? LS_TLV_CPU64 then "cpu64"
  else if type =? LS_TLV_BLACKBOX then "blackbox" else if type =? LS_TLV_MISSION then "mission"
  else if type =? LS_TLV_TIME_SYNC then "time_sync" else if type =? LS_TLV_PROVISIONING then "provisioning"
  else if type =? LS_TLV_SUPERVISOR then "supervisor" else if type =? LS_TLV_ENVIRONMENT then "environment"
  else if type =? LS_TLV_POWERFAIL_SEAL then "powerfail_seal" else "unknown".

(** ** The formats of [printf]

    [decimal] is the format [%u]. *)

(** [%0nx] for a value of at most [n] digits. *)
Definition lower_hex (digit : Z) : Z := if digit <? 10 then 48 + digit else 87 + digit.
Definition hex (n : nat) (v : Z) : list Z :=
  map (fun i => lower_hex (Z.land (Z.shiftr v ((Z.of_nat n - 1 - Z.of_nat i) * 4)) 15)) (List.seq 0 n).

(** A format with [']  for the double quote. *)
Definition js (s : string) : list Z := map (fun c => if c =? 39 then 34 else c) (str s).

Definition print_hex (value : list Z) : list Z := mjoin (map (hex 2) value).
Definition newline : list Z := [10].

(** ** Printing an envelope *)

(** What a run leaves: the exit code, the output and the messages. *)
Record outcome : Type := { exit_code : Z; stdout : list Z; stderr : list diagnostic }.
Definition finished (out : list Z) : outcome := {| exit_code := 0; stdout := out; stderr := [] |}.
Definition failed (exit : Z) (out : list Z) (d : list diagnostic) : outcome :=
  {| exit_code := exit; stdout := out; stderr := d |}.

Definition print_tlv (type : Z) (value : list Z) : st (list Z) ls_result_t := fun out =>
  (LS_OK, out ++ str "  tlv type=" ++ decimal type ++ str " (" ++ str (tlv_name type) ++ str ") length=" ++
          decimal (zlen value) ++ str " value_hex=" ++ print_hex value ++ newline).

Definition validate_tlv (type : Z) (value : list Z) : st (list Z) ls_result_t := fun out => (LS_OK, out).

(** The state is the number of fields printed so far, and the output. *)
Definition print_json_tlv (type : Z) (value : list Z) : st (Z * list Z) ls_result_t := fun '(count, out) =>
  (LS_OK, (u32 (count + 1),
     out ++ (if count =? 0 then [] else str ",") ++ js "{'type':" ++ decimal type ++ js ",'name':'" ++ str (tlv_name type) ++
     js "','length':" ++ decimal (zlen value) ++ js ",'value_hex':'" ++ print_hex value ++ js "'}")).

Definition print_json_header (info : ls_envelope_info_t) : list Z :=
  js "{'version':" ++ decimal (version info) ++ js ",'event_type':" ++ decimal (type info) ++
  js ",'event_type_name':'" ++ str (event_type_name (type info)) ++ js "','architecture':" ++ decimal (architecture info) ++
  js ",'architecture_name':'" ++ str (architecture_name (architecture info)) ++ js "','flags':" ++ decimal (flags info) ++
  js ",'sequence':" ++ decimal (sequence info) ++ js ",'event_id':" ++ decimal (event_id info) ++
  js ",'event_id_hex':'" ++ hex 8 (event_id info) ++ js "','payload_length':" ++ decimal (payload_length info).

Definition integrity_status (info : ls_envelope_info_t) : string :=
  if has_flag (flags info) LS_ENVELOPE_AUTHENTICATED then "not_verified" else "not_present".

Definition text_header (info : ls_envelope_info_t) : list Z :=
  str "LEP v" ++ decimal (version info) ++ str " type=" ++ decimal (type info) ++ str " (" ++
  str (event_type_name (type info)) ++ str ") arch=" ++ decimal (architecture info) ++ str " (" ++
  str (architecture_name (architecture info)) ++ str ") flags=0x" ++ hex 2 (flags info) ++ str " sequence=" ++
  decimal (sequence info) ++ str " event=" ++ hex 8 (event_id info) ++ str " payload=" ++ decimal (payload_length info) ++ newline.

Definition dump_envelope (data : list Z) (json : bool) : outcome :=
  match ls_envelope_validate (Some data) with
  | Err e => failed 1 [] [InvalidEnvelope e]
  | Ok info =>
      let encrypted := has_flag (flags info) LS_ENVELOPE_ENCRYPTED in
      if negb json then
        if encrypted then
          finished (text_header info ++
            str "  payload: encrypted (structural metadata only; no decryption key was supplied)" ++ newline)
        else
          let '(r, out) := ls_envelope_visit print_tlv (Some data) (text_header info) in
          if is_ok r then finished out else failed 1 out [NoTlvText r]
      else if encrypted then
        finished (print_json_header info ++ js ",'payload_encoding':'encrypted','integrity':'" ++ str (integrity_status info) ++
          js "'}" ++ newline)
      else
        let '(r, out) := ls_envelope_visit validate_tlv (Some data) [] in
        if negb (is_ok r) then failed 1 out [NoTlvJson r]
        else
          let '(r, (_, out)) := ls_envelope_visit print_json_tlv (Some data)
            (0, out ++ print_json_header info ++ js ",'payload_encoding':'tlv','integrity':'" ++ str (integrity_status info) ++
                js "','tlvs':[") in
          {| exit_code := if is_ok r then 0 else 1; stdout := out ++ str "]}" ++ newline; stderr := [] |}
  end.

(** ** The program *)

Definition usage : list Z :=
  str "usage: latch-dump [--hex] [--json] EVENT" ++ newline ++
  str "  EVENT is a binary LEP file, a whitespace-tolerant hexadecimal file with --hex," ++ newline ++
  str "  or - to read either format from standard input." ++ newline.

(** The options: hexadecimal, JSON and the path that the arguments name, or how the
    program ends at once. *)
Fixpoint parse_arguments (args : list (list Z)) (hex_input json : bool) (path : option (list Z))
  : outcome + (bool * bool * option (list Z)) :=
  match args with
  | [] => inr (hex_input, json, path)
  | arg :: args =>
      if decide (arg = str "--hex") then parse_arguments args true json path
      else if decide (arg = str "--json") then parse_arguments args hex_input true path
      else if decide (arg = str "--help" \/ arg = str "-h") then inl (finished usage)
      else if (hd 0 arg =? 45) && (1 <? zlen arg) then inl (failed 2 [] [UnknownOption arg])
      else match path with
           | None => parse_arguments args hex_input json (Some arg)
           | Some _ => inr (hex_input, json, None)
           end
  end.

Section Main.
(** The file that a path names, standard input, whether memory can be had, and whether
    closing the file succeeds. *)
Context (open : list Z -> option file) (stdin : file) (malloc_ok fclose_ok : bool).

Definition main (args : list (list Z)) : outcome :=
  match parse_arguments args false false None with
  | inl o => o
  | inr (_, _, None) => failed 2 [] [Usage]
  | inr (hex_input, json, Some path) =>
      let is_stdin := bool_decide (path = str "-") in
      match (if is_stdin then Some stdin else open path) with
      | None => failed 2 [] [OpenError]
      | Some f =>
          if negb malloc_ok then failed 2 [] []
          else
            let close_fails := negb is_stdin && negb fclose_ok in
            match (if hex_input then read_hex f LS_MAX_EVENT_SIZE else read_binary f LS_MAX_EVENT_SIZE) with
            | inl d => failed 1 [] [d]
            | inr data => if close_fails then failed 1 [] [CloseError] else dump_envelope data json
            end
      end
  end.
End Main.

(** ** Hexadecimal input

    [nibbles v] are the digits of the bytes [v], the high one first. *)

Definition nibbles (v : list Z) : list Z := mjoin (map (fun b => [b / 16; b mod 16]) v).
Definition characters (cs : list Z) : list Z := filter (fun c => is_ascii_whitespace c = false) cs.

Lemma hex_digit_range c : -1 <= hex_digit c < 16.
Proof. unfold hex_digit. repeat case_match; bool_prop; lia. Qed.

Lemma nibbles_range v : bytes_ok v -> Forall (fun d => 0 <= d) (nibbles v).
Proof.
  induction 1 as [|b v Hb Hv IH]; [by apply Forall_nil|]. unfold is_u8 in Hb.
  unfold nibbles. cbn [map mjoin list_join app]. apply Forall_cons. split; [apply Z.div_pos; lia|].
  apply Forall_cons. split; [apply Z.mod_pos_bound; lia|exact IH].
Qed.

Lemma byte_of_nibbles h d : 0 <= h < 16 -> 0 <= d < 16 ->
  u8 (Z.lor (Z.shiftl h 4) d) = h * 16 + d /\ is_u8 (h * 16 + d) /\ (h * 16 + d) / 16 = h /\ (h * 16 + d) mod 16 = d.
Proof.
  intros Hh Hd. rewrite Z.lor_comm, lor_shiftl_add by lia. unfold u8, is_u8. rewrite Z.mod_small by lia.
  split; [lia|]. split; [lia|]. split.
  - symmetry. apply (Z.div_unique _ 16 h d); lia.
  - symmetry. apply (Z.mod_unique _ 16 h d); lia.
Qed.

(** What is still to come of the bytes [v], after the digit [high] of the next one. *)
Lemma read_hex_loop_exact cap cs high data out : -1 <= high < 16 ->
  (exists h, read_hex_loop cap cs high data = inr (h, out) /\ h < 0) <->
  exists v, out = data ++ v /\ bytes_ok v /\ (v = [] \/ zlen out <= cap) /\
    (if high <? 0 then [] else [high]) ++ map hex_digit (characters cs) = nibbles v.
Proof.
  revert high data. induction cs as [|c cs IH]; intros high data Hh.
  - cbn [read_hex_loop]. split.
    + intros (h & [= -> ->] & Hn). exists []. rewrite app_nil_r. split_and!; [done|by apply Forall_nil|by left|].
      by destruct (Z.ltb_spec h 0); [|lia].
    + intros ([|b v] & -> & _ & _ & Hd).
      * exists high. rewrite app_nil_r. split; [done|]. destruct (Z.ltb_spec high 0); [done|]. discriminate Hd.
      * destruct (high <? 0); discriminate Hd.
  - cbn [read_hex_loop]. unfold characters. destruct (is_ascii_whitespace c) eqn:Ew.
    { rewrite filter_cons_False by (by rewrite Ew). by apply IH. }
    rewrite filter_cons_True by done. cbn [map]. fold (characters cs). pose proof (hex_digit_range c) as Hc.
    destruct (Z.ltb_spec (hex_digit c) 0) as [Hneg|Hpos].
    { split; [by intros (h & [=] & _)|]. intros (v & _ & Hv & _ & Hd). apply nibbles_range in Hv. rewrite <- Hd in Hv.
      apply Forall_app in Hv as [_ Hv]. apply Forall_cons in Hv as [Hv _]. lia. }
    destruct (Z.ltb_spec high 0) as [Hn|Hn].
    { rewrite IH by lia. destruct (Z.ltb_spec (hex_digit c) 0); [lia|]. done. }
    pose proof (byte_of_nibbles high (hex_digit c) ltac:(lia) ltac:(lia)) as (-> & Hb & Hq & Hr).
    destruct (Z.leb_spec cap (zlen data)) as [Hcap|Hcap].
    { split; [by intros (h & [=] & _)|]. intros ([|b v] & -> & _ & Hz & Hd); [discriminate Hd|].
      destruct Hz as [?|Hz]; [done|]. rewrite zlen_app, zlen_cons in Hz. pose proof (zlen_nonneg v). lia. }
    rewrite IH by lia. cbn [Z.ltb Z.compare app]. split.
    + intros (v & -> & Hv & Hz & Hd). exists (high * 16 + hex_digit c :: v). rewrite <- app_assoc. split; [done|].
      split; [by apply Forall_cons|]. split.
      * right. destruct Hz as [->|Hz]; [|by rewrite <- app_assoc in Hz]. cbn [app]. rewrite zlen_app, zlen_cons, zlen_nil. lia.
      * unfold nibbles. cbn [map mjoin list_join app]. rewrite Hq, Hr. do 2 f_equal. exact Hd.
    + intros ([|b v] & -> & Hv & Hz & Hd); [discriminate Hd|]. injection Hd as Hbh Hbd Hd.
      apply Forall_cons in Hv as [Hvb Hv]. exists v.
      assert (b = high * 16 + hex_digit c) as -> by (rewrite Hbh, Hbd; pose proof (Z.div_mod b 16); lia).
      rewrite <- app_assoc. split; [done|]. split; [done|]. split; [|exact Hd].
      destruct Hz as [?|Hz]; [done|]. by right.
Qed.

(** The tool reads [v] from a hexadecimal file exactly if the characters of the file
    that are not white space are the digits of [v], high digit first, in either case. *)
Theorem read_hex_exact cs cap v : 0 <= cap ->
  read_hex {| contents := cs; read_fails := false |} cap = inr v <->
  bytes_ok v /\ zlen v <= cap /\ map hex_digit (characters cs) = nibbles v.
Proof.
  intros Hcap. pose proof (read_hex_loop_exact cap cs (-1) [] v ltac:(lia)) as H. cbn [Z.ltb Z.compare app] in H.
  transitivity (exists h, read_hex_loop cap cs (-1) [] = inr (h, v) /\ h < 0).
  - unfold read_hex. cbn [contents read_fails]. destruct (read_hex_loop _ _ _ _) as [d|[h data]].
    + split; [done|]. by intros (h & [=] & _).
    + destruct (Z.leb_spec 0 h); split; try done.
      * intros (h' & [= <- _] & Hn). lia.
      * intros [= ->]. by exists h.
      * intros (h' & [= _ <-] & _). done.
  - rewrite H. split.
    + intros (v' & -> & Hv & Hz & Hd). split; [done|]. split; [|done]. destruct Hz as [->|Hz]; [exact Hcap|exact Hz].
    + intros (Hv & Hz & Hd). exists v. split; [done|]. split; [done|]. split; [by right|done].
Qed.

(** ** What is printed in hexadecimal reads back *)

Lemma hex_digit_lower d : 0 <= d < 16 -> hex_digit (lower_hex d) = d /\ is_ascii_whitespace (lower_hex d) = false.
Proof.
  intros Hd. unfold lower_hex, hex_digit, is_ascii_whitespace. destruct (Z.ltb_spec d 10).
  - destruct (Z.leb_spec 48 (48 + d)), (Z.leb_spec (48 + d) 57); try lia. cbn [andb]. split; [lia|].
    repeat (apply orb_false_intro); apply Z.eqb_neq; lia.
  - destruct (Z.leb_spec 48 (87 + d)), (Z.leb_spec (87 + d) 57), (Z.leb_spec 97 (87 + d)), (Z.leb_spec (87 + d) 102); try lia.
    cbn [andb]. split; [lia|]. repeat (apply orb_false_intro); apply Z.eqb_neq; lia.
Qed.

Lemma hex_byte b : is_u8 b -> hex 2 b = [lower_hex (b / 16); lower_hex (b mod 16)].
Proof.
  intros Hb. unfold is_u8 in Hb. unfold hex. cbn [List.seq map]. change 15 with (Z.ones 4).
  assert (0 <= b / 16 < 16) as Hq by (split; [apply Z.div_pos; lia|apply Z.div_lt_upper_bound; lia]).
  rewrite !Z.land_ones, !Z.shiftr_div_pow2 by lia. change (Z.of_nat 2 - 1 - Z.of_nat 0) with 1. change (Z.of_nat 2 - 1 - Z.of_nat 1) with 0.
  cbn [Z.mul]. change (2 ^ 0) with 1. change (2 ^ (1 * 4)) with 16. change (2 ^ 4) with 16.
  rewrite Z.div_1_r. by rewrite (Z.mod_small (b / 16)) by lia.
Qed.

Lemma print_hex_digits v : bytes_ok v -> map hex_digit (characters (print_hex v)) = nibbles v.
Proof.
  induction 1 as [|b v Hb Hv IH]; [done|]. unfold print_hex, nibbles in *. cbn [map mjoin list_join]. rewrite hex_byte by done.
  unfold is_u8 in Hb.
  destruct (hex_digit_lower (b / 16)) as [Hq Hqw]; [split; [apply Z.div_pos; lia|apply Z.div_lt_upper_bound; lia]|].
  destruct (hex_digit_lower (b mod 16)) as [Hr Hrw]; [apply Z.mod_pos_bound; lia|].
  cbn [app]. unfold characters in *. rewrite !filter_cons_True by done. cbn [map]. rewrite Hq, Hr. do 2 f_equal. exact IH.
Qed.

(** The digits that the tool prints for the value of a field, wherever lines are broken or
    blanks are put between them, are what its option [--hex] reads that value from. *)
Theorem printed_hex_reads_back v cs : bytes_ok v -> zlen v <= LS_MAX_EVENT_SIZE ->
  characters cs = characters (print_hex v) -> read_hex {| contents := cs; read_fails := false |} LS_MAX_EVENT_SIZE = inr v.
Proof.
  intros Hb Hz Hc. apply read_hex_exact; [done|]. split; [done|]. split; [done|]. rewrite Hc. by apply print_hex_digits.
Qed.

Lemma read_binary_all data cap : zlen data <= cap -> read_binary {| contents := data; read_fails := false |} cap = inr data.
Proof.
  intros Hz. unfold read_binary, zlen in *. cbn [contents read_fails]. rewrite take_ge, drop_ge by lia. by case_match.
Qed.

(** Given the same further options, a hexadecimal copy of a file with [--hex] gives the
    same output, messages and exit code as the file itself. *)
Theorem hex_same_as_binary open stdin fclose_ok json path path_hex data cs :
  open path = Some {| contents := data; read_fails := false |} ->
  open path_hex = Some {| contents := cs; read_fails := false |} ->
  bytes_ok data -> zlen data <= LS_MAX_EVENT_SIZE -> characters cs = characters (print_hex data) ->
  Forall (fun p => hd 0 p <> 45) [path; path_hex] ->
  let options := if json : bool then [str "--json"] else [] in
  main open stdin true fclose_ok (str "--hex" :: options ++ [path_hex]) = main open stdin true fclose_ok (options ++ [path]).
Proof.
  intros Ho Hoh Hb Hz Hc Hp options. apply Forall_cons in Hp as [Hp Hph]. apply Forall_cons in Hph as [Hph _].
  assert (forall hx js p, hd 0 p <> 45 -> parse_arguments [p] hx js None = inr (hx, js, Some p) /\ p <> str "-") as Hparse.
  { intros hx js0 p Hn. apply Z.eqb_neq in Hn as Hn'. cbn [parse_arguments].
    do 3 (rewrite decide_False; [|by intuition (subst; by apply Hn)]).
    rewrite Hn'. split; [done|]. intros ->. by apply Hn. }
  assert (parse_arguments (str "--hex" :: options ++ [path_hex]) false false None = inr (true, json, Some path_hex)) as E1.
  { destruct json; apply (Hparse true _ path_hex Hph). }
  assert (parse_arguments (options ++ [path]) false false None = inr (false, json, Some path)) as E2.
  { destruct json; apply (Hparse false _ path Hp). }
  unfold main. rewrite E1, E2. rewrite !bool_decide_false by by eapply (Hparse true true). rewrite Ho, Hoh. cbn [negb].
  rewrite (printed_hex_reads_back data cs Hb Hz Hc), read_binary_all by done. done.
Qed.

(** ** The JSON document

    JSON values with their text, without the strings that would need an escape. *)

Unset Elimination Schemes.
Inductive json_value : Type :=
| JNumber (v : Z)
| JString (s : list Z)
| JArray (l : list json_value)
| JObject (l : list (string * json_value)).
Set Elimination Schemes.

Definition quoted (s : list Z) : list Z := [34] ++ s ++ [34].
Definition commas (l : list (list Z)) : list Z :=
  match l with [] => [] | x :: l => x ++ mjoin (map (fun y => str "," ++ y) l) end.

Fixpoint json_text (j : json_value) : list Z :=
  match j with
  | JNumber v => decimal v
  | JString s => quoted s
  | JArray l => str "[" ++ commas (map json_text l) ++ str "]"
  | JObject l => str "{" ++ commas (map (fun m => quoted (str (fst m)) ++ str ":" ++ json_text (snd m)) l) ++ str "}"
  end.

(** A printable character that is neither a quote nor a backslash. *)
Definition plain (s : list Z) : bool := forallb (fun c => (32 <=? c) && (c <? 127) && negb (c =? 34) && negb (c =? 92)) s.

Fixpoint json_plain (j : json_value) : bool :=
  match j with
  | JNumber v => 0 <=? v
  | JString s => plain s
  | JArray l => forallb json_plain l
  | JObject l => forallb (fun m => plain (str (fst m)) && json_plain (snd m)) l
  end.

(** What the document says of a header and of a field. *)
Definition json_header (i : ls_envelope_info_t) : list (string * json_value) :=
  [("version", JNumber (version i)); ("event_type", JNumber (type i)); ("event_type_name", JString (str (event_type_name (type i))));
   ("architecture", JNumber (architecture i)); ("architecture_name", JString (str (architecture_name (architecture i))));
   ("flags", JNumber (flags i)); ("sequence", JNumber (sequence i)); ("event_id", JNumber (event_id i));
   ("event_id_hex", JString (hex 8 (event_id i))); ("payload_length", JNumber (payload_length i))].
Definition json_encoding (encoding : string) (i : ls_envelope_info_t) : list (string * json_value) :=
  [("payload_encoding", JString (str encoding)); ("integrity", JString (str (integrity_status i)))].
Definition json_tlv (f : Z * list Z) : json_value :=
  JObject [("type", JNumber (fst f)); ("name", JString (str (tlv_name (fst f)))); ("length", JNumber (zlen (snd f)));
           ("value_hex", JString (print_hex (snd f)))].

(** The document of an envelope: the fields of the payload, unless it is encrypted. *)
Inductive describes (i : ls_envelope_info_t) (data : list Z) : json_value -> Prop :=
| describes_encrypted : has_flag (flags i) LS_ENVELOPE_ENCRYPTED = true ->
    describes i data (JObject (json_header i ++ json_encoding "encrypted" i))
| describes_fields fs : has_flag (flags i) LS_ENVELOPE_ENCRYPTED = false -> Forall tlv_ok fs ->
    slice LS_LEP_HEADER_SIZE (payload_length i) data = encode_tlvs fs ->
    describes i data (JObject (json_header i ++ json_encoding "tlv" i ++ [("tlvs", JArray (map json_tlv fs))])).

Lemma header_text i tail (rest : list (string * json_value)) :
  json_text (JObject (json_header i ++ rest)) ++ tail =
  print_json_header i ++ mjoin (map (fun y => str "," ++ y) (map (fun m => quoted (str (fst m)) ++ str ":" ++ json_text (snd m)) rest)) ++
  str "}" ++ tail.
Proof.
  cbn [json_text json_header app map commas mjoin list_join fst snd]. unfold print_json_header, js.
  generalize (str (event_type_name (type i))) (str (architecture_name (architecture i))) (hex 8 (event_id i)).
  generalize (decimal (version i)) (decimal (type i)) (decimal (architecture i)) (decimal (flags i)) (decimal (sequence i))
    (decimal (event_id i)) (decimal (payload_length i)).
  unfold quoted. intros. repeat (rewrite <- app_assoc || rewrite <- app_comm_cons). vm_compute. reflexivity.
Qed.

Lemma tlv_text f (rest : list Z) :
  json_text (json_tlv f) ++ rest =
  js "{'type':" ++ decimal (fst f) ++ js ",'name':'" ++ str (tlv_name (fst f)) ++ js "','length':" ++ decimal (zlen (snd f)) ++
  js ",'value_hex':'" ++ print_hex (snd f) ++ js "'}" ++ rest.
Proof.
  cbn [json_text json_tlv map commas mjoin list_join fst snd]. unfold js, quoted.
  generalize (str (tlv_name (fst f))) (print_hex (snd f)) (decimal (fst f)) (decimal (zlen (snd f))). intros.
  repeat (rewrite <- app_assoc || rewrite <- app_comm_cons). vm_compute. reflexivity.
Qed.

(** Printing the fields one by one gives the elements of the array. *)
Lemma print_json_fields fs count out : 0 <= count -> count + zlen fs < 2 ^ 32 ->
  run_visitor print_json_tlv fs (count, out) =
  (LS_OK, (count + zlen fs, out ++ if count =? 0 then commas (map json_text (map json_tlv fs))
                                   else mjoin (map (fun y => str "," ++ y) (map json_text (map json_tlv fs))))).
Proof.
  revert count out. induction fs as [|[t v] fs IH]; intros count out H0 Hc.
  - cbn [run_visitor map mjoin list_join commas]. rewrite zlen_nil, Z.add_0_r. destruct (count =? 0); by rewrite app_nil_r.
  - rewrite zlen_cons in *. pose proof (zlen_nonneg fs). cbn [run_visitor]. unfold and_then, print_json_tlv at 1.
    cbn [is_ok]. unfold u32. rewrite Z.mod_small by lia. rewrite IH by lia.
    destruct (Z.eqb_spec (count + 1) 0) as [?|_]; [lia|]. do 2 f_equal; [lia|].
    rewrite <- (app_nil_r (out ++ _)), <- !app_assoc. f_equal.
    pose proof (tlv_text (t, v)) as E. cbn [fst snd] in E.
    destruct (count =? 0); cbn [map commas mjoin list_join app]; rewrite ?app_nil_r, <- ?app_assoc; rewrite E; by rewrite <- ?app_assoc.
Qed.

(** A payload within the width of its length has few fields. *)
Lemma fields_count fs : 4 * zlen fs <= zlen (encode_tlvs fs).
Proof.
  induction fs as [|f fs IH]; [done|]. change (encode_tlvs (f :: fs)) with (encode_tlv f ++ encode_tlvs fs).
  rewrite zlen_app, encode_tlv_zlen, zlen_cons. pose proof (zlen_nonneg (snd f)). lia.
Qed.

(** *** Every string of the document is plain *)

Lemma plain_app a b : plain (a ++ b) = plain a && plain b.
Proof. apply forallb_app. Qed.

Lemma plain_hex n v : plain (hex n v) = true.
Proof.
  apply forallb_forall. intros c Hc. unfold hex in Hc. apply in_map_iff in Hc as (i & <- & _).
  assert (forall d, 0 <= d < 16 -> (32 <=? lower_hex d) && (lower_hex d <? 127) && negb (lower_hex d =? 34) && negb (lower_hex d =? 92) = true) as Hl.
  { intros d Hd. unfold lower_hex. repeat rewrite andb_true_iff. rewrite !negb_true_iff, !Z.eqb_neq, Z.leb_le, Z.ltb_lt.
    destruct (Z.ltb_spec d 10); lia. }
  apply Hl. change 15 with (Z.ones 4). rewrite Z.land_ones by lia. apply Z.mod_pos_bound. lia.
Qed.

Lemma plain_print_hex v : plain (print_hex v) = true.
Proof.
  induction v as [|b v IH]; [done|]. unfold print_hex in *. cbn [map mjoin list_join]. by rewrite plain_app, plain_hex.
Qed.

Lemma plain_names t : plain (str (tlv_name t)) = true /\ plain (str (event_type_name t)) = true /\ plain (str (architecture_name t)) = true.
Proof.
  split; [|split]; [unfold tlv_name|unfold event_type_name|unfold architecture_name]; repeat case_match; reflexivity.
Qed.

Lemma describes_plain i body auth data doc : envelope_ok i body auth -> describes i data doc -> json_plain doc = true.
Proof.
  intros [O1 O2 O3 [O4 _] O5 O6 O7 _ _ _] Hd. unfold is_u8, is_u32 in *.
  assert (forall n, 0 <= n -> json_plain (JNumber n) = true) as Hn by (intros; by apply Z.leb_le).
  assert (forallb (fun m => plain (str (fst m)) && json_plain (snd m)) (json_header i) = true) as Hh.
  { unfold json_header. cbn [forallb fst snd]. rewrite !Hn by lia. cbn [json_plain].
    destruct (plain_names (type i)) as (_ & -> & _). destruct (plain_names (architecture i)) as (_ & _ & ->). by rewrite plain_hex. }
  assert (forall s, plain (str s) = true -> forallb (fun m => plain (str (fst m)) && json_plain (snd m)) (json_encoding s i) = true) as He.
  { intros s Hs. unfold json_encoding. cbn [forallb fst snd json_plain]. rewrite Hs. unfold integrity_status. by case_match. }
  destruct Hd as [Hf|fs Hf Hfs Hp]; cbn [json_plain]; rewrite !forallb_app, Hh, He by done; [done|].
  cbn [forallb fst snd json_plain andb]. rewrite andb_true_r. apply andb_true_intro. split; [done|].
  apply forallb_forall. intros j Hj. apply in_map_iff in Hj as ([t v] & <- & Hin).
  rewrite List.Forall_forall in Hfs. destruct (Hfs _ Hin) as (Ht & _). cbn [fst snd] in Ht.
  unfold json_tlv. cbn [json_plain forallb fst snd]. destruct (plain_names t) as (-> & _ & _). rewrite plain_print_hex.
  rewrite (proj2 (Z.leb_le 0 t)), (proj2 (Z.leb_le 0 (zlen v))) by (apply zlen_nonneg || lia). reflexivity.
Qed.

(** *** The tool writes whole documents *)

Lemma encrypted_text i (rest : list Z) :
  mjoin (map (fun y => str "," ++ y) (map (fun m => quoted (str (fst m)) ++ str ":" ++ json_text (snd m)) (json_encoding "encrypted" i))) ++ rest =
  js ",'payload_encoding':'encrypted','integrity':'" ++ str (integrity_status i) ++ js "'" ++ rest.
Proof.
  unfold json_encoding. cbn [json_text map mjoin list_join fst snd]. unfold quoted, js. generalize (str (integrity_status i)). intros l.
  repeat (rewrite <- app_assoc || rewrite <- app_comm_cons). vm_compute. reflexivity.
Qed.

Lemma tlvs_text i (fs : list (Z * list Z)) (rest : list Z) :
  mjoin (map (fun y => str "," ++ y) (map (fun m => quoted (str (fst m)) ++ str ":" ++ json_text (snd m))
    (json_encoding "tlv" i ++ [("tlvs"%string, JArray (map json_tlv fs))]))) ++ rest =
  js ",'payload_encoding':'tlv','integrity':'" ++ str (integrity_status i) ++ js "','tlvs':[" ++
  commas (map json_text (map json_tlv fs)) ++ str "]" ++ rest.
Proof.
  unfold json_encoding. cbn [json_text map mjoin list_join fst snd app]. unfold quoted, js.
  generalize (str (integrity_status i)) (commas (map json_text (map json_tlv fs))). intros l k.
  repeat (rewrite <- app_assoc || rewrite <- app_comm_cons). vm_compute. reflexivity.
Qed.

Lemma validate_tlvs fs out : run_visitor validate_tlv fs out = (LS_OK, out).
Proof. revert out. by induction fs as [|[t v] fs IH]; intros; [|apply IH]. Qed.



Example demo_document :
  dump_envelope (envelope_bytes demo_info (encode_tlvs [(3, [1; 2])]) []) true =
  finished (js "{'version':1,'event_type':3,'event_type_name':'message','architecture':2,'architecture_name':'riscv','flags':0," ++
    js "'sequence':9,'event_id':77,'event_id_hex':'0000004d','payload_length':6,'payload_encoding':'tlv'," ++
    js "'integrity':'not_present','tlvs':[{'type':3,'name':'event','length':2,'value_hex':'0102'}]}" ++ newline).
Proof. vm_compute. reflexivity. Qed.

(** The text form likewise: a line for the header and, unless the envelope is encrypted,
    a line for every field. *)
Theorem dump_text_whole data : bytes_ok data ->
  (exists e, ls_envelope_validate (Some data) = Err e /\ dump_envelope data false = failed 1 [] [InvalidEnvelope e]) \/
  (exists i fs, ls_envelope_validate (Some data) = Ok i /\
     (has_flag (flags i) LS_ENVELOPE_ENCRYPTED = false -> slice LS_LEP_HEADER_SIZE (payload_length i) data = encode_tlvs fs) /\
     dump_envelope data false = finished (text_header i ++
       if has_flag (flags i) LS_ENVELOPE_ENCRYPTED
       then str "  payload: encrypted (structural metadata only; no decryption key was supplied)" ++ newline
       else mjoin (map (fun f => snd (print_tlv (fst f) (snd f) [])) fs))).
Proof.
  intros Hb. unfold dump_envelope. destruct (ls_envelope_validate (Some data)) as [i|e] eqn:Ev; [right|left; by exists e].
  exists i. cbn [negb]. destruct (has_flag (flags i) LS_ENVELOPE_ENCRYPTED) eqn:Ee; [by exists []|].
  destruct (envelope_fields data i Hb Ev Ee) as (fs & Hfs & Hp & Hrun). exists fs. split; [done|]. split; [done|]. rewrite Hrun.
  assert (forall out, run_visitor print_tlv fs out = (LS_OK, out ++ mjoin (map (fun f => snd (print_tlv (fst f) (snd f) [])) fs))) as ->.
  { clear. induction fs as [|[t v] fs IH]; intros out; [by cbn; rewrite app_nil_r|]. cbn [run_visitor map mjoin list_join fst snd].
    unfold and_then, print_tlv at 1. cbn [is_ok]. rewrite IH. f_equal. unfold print_tlv at 2. cbn [snd app]. by rewrite <- !app_assoc. }
  done.
Qed.
