(* ===== verification/Stream.v ===== *)
(** * Stream transport ([src/transport/stream.c])

    Frames around envelopes on a byte stream: a send that can be resumed part by part
    after a busy writer, acknowledgement messages, and the receiver's check of a
    frame. *)

From S2P Require Import Prelude Util FaultInjection Storage FlashLayer Envelope Transport Spool.

Definition LS_STREAM_TRANSPORT_VERSION : Z := 1.
Definition LS_STREAM_TRANSPORT_HEADER_SIZE : Z := 8.
Definition LS_STREAM_TRANSPORT_TRAILER_SIZE : Z := 4.
Definition LS_STREAM_TRANSPORT_STATE_MAGIC : Z := 0x4c535354.
Definition LS_LSAK_SIZE : Z := 12.
Definition LS_LSAK_VERSION : Z := 1.
Definition LS_LSAK_ACK_STORED : Z := 1.
Definition LS_LSAK_ACK_DUPLICATE : Z := 2.
Definition LS_LSAK_NACK_INTERNAL : Z := 8.

Record ls_lsak_t : Type := {
  lsak_version : Z;
  lsak_status : Z;
  lsak_event_id : Z;
}.

Record ls_stream_frame_t : Type := {
  sf_envelope : list Z;
  sf_envelope_length : Z;
  sf_envelope_crc : Z;
}.

(** The configuration members of [ls_stream_transport_t], over the state [S] behind
    [context], and the members that the functions change. *)
Record stream_config (S : Type) : Type := {
  s_write : option (list Z -> st S ls_result_t);
  s_wait_ack : option (Z -> Z -> st S ls_result_t);
  s_maximum_envelope : Z;
  s_ack_timeout_ms : Z;
}.
Arguments s_write {S} _.
Arguments s_wait_ack {S} _.
Arguments s_maximum_envelope {S} _.
Arguments s_ack_timeout_ms {S} _.

Record ls_stream_transport_t : Type := {
  pending_event_id : Z;
  pending_crc : Z;
  pending_length : Z;
  header_offset : Z;
  payload_offset : Z;
  trailer_offset : Z;
  pending : bool;
  awaiting_ack : bool;
  sending : bool;
  state_magic : Z;
}.

Definition clear_pending (s : ls_stream_transport_t) : ls_stream_transport_t :=
  {| pending_event_id := 0; pending_crc := 0; pending_length := 0; header_offset := 0; payload_offset := 0;
     trailer_offset := 0; pending := false; awaiting_ack := false; sending := sending s; state_magic := state_magic s |}.

Definition set_sending (b : bool) (s : ls_stream_transport_t) : ls_stream_transport_t :=
  {| pending_event_id := pending_event_id s; pending_crc := pending_crc s; pending_length := pending_length s;
     header_offset := header_offset s; payload_offset := payload_offset s; trailer_offset := trailer_offset s;
     pending := pending s; awaiting_ack := awaiting_ack s; sending := b; state_magic := state_magic s |}.

Definition set_offsets (h d t : Z) (a : bool) (s : ls_stream_transport_t) : ls_stream_transport_t :=
  {| pending_event_id := pending_event_id s; pending_crc := pending_crc s; pending_length := pending_length s;
     header_offset := h; payload_offset := d; trailer_offset := t;
     pending := pending s; awaiting_ack := a; sending := sending s; state_magic := state_magic s |}.

Definition acquire_stream (info : ls_envelope_info_t) (length crc : Z) : st ls_stream_transport_t ls_result_t := fun s =>
  if negb (state_magic s =? LS_STREAM_TRANSPORT_STATE_MAGIC) then (LS_EINVAL, s)
  else if sending s then (LS_EBUSY, s)
  else if pending s && (negb (pending_event_id s =? event_id info) || negb (pending_length s =? length) ||
                        negb (pending_crc s =? crc)) then (LS_EBUSY, s)
  else
    (LS_OK,
     set_sending true
       (if negb (pending s) then
          {| pending_event_id := event_id info; pending_crc := crc; pending_length := length; header_offset := 0;
             payload_offset := 0; trailer_offset := 0; pending := true; awaiting_ack := false;
             sending := sending s; state_magic := state_magic s |}
        else s)).

(** [ls_stream_transport_init] and [ls_stream_transport_reset] on a non-null stream. *)
Definition ls_stream_transport_init : st ls_stream_transport_t ls_result_t := fun _ =>
  (LS_OK, {| pending_event_id := 0; pending_crc := 0; pending_length := 0; header_offset := 0; payload_offset := 0;
             trailer_offset := 0; pending := false; awaiting_ack := false; sending := false;
             state_magic := LS_STREAM_TRANSPORT_STATE_MAGIC |}).

Definition release_stream (r : ls_result_t) (s : ls_stream_transport_t) : ls_stream_transport_t :=
  set_sending false
    (if ls_transport_result_is_retryable r && awaiting_ack s then set_offsets 0 0 0 false s
     else if is_ok r || negb (ls_transport_result_is_retryable r) then clear_pending s else s).

Definition ls_stream_transport_reset : st ls_stream_transport_t ls_result_t := fun s =>
  if negb (state_magic s =? LS_STREAM_TRANSPORT_STATE_MAGIC) then (LS_EINVAL, s)
  else if sending s then (LS_EBUSY, s)
  else (LS_OK, clear_pending s).

(** The header and the trailer of a frame. *)
Definition frame_header (length : Z) : list Z := [0x4c; 0x53; LS_STREAM_TRANSPORT_VERSION; 0] ++ le 4 length.
Definition frame_trailer (data : list Z) : list Z := le 4 (ls_crc32 data).

Section Send.
Context {S : Type} (c : stream_config S).
Local Abbreviation state := (ls_stream_transport_t * S)%type.

Definition ls_stream_transport_max_payload : Z :=
  if s_maximum_envelope c =? 0 then LS_MAX_EVENT_SIZE else s_maximum_envelope c.

(** One of the three parts: write what is left of it, and on success note that it is
    complete. *)
Definition write_part (write : list Z -> st S ls_result_t) (offset : ls_stream_transport_t -> Z)
    (set : Z -> ls_stream_transport_t -> ls_stream_transport_t) (bytes : list Z) : st state ls_result_t := fun '(s, x) =>
  if negb (awaiting_ack s) && (offset s <? zlen bytes) then
    let '(r, x) := write (drop (Z.to_nat (offset s)) bytes) x in
    (r, (if is_ok r then set (zlen bytes) s else s, x))
  else (LS_OK, (s, x)).

Definition write_header write (bytes : list Z) : st state ls_result_t :=
  write_part write header_offset (fun n s => set_offsets n (payload_offset s) (trailer_offset s) (awaiting_ack s) s) bytes.
Definition write_payload write (bytes : list Z) : st state ls_result_t :=
  write_part write payload_offset (fun n s => set_offsets (header_offset s) n (trailer_offset s) (awaiting_ack s) s) bytes.
Definition write_trailer write (bytes : list Z) : st state ls_result_t :=
  write_part write trailer_offset (fun n s => set_offsets (header_offset s) (payload_offset s) n (awaiting_ack s) s) bytes.

Definition await_ack (event : Z) : st state ls_result_t := fun '(s, x) =>
  match s_wait_ack c with
  | None => (LS_OK, (s, x))
  | Some wait =>
      let s := set_offsets (header_offset s) (payload_offset s) (trailer_offset s) true s in
      let '(r, x) := wait event (s_ack_timeout_ms c) x in (r, (s, x))
  end.

(** [ls_stream_transport_send] on a non-null stream; lengths fit [size_t], which has 32
    bits here. *)
Definition ls_stream_transport_send (data : option (list Z)) : st state ls_result_t := fun '(s, x) =>
  match s_write c, data with
  | Some write, Some data =>
      let length := zlen data in
      if ls_stream_transport_max_payload <? length then (LS_ENOSPACE, (s, x))
      else
        match ls_envelope_validate (Some data) with
        | Err e => (e, (s, x))
        | Ok info =>
            let '(r, s) := acquire_stream info length (ls_crc32 data) s in
            if negb (is_ok r) then (r, (s, x))
            else
              let '(r, (s, x)) :=
                (write_header write (frame_header length) ;;? write_payload write data ;;?
                 write_trailer write (frame_trailer data) ;;? await_ack (event_id info)) (s, x) in
              (r, (release_stream r s, x))
        end
  | _, _ => (LS_EINVAL, (s, x))
  end.
End Send.

(** ** Receiving *)

Definition ls_lsak_parse (data : option (list Z)) : res ls_lsak_t :=
  match data with
  | None => Err LS_EINVAL
  | Some data =>
      if negb (zlen data =? LS_LSAK_SIZE) then Err LS_EINVAL
      else if negb (byte_at data 0 =? 0x4c) || negb (byte_at data 1 =? 0x53) || negb (byte_at data 2 =? 0x41) ||
              negb (byte_at data 3 =? 0x4b) then Err LS_ECORRUPT
      else if negb (byte_at data 4 =? LS_LSAK_VERSION) then Err LS_ENOTSUP
      else if (byte_at data 5 <? LS_LSAK_ACK_STORED) || (LS_LSAK_NACK_INTERNAL <? byte_at data 5) ||
              negb (byte_at data 6 =? 0) || negb (byte_at data 7 =? 0) then Err LS_ECORRUPT
      else Ok {| lsak_version := byte_at data 4; lsak_status := byte_at data 5; lsak_event_id := read_u32 data 8 |}
  end.

Definition ls_lsak_is_success (status : Z) : bool :=
  (status =? LS_LSAK_ACK_STORED) || (status =? LS_LSAK_ACK_DUPLICATE).

Definition ls_stream_frame_parse (data : option (list Z)) (maximum_envelope : Z) : res ls_stream_frame_t :=
  match data with
  | None => Err LS_EINVAL
  | Some data =>
      let length := zlen data in
      let overhead := LS_STREAM_TRANSPORT_HEADER_SIZE + LS_STREAM_TRANSPORT_TRAILER_SIZE in
      if length <? overhead then Err LS_EINVAL
      else if negb (byte_at data 0 =? 0x4c) || negb (byte_at data 1 =? 0x53) then Err LS_ECORRUPT
      else if negb (byte_at data 2 =? LS_STREAM_TRANSPORT_VERSION) || negb (byte_at data 3 =? 0) then Err LS_ENOTSUP
      else
        let encoded_length := read_u32 data 4 in
        let maximum := if maximum_envelope =? 0 then LS_MAX_EVENT_SIZE else maximum_envelope in
        if maximum <? encoded_length then Err LS_ENOSPACE
        else if negb (encoded_length =? length - overhead) then Err LS_ECORRUPT
        else
          let envelope := slice LS_STREAM_TRANSPORT_HEADER_SIZE encoded_length data in
          let crc := read_u32 data (LS_STREAM_TRANSPORT_HEADER_SIZE + encoded_length) in
          if negb (crc =? ls_crc32 envelope) then Err LS_ECORRUPT
          else
            match ls_envelope_validate (Some envelope) with
            | Err e => Err e
            | Ok _ => Ok {| sf_envelope := envelope; sf_envelope_length := encoded_length; sf_envelope_crc := crc |}
            end
  end.

(** ** Sending *)

(** The bytes of a frame. *)
Definition frame (data : list Z) : list Z := frame_header (zlen data) ++ data ++ frame_trailer data.

(** Its first [n] parts. *)
Definition sent (n : nat) (data : list Z) : list Z :=
  concat (take n [frame_header (zlen data); data; frame_trailer data]).

(** What the writer promises: it takes all the bytes or reports an error and takes
    none; waiting for an acknowledgement sends nothing. *)
Class WriterOk {S} (c : stream_config S) (wire : S -> list Z) : Prop := {
  writer_takes write d x r x' : s_write c = Some write -> write d x = (r, x') ->
    wire x' = wire x ++ if is_ok r then d else [];
  waiting_keeps wait e t x r x' : s_wait_ack c = Some wait -> wait e t x = (r, x') -> wire x' = wire x;
}.

(** Between two calls: [n] parts of the frame of [data] are sent, none if none is
    pending. *)
Definition at_part (n : nat) (data : list Z) (s : ls_stream_transport_t) : Prop :=
  awaiting_ack s = false /\ header_offset s = (if (0 <? n)%nat then 8 else 0) /\
  payload_offset s = (if (1 <? n)%nat then zlen data else 0) /\ trailer_offset s = (if (2 <? n)%nat then 4 else 0).

Definition idle_stream (s : ls_stream_transport_t) : Prop :=
  state_magic s = LS_STREAM_TRANSPORT_STATE_MAGIC /\ sending s = false /\ pending s = false.

Definition resumable (info : ls_envelope_info_t) (data : list Z) (n : nat) (s : ls_stream_transport_t) : Prop :=
  (idle_stream s /\ n = O) \/
  (state_magic s = LS_STREAM_TRANSPORT_STATE_MAGIC /\ sending s = false /\ pending s = true /\ (n < 3)%nat /\
   pending_event_id s = event_id info /\ pending_length s = zlen data /\ pending_crc s = ls_crc32 data /\ at_part n data s).

(** In a call: the frame is this one, and [n] parts of it are sent. *)
Definition of_frame (info : ls_envelope_info_t) (data : list Z) (s : ls_stream_transport_t) : Prop :=
  state_magic s = LS_STREAM_TRANSPORT_STATE_MAGIC /\ pending s = true /\
  pending_event_id s = event_id info /\ pending_length s = zlen data /\ pending_crc s = ls_crc32 data.

Definition in_send (info : ls_envelope_info_t) (data : list Z) (n : nat) (s : ls_stream_transport_t) : Prop :=
  of_frame info data s /\ at_part n data s.

Lemma acquire_resumes info data n s r s' : resumable info data n s ->
  acquire_stream info (zlen data) (ls_crc32 data) s = (r, s') -> r = LS_OK /\ in_send info data n s' /\ (n < 3)%nat.
Proof.
  intros [[(H1 & H2 & H3) ->]|(H1 & H2 & H3 & Hn & H4 & H5 & H6 & H7)] H; unfold acquire_stream in H;
    rewrite H1, H2, H3, Z.eqb_refl in H; cbn [negb andb] in H.
  - injection H as <- <-. split_and!; try done. lia.
  - rewrite H4, H5, H6, !Z.eqb_refl in H. cbn [negb orb] in H. injection H as <- <-. split_and!; done.
Qed.

Section SendOk.
Context {S : Type} (c : stream_config S) (wire : S -> list Z) `{!WriterOk c wire}.
Context (info : ls_envelope_info_t) (data : list Z) (write : list Z -> st S ls_result_t).
Hypothesis Hw : s_write c = Some write.
Hypothesis Hd : 0 < zlen data.
Local Abbreviation inside := (in_send info data).

(** Bytes were sent that lead from [n] parts to [m] parts. *)
Definition sends (n m : nat) (x x' : S) : Prop :=
  exists part, wire x' = wire x ++ part /\ sent n data ++ part = sent m data.

Lemma sends_refl n x x' : wire x' = wire x -> sends n n x x'.
Proof. exists []. by rewrite !app_nil_r. Qed.

Lemma sends_trans n m k x y z : sends n m x y -> sends m k y z -> sends n k x z.
Proof. intros (p & H1 & H2) (q & H3 & H4). exists (p ++ q). by rewrite H3, H1, !app_assoc, H2. Qed.

(** [f] sends part [k] unless it is sent. *)
Definition sends_part (k : nat) (f : st (ls_stream_transport_t * S) ls_result_t) : Prop :=
  forall n s x r s' x', inside n s -> (k <= n <= 3)%nat -> f (s, x) = (r, (s', x')) ->
    exists m, sends n m x x' /\ inside m s' /\ (m <= 3)%nat /\ if is_ok r then (k < m)%nat else m = k.

(** [f] sends the parts from [k] on and waits. *)
Definition sends_from (k : nat) (f : st (ls_stream_transport_t * S) ls_result_t) : Prop :=
  forall n s x r s' x', inside n s -> (k <= n <= 3)%nat -> f (s, x) = (r, (s', x')) ->
    exists m, sends n m x x' /\
      ((r <> LS_OK /\ inside m s' /\ (m < 3)%nat) \/
       (m = 3%nat /\ of_frame info data s' /\ awaiting_ack s' = is_set (s_wait_ack c) /\ (s_wait_ack c = None -> r = LS_OK))).

Lemma write_part_spec k offset set bytes :
  0 < zlen bytes -> [frame_header (zlen data); data; frame_trailer data] !! k = Some bytes ->
  (forall n s, inside n s -> offset s = if (k <? n)%nat then zlen bytes else 0) ->
  (forall s, inside k s -> inside (Datatypes.S k) (set (zlen bytes) s)) ->
  sends_part k (write_part write offset set bytes).
Proof.
  intros Hb Hk Ho Hset n s x r s' x' Hs Hn H. unfold write_part in H. pose proof Hs as (_ & Ha & _).
  rewrite Ha, (Ho n s Hs) in H. cbn [negb andb] in H. destruct (k <? n)%nat eqn:E.
  - rewrite Z.ltb_irrefl in H. injection H as <- <- <-. exists n. apply Nat.ltb_lt in E.
    split_and!; try done; [by apply sends_refl|lia].
  - rewrite (proj2 (Z.ltb_lt 0 _) Hb) in H. apply Nat.ltb_ge in E. assert (n = k) as -> by lia.
    destruct (write _ x) as [r0 x0] eqn:Ew. injection H as <- <- <-.
    apply (writer_takes _ _ _ _ _ Hw) in Ew. change (drop (Z.to_nat 0) bytes) with bytes in Ew.
    apply lookup_lt_Some in Hk as Hlt. cbn [length] in Hlt. destruct (is_ok r0).
    + exists (Datatypes.S k). split; [|split; [by apply Hset|lia]]. exists bytes. split; [done|].
      unfold sent. rewrite (take_S_r _ _ bytes), concat_app by done. cbn [concat]. by rewrite app_nil_r.
    + exists k. rewrite app_nil_r in Ew. split_and!; try done; [by apply sends_refl|lia].
Qed.

Lemma header_part : sends_part 0 (write_header write (frame_header (zlen data))).
Proof.
  apply write_part_spec; [done..| |]; unfold in_send, at_part; intros; destruct_and!; split_and?; done.
Qed.

Lemma payload_part : sends_part 1 (write_payload write data).
Proof.
  apply write_part_spec; [done..| |]; unfold in_send, at_part; intros; destruct_and!; split_and?; done.
Qed.

Lemma trailer_part : sends_part 2 (write_trailer write (frame_trailer data)).
Proof.
  apply write_part_spec; [done..| |]; unfold in_send, at_part; intros; destruct_and!; split_and?; done.
Qed.

Lemma ack_part : sends_from 3 (await_ack c (event_id info)).
Proof.
  intros n s x r s' x' [Hf (Ha & _)] Hn H. assert (n = 3%nat) as -> by lia. exists 3%nat. unfold await_ack in H.
  destruct (s_wait_ack c) as [wait|] eqn:Ek.
  - destruct (wait _ _ x) as [r0 x0] eqn:Ewt. injection H as <- <- <-. apply (waiting_keeps _ _ _ _ _ _ Ek) in Ewt.
    split; [by apply sends_refl|]. right. split_and!; done.
  - injection H as <- <- <-. split; [by apply sends_refl|]. right. split_and!; done.
Qed.

Lemma sends_then k f g : (k < 3)%nat -> sends_part k f -> sends_from (Datatypes.S k) g -> sends_from k (f ;;? g).
Proof.
  intros Hk Hf Hg n s x r s' x' Hs Hn H. apply and_then_inv in H as [[H Hr]|([s1 x1] & H1 & H)].
  - destruct (Hf n s x r s' x' Hs Hn H) as (m & Hm & Hs' & _ & Hp). apply is_ok_false in Hr as Hr'. rewrite Hr' in Hp.
    exists m. split; [done|]. left. split_and!; (done || lia).
  - destruct (Hf n s x LS_OK s1 x1 Hs Hn H1) as (m1 & Hm1 & Hs1 & Hle & Hp). cbn [is_ok] in Hp.
    destruct (Hg m1 s1 x1 r s' x' Hs1 ltac:(lia) H) as (m & Hm & Hres). exists m. split; [by eapply sends_trans|done].
Qed.

Lemma send_parts : sends_from 0
  (write_header write (frame_header (zlen data)) ;;? write_payload write data ;;?
   write_trailer write (frame_trailer data) ;;? await_ack c (event_id info)).
Proof.
  apply sends_then; [lia|apply header_part|]. apply sends_then; [lia|apply payload_part|].
  apply sends_then; [lia|apply trailer_part|apply ack_part].
Qed.

Hypothesis Hmax : zlen data <= ls_stream_transport_max_payload c.
Hypothesis Hv : ls_envelope_validate (Some data) = Ok info.

(** One call. *)
Lemma send_spec n s x r s' x' : resumable info data n s ->
  ls_stream_transport_send c (Some data) (s, x) = (r, (s', x')) ->
  exists m, sends n m x x' /\
    (r = LS_OK -> m = 3%nat /\ idle_stream s') /\
    (ls_transport_result_is_retryable r = true ->
       (resumable info data m s' /\ (m < 3)%nat) \/ (m = 3%nat /\ resumable info data 0 s' /\ s_wait_ack c <> None)).
Proof.
  intros Hs H. unfold ls_stream_transport_send in H. rewrite Hw, Hv in H. rewrite (proj2 (Z.ltb_ge _ _) Hmax) in H.
  destruct (acquire_stream _ _ _ s) as [ra s1] eqn:Ea. apply acquire_resumes with (n := n) in Ea as (-> & Hs1 & Hn); [|done].
  cbn [negb is_ok] in H. destruct (and_then _ _ (s1, x)) as [rp [s2 x2]] eqn:Ep. injection H as <- <- <-.
  destruct (send_parts n s1 x rp s2 x2 Hs1 ltac:(lia) Ep) as (m & Hm & Hres). exists m. split; [done|].
  unfold release_stream. destruct Hres as [(Hr & [Hf Hat] & Hm3)|(-> & (F1 & F2 & F3 & F4 & F5) & Haw & Hno)].
  - split; [done|]. intros Hret. left. split; [|done]. right. destruct Hf as (F1 & F2 & F3 & F4 & F5).
    pose proof Hat as (Haw & _). rewrite Hret, Haw. apply is_ok_false in Hr. rewrite Hr. cbn [andb orb negb]. split_and!; done.
  - split.
    + intros ->. cbn [ls_transport_result_is_retryable andb is_ok orb]. split_and!; done.
    + intros Hret. right. split; [done|]. rewrite Hret, Haw. destruct (s_wait_ack c) as [wait|] eqn:Ek.
      * cbn [is_set andb]. split; [|done]. right. split_and!; (done || lia).
      * rewrite Hno in Hret by done. done.
Qed.

(** Retries after calls that asked for them. *)
Inductive retried : ls_stream_transport_t * S -> ls_stream_transport_t * S -> Prop :=
| retried_none p : retried p p
| retried_more p r q p' : ls_stream_transport_send c (Some data) p = (r, q) -> ls_transport_result_is_retryable r = true ->
    retried q p' -> retried p p'.

(** [k] whole frames and [m] parts of the next are on the wire after [base]. *)
Definition on_wire (base : list Z) (k m : nat) (x : S) : Prop :=
  wire x = base ++ concat (replicate k (frame data)) ++ sent m data.

Lemma on_wire_sends base k n m x x' : on_wire base k n x -> sends n m x x' -> on_wire base k m x'.
Proof. unfold on_wire. intros H (p & H1 & H2). by rewrite H1, H, <- H2, !app_assoc. Qed.

Lemma on_wire_whole base k x : on_wire base k 3 x -> on_wire base (Datatypes.S k) 0 x.
Proof.
  unfold on_wire. intros ->. rewrite replicate_S_end, concat_app. cbn [concat sent take].
  unfold frame. by rewrite !app_nil_r.
Qed.

Lemma retried_spec base p p' : retried p p' -> forall k n, resumable info data n (fst p) -> on_wire base k n (snd p) ->
  exists k' m, resumable info data m (fst p') /\ on_wire base k' m (snd p') /\ (s_wait_ack c = None -> k' = k).
Proof.
  induction 1 as [p|[s x] r [s1 x1] p' Hsend Hret H IH]; intros k n Hr Ho; [by exists k, n|].
  destruct (send_spec n s x r s1 x1 Hr Hsend) as (m & Hm & _ & Hnext). cbn [fst snd] in *.
  pose proof (on_wire_sends _ _ _ _ _ _ Ho Hm) as Ho1. destruct (Hnext Hret) as [[Hr1 _]|(-> & Hr1 & Hack)].
  - by apply (IH k m).
  - destruct (IH (Datatypes.S k) 0%nat) as (k' & m & G1 & G2 & _); [done|by apply on_wire_whole|].
    exists k', m. split_and!; done.
Qed.
End SendOk.

(** ** Frames *)

Lemma frame_fields data : zlen data < 2 ^ 32 -> bytes_ok data ->
  read_u32 (frame data) 4 = zlen data /\ slice 8 (zlen data) (frame data) = data /\
  read_u32 (frame data) (8 + zlen data) = ls_crc32 data /\ zlen (frame data) = zlen data + 12.
Proof.
  intros Hz Hb. pose proof (zlen_nonneg data). unfold read_u32, frame, frame_header, frame_trailer.
  assert (forall l, slice 4 4 (([0x4c; 0x53; LS_STREAM_TRANSPORT_VERSION; 0] ++ le 4 (zlen data)) ++ l) = le 4 (zlen data)) as ->
    by (intros l; reflexivity).
  rewrite le_get_le4 by (unfold is_u32; lia). split; [done|].
  assert (forall o n l, 0 <= o -> 0 <= n -> slice (8 + o) n (frame_header (zlen data) ++ l) = slice o n l) as Hsl.
  { intros o n l Ho Hn. unfold frame_header. rewrite slice_app_r by (autorewrite with latch_len; simpl; lia). f_equal.
    autorewrite with latch_len. simpl. lia. }
  split; [|split].
  - change 8 with (8 + 0). rewrite Hsl by lia. rewrite slice_app_l by lia. apply slice_full.
  - rewrite Hsl by lia. rewrite slice_app_r by lia. rewrite Z.sub_diag. change (slice 0 4 (le 4 (ls_crc32 data))) with (le 4 (ls_crc32 data)).
    apply le_get_le4, crc32_range.
  - autorewrite with latch_len. simpl. lia.
Qed.

(** A frame with these fields is this frame. *)
Lemma frame_of d : bytes_ok d -> 12 <= zlen d -> byte_at d 0 = 0x4c -> byte_at d 1 = 0x53 -> byte_at d 2 = 1 -> byte_at d 3 = 0 ->
  read_u32 d 4 = zlen d - 12 ->
  read_u32 d (8 + (zlen d - 12)) = ls_crc32 (slice 8 (zlen d - 12) d) -> d = frame (slice 8 (zlen d - 12) d).
Proof.
  intros Hb Hz H0 H1 H2 H3 Hl Hc. set (n := zlen d - 12) in *. set (e := slice 8 n d) in *.
  assert (zlen e = n) as He by (apply zlen_slice; lia).
  assert (forall o, 0 <= o -> o + 4 <= zlen d -> le 4 (le_get (slice o 4 d)) = slice o 4 d) as Hle.
  { intros o Ho Hz'. rewrite <- (le_le_get (slice o 4 d)) at 2 by auto with latch. by rewrite length_slice by lia. }
  assert (slice 0 4 d = [0x4c; 0x53; LS_STREAM_TRANSPORT_VERSION; 0]) as Hpre.
  { clear -H0 H1 H2 H3 Hz. destruct d as [|d0 [|d1 [|d2 [|d3 d]]]]; try (exfalso; vm_compute in Hz; by apply Hz).
    unfold byte_at in *. simpl in *. by subst. }
  assert (le 4 n = slice 4 4 d) as Hn by (rewrite <- Hl; apply Hle; lia).
  assert (le 4 (ls_crc32 e) = slice (8 + n) 4 d) as Ht by (rewrite <- Hc; apply Hle; lia).
  unfold frame, frame_header, frame_trailer. rewrite He, Hn, Ht, <- Hpre.
  rewrite <- (slice_full d) at 1. unfold e. replace (zlen d) with (4 + (4 + (n + 4))) by (unfold n; lia).
  rewrite !slice_split by lia. by rewrite <- !app_assoc.
Qed.

Lemma validate_length data i : ls_envelope_validate (Some data) = Ok i -> 0 < zlen data.
Proof. unfold ls_envelope_validate. destruct (_ || _) eqn:E; [done|]. bool_prop. unfold LS_LEP_HEADER_SIZE in *. lia. Qed.

Lemma frame_prefix data : byte_at (frame data) 0 = 0x4c /\ byte_at (frame data) 1 = 0x53 /\
  byte_at (frame data) 2 = LS_STREAM_TRANSPORT_VERSION /\ byte_at (frame data) 3 = 0.
Proof. split_and!; reflexivity. Qed.

(** Another envelope while one is pending. *)
Lemma pending_refuses {S} (c : stream_config S) write s x data info : s_write c = Some write ->
  zlen data <= ls_stream_transport_max_payload c -> ls_envelope_validate (Some data) = Ok info ->
  state_magic s = LS_STREAM_TRANSPORT_STATE_MAGIC -> pending s = true ->
  event_id info <> pending_event_id s \/ zlen data <> pending_length s \/ ls_crc32 data <> pending_crc s ->
  ls_stream_transport_send c (Some data) (s, x) = (LS_EBUSY, (s, x)).
Proof.
  intros Hw Hm Hv Hs Hp Hd. unfold ls_stream_transport_send. rewrite Hw, Hv, (proj2 (Z.ltb_ge _ _) Hm).
  unfold acquire_stream. rewrite Hs, Hp, Z.eqb_refl. cbn [negb andb].
  assert (negb (pending_event_id s =? event_id info) || negb (pending_length s =? zlen data) ||
    negb (pending_crc s =? ls_crc32 data) = true) as ->.
  { rewrite !orb_true_iff, !negb_true_iff, !Z.eqb_neq. destruct Hd as [?|[?|?]]; [left; left|left; right|right]; congruence. }
  by destruct (sending s).
Qed.

(** ** Theorems *)

(** C38: resumed sends keep the stream in step.  From an idle stream, however often
    sending an envelope was interrupted by a busy writer or a missing acknowledgement
    and repeated, once a call succeeds the bytes on the wire are whole copies of its
    frame, exactly one if acknowledgements are not used, and the stream is idle
    again.  While the envelope is pending, one that differs from it in event id, length or
    checksum is refused and sends nothing.  One that agrees in all three is taken for it;
    without authentication the checksum is no obstacle, see [pending_taken_over]. *)
Theorem stream_sends_whole_frames {S} (c : stream_config S) (wire : S -> list Z) `{!WriterOk c wire} write info data s x s1 x1 :
  s_write c = Some write -> zlen data <= ls_stream_transport_max_payload c ->
  ls_envelope_validate (Some data) = Ok info -> idle_stream s -> retried c data (s, x) (s1, x1) ->
  (forall s2 x2, ls_stream_transport_send c (Some data) (s1, x1) = (LS_OK, (s2, x2)) ->
     idle_stream s2 /\ exists k, wire x2 = wire x ++ concat (replicate (Datatypes.S k) (frame data)) /\
       (s_wait_ack c = None -> k = O)) /\
  (forall other info', zlen other <= ls_stream_transport_max_payload c -> ls_envelope_validate (Some other) = Ok info' ->
     event_id info' <> event_id info \/ zlen other <> zlen data \/ ls_crc32 other <> ls_crc32 data ->
     pending s1 = true -> ls_stream_transport_send c (Some other) (s1, x1) = (LS_EBUSY, (s1, x1))).
Proof.
  intros Hw Hm Hv Hi Hr. pose proof (validate_length _ _ Hv) as Hd.
  destruct (retried_spec c wire info data write Hw Hd Hm Hv (wire x) _ _ Hr 0%nat 0%nat) as (k & m & Hs1 & Ho & Hk).
  { left. done. } { unfold on_wire. cbn. by rewrite app_nil_r. }
  cbn [fst snd] in *. split.
  - intros s2 x2 Hsend. destruct (send_spec c wire info data write Hw Hd Hm Hv m s1 x1 LS_OK s2 x2 Hs1 Hsend) as (m' & Hm' & Hok & _).
    destruct (Hok eq_refl) as [-> Hidle]. split; [done|]. exists k. split; [|done].
    pose proof (on_wire_whole _ _ _ _ _ (on_wire_sends _ _ _ _ _ _ _ _ Ho Hm')) as Hx. unfold on_wire in Hx.
    rewrite Hx. cbn [sent take concat]. by rewrite app_nil_r.
  - intros other info' Ho' Hv' Hne Hp. destruct Hs1 as [[(_ & _ & Hp') _]|(E1 & _ & _ & _ & E2 & E3 & E4 & _)]; [congruence|].
    eapply pending_refuses; try done. by rewrite E2, E3, E4.
Qed.

(** C39: the receiver accepts exactly the frames.  Parsing a byte string succeeds if
    and only if it is the frame of a valid envelope within the limit, and yields that
    envelope, its length and its checksum: what a sender writes for an envelope is read
    back as that envelope. *)
Theorem stream_frame_exact d maximum f : bytes_ok d -> zlen d < 2 ^ 32 ->
  ls_stream_frame_parse (Some d) maximum = Ok f <->
  d = frame (sf_envelope f) /\ sf_envelope_length f = zlen (sf_envelope f) /\
  sf_envelope_crc f = ls_crc32 (sf_envelope f) /\
  zlen (sf_envelope f) <= (if maximum =? 0 then LS_MAX_EVENT_SIZE else maximum) /\
  exists info, ls_envelope_validate (Some (sf_envelope f)) = Ok info.
Proof.
  intros Hb Hz. unfold ls_stream_frame_parse, LS_STREAM_TRANSPORT_HEADER_SIZE, LS_STREAM_TRANSPORT_TRAILER_SIZE.
  change (8 + 4) with 12. set (max := if maximum =? 0 then _ else _). split.
  - intros H. destruct (zlen d <? 12) eqn:E0; [done|]. destruct (_ || _) eqn:E1 in H; [done|].
    destruct (_ || _) eqn:E2 in H; [done|]. destruct (max <? _) eqn:E3; [done|].
    destruct (negb (read_u32 d 4 =? _)) eqn:E4; [done|]. bool_prop. rewrite E4 in *.
    destruct (negb _) eqn:E5 in H; [done|]. bool_prop. rewrite E5 in H.
    destruct (ls_envelope_validate _) as [info|e] eqn:Ev; [|done]. injection H as <-. cbn [sf_envelope sf_envelope_length sf_envelope_crc].
    rewrite zlen_slice by lia. split_and!; try done; [|by exists info]. apply frame_of; done || lia.
  - destruct f as [env len crc]. cbn [sf_envelope sf_envelope_length sf_envelope_crc]. intros (-> & -> & -> & Hmax & info & Hv).
    assert (bytes_ok env) as Hbe by (unfold frame in Hb; rewrite !bytes_ok_app in Hb; apply Hb).
    assert (zlen env < 2 ^ 32) as Hze.
    { unfold frame in Hz. rewrite !zlen_app in Hz. pose proof (zlen_nonneg (frame_header (zlen env))).
      pose proof (zlen_nonneg (frame_trailer env)). lia. }
    destruct (frame_fields env Hze Hbe) as (F1 & F2 & F3 & F4). destruct (frame_prefix env) as (P0 & P1 & P2 & P3).
    pose proof (zlen_nonneg env). rewrite F1, F2, F3, F4, P0, P1, P2, P3, !Z.eqb_refl, Hv.
    rewrite (proj2 (Z.ltb_ge _ 12)), (proj2 (Z.ltb_ge max _)) by lia. cbn [negb orb].
    replace (zlen env + 12 - 12) with (zlen env) by lia. by rewrite Z.eqb_refl.
Qed.

(** Acknowledgements: exactly the messages of this form are accepted. *)
Definition lsak_bytes (a : ls_lsak_t) : list Z :=
  [0x4c; 0x53; 0x41; 0x4b; lsak_version a; lsak_status a; 0; 0] ++ le 4 (lsak_event_id a).

Lemma lsak_parse_exact d a : bytes_ok d ->
  ls_lsak_parse (Some d) = Ok a <->
  d = lsak_bytes a /\ lsak_version a = LS_LSAK_VERSION /\ LS_LSAK_ACK_STORED <= lsak_status a <= LS_LSAK_NACK_INTERNAL /\
  is_u32 (lsak_event_id a).
Proof.
  intros Hb. unfold ls_lsak_parse. split.
  - intros H. do 4 (case_if; [done|]). injection H as <-. bool_prop.
    assert (length d = 12%nat) as Hl by (unfold zlen, LS_LSAK_SIZE in *; lia).
    assert (zlen (slice 8 4 d) = 4) as Hs by (apply zlen_slice; unfold zlen; lia).
    assert (bytes_ok (slice 8 4 d)) as Hsb by auto with latch.
    assert (is_u32 (read_u32 d 8)) as Hid by (by apply le_get_u32).
    assert (le 4 (read_u32 d 8) = slice 8 4 d) as Hle.
    { unfold read_u32. rewrite <- (le_le_get (slice 8 4 d)) at 2 by done. f_equal. unfold zlen in Hs. lia. }
    unfold lsak_bytes. cbn [lsak_version lsak_status lsak_event_id]. rewrite Hle. clear Hle Hs Hsb.
    do 12 (destruct d as [|? d]; [done|]). destruct d; [|done]. unfold byte_at in *. simpl in *. subst. split_and!; done.
  - intros (-> & Hv & Hs & Hid). destruct a as [v st id]. cbn [lsak_version lsak_status lsak_event_id] in *. subst v.
    set (d := lsak_bytes _). assert ((zlen d =? LS_LSAK_SIZE) = true) as -> by done.
    change (byte_at d 0) with 0x4c. change (byte_at d 1) with 0x53. change (byte_at d 2) with 0x41. change (byte_at d 3) with 0x4b.
    change (byte_at d 4) with LS_LSAK_VERSION. change (byte_at d 5) with st. change (byte_at d 6) with 0. change (byte_at d 7) with 0.
    rewrite (proj2 (Z.ltb_ge st _)), (proj2 (Z.ltb_ge _ st)) by lia. rewrite !Z.eqb_refl. cbn [negb orb].
    unfold read_u32. change (slice 8 4 d) with (le 4 id). by rewrite le_get_le4.
Qed.

(** A wire, with a writer that is busy a given number of times. *)
Definition demo_stream : stream_config (list Z * nat) :=
  {| s_write := Some (fun d '(w, n) => match n with O => (LS_OK, (w ++ d, O)) | Datatypes.S n => (LS_EAGAIN, (w, n)) end);
     s_wait_ack := None; s_maximum_envelope := 0; s_ack_timeout_ms := 0 |}.

#[export] Instance demo_writer_ok : WriterOk demo_stream fst.
Proof.
  split; [|done]. intros write d [w n] r x' [= <-]. destruct n; intros [= <- <-]; cbn; [done|by rewrite app_nil_r].
Defined.

Definition demo_idle : ls_stream_transport_t :=
  snd (ls_stream_transport_init {| pending_event_id := 0; pending_crc := 0; pending_length := 0; header_offset := 0;
    payload_offset := 0; trailer_offset := 0; pending := false; awaiting_ack := false; sending := false; state_magic := 0 |}).

Definition demo_resumed := snd (ls_stream_transport_send demo_stream (Some demo_data) (demo_idle, ([], 1%nat))).

Lemma stream_sends_whole_frames_witness :
  let run := ls_stream_transport_send demo_stream (Some demo_data) demo_resumed in
  pending (fst demo_resumed) = true /\ exists k, fst (snd (snd run)) = [] ++ concat (replicate (Datatypes.S k) (frame demo_data)) /\ k = O.
Proof.
  intros run. assert (ls_envelope_validate (Some demo_data) = Ok demo_info) as Hv by (apply envelope_accepts; exact demo_envelope_ok).
  assert (pending (fst demo_resumed) = true) as Hp by (vm_compute; reflexivity). split; [exact Hp|].
  destruct (stream_sends_whole_frames demo_stream fst (fun d '(w, n) => match n with O => (LS_OK, (w ++ d, O)) | Datatypes.S n => (LS_EAGAIN, (w, n)) end)
    demo_info demo_data demo_idle ([], 1%nat) (fst demo_resumed) (snd demo_resumed)) as [H _].
  - reflexivity.
  - vm_compute. discriminate.
  - exact Hv.
  - vm_compute. split; [reflexivity|]. split; reflexivity.
  - apply (retried_more _ _ _ LS_EAGAIN demo_resumed).
    + vm_compute. reflexivity.
    + reflexivity.
    + rewrite <- (surjective_pairing demo_resumed). apply retried_none.
  - destruct (H (fst (snd run)) (snd (snd run))) as (_ & k & Hk & Hz).
    + vm_compute. reflexivity.
    + exists k. split; [exact Hk|]. apply Hz. reflexivity.
Defined.

(** *** An envelope taken for the pending one

    An envelope without authentication ends in the checksum of its body, and its header in
    the checksum of the header, so the checksum of the whole depends on the lengths
    alone. Two such envelopes of one length and event id are the same to the stream: when
    the writer is busy at the trailer of the first, sending the second succeeds, and what
    is on the wire is the first. *)
Definition demo_other : list Z :=
  envelope_bytes {| version := 1; type := 4; architecture := 2; flags := 0; sequence := 10; event_id := 77; payload_length := 6 |}
    (encode_tlvs [(3, [8; 9])]) [].

(** A writer that is busy once, at the [n]-th write. *)
Definition demo_third : stream_config (list Z * nat) :=
  {| s_write := Some (fun d '(w, n) => match n with 1%nat => (LS_EAGAIN, (w, O)) | _ => (LS_OK, (w ++ d, Nat.pred n)) end);
     s_wait_ack := None; s_maximum_envelope := 0; s_ack_timeout_ms := 0 |}.

Lemma pending_taken_over :
  let first := ls_stream_transport_send demo_third (Some demo_data) (demo_idle, ([], 3%nat)) in
  let second := ls_stream_transport_send demo_third (Some demo_other) (snd first) in
  fst first = LS_EAGAIN /\ fst second = LS_OK /\ fst (snd (snd second)) = frame demo_data /\
  bool_decide (frame demo_data = frame demo_other) = false /\
  match ls_envelope_validate (Some demo_other) with Ok i => sequence i = 10 | Err _ => False end.
Proof. vm_compute. repeat split. Qed.

Lemma stream_frame_exact_witness :
  ls_stream_frame_parse (Some (frame demo_data)) 0 =
  Ok {| sf_envelope := demo_data; sf_envelope_length := zlen demo_data; sf_envelope_crc := ls_crc32 demo_data |}.
Proof.
  apply (stream_frame_exact (frame demo_data)).
  - unfold frame. apply bytes_ok_app; split; apply bytes_ok_app; split.
    + repeat (apply List.Forall_cons; [vm_compute; split; [discriminate|reflexivity]|]). apply List.Forall_nil.
    + apply bytes_ok_le.
    + apply bytes_ok_envelope. exact demo_envelope_ok.
    + apply bytes_ok_le.
  - vm_compute. reflexivity.
  - split; [reflexivity|]. split; [reflexivity|]. split; [reflexivity|]. split; [vm_compute; discriminate|].
    exists demo_info. apply envelope_accepts. exact demo_envelope_ok.
Defined.
